(* ===== verification/_CoqProject ===== *)
-Q . S2P
Prelude.v
Values.v
Store.v
ChatNames.v
Commits.v
Messages.v
Attachments.v
Slots.v
Calls.v
Devices.v
Identity.v
Fragments.v
Deletion.v
Erasure.v
Exchange.v
Recovery.v
Frames.v
Courier.v
Rows.v
OrgRoster.v
ReadMarks.v
Ledger.v
CallButtons.v
UserTransfers.v
Files.v
Background.v
History.v
Runtime.v
Transfer.v
Signing.v
Sessions.v
Topology.v
Removal.v
TextHistory.v
Packets.v
DeviceHistory.v
Serving.v
