(* ===== verification/Prelude.v ===== *)
(** * Mosh: the state machines of the Rust core

    Mosh is a peer-to-peer messenger: a Flutter front end over the Rust crate
    [mosh-core] (src/mosh-core/src).  The crate keeps conversations (private
    DMs, private groups, public channels) whose content is encrypted by MLS and
    gossiped over an untrusted mesh.  Nothing on the wire is ordered, unique or
    honest, every device of a user is a replica, and a crash may come between
    any two writes.  This development models the parts that have to stay right
    under those conditions and proves what they promise.  Definitions keep the
    names of the source; the source map that goes with the development gives
    the lines each one translates.

    ** How the parts meet

    A conversation's runtime takes a frame from the mesh, reassembles it
    (Fragments), lets MLS authenticate it, and hands it to a component: a
    commit to the sequencer (Commits), a file frame to a transfer
    (Attachments), a call control to the call session (Calls), a deletion
    message to the deletion exchange (Exchange), a chat-name record of another
    device of the same user to the register (ChatNames).  What a component
    decides is filed in the encrypted row store (Store) before it takes effect,
    messages live in the log and leave through the outbox (Messages), are
    written and read back by the conversation's history (History) and its
    runtime (Runtime), and who speaks for a user is settled by the device
    roster (Devices) the installation keeps in its identity record (Identity).
    A conversation's transfer (Transfer, Serving) puts the transfer core, the
    slots the user sees (Slots), the cached files (Files) and the admissions on
    disk (UserTransfers) together.  Which devices are in a DM at all is settled
    by their claims and the rosters of the two users (Topology, Removal); what
    they tell each other travels in signed packets (Packets), text history
    among it (TextHistory), and is taken in behind a barrier (DeviceHistory).

    ** The files

    - Prelude (this file): [Result] and [?], methods over [&mut self], machine
      integers at their width, UTF-8 strings, BTreeMap order, hexadecimal,
      pieces of byte strings; generic lemmas, tactics and hints.
    - Store: persistence.rs, persistence/*: the transaction boundary over a
      database that may report a commit as failed although it reached the
      disk, the row primitives, the commit log of a group, the
      compare-and-swap row of the identity.  It offers the interfaces
      [RowStore] and [CasCell] with their laws; the components above are
      proved against the classes, and Store discharges them.
    - ChatNames: chat_names/*: the Lamport-clocked last-writer-wins register.
    - Commits: commit_sequencer.rs, private_group_runtime/sequencing.rs and
      commits.rs: MLS commits in epoch order and the resync from an admin's
      log.  MLS is the class [MlsSession].
    - Messages: message_id.rs, conversation/message_log.rs, outbound.rs: the
      log with its tombstones and the outbox, over the class
      [ConversationMessage] (the trait of that name).
    - Attachments: attachment_crypto.rs, attachment_runtime/*: one file in
      encrypted chunks, both ends, and reading a range while it downloads.
    - Calls: private_dm_runtime/calls/*: the call state machine, its books and
      the whole session handlers around it.
    - Devices: device_link/roster.rs and signature_verification.rs: the signed
      chain of authorizations, every question asked of it, and the bounded
      cache of verified signatures.  Ed25519 is the class [Ed25519].
    - Identity: device_link/identity.rs, account_certificate.rs: the stored
      identity, replaced by compare-and-swap by several owners.
    - Fragments: message_deletion/fragment_buffer.rs and
      conversation/recovery/fragment.rs: long payloads over a short wire.
    - Deletion: message_deletion/book.rs, protocol.rs, ownership.rs, origin.rs,
      authority.rs, shared.rs: deletion records, how copies merge, their
      signatures, who may delete what, and the pages they travel in.
    - Erasure: message_deletion/target.rs, correlation.rs, application.rs,
      personal.rs, shared.rs: planning, storing and applying an erasure.
    - Exchange: message_deletion/receive.rs, shared.rs, lifecycle.rs,
      snapshot.rs, fragments.rs: what a carrier's deletion message does.
    - Recovery: conversation/recovery/*: what all conversation kinds share of
      pulling history from a peer: manifests, the cursor, import slots, signed
      frames, the coordinator of rounds.
    - Frames: conversation/dedup.rs, typing.rs and inbox.rs: seen frames, the
      queue of each owner of a channel, the cadence of typing hints.
    - Courier: conversation/recovery/transport/*: the bounded queues and the
      worker that carry history packets, with revocable permits.
    - OrgRoster: org_roster.rs, org_envelope.rs, org_signing.rs: the signed
      document an organization is, and its members' signed envelopes.
    - Values: serde_json's documents, where the code looks into one by field.
    - Rows: persistence/history.rs, history_erasure.rs, deletion_*.rs,
      message_deletions.rs, outbound*.rs: the rows of messages, sends and
      deletion records, the guard of every message write, and the deletion
      store the deletion protocol is proved against.
    - ReadMarks: conversation/read_marks.rs: what the user has seen.
    - Ledger, CallButtons, Background: persistence/background_*.rs: the typed
      rows of the background table, the one-time buttons of calls and the
      alerts of messages that arrive while the app is away.
    - Slots: conversation/attachments.rs: one slot per attachment, and the view
      the user is shown of it.
    - UserTransfers: persistence/user_transfers/*: uploads and downloads the
      user asked for, on disk, with their checkpoints, and the deletion of a
      conversation.
    - History: conversation/history.rs: what a conversation writes and what a
      restart reads back.
    - Runtime: conversation/runtime.rs, runtime_writes.rs: the table of open
      conversations and the writes that were not accepted yet, over the class
      [ConversationSession].
    - Files: attachment_store.rs, attachment_store/cleanup.rs,
      persistence/attachment_refs.rs: the cached files under the hash of their
      content, their leases, and their removal.
    - Transfer: conversation/transfer*.rs, previews.rs, preview_*.rs: one
      conversation's attachments, from sealing and offering to the finished
      file, over a state [World] of the transfer, the files and the database.
    - Serving: conversation/transfer_serving.rs, attachment_runtime/
      execution.rs: which request of another device is answered and when, and
      the relation [operation] of everything a transfer may do.
    - Signing: message_deletion/ownership.rs, origin.rs, cipher.rs,
      conversation/previews.rs: what this installation signs, and the authority
      each kind of conversation judges deletions by.
    - Sessions: the deletion.rs of private_group_runtime, private_dm_runtime
      and channel_runtime: deleting, receiving, publishing and synchronising,
      the same for all kinds up to the record [Kind]; the transport's answers
      are a script.
    - Topology: private_dm_runtime/devices/*: who is in a DM: the claims of the
      devices, the topology of clients and rosters, the membership record and
      the admission of a further device, over the class [DmMls].
    - Removal: private_dm_runtime/devices/revocation/*: the evidence of a
      removal, following it, and what the membership forgets; the state is the
      session of Topology beside the stored identity.
    - TextHistory: private_dm_runtime/devices/history/*: text records, frozen
      exports, pages and fragments, the reader that puts them together, and
      the rows it files.
    - Packets: private_dm_runtime/devices/proof.rs, history_metadata.rs,
      types.rs: what devices send each other, sealed and opened.
    - DeviceHistory: private_dm_runtime/devices/runtime.rs, history/*,
      recovery/*: every handler of a packet, from its bytes on; the state is
      the session of Topology, the store, the message log and what was sent.
      A packet's handler reads the clock once, where the code reads it anew
      for each field.

    State of a Rust struct is a record; a [&mut self] method is a function from
    the state to the state and a [result], so that what a failing call leaves
    behind is part of the model ([method] below).  [u64], [u32] and [usize] are
    [N] with their bounds where overflow matters, bytes are [list byte], a
    [HashMap] or [BTreeMap] is a [gmap], with [btree_entries] where the order of
    iteration is used.

    ** What the theorems show

    - Delivery under a hostile network: a file or a page arrives exactly,
      whatever the order, repetition or interleaving of its pieces
      ([transfer_reconstructs], [fragments_arrive], [frame_arrives]), a deletion
      published by one member reaches another ([deletion_delivered]), and what
      is handed over is what was announced ([complete_sound],
      [fragments_sound], [download_finished]).
    - Restarts and refused writes: what was written is read back as it was and
      sends in flight are settled ([restart_keeps_messages],
      [restart_settles_sends]); counts follow the disk, a refused write stays
      pending and touches nothing else ([counts_backed], [refused_send_kept],
      [refusal_isolated]).
    - Cached files: a finished file has the content its directory names and
      stays, leases are counted exactly, only what nobody needs is removed, and
      both ways of writing agree ([files_kept], [leases_counted],
      [collection_safe], [streaming_agrees], [content_addressed]).
    - Transfers: only the signer of a request is served and only what was
      admitted ([served_authenticated]), only what may be downloaded is asked
      for ([requests_granted]), a refused send leaves no trace, forgetting is
      exact ([refused_send_undone], [forget_exact]), the states on disk follow
      the slots ([refresh_agrees], [work_shown], [transfer_identity],
      [checkpoint_exact]), and deleting a conversation deletes all of it and
      nothing else ([conversation_deleted]).
    - Order and convergence: commits are installed at their own epoch, once,
      and a lagging member catches up ([sequence_commit_safe],
      [resync_catches_up]); registers and deletion records agree once the same
      records were seen ([replicas_converge], [merge_converges]).
    - Authority: a roster speaks only through active devices
      ([roster_authority], [admission_unbroken]), no stale owner rolls the
      identity back ([owners_never_roll_back]), no record enters the deletion
      book without the right to ([receive_authorized], [frame_authorized]), a
      group's administrators are exactly those its roster or fingerprint names
      ([admins_exact]), and what this installation signs is accepted by its own
      checks ([own_proof_accepted], [signed_offer_accepted],
      [deletion_frame_opened]).
    - Who is in a DM: a validated topology is exactly the members of the MLS
      group, each a device its user's roster vouches for ([validated_topology]),
      it only grows by admissions and stays in order ([topology_in_order],
      [admission_applied], [delivery_closed]), a device leaves only by its own
      user's roster ([removal_applied]), and is silenced before that
      ([removed_silenced]).
    - Between the devices of a DM: packets arrive whole and are authentic
      ([packet_arrives], [packet_authentic]), frozen history arrives exactly
      ([history_transferred]), importing adds and never rewrites
      ([import_keeps_messages]), and whatever bytes arrive, text enters the log
      only from the device that was asked, under a current right and with no
      epoch missing ([history_barrier]).
    - Erasure: erasing touches the named messages and no other, and they never
      return ([install_erases], [erased_never_returns]); an acknowledgement
      follows the disk ([receipts_durable]).
    - History: the windows of a round tile the chosen view ([windows_tile]),
      an offer starts a round exactly when it is welcome ([offer_taken]), a
      manifest names the keys it was streamed from ([manifest_streams]), and a
      packet queued under a lost right is never sent ([stale_never_sent]).
    - Organizations: a roster is taken exactly when it is signed, scoped and
      new ([verify_iff]), and an envelope's signature binds its scope
      ([signing_input_injective]).
    - Rows: a deletion that is known erases every later copy, an erased row is
      sealed ([late_copy_erased], [sealed_rows_stay]), and the rows keep the
      promise the deletion protocol relies on ([rows_implement_store]).
    - Unread and alerts: counts survive restarts and faults
      ([unread_survives_restart], [read_then_new], [fault_keeps_disk]); a
      message alerts once, alerts count exactly and show only what is there
      ([alert_once], [alerts_counted], [pending_sound]); a call button works
      once ([capability_once]).
    - Calls: every handler takes steps of a nine-rule call machine
      ([session_refines_call_machine]) with its invariant, deadline, replay
      protection and crossing calls.
    - Bounds: buffers, tables, windows and pages stay bounded whatever a peer
      sends ([request_bounded], [controls_fresh_and_tables_bounded],
      [courier_bounded], [pages_cover]), and duplicates and queues are exact
      within their bound ([seen_window], [inbox_exact]).
    - Errors: each refusing branch returns the state it should
      ([adopt_roster_spec], [settle_spec], [merge_keeps_newest]).

    ** Fuel

    [Commits.drain_loop] runs on [S (size buffered)]: every round removes an
    entry, and [drain_loop_while] shows that the loop ends by itself.
    [Deletion.walk], which follows the pages of a book, runs on [S (size
    records)]: every page but the last holds a record.  [Fragments.fetch]
    counts pulls; [record_fetched] gives the number that is enough.
    [TextHistory.shrink_to_fit] runs on the weight of the page, which every
    round lowers: [shrink_to_fit_while] shows that the loop ends by itself, and
    [history_transferred] gives the number of pulls that is enough.  Every
    other recursion is structural.

    ** Parameters

    Ed25519, SHA-256, AES-GCM, base64, hexadecimal decoding of foreign input,
    serde_json, redb, MLS, the transport, the clock and the random generator
    are arguments, with documented laws as class fields or named hypotheses
    (decrypt of encrypt, verify of sign, parse of print).  The theorems'
    witnesses instantiate them with concrete functions.  Collision resistance
    is never assumed: where the code relies on it the statement says "the same
    digest".

    ** Not modelled

    - Code that only calls out: moss_ffi, shared_node, stream_transport and
      moss_runtime (native transport), native_call and audio_devices (media
      devices), mls_crypto and openmls_crypto (MLS library), plus (payment
      network), secure_storage, file_secret_store and platform shells, the
      logging and crash modules, the crates mosh-media and mosh-probe.
    - The application API (api) and the generated bridge (frb_generated.rs),
      which translate calls one by one, and the Flutter front end.
    - Caches of verdicts ([OnceLock]s on rosters and proofs): entries never
      change, so they are left out; the shared signature cache is modelled.
    - The sessions of the three conversation kinds (private_dm_runtime,
      private_group_runtime, channel_runtime) outside the call session, the
      commit sequencing, the deletion handlers and the devices of a DM: glue
      that decodes a wire enum and calls the components above.
    - Of the devices of a DM: offers and rejoining, which open and replace
      sessions, the frames live devices send each other and their receipts.
    - The import side of group and channel history (private_group_runtime/
      history, channel_runtime/history, persistence/recovery*.rs), the pairing
      exchange (device_link/runtime) and the organization runtime
      (org_runtime): state machines of their own around the recovery, identity
      and roster components; they are what a continuation would model next. *)

From stdpp Require Export base numbers gmap strings list fin_maps sorting.
From Stdlib.Strings Require Export Byte.

#[global] Set Default Goal Selector "!".

(** ** [Result<A, E>] *)

Inductive result (E A : Type) : Type :=
| Ok (a : A)
| Err (e : E).
Arguments Ok {E A} a.
Arguments Err {E A} e.

#[global] Instance result_ret {E} : MRet (result E) := fun A a => Ok a.
#[global] Instance result_bind {E} : MBind (result E) :=
  fun A B f m => match m with Ok a => f a | Err e => Err e end.
#[global] Instance result_fmap {E} : FMap (result E) :=
  fun A B f m => match m with Ok a => Ok (f a) | Err e => Err e end.
#[global] Instance result_eq_dec `{EqDecision E, EqDecision A} : EqDecision (result E A).
Proof. solve_decision. Defined.

(** [Option::ok_or], [Result::ok], [Result::is_ok], [Result::map_err]. *)
Definition ok_or {E A} (o : option A) (e : E) : result E A :=
  match o with Some a => Ok a | None => Err e end.
Definition res_ok {E A} (r : result E A) : option A :=
  match r with Ok a => Some a | Err _ => None end.
Definition is_ok {E A} (r : result E A) : bool :=
  match r with Ok _ => true | Err _ => false end.
Definition map_err {E F A} (f : E -> F) (r : result E A) : result F A :=
  match r with Ok a => Ok a | Err e => Err (f e) end.

Declare Scope mosh_scope.
Delimit Scope mosh_scope with mosh.

(** [guard_or b e]: the early return [if !b { return Err(e) }]. *)
Definition guard_or {E} (b : bool) (e : E) : result E unit :=
  if b then Ok tt else Err e.

Lemma bind_Ok {E A B} (m : result E A) (f : A -> result E B) b :
  (m ≫= f) = Ok b <-> exists a, m = Ok a /\ f a = Ok b.
Proof. destruct m; cbn; split; [by eauto|by intros (?&[=->]&?)|done|by intros (?&?&?)]. Qed.

Lemma bind_Err {E A B} (m : result E A) (f : A -> result E B) e :
  (m ≫= f) = Err e <-> m = Err e \/ exists a, m = Ok a /\ f a = Err e.
Proof.
  destruct m; cbn; split; [by eauto|by intros [?|(?&[=->]&?)]|intros [= ->]; by left|].
  intros [[= ->]|(?&[=]&_)]. done.
Qed.

Lemma guard_or_Ok {E} (b : bool) (e : E) u : guard_or b e = Ok u <-> b = true.
Proof. destruct b, u; cbn; naive_solver. Qed.

Lemma ok_or_Ok {E A} (o : option A) (e : E) a : ok_or o e = Ok a <-> o = Some a.
Proof. destruct o; cbn; naive_solver. Qed.

(** [fails_with e r]: the only error of [r] is [e]. *)
Definition fails_with {E A} (e : E) (r : result E A) : Prop := forall e', r = Err e' -> e' = e.

Lemma fails_Ok {E A} (e : E) (a : A) : fails_with e (Ok a).
Proof. by intros ?. Qed.
Lemma fails_Err {E A} (e : E) : fails_with e (@Err E A e).
Proof. by intros ? [= <-]. Qed.
Lemma fails_bind {E A B} (e : E) (m : result E A) (f : A -> result E B) :
  fails_with e m -> (forall a, fails_with e (f a)) -> fails_with e (m ≫= f).
Proof. intros Hm Hf e'. destruct m; cbn; [apply Hf|]. intros [= <-]. by apply Hm. Qed.
Lemma fails_guard {E} (e : E) b : fails_with e (guard_or b e).
Proof. destruct b; [apply fails_Ok|apply fails_Err]. Qed.
Lemma fails_ok_or {E A} (e : E) (o : option A) : fails_with e (ok_or o e).
Proof. destruct o; [apply fails_Ok|apply fails_Err]. Qed.
Lemma fails_map_err {E F A} (e : E) (r : result F A) : fails_with e (map_err (fun _ => e) r).
Proof. destruct r; [apply fails_Ok|apply fails_Err]. Qed.
Lemma fails_if {E A} (e : E) (b : bool) (r1 r2 : result E A) :
  fails_with e r1 -> fails_with e r2 -> fails_with e (if b then r1 else r2).
Proof. by destruct b. Qed.

Lemma map_err_Ok {E F A} (f : E -> F) (r : result E A) a :
  map_err f r = Ok a <-> r = Ok a.
Proof. destruct r; cbn; naive_solver. Qed.

(** [peel H] turns a successful chain of [?] into the facts each step gives. *)
Ltac peel H :=
  repeat first
    [ apply bind_Ok in H as (? & ? & H)
    | apply guard_or_Ok in H
    | apply ok_or_Ok in H
    | apply map_err_Ok in H ].

Ltac peel_all :=
  repeat match goal with
  | H : (_ ≫= _) = Ok _ |- _ => apply bind_Ok in H as (? & ? & H)
  | H : guard_or _ _ = Ok _ |- _ => apply guard_or_Ok in H
  | H : ok_or _ _ = Ok _ |- _ => apply ok_or_Ok in H
  | H : map_err _ _ = Ok _ |- _ => apply map_err_Ok in H
  | H : Ok _ = Ok _ |- _ => injection H as H; try subst
  | H : mret _ = Ok _ |- _ => injection H as H; try subst
  | H : Err _ = Ok _ |- _ => discriminate H
  end.

(** ** Methods on [&mut self] that may fail

    The state reached before an early return is kept, as in Rust. *)

Definition method (S E A : Type) : Type := S -> S * result E A.

Definition m_ret {S E A} (a : A) : method S E A := fun s => (s, Ok a).
Definition m_bind {S E A B} (m : method S E A) (f : A -> method S E B) : method S E B :=
  fun s => match m s with
           | (s', Ok a) => f a s'
           | (s', Err e) => (s', Err e)
           end.
Definition m_lift {S E A} (r : result E A) : method S E A := fun s => (s, r).
Definition m_get {S E} : method S E S := fun s => (s, Ok s).
Definition m_modify {S E} (f : S -> S) : method S E unit := fun s => (f s, Ok tt).

Notation "x <~ m ;; k" := (m_bind m (fun x => k))
  (at level 100, m at next level, right associativity) : mosh_scope.
Notation "m ;;; k" := (m_bind m (fun _ => k))
  (at level 100, right associativity) : mosh_scope.

Lemma m_bind_Ok {S E A B} (m : method S E A) (f : A -> method S E B) s s' b :
  m_bind m f s = (s', Ok b) <-> exists s1 a, m s = (s1, Ok a) /\ f a s1 = (s', Ok b).
Proof.
  unfold m_bind. destruct (m s) as [s1 [a|e]]; split; [by eauto|by intros (?&?&[=-> ->]&?)|..].
  - done.
  - by intros (?&?&?&?).
Qed.

(** [lia] with the equations of [/] and [mod] by constants. *)
Ltac divlia := zify; Z.to_euclidean_division_equations; lia.

(** ** Unsigned integers *)

Definition u64_max : N := 18446744073709551615.
Definition u32_max : N := 4294967295.
Definition is_u64 (n : N) : Prop := (n <= u64_max)%N.
Definition is_u32 (n : N) : Prop := (n <= u32_max)%N.

Definition wrapping_add64 (a b : N) : N := ((a + b) mod 18446744073709551616)%N.
Definition wrapping_sub64 (a b : N) : N := ((a + 18446744073709551616 - b mod 18446744073709551616) mod 18446744073709551616)%N.
Definition wrapping_mul64 (a b : N) : N := ((a * b) mod 18446744073709551616)%N.
Definition saturating_add64 (a b : N) : N := N.min (a + b) u64_max.
Definition saturating_add32 (a b : N) : N := N.min (a + b) u32_max.
Definition saturating_sub (a b : N) : N := (a - b)%N.
Definition checked_add64 (a b : N) : option N :=
  if (a + b <=? u64_max)%N then Some (a + b)%N else None.
Definition checked_sub64 (a b : N) : option N :=
  if (b <=? a)%N then Some (a - b)%N else None.
Definition as_u32 (n : N) : N := (n mod 4294967296)%N.

Lemma wrapping_add64_small a b :
  (a + b <= u64_max)%N -> wrapping_add64 a b = (a + b)%N.
Proof. unfold wrapping_add64, u64_max. intros. apply N.mod_small. lia. Qed.

Lemma wrapping_mul64_small a b : is_u64 (a * b) -> wrapping_mul64 a b = (a * b)%N.
Proof. unfold wrapping_mul64, is_u64, u64_max. intros. apply N.mod_small. lia. Qed.

Lemma wrapping_sub64_small a b : is_u64 a -> (b <= a)%N -> wrapping_sub64 a b = (a - b)%N.
Proof.
  unfold wrapping_sub64, is_u64, u64_max. intros. rewrite (N.mod_small b) by lia.
  replace (a + 18446744073709551616 - b)%N with (a - b + 1 * 18446744073709551616)%N by lia.
  rewrite N.Div0.mod_add. apply N.mod_small. lia.
Qed.

Lemma wrapping_add64_u64 a b : is_u64 (wrapping_add64 a b).
Proof.
  unfold wrapping_add64, is_u64, u64_max.
  pose proof (N.mod_lt (a + b) 18446744073709551616). lia.
Qed.

Lemma saturating_add64_u64 a b : is_u64 (saturating_add64 a b).
Proof. unfold saturating_add64, is_u64. lia. Qed.

(** ** Bytes and strings

    A [Vec<u8>] is a list of bytes; a [String] is Rocq's byte string, holding
    the UTF-8 encoding, so that [str::len] is [String.length] and the order of
    [str] is the byte order. *)

Abbreviation bytes := (list Byte.byte).

#[global] Instance byte_eq_dec : EqDecision Byte.byte := Byte.byte_eq_dec.
#[global] Instance byte_countable : Countable Byte.byte.
Proof.
  refine {| encode b := encode (Byte.to_N b);
            decode p := n ← decode p; Byte.of_N n |}.
  intros b. rewrite decode_encode. apply Byte.of_to_N.
Defined.

Definition str_len (s : string) : N := N.of_nat (String.length s).

Lemma append_nil (s : string) : EmptyString +:+ s = s.
Proof. reflexivity. Qed.
Lemma append_cons c (p s : string) : String c p +:+ s = String c (p +:+ s).
Proof. reflexivity. Qed.
Lemma append_assoc (p q s : string) : (p +:+ q) +:+ s = p +:+ (q +:+ s).
Proof. induction p as [|c p IH]; [done|]. by rewrite !append_cons, IH. Qed.

Lemma append_length (p s : string) : String.length (p +:+ s) = String.length p + String.length s.
Proof. induction p as [|c p IH]; [done|]. rewrite append_cons. cbn. by rewrite IH. Qed.

(** Equal concatenations whose tails have one length agree part by part. *)
Lemma append_inj (p q s t : string) :
  String.length s = String.length t -> p +:+ s = q +:+ t -> p = q /\ s = t.
Proof.
  intros Hs Hpq. assert (Hl : String.length p = String.length q).
  { apply (f_equal String.length) in Hpq. rewrite !append_length in Hpq. lia. }
  revert q Hl Hpq. induction p as [|c p IH]; intros [|d q] Hl Hpq; try done.
  rewrite !append_cons in Hpq. injection Hpq as -> Hpq. cbn in Hl.
  destruct (IH q) as [-> ->]; [lia|done|done].
Qed.

(** *** UTF-8: the characters of a [str]

    [str::chars] decodes the bytes to Unicode scalar values; collecting an
    iterator of [char] into a [String] encodes them again.  Rust keeps every
    [String] valid UTF-8, so the decoder only meets what the encoder makes. *)

Definition byte_at (c : Ascii.ascii) : N := Ascii.N_of_ascii c.

Fixpoint chars (s : string) : list N :=
  match s with
  | EmptyString => []
  | String a s1 =>
      if (byte_at a <? 128)%N then byte_at a :: chars s1
      else match s1 with
      | EmptyString => []
      | String b s2 =>
          if (byte_at a <? 224)%N
          then (byte_at a mod 32 * 64 + byte_at b mod 64)%N :: chars s2
          else match s2 with
          | EmptyString => []
          | String c s3 =>
              if (byte_at a <? 240)%N
              then (byte_at a mod 16 * 4096 + byte_at b mod 64 * 64
                    + byte_at c mod 64)%N :: chars s3
              else match s3 with
              | EmptyString => []
              | String d s4 =>
                  (byte_at a mod 8 * 262144 + byte_at b mod 64 * 4096
                   + byte_at c mod 64 * 64 + byte_at d mod 64)%N :: chars s4
              end
          end
      end
  end.

Definition char_app (c : N) (rest : string) : string :=
  let b n := Ascii.ascii_of_N n in
  if (c <? 128)%N then String (b c) rest
  else if (c <? 2048)%N
  then String (b (192 + c / 64)%N) (String (b (128 + c mod 64)%N) rest)
  else if (c <? 65536)%N
  then String (b (224 + c / 4096)%N)
         (String (b (128 + c / 64 mod 64)%N) (String (b (128 + c mod 64)%N) rest))
  else String (b (240 + c / 262144)%N)
         (String (b (128 + c / 4096 mod 64)%N)
           (String (b (128 + c / 64 mod 64)%N) (String (b (128 + c mod 64)%N) rest))).

Definition of_chars (cs : list N) : string := foldr char_app EmptyString cs.

Definition is_char (c : N) : Prop := (c < 1114112)%N.

Lemma byte_at_of_N n : (n < 256)%N -> byte_at (Ascii.ascii_of_N n) = n.
Proof. intros. apply Ascii.N_ascii_embedding. done. Qed.

Lemma chars_char_app c rest : is_char c -> chars (char_app c rest) = c :: chars rest.
Proof.
  unfold is_char, char_app. intros Hc.
  repeat case_match; cbn [chars];
    repeat match goal with
    | H : (_ <? _)%N = true |- _ => apply N.ltb_lt in H
    | H : (_ <? _)%N = false |- _ => apply N.ltb_ge in H
    end;
    rewrite !byte_at_of_N by divlia;
    repeat match goal with
    | |- context [(?a <? ?b)%N] => destruct (N.ltb_spec a b); try divlia
    end; f_equal; divlia.
Qed.

(** Encoding then decoding gives the characters back. *)
Lemma chars_of_chars cs : Forall is_char cs -> chars (of_chars cs) = cs.
Proof.
  induction 1 as [|c cs Hc _ IH]; [done|].
  change (of_chars (c :: cs)) with (char_app c (of_chars cs)).
  rewrite chars_char_app by done. by rewrite IH.
Qed.

Lemma byte_at_lt a : (byte_at a < 256)%N.
Proof. apply Ascii.N_ascii_bounded. Qed.

(** Every decoded value is a scalar value's width, whatever the bytes. *)
Lemma chars_is_char_aux n s :
  String.length s <= n -> Forall (fun c => (c < 2097152)%N) (chars s).
Proof.
  revert s. induction n as [|n IH]; intros [|a s1] Hn; cbn in Hn; try lia;
    [constructor..|].
  pose proof (byte_at_lt a). cbn [chars].
  destruct (_ <? _)%N; [constructor; [divlia|apply IH; lia]|].
  destruct s1 as [|b s2]; [constructor|]; cbn in Hn.
  destruct (_ <? _)%N; [constructor; [divlia|apply IH; lia]|].
  destruct s2 as [|c s3]; [constructor|]; cbn in Hn.
  destruct (_ <? _)%N; [constructor; [divlia|apply IH; lia]|].
  destruct s3 as [|d s4]; [constructor|]; cbn in Hn.
  constructor; [divlia|apply IH; lia].
Qed.

(** [char::is_control]: the Unicode category Cc. *)
Definition is_control (c : N) : bool :=
  (c <? 32)%N || ((127 <=? c)%N && (c <? 160)%N).

(** [char::is_whitespace]: the Unicode property White_Space, as [str::trim]
    uses it. *)
Definition is_whitespace (c : N) : bool :=
  ((9 <=? c)%N && (c <=? 13)%N) || (c =? 32)%N || (c =? 133)%N || (c =? 160)%N
  || (c =? 5760)%N || ((8192 <=? c)%N && (c <=? 8202)%N)
  || (c =? 8232)%N || (c =? 8233)%N || (c =? 8239)%N || (c =? 8287)%N
  || (c =? 12288)%N.

(** [trim_matches]: drop the matching characters of both ends. *)
Fixpoint drop_while {A} (p : A -> bool) (l : list A) : list A :=
  match l with
  | [] => []
  | x :: l' => if p x then drop_while p l' else l
  end.
Definition trim_matches {A} (p : A -> bool) (l : list A) : list A :=
  rev (drop_while p (rev (drop_while p l))).

Lemma drop_while_suffix {A} (p : A -> bool) l : exists k, l = k ++ drop_while p l.
Proof.
  induction l as [|x l [k IH]]; cbn; [by exists []|].
  destruct (p x); [exists (x :: k); cbn; by f_equal | by exists []].
Qed.

Lemma trim_matches_elem {A} (p : A -> bool) l x : x ∈ trim_matches p l -> x ∈ l.
Proof.
  unfold trim_matches. rewrite !list_elem_of_In, <- in_rev.
  destruct (drop_while_suffix p l) as [k1 E1].
  destruct (drop_while_suffix p (rev (drop_while p l))) as [k2 E2].
  intros Hx. rewrite E1, in_app_iff. right.
  apply in_rev. rewrite E2, in_app_iff. by right.
Qed.

Lemma drop_while_head {A} (p : A -> bool) l x k :
  drop_while p l = x :: k -> p x = false.
Proof. induction l as [|y l IH]; cbn; [done|]. destruct (p y) eqn:?; naive_solver. Qed.

(** [str::split_once] on an ASCII separator. *)
Fixpoint split_once (sep : Ascii.ascii) (s : string) : option (string * string) :=
  match s with
  | EmptyString => None
  | String c s' =>
      if bool_decide (c = sep) then Some (EmptyString, s')
      else '(l, r) ← split_once sep s'; Some (String c l, r)
  end.

(** [str::starts_with] is [String.prefix]; [str::strip_prefix]. *)
Fixpoint strip_prefix (p s : string) : option string :=
  match p, s with
  | EmptyString, _ => Some s
  | String a p', String b s' => if bool_decide (a = b) then strip_prefix p' s' else None
  | String _ _, EmptyString => None
  end.

(** [format!("{byte:02x}")] of every byte, and [hex::encode]. *)
Definition hex_digit (n : N) : Ascii.ascii :=
  Ascii.ascii_of_N (if (n <? 10)%N then 48 + n else 87 + n).
Fixpoint hex_string (b : bytes) : string :=
  match b with
  | [] => EmptyString
  | x :: b => String (hex_digit (Byte.to_N x / 16)) (String (hex_digit (Byte.to_N x mod 16)) (hex_string b))
  end.

Lemma hex_string_length x : String.length (hex_string x) = 2 * length x.
Proof. induction x as [|c x IH]; [done|]. cbn [hex_string String.length]. rewrite IH. cbn. lia. Qed.

(** [Iterator::try_fold]: the [for] loop whose body may return early. *)
Fixpoint try_fold {E A B} (f : A -> B -> result E A) (a : A) (l : list B) : result E A :=
  match l with
  | [] => Ok a
  | x :: l' => f a x ≫= fun a' => try_fold f a' l'
  end.

Lemma try_fold_inv {E A B} (P : A -> Prop) (f : A -> B -> result E A) a l a' :
  (forall a x b, x ∈ l -> P a -> f a x = Ok b -> P b) ->
  P a -> try_fold f a l = Ok a' -> P a'.
Proof.
  revert a. induction l as [|x l IH]; cbn; intros a Hstep Ha Hf.
  - by injection Hf as <-.
  - apply bind_Ok in Hf as (b & Hb & Hf).
    eapply IH; [intros ????; apply Hstep; by right | | done].
    eapply (Hstep a x); [by left|done|done].
Qed.

Lemma try_fold_ext {E A B} (f g : A -> B -> result E A) a l :
  (forall a x, f a x = g a x) -> try_fold f a l = try_fold g a l.
Proof.
  intros Hfg. revert a. induction l as [|x l IH]; intros a; [done|]. cbn.
  rewrite Hfg. destruct (g a x); cbn; [apply IH|done].
Qed.

Lemma try_fold_ext_in {E A B} (f g : A -> B -> result E A) a l :
  (forall a x, x ∈ l -> f a x = g a x) -> try_fold f a l = try_fold g a l.
Proof.
  revert a. induction l as [|x l IH]; intros a Hfg; [done|]. cbn.
  rewrite Hfg by by left. destruct (g a x); cbn; [|done]. apply IH. intros. apply Hfg. by right.
Qed.

Lemma try_fold_app {E A B} (f : A -> B -> result E A) a l k :
  try_fold f a (l ++ k) = try_fold f a l ≫= fun a' => try_fold f a' k.
Proof.
  revert a. induction l as [|x l IH]; intros a; [done|]. cbn.
  destruct (f a x); cbn; [apply IH|done].
Qed.

(** Growing a set by a list of elements. *)
Section set_of_list.
Context `{Countable A}.
Implicit Types X : gset A.
Lemma set_of_nil X : X = list_to_set [] ∪ X.
Proof. set_solver. Qed.
Lemma set_of_one x X : {[ x ]} ∪ X = list_to_set [x] ∪ X.
Proof. set_solver. Qed.
Lemma set_of_app l k X : list_to_set k ∪ (list_to_set l ∪ X) = list_to_set (l ++ k) ∪ X.
Proof. set_solver. Qed.
Lemma not_elem_of_add x y X : x <> y -> x ∉ X -> x ∉ {[ y ]} ∪ X.
Proof. set_solver. Qed.
End set_of_list.

Lemma foldl_map_fst {A B D} (f : A -> B -> A) (h : D -> B) a l :
  foldl (fun a d => f a (h d)) a l = foldl f a (map h l).
Proof. revert a. induction l as [|x l IH]; intros a; [done|]. apply IH. Qed.

(** ** [BTreeMap]

    A [BTreeMap] is a finite map; only its iterators show the key order. *)
Section btree.
Context `{Countable K} (R : relation K) `{!RelDecision R} {V : Type}.

Definition btree_keys (m : gmap K V) : list K := merge_sort R (elements (dom m)).
Definition btree_entries (m : gmap K V) : list (K * V) :=
  omap (fun k => (k,.) <$> m !! k) (btree_keys m).
Definition btree_values (m : gmap K V) : list V := (btree_entries m).*2.

Context `{!PartialOrder R, !Total R}.

Lemma elem_of_btree_entries (m : gmap K V) k v :
  (k, v) ∈ btree_entries m <-> m !! k = Some v.
Proof.
  unfold btree_entries, btree_keys. rewrite list_elem_of_omap. split.
  - intros (k' & _ & Hk). destruct (m !! k') eqn:E; cbn in Hk; congruence.
  - intros Hk. exists k. rewrite merge_sort_Permutation, elem_of_elements, elem_of_dom, Hk.
    split; [by eexists | done].
Qed.

Lemma elem_of_btree_values (m : gmap K V) v :
  v ∈ btree_values m <-> exists k, m !! k = Some v.
Proof.
  unfold btree_values. rewrite list_elem_of_fmap. split.
  - intros ([k v'] & -> & Hk). exists k. by apply elem_of_btree_entries.
  - intros (k & Hk). exists (k, v). split; [done|]. by apply elem_of_btree_entries.
Qed.

(** The iteration order is the key order: a sorted duplicate-free list of
    keys carrying exactly the map's keys is the key sequence. *)
Lemma btree_keys_unique (m : gmap K V) (ks : list K) :
  StronglySorted R ks -> NoDup ks -> (forall k, k ∈ ks <-> is_Some (m !! k)) ->
  btree_keys m = ks.
Proof.
  intros Hs Hnd Hk. unfold btree_keys.
  eapply (StronglySorted_unique R); [|done|].
  - apply StronglySorted_merge_sort; apply _.
  - rewrite merge_sort_Permutation. apply NoDup_Permutation; [apply NoDup_elements|done|].
    intros k. by rewrite elem_of_elements, elem_of_dom, Hk.
Qed.

Lemma elem_of_btree_keys (m : gmap K V) k : k ∈ btree_keys m <-> is_Some (m !! k).
Proof.
  unfold btree_keys. by rewrite merge_sort_Permutation, elem_of_elements, elem_of_dom.
Qed.

Lemma btree_values_length (m : gmap K V) : length (btree_values m) = size m.
Proof using Type.
  unfold btree_values. rewrite length_fmap. unfold btree_entries.
  assert (Hall : Forall (fun k => is_Some (m !! k)) (btree_keys m)).
  { apply Forall_forall. intros k Hk. unfold btree_keys in Hk.
    rewrite merge_sort_Permutation, elem_of_elements, elem_of_dom in Hk. done. }
  rewrite <-(size_dom (D := gset K)). unfold size at 1, set_size. cbn.
  transitivity (length (btree_keys m)).
  - induction Hall as [|k ks [v Hv] _ IH]; [done|]. cbn. rewrite Hv. cbn. by rewrite IH.
  - unfold btree_keys. by rewrite merge_sort_Permutation.
Qed.

(** [keys().next()] is the least key. *)
Lemma btree_keys_head (m : gmap K V) k :
  head (btree_keys m) = Some k <->
  is_Some (m !! k) /\ forall k', is_Some (m !! k') -> R k k'.
Proof.
  setoid_rewrite <-elem_of_btree_keys.
  assert (Hs : StronglySorted R (btree_keys m)) by (apply StronglySorted_merge_sort; apply _).
  destruct Hs as [|x l _ Hall]; cbn.
  - split; [done|]. intros [Hk _]. by apply elem_of_nil in Hk.
  - rewrite Forall_forall in Hall. split.
    + intros [= ->]. split; [by left|].
      intros k' [->|Hk']%elem_of_cons; [reflexivity|by apply Hall].
    + intros [Hk Hle]. f_equal. apply elem_of_cons in Hk as [->|Hk]; [done|].
      apply (anti_symm R); [by apply Hall|]. apply Hle. by left.
Qed.
End btree.

(** *** Sorted lists through [filter] and [omap] *)

Lemma StronglySorted_omap {A B} (R : relation A) (R' : relation B) (f : A -> option B) l :
  (forall x y x' y', R x y -> f x = Some x' -> f y = Some y' -> R' x' y') ->
  StronglySorted R l -> StronglySorted R' (omap f l).
Proof.
  intros Hf. induction 1 as [|x l _ IH Hall]; cbn; [constructor|].
  destruct (f x) as [x'|] eqn:E; [|done]. constructor; [done|].
  rewrite Forall_forall in Hall. apply Forall_forall. intros y' (y & Hy & Hfy)%list_elem_of_omap.
  eapply Hf; [by apply Hall|done|done].
Qed.

Lemma StronglySorted_filter {A} (R : relation A) (P : A -> Prop) `{!forall x, Decision (P x)} l :
  StronglySorted R l -> StronglySorted R (filter P l).
Proof.
  induction 1 as [|x l _ IH Hall]; [constructor|]. rewrite filter_cons.
  case_decide; [|done]. constructor; [done|].
  rewrite Forall_forall in Hall. apply Forall_forall. intros y [_ Hy]%list_elem_of_filter. by apply Hall.
Qed.

Lemma StronglySorted_lookup_lt {A} (R : relation A) l i j x y :
  StronglySorted R l -> l !! i = Some x -> l !! j = Some y -> i < j -> R x y.
Proof.
  revert i j. induction l as [|z l IH]; intros i j Hs Hi Hj Hlt; [done|]. apply StronglySorted_inv in Hs as [Hl Hz].
  destruct j as [|j]; [lia|]. destruct i as [|i]; cbn in Hi, Hj.
  - injection Hi as ->. by eapply Forall_lookup_1 in Hz.
  - eapply IH; [done..|lia].
Qed.
Lemma StronglySorted_strict {A} (R : relation A) l :
  StronglySorted R l -> NoDup l -> StronglySorted (fun x y => R x y /\ x <> y) l.
Proof.
  induction 1 as [|x l _ IH Hall]; intros Hnd; [constructor|].
  apply NoDup_cons in Hnd as [Hx Hnd]. constructor; [by apply IH|].
  rewrite Forall_forall in Hall. apply Forall_forall. intros y Hy. split; [by apply Hall|].
  by intros ->.
Qed.

Lemma StronglySorted_proj {A B} (R : relation B) (f : A -> B) l :
  StronglySorted (fun x y => R (f x) (f y)) l -> StronglySorted R (f <$> l).
Proof.
  induction 1 as [|x l _ IH Hall]; cbn; [constructor|]. constructor; [done|].
  by apply Forall_fmap.
Qed.

Lemma btree_entries_sorted `{Countable K} (R : relation K) `{!RelDecision R}
    `{!PartialOrder R, !Total R} {V} (m : gmap K V) :
  StronglySorted (fun p q => R p.1 q.1 /\ p.1 <> q.1) (btree_entries R m).
Proof.
  unfold btree_entries, btree_keys.
  eapply (StronglySorted_omap (fun x y => R x y /\ x <> y)).
  - intros x y x' y' Hxy Hx Hy.
    destruct (m !! x), (m !! y); cbn in *; try discriminate. by simplify_eq/=.
  - apply StronglySorted_strict; [apply StronglySorted_merge_sort; apply _|].
    rewrite merge_sort_Permutation. apply NoDup_elements.
Qed.

Lemma btree_entries_NoDup `{Countable K} (R : relation K) `{!RelDecision R}
    `{!PartialOrder R, !Total R} {V} (m : gmap K V) : NoDup (btree_entries R m).
Proof.
  induction (btree_entries_sorted R m) as [|p l _ IH Hall]; [constructor|]. constructor; [|done].
  rewrite Forall_forall in Hall. intros Hp. by destruct (Hall p Hp).
Qed.

(** A loop that pushes what each item yields, and stops at the first error. *)
Lemma try_fold_push {E A B} (g : A -> option (result E B)) acc l out :
  try_fold (fun acc x => match g x with
                         | None => Ok acc
                         | Some r => y ← r; Ok (acc ++ [y])
                         end) acc l = Ok out ->
  out = acc ++ omap (fun x => g x ≫= res_ok) l.
Proof.
  revert acc. induction l as [|x l IH]; cbn; intros acc Hf.
  - injection Hf as <-. by rewrite app_nil_r.
  - destruct (g x) as [[y|e]|] eqn:Eg; cbn in *; [|done|by apply IH].
    rewrite (IH _ Hf), <-app_assoc. done.
Qed.

Abbreviation btree_values_N := (btree_values N.le).
Abbreviation btree_values_str := (btree_values String.le).

#[export] Instance N_le_total : Total N.le.
Proof. intros a b. unfold N.le. destruct (N.le_ge_cases a b); [left|right]; done. Qed.

Lemma surjective_pairing_eq {A B} (p : A * B) (b : B) : p.2 = b -> p = (p.1, b).
Proof. destruct p; cbn; congruence. Qed.

Lemma surjective_pairing_eq2 {A B C} (p : A * B * C) (c : C) : p.2 = c -> p = (p.1.1, p.1.2, c).
Proof. destruct p as [[]]; cbn; congruence. Qed.

(** *** A concrete codec

    [serde_json] is a parameter of every component that stores rows; this
    codec of any countable type is the instance the witnesses run with. *)
Fixpoint bytes_of_pos (p : positive) : bytes :=
  match p with
  | xH => []
  | xO p => x00 :: bytes_of_pos p
  | xI p => x01 :: bytes_of_pos p
  end.
Fixpoint pos_of_bytes (b : bytes) : positive :=
  match b with
  | [] => xH
  | x00 :: b => xO (pos_of_bytes b)
  | _ :: b => xI (pos_of_bytes b)
  end.
Definition codec_to_vec {A} `{Countable A} (a : A) : result string bytes :=
  Ok (bytes_of_pos (encode a)).
Definition codec_from_slice {A} `{Countable A} (b : bytes) : result string A :=
  ok_or (decode (pos_of_bytes b)) "malformed".

Lemma codec_roundtrip {A} `{Countable A} (a : A) b :
  codec_to_vec a = Ok b -> codec_from_slice b = Ok a.
Proof.
  unfold codec_to_vec, codec_from_slice. intros [= <-].
  assert (Hp : forall p, pos_of_bytes (bytes_of_pos p) = p)
    by (induction p; cbn; congruence).
  by rewrite Hp, decode_encode.
Qed.

(** A decoder of lower-case hex, for the witnesses of components that take
    [hex::decode] as a parameter. *)
Definition nibble (c : Ascii.ascii) : option N :=
  let n := byte_at c in
  if (48 <=? n)%N && (n <? 58)%N then Some (n - 48)%N
  else if (97 <=? n)%N && (n <? 103)%N then Some (n - 87)%N else None.
Fixpoint hex_bytes (s : string) : result string bytes :=
  match s with
  | EmptyString => Ok []
  | String a (String b s) =>
      match nibble a, nibble b, hex_bytes s with
      | Some x, Some y, Ok l => Ok (default x00 (Byte.of_N (16 * x + y)) :: l)
      | _, _, _ => Err "Invalid character"
      end
  | String _ EmptyString => Err "Odd number of digits"
  end.

Lemma hex_bytes_string b : hex_bytes (hex_string b) = Ok b.
Proof.
  induction b as [|x b IH]; [done|]. cbn [hex_string hex_bytes]. rewrite IH.
  destruct x; vm_compute; reflexivity.
Qed.

Lemma hex_string_inj a b : hex_string a = hex_string b -> a = b.
Proof. intros H. apply (f_equal hex_bytes) in H. rewrite !hex_bytes_string in H. by injection H. Qed.

(** The values in key order, when the values are a function of the key. *)
Lemma btree_values_map `{Countable K} (R : relation K) `{!RelDecision R} {V}
    (m : gmap K V) (f : K -> V) :
  (forall k, k ∈ btree_keys R m -> m !! k = Some (f k)) ->
  btree_values R m = map f (btree_keys R m).
Proof.
  unfold btree_values, btree_entries. induction (btree_keys R m) as [|k ks IH]; intros Hf; [done|].
  cbn. rewrite (Hf k) by (by left). cbn. f_equal. apply IH. intros k' Hk'. apply Hf. by right.
Qed.

(** *** [BTreeMap::pop_first] *)

Definition btree_pop_first {V} (m : gmap string V) : gmap string V :=
  match head (btree_keys String.le m) with Some k => delete k m | None => m end.

Lemma btree_pop_first_sub {V} (m : gmap string V) k v :
  btree_pop_first m !! k = Some v -> m !! k = Some v.
Proof.
  unfold btree_pop_first. destruct (head _); [|done]. intros Hk. by apply lookup_delete_Some in Hk as [_ Hk].
Qed.

Lemma btree_pop_first_size {V} (m : gmap string V) : size (btree_pop_first m) = pred (size m).
Proof.
  unfold btree_pop_first. destruct (head (btree_keys String.le m)) as [k|] eqn:Hh.
  - apply btree_keys_head in Hh as [Hin _]; [|apply _..]. by apply map_size_delete_Some.
  - destruct (btree_keys String.le m) as [|k l] eqn:Hl; [|done].
    assert (m = ∅) as ->; [|by rewrite map_size_empty].
    apply map_eq. intros k. rewrite lookup_empty. apply eq_None_not_Some.
    rewrite <-(elem_of_btree_keys String.le), Hl. apply not_elem_of_nil.
Qed.

(** ** Consecutive pieces

    A byte string cut into pieces of one size, and the ranges of their indices. *)

(** [a..b]. *)
Definition range (a b : N) : list N :=
  map (fun k => (a + N.of_nat k)%N) (seq 0 (N.to_nat (b - a))).

Definition div_ceil (a b : N) : N := if (a mod b =? 0)%N then (a / b)%N else (a / b + 1)%N.

(** The [index]-th piece of [cs] bytes. *)
Definition piece (pt : bytes) (cs index : N) : bytes :=
  take (N.to_nat cs) (drop (N.to_nat (index * cs)) pt).

Lemma div_ceil_spec a b i : (b <> 0)%N -> (i < div_ceil a b)%N <-> (i * b < a)%N.
Proof.
  intros Hb. unfold div_ceil. pose proof (N.div_mod a b Hb). pose proof (N.mod_lt a b Hb).
  revert H H0. generalize (a / b)%N (a mod b)%N. intros q m -> Hm.
  destruct (N.eqb_spec m 0); split; intros; nia.
Qed.

Lemma elem_of_range a b i : i ∈ range a b <-> (a <= i < b)%N.
Proof.
  unfold range. rewrite list_elem_of_In, in_map_iff. setoid_rewrite in_seq. split.
  - intros (k & <- & Hk). lia.
  - intros Hi. exists (N.to_nat (i - a)). lia.
Qed.

Lemma range_NoDup a b : NoDup (range a b).
Proof.
  unfold range. apply NoDup_fmap_2; [|apply NoDup_seq]. intros x y Hxy. lia.
Qed.

Lemma range_sorted a b : StronglySorted N.le (range a b).
Proof.
  unfold range. generalize 0 at 1. induction (N.to_nat (b - a)) as [|n IH]; intros k; [constructor|].
  cbn. constructor; [apply IH|]. apply Forall_forall. intros x Hx.
  apply list_elem_of_In, in_map_iff in Hx as (j & <- & Hj%in_seq). lia.
Qed.

Lemma concat_pieces pt cs a b :
  (a <= b)%N ->
  concat (map (piece pt cs) (range a b))
  = take (N.to_nat ((b - a) * cs)) (drop (N.to_nat (a * cs)) pt).
Proof.
  intros Hab. unfold range. rewrite map_map.
  replace (N.to_nat ((b - a) * cs)) with (N.to_nat (b - a) * N.to_nat cs) by lia.
  generalize (N.to_nat (b - a)). clear. intros n.
  enough (H : forall k, concat (map (fun j => piece pt cs (a + N.of_nat j)) (seq k n))
    = take (n * N.to_nat cs) (drop (N.to_nat (a * cs) + k * N.to_nat cs) pt)).
  { rewrite H. by rewrite Nat.add_0_r. }
  induction n as [|n IH]; intros k; [done|]. cbn [seq map concat]. rewrite IH.
  unfold piece. replace (N.to_nat ((a + N.of_nat k) * cs))
    with (N.to_nat (a * cs) + k * N.to_nat cs) by lia.
  set (o := N.to_nat (a * cs) + k * N.to_nat cs).
  replace (N.to_nat (a * cs) + S k * N.to_nat cs) with (o + N.to_nat cs) by (unfold o; lia).
  by rewrite <-drop_drop, take_take_drop.
Qed.

#[local] Set Default Proof Using "Type".

(** ** Sorting by a key *)

Section Sorting.
Context {A K : Type} (le : K -> K -> Prop) `{!RelDecision le} (key : A -> K).

(** [sort_by_key] is stable: an element goes before the ones with its key that
    come later. *)
Fixpoint insert_by (x : A) (l : list A) : list A :=
  match l with
  | [] => [x]
  | y :: l' => if decide (le (key x) (key y)) then x :: l else y :: insert_by x l'
  end.
Definition sort_by_key (l : list A) : list A := foldr insert_by [] l.

Lemma insert_by_perm x l : insert_by x l ≡ₚ x :: l.
Proof.
  induction l as [|y l IH]; [done|]. cbn. destruct (decide _); [done|]. rewrite IH. apply Permutation_swap.
Qed.
Lemma sort_by_key_perm l : sort_by_key l ≡ₚ l.
Proof. induction l as [|x l IH]; [done|]. cbn. by rewrite insert_by_perm, IH. Qed.

Context `{!PartialOrder le} `{!Total le}.
#[local] Set Default Proof Using "All".

Lemma insert_by_sorted x l : StronglySorted le (map key l) -> StronglySorted le (map key (insert_by x l)).
Proof.
  induction l as [|y l IH]; intros Hs; [by repeat constructor|]. cbn. apply StronglySorted_inv in Hs as [Hs Hy].
  destruct (decide (le (key x) (key y))) as [Hle|Hnle].
  - constructor; [by constructor|]. constructor; [done|]. eapply Forall_impl; [exact Hy|]. intros k. by apply transitivity.
  - constructor; [by apply IH|]. fold (map key). rewrite (Permutation_map key (insert_by_perm x l)). cbn.
    constructor; [|done]. by destruct (total le (key x) (key y)).
Qed.
Lemma sort_by_key_sorted l : StronglySorted le (map key (sort_by_key l)).
Proof. induction l as [|x l IH]; [constructor|]. by apply insert_by_sorted. Qed.

(** The keys come out the same whatever the order they went in. *)
Lemma sort_by_key_keys l l' : l ≡ₚ l' -> map key (sort_by_key l) = map key (sort_by_key l').
Proof.
  intros Hp. apply (StronglySorted_unique le); [apply sort_by_key_sorted..|]. by rewrite !sort_by_key_perm, Hp.
Qed.

End Sorting.

(** [Option] and pairs compare as Rust's derived [Ord] does. *)
Section Orders.
Context {A B : Type} (le : A -> A -> Prop) (le' : B -> B -> Prop).

Definition option_le (x y : option A) : Prop :=
  match x, y with None, _ => True | Some _, None => False | Some a, Some b => le a b end.
Definition lex_le (x y : A * B) : Prop := le x.1 y.1 /\ (x.1 = y.1 -> le' x.2 y.2).

#[export] Instance option_le_dec `{!RelDecision le} : RelDecision option_le.
Proof. intros [a|] [b|]; cbn; apply _. Defined.
#[export] Instance option_le_po `{!PartialOrder le} : PartialOrder option_le.
Proof.
  split; [split|].
  - by intros [a|]; cbn.
  - intros [a|] [b|] [c|]; cbn; try done. by apply transitivity.
  - intros [a|] [b|]; cbn; try done. intros H1 H2. f_equal. by apply (anti_symm le).
Qed.
#[export] Instance option_le_total `{!Total le} : Total option_le.
Proof. intros [a|] [b|]; cbn; auto. Qed.

#[export] Instance lex_le_dec `{!RelDecision le, !RelDecision le', !EqDecision A} : RelDecision lex_le.
Proof. intros x y. unfold lex_le. apply _. Defined.
#[export] Instance lex_le_po `{!PartialOrder le, !PartialOrder le'} : PartialOrder lex_le.
Proof.
  split; [split|].
  - done.
  - intros x y z [H1 H2] [H3 H4]. split; [by etrans|]. intros He.
    assert (x.1 = y.1) as Hxy by (apply (anti_symm le); [done|by rewrite He]). etrans; [by apply H2|].
    apply H4. by rewrite <-Hxy.
  - intros [a b] [a' b'] [H1 H2] [H3 H4]; cbn in *. assert (a = a') as -> by by apply (anti_symm le).
    f_equal. apply (anti_symm le'); auto.
Qed.
#[export] Instance lex_le_total `{!PartialOrder le, !Total le, !Total le', !EqDecision A} : Total lex_le.
Proof.
  intros x y. unfold lex_le. destruct (decide (x.1 = y.1)) as [He|Hne].
  - rewrite He. destruct (total le' x.2 y.2); [left|right]; done.
  - destruct (total le x.1 y.1); [left|right]; (split; [done|congruence]).
Qed.
End Orders.

(** Booleans compare with [false] first. *)
#[export] Instance bool_le_dec : RelDecision Bool.le.
Proof. intros [] []; cbn; apply _. Defined.
#[export] Instance bool_le_po : PartialOrder Bool.le.
Proof. by split; [split; [intros []|intros [] [] []]|intros [] []]. Qed.
#[export] Instance bool_le_total : Total Bool.le.
Proof. intros [] []; cbn; auto. Qed.

(** The hint databases of the development: [mosh] closes the side goals the
    components share, [mosh_wf] holds each component's invariant lemmas. *)
Create HintDb mosh.
Create HintDb mosh_wf.
#[export] Hint Resolve fails_Ok fails_Err fails_bind fails_guard fails_ok_or fails_map_err fails_if : mosh.
#[export] Hint Resolve saturating_add64_u64 wrapping_add64_u64 byte_at_lt : mosh.
