(* ===== verification/Values.v ===== *)
(** * Values: untyped JSON ([serde_json::Value])

    Rows and rosters are partly handled as untyped JSON.  Objects are ordered
    maps, as in [serde_json] without [preserve_order]; numbers are the integers
    the documents of this program contain.  The text form is a parameter. *)
From S2P Require Import Prelude.

Module Values.

#[local] Open Scope mosh_scope.

#[local] Set Warnings "-register-all".
Inductive Value :=
| VNull
| VBool (b : bool)
| VNumber (n : Z)
| VString (s : string)
| VArray (l : list Value)
| VObject (m : gmap string Value).

Definition as_object (v : Value) : option (gmap string Value) := match v with VObject m => Some m | _ => None end.
Definition as_str (v : Value) : option string := match v with VString s => Some s | _ => None end.
Definition as_bool (v : Value) : option bool := match v with VBool b => Some b | _ => None end.
Definition as_u64 (v : Value) : option N :=
  match v with
  | VNumber n => if (0 <=? n)%Z && (n <=? Z.of_N u64_max)%Z then Some (Z.to_N n) else None
  | _ => None
  end.

(** [Value::get] of a key. *)
Definition get (k : string) (v : Value) : option Value := as_object v ≫= (!!) k.
(** [Value::pointer] along object keys. *)
Fixpoint pointer (path : list string) (v : Value) : option Value :=
  match path with [] => Some v | k :: path => get k v ≫= pointer path end.

Definition is_null (v : Value) : bool := match v with VNull => true | _ => false end.
(** [filter(|v| !v.is_null())]. *)
Definition non_null (o : option Value) : option Value :=
  v ← o; if is_null v then None else Some v.
Definition held (o : option Value) : bool := bool_decide (is_Some (non_null o)).

(** [serde_json::from_slice] and [to_vec] of a value. *)
Class ValueJson := {
  value_from_slice : bytes -> result string Value;
  value_to_vec : Value -> result string bytes;
}.

(** What is written is read back. *)
Class ValueJsonLaws `{ValueJson} : Prop := {
  value_roundtrip v b : value_to_vec v = Ok b -> value_from_slice b = Ok v;
}.

Lemma as_str_Some (o : option Value) s : (o ≫= as_str) = Some s <-> o = Some (VString s).
Proof. destruct o as [[]|]; cbn; split; congruence. Qed.

Lemma held_Some o : held o = true <-> exists v, o = Some v /\ v <> VNull.
Proof.
  unfold held, non_null. rewrite bool_decide_eq_true. destruct o as [v|]; cbn.
  - destruct v; cbn; split; try (by intros [? [=]]); try (by intros (? & [= <-] & ?)); intros _;
      try (by eexists); by eexists.
  - split; [by intros []|by intros (? & [=] & _)].
Qed.

(** The key before the last of a path decides what a pointer sees. *)
Lemma pointer_app p q v : pointer (p ++ q) v = pointer p v ≫= pointer q.
Proof.
  revert v. induction p as [|k p IH]; intros v; [done|]. cbn. destruct (get k v) as [w|]; [apply IH|done].
Qed.

(** ** A codec for shallow documents

    For the witnesses of the files that take [serde_json] as a parameter:
    values of a bounded depth, without arrays, are written and read back. *)

Abbreviation scalar := (unit + bool + Z + string)%type.
Fixpoint flat (n : nat) : Type :=
  match n with O => scalar | S n => (scalar + gmap string (flat n))%type end.

#[export] Instance flat_eq_dec n : EqDecision (flat n).
Proof. induction n; cbn; apply _. Defined.
#[export] Instance flat_countable n : Countable (flat n).
Proof. induction n; cbn [flat]; apply _. Defined.

Definition scalar_of (v : Value) : option scalar :=
  match v with
  | VNull => Some (inl (inl (inl tt)))
  | VBool b => Some (inl (inl (inr b)))
  | VNumber n => Some (inl (inr n))
  | VString s => Some (inr s)
  | _ => None
  end.
Definition of_scalar (x : scalar) : Value :=
  match x with
  | inl (inl (inl _)) => VNull
  | inl (inl (inr b)) => VBool b
  | inl (inr n) => VNumber n
  | inr s => VString s
  end.

Fixpoint to_flat (n : nat) (v : Value) : option (flat n) :=
  match n with
  | O => scalar_of v
  | S n =>
      match v with
      | VObject m => let f := omap (to_flat n) m in
                     if bool_decide (dom f = dom m) then Some (inr f) else None
      | _ => inl <$> scalar_of v
      end
  end.
Fixpoint of_flat (n : nat) : flat n -> Value :=
  match n with
  | O => of_scalar
  | S n => fun x => match x with inl s => of_scalar s | inr m => VObject (of_flat n <$> m) end
  end.

Lemma of_scalar_of v s : scalar_of v = Some s -> of_scalar s = v.
Proof. by destruct v; intros [= <-]. Qed.

Lemma of_to_flat n v f : to_flat n v = Some f -> of_flat n f = v.
Proof.
  revert v f. induction n as [|n IH]; intros v f; [apply of_scalar_of|]. cbn [to_flat of_flat].
  assert (Hs : inl <$> scalar_of v = Some f -> match f with inl s => of_scalar s | inr m => VObject (of_flat n <$> m) end = v).
  { intros (s & Hv & ->)%fmap_Some. by apply of_scalar_of. }
  destruct v as [| | | | |m]; try exact Hs. clear Hs.
  destruct (bool_decide_reflect (dom (omap (to_flat n) m) = dom m)) as [Hdom|]; [|done].
  intros [= <-]. f_equal. apply map_eq. intros k. rewrite lookup_fmap, lookup_omap.
  destruct (m !! k) as [v|] eqn:Hk; [|done]. cbn.
  assert (Hin : k ∈ dom (omap (to_flat n) m)) by (rewrite Hdom; by eapply elem_of_dom_2).
  apply elem_of_dom in Hin as [x Hx]. rewrite lookup_omap, Hk in Hx. cbn in Hx. rewrite Hx. cbn.
  f_equal. by apply IH.
Qed.

Definition shallow_json (n : nat) : ValueJson := {|
  value_from_slice b := f ← codec_from_slice b; Ok (of_flat n f);
  value_to_vec v := f ← ok_or (to_flat n v) "nested"; codec_to_vec f;
|}.

Lemma shallow_json_laws n : @ValueJsonLaws (shallow_json n).
Proof.
  split. intros v b. cbn. intros (f & Hf%ok_or_Ok & Hb)%bind_Ok.
  rewrite (codec_roundtrip _ _ Hb). cbn. by rewrite (of_to_flat _ _ _ Hf).
Qed.

End Values.
