(* ===== verification/Store.v ===== *)
(** * Store: the encrypted row store ([persistence/crypto.rs],
      [persistence/database.rs], [persistence/group_commits.rs])

    [Persistence] keeps encrypted rows in a redb database.  redb and AES-GCM
    are third-party: a database is a map of tables of rows, every write
    transaction meets one outcome of an arbitrary script (committed, refused,
    or reported as failed although it reached the disk), and the cipher is a
    section variable with its decrypt-of-encrypt law.  The class [RowStore] is
    what the row boundary promises to the components above it. *)
From S2P Require Import Prelude.

Module Store.

Inductive PersistenceError :=
| Crypto (e : string)
| Io (e : string)
| Db (e : string)
| Json (e : string)
| Keychain (e : string).

(** ** The interface the components see *)

Class RowStore (St : Type) := {
  rs_get : St -> string -> string -> result PersistenceError (option bytes);
  rs_put : St -> string -> string -> bytes -> St * result PersistenceError unit;
}.

(** Once a write is acknowledged, a read that answers gives what was written;
    a write leaves every other row as it was. *)
Class RowStoreLaws (St : Type) `{RowStore St} : Prop := {
  rs_put_get s s' t k b o :
    rs_put s t k b = (s', Ok tt) -> rs_get s' t k = Ok o -> o = Some b;
  rs_put_get_ne s s' t k t' k' b r :
    rs_put s t k b = (s', r) -> (t', k') <> (t, k) -> rs_get s' t' k' = rs_get s t' k';
}.

(** One row that several owners replace by compare-and-swap: the device-link
    identity.  [cell_content] is what the row decrypts to. *)
Class CasCell (St : Type) := {
  cell_get : St -> result PersistenceError (option bytes);
  cell_replace : St -> bytes -> bytes -> St * result PersistenceError bool;
  cell_init : St -> bytes -> St * result PersistenceError bytes;
  cell_content : St -> option bytes;
}.

(** A replacement takes effect only on the expected content, and an answer
    tells truly whether it did; an initialization keeps a content that is
    there. *)
Class CasCellLaws (St : Type) `{CasCell St} : Prop := {
  cell_get_content s o : cell_get s = Ok o -> cell_content s = o;
  cell_replace_cases s e b s' r : cell_replace s e b = (s', r) ->
    (cell_content s' = cell_content s /\ r <> Ok true /\ (r = Ok false -> cell_content s <> Some e)) \/
    (cell_content s = Some e /\ cell_content s' = Some b /\ r <> Ok false);
  cell_init_cases s b s' r : cell_init s b = (s', r) ->
    (cell_content s' = cell_content s /\ (forall w, r = Ok w -> cell_content s = Some w)) \/
    (cell_content s = None /\ cell_content s' = Some b /\ (forall w, r = Ok w -> w = b));
}.

(** ** Decimal keys *)

(** The digits of [n] at width [w], most significant first. *)
Fixpoint dec_string (w : nat) (n : N) : string :=
  match w with
  | O => EmptyString
  | S w' => String (Ascii.ascii_of_N (48 + n / 10 ^ N.of_nat w' mod 10)) (dec_string w' n)
  end.

Fixpoint dec_width (fuel : nat) (n : N) : nat :=
  match fuel with
  | O => 1
  | S f => if (n <? 10)%N then 1 else S (dec_width f (n / 10))
  end.

(** [format!("{n:0w}")] of a [u64]: at least [w] digits, never truncated. *)
Definition format_u64 (w : nat) (n : N) : string :=
  dec_string (Nat.max w (dec_width 20 n)) n.

Definition is_ascii_digit (c : Ascii.ascii) : bool :=
  (48 <=? byte_at c)%N && (byte_at c <=? 57)%N.

Fixpoint all_digits (s : string) : bool :=
  match s with
  | EmptyString => true
  | String c s' => is_ascii_digit c && all_digits s'
  end.

Fixpoint dec_value (acc : N) (s : string) : N :=
  match s with
  | EmptyString => acc
  | String c s' => dec_value (10 * acc + (byte_at c - 48)) s'
  end.

(** [str::parse::<u64>] of a string of digits: an overflow is an error. *)
Definition parse_u64 (s : string) : option N :=
  if all_digits s && (dec_value 0 s <=? u64_max)%N then Some (dec_value 0 s) else None.

(** ** The database *)

(** *** Strings, digits and their order *)

Lemma app_inj_l (p s t : string) : String.append p s = String.append p t -> s = t.
Proof. apply (inj (String.append p)). Qed.

Lemma strip_prefix_Some p s r : strip_prefix p s = Some r <-> s = String.append p r.
Proof.
  revert s. induction p as [|a p IH]; intros s; cbn.
  - split; [by intros [= ->]|by intros ->].
  - destruct s as [|b s]; [split; discriminate|]. case_bool_decide as E; subst.
    + rewrite IH, append_cons. split; [by intros ->|by intros [= ->]].
    + rewrite append_cons. split; [discriminate|]. by intros [= ->].
Qed.

Lemma leb_cons a b s t :
  String.leb (String a s) (String b t)
  = (byte_at a <? byte_at b)%N || ((byte_at a =? byte_at b)%N && String.leb s t).
Proof.
  unfold String.leb, byte_at. cbn. unfold Ascii.compare.
  destruct (N.compare_spec (Ascii.N_of_ascii a) (Ascii.N_of_ascii b)) as [E|E|E].
  - rewrite E, N.ltb_irrefl, N.eqb_refl. done.
  - apply N.ltb_lt in E. by rewrite E.
  - rewrite (proj2 (N.ltb_ge _ _)), (proj2 (N.eqb_neq _ _)) by lia. done.
Qed.

Lemma leb_app p s t : String.leb (String.append p s) (String.append p t) = String.leb s t.
Proof.
  induction p as [|c p IH]; [done|]. rewrite !append_cons.
  by rewrite leb_cons, N.ltb_irrefl, N.eqb_refl, IH.
Qed.

Lemma dec_string_length w n : String.length (dec_string w n) = w.
Proof. induction w; cbn; congruence. Qed.

Lemma digit_byte d : (d < 10)%N -> byte_at (Ascii.ascii_of_N (48 + d)) = (48 + d)%N.
Proof. intros. apply byte_at_of_N. lia. Qed.

Lemma dec_string_digits w n : all_digits (dec_string w n) = true.
Proof.
  induction w as [|w IH]; [done|]. cbn [dec_string all_digits].
  rewrite IH, andb_true_r. unfold is_ascii_digit.
  assert (n / 10 ^ N.of_nat w mod 10 < 10)%N by (apply N.mod_lt; lia).
  rewrite digit_byte by done. revert H. generalize (n / 10 ^ N.of_nat w mod 10)%N.
  intros d Hd. apply andb_true_iff; split; apply N.leb_le; lia.
Qed.

(** Reading [w] digits back gives the number modulo [10^w]. *)
Lemma dec_value_string w n acc :
  dec_value acc (dec_string w n) = (acc * 10 ^ N.of_nat w + n mod 10 ^ N.of_nat w)%N.
Proof.
  revert acc. induction w as [|w IH]; intros acc.
  - cbn [dec_string dec_value]. change (10 ^ N.of_nat 0)%N with 1%N.
    rewrite N.mod_1_r. lia.
  - cbn [dec_string dec_value]. rewrite IH.
    rewrite digit_byte by (apply N.mod_lt; lia).
    rewrite Nat2N.inj_succ, N.pow_succ_r'.
    set (q := (10 ^ N.of_nat w)%N).
    assert (q <> 0)%N by (apply N.pow_nonzero; lia).
    rewrite (N.mul_comm 10 q), (N.Div0.mod_mul_r n q 10).
    generalize (n / q mod 10)%N (n mod q)%N. intros d r.
    replace (48 + d - 48)%N with d by lia. ring.
Qed.

(** Any string of [w] digits is the decimal form of its value. *)
Lemma dec_string_of_digits s :
  all_digits s = true -> dec_string (String.length s) (dec_value 0 s) = s.
Proof.
  enough (H : forall acc, all_digits s = true ->
    dec_string (String.length s) (dec_value acc s) = s) by apply H.
  induction s as [|c s IH]; intros acc Hd; [done|].
  cbn [all_digits] in Hd. apply andb_true_iff in Hd as [Hc Hd].
  cbn [String.length dec_string dec_value]. rewrite IH by done. f_equal.
  unfold is_ascii_digit in Hc. apply andb_true_iff in Hc as [H1 H2].
  apply N.leb_le in H1, H2.
  set (A := (10 * acc + (byte_at c - 48))%N).
  set (q := (10 ^ N.of_nat (String.length s))%N).
  assert (Hq : (q <> 0)%N) by (apply N.pow_nonzero; lia).
  assert (HX : dec_value A s = (A * q + dec_value A s mod q)%N).
  { transitivity (dec_value A (dec_string (String.length s) (dec_value A s)));
      [by rewrite IH|]. apply dec_value_string. }
  assert (HA : (dec_value A s / q = A)%N).
  { rewrite HX, N.div_add_l by done. rewrite N.div_small by (by apply N.mod_lt). lia. }
  rewrite HA. unfold A.
  replace (48 + (10 * acc + (byte_at c - 48)) mod 10)%N with (byte_at c) by divlia.
  apply Ascii.ascii_N_embedding.
Qed.

(** Equal-width decimal strings compare as their numbers. *)
Lemma dec_string_leb w m n :
  (m < 10 ^ N.of_nat w)%N -> (n < 10 ^ N.of_nat w)%N ->
  String.leb (dec_string w m) (dec_string w n) = (m <=? n)%N.
Proof.
  intros Hm Hn. rewrite <-(N.mod_small m (10 ^ N.of_nat w)) at 2 by done.
  rewrite <-(N.mod_small n (10 ^ N.of_nat w)) at 2 by done. clear Hm Hn.
  induction w as [|w IH].
  - change (10 ^ N.of_nat 0)%N with 1%N. by rewrite !N.mod_1_r.
  - cbn [dec_string]. rewrite leb_cons, IH.
    rewrite !digit_byte by (apply N.mod_lt; lia).
    rewrite Nat2N.inj_succ, N.pow_succ_r'. set (q := (10 ^ N.of_nat w)%N).
    assert (Hq : (q <> 0)%N) by (apply N.pow_nonzero; lia).
    rewrite (N.mul_comm 10 q), !(N.Div0.mod_mul_r _ q 10).
    pose proof (N.mod_lt m q Hq). pose proof (N.mod_lt n q Hq).
    set (a := (m / q mod 10)%N). set (b := (n / q mod 10)%N).
    set (c := (m mod q)%N) in *. set (d := (n mod q)%N) in *.
    destruct (N.lt_trichotomy a b) as [Hab|[Hab|Hab]].
    + rewrite (proj2 (N.ltb_lt _ _)) by lia. symmetry. apply N.leb_le. nia.
    + rewrite Hab, N.ltb_irrefl, N.eqb_refl. cbn.
      destruct (N.leb_spec c d); symmetry; [apply N.leb_le|apply N.leb_gt]; nia.
    + rewrite (proj2 (N.ltb_ge _ _)), (proj2 (N.eqb_neq _ _)) by lia. cbn.
      symmetry. apply N.leb_gt. nia.
Qed.

(** A [u64] needs at most twenty digits, so the padded key has exactly twenty. *)
Lemma dec_width_le f n : dec_width f n <= S f.
Proof. revert n. induction f as [|f IH]; cbn; intros; [lia|]. case_match; [lia|]. specialize (IH (n/10)%N). lia. Qed.

Lemma dec_width_pow f w n : (n < 10 ^ N.of_nat w)%N -> 0 < w -> dec_width f n <= w.
Proof.
  revert w n. induction f as [|f IH]; cbn; intros w n Hn Hw; [lia|].
  destruct (N.ltb_spec n 10); [lia|].
  destruct w as [|[|w]]; [lia| |].
  - change (10 ^ N.of_nat 1)%N with 10%N in Hn. lia.
  - apply le_n_S. apply IH; [|lia].
    rewrite Nat2N.inj_succ, N.pow_succ_r' in Hn.
    apply N.Div0.div_lt_upper_bound; done.
Qed.

Lemma u64_lt_pow20 n : is_u64 n -> (n < 10 ^ N.of_nat 20)%N.
Proof.
  unfold is_u64, u64_max. change (10 ^ N.of_nat 20)%N with 100000000000000000000%N. lia.
Qed.

Lemma format_u64_20 n : is_u64 n -> format_u64 20 n = dec_string 20 n.
Proof.
  intros Hn. unfold format_u64.
  pose proof (dec_width_pow 20 20 n (u64_lt_pow20 n Hn) ltac:(lia)).
  by rewrite Nat.max_l by done.
Qed.

Lemma parse_u64_Some s n :
  String.length s = 20 -> parse_u64 s = Some n <-> is_u64 n /\ s = dec_string 20 n.
Proof.
  intros Hl. unfold parse_u64, is_u64. split.
  - destruct (all_digits s) eqn:Hd; cbn; [|done].
    destruct (N.leb_spec (dec_value 0 s) u64_max); [|done]. intros [= <-].
    split; [done|]. pose proof (dec_string_of_digits s Hd) as E.
    by rewrite Hl in E.
  - intros [Hn ->]. rewrite dec_string_digits, dec_value_string.
    rewrite N.mod_small by (by apply u64_lt_pow20). cbn.
    by rewrite (proj2 (N.leb_le _ _)).
Qed.

(** A decimal form reads back, so distinct numbers have distinct forms. *)
Lemma dec_width_bound f n : (n < 10 ^ N.of_nat (S f))%N -> (n < 10 ^ N.of_nat (dec_width f n))%N.
Proof.
  revert n. induction f as [|f IH]; intros n Hn; [done|]. cbn [dec_width].
  destruct (N.ltb_spec n 10); [done|].
  rewrite Nat2N.inj_succ, N.pow_succ_r' in Hn |- *.
  pose proof (IH (n / 10)%N (N.Div0.div_lt_upper_bound _ _ _ Hn)) as Hd.
  revert Hd. generalize (10 ^ N.of_nat (dec_width f (n / 10)))%N. intros. divlia.
Qed.

Lemma format_u64_digits w n : all_digits (format_u64 w n) = true.
Proof. apply dec_string_digits. Qed.

Lemma format_u64_inj w m n : is_u64 m -> is_u64 n -> format_u64 w m = format_u64 w n -> m = n.
Proof.
  assert (Hv : forall n, is_u64 n -> dec_value 0 (format_u64 w n) = n).
  { intros x Hx. unfold format_u64. rewrite dec_value_string, N.mod_small; [done|].
    eapply N.lt_le_trans; [apply (dec_width_bound 20)|apply N.pow_le_mono_r; lia].
    eapply N.lt_le_trans; [by apply u64_lt_pow20|apply N.pow_le_mono_r; lia]. }
  intros Hm Hn Heq. rewrite <-(Hv m), <-(Hv n) by done. by rewrite Heq.
Qed.

Lemma digits_split_once c p r :
  is_ascii_digit c = false -> all_digits p = true -> split_once c (p +:+ String c r) = Some (p, r).
Proof.
  intros Hc. induction p as [|d p IH]; cbn [all_digits].
  - intros _. rewrite append_nil. cbn [split_once]. by rewrite bool_decide_true.
  - intros [Hd Hp]%andb_true_iff. rewrite append_cons. cbn [split_once].
    rewrite bool_decide_false by (intros ->; congruence). by rewrite IH.
Qed.

(** What redb answers to one write transaction. *)
Inductive tx_outcome :=
| Committed
| Refused (e : string)
| Uncertain (e : string).

Abbreviation Rows := (gmap string bytes).

Record Persistence := {
  db : gmap string Rows;
  dek : bytes;
  rng : nat;               (** draws taken from the OS generator *)
  outcomes : list tx_outcome;
  read_fault : option string;
}.

Definition table_of (d : gmap string Rows) (t : string) : Rows := default ∅ (d !! t).

Section Rows.
(** AES-256-GCM of the [aes_gcm] crate, and the OS random generator. *)
Variable aes_encrypt : bytes -> bytes -> bytes -> result string bytes.
Variable aes_decrypt : bytes -> bytes -> bytes -> result string bytes.
Variable os_rng : nat -> bytes.

Definition NONCE_LEN : nat := 12.

Definition encrypt_blob (k : bytes) (draw : nat) (plaintext : bytes)
  : result PersistenceError bytes :=
  let nonce_bytes := os_rng draw in
  ct ← map_err Crypto (aes_encrypt k nonce_bytes plaintext);
  Ok (nonce_bytes ++ ct).

Definition decrypt_blob (k blob : bytes) : result PersistenceError bytes :=
  if decide (length blob < NONCE_LEN)
  then Err (Crypto "blob shorter than nonce")
  else map_err Crypto (aes_decrypt k (take NONCE_LEN blob) (drop NONCE_LEN blob)).

(** [Persistence::write]: the operation edits a draft; an error of the
    operation or of the commit drops the draft, except that a commit may be
    reported as failed after it took effect. *)
Definition write {T} (s : Persistence)
    (operation : gmap string Rows -> result PersistenceError (gmap string Rows * T))
  : Persistence * result PersistenceError T :=
  let s0 := {| db := db s; dek := dek s; rng := rng s;
               outcomes := tail (outcomes s); read_fault := read_fault s |} in
  match operation (db s) with
  | Err e => (s0, Err e)
  | Ok (d, v) =>
      let s1 := {| db := d; dek := dek s; rng := rng s;
                   outcomes := tail (outcomes s); read_fault := read_fault s |} in
      match head (outcomes s) with
      | None | Some Committed => (s1, Ok v)
      | Some (Refused e) => (s0, Err (Db e))
      | Some (Uncertain e) => (s1, Err (Db e))
      end
  end.

Definition update_row (d : gmap string Rows) (t k : string) (blob : option bytes)
  : gmap string Rows :=
  match blob with
  | Some b => <[t := <[k := b]> (table_of d t)]> d
  | None => <[t := delete k (table_of d t)]> d
  end.

Definition put (s : Persistence) (t k : string) (plaintext : bytes)
  : Persistence * result PersistenceError unit :=
  let blob := encrypt_blob (dek s) (rng s) plaintext in
  let s' := {| db := db s; dek := dek s; rng := S (rng s);
               outcomes := outcomes s; read_fault := read_fault s |} in
  match blob with
  | Err e => (s', Err e)
  | Ok b => write s' (fun d => Ok (update_row d t k (Some b), tt))
  end.

Definition begin_read (s : Persistence) : result PersistenceError (gmap string Rows) :=
  match read_fault s with Some e => Err (Db e) | None => Ok (db s) end.

Definition get (s : Persistence) (t k : string) : result PersistenceError (option bytes) :=
  d ← begin_read s;
  match table_of d t !! k with
  | None => Ok None
  | Some row => Some <$> decrypt_blob (dek s) row
  end.

Definition list_rows (s : Persistence) (t : string)
  : result PersistenceError (list (string * bytes)) :=
  d ← begin_read s;
  try_fold (fun acc '(k, v) => p ← decrypt_blob (dek s) v; Ok (acc ++ [(k, p)]))
    [] (btree_entries String.le (table_of d t)).

(** A half-open range of keys, as redb's [range]. *)
Definition in_range (start stop k : string) : bool :=
  String.leb start k && (String.leb k stop && negb (String.eqb k stop)).

Definition prefix_range (prefix : string) : string * string :=
  (String.append prefix (String (Ascii.ascii_of_N 1) EmptyString),
   String.append prefix (String (Ascii.ascii_of_N 2) EmptyString)).

Definition range_prefix (s : Persistence) (t prefix : string)
  : result PersistenceError (list bytes) :=
  let '(start, stop) := prefix_range prefix in
  d ← begin_read s;
  try_fold (fun acc '(k, v) => p ← decrypt_blob (dek s) v; Ok (acc ++ [p]))
    [] (filter (fun kv => in_range start stop kv.1 = true)
          (btree_entries String.le (table_of d t))).

Definition delete_prefix (d : gmap string Rows) (t prefix : string) : gmap string Rows :=
  let '(start, stop) := prefix_range prefix in
  <[t := filter (fun kv => in_range start stop kv.1 = false) (table_of d t)]> d.

(** ** The group commit log ([persistence/group_commits.rs]) *)

Definition GROUP_COMMIT_LOG : string := "group_commit_log".

Definition slash : Ascii.ascii := Ascii.ascii_of_N 47.

Fixpoint contains (c : Ascii.ascii) (s : string) : bool :=
  match s with
  | EmptyString => false
  | String d s' => bool_decide (c = d) || contains c s'
  end.

Definition group_prefix (group_id : string) : string :=
  String.append group_id (String slash EmptyString).

Definition commit_log_key (group_id : string) (epoch : N) : string :=
  String.append (group_prefix group_id) (format_u64 20 epoch).

Definition append_group_commit (s : Persistence) (group_id : string) (epoch : N)
    (commit : bytes) : Persistence * result PersistenceError unit :=
  if contains slash group_id
  then (s, Err (Db (String.append "group_id must not contain '/': " group_id)))
  else put s GROUP_COMMIT_LOG (commit_log_key group_id epoch) commit.

Definition nines : string := "999999999999999999999".

Definition list_group_commits_from (s : Persistence) (group_id : string)
    (from_epoch : N) : result PersistenceError (list (N * bytes)) :=
  d ← begin_read s;
  let start := commit_log_key group_id from_epoch in
  let stop := String.append (group_prefix group_id) nines in
  try_fold (fun out '(key, value) =>
    match strip_prefix (group_prefix group_id) key with
    | None => Ok out
    | Some epoch_str =>
        if negb (String.length epoch_str =? 20)%nat || negb (all_digits epoch_str)
        then Ok out
        else match parse_u64 epoch_str with
             | None => Ok out
             | Some epoch =>
                 c ← decrypt_blob (dek s) value; Ok (out ++ [(epoch, c)])
             end
    end)
    [] (filter (fun kv => in_range start stop kv.1 = true)
          (btree_entries String.le (table_of d GROUP_COMMIT_LOG))).

(** *** The device-link row ([dm_devices.rs]) *)

Definition DEVICE_LINK : string := "device_link".
Definition DEVICE_LINK_KEY : string := "local-device-v1".

Definition get_device_link (s : Persistence) : result PersistenceError (option bytes) :=
  get s DEVICE_LINK DEVICE_LINK_KEY.

Definition drawn (s : Persistence) : Persistence :=
  {| db := db s; dek := dek s; rng := S (rng s); outcomes := outcomes s; read_fault := read_fault s |}.

Definition replace_device_link (s : Persistence) (expected replacement : bytes)
  : Persistence * result PersistenceError bool :=
  match encrypt_blob (dek s) (rng s) replacement with
  | Err e => (drawn s, Err e)
  | Ok encrypted =>
      match (d ← begin_read s;
             match table_of d DEVICE_LINK !! DEVICE_LINK_KEY with
             | Some row => Some <$> decrypt_blob (dek s) row
             | None => Ok None
             end) with
      | Err e => (drawn s, Err e)
      | Ok current =>
          if negb (bool_decide (current = Some expected)) then (drawn s, Ok false)
          else write (drawn s) (fun d =>
                 Ok (update_row d DEVICE_LINK DEVICE_LINK_KEY (Some encrypted), true))
      end
  end.

Definition initialize_device_link (s : Persistence) (candidate : bytes)
  : Persistence * result PersistenceError bytes :=
  match encrypt_blob (dek s) (rng s) candidate with
  | Err e => (drawn s, Err e)
  | Ok encrypted =>
      match begin_read s with
      | Err e => (drawn s, Err e)
      | Ok d =>
          match table_of d DEVICE_LINK !! DEVICE_LINK_KEY with
          | Some row => write (drawn s) (fun d => w ← decrypt_blob (dek s) row; Ok (d, w))
          | None => write (drawn s) (fun d =>
              Ok (update_row d DEVICE_LINK DEVICE_LINK_KEY (Some encrypted), candidate))
          end
      end
  end.

Definition device_link_content (s : Persistence) : option bytes :=
  row ← table_of (db s) DEVICE_LINK !! DEVICE_LINK_KEY; res_ok (decrypt_blob (dek s) row).

(** ** Theorems *)

Hypothesis aes_roundtrip : forall k n p c,
  aes_encrypt k n p = Ok c -> aes_decrypt k n c = Ok p.
Hypothesis os_rng_length : forall i, length (os_rng i) = NONCE_LEN.

Lemma decrypt_encrypt_blob k i p blob :
  encrypt_blob k i p = Ok blob -> decrypt_blob k blob = Ok p.
Proof.
  unfold encrypt_blob, decrypt_blob. intros H. peel H. injection H as <-.
  rewrite decide_False by (rewrite length_app, os_rng_length; lia).
  rewrite take_app_length', drop_app_length' by (by rewrite os_rng_length).
  peel_all. apply map_err_Ok. by eapply aes_roundtrip.
Qed.

Lemma table_of_update d t k b t' :
  table_of (update_row d t k b) t'
  = if decide (t = t') then partial_alter (fun _ => b) k (table_of d t)
    else table_of d t'.
Proof.
  unfold table_of at 1, update_row. destruct b; rewrite lookup_insert; by case_decide.
Qed.

Lemma write_cases {T} s (op : gmap string Rows -> result PersistenceError (gmap string Rows * T))
    s' r :
  write s op = (s', r) ->
  dek s' = dek s /\ rng s' = rng s /\ read_fault s' = read_fault s /\
  ((db s' = db s /\ is_ok r = false) \/
   exists d v, op (db s) = Ok (d, v) /\ db s' = d /\ (r = Ok v \/ is_ok r = false)).
Proof.
  unfold write. destruct (op (db s)) as [[d v]|e].
  - destruct (head (outcomes s)) as [[]|]; intros [= <- <-];
      (split; [done|split; [done|split; [done|]]]); cbn; naive_solver.
  - intros [= <- <-]. cbn. naive_solver.
Qed.

#[export] Instance persistence_store : RowStore Persistence :=
  {| rs_get := get; rs_put := put |}.

Lemma put_cases s t k b s' r :
  put s t k b = (s', r) ->
  dek s' = dek s /\ read_fault s' = read_fault s /\
  ((db s' = db s /\ is_ok r = false) \/
   exists blob, decrypt_blob (dek s) blob = Ok b /\
     db s' = update_row (db s) t k (Some blob) /\ (r = Ok tt \/ is_ok r = false)).
Proof.
  unfold put. destruct (encrypt_blob _ _ _) as [blob|] eqn:E.
  - intros Hw. apply write_cases in Hw as (-> & _ & -> & [[-> ->]|(d & v & Hop & -> & Hr)]);
      cbn in *; [by eauto|].
    injection Hop as <- <-. split; [done|split; [done|right]].
    exists blob. split; [by eapply decrypt_encrypt_blob|]. by split.
  - intros [= <- <-]. cbn. by eauto.
Qed.

#[export] Instance persistence_store_laws : RowStoreLaws Persistence.
Proof.
  split; cbn.
  - intros s s' t k b o (Hdek & Hrf & [[_ ?]|(blob & Hdec & Hdb & _)])%put_cases; [done|].
    unfold get, begin_read. rewrite Hrf, Hdb, Hdek.
    destruct (read_fault s); [done|]. cbn [mbind result_bind].
    rewrite table_of_update, decide_True, lookup_partial_alter_eq by done.
    rewrite Hdec. by intros [= <-].
  - intros s s' t k t' k' b r (Hdek & Hrf & Hdb)%put_cases Hne.
    unfold get, begin_read. rewrite Hrf, Hdek.
    destruct (read_fault s); [done|]. cbn [mbind result_bind].
    destruct Hdb as [[-> _]|(blob & _ & -> & _)]; [done|].
    rewrite table_of_update. case_decide as Ht; [|done]. subst t'.
    rewrite lookup_partial_alter_ne by congruence. done.
Qed.

#[export] Instance persistence_cell : CasCell Persistence :=
  {| cell_get := get_device_link; cell_replace := replace_device_link;
     cell_init := initialize_device_link; cell_content := device_link_content |}.

Lemma content_same s s' :
  dek s' = dek s -> db s' = db s -> device_link_content s' = device_link_content s.
Proof. unfold device_link_content. by intros -> ->. Qed.

Lemma content_written s s' b blob :
  dek s' = dek s -> db s' = update_row (db s) DEVICE_LINK DEVICE_LINK_KEY (Some blob) ->
  decrypt_blob (dek s) blob = Ok b -> device_link_content s' = Some b.
Proof.
  unfold device_link_content. intros -> -> Hd.
  rewrite table_of_update, decide_True, lookup_partial_alter_eq by done. cbn. by rewrite Hd.
Qed.

#[export] Instance persistence_cell_laws : CasCellLaws Persistence.
Proof.
  split; cbn.
  - intros s o. unfold get_device_link, get, begin_read, device_link_content.
    destruct (read_fault s); [done|]. cbn [mbind result_bind].
    destruct (table_of (db s) DEVICE_LINK !! DEVICE_LINK_KEY) as [row|]; cbn; [|by intros [= <-]].
    destruct (decrypt_blob (dek s) row); cbn; [by intros [= <-]|done].
  - intros s e b s' r. unfold replace_device_link.
    destruct (encrypt_blob _ _ _) as [blob|] eqn:Eb; [|intros [= <- <-]; by left].
    match goal with |- context [match ?m with Ok _ => _ | Err _ => _ end] => destruct m as [cur|] eqn:Ec end;
      [|intros [= <- <-]; by left].
    assert (Hcur : device_link_content s = cur).
    { unfold device_link_content, begin_read in *. destruct (read_fault s); [done|].
      cbn [mbind result_bind] in Ec.
      destruct (table_of (db s) DEVICE_LINK !! DEVICE_LINK_KEY) as [row|]; cbn in Ec |- *; [|congruence].
      destruct (decrypt_blob (dek s) row); cbn in *; congruence. }
    case_bool_decide as He; [|intros [= <- <-]; left; by rewrite Hcur]. cbn [negb].
    intros (Hdek & _ & _ & [[Hdb Hr]|(d & v & [= <- <-] & Hdb & Hr)])%write_cases.
    + left. split_and!; [by apply content_same|by destruct r|by destruct r].
    + right. split_and!; [by rewrite Hcur
        |by eapply content_written; [exact Hdek|exact Hdb|eapply decrypt_encrypt_blob]
        |by destruct Hr as [->|?]; [|destruct r]].
  - intros s b s' r. unfold initialize_device_link.
    destruct (encrypt_blob _ _ _) as [blob|] eqn:Eb; [|intros [= <- <-]; by left].
    unfold begin_read. destruct (read_fault s); [intros [= <- <-]; by left|].
    destruct (table_of (db s) DEVICE_LINK !! DEVICE_LINK_KEY) as [row|] eqn:Erow.
    + intros (Hdek & _ & _ & [[Hdb Hr]|(d & v & Hop & Hdb & Hr)])%write_cases; left.
      * split; [by apply content_same|]. by intros w ->.
      * apply bind_Ok in Hop as (w0 & Hw & [= <- <-]). split; [by apply content_same|].
        intros w ->. destruct Hr as [[= ->]|]; [|done]. unfold device_link_content.
        rewrite Erow. cbn. by rewrite Hw.
    + intros (Hdek & _ & _ & [[Hdb Hr]|(d & v & [= <- <-] & Hdb & Hr)])%write_cases.
      * left. split; [by apply content_same|]. by intros w ->.
      * right. split_and!; [by unfold device_link_content; rewrite Erow
          |by eapply content_written; [exact Hdek|exact Hdb|eapply decrypt_encrypt_blob]|].
        intros w ->. by destruct Hr as [[= ->]|].
Qed.

(** *** The commit log is an ordered map from epochs *)

Definition commit_entry (k : bytes) (g : string) (kv : string * bytes)
  : option (result PersistenceError (N * bytes)) :=
  epoch_str ← strip_prefix (group_prefix g) kv.1;
  if negb (String.length epoch_str =? 20)%nat || negb (all_digits epoch_str) then None
  else epoch ← parse_u64 epoch_str; Some (c ← decrypt_blob k kv.2; Ok (epoch, c)).

Lemma commit_entry_Some k g key v r :
  commit_entry k g (key, v) = Some r <->
  exists e, is_u64 e /\ key = commit_log_key g e /\
    r = (c ← decrypt_blob k v; Ok (e, c)).
Proof.
  unfold commit_entry, commit_log_key. cbn. split.
  - destruct (strip_prefix _ key) as [es|] eqn:Es; cbn; [|done].
    apply strip_prefix_Some in Es as ->.
    destruct (String.length es =? 20)%nat eqn:El; cbn; [|done]. apply Nat.eqb_eq in El.
    destruct (all_digits es); cbn; [|done].
    destruct (parse_u64 es) as [e|] eqn:Ee; cbn; [|done]. intros [= <-].
    apply parse_u64_Some in Ee as [He ->]; [|done]. exists e.
    by rewrite format_u64_20.
  - intros (e & He & -> & ->). rewrite format_u64_20 by done.
    pose proof (dec_string_length 20 e) as Hl.
    pose proof (dec_string_digits 20 e) as Hd.
    assert (Hp : parse_u64 (dec_string 20 e) = Some e) by (by apply parse_u64_Some).
    revert Hl Hd Hp. generalize (dec_string 20 e). intros es Hl Hd Hp.
    rewrite (proj2 (strip_prefix_Some _ _ es)) by done. cbn.
    by rewrite Hl, Hd, Hp.
Qed.

Lemma commit_log_key_leb g m n : is_u64 m -> is_u64 n ->
  String.leb (commit_log_key g m) (commit_log_key g n) = (m <=? n)%N.
Proof.
  intros Hm Hn. unfold commit_log_key. rewrite leb_app, !format_u64_20 by done.
  by apply dec_string_leb; apply u64_lt_pow20.
Qed.

(** Twenty digits never reach the twenty-one nines that close the range. *)
Fixpoint rep9 (w : nat) : string :=
  match w with O => EmptyString | S w' => String (Ascii.ascii_of_N 57) (rep9 w') end.

Lemma digits_below_nines s w :
  all_digits s = true -> String.length s < w ->
  String.leb s (rep9 w) = true /\ s <> rep9 w.
Proof.
  revert w. induction s as [|c s IH]; intros [|w] Hd Hl;
    cbn [rep9 all_digits String.length] in *; try lia; [done|].
  apply andb_true_iff in Hd as [Hc Hd]. destruct (IH w Hd) as [Hle Hne]; [lia|].
  unfold is_ascii_digit in Hc. apply andb_true_iff in Hc as [_ Hc]. apply N.leb_le in Hc.
  rewrite leb_cons, byte_at_of_N, Hle, andb_true_r by done.
  split; [|by intros [= _ ->]].
  destruct (N.ltb_spec (byte_at c) 57); [done|]. cbn. apply N.eqb_eq. lia.
Qed.

Lemma commit_key_in_range g from e : is_u64 from -> is_u64 e ->
  in_range (commit_log_key g from) (group_prefix g +:+ nines) (commit_log_key g e)
  = (from <=? e)%N.
Proof.
  intros Hf He. unfold in_range. rewrite commit_log_key_leb by done.
  unfold commit_log_key. rewrite leb_app, format_u64_20 by done.
  destruct (digits_below_nines (dec_string 20 e) 21) as [Hle Hne];
    [apply dec_string_digits|rewrite dec_string_length; lia|].
  change nines with (rep9 21). rewrite Hle.
  destruct (String.eqb_spec (group_prefix g +:+ dec_string 20 e) (group_prefix g +:+ rep9 21))
    as [E|_]; [|by rewrite andb_true_r].
  by apply (inj (String.append _)) in E.
Qed.

Lemma list_group_commits_omap s g from out :
  list_group_commits_from s g from = Ok out ->
  out = omap (fun kv => commit_entry (dek s) g kv ≫= res_ok)
    (filter (fun kv : string * bytes =>
       in_range (commit_log_key g from) (group_prefix g +:+ nines) kv.1 = true)
      (btree_entries String.le (table_of (db s) GROUP_COMMIT_LOG))).
Proof.
  unfold list_group_commits_from, begin_read.
  destruct (read_fault s); [done|]. cbn [mbind result_bind]. intros H.
  erewrite try_fold_ext in H; [apply try_fold_push in H; exact H|].
  intros acc [k v]. unfold commit_entry. cbn.
  destruct (strip_prefix _ k) as [es|]; cbn; [|done].
  destruct (_ || _); [done|]. destruct (parse_u64 es); cbn; [|done].
  by destruct (decrypt_blob (dek s) v).
Qed.

(** The commits of a group from epoch [from] on are listed in strictly
    increasing epoch order, and they are exactly the rows the log holds. *)
Theorem commit_log_ordered s g from out :
  is_u64 from -> list_group_commits_from s g from = Ok out ->
  StronglySorted N.lt out.*1 /\
  forall e c, (e, c) ∈ out <->
    (from <= e)%N /\ is_u64 e /\
    exists row, table_of (db s) GROUP_COMMIT_LOG !! commit_log_key g e = Some row /\
                decrypt_blob (dek s) row = Ok c.
Proof.
  intros Hfrom Hout. apply list_group_commits_omap in Hout as ->. split.
  - apply StronglySorted_proj.
    eapply StronglySorted_omap; [|apply StronglySorted_filter, btree_entries_sorted; apply _].
    intros [k1 v1] [k2 v2] [e1 c1] [e2 c2] [Hle Hne] H1 H2. cbn in *.
    destruct (commit_entry _ _ (k1, v1)) as [r1|] eqn:E1; [|done].
    destruct (commit_entry _ _ (k2, v2)) as [r2|] eqn:E2; [|done].
    apply commit_entry_Some in E1 as (x1 & Hx1 & -> & ->).
    apply commit_entry_Some in E2 as (x2 & Hx2 & -> & ->). cbn in *.
    destruct (decrypt_blob _ v1), (decrypt_blob _ v2); try discriminate. cbn in *.
    simplify_eq. unfold String.le in Hle. rewrite commit_log_key_leb in Hle by done.
    apply Is_true_true, N.leb_le in Hle. apply N.le_neq. split; [done|]. by intros ->.
  - intros e c. rewrite list_elem_of_omap. split.
    + intros ([k v] & [Hr Hin]%list_elem_of_filter & He). cbn in *.
      apply elem_of_btree_entries in Hin.
      destruct (commit_entry _ _ _) as [r|] eqn:E; [|done].
      apply commit_entry_Some in E as (x & Hx & -> & ->). cbn in He.
      destruct (decrypt_blob _ v) eqn:Ed; [|done]. cbn in He. simplify_eq.
      rewrite commit_key_in_range in Hr by done. apply N.leb_le in Hr. by eauto 6.
    + intros (Hle & Hu & row & Hrow & Hdec).
      exists (commit_log_key g e, row). split.
      * apply list_elem_of_filter. cbn. rewrite commit_key_in_range by done.
        split; [by apply N.leb_le|]. by apply elem_of_btree_entries.
      * rewrite (proj2 (commit_entry_Some (dek s) g (commit_log_key g e) row _)
          (ex_intro _ e (conj Hu (conj eq_refl eq_refl)))).
        cbn. by rewrite Hdec.
Qed.
End Rows.

(** ** A concrete store

    The identity cipher with a constant nonce meets the cipher's law; the
    witnesses of the development run on it. *)
Definition plain_encrypt (k n p : bytes) : result string bytes := Ok p.
Definition plain_decrypt (k n c : bytes) : result string bytes := Ok c.
Definition zero_rng (i : nat) : bytes := replicate NONCE_LEN x00.

Lemma plain_roundtrip k n p c : plain_encrypt k n p = Ok c -> plain_decrypt k n c = Ok p.
Proof. by intros [= ->]. Qed.
Lemma zero_rng_length i : length (zero_rng i) = NONCE_LEN.
Proof. done. Qed.

Definition plain_store : RowStore Persistence :=
  persistence_store plain_encrypt plain_decrypt zero_rng.
Definition plain_laws : @RowStoreLaws Persistence plain_store :=
  persistence_store_laws plain_encrypt plain_decrypt zero_rng plain_roundtrip zero_rng_length.
Definition plain_cell : CasCell Persistence :=
  persistence_cell plain_encrypt plain_decrypt zero_rng.
Definition plain_cell_laws : @CasCellLaws Persistence plain_cell :=
  persistence_cell_laws plain_encrypt plain_decrypt zero_rng plain_roundtrip zero_rng_length.
Definition new_store (script : list tx_outcome) : Persistence :=
  {| db := ∅; dek := []; rng := 0; outcomes := script; read_fault := None |}.

Definition log_store : Persistence :=
  let add s e := (append_group_commit plain_encrypt zero_rng s "g" e [x01]).1 in
  add (add (new_store [Committed; Committed]) 10%N) 9%N.

Lemma commit_log_ordered_witness :
  list_group_commits_from plain_decrypt log_store "g" 9 = Ok [(9%N, [x01]); (10%N, [x01])] /\
  StronglySorted N.lt [9%N; 10%N].
Proof.
  assert (H : list_group_commits_from plain_decrypt log_store "g" 9
              = Ok [(9%N, [x01]); (10%N, [x01])]) by (vm_compute; reflexivity).
  split; [exact H|].
  refine (proj1 (commit_log_ordered plain_decrypt log_store "g" 9 _ _ H)). done.
Defined.
End Store.
