(* ===== verification/ChatNames.v ===== *)
(** * ChatNames: the replicated register of personal conversation names
      ([chat_names/mod.rs], [chat_names/types.rs])

    Every linked device keeps a last-writer-wins register per conversation,
    ordered by a Lamport counter and the writer's id.  A merge validates a
    batch, folds it into a copy of the register and persists the copy before
    it replaces the one in memory.  [serde_json] is a section variable. *)
From S2P Require Import Prelude Store.
Import Store.

Module ChatNames.

Inductive ChatNameErrorKind := InvalidInput | Storage | Unauthorized | Unavailable.

Record ChatNameError := { kind : ChatNameErrorKind; message : string }.

Definition invalid : ChatNameError :=
  {| kind := InvalidInput; message := "invalid chat name or version" |}.
Definition storage (e : string) : ChatNameError := {| kind := Storage; message := e |}.

Record NameVersion := { counter : N; actor : string }.
Record NameRecord := { key : string; version : NameVersion; name : option string }.
Record Register := {
  clock : N;
  initial_sync_complete : bool;
  entries : gmap string NameRecord;
}.

#[export] Instance NameVersion_eq_dec : EqDecision NameVersion.
Proof. solve_decision. Defined.
#[export] Instance NameRecord_eq_dec : EqDecision NameRecord.
Proof. solve_decision. Defined.

Definition default_register : Register :=
  {| clock := 0; initial_sync_complete := false; entries := ∅ |}.

(** The derived [Ord] of [NameVersion]: counter first, then actor. *)
Definition version_le (v w : NameVersion) : Prop :=
  (counter v < counter w)%N \/ (counter v = counter w /\ String.le (actor v) (actor w)).

Definition version_ltb (v w : NameVersion) : bool :=
  (counter v <? counter w)%N
  || ((counter v =? counter w)%N
      && (String.leb (actor v) (actor w) && negb (String.eqb (actor v) (actor w)))).

(** ** Validation ([types.rs]) *)

Definition validate_chat_name (value : string) : result ChatNameError string :=
  let name := trim_matches is_whitespace (chars value) in
  if bool_decide (name = []) || (64 <? length name)%nat
     || existsb (fun c => is_control c || (c =? 8232)%N || (c =? 8233)%N) name
  then Err invalid
  else Ok (of_chars name).

Definition colon : Ascii.ascii := Ascii.ascii_of_N 58.

Definition validate_key (k : string) : result ChatNameError unit :=
  match split_once colon k with
  | Some (kind, id) =>
      if (String.eqb kind "dm" || String.eqb kind "channel")
         && (negb (String.eqb id "") && (str_len id <=? 256)%N
             && negb (existsb is_control (chars id)))
      then Ok tt else Err invalid
  | None => Err invalid
  end.

Definition validate (r : NameRecord) : result ChatNameError unit :=
  _ ← validate_key (key r);
  _ ← guard_or (negb ((counter (version r) =? 0)%N || String.eqb (actor (version r)) ""
                      || (128 <? str_len (actor (version r)))%N)) invalid;
  match name r with
  | None => Ok tt
  | Some n => n' ← validate_chat_name n; guard_or (String.eqb n' n) invalid
  end.

(** ** The register *)

Record ChatNames (St : Type) := {
  store : St;
  user : string;
  actor_id : string;
  register : Register;
}.
Arguments store {St}. Arguments user {St}. Arguments actor_id {St}. Arguments register {St}.

Definition merge_entry (acc : Register * bool) (entry : NameRecord)
  : result ChatNameError (Register * bool) :=
  let '(next, changed) := acc in
  _ ← validate entry;
  let previous := entries next !! key entry in
  _ ← guard_or (negb match previous with
                     | Some old => bool_decide (version old = version entry)
                                   && negb (bool_decide (old = entry))
                     | None => false
                     end) invalid;
  if match previous with
     | None => true
     | Some old => version_ltb (version old) (version entry)
     end
  then Ok ({| clock := N.max (clock next) (counter (version entry));
              initial_sync_complete := initial_sync_complete next;
              entries := <[key entry := entry]> (entries next) |}, true)
  else Ok (next, changed).

(** The loop of [ChatNames::merge]: the register it would install, and whether
    anything changed. *)
Definition merge_register (reg : Register) (records : list NameRecord)
    (initial_sync : bool) : result ChatNameError (Register * bool) :=
  try_fold merge_entry
    ({| clock := clock reg;
        initial_sync_complete := initial_sync_complete reg || initial_sync;
        entries := entries reg |},
     initial_sync && negb (initial_sync_complete reg)) records.

Section Names.
Context {St : Type} `{RowStore St}.
Variable to_vec : Register -> result string bytes.
Variable from_slice : bytes -> result string Register.
Variable display : PersistenceError -> string.

Definition CHAT_NAMES : string := "chat_names".

Definition open (st : St) (user actor : string) : result ChatNameError (ChatNames St) :=
  row ← map_err (fun e => storage (display e)) (rs_get st CHAT_NAMES user);
  reg ← match row with
        | None => Ok default_register
        | Some b => map_err storage (from_slice b)
        end;
  _ ← try_fold (fun _ '(k, entry) =>
         _ ← validate entry;
         guard_or (negb (negb (String.eqb k (key entry))
                         || (clock reg <? counter (version entry))%N)) invalid)
       tt (btree_entries String.le (entries reg));
  Ok {| store := st; user := user; actor_id := actor; register := reg |}.

Definition name_of (c : ChatNames St) (k : string) : option string :=
  r ← entries (register c) !! k; name r.

Definition merge (records : list NameRecord) (initial_sync : bool)
  : method (ChatNames St) ChatNameError bool := fun c =>
  match merge_register (register c) records initial_sync with
  | Err e => (c, Err e)
  | Ok (next, false) => (c, Ok false)
  | Ok (next, true) =>
      match to_vec next with
      | Err e => (c, Err (storage e))
      | Ok b =>
          let '(st, r) := rs_put (store c) CHAT_NAMES (user c) b in
          match r with
          | Err e => ({| store := st; user := user c; actor_id := actor_id c;
                         register := register c |}, Err (storage (display e)))
          | Ok _ => ({| store := st; user := user c; actor_id := actor_id c;
                        register := next |}, Ok true)
          end
      end
  end.

Definition set (k : string) (n : option string)
  : method (ChatNames St) ChatNameError unit := fun c =>
  match validate_key k with
  | Err e => (c, Err e)
  | Ok _ =>
      if bool_decide (name_of c k = n) then (c, Ok tt)
      else match checked_add64 (clock (register c)) 1 with
      | None => (c, Err invalid)
      | Some counter =>
          let '(c', r) := merge [ {| key := k; name := n;
                                     version := {| counter := counter;
                                                   actor := actor_id c |} |} ] true c in
          (c', _ ← r; Ok tt)
      end
  end.

Definition rename (k n : string) : method (ChatNames St) ChatNameError unit := fun c =>
  match validate_chat_name n with
  | Err e => (c, Err e)
  | Ok n' => set k (Some n') c
  end.

Definition reset (k : string) : method (ChatNames St) ChatNameError unit := set k None.

(** [snapshot]: the named conversations in key order. *)
Definition snapshot_entries (c : ChatNames St) : list (string * string) :=
  omap (fun r => n ← name r; Some (key r, n)) (btree_values String.le (entries (register c))).

Definition page (c : ChatNames St) (after : option string) : list NameRecord :=
  take 16 (filter (fun r => match after with
                            | None => true
                            | Some k => negb (String.leb (key r) k)
                            end = true)
            (btree_values String.le (entries (register c)))).
End Names.

(** ** The version order *)

Lemma version_ltb_spec v w : version_ltb v w = true <-> version_le v w /\ v <> w.
Proof.
  destruct v as [c a], w as [d b]. unfold version_ltb, version_le, String.le. cbn.
  rewrite orb_true_iff, !andb_true_iff, N.ltb_lt, N.eqb_eq, negb_true_iff, String.eqb_neq.
  rewrite Is_true_true. split.
  - intros [H|(-> & Hl & Hn)]; [split; [by left|]|split; [by right|]]; intros [=]; subst; [lia|done].
  - intros [[H|[-> Hl]] Hn]; [by left|right]. split; [done|]. split; [done|]. by intros ->.
Qed.

#[export] Instance version_le_po : PartialOrder version_le.
Proof.
  unfold version_le. split; [split|].
  - intros v. right. by split.
  - intros u v w [H1|[H1 Ha]] [H2|[H2 Hb]]; [left; lia|left; lia|left; lia|right].
    split; [lia|]. by etrans.
  - intros [c a] [d b]; cbn. intros [H1|[H1 Ha]] [H2|[H2 Hb]]; [lia..|].
    f_equal; [done|]. by apply (anti_symm String.le).
Qed.

Lemma version_ltb_ge v w : version_ltb v w = false -> version_le w v.
Proof.
  intros Hlt. destruct (decide (v = w)) as [->|Hne]; [reflexivity|].
  assert (Hn : ~ version_le v w).
  { intros Hle. enough (version_ltb v w = true) by congruence. by apply version_ltb_spec. }
  unfold version_le in *. destruct (N.lt_trichotomy (counter v) (counter w)) as [?|[E|?]];
    [tauto| |by left].
  right. split; [done|]. destruct (total String.le (actor v) (actor w)); tauto.
Qed.

Lemma version_le_counter v w : version_le v w -> (counter v <= counter w)%N.
Proof. unfold version_le. lia. Qed.

(** ** The invariant [open] checks and every merge keeps *)

Definition wf (reg : Register) : Prop :=
  forall k e, entries reg !! k = Some e ->
    key e = k /\ validate e = Ok tt /\ (counter (version e) <= clock reg)%N.

Lemma default_wf : wf default_register.
Proof. intros k e. cbn. by rewrite lookup_empty. Qed.
#[local] Hint Resolve default_wf : mosh_wf.

(** What a replica knows of [k] once it has seen a batch, and the newest of it. *)
Definition knows (reg : Register) (rs : list NameRecord) (k : string) (x : NameRecord) : Prop :=
  entries reg !! k = Some x \/ (x ∈ rs /\ key x = k).
Definition newest (P : NameRecord -> Prop) (x : NameRecord) : Prop :=
  P x /\ forall y, P y -> version_le (version y) (version x).

Definition max_clock (c : N) (rs : list NameRecord) : N :=
  foldl (fun m r => N.max m (counter (version r))) c rs.

Lemma merge_entry_cases reg ch e reg' ch' :
  merge_entry (reg, ch) e = Ok (reg', ch') ->
  validate e = Ok tt /\ initial_sync_complete reg' = initial_sync_complete reg /\
  ((reg' = reg /\ ch' = ch /\ exists old, entries reg !! key e = Some old /\
      version_le (version e) (version old) /\ (version old = version e -> old = e))
   \/ (ch' = true /\ entries reg' = <[key e := e]> (entries reg) /\
       clock reg' = N.max (clock reg) (counter (version e)) /\
       forall old, entries reg !! key e = Some old ->
         version_le (version old) (version e) /\ version old <> version e)).
Proof.
  unfold merge_entry. intros ([] & Hv & H)%bind_Ok.
  apply bind_Ok in H as (u & Hg%guard_or_Ok & H).
  apply negb_true_iff in Hg. split; [done|].
  destruct (entries reg !! key e) as [old|] eqn:E.
  - destruct (version_ltb _ _) eqn:Hlt; injection H as <- <-; (split; [done|]).
    + right. apply version_ltb_spec in Hlt as []. repeat split; by intros; simplify_eq.
    + left. split; [done|]. split; [done|]. exists old. split; [done|].
      split; [by apply version_ltb_ge|]. intros Heqv.
      rewrite bool_decide_true in Hg by done. cbn in Hg.
      by apply negb_false_iff, bool_decide_eq_true in Hg.
  - injection H as <- <-. split; [done|]. right. by repeat split.
Qed.

Lemma merge_entry_wf reg ch e reg' ch' :
  wf reg -> merge_entry (reg, ch) e = Ok (reg', ch') -> wf reg'.
Proof.
  intros Hwf (Hv & _ & [(-> & _)|(_ & He & Hc & _)])%merge_entry_cases; [done|].
  intros k x. rewrite He, Hc, lookup_insert. case_decide as Hk.
  - intros [= <-]. repeat split; [done|done|lia].
  - intros Hx. destruct (Hwf k x Hx) as (? & ? & ?). repeat split; [done|done|lia].
Qed.

Lemma merge_entry_clock reg ch e reg' ch' :
  wf reg -> merge_entry (reg, ch) e = Ok (reg', ch') ->
  clock reg' = N.max (clock reg) (counter (version e)).
Proof.
  intros Hwf (_ & _ & [(-> & _ & old & Hold & Hle & _)|(_ & _ & Hc & _)])%merge_entry_cases;
    [|done].
  apply version_le_counter in Hle. destruct (Hwf _ _ Hold) as (_ & _ & ?). lia.
Qed.

(** One step neither adds nor loses a newest record. *)
Lemma merge_entry_newest reg ch e reg' ch' rs k x :
  merge_entry (reg, ch) e = Ok (reg', ch') ->
  newest (knows reg' rs k) x <-> newest (knows reg (e :: rs) k) x.
Proof.
  intros (_ & _ & Hcase)%merge_entry_cases. unfold newest, knows.
  setoid_rewrite elem_of_cons.
  destruct Hcase as [(-> & _ & old & Hold & Hle & Heq)|(_ & He & _ & Hlt)].
  - split.
    + intros [Hx Hmax]. split; [tauto|]. intros y [Hy|[[->|Hy] Hk]]; [auto..|].
      * subst k. etrans; [exact Hle|]. apply Hmax. by left.
      * apply Hmax. by right.
    + intros [Hx Hmax]. split; [|intros y [?|[]]; apply Hmax; [by left|right; tauto]].
      destruct Hx as [Hx|[[->|Hx] Hk]]; [by left| |right; tauto].
      subst k. left. rewrite Hold. f_equal. apply Heq.
      apply (anti_symm version_le); [|done]. apply Hmax. by left.
  - rewrite He. setoid_rewrite lookup_insert. split.
    + intros [Hx Hmax]. split.
      * case_decide; [|tauto]. destruct Hx as [[= <-]|[]]; [|tauto]. right. split; [by left|done].
      * intros y [Hy|[[->|Hy] Hk]].
        -- case_decide as Hd; [|apply Hmax; by left]. subst k.
           destruct (Hlt y Hy) as [Hye _]. etrans; [exact Hye|]. apply Hmax. by left.
        -- apply Hmax. rewrite decide_True by done. by left.
        -- apply Hmax. by right.
    + intros [Hx Hmax]. split.
      * destruct Hx as [Hx|[[->|Hx] Hk]]; [|rewrite decide_True by done; by left|by right].
        case_decide as Hd; [|by left]. subst k. destruct (Hlt x Hx) as [Hxe Hne].
        destruct Hne. apply (anti_symm version_le); [done|]. apply Hmax. right. split; [by left|done].
      * intros y Hy. apply Hmax. case_decide; [|tauto].
        destruct Hy as [[= <-]|[]]; right; tauto.
Qed.

Lemma merge_fold reg ch rs reg' ch' :
  wf reg -> try_fold merge_entry (reg, ch) rs = Ok (reg', ch') ->
  wf reg' /\ initial_sync_complete reg' = initial_sync_complete reg /\
  clock reg' = max_clock (clock reg) rs /\
  forall k x, entries reg' !! k = Some x <-> newest (knows reg rs k) x.
Proof.
  revert reg ch. induction rs as [|e rs IH]; intros reg ch Hwf Hf; cbn in Hf.
  - injection Hf as <- <-. repeat split; [by eapply Hwf..| | |].
    + by left.
    + intros y [Hy|[Hy _]]; [|by apply elem_of_nil in Hy]. by simplify_eq.
    + intros [[Hx|[Hx _]] _]; [done|by apply elem_of_nil in Hx].
  - apply bind_Ok in Hf as ([reg1 ch1] & He & Hf).
    destruct (IH reg1 ch1) as (Hwf' & Hs & Hc & Hn);
      [by eapply merge_entry_wf|done|].
    split; [done|]. split; [|split].
    + rewrite Hs. by apply merge_entry_cases in He as (_ & -> & _).
    + rewrite Hc. cbn. by erewrite merge_entry_clock.
    + intros k x. rewrite Hn. by eapply merge_entry_newest.
Qed.

Lemma merge_register_spec reg rs b reg' ch :
  wf reg -> merge_register reg rs b = Ok (reg', ch) ->
  wf reg' /\ initial_sync_complete reg' = (initial_sync_complete reg || b) /\
  clock reg' = max_clock (clock reg) rs /\
  forall k x, entries reg' !! k = Some x <-> newest (knows reg rs k) x.
Proof. intros Hwf Hm. by apply merge_fold in Hm. Qed.

(** ** Replicas *)

(** Two records of one version are one record: what signed writers produce. *)
Definition coherent (P : NameRecord -> Prop) : Prop :=
  forall x y, P x -> P y -> key x = key y -> version x = version y -> x = y.

Lemma knows_step reg ch e reg' ch' rs k x :
  merge_entry (reg, ch) e = Ok (reg', ch') ->
  knows reg' rs k x -> knows reg (e :: rs) k x.
Proof.
  intros (_ & _ & [(-> & _)|(_ & He & _ & _)])%merge_entry_cases; unfold knows;
    rewrite elem_of_cons; [tauto|]. rewrite He, lookup_insert.
  case_decide; [|tauto]. intros [[= <-]|?]; tauto.
Qed.

Lemma merge_entry_total reg ch e :
  wf reg -> validate e = Ok tt -> coherent (fun x => exists k, knows reg [e] k x) ->
  exists reg' ch', merge_entry (reg, ch) e = Ok (reg', ch').
Proof.
  intros Hwf Hv Hco. unfold merge_entry. rewrite Hv. cbn.
  destruct (entries reg !! key e) as [old|] eqn:E; cbn; [|by eauto].
  destruct (decide (version old = version e)) as [Hver|Hver].
  - assert (old = e) as ->.
    { destruct (Hwf _ _ E) as (Hk & _). apply Hco; [|..|done|done].
      - exists (key e). by left.
      - exists (key e). right. split; [by apply list_elem_of_singleton|done]. }
    rewrite !bool_decide_true by done. cbn. destruct (version_ltb _ _); by eauto.
  - rewrite bool_decide_false by done. cbn. destruct (version_ltb _ _); by eauto.
Qed.

Lemma merge_fold_total reg ch rs :
  wf reg -> Forall (fun e => validate e = Ok tt) rs ->
  coherent (fun x => exists k, knows reg rs k x) ->
  exists reg' ch', try_fold merge_entry (reg, ch) rs = Ok (reg', ch').
Proof.
  revert reg ch. induction rs as [|e rs IH]; intros reg ch Hwf Hv Hco;
    cbn [try_fold]; [by eauto|].
  apply Forall_cons in Hv as [He Hv].
  destruct (merge_entry_total reg ch e) as (reg1 & ch1 & H1); [done|done| |].
  { intros x y (k & Hx) (k' & Hy). apply Hco; [exists k|exists k'];
      unfold knows in *; rewrite list_elem_of_singleton in *; rewrite elem_of_cons; tauto. }
  rewrite H1. cbn [mbind result_bind]. apply IH; [by eapply merge_entry_wf|done|].
  intros x y (k & Hx) (k' & Hy). apply Hco; [exists k|exists k']; by eapply knows_step.
Qed.

(** A batch of valid, coherent records is always accepted, whatever its
    order, and it leaves for every conversation exactly the newest record among
    the one held and those of the batch. *)
Theorem merge_keeps_newest reg rs b :
  wf reg -> Forall (fun e => validate e = Ok tt) rs ->
  coherent (fun x => exists k, knows reg rs k x) ->
  exists reg' ch, merge_register reg rs b = Ok (reg', ch) /\ wf reg' /\
    forall k x, entries reg' !! k = Some x <-> newest (knows reg rs k) x.
Proof.
  intros Hwf Hv Hco.
  destruct (merge_fold_total
    {| clock := clock reg; initial_sync_complete := initial_sync_complete reg || b;
       entries := entries reg |} (b && negb (initial_sync_complete reg)) rs)
    as (reg' & ch & Hm); [done|done|done|].
  exists reg', ch. split; [done|].
  destruct (merge_register_spec reg rs b reg' ch Hwf Hm) as (? & _ & _ & ?). done.
Qed.


Lemma merge_register_unchanged reg rs b reg' :
  merge_register reg rs b = Ok (reg', false) -> reg' = reg.
Proof.
  unfold merge_register.
  assert (H : forall r ch, try_fold merge_entry (r, ch) rs = Ok (reg', false) ->
    reg' = r /\ ch = false).
  { induction rs as [|e rs IH]; cbn; intros r ch; [by intros [= -> ->]|].
    intros ([r1 ch1] & He & Hf)%bind_Ok. apply IH in Hf as [-> ->].
    by apply merge_entry_cases in He as (_ & _ & [(-> & -> & _)|(? & _)]). }
  intros [-> Hb]%H. destruct reg as [c i e]. cbn in *. f_equal.
  destruct b, i; cbn in *; congruence.
Qed.

(** ** Durability and local writes *)

Section Durable.
Context {St : Type} `{RowStoreLaws St}.
Variable to_vec : Register -> result string bytes.
Variable from_slice : bytes -> result string Register.
Variable display : PersistenceError -> string.
Hypothesis serde_roundtrip : forall r b, to_vec r = Ok b -> from_slice b = Ok r.

Notation merge := (merge to_vec display).
Notation set := (set to_vec display).
Notation open := (open from_slice display).

Lemma wf_passes_open reg : wf reg ->
  try_fold (fun _ '(k, entry) =>
      _ ← validate entry;
      guard_or (negb (negb (String.eqb k (key entry))
                      || (clock reg <? counter (version entry))%N)) invalid)
    tt (btree_entries String.le (entries reg)) = Ok tt.
Proof.
  intros Hwf.
  assert (Hall : Forall (fun kv : string * NameRecord => entries reg !! kv.1 = Some kv.2)
            (btree_entries String.le (entries reg))).
  { apply Forall_forall. intros [k v] Hin. by apply elem_of_btree_entries in Hin. }
  induction Hall as [|[k e] l Hk _ IH]; [done|]. cbn in *.
  destruct (Hwf _ _ Hk) as (<- & Hv & Hc). rewrite Hv. cbn.
  rewrite String.eqb_refl, (proj2 (N.ltb_ge _ _)) by done. cbn. apply IH.
Qed.

(** An acknowledged merge is durable: reopening the register from the
    store, whenever the store answers, gives back what the merge installed. *)
Theorem merge_durable c rs b c' o :
  wf (register c) ->
  merge rs b c = (c', Ok true) ->
  rs_get (store c') CHAT_NAMES (user c') = Ok o ->
  open (store c') (user c') (actor_id c') = Ok c'.
Proof.
  intros Hwf Hm Hget. unfold ChatNames.merge in Hm.
  destruct (merge_register _ _ _) as [[next [|]]|] eqn:Er; [|done..].
  destruct (to_vec next) as [bs|] eqn:Ev; [|done].
  destruct (rs_put _ _ _ _) as [st r] eqn:Ep. destruct r as [[]|]; [|done].
  injection Hm as <-. cbn in Hget.
  pose proof (rs_put_get _ _ _ _ _ _ Ep Hget) as ->.
  unfold ChatNames.open. cbn [store user actor_id]. rewrite Hget. cbn.
  rewrite (serde_roundtrip _ _ Ev). cbn.
  rewrite wf_passes_open; [done|]. by eapply merge_register_spec.
Qed.

(** A local rename that is acknowledged shows the new name at once, and
    its version is above every version this device has seen, so it also wins
    on each replica that knew no more. *)
Theorem set_wins c k n c' :
  wf (register c) ->
  set k n c = (c', Ok tt) ->
  name_of c' k = n /\ wf (register c') /\
  (register c' = register c \/
   exists e, entries (register c') !! k = Some e /\ name e = n /\
     forall k' x, entries (register c) !! k' = Some x ->
       version_ltb (version x) (version e) = true).
Proof.
  intros Hwf. unfold ChatNames.set.
  destruct (validate_key k) as [|]; [|done].
  case_bool_decide as Hn; [intros [= <-]; by auto|].
  unfold checked_add64. destruct (_ <=? _)%N eqn:Hc; [|done].
  set (e := {| key := k |}).
  destruct (ChatNames.merge _ _ _ _ _) as [c1 [ch|]] eqn:Em; cbn; [|done]. intros [= <-].
  unfold ChatNames.merge in Em.
  destruct (merge_register _ _ _) as [[next ch0]|] eqn:Er; [|done].
  destruct (merge_register_spec _ _ _ _ _ Hwf Er) as (Hwf' & _ & _ & Hnew).
  assert (Hlt : forall k' x, entries (register c) !! k' = Some x ->
    version_ltb (version x) (version e) = true).
  { intros k' x Hx. destruct (Hwf _ _ Hx) as (_ & _ & Hle). unfold version_ltb.
    apply orb_true_iff. left. apply N.ltb_lt. cbn. lia. }
  assert (Hin : entries next !! k = Some e).
  { apply Hnew. split; [right; split; [by apply list_elem_of_singleton|done]|].
    intros y [Hy|[->%list_elem_of_singleton _]]; [|reflexivity].
    by apply Hlt, version_ltb_spec in Hy as []. }
  assert (Hreg : register c1 = next).
  { destruct ch0.
    - destruct (to_vec next); [|done]. destruct (rs_put _ _ _ _) as [st [|]]; [|done].
      by injection Em as <- _.
    - injection Em as <- _. by apply merge_register_unchanged in Er as ->. }
  rewrite Hreg. split; [|split; [done|right; by exists e]].
  unfold name_of. by rewrite Hreg, Hin.
Qed.
End Durable.

(** ** Witnesses *)

Definition record_of (c : N) (a n : string) : NameRecord :=
  {| key := "dm:x"; version := {| counter := c; actor := a |}; name := Some n |}.
Definition two_names : list NameRecord := [record_of 2 "b" "Ann"; record_of 1 "a" "Bob"].

Lemma two_names_coherent rs :
  rs = two_names \/ rs = rev two_names ->
  coherent (fun x => exists k, knows default_register rs k x).
Proof.
  intros Hrs x y (k & Hx) (k' & Hy) _ Hv.
  assert (H2 : forall z k0, knows default_register rs k0 z ->
    z = record_of 2 "b" "Ann" \/ z = record_of 1 "a" "Bob").
  { intros z k0 [Hz|[Hz _]]; [discriminate|].
    destruct Hrs as [-> | ->]; cbn in Hz; set_solver. }
  apply H2 in Hx as [->| ->], Hy as [->| ->]; done.
Qed.

Lemma merge_keeps_newest_witness :
  exists reg' ch, merge_register default_register two_names true = Ok (reg', ch) /\ wf reg' /\
    forall k x, entries reg' !! k = Some x <-> newest (knows default_register two_names k) x.
Proof.
  apply (merge_keeps_newest default_register two_names true); [apply default_wf| |].
  - repeat constructor.
  - apply two_names_coherent. by left.
Defined.

Definition merged (rs : list NameRecord) : Register :=
  match merge_register default_register rs true with
  | Ok (r, _) => r | Err _ => default_register
  end.


#[export] Instance NameVersion_countable : Countable NameVersion.
Proof.
  apply (inj_countable' (fun v => (counter v, actor v))
           (fun p => {| counter := p.1; actor := p.2 |})).
  by intros [].
Defined.
#[export] Instance NameRecord_countable : Countable NameRecord.
Proof.
  apply (inj_countable' (fun r => (key r, version r, name r))
           (fun p => {| key := p.1.1; version := p.1.2; name := p.2 |})).
  by intros [].
Defined.
#[export] Instance Register_eq_dec : EqDecision Register.
Proof. solve_decision. Defined.
#[export] Instance Register_countable : Countable Register.
Proof.
  apply (inj_countable' (fun r => (clock r, initial_sync_complete r, entries r))
           (fun p => {| clock := p.1.1; initial_sync_complete := p.1.2; entries := p.2 |})).
  by intros [].
Defined.

Definition fresh_names : ChatNames Persistence :=
  {| store := new_store [Committed]; user := "u"; actor_id := "me";
     register := default_register |}.
Definition no_display (e : PersistenceError) : string := "storage".
Definition run_merge : ChatNames Persistence * result ChatNameError bool :=
  merge (H := plain_store) codec_to_vec no_display two_names true fresh_names.

Lemma merge_durable_witness :
  run_merge.2 = Ok true /\
  open (H := plain_store) codec_from_slice no_display (store run_merge.1) "u" "me"
  = Ok run_merge.1.
Proof.
  split; [vm_compute; reflexivity|].
  refine (merge_durable (H := plain_store) (H0 := plain_laws) codec_to_vec codec_from_slice
    no_display codec_roundtrip fresh_names two_names true run_merge.1 _ default_wf _ _);
    [|vm_compute; reflexivity].
  unfold run_merge. apply surjective_pairing_eq. vm_compute. reflexivity.
Defined.

Definition named_state : ChatNames Persistence :=
  {| store := new_store [Committed]; user := "u"; actor_id := "me";
     register := merged two_names |}.
Definition run_set : ChatNames Persistence * result ChatNameError unit :=
  set (H := plain_store) codec_to_vec no_display "dm:x" (Some "Zoe") named_state.

Lemma set_wins_witness :
  name_of run_set.1 "dm:x" = Some "Zoe" /\ wf (merged two_names).
Proof.
  assert (Hwf : wf (merged two_names)).
  { intros k e Hk. unfold merged in Hk.
    destruct (merge_register default_register two_names true) as [[r b]|] eqn:E; [|done].
    destruct (merge_register_spec _ _ _ _ _ default_wf E) as (Hwf & _).
    unfold merged. rewrite E. by apply Hwf. }
  split; [|exact Hwf].
  refine (proj1 (set_wins (H := plain_store) codec_to_vec no_display named_state "dm:x"
    (Some "Zoe") run_set.1 Hwf _)).
  apply surjective_pairing_eq. vm_compute. reflexivity.
Defined.
End ChatNames.
