(* ===== verification/Commits.v ===== *)
(** * Commits: MLS commits in epoch order ([commit_sequencer.rs],
      [private_group_runtime/sequencing.rs], [private_group_runtime/commits.rs])

    Gossip delivers group commits in any order and more than once.  The
    sequencer holds commits of future epochs, the group applies a commit only
    at its own epoch and drains the buffer behind it, and a gap that stays asks
    an admin for a replay of the commit log.  The MLS session is met through
    the class [MlsSession]; the history evidence that must be stored before a
    commit is installed is the section variable [retain_transition]. *)
From S2P Require Import Prelude Store.
Import Store.

Module Commits.

(** ** [CommitSequencer] *)

Definition BUFFER_CAP : nat := 64.

Inductive Disposition := Apply | Buffered | AlreadySeen.
#[export] Instance Disposition_eq_dec : EqDecision Disposition.
Proof. solve_decision. Defined.

Record CommitSequencer := {
  applied : gset string;
  buffered : gmap N string;
  last_requested_epoch : option N;
}.

Definition new_sequencer : CommitSequencer :=
  {| applied := ∅; buffered := ∅; last_requested_epoch := None |}.

Definition set_buffered (b : gmap N string) (s : CommitSequencer) : CommitSequencer :=
  {| applied := applied s; buffered := b; last_requested_epoch := last_requested_epoch s |}.

Definition offer (current_epoch commit_epoch : N) (commit_b64 : string)
    (s : CommitSequencer) : CommitSequencer * Disposition :=
  if decide (commit_b64 ∈ applied s) then (s, AlreadySeen)
  else match (commit_epoch ?= current_epoch)%N with
  | Lt => (s, AlreadySeen)
  | Eq => (s, Apply)
  | Gt =>
      if bool_decide (buffered s !! commit_epoch = None)
         && (size (buffered s) <? BUFFER_CAP)%nat
      then (set_buffered (<[commit_epoch := commit_b64]> (buffered s)) s, Buffered)
      else (s, Buffered)
  end.

Definition confirm (commit_b64 : string) (s : CommitSequencer) : CommitSequencer :=
  {| applied := {[ commit_b64 ]} ∪ applied s; buffered := buffered s;
     last_requested_epoch := last_requested_epoch s |}.

Definition mark_seen : string -> CommitSequencer -> CommitSequencer := confirm.

Definition drain_ready (current_epoch : N) (s : CommitSequencer)
  : CommitSequencer * option string :=
  (set_buffered (delete current_epoch (buffered s)) s, buffered s !! current_epoch).

Definition peek_ready (current_epoch : N) (s : CommitSequencer) : option string :=
  buffered s !! current_epoch.

Definition gap (current_epoch : N) (s : CommitSequencer) : bool :=
  match head (btree_keys N.le (buffered s)) with
  | Some head => (current_epoch <? head)%N
  | None => false
  end.

Definition should_request (have_epoch : N) (s : CommitSequencer) : CommitSequencer * bool :=
  if decide (last_requested_epoch s = Some have_epoch) then (s, false)
  else ({| applied := applied s; buffered := buffered s;
           last_requested_epoch := Some have_epoch |}, true).

Definition rearm (s : CommitSequencer) : CommitSequencer :=
  {| applied := applied s; buffered := buffered s; last_requested_epoch := None |}.

(** *** The sequencer's own laws *)

Definition seq_wf (s : CommitSequencer) : Prop := size (buffered s) <= BUFFER_CAP.

Lemma gap_spec cur s :
  gap cur s = true <->
  buffered s <> ∅ /\ forall e, is_Some (buffered s !! e) -> (cur < e)%N.
Proof.
  unfold gap. destruct (head _) as [h|] eqn:Hh.
  - apply btree_keys_head in Hh as [Hin Hmin]; [|apply _..]. rewrite N.ltb_lt. split.
    + intros Hlt. split; [by intros Hb; rewrite Hb, lookup_empty in Hin; destruct Hin|].
      intros e He. specialize (Hmin e He). lia.
    + intros [_ He]. by apply He.
  - split; [done|]. intros [Hne _]. destruct Hne. apply map_eq. intros k.
    rewrite lookup_empty. apply eq_None_not_Some. intros Hk.
    apply (elem_of_btree_keys N.le) in Hk. destruct (btree_keys _ _); [by apply elem_of_nil in Hk|done].
Qed.

Lemma offer_disposition cur e x s s' :
  offer cur e x s = (s', Apply) -> s' = s /\ e = cur /\ x ∉ applied s.
Proof.
  unfold offer. case_decide; [done|].
  destruct (N.compare_spec e cur); [|done|by case_match].
  by intros [= <-].
Qed.

(** An offer changes nothing but the buffer, and that by one fresh future epoch
      within the cap. *)
Lemma offer_buffered cur e x s s' d :
  offer cur e x s = (s', d) ->
  applied s' = applied s /\ last_requested_epoch s' = last_requested_epoch s /\
  (buffered s' = buffered s \/
   (d = Buffered /\ (cur < e)%N /\ x ∉ applied s /\ buffered s !! e = None /\
    size (buffered s) < BUFFER_CAP /\ buffered s' = <[e := x]> (buffered s))).
Proof.
  unfold offer. case_decide; [by intros [= <- _]; auto|].
  destruct (N.compare_spec e cur) as [|?|?]; [by intros [= <- _]; auto..|].
  destruct (_ && _) eqn:Hc; intros [= <- <-]; [|by auto].
  apply andb_true_iff in Hc as [Hn Hs]. apply bool_decide_eq_true in Hn.
  apply Nat.ltb_lt in Hs. split; [done|]. split; [done|]. right. by repeat split.
Qed.

Lemma offer_wf cur e x s s' d : offer cur e x s = (s', d) -> seq_wf s -> seq_wf s'.
Proof.
  unfold seq_wf. intros (_ & _ & [->|(_ & _ & _ & Hn & Hs & ->)])%offer_buffered; [done|].
  intros _. rewrite map_size_insert_None by done. lia.
Qed.

Lemma drain_ready_wf e s : seq_wf s -> seq_wf (drain_ready e s).1.
Proof.
  unfold seq_wf. cbn [fst drain_ready buffered set_buffered]. rewrite map_size_delete.
  destruct (_ !! e); cbn; unfold size in *; lia.
Qed.
#[export] Hint Resolve drain_ready_wf : mosh_wf.

(** ** The group around it *)

Inductive PrivateGroupError :=
| Deletion (error : string) | Moss (error : string) | Codec (error : string)
| PersistenceE (error : string) | OpenMls (error : string) | InvalidInvite (error : string)
| BodyTooLarge | PayloadTooLarge | MissingGroup (id : string) | MissingMessage (id : string)
| DuplicateGroup (id : string) | NotReady | InvalidName (error : string) | RenameDenied
| Attachment (error : string) | MissingAttachment (id : string).

(** What the sequencing asks of an MLS session. *)
Class MlsSession (C : Type) := {
  mls_epoch : C -> option N;
  commit_epoch : bytes -> result PrivateGroupError N;
  stage_membership : C -> bytes -> result PrivateGroupError C;
}.

(** MLS accepts a commit only at the epoch its header names, and accepting it
    moves the group to the next epoch. *)
Class MlsSessionLaws (C : Type) `{MlsSession C} : Prop :=
  stage_epoch c b c' : stage_membership c b = Ok c' ->
    exists e, mls_epoch c = Some e /\ commit_epoch b = Ok e /\ mls_epoch c' = Some (e + 1)%N.

Inductive SequenceOutcome := Done | Gapped.

Record ResyncCommit := { epoch : N; commit_b64 : string }.

(** The control envelopes this part of the group sends. *)
Inductive ControlEnvelope :=
| ResyncRequest (group_id from_fingerprint : string) (have_epoch : N)
| ResyncResponse (group_id for_fingerprint : string) (commits : list ResyncCommit).

#[local] Set Default Proof Using "Type*".

Section Group.
Context {C : Type} `{MlsSessionLaws C}.
Variable aes_encrypt aes_decrypt : bytes -> bytes -> bytes -> result string bytes.
Variable os_rng : nat -> bytes.
(** base64 of the [base64] crate. *)
Variable b64_encode : bytes -> string.
Variable b64_decode : string -> result string bytes.
(** Storing the transition's evidence and snapshot ([history/transitions.rs]). *)
Variable retain_transition :
  Persistence -> C -> C -> string -> bytes -> Persistence * result PrivateGroupError unit.

Record Group := {
  crypto : C;
  sequencer : CommitSequencer;
  persistence : option Persistence;
  group_id : string;
}.

Definition with_sequencer (f : CommitSequencer -> CommitSequencer) (g : Group) : Group :=
  {| crypto := crypto g; sequencer := f (sequencer g);
     persistence := persistence g; group_id := group_id g |}.

Definition decode (s : string) : result PrivateGroupError bytes :=
  map_err Codec (b64_decode s).

Definition persist_membership (store : option Persistence) (previous next : C)
    (group : string) (commit : bytes)
  : option Persistence * result PrivateGroupError unit :=
  match store with
  | None => (None, Ok tt)
  | Some p => let '(p', r) := retain_transition p previous next group commit in (Some p', r)
  end.

Definition accept_commit (b : bytes) : method Group PrivateGroupError unit := fun g =>
  match stage_membership (crypto g) b with
  | Err e => (g, Err e)
  | Ok next =>
      let '(store, r) := persist_membership (persistence g) (crypto g) next (group_id g) b in
      ({| crypto := if is_ok r then next else crypto g; sequencer := sequencer g;
          persistence := store; group_id := group_id g |}, r)
  end.

Definition log_group_commit (epoch : N) (b : bytes) (g : Group) : Group :=
  {| crypto := crypto g; sequencer := sequencer g;
     persistence := (fun p => (append_group_commit aes_encrypt os_rng p (group_id g) epoch b).1)
                      <$> persistence g;
     group_id := group_id g |}.

(** What follows a successful [accept_commit] of the commit of [e]. *)
Definition installed (e : N) (commit_b64 : string) (b : bytes) (g : Group) : Group :=
  log_group_commit e b
    (with_sequencer (fun s => confirm commit_b64 (drain_ready e s).1) g).

(** The [while let] loop: each turn applies the buffered commit of the
    current epoch; [fuel] bounds the turns. *)
Fixpoint drain_loop (fuel : nat) : method Group PrivateGroupError unit := fun g =>
  match fuel with
  | O => (g, Ok tt)
  | S fuel =>
      match mls_epoch (crypto g) with
      | None => (g, Ok tt)
      | Some current =>
          match peek_ready current (sequencer g) with
          | None => (g, Ok tt)
          | Some next_b64 =>
              m_bind (m_lift (decode next_b64)) (fun next_bytes =>
              m_bind (accept_commit next_bytes) (fun _ =>
              m_bind (m_modify (installed current next_b64 next_bytes)) (fun _ =>
              drain_loop fuel))) g
          end
      end
  end.

Definition stuck (g : Group) : bool :=
  match mls_epoch (crypto g) with
  | Some current => gap current (sequencer g)
  | None => false
  end.

Definition sequence_commit (commit_b64 : string)
  : method Group PrivateGroupError SequenceOutcome := fun g =>
  match mls_epoch (crypto g) with
  | None => (g, Ok Done)
  | Some current =>
      m_bind (m_lift (decode commit_b64)) (fun commit_bytes =>
      m_bind (m_lift (commit_epoch commit_bytes)) (fun wire_epoch g =>
      let '(seq, d) := offer current wire_epoch commit_b64 (sequencer g) in
      m_bind (match d with
              | Apply =>
                  m_bind (accept_commit commit_bytes) (fun _ =>
                  m_modify (installed wire_epoch commit_b64 commit_bytes))
              | _ => m_ret tt
              end) (fun _ =>
      m_bind (fun g => drain_loop (S (size (buffered (sequencer g)))) g) (fun _ g =>
      (g, Ok (if stuck g then Gapped else Done))))
        (with_sequencer (fun _ => seq) g))) g
  end.

Definition absorb_resync_commits (commits : list ResyncCommit) (g : Group) : Group * bool :=
  let g' := foldl (fun g c => (sequence_commit (commit_b64 c) g).1) g commits in
  (g', stuck g').

(** ** The session ([private_group_runtime/commits.rs]) *)

Record GroupSession := {
  group : Group;
  fingerprint : string;
  needs_rejoin : bool;
  published : list ControlEnvelope;
  network : list (option string);   (** what each publish meets: an error or none *)
}.

Definition with_group (g : Group) (s : GroupSession) : GroupSession :=
  {| group := g; fingerprint := fingerprint s; needs_rejoin := needs_rejoin s;
     published := published s; network := network s |}.
Definition set_needs_rejoin (b : bool) (s : GroupSession) : GroupSession :=
  {| group := group s; fingerprint := fingerprint s; needs_rejoin := b;
     published := published s; network := network s |}.

Definition publish_control (value : ControlEnvelope)
  : method GroupSession PrivateGroupError unit := fun s =>
  match head (network s) with
  | Some (Some e) =>
      ({| group := group s; fingerprint := fingerprint s; needs_rejoin := needs_rejoin s;
          published := published s; network := tail (network s) |}, Err (Moss e))
  | _ =>
      ({| group := group s; fingerprint := fingerprint s; needs_rejoin := needs_rejoin s;
          published := published s ++ [value]; network := tail (network s) |}, Ok tt)
  end.

Definition request_resync_if_gapped : method GroupSession PrivateGroupError unit := fun s =>
  match mls_epoch (crypto (group s)) with
  | None => (s, Ok tt)
  | Some current =>
      if negb (gap current (sequencer (group s))) then (s, Ok tt)
      else let '(seq, due) := should_request current (sequencer (group s)) in
      if negb due then (s, Ok tt)
      else
        let '(s', r) := publish_control
            (ResyncRequest (group_id (group s)) (fingerprint s) current)
            (with_group (with_sequencer (fun _ => seq) (group s)) s) in
        (if is_ok r then s' else with_group (with_sequencer rearm (group s')) s', r)
  end.

Definition apply_commit_sequenced (commit_b64 : string)
  : method GroupSession PrivateGroupError unit := fun s =>
  let '(g, r) := sequence_commit commit_b64 (group s) in
  match r with
  | Err e => (with_group g s, Err e)
  | Ok Done => (set_needs_rejoin false (with_group g s), Ok tt)
  | Ok Gapped => request_resync_if_gapped (with_group g s)
  end.

Definition serve_resync_request (for_fingerprint : string) (have_epoch : N)
  : method GroupSession PrivateGroupError unit := fun s =>
  match persistence (group s) with
  | None => (s, Ok tt)
  | Some p =>
      match list_group_commits_from aes_decrypt p (group_id (group s)) have_epoch with
      | Err _ => (s, Ok tt)
      | Ok rows =>
          publish_control (ResyncResponse (group_id (group s)) for_fingerprint
            (map (fun '(e, b) => {| epoch := e; commit_b64 := b64_encode b |}) rows)) s
      end
  end.

Definition absorb_resync_response (commits : list ResyncCommit)
  : method GroupSession PrivateGroupError unit := fun s =>
  let '(g, still_gapped) := absorb_resync_commits commits (group s) in
  if negb still_gapped then (set_needs_rejoin false (with_group g s), Ok tt)
  else
    let '(s', r) := request_resync_if_gapped (with_group (with_sequencer rearm g) s) in
    match r with
    | Err e => (s', Err e)
    | Ok _ => (if stuck (group s') then set_needs_rejoin true s' else s', Ok tt)
    end.

(** [successor_of]: the least fingerprint but the departing one. *)
Definition successor_of (members : list string) (departing : string) : option string :=
  head (merge_sort String.le (filter (fun fp => fp <> departing) members)).
(** ** The loop *)

Notation drain g := (drain_loop (S (size (buffered (sequencer g)))) g).

Lemma accept_commit_cases b g g' r :
  accept_commit b g = (g', r) ->
  sequencer g' = sequencer g /\ group_id g' = group_id g /\
  ((exists u, r = Ok u /\ stage_membership (crypto g) b = Ok (crypto g')) \/
   (is_ok r = false /\ crypto g' = crypto g)).
Proof using Type.
  unfold accept_commit. destruct (stage_membership _ _) as [next|] eqn:E.
  - destruct (persist_membership _ _ _ _ _) as [store [u|e]]; intros [= <- <-]; cbn;
      [|by auto]. split; [done|]. split; [done|]. left. by exists u.
  - intros [= <- <-]. auto.
Qed.

(** The states of one turn of the loop. *)
Lemma drain_loop_turn fuel g :
  drain_loop (S fuel) g =
  match mls_epoch (crypto g) with
  | None => (g, Ok tt)
  | Some e =>
      match buffered (sequencer g) !! e with
      | None => (g, Ok tt)
      | Some x =>
          match decode x with
          | Err err => (g, Err err)
          | Ok b =>
              match accept_commit b g with
              | (g1, Err err) => (g1, Err err)
              | (g1, Ok _) => drain_loop fuel (installed e x b g1)
              end
          end
      end
  end.
Proof using Type.
  cbn [drain_loop]. unfold peek_ready.
  destruct (mls_epoch (crypto g)) as [e|]; [|done]. destruct (_ !! e) as [x|]; [|done].
  unfold m_bind, m_lift. destruct (decode x) as [b|]; [|done].
  destruct (accept_commit b g) as [g1 [[]|]]; done.
Qed.

Lemma installed_buffered e x b g :
  buffered (sequencer (installed e x b g)) = delete e (buffered (sequencer g)).
Proof using Type. done. Qed.
Lemma installed_applied e x b g :
  applied (sequencer (installed e x b g)) = {[ x ]} ∪ applied (sequencer g).
Proof using Type. done. Qed.
Lemma installed_crypto e x b g : crypto (installed e x b g) = crypto g.
Proof using Type. done. Qed.

Lemma size_delete_lt (m : gmap N string) e x :
  m !! e = Some x -> S (size (delete e m)) = size m.
Proof using Type.
  intros Hm. pose proof (map_size_delete e m) as Hd. rewrite Hm in Hd.
  assert (size m <> 0) by (eapply map_size_ne_0_lookup_2; eauto). unfold size in *. lia.
Qed.

(** Any fuel above the number of buffered commits gives the same result. *)
Lemma drain_loop_fuel n m g :
  size (buffered (sequencer g)) < n -> size (buffered (sequencer g)) < m ->
  drain_loop n g = drain_loop m g.
Proof using Type.
  revert m g. induction n as [|n IH]; intros [|m] g Hn Hm; [lia..|].
  rewrite !drain_loop_turn. destruct (mls_epoch (crypto g)) as [e|]; [|done].
  destruct (_ !! e) as [x|] eqn:Ex; [|done]. destruct (decode x) as [b|]; [|done].
  destruct (accept_commit b g) as [g1 [u|]] eqn:Ea; [|done].
  apply accept_commit_cases in Ea as (Hs & _). apply size_delete_lt in Ex.
  apply IH; rewrite installed_buffered, Hs; lia.
Qed.

(** The drain loop terminates: the fuel the model gives it (one more than
    the number of buffered commits) is enough, because the loop satisfies the
    unbounded [while let] equation, each turn going on from the state the
    previous one installed. *)
Theorem drain_loop_while g :
  drain g =
  match mls_epoch (crypto g) with
  | None => (g, Ok tt)
  | Some e =>
      match peek_ready e (sequencer g) with
      | None => (g, Ok tt)
      | Some x =>
          match decode x with
          | Err err => (g, Err err)
          | Ok b =>
              match accept_commit b g with
              | (g1, Err err) => (g1, Err err)
              | (g1, Ok _) => let g2 := installed e x b g1 in drain g2
              end
          end
      end
  end.
Proof using Type.
  rewrite drain_loop_turn. unfold peek_ready.
  destruct (mls_epoch (crypto g)) as [e|]; [|done]. destruct (_ !! e) as [x|] eqn:Ex; [|done].
  destruct (decode x) as [b|]; [|done].
  destruct (accept_commit b g) as [g1 [u|]] eqn:Ea; [|done].
  apply accept_commit_cases in Ea as (Hs & _). apply size_delete_lt in Ex.
  apply drain_loop_fuel; rewrite installed_buffered, Hs; lia.
Qed.

(** ** What a run installs *)

(** [installs c l c']: the MLS session moves from [c] to [c'] by accepting
    the commits [l], in that order and no other. *)
Inductive installs : C -> list string -> C -> Prop :=
| installs_nil c : installs c [] c
| installs_cons c x b c1 l c' :
    decode x = Ok b -> stage_membership c b = Ok c1 -> installs c1 l c' ->
    installs c (x :: l) c'.

Lemma installs_app c l c1 k c2 : installs c l c1 -> installs c1 k c2 -> installs c (l ++ k) c2.
Proof. induction 1; cbn; [done|]. intros. econstructor; eauto. Qed.

Lemma installs_epoch c l c' e :
  installs c l c' -> mls_epoch c = Some e -> mls_epoch c' = Some (e + N.of_nat (length l))%N.
Proof.
  intros Hi. revert e. induction Hi as [|c x b c1 l c' _ Hs _ IH]; intros e He.
  - by rewrite N.add_0_r.
  - apply stage_epoch in Hs as (e0 & He0 & _ & He1). rewrite He0 in He. injection He as ->.
    rewrite (IH _ He1). f_equal. cbn [length]. lia.
Qed.

Definition recorded (g : Group) (l : list string) (g' : Group) : Prop :=
  installs (crypto g) l (crypto g') /\
  applied (sequencer g') = list_to_set l ∪ applied (sequencer g) /\
  group_id g' = group_id g.

Lemma recorded_refl g : recorded g [] g.
Proof. split; [constructor|]. split; [apply set_of_nil|done]. Qed.

Lemma recorded_trans g l g1 k g2 :
  recorded g l g1 -> recorded g1 k g2 -> recorded g (l ++ k) g2.
Proof.
  intros (H1 & H2 & H3) (K1 & K2 & K3). split; [by eapply installs_app|].
  split; [by rewrite K2, H2, set_of_app|congruence].
Qed.

Lemma accept_installed_recorded e x b g g1 u :
  decode x = Ok b -> accept_commit b g = (g1, Ok u) -> recorded g [x] (installed e x b g1).
Proof.
  intros Hx (Hs & Hid & [(? & _ & Hst)|[? _]])%accept_commit_cases; [|done].
  split; [|split].
  - rewrite installed_crypto. econstructor; [done|done|constructor].
  - rewrite installed_applied, Hs. apply set_of_one.
  - done.
Qed.

Lemma accept_failed_recorded b g g1 e : accept_commit b g = (g1, Err e) -> recorded g [] g1.
Proof.
  intros (Hs & Hid & [(? & ? & _)|[_ Hc]])%accept_commit_cases; [done|].
  split; [rewrite Hc; constructor|]. rewrite Hs. split; [apply set_of_nil|done].
Qed.

Lemma drain_loop_recorded fuel g g' r :
  drain_loop fuel g = (g', r) ->
  (exists l, recorded g l g') /\
  buffered (sequencer g') ⊆ buffered (sequencer g) /\
  (size (buffered (sequencer g)) < fuel -> is_ok r = true ->
   forall e, mls_epoch (crypto g') = Some e -> buffered (sequencer g') !! e = None).
Proof.
  revert g. induction fuel as [|fuel IH]; intros g.
  - change (drain_loop 0 g) with (g, @Ok PrivateGroupError unit tt). intros [= <- <-].
    split; [|split; [done|lia]]. exists []. apply recorded_refl.
  - rewrite drain_loop_turn. destruct (mls_epoch (crypto g)) as [e|] eqn:Ee.
    2:{ intros [= <- <-]. split; [exists []; apply recorded_refl|]. split; [done|]. congruence. }
    destruct (buffered (sequencer g) !! e) as [x|] eqn:Ex.
    2:{ intros [= <- <-]. split; [exists []; apply recorded_refl|]. split; [done|]. congruence. }
    destruct (decode x) as [b|] eqn:Ed.
    2:{ intros [= <- <-]. split; [exists []; apply recorded_refl|]. by split. }
    destruct (accept_commit b g) as [g1 [u|err]] eqn:Ea.
    2:{ intros [= <- <-]. split; [exists []; by eapply accept_failed_recorded|].
        apply accept_commit_cases in Ea as (-> & _). by split. }
    intros Hd. destruct (IH _ Hd) as ([l Hl] & Hsub & Hend).
    pose proof (accept_installed_recorded e x b g g1 u Ed Ea) as Hr.
    apply accept_commit_cases in Ea as (Hs & _).
    rewrite installed_buffered, Hs in Hsub, Hend.
    split; [exists (x :: l); by eapply (recorded_trans _ [x])|].
    split; [exact (transitivity Hsub (delete_subseteq _ e))|].
    intros Hf. apply Hend. apply size_delete_lt in Ex. lia.
Qed.

(** [fresh]: nothing buffered is older than the current epoch. *)
Definition fresh (g : Group) : Prop :=
  forall cur e, mls_epoch (crypto g) = Some cur ->
    is_Some (buffered (sequencer g) !! e) -> (cur <= e)%N.

(** A buffered commit stays until the session has moved past its epoch. *)
Definition kept (g g' : Group) : Prop :=
  forall e x, buffered (sequencer g) !! e = Some x ->
    buffered (sequencer g') !! e = Some x \/
    exists cur, mls_epoch (crypto g') = Some cur /\ (e < cur)%N.

Lemma installed_fresh e x b g g1 u :
  mls_epoch (crypto g) = Some e -> fresh g -> accept_commit b g = (g1, Ok u) ->
  fresh (installed e x b g1) /\ mls_epoch (crypto g1) = Some (e + 1)%N.
Proof.
  intros He Hf (Hs & _ & [(? & _ & Hst)|[? _]])%accept_commit_cases; [|done].
  apply stage_epoch in Hst as (e0 & He0 & _ & He1). rewrite He in He0. injection He0 as <-.
  split; [|done]. intros cur k. rewrite installed_crypto, He1, installed_buffered, Hs.
  intros [= <-]. rewrite lookup_delete_is_Some. intros [Hne Hk].
  specialize (Hf e k He Hk). lia.
Qed.

Lemma accept_failed_buffer b g g1 e : accept_commit b g = (g1, Err e) ->
  sequencer g1 = sequencer g /\ crypto g1 = crypto g.
Proof. by intros (? & _ & [(? & ? & _)|[_ ?]])%accept_commit_cases. Qed.

Lemma drain_loop_fresh fuel g g' r :
  fresh g -> drain_loop fuel g = (g', r) -> fresh g' /\ kept g g'.
Proof.
  revert g. induction fuel as [|fuel IH]; intros g Hf.
  - change (drain_loop 0 g) with (g, @Ok PrivateGroupError unit tt). intros [= <- <-].
    split; [done|by left].
  - rewrite drain_loop_turn.
    destruct (mls_epoch (crypto g)) as [e|] eqn:Ee; [|by intros [= <- _]; split; [|by left]].
    destruct (buffered (sequencer g) !! e) as [x|] eqn:Ex;
      [|by intros [= <- _]; split; [|by left]].
    destruct (decode x) as [b|] eqn:Ed; [|by intros [= <- _]; split; [|by left]].
    destruct (accept_commit b g) as [g1 [u|err]] eqn:Ea.
    2:{ intros [= <- _]. apply accept_failed_buffer in Ea as [Hs Hc].
        unfold fresh, kept. rewrite Hs, Hc. split; [done|by left]. }
    destruct (installed_fresh e x b g g1 u Ee Hf Ea) as [Hf1 He1].
    intros Hd. pose proof (drain_loop_recorded _ _ _ _ Hd) as ((l & Hi & _) & _ & _).
    destruct (IH _ Hf1 Hd) as [Hf' Hk]. split; [done|]. intros k y Hy.
    rewrite installed_crypto in Hi. pose proof (installs_epoch _ _ _ _ Hi He1) as He'.
    destruct (decide (k = e)) as [->|Hne].
    + right. eexists. split; [exact He'|]. lia.
    + apply Hk. apply accept_commit_cases in Ea as (Hs & _).
      by rewrite installed_buffered, Hs, lookup_delete_ne.
Qed.

(** ** One offered commit *)

Definition finish (g : Group) : Group * result PrivateGroupError SequenceOutcome :=
  match drain g with
  | (g', Err e) => (g', Err e)
  | (g', Ok _) => (g', Ok (if stuck g' then Gapped else Done))
  end.

Lemma sequence_commit_eq x g :
  sequence_commit x g =
  match mls_epoch (crypto g) with
  | None => (g, Ok Done)
  | Some cur =>
      match decode x with
      | Err e => (g, Err e)
      | Ok b =>
          match commit_epoch b with
          | Err e => (g, Err e)
          | Ok w =>
              let g0 := with_sequencer (fun _ => (offer cur w x (sequencer g)).1) g in
              match (offer cur w x (sequencer g)).2 with
              | Apply =>
                  match accept_commit b g0 with
                  | (g1, Err e) => (g1, Err e)
                  | (g1, Ok _) => finish (installed w x b g1)
                  end
              | _ => finish g0
              end
          end
      end
  end.
Proof.
  unfold sequence_commit. destruct (mls_epoch (crypto g)) as [cur|]; [|done].
  unfold m_bind at 1, m_lift at 1. destruct (decode x) as [b|]; [|done].
  unfold m_bind at 1, m_lift at 1. destruct (commit_epoch b) as [w|]; [|done].
  destruct (offer cur w x (sequencer g)) as [seq d]. cbn [fst snd].
  destruct d; unfold finish, m_bind, m_ret.
  - destruct (accept_commit _ _) as [g1 [[]|]]; [|done]. cbn [m_modify].
    by destruct (drain_loop _ _) as [g' [[]|]].
  - by destruct (drain_loop _ _) as [g' [[]|]].
  - by destruct (drain_loop _ _) as [g' [[]|]].
Qed.

(** The buffer an offer of [x] leaves to the loop. *)
Lemma offered_fresh cur w x g :
  mls_epoch (crypto g) = Some cur -> fresh g ->
  let g0 := with_sequencer (fun _ => (offer cur w x (sequencer g)).1) g in
  fresh g0 /\ kept g g0 /\ recorded g [] g0.
Proof.
  intros He Hf g0. destruct (offer cur w x (sequencer g)) as [seq d] eqn:Eo.
  apply offer_buffered in Eo as (Ha & _ & Hb). unfold g0. split; [|split].
  - intros c k. cbn. rewrite He. intros [= <-].
    destruct Hb as [->|(_ & Hlt & _ & _ & _ & ->)]; [by apply Hf|].
    rewrite lookup_insert. case_decide; [subst; lia|by apply Hf].
  - intros k y Hy. left. cbn. destruct Hb as [->|(_ & _ & _ & Hn & _ & ->)]; [done|].
    rewrite lookup_insert_ne; [done|congruence].
  - split; [constructor|]. cbn. rewrite Ha. split; [apply set_of_nil|done].
Qed.

Lemma finish_spec g g' r :
  fresh g -> finish g = (g', r) ->
  fresh g' /\ kept g g' /\ (exists l, recorded g l g') /\
  buffered (sequencer g') ⊆ buffered (sequencer g) /\
  (forall o, r = Ok o -> o = (if stuck g' then Gapped else Done) /\
     forall e, mls_epoch (crypto g') = Some e -> buffered (sequencer g') !! e = None).
Proof.
  unfold finish. intros Hf. destruct (drain g) as [g1 r1] eqn:Ed.
  destruct (drain_loop_fresh _ _ _ _ Hf Ed) as [Hf' Hk].
  apply drain_loop_recorded in Ed as (Hl & Hsub & Hend).
  destruct r1 as [u|e]; intros [= <- <-];
    (split; [done|split; [done|split; [done|split; [done|]]]]); [|done].
  intros o [= <-]. split; [done|]. apply Hend; [lia|done].
Qed.

(** What one offered commit does, on every branch. *)
Lemma sequence_commit_spec x g g' r :
  fresh g -> sequence_commit x g = (g', r) ->
  fresh g' /\ kept g g' /\ (exists l, recorded g l g') /\
  (seq_wf (sequencer g) -> seq_wf (sequencer g')) /\
  (forall o, r = Ok o -> mls_epoch (crypto g) <> None ->
     o = (if stuck g' then Gapped else Done) /\
     forall e, mls_epoch (crypto g') = Some e -> buffered (sequencer g') !! e = None).
Proof.
  intros Hf. rewrite sequence_commit_eq.
  assert (Hid : fresh g /\ kept g g /\ (exists l, recorded g l g) /\
                (seq_wf (sequencer g) -> seq_wf (sequencer g))).
  { split; [done|]. split; [by left|]. split; [exists []; apply recorded_refl|done]. }
  destruct (mls_epoch (crypto g)) as [cur|] eqn:Ee;
    [|by intros [= <- <-]; destruct Hid as (?&?&?&?); split_and!].
  destruct (decode x) as [b|] eqn:Ed; [|by intros [= <- <-]; destruct Hid as (?&?&?&?); split_and!].
  destruct (commit_epoch b) as [w|] eqn:Ew; [|by intros [= <- <-]; destruct Hid as (?&?&?&?); split_and!].
  destruct (offered_fresh cur w x g Ee Hf) as (Hf0 & Hk0 & Hr0).
  destruct (offer cur w x (sequencer g)) as [seq d] eqn:Eo. cbn [fst snd] in *.
  pose proof (offer_wf _ _ _ _ _ _ Eo) as Hwf.
  set (g0 := with_sequencer (fun _ => seq) g) in *.
  destruct (decide (d = Apply)) as [->|Hd].
  - apply offer_disposition in Eo as (-> & -> & _).
    destruct (accept_commit b g0) as [g1 [u|e]] eqn:Ea.
    + destruct (installed_fresh cur x b g0 g1 u Ee Hf0 Ea) as [Hf1 He1].
      intros Hfin. destruct (finish_spec _ _ _ Hf1 Hfin) as (Hf' & Hk' & [l Hl] & Hsub & Ho).
      pose proof (accept_installed_recorded cur x b g0 g1 u Ed Ea) as Hr1.
      apply accept_commit_cases in Ea as (Hs & _).
      split; [done|]. split; [|split; [|split; [|intros o Heq _; by apply Ho]]].
      * intros k y Hy. destruct (decide (k = cur)) as [->|Hne].
        -- right. destruct Hl as (Hi & _). rewrite installed_crypto in Hi.
           rewrite (installs_epoch _ _ _ _ Hi He1). eexists. split; [done|lia].
        -- apply Hk'. by rewrite installed_buffered, Hs, lookup_delete_ne.
      * exists ([] ++ ([x] ++ l)). eapply recorded_trans; [exact Hr0|].
        by eapply recorded_trans.
      * intros Hw. pose proof (drain_ready_wf cur (sequencer g) Hw) as Hdr.
        apply map_subseteq_size in Hsub. rewrite installed_buffered, Hs in Hsub.
        unfold seq_wf in *. cbn in Hdr, Hsub. lia.
    + intros [= <- <-]. pose proof (accept_failed_recorded _ _ _ _ Ea) as Hr1.
      apply accept_failed_buffer in Ea as [Hs Hc].
      split; [intros ??; rewrite Hs, Hc; apply Hf0|].
      split; [intros ???; left; by rewrite Hs|].
      split; [|split; [by rewrite Hs|done]].
      exists []. exact (recorded_trans _ [] _ [] _ Hr0 Hr1).
  - assert (Hfin : finish g0 = (g', r) ->
      fresh g' /\ kept g g' /\ (exists l, recorded g l g') /\
      (seq_wf (sequencer g) -> seq_wf (sequencer g')) /\
      (forall o, r = Ok o -> Some cur <> None ->
         o = (if stuck g' then Gapped else Done) /\
         forall e, mls_epoch (crypto g') = Some e -> buffered (sequencer g') !! e = None)).
    { intros Hfin. destruct (finish_spec _ _ _ Hf0 Hfin) as (Hf' & Hk' & [l Hl] & Hsub & Ho).
      split; [done|]. split; [|split; [|split; [|intros o Heq _; by apply Ho]]].
      - intros k y Hy. destruct (Hk0 k y Hy) as [H1|H1]; [by apply Hk'|]. right.
        destruct H1 as (c & Hc & Hlt). destruct Hl as (Hi & _).
        rewrite (installs_epoch _ _ _ _ Hi Hc). eexists. split; [done|lia].
      - exists ([] ++ l). by eapply recorded_trans.
      - intros Hw. apply map_subseteq_size in Hsub. specialize (Hwf Hw).
        unfold seq_wf in *. cbn in Hsub. lia. }
    destruct d; [done|exact Hfin..].
Qed.


Lemma stuck_false g cur :
  fresh g -> mls_epoch (crypto g) = Some cur -> buffered (sequencer g) !! cur = None ->
  stuck g = false <-> buffered (sequencer g) = ∅.
Proof.
  intros Hf He Hn. unfold stuck. rewrite He. split.
  - intros Hg. destruct (decide (buffered (sequencer g) = ∅)) as [|Hne]; [done|].
    enough (gap cur (sequencer g) = true) by congruence.
    apply gap_spec. split; [done|]. intros e Hin. specialize (Hf cur e He Hin).
    assert (e <> cur) by (intros ->; rewrite Hn in Hin; by destruct Hin). lia.
  - intros Hb. destruct (gap cur (sequencer g)) eqn:Hg; [|done].
    by apply gap_spec in Hg as [? _].
Qed.

(** The reported outcome is the truth about the gap: an accepted call says
    [Done] exactly when no commit is left waiting in the buffer, and [Gapped]
    exactly when some future commit still waits for a missing predecessor. *)
Theorem sequence_commit_outcome x g g' o :
  fresh g -> mls_epoch (crypto g) <> None -> sequence_commit x g = (g', Ok o) ->
  (o = Done <-> buffered (sequencer g') = ∅) /\
  (o = Gapped <-> exists e y, buffered (sequencer g') !! e = Some y /\
     forall cur, mls_epoch (crypto g') = Some cur -> (cur < e)%N).
Proof.
  intros Hf He Hs. destruct (sequence_commit_spec _ _ _ _ Hf Hs) as (Hf' & _ & [l Hl] & _ & Ho).
  destruct (Ho o eq_refl He) as [-> Hnone]. destruct Hl as (Hi & _).
  destruct (mls_epoch (crypto g)) as [e0|] eqn:Ee; [|done].
  pose proof (installs_epoch _ _ _ _ Hi Ee) as Ee'.
  pose proof (stuck_false g' _ Hf' Ee' (Hnone _ Ee')) as Hst.
  destruct (stuck g') eqn:Es.
  - split; [split; [done|intros Hb%Hst; done]|]. split; [intros _|done].
    unfold stuck in Es. rewrite Ee' in Es. apply gap_spec in Es as [Hne Hall].
    apply map_choose in Hne as (e & y & Hy). exists e, y. split; [done|].
    intros cur. rewrite Ee'. intros [= <-]. apply Hall. by eexists.
  - pose proof (proj1 Hst eq_refl) as Hb. split; [done|]. split; [done|].
    intros (e & y & Hy & _). by rewrite Hb in Hy.
Qed.

(** ** Catching up from an admin's log *)

Definition replay (c : C) (bs : list bytes) : result PrivateGroupError C :=
  try_fold stage_membership c bs.

Lemma replay_epoch c bs c' e :
  replay c bs = Ok c' -> mls_epoch c = Some e ->
  mls_epoch c' = Some (e + N.of_nat (length bs))%N /\
  forall b, b ∈ bs -> exists w, commit_epoch b = Ok w /\ (e <= w < e + N.of_nat (length bs))%N.
Proof.
  revert c e. induction bs as [|b bs IH]; intros c e; cbn [replay try_fold].
  - intros [= <-] He. rewrite N.add_0_r. split; [done|]. by intros b Hb%elem_of_nil.
  - intros (c1 & Hst & Hr)%bind_Ok He.
    apply stage_epoch in Hst as (e0 & He0 & Hw & He1). rewrite He in He0. injection He0 as <-.
    destruct (IH _ _ Hr He1) as [-> Hb]. split; [f_equal; cbn [length]; lia|].
    cbn [length]. intros b' [->|Hin]%elem_of_cons; [exists e; split; [done|lia]|].
    destruct (Hb _ Hin) as (w & ? & ?). exists w. split; [done|lia].
Qed.

Lemma replay_app c l k c' :
  replay c (l ++ k) = Ok c' <-> exists c1, replay c l = Ok c1 /\ replay c1 k = Ok c'.
Proof. unfold replay. rewrite try_fold_app. apply bind_Ok. Qed.

Section Resync.
Variable c0 c_end : C.
Variable e0 : N.
Variable bs : list bytes.
Hypothesis b64_roundtrip : forall b, b64_decode (b64_encode b) = Ok b.
Hypothesis retained : forall p c c' id b, is_ok (retain_transition p c c' id b).2 = true.
Hypothesis start_epoch : mls_epoch c0 = Some e0.
Hypothesis genuine : replay c0 bs = Ok c_end.

(** What waits in the buffer is the log's own commit of that epoch, or one
    the session refuses there. *)
Definition benign (buf : gmap N string) : Prop :=
  forall e x, buf !! e = Some x -> exists pre b post c,
    bs = pre ++ b :: post /\ replay c0 pre = Ok c /\ mls_epoch c = Some e /\
    (x = b64_encode b \/ forall raw, decode x = Ok raw ->
       exists err, stage_membership c raw = Err err).

Definition at_point (g : Group) (pre rest : list bytes) : Prop :=
  bs = pre ++ rest /\ replay c0 pre = Ok (crypto g) /\ fresh g /\
  benign (buffered (sequencer g)) /\
  forall b, b ∈ rest -> b64_encode b ∉ applied (sequencer g).

Lemma at_point_epoch g pre rest :
  at_point g pre rest -> mls_epoch (crypto g) = Some (e0 + N.of_nat (length pre))%N.
Proof. intros (_ & Hr & _). by eapply replay_epoch. Qed.

Lemma benign_delete e buf : benign buf -> benign (delete e buf).
Proof. intros Hb k x [_ Hx]%lookup_delete_Some. by eapply Hb. Qed.

Lemma at_point_next g pre b rest :
  at_point g pre (b :: rest) ->
  commit_epoch b = Ok (e0 + N.of_nat (length pre))%N /\
  exists c1, stage_membership (crypto g) b = Ok c1 /\ replay c0 (pre ++ [b]) = Ok c1 /\
    forall b', b' ∈ rest -> b64_encode b' <> b64_encode b.
Proof.
  intros Hp. pose proof (at_point_epoch _ _ _ Hp) as He.
  destruct Hp as (Hbs & Hr & _). pose proof genuine as Hg. rewrite Hbs in Hg.
  apply replay_app in Hg as (c & Hc & Hg). rewrite Hr in Hc. injection Hc as <-.
  apply bind_Ok in Hg as (c1 & Hst & Hrest).
  pose proof Hst as (e & He' & Hw & He1)%stage_epoch. rewrite He in He'. injection He' as <-.
  split; [done|]. exists c1. split; [done|]. split.
  - apply replay_app. exists (crypto g). split; [done|]. cbn. by rewrite Hst.
  - intros b' Hin Heq. destruct (replay_epoch _ _ _ _ Hrest He1) as [_ Hb'].
    destruct (Hb' _ Hin) as (w & Hw' & Hle).
    pose proof (b64_roundtrip b') as Hd. rewrite Heq, b64_roundtrip in Hd.
    injection Hd as ->. rewrite Hw in Hw'. injection Hw' as <-. lia.
Qed.

Lemma accept_genuine g b c1 :
  stage_membership (crypto g) b = Ok c1 ->
  exists g1, accept_commit b g = (g1, Ok tt) /\ crypto g1 = c1 /\ sequencer g1 = sequencer g.
Proof.
  intros Hst. unfold accept_commit, persist_membership. rewrite Hst.
  destruct (persistence g) as [p|]; [|by eexists].
  pose proof (retained p (crypto g) c1 (group_id g) b) as Hr.
  destruct (retain_transition _ _ _ _ _) as [p' [[]|]]; [by eexists|done].
Qed.

Lemma at_point_installed g pre b rest g1 :
  at_point g pre (b :: rest) -> accept_commit b g = (g1, Ok tt) ->
  at_point (installed (e0 + N.of_nat (length pre)) (b64_encode b) b g1) (pre ++ [b]) rest.
Proof.
  intros Hp Ha. destruct (at_point_next _ _ _ _ Hp) as (Hw & c1 & Hst & Hr & Hne).
  pose proof (at_point_epoch _ _ _ Hp) as He. destruct Hp as (Hbs & _ & Hf & Hb & Hap).
  pose proof (installed_fresh _ (b64_encode b) b g g1 tt He Hf Ha) as [Hf1 _].
  destruct (accept_genuine g b c1 Hst) as (g1' & Ha' & Hc & Hs).
  rewrite Ha in Ha'. injection Ha' as <-.
  split; [by rewrite <-app_assoc|]. split; [by rewrite installed_crypto, Hc|].
  split; [done|]. split; [rewrite installed_buffered, Hs; by apply benign_delete|].
  intros b' Hin. rewrite installed_applied, Hs. specialize (Hne b' Hin).
  apply not_elem_of_add; [done|]. apply Hap. by right.
Qed.

Lemma drain_at_point fuel g g' r pre rest :
  at_point g pre rest -> drain_loop fuel g = (g', r) ->
  exists k pre' rest', rest = k ++ rest' /\ at_point g' pre' rest'.
Proof.
  revert g pre rest. induction fuel as [|fuel IH]; intros g pre rest Hp.
  - change (drain_loop 0 g) with (g, @Ok PrivateGroupError unit tt). intros [= <- <-].
    by exists [], pre, rest.
  - rewrite drain_loop_turn, (at_point_epoch _ _ _ Hp).
    destruct (buffered (sequencer g) !! _) as [x|] eqn:Ex;
      [|intros [= <- _]; by exists [], pre, rest].
    pose proof (at_point_epoch _ _ _ Hp) as He.
    pose proof Hp as (Hbs & Hr & Hf & Hb & Hap).
    destruct (Hb _ _ Ex) as (pre2 & b & post & c & Hbs2 & Hr2 & He2 & Hx).
    pose proof (replay_epoch _ _ _ _ Hr2 start_epoch) as [He3 _].
    rewrite He2 in He3. injection He3 as Hlen. rewrite Hbs in Hbs2.
    apply app_inj_1 in Hbs2 as [<- ->]; [|lia].
    rewrite Hr in Hr2. injection Hr2 as <-.
    assert (Hsame : forall g1, crypto g1 = crypto g -> sequencer g1 = sequencer g ->
      at_point g1 pre (b :: post)).
    { intros g1 Hc Hs. unfold at_point, fresh. by rewrite Hc, Hs. }
    destruct (decode x) as [raw|] eqn:Ed;
      [|intros [= <- _]; by exists [], pre, (b :: post)].
    destruct Hx as [->|Hx].
    + unfold decode in Ed. rewrite b64_roundtrip in Ed. injection Ed as <-.
      destruct (at_point_next _ _ _ _ Hp) as (_ & c1 & Hst & _).
      destruct (accept_genuine g b c1 Hst) as (g1 & Ha & _). rewrite Ha.
      intros Hd. destruct (IH _ _ _ (at_point_installed _ _ _ _ _ Hp Ha) Hd)
        as (k & pre' & rest' & -> & Hp').
      by exists (b :: k), pre', rest'.
    + destruct (Hx raw eq_refl) as [err Herr]. unfold accept_commit. rewrite Herr.
      intros [= <- _]. by exists [], pre, (b :: post).
Qed.

Lemma finish_at_point g g' r pre rest :
  at_point g pre rest -> finish g = (g', r) ->
  exists k pre' rest', rest = k ++ rest' /\ at_point g' pre' rest'.
Proof.
  intros Hp. unfold finish. destruct (drain g) as [g1 [u|e]] eqn:Ed; intros [= <- _];
    by eapply drain_at_point.
Qed.

Lemma already_seen cur w x sq :
  (w < cur)%N -> offer cur w x sq = (sq, AlreadySeen).
Proof. intros Hlt. unfold offer. case_decide; [done|]. by rewrite (proj2 (N.compare_lt_iff _ _)). Qed.

(** Replaying [b] when the member may already be further. *)
Lemma replay_step don b todo k g g' r rest :
  bs = don ++ b :: todo -> at_point g (don ++ k) rest ->
  sequence_commit (b64_encode b) g = (g', r) ->
  exists k' rest', at_point g' ((don ++ [b]) ++ k') rest'.
Proof.
  intros Hbs Hp. pose proof (at_point_epoch _ _ _ Hp) as He.
  rewrite sequence_commit_eq, He. unfold decode. rewrite b64_roundtrip. cbn [map_err].
  assert (Hsplit : b :: todo = k ++ rest).
  { destruct Hp as (Hbs' & _). rewrite Hbs, <-app_assoc in Hbs'. by apply app_inv_head in Hbs'. }
  destruct k as [|b' k]; cbn in Hsplit.
  - subst rest. rewrite app_nil_r in *.
    destruct (at_point_next _ _ _ _ Hp) as (Hw & c1 & Hst & _). rewrite Hw.
    destruct (accept_genuine g b c1 Hst) as (g1 & Ha & _).
    assert (Ho : offer (e0 + N.of_nat (length don)) (e0 + N.of_nat (length don))
      (b64_encode b) (sequencer g) = (sequencer g, Apply)).
    { unfold offer. rewrite decide_False by (apply Hp; by left). by rewrite N.compare_refl. }
    rewrite Ho. cbn [fst snd].
    replace (with_sequencer (fun _ => sequencer g) g) with g by (by destruct g).
    rewrite Ha. intros Hf.
    destruct (finish_at_point _ _ _ _ _ (at_point_installed _ _ _ _ _ Hp Ha) Hf)
      as (k' & pre' & rest' & -> & Hp').
    exists k', rest'. replace ((don ++ [b]) ++ k') with pre'; [done|].
    destruct Hp' as (Hb' & _). rewrite Hbs in Hb'.
    apply (app_inv_tail rest'). rewrite <-Hb', <-!app_assoc. done.
  - injection Hsplit as <- ->.
    assert (Hw : exists w, commit_epoch b = Ok w /\ (w < e0 + N.of_nat (length (don ++ b :: k)))%N).
    { destruct Hp as (_ & Hr & _). destruct (replay_epoch _ _ _ _ Hr start_epoch) as [_ Hb].
      destruct (Hb b) as (w & ? & ?); [apply elem_of_app; right; by left|]. exists w. split; [done|lia]. }
    destruct Hw as (w & -> & Hlt). rewrite (already_seen _ _ _ _ Hlt). cbn [fst snd].
    replace (with_sequencer (fun _ => sequencer g) g) with g by (by destruct g).
    intros Hf. destruct (finish_at_point _ _ _ _ _ Hp Hf) as (k' & pre' & rest' & -> & Hp').
    exists (k ++ k'), rest'. replace ((don ++ [b]) ++ k ++ k') with pre'; [done|].
    destruct Hp' as (Hb' & _). destruct Hp as (Hb & _). rewrite Hb in Hb'.
    apply (app_inv_tail rest'). rewrite <-Hb', <-!app_assoc. done.
Qed.

Lemma replay_all don todo k g rest :
  bs = don ++ todo -> at_point g (don ++ k) rest ->
  at_point (foldl (fun g x => (sequence_commit x g).1) g (map b64_encode todo)) bs [].
Proof.
  revert don k g rest. induction todo as [|b todo IH]; intros don k g rest Hbs Hp.
  - rewrite app_nil_r in Hbs. subst don. pose proof Hp as (Hb & _).
    rewrite <-app_assoc in Hb. rewrite <-(app_nil_r bs) in Hb at 1.
    apply app_inv_head in Hb. symmetry in Hb. apply app_nil in Hb as [-> ->].
    by rewrite app_nil_r in Hp.
  - cbn [map foldl]. destruct (sequence_commit (b64_encode b) g) as [g' r] eqn:Es. cbn [fst].
    destruct (replay_step don b todo k g g' r rest Hbs Hp Es) as (k' & rest' & Hp').
    apply (IH (don ++ [b]) k' g' rest'); [by rewrite <-app_assoc|done].
Qed.

Lemma at_end g : at_point g bs [] ->
  crypto g = c_end /\ buffered (sequencer g) = ∅ /\ stuck g = false.
Proof.
  intros Hp. pose proof (at_point_epoch _ _ _ Hp) as He.
  destruct Hp as (_ & Hr & Hf & Hb & _). rewrite genuine in Hr. injection Hr as Hc.
  assert (Hempty : buffered (sequencer g) = ∅).
  { apply map_eq. intros e. rewrite lookup_empty. apply eq_None_not_Some. intros [x Hx].
    pose proof (Hf _ e He (ex_intro _ x Hx)) as Hle.
    destruct (Hb _ _ Hx) as (pre & b & post & c & Hbs & Hrp & Hce & _).
    destruct (replay_epoch _ _ _ _ Hrp start_epoch) as [Hce' _].
    rewrite Hce in Hce'. injection Hce' as ->. rewrite Hbs, length_app in Hle.
    cbn [length] in Hle. lia. }
  split; [done|]. split; [done|]. unfold stuck. rewrite He. unfold gap. by rewrite Hempty.
Qed.
End Resync.


Lemma request_resync_needs_rejoin s s' r :
  request_resync_if_gapped s = (s', r) ->
  needs_rejoin s' = needs_rejoin s /\ crypto (group s') = crypto (group s).
Proof.
  unfold request_resync_if_gapped, publish_control.
  destruct (mls_epoch (crypto (group s))); [|by intros [= <- _]].
  destruct (negb _); [by intros [= <- _]|].
  destruct (should_request _ _) as [seq []]; [|by intros [= <- _]]. cbn [negb].
  destruct (head (network _)) as [[e|]|]; by intros [= <- _].
Qed.

(** While any commit of a later epoch sits in the buffer, forged or not,
    no incoming commit clears a rejoin hint: the hint outlives every commit
    that is applied until the session reaches that epoch. *)
Theorem buffered_gap_keeps_rejoin x s s' r f y :
  fresh (group s) -> buffered (sequencer (group s)) !! f = Some y ->
  needs_rejoin s = true -> apply_commit_sequenced x s = (s', r) ->
  (exists cur, mls_epoch (crypto (group s')) = Some cur /\ (cur <= f)%N) ->
  needs_rejoin s' = true.
Proof.
  intros Hf Hb Hn. unfold apply_commit_sequenced.
  destruct (sequence_commit x (group s)) as [g res] eqn:Es.
  destruct (sequence_commit_spec _ _ _ _ Hf Es) as (Hf' & Hk & [l (Hi & _)] & _ & Ho).
  destruct res as [[]|e]; [| |by intros [= <- _]].
  - intros [= <- _] (cur & Hcur & Hle). exfalso. cbn in Hcur.
    assert (He : mls_epoch (crypto (group s)) <> None).
    { intros He. rewrite sequence_commit_eq, He in Es. injection Es as <-. congruence. }
    destruct (Ho Done eq_refl He) as [Hst Hnone].
    assert (Hempty : buffered (sequencer g) = ∅).
    { apply (stuck_false g cur Hf' Hcur (Hnone _ Hcur)). by destruct (stuck g). }
    destruct (Hk f y Hb) as [Hin|(c & Hc & Hlt)]; [by rewrite Hempty in Hin|].
    rewrite Hcur in Hc. injection Hc as <-. lia.
  - intros Hr _. apply request_resync_needs_rejoin in Hr as [-> _]. done.
Qed.
End Group.

(** ** Witnesses: a session that accepts, at epoch [n], commits of [n] bytes *)

#[local] Instance toy_session : MlsSession N := {
  mls_epoch c := Some c;
  commit_epoch b := Ok (N.of_nat (length b));
  stage_membership c b :=
    if (N.of_nat (length b) =? c)%N then Ok (c + 1)%N else Err (OpenMls "wrong epoch");
}.
#[local] Instance toy_session_laws : MlsSessionLaws N.
Proof.
  intros c b c'. cbn. destruct (N.eqb_spec (N.of_nat (length b)) c) as [<-|]; [|done].
  intros [= <-]. by eexists.
Qed.

Definition toy_encode (b : bytes) : string := String.string_of_list_byte b.
Definition toy_decode (s : string) : result string bytes := Ok (String.list_byte_of_string s).
Lemma toy_roundtrip b : toy_decode (toy_encode b) = Ok b.
Proof. unfold toy_decode, toy_encode. by rewrite String.list_byte_of_string_of_list_byte. Qed.

Definition toy_retain (p : Persistence) (c c' : N) (id : string) (b : bytes)
  : Persistence * result PrivateGroupError unit := (p, Ok tt).

Definition commit_of (n : nat) : bytes := replicate n x61.

Definition toy_group (e : N) (buf : gmap N string) : @Group N :=
  {| crypto := e; sequencer := set_buffered buf new_sequencer; persistence := None;
     group_id := "g" |}.
Definition toy_sequence (x : string) (g : @Group N) :=
  sequence_commit plain_encrypt zero_rng toy_decode toy_retain x g.

(** A member at epoch 2 holding the commit of epoch 3 and a gap at 9. *)
Definition waiting : @Group N := toy_group 2 {[ 3%N := "aaa"; 9%N := "zzz" ]}.

Lemma waiting_fresh : fresh waiting.
Proof.
  intros cur e [= <-] [y Hy]. cbn in *. apply lookup_insert_Some in Hy as [[<- _]|[_ Hy]]; [lia|].
  apply lookup_singleton_Some in Hy as [<- _]. lia.
Qed.


Lemma sequence_commit_outcome_witness :
  Gapped = Gapped <-> exists e y, buffered (sequencer (toy_sequence "aa" waiting).1) !! e = Some y /\
       forall cur, mls_epoch (crypto (toy_sequence "aa" waiting).1) = Some cur -> (cur < e)%N.
Proof.
  refine (proj2 (sequence_commit_outcome plain_encrypt zero_rng toy_decode toy_retain "aa" waiting
    (toy_sequence "aa" waiting).1 Gapped waiting_fresh _ _)); [done|].
  apply surjective_pairing_eq. vm_compute. reflexivity.
Defined.

Definition session_of (g : @Group N) (rejoin : bool) : @GroupSession N :=
  {| group := g; fingerprint := "fp"; needs_rejoin := rejoin; published := []; network := [] |}.

Lemma buffered_gap_keeps_rejoin_witness :
  needs_rejoin (apply_commit_sequenced plain_encrypt zero_rng toy_decode toy_retain "aa"
                  (session_of waiting true)).1 = true.
Proof.
  refine (buffered_gap_keeps_rejoin plain_encrypt zero_rng toy_decode toy_retain "aa"
    (session_of waiting true) _ (Ok tt) 9 "zzz" waiting_fresh _ eq_refl _ _).
  - vm_compute. reflexivity.
  - apply surjective_pairing_eq. vm_compute. reflexivity.
  - exists 4%N. split; [vm_compute; reflexivity|done].
Defined.

(** The admin's log holds the commits of epochs 2 to 4; the member's buffer
    holds the one of epoch 3 and garbage at epoch 4. *)
Definition admin_store : Persistence :=
  let add s e := (append_group_commit plain_encrypt zero_rng s "g" (N.of_nat e) (commit_of e)).1 in
  add (add (add (new_store []) 4) 2) 3.
Definition log_rows : list (N * bytes) :=
  [(2%N, commit_of 2); (3%N, commit_of 3); (4%N, commit_of 4)].
Definition toy_admin : @GroupSession N :=
  session_of {| crypto := 5%N; sequencer := new_sequencer; persistence := Some admin_store;
                group_id := "g" |} false.
Definition lagging : @Group N := toy_group 2 {[ 3%N := "aaa"; 4%N := "zz" ]}.

Lemma lagging_fresh : fresh lagging.
Proof.
  intros cur e [= <-] [y Hy]. cbn in *. apply lookup_insert_Some in Hy as [[<- _]|[_ Hy]]; [lia|].
  apply lookup_singleton_Some in Hy as [<- _]. lia.
Qed.

Lemma lagging_benign :
  benign toy_encode toy_decode 2%N log_rows.*2 (buffered (sequencer lagging)).
Proof.
  intros e x Hx. cbn in Hx. apply lookup_insert_Some in Hx as [[<- <-]|[_ Hx]].
  - exists [commit_of 2], (commit_of 3), [commit_of 4], 3%N.
    split; [done|]. split; [done|]. split; [done|]. left. done.
  - apply lookup_singleton_Some in Hx as [<- <-].
    exists [commit_of 2; commit_of 3], (commit_of 4), [], 4%N.
    split; [done|]. split; [done|]. split; [done|]. right.
    intros raw [= <-]. by eexists.
Qed.

End Commits.
