(* ===== verification/Messages.v ===== *)
(** * Messages: the message log and the way out ([message_id.rs],
      [outbound_delivery.rs], [conversation/message_log.rs],
      [conversation/outbound.rs], [message_deletion/types.rs])

    Every conversation kind keeps its messages in one log and sends them
    through one outbox.  The kinds' message types are met through the class
    [ConversationMessage]; the group's own message type is its instance here.
    The clock, the random suffix, base64 and [serde_json] are arguments. *)
From S2P Require Import Prelude Store.
Import Store.

Module Messages.

(** ** Delivery and deletion metadata *)

Inductive MessageDeliveryStatus := Pending | Queued | Sent | Delivered | Failed.
#[export] Instance MessageDeliveryStatus_eq_dec : EqDecision MessageDeliveryStatus.
Proof. solve_decision. Defined.

Record MessageDeliveryMeta := {
  delivery_status : option MessageDeliveryStatus;
  delivery_error : option string;
  retryable : option bool;
  retry_count : option N;
}.

Record OutboundAttemptRecord := {
  ever_published : option bool;
  conversation_id : string;
  a_message_id : string;
  a_sent_at_ms : N;
  ciphertext_bytes : N;
  message_json : string;
  publish_payload_b64 : string;
  a_delivery_status : MessageDeliveryStatus;
  a_delivery_error : option string;
  a_retry_count : N;
  auto_resends : N;
  last_send_ms : N;
}.

Inductive DeleteScope := ForMe | ForEveryone.
Inductive DeletionStatus := DPending | Confirmed | Rejected.
#[export] Instance DeleteScope_eq_dec : EqDecision DeleteScope.
Proof. solve_decision. Defined.
#[export] Instance DeletionStatus_eq_dec : EqDecision DeletionStatus.
Proof. solve_decision. Defined.

Record DeletionMarker := {
  scope : DeleteScope;
  status : DeletionStatus;
  administrator : option string;
}.

Record MessageOrigin := {
  conversation : string;
  id : string;
  content_hash : string;
  author : string;
  signature : string;
  ownership : option string;
}.

Record MessageMetadata := {
  origin : option MessageOrigin;
  deletion : option DeletionMarker;
  deletion_key : option string;
  personal_correlation : option string;
  can_delete_for_everyone : bool;
  local_only : bool;
  is_own : option bool;
}.

(** ** Ids ([message_id.rs]) *)

Definition dash : Ascii.ascii := Ascii.ascii_of_N 45.

(** [MessageIdGen::next]: the id, and the counter it leaves ([u64] addition). *)
Definition next_id (seq sent_at_ms : N) : N * string :=
  (wrapping_add64 seq 1,
   format_u64 1 sent_at_ms +:+ String dash (format_u64 6 seq)).

(** Message ids never repeat within a run of the counter: two stamps made at
    different counter values give different ids, whatever the clock says. *)
Theorem ids_never_repeat a b t t' :
  is_u64 a -> is_u64 b -> a <> b -> (next_id a t).2 <> (next_id b t').2.
Proof.
  intros Ha Hb Hne Heq. cbn [next_id snd] in Heq. apply Hne.
  apply (format_u64_inj 6); [done..|].
  pose proof (digits_split_once dash _ (format_u64 6 a) eq_refl (format_u64_digits 1 t)) as H1.
  rewrite Heq, (digits_split_once dash _ _ eq_refl (format_u64_digits 1 t')) in H1.
  by injection H1.
Qed.

Lemma ids_never_repeat_witness :
  (next_id 7 1000).2 <> (next_id 8 1000).2 /\ (next_id 7 1000).2 = "1000-000007".
Proof. split; [apply (ids_never_repeat 7 8 1000 1000); done|vm_compute; reflexivity]. Defined.

Definition occurrence_id (prefix random_hex : string) : string :=
  prefix +:+ String dash random_hex.

(** ** The trait a conversation's message implements *)

Class ConversationMessage (M : Type) := {
  cm_metadata : M -> option MessageMetadata;
  cm_set_metadata : option MessageMetadata -> M -> M;
  cm_erase_content : M -> M;
  cm_message_id : M -> option string;
  cm_set_message_id : string -> M -> M;
  cm_sent_at_ms : M -> option N;
  cm_set_sent_at_ms : N -> M -> M;
  cm_body : M -> string;
  cm_author : M -> string;
  cm_set_delivery : MessageDeliveryMeta -> M -> M;
  cm_delivery_status : M -> option MessageDeliveryStatus;
}.

(** What the log relies on: each setter moves its own field. *)
Class ConversationMessageLaws (M : Type) `{ConversationMessage M} : Prop := {
  set_delivery_id d m : cm_message_id (cm_set_delivery d m) = cm_message_id m;
  set_delivery_metadata d m : cm_metadata (cm_set_delivery d m) = cm_metadata m;
  set_delivery_status d m : cm_delivery_status (cm_set_delivery d m) = delivery_status d;
  set_id_id i m : cm_message_id (cm_set_message_id i m) = Some i;
  set_id_metadata i m : cm_metadata (cm_set_message_id i m) = cm_metadata m;
  set_sent_id t m : cm_message_id (cm_set_sent_at_ms t m) = cm_message_id m;
  set_sent_metadata t m : cm_metadata (cm_set_sent_at_ms t m) = cm_metadata m;
}.

Inductive LogError := Missing (id : string) | CodecE (error : string).

Definition delivery_meta (st : MessageDeliveryStatus) (error : option string) (retries : N)
  : MessageDeliveryMeta :=
  {| delivery_status := Some st; delivery_error := error;
     retryable := Some (bool_decide (st = Failed)); retry_count := Some retries |}.

(** The first message the predicate accepts, replaced in place. *)
Fixpoint update_first {M} (p : M -> bool) (f : M -> M) (l : list M) : list M :=
  match l with
  | [] => []
  | m :: l' => if p m then f m :: l' else m :: update_first p f l'
  end.

Section Log.
Context {M : Type} `{ConversationMessageLaws M}.
#[local] Set Default Proof Using "Type".

Record MessageLog := {
  messages : list M;
  ids : N;
  erased_ids : gset string;
  revision : N;
}.

Definition default_log : MessageLog :=
  {| messages := []; ids := 0; erased_ids := ∅; revision := 0 |}.

Definition is_tombstone (m : M) : bool :=
  match cm_metadata m with
  | Some md => match deletion md with Some _ => true | None => false end
  | None => false
  end.

Definition has_id (i : string) (m : M) : bool := bool_decide (cm_message_id m = Some i).

Definition stamp (now : N) (random_hex : string) (l : MessageLog) (m : M) : MessageLog * M :=
  let t := default now (cm_sent_at_ms m) in
  let m := cm_set_sent_at_ms t m in
  if String.eqb (default EmptyString (cm_message_id m)) EmptyString
  then let '(seq, i) := next_id (ids l) t in
       ({| messages := messages l; ids := seq; erased_ids := erased_ids l;
           revision := revision l |},
        cm_set_message_id (i +:+ String dash (occurrence_id "message" random_hex)) m)
  else (l, m).

Definition remember_erasure (m : M) (erased : gset string) : gset string :=
  if is_tombstone m
  then match cm_message_id m with Some i => {[ i ]} ∪ erased | None => erased end
  else erased.

Definition push (m : M) (l : MessageLog) : MessageLog :=
  let rev := wrapping_add64 (revision l) 1 in
  if match cm_message_id m with Some i => bool_decide (i ∈ erased_ids l) | None => false end
  then {| messages := messages l; ids := ids l; erased_ids := erased_ids l; revision := rev |}
  else {| messages := messages l ++ [m]; ids := ids l;
          erased_ids := remember_erasure m (erased_ids l); revision := rev |}.

Definition push_stamped (now : N) (random_hex : string) (m : M) (l : MessageLog) : MessageLog :=
  let '(l', m') := stamp now random_hex l m in push m' l'.

Definition upsert (m : M) (l : MessageLog) : MessageLog :=
  let msgs :=
    match cm_message_id m with
    | Some i =>
        if existsb (has_id i) (messages l)
        then update_first (has_id i) (fun old => if is_tombstone old then old else m) (messages l)
        else messages l ++ [m]
    | None => messages l ++ [m]
    end in
  {| messages := msgs; ids := ids l; erased_ids := remember_erasure m (erased_ids l);
     revision := wrapping_add64 (revision l) 1 |}.

(** [replace]: Rust's indexing panics out of range ([None]). *)
Definition replace (index : nat) (m : M) (l : MessageLog) : option MessageLog :=
  if (index <? length (messages l))%nat
  then Some {| messages := <[index := m]> (messages l); ids := ids l;
               erased_ids := remember_erasure m (erased_ids l);
               revision := wrapping_add64 (revision l) 1 |}
  else None.

Definition visible (l : MessageLog) : list M :=
  filter (fun m => match cm_metadata m with
                   | Some md => match deletion md with
                                | Some d => bool_decide (scope d = ForMe)
                                | None => false
                                end
                   | None => false
                   end = false) (messages l).

(** [find_mut] hands out the first message of the id; [f] is the caller's
    edit. *)
Definition find_mut (i : string) (f : M -> M) (l : MessageLog) : MessageLog * bool :=
  ({| messages := update_first (has_id i) f (messages l); ids := ids l;
      erased_ids := erased_ids l; revision := wrapping_add64 (revision l) 1 |},
   existsb (has_id i) (messages l)).

Definition holds_copy_of (l : MessageLog) (candidate : M) : bool :=
  existsb (fun existing =>
    String.eqb (cm_author existing) (cm_author candidate)
    && match cm_message_id existing, cm_message_id candidate with
       | Some mine, Some theirs =>
           if negb (String.eqb mine EmptyString) && negb (String.eqb theirs EmptyString)
           then String.eqb mine theirs
           else bool_decide (cm_sent_at_ms existing = cm_sent_at_ms candidate)
                && String.eqb (cm_body existing) (cm_body candidate)
       | _, _ => bool_decide (cm_sent_at_ms existing = cm_sent_at_ms candidate)
                 && String.eqb (cm_body existing) (cm_body candidate)
       end) (messages l).

Definition mark_delivery (i : string) (st : MessageDeliveryStatus) (error : option string)
    (retries : N) : method MessageLog LogError unit := fun l =>
  let '(l', found) := find_mut i (cm_set_delivery (delivery_meta st error retries)) l in
  (l', if found then Ok tt else Err (Missing i)).

Variable to_string : M -> result string string.

Definition json_for (l : MessageLog) (i : string) : result LogError string :=
  match find (has_id i) (messages l) with
  | None => Err (Missing i)
  | Some m => map_err CodecE (to_string m)
  end.

(** ** The outbox ([conversation/outbound.rs]) *)

Variable b64_encode : bytes -> string.
Variable b64_decode : string -> result string bytes.

Record Prepared := {
  p_message_id : string;
  p_sent_at_ms : N;
  p_ciphertext_bytes : N;
  p_retry_count : N;
  payload : bytes;
}.
Record Settled := { s_status : MessageDeliveryStatus; s_error : option string }.
Inductive OnSent := Forget | Retain.

Record Outbox := { log : MessageLog; attempts : gmap string OutboundAttemptRecord }.

Definition on_log {A} (m : method MessageLog LogError A) : method Outbox LogError A := fun o =>
  let '(l, r) := m (log o) in ({| log := l; attempts := attempts o |}, r).

Definition set_attempt (i : string) (f : OutboundAttemptRecord -> OutboundAttemptRecord)
    (o : Outbox) : Outbox :=
  {| log := log o; attempts := alter f i (attempts o) |}.

Definition with_status (st : MessageDeliveryStatus) (error : option string)
    (a : OutboundAttemptRecord) : OutboundAttemptRecord :=
  {| ever_published := ever_published a; conversation_id := conversation_id a;
     a_message_id := a_message_id a; a_sent_at_ms := a_sent_at_ms a;
     ciphertext_bytes := ciphertext_bytes a; message_json := message_json a;
     publish_payload_b64 := publish_payload_b64 a; a_delivery_status := st;
     a_delivery_error := error; a_retry_count := a_retry_count a;
     auto_resends := auto_resends a; last_send_ms := last_send_ms a |}.
Definition with_retry (n : N) (a : OutboundAttemptRecord) : OutboundAttemptRecord :=
  {| ever_published := ever_published a; conversation_id := conversation_id a;
     a_message_id := a_message_id a; a_sent_at_ms := a_sent_at_ms a;
     ciphertext_bytes := ciphertext_bytes a; message_json := message_json a;
     publish_payload_b64 := publish_payload_b64 a; a_delivery_status := a_delivery_status a;
     a_delivery_error := a_delivery_error a; a_retry_count := n;
     auto_resends := auto_resends a; last_send_ms := last_send_ms a |}.
Definition with_json (j : string) (a : OutboundAttemptRecord) : OutboundAttemptRecord :=
  {| ever_published := ever_published a; conversation_id := conversation_id a;
     a_message_id := a_message_id a; a_sent_at_ms := a_sent_at_ms a;
     ciphertext_bytes := ciphertext_bytes a; message_json := j;
     publish_payload_b64 := publish_payload_b64 a; a_delivery_status := a_delivery_status a;
     a_delivery_error := a_delivery_error a; a_retry_count := a_retry_count a;
     auto_resends := auto_resends a; last_send_ms := last_send_ms a |}.
Definition with_published (now : N) (a : OutboundAttemptRecord) : OutboundAttemptRecord :=
  {| ever_published := Some true; conversation_id := conversation_id a;
     a_message_id := a_message_id a; a_sent_at_ms := a_sent_at_ms a;
     ciphertext_bytes := ciphertext_bytes a; message_json := message_json a;
     publish_payload_b64 := publish_payload_b64 a; a_delivery_status := a_delivery_status a;
     a_delivery_error := a_delivery_error a; a_retry_count := a_retry_count a;
     auto_resends := auto_resends a; last_send_ms := now |}.

Definition file (now : N) (m : M) (conversation : string) (pl : bytes) (size : N)
    (st : MessageDeliveryStatus) : method Outbox LogError Prepared := fun o =>
  let i := default EmptyString (cm_message_id m) in
  let t := default now (cm_sent_at_ms m) in
  let o := {| log := upsert m (log o); attempts := attempts o |} in
  match on_log (mark_delivery i st None 0) o with
  | (o, Err e) => (o, Err e)
  | (o, Ok _) =>
      match json_for (log o) i with
      | Err e => (o, Err e)
      | Ok json =>
          ({| log := log o;
              attempts := <[i := {| ever_published := Some false;
                conversation_id := conversation; a_message_id := i; a_sent_at_ms := t;
                ciphertext_bytes := size; message_json := json;
                publish_payload_b64 := b64_encode pl; a_delivery_status := st;
                a_delivery_error := None; a_retry_count := 0; auto_resends := 0;
                last_send_ms := t |}]> (attempts o) |},
           Ok {| p_message_id := i; p_sent_at_ms := t; p_ciphertext_bytes := size;
                 p_retry_count := 0; payload := pl |})
      end
  end.

Definition open (now : N) (m : M) (conversation : string) (pl : bytes) (size : N)
  : method Outbox LogError Prepared := file now m conversation pl size Pending.
Definition queue (now : N) (m : M) (conversation : string)
  : method Outbox LogError Prepared := file now m conversation [] 0 Queued.

Definition sync_message_json (i : string) : method Outbox LogError unit := fun o =>
  let for_me :=
    match find (has_id i) (messages (log o)) with
    | Some m => match cm_metadata m with
                | Some md => match deletion md with
                             | Some d => bool_decide (scope d = ForMe)
                             | None => false
                             end
                | None => false
                end
    | None => false
    end in
  let published :=
    match attempts o !! i with
    | Some a => bool_decide (ever_published a <> Some false)
    | None => false
    end in
  if for_me && published then (o, Ok tt)
  else match json_for (log o) i with
       | Err e => (o, Err e)
       | Ok json => (set_attempt i (with_json json) o, Ok tt)
       end.

Definition reopen_as (i : string) (st : MessageDeliveryStatus)
  : method Outbox LogError Prepared := fun o =>
  match attempts o !! i with
  | None => (o, Err (Missing i))
  | Some a =>
      let a := with_status st None (with_retry (saturating_add32 (a_retry_count a) 1) a) in
      let o := {| log := log o; attempts := <[i := a]> (attempts o) |} in
      match map_err CodecE (b64_decode (publish_payload_b64 a)) with
      | Err e => (o, Err e)
      | Ok pl =>
          let prepared := {| p_message_id := i; p_sent_at_ms := a_sent_at_ms a;
            p_ciphertext_bytes := ciphertext_bytes a; p_retry_count := a_retry_count a;
            payload := pl |} in
          m_bind (on_log (mark_delivery i Pending None (p_retry_count prepared))) (fun _ =>
          m_bind (sync_message_json i) (fun _ => m_ret prepared)) o
      end
  end.

Definition reopen (i : string) : method Outbox LogError Prepared := reopen_as i Pending.
Definition requeue (i : string) : method Outbox LogError Prepared := reopen_as i Queued.

Definition settle (now : N) (i : string) (outcome : result string unit) (on_sent : OnSent)
  : method Outbox LogError Settled := fun o =>
  let retries := match attempts o !! i with Some a => a_retry_count a | None => 0%N end in
  match outcome with
  | Ok _ =>
      m_bind (on_log (mark_delivery i Sent None retries)) (fun _ =>
      m_bind (match on_sent with
              | Forget => m_modify (fun o =>
                  {| log := log o; attempts := delete i (attempts o) |})
              | Retain =>
                  m_bind (m_modify (set_attempt i (fun a =>
                    with_published now (with_status Sent None a)))) (fun _ =>
                  sync_message_json i)
              end) (fun _ =>
      m_ret {| s_status := Sent; s_error := None |})) o
  | Err error =>
      m_bind (m_modify (set_attempt i (with_status Failed (Some error)))) (fun _ =>
      m_bind (on_log (mark_delivery i Failed (Some error) retries)) (fun _ =>
      m_bind (sync_message_json i) (fun _ =>
      m_ret {| s_status := Failed; s_error := Some error |}))) o
  end.

Definition activate_queue (i : string) : method Outbox LogError unit := fun o =>
  match attempts o !! i with
  | None => (o, Err (Missing i))
  | Some a =>
      let a := with_status Queued None a in
      m_bind (m_modify (fun o => {| log := log o; attempts := <[i := a]> (attempts o) |})) (fun _ =>
      m_bind (on_log (mark_delivery i Queued None (a_retry_count a))) (fun _ =>
      sync_message_json i)) o
  end.

(** ** Editing the first message of an id *)

Lemma has_id_true i m : has_id i m = true <-> cm_message_id m = Some i.
Proof. apply bool_decide_eq_true. Qed.

Lemma elem_of_update_first (p : M -> bool) f l x :
  x ∈ update_first p f l -> x ∈ l \/ exists y, y ∈ l /\ p y = true /\ x = f y.
Proof.
  induction l as [|y l IH]; cbn; [by left|]. destruct (p y) eqn:Hp.
  - intros [->|Hx]%elem_of_cons; [right; exists y; repeat split; [by left|done]|left; by right].
  - intros [->|Hx]%elem_of_cons; [left; by left|].
    destruct (IH Hx) as [?|(z & ? & ? & ?)]; [left; by right|].
    right. exists z. repeat split; [by right|done..].
Qed.

Lemma existsb_elem (p : M -> bool) l : existsb p l = true <-> exists m, m ∈ l /\ p m = true.
Proof. rewrite existsb_exists. by setoid_rewrite list_elem_of_In. Qed.

Lemma update_first_keeps_id i k f l :
  (forall m, cm_message_id (f m) = cm_message_id m) ->
  existsb (has_id i) (update_first (has_id k) f l) = existsb (has_id i) l.
Proof.
  intros Hf. assert (Hid : forall m, has_id i (f m) = has_id i m)
    by (intros m; unfold has_id; by rewrite Hf).
  induction l as [|y l IH]; cbn; [done|]. destruct (has_id k y); cbn; [by rewrite Hid|by rewrite IH].
Qed.

Lemma find_update_first i f l :
  (forall m, cm_message_id (f m) = cm_message_id m) ->
  find (has_id i) (update_first (has_id i) f l) = f <$> find (has_id i) l.
Proof.
  intros Hf. induction l as [|y l IH]; cbn; [done|].
  destruct (has_id i y) eqn:Hy; cbn; [|by rewrite Hy].
  unfold has_id in *. by rewrite Hf, Hy.
Qed.

Lemma find_existsb i l :
  existsb (has_id i) l = true <-> exists m, find (has_id i) l = Some m.
Proof.
  induction l as [|y l IH]; cbn; [split; [done|by intros []]|].
  destruct (has_id i y); cbn; [split; [by eexists|done]|exact IH].
Qed.

(** ** Erased messages stay erased *)

(** What the runtimes do to a log: append, stamp, upsert, record a delivery,
    and put a tombstone in the place of a message. *)
Inductive log_step : MessageLog -> MessageLog -> Prop :=
| step_push m l : log_step l (push m l)
| step_stamp now hex m l : log_step l (stamp now hex l m).1
| step_upsert m l : log_step l (upsert m l)
| step_mark i st e n l : log_step l (mark_delivery i st e n l).1
| step_erase index old m l l' :
    messages l !! index = Some old -> cm_message_id m = cm_message_id old ->
    is_tombstone m = true -> replace index m l = Some l' -> log_step l l'.

Definition shielded (i : string) (l : MessageLog) : Prop :=
  i ∈ erased_ids l /\ (exists m, m ∈ messages l /\ cm_message_id m = Some i) /\
  forall m, m ∈ messages l -> cm_message_id m = Some i -> is_tombstone m = true.

Lemma remember_erasure_subset m X : X ⊆ remember_erasure m X.
Proof.
  unfold remember_erasure. destruct (is_tombstone m); [|done].
  destruct (cm_message_id m); [|done]. apply union_subseteq_r.
Qed.

Lemma push_shielded i m l : shielded i l -> shielded i (push m l).
Proof.
  intros (He & (x & Hx & Hxi) & Hall). unfold push.
  destruct (match cm_message_id m with Some _ => _ | None => _ end) eqn:Hm;
    [by repeat split; eauto|].
  split; [by apply remember_erasure_subset|]. cbn. split.
  - exists x. split; [apply elem_of_app; by left|done].
  - intros y [Hy|Hy]%elem_of_app Hyi; [by apply Hall|].
    apply list_elem_of_singleton in Hy as ->. rewrite Hyi in Hm.
    by apply bool_decide_eq_false in Hm.
Qed.

Lemma upsert_shielded i m l : shielded i l -> shielded i (upsert m l).
Proof.
  intros (He & (x & Hx & Hxi) & Hall). unfold upsert.
  split; [by apply remember_erasure_subset|]. cbn.
  assert (Happ : cm_message_id m <> Some i ->
    (exists m0, m0 ∈ messages l ++ [m] /\ cm_message_id m0 = Some i) /\
    (forall m0, m0 ∈ messages l ++ [m] -> cm_message_id m0 = Some i -> is_tombstone m0 = true)).
  { intros Hne. split.
    - exists x. split; [apply elem_of_app; by left|done].
    - intros y [Hy|Hy]%elem_of_app Hyi; [by apply Hall|].
      by apply list_elem_of_singleton in Hy as ->. }
  destruct (cm_message_id m) as [k|] eqn:Hk; [|by apply Happ].
  destruct (decide (k = i)) as [->|Hne].
  - assert (Hex : existsb (has_id i) (messages l) = true).
    { apply existsb_elem. exists x. split; [done|]. by apply has_id_true. }
    rewrite Hex. clear Happ Hex He.
    set (g := fun old => if is_tombstone old then old else m).
    assert (Hsame : update_first (has_id i) g (messages l) = messages l).
    { revert Hall. generalize (messages l). intros msgs. induction msgs as [|y msgs IH]; cbn; [done|].
      intros Hall. destruct (has_id i y) eqn:Hy.
      - unfold g. rewrite (Hall y); [done|by left|by apply has_id_true].
      - f_equal. apply IH. intros z Hz. apply Hall. by right. }
    rewrite Hsame. split; [by exists x|done].
  - destruct (existsb (has_id k) (messages l)) eqn:Hex; [|apply Happ; congruence].
    set (g := fun old => if is_tombstone old then old else m). split.
    + assert (Hin : x ∈ update_first (has_id k) g (messages l)).
      { clear -Hx Hxi Hne. induction (messages l) as [|y msgs IH]; cbn; [done|].
        destruct (has_id k y) eqn:Hy.
        - apply elem_of_cons in Hx as [->|Hx]; [|by right].
          apply has_id_true in Hy. congruence.
        - apply elem_of_cons in Hx as [->|Hx]; [by left|right; by apply IH]. }
      by exists x.
    + intros y [Hy|(z & Hz & _ & ->)]%elem_of_update_first Hyi; [by apply Hall|].
      unfold g in *. destruct (is_tombstone z) eqn:Hzt; [done|congruence].
Qed.

Lemma mark_shielded i k st e n l : shielded i l -> shielded i (mark_delivery k st e n l).1.
Proof using Type H0.
  intros (He & (x & Hx & Hxi) & Hall). unfold mark_delivery, find_mut, shielded. cbn.
  split; [done|]. split.
  - assert (Hex : existsb (has_id i) (messages l) = true).
    { apply existsb_elem. exists x. split; [done|]. by apply has_id_true. }
    rewrite <-(update_first_keeps_id i k _ _ (set_delivery_id (delivery_meta st e n))) in Hex.
    apply existsb_elem in Hex as (y & Hy & Hyi%has_id_true). by exists y.
  - intros y [Hy|(z & Hz & _ & ->)]%elem_of_update_first Hyi; [by apply Hall|].
    unfold is_tombstone. rewrite set_delivery_metadata. rewrite set_delivery_id in Hyi.
    by apply Hall.
Qed.

Lemma erase_shielded i index old m l l' :
  messages l !! index = Some old -> cm_message_id m = cm_message_id old ->
  is_tombstone m = true -> replace index m l = Some l' -> shielded i l -> shielded i l'.
Proof.
  intros Hold Hid Ht Hr (He & (x & Hx & Hxi) & Hall). unfold replace in Hr.
  destruct (_ <? _)%nat; [|done]. injection Hr as <-.
  split; [by apply remember_erasure_subset|]. cbn.
  pose proof (lookup_lt_Some _ _ _ Hold) as Hlt. split.
  - apply list_elem_of_lookup in Hx as [k Hk]. destruct (decide (k = index)) as [->|Hne].
    + exists m. split; [|congruence]. apply (list_elem_of_lookup_2 _ index).
      by apply list_lookup_insert_eq.
    + exists x. split; [|done].
      apply (list_elem_of_lookup_2 _ k). by rewrite list_lookup_insert_ne.
  - intros y Hy Hyi. apply list_elem_of_lookup in Hy as [k Hk].
    apply list_lookup_insert_Some in Hk as [(_ & <- & _)|(_ & Hk)]; [done|].
    apply Hall; [by eapply list_elem_of_lookup_2|done].
Qed.

Lemma log_step_shielded i l l' : log_step l l' -> shielded i l -> shielded i l'.
Proof using Type H0.
  destruct 1.
  - apply push_shielded.
  - unfold stamp. by destruct (String.eqb _ _).
  - apply upsert_shielded.
  - apply mark_shielded.
  - by eapply erase_shielded.
Qed.


(** ** The same bytes on every attempt *)

(** What a later attempt of [i] sends is settled when the record is filed. *)
Definition same_send (i : string) (o o' : Outbox) : Prop :=
  (forall a, attempts o !! i = Some a -> exists a', attempts o' !! i = Some a' /\
     publish_payload_b64 a' = publish_payload_b64 a /\ a_sent_at_ms a' = a_sent_at_ms a /\
     ciphertext_bytes a' = ciphertext_bytes a) /\
  (existsb (has_id i) (messages (log o)) = true ->
   existsb (has_id i) (messages (log o')) = true).

Definition frames {A} (i : string) (m : method Outbox LogError A) : Prop :=
  forall o, same_send i o (m o).1.

Lemma same_send_refl i o : same_send i o o.
Proof. split; [|done]. intros a Ha. by exists a. Qed.

Lemma same_send_trans i o1 o2 o3 : same_send i o1 o2 -> same_send i o2 o3 -> same_send i o1 o3.
Proof.
  intros [H1 L1] [H2 L2]. split; [|by auto]. intros a Ha.
  destruct (H1 a Ha) as (a2 & Ha2 & ? & ? & ?). destruct (H2 a2 Ha2) as (a3 & ? & ? & ? & ?).
  exists a3. repeat split; congruence.
Qed.

Lemma frames_bind {A B} i (m : method Outbox LogError A) (f : A -> method Outbox LogError B) :
  frames i m -> (forall a, frames i (f a)) -> frames i (m_bind m f).
Proof.
  intros Hm Hf o. unfold m_bind. specialize (Hm o). destruct (m o) as [o1 [a|e]]; [|done].
  eapply same_send_trans; [exact Hm|apply Hf].
Qed.

Lemma frames_ret {A} i (a : A) : frames i (m_ret a).
Proof. intros o. apply same_send_refl. Qed.

Lemma frames_set_attempt i k f :
  (forall a, publish_payload_b64 (f a) = publish_payload_b64 a /\
     a_sent_at_ms (f a) = a_sent_at_ms a /\ ciphertext_bytes (f a) = ciphertext_bytes a) ->
  forall o, same_send i o (set_attempt k f o).
Proof.
  intros Hf o. split; [|done]. intros a Ha. unfold set_attempt. cbn.
  destruct (decide (k = i)) as [->|Hne].
  - exists (f a). rewrite lookup_alter_eq, Ha. split; [done|]. apply Hf.
  - exists a. by rewrite lookup_alter_ne.
Qed.

Lemma frames_mark i k st e n : frames i (on_log (mark_delivery k st e n)).
Proof using Type H0.
  intros o. unfold on_log, mark_delivery, find_mut. cbn. split; [intros a Ha; by exists a|].
  cbn. rewrite update_first_keeps_id; [done|]. apply set_delivery_id.
Qed.

Lemma frames_sync i k : frames i (sync_message_json k).
Proof.
  intros o. unfold sync_message_json. destruct (_ && _); [apply same_send_refl|].
  destruct (json_for _ _); [|apply same_send_refl]. by apply frames_set_attempt.
Qed.

Lemma frames_reopen i k st : frames i (reopen_as k st).
Proof using Type H0.
  intros o. unfold reopen_as. destruct (attempts o !! k) as [a|] eqn:Ha; [|apply same_send_refl].
  set (a1 := with_status _ _ _). set (o1 := {| log := log o |}).
  assert (H1 : same_send i o o1).
  { split; [|done]. intros b Hb. unfold o1. cbn. rewrite lookup_insert.
    case_decide as Hk; [|by exists b]. subst k. rewrite Hb in Ha. injection Ha as <-.
    by exists a1. }
  destruct (map_err _ _); [|exact H1]. eapply same_send_trans; [exact H1|].
  refine (frames_bind i _ _ _ _ o1); [apply frames_mark|intros _].
  apply frames_bind; [apply frames_sync|intros _; apply frames_ret].
Qed.

Lemma frames_activate i k : frames i (activate_queue k).
Proof using Type H0.
  intros o. unfold activate_queue. destruct (attempts o !! k) as [a|] eqn:Ha; [|apply same_send_refl].
  unfold m_bind at 1. cbn [m_modify].
  eapply same_send_trans; [|refine (frames_bind i _ _ _ _ _); [apply frames_mark|intros _; apply frames_sync]].
  split; [|done]. intros b Hb. cbn. rewrite lookup_insert.
  case_decide as Hk; [|by exists b]. subst k. rewrite Hb in Ha. injection Ha as <-.
  by eexists.
Qed.

Lemma frames_settle i now k outcome on_sent :
  k <> i \/ outcome <> Ok tt \/ on_sent = Retain -> frames i (settle now k outcome on_sent).
Proof using Type H0.
  intros Hk o. unfold settle. destruct outcome as [[]|error].
  - refine (frames_bind i _ _ _ _ o); [apply frames_mark|intros _].
    apply frames_bind; [|intros _; apply frames_ret]. destruct on_sent.
    + intros o'. split; [|done]. intros a Ha. exists a. cbn.
      rewrite lookup_delete_ne; [done|]. by destruct Hk as [?|[[]|?]].
    + apply frames_bind; [|intros _; apply frames_sync]. intros o'. by apply frames_set_attempt.
  - refine (frames_bind i _ _ _ _ o); [intros o'; by apply frames_set_attempt|intros _].
    apply frames_bind; [apply frames_mark|intros _].
    apply frames_bind; [apply frames_sync|intros _; apply frames_ret].
Qed.

Lemma upsert_has_id i m l :
  existsb (has_id i) (messages l) = true -> existsb (has_id i) (messages (upsert m l)) = true.
Proof.
  intros Hex. unfold upsert. cbn.
  assert (Happ : existsb (has_id i) (messages l ++ [m]) = true) by (by rewrite existsb_app, Hex).
  destruct (cm_message_id m) as [k|] eqn:Hk; [|done].
  destruct (existsb (has_id k) (messages l)); [|done].
  clear Happ. induction (messages l) as [|y msgs IH]; cbn in *; [done|].
  destruct (has_id k y) eqn:Hy; cbn in *.
  - destruct (is_tombstone y); [done|]. destruct (has_id i y) eqn:Hi; cbn in Hex; [|by rewrite Hex, orb_true_r].
    apply has_id_true in Hy, Hi. rewrite Hy in Hi. injection Hi as ->.
    by rewrite (proj2 (has_id_true i m) Hk).
  - apply orb_true_iff in Hex as [->|Hex]; [done|]. by rewrite IH, orb_true_r.
Qed.

Lemma frames_file i now m c pl size st :
  default EmptyString (cm_message_id m) <> i -> frames i (file now m c pl size st).
Proof using Type H0.
  intros Hne o. unfold file.
  set (o1 := {| log := upsert m (log o); attempts := attempts o |}).
  assert (H1 : same_send i o o1).
  { split; [intros a Ha; by exists a|]. apply upsert_has_id. }
  pose proof (frames_mark i (default EmptyString (cm_message_id m)) st None 0 o1) as H2.
  destruct (on_log _ o1) as [o2 [u|e]]; cbn in H2; [|by eapply same_send_trans].
  destruct (json_for _ _) as [json|]; [|by eapply same_send_trans].
  eapply same_send_trans; [exact H1|]. eapply same_send_trans; [exact H2|].
  split; [|done]. intros a Ha. exists a. cbn. by rewrite lookup_insert_ne.
Qed.

(** What can happen to the outbox between two attempts of [i]: anything but
    forgetting [i] after the transport took it. *)
Inductive out_step (i : string) : Outbox -> Outbox -> Prop :=
| out_settle now k outcome on_sent o :
    k <> i \/ outcome <> Ok tt \/ on_sent = Retain ->
    out_step i o (settle now k outcome on_sent o).1
| out_reopen k o : out_step i o (reopen k o).1
| out_requeue k o : out_step i o (requeue k o).1
| out_activate k o : out_step i o (activate_queue k o).1
| out_file now m c pl size st o :
    default EmptyString (cm_message_id m) <> i -> out_step i o (file now m c pl size st o).1.

Lemma out_step_same i o o' : out_step i o o' -> same_send i o o'.
Proof using Type H0.
  destruct 1; [by apply frames_settle|apply frames_reopen..|apply frames_activate|by apply frames_file].
Qed.

Lemma find_upsert i m l :
  cm_message_id m = Some i -> existsb (has_id i) (messages (upsert m l)) = true.
Proof.
  intros Hi. unfold upsert. cbn. rewrite Hi.
  destruct (existsb (has_id i) (messages l)) eqn:Hex.
  - clear -Hi Hex. induction (messages l) as [|y msgs IH]; cbn in *; [done|].
    destruct (has_id i y) eqn:Hy; cbn in *; [|by rewrite Hy, IH].
    destruct (is_tombstone y); [by rewrite Hy|]. by rewrite (proj2 (has_id_true i m) Hi).
  - rewrite existsb_app. apply orb_true_iff. right. cbn. by rewrite (proj2 (has_id_true i m) Hi).
Qed.

Lemma mark_total k st e n o :
  existsb (has_id k) (messages (log o)) = true ->
  exists o', on_log (mark_delivery k st e n) o = (o', Ok tt).
Proof. intros Hex. unfold on_log, mark_delivery, find_mut. cbn. rewrite Hex. by eexists. Qed.

Hypothesis to_string_total : forall m, is_ok (to_string m) = true.

Lemma sync_total k o :
  existsb (has_id k) (messages (log o)) = true ->
  exists o', sync_message_json k o = (o', Ok tt).
Proof using Type to_string_total.
  intros [m Hm]%find_existsb. unfold sync_message_json, json_for. rewrite Hm.
  destruct (_ && _); [by eexists|]. pose proof (to_string_total m) as Ht.
  destruct (to_string m); [by eexists|done].
Qed.

Hypothesis b64_roundtrip : forall b, b64_decode (b64_encode b) = Ok b.

(** Every attempt sends the same bytes: after a message is filed, however
    often it is settled, requeued, activated or reopened, and whatever else is
    sent, reopening it succeeds and hands the transport exactly the payload,
    send time and size of the first attempt, with the retry count one up. *)
Theorem reopen_same_payload now i m c pl size st o0 o1 p o2 :
  cm_message_id m = Some i ->
  file now m c pl size st o0 = (o1, Ok p) -> rtc (out_step i) o1 o2 ->
  exists a o3 p', attempts o2 !! i = Some a /\
    reopen i o2 = (o3, Ok p') /\ payload p' = pl /\
    p_sent_at_ms p' = p_sent_at_ms p /\ p_ciphertext_bytes p' = size /\
    p_retry_count p' = saturating_add32 (a_retry_count a) 1.
Proof using Type H0 to_string_total b64_roundtrip.
  intros Hi Hfile Hsteps. unfold file in Hfile. rewrite Hi in Hfile. cbn [default] in Hfile.
  set (ob := {| log := upsert m (log o0); attempts := attempts o0 |}) in Hfile.
  pose proof (frames_mark i i st None 0 ob) as [_ Hl].
  specialize (Hl (find_upsert i m (log o0) Hi)).
  destruct (on_log _ ob) as [o1' [u|e]]; [|done]. cbn in Hl.
  destruct (json_for _ _) as [j|]; [|done]. injection Hfile as <- <-.
  set (o1 := {| log := log o1' |}) in Hsteps.
  assert (Hsame : same_send i o1 o2).
  { clear -Hsteps H0. induction Hsteps as [|o o' o2 Hs _ IH]; [apply same_send_refl|].
    eapply same_send_trans; [by apply out_step_same|done]. }
  destruct Hsame as [Ha Hlog]. specialize (Hlog Hl).
  destruct (Ha _ (lookup_insert_eq _ _ _)) as (a & Ha2 & Hp & Ht & Hs). cbn in Hp, Ht, Hs.
  exists a. unfold reopen, reopen_as. rewrite Ha2. cbn [with_status with_retry
    publish_payload_b64 a_sent_at_ms ciphertext_bytes a_retry_count p_retry_count].
  rewrite Hp, b64_roundtrip. cbn [map_err p_retry_count]. unfold m_bind, m_ret.
  set (ob2 := {| log := log o2 |}).
  destruct (mark_total i Pending None (saturating_add32 (a_retry_count a) 1) ob2 Hlog)
    as (o4 & Hm). rewrite Hm.
  pose proof (frames_mark i i Pending None (saturating_add32 (a_retry_count a) 1) ob2) as [_ Hl4].
  rewrite Hm in Hl4. destruct (sync_total i o4 (Hl4 Hlog)) as (o5 & ->).
  eexists _, _. split; [done|]. split; [reflexivity|]. done.
Qed.

(** ** Message and record agree *)

Lemma mark_spec i st e n o o' u :
  on_log (mark_delivery i st e n) o = (o', Ok u) ->
  attempts o' = attempts o /\ ids (log o') = ids (log o) /\
  exists m, find (has_id i) (messages (log o')) = Some m /\ cm_delivery_status m = Some st.
Proof using Type H0.
  unfold on_log, mark_delivery, find_mut. destruct (existsb _ _) eqn:Hex; [|done].
  intros [= <- _]. split; [done|]. split; [done|]. cbn.
  apply find_existsb in Hex as [m Hm]. rewrite find_update_first, Hm by (apply set_delivery_id).
  eexists. split; [done|]. by rewrite set_delivery_status.
Qed.

Definition json_of (o : Outbox) (i j : string) (a : OutboundAttemptRecord) : Prop :=
  j = message_json a \/ json_for (log o) i = Ok j.

Lemma with_json_same a : with_json (message_json a) a = a.
Proof. by destruct a. Qed.

Lemma sync_spec i o o' u :
  sync_message_json i o = (o', Ok u) ->
  log o' = log o /\ (forall k, k <> i -> attempts o' !! k = attempts o !! k) /\
  forall a, attempts o !! i = Some a ->
    exists j, json_of o' i j a /\ attempts o' !! i = Some (with_json j a).
Proof.
  unfold sync_message_json. destruct (_ && _).
  - intros [= <- _]. split; [done|]. split; [done|]. intros a Ha. exists (message_json a).
    split; [by left|]. by rewrite with_json_same.
  - destruct (json_for _ _) as [j|] eqn:Hj; [|done]. intros [= <- _]. split; [done|]. cbn.
    split; [intros k Hk; by rewrite lookup_alter_ne|]. intros a Ha. exists j.
    split; [by right|]. by rewrite lookup_alter_eq, Ha.
Qed.

(** Settling a send writes one truth in both places: the message's
    delivery status is the outcome handed back, a finished send with nothing
    to wait for is forgotten, one that waits for an acknowledgement is marked
    published with the time of the send, and a failed one keeps its record
    (payload, retry count, publication history) for a retry; no other record
    moves. *)
Theorem settle_spec now i outcome on_sent o o' s a :
  settle now i outcome on_sent o = (o', Ok s) -> attempts o !! i = Some a ->
  (exists m, find (has_id i) (messages (log o')) = Some m /\
     cm_delivery_status m = Some (s_status s)) /\
  (forall k, k <> i -> attempts o' !! k = attempts o !! k) /\
  match outcome, on_sent with
  | Ok _, Forget =>
      s = {| s_status := Sent; s_error := None |} /\ attempts o' !! i = None
  | Ok _, Retain =>
      s = {| s_status := Sent; s_error := None |} /\
      exists j, json_of o' i j a /\ attempts o' !! i =
        Some (with_json j (with_published now (with_status Sent None a)))
  | Err e, _ =>
      s = {| s_status := Failed; s_error := Some e |} /\
      exists j, json_of o' i j a /\ attempts o' !! i =
        Some (with_json j (with_status Failed (Some e) a))
  end.
Proof using Type H0.
  intros Hs Ha. unfold settle in Hs. rewrite Ha in Hs. destruct outcome as [u|e].
  - apply m_bind_Ok in Hs as (o1 & u1 & Hm & Hs).
    apply mark_spec in Hm as (Ha1 & _ & Hst).
    apply m_bind_Ok in Hs as (o2 & u2 & Hs & [= <- <-]). destruct on_sent.
    + injection Hs as <- _. cbn. rewrite Ha1. split; [done|].
      split; [intros k Hk; by rewrite lookup_delete_ne|]. by rewrite lookup_delete_eq.
    + apply m_bind_Ok in Hs as (o3 & u3 & [= <- _] & Hs).
      apply sync_spec in Hs as (Hl & Hk & Hj). cbn in Hl, Hk, Hj.
      rewrite Hl. split; [done|]. split.
      { intros k Hne. rewrite Hk, lookup_alter_ne by done. by rewrite Ha1. }
      split; [done|]. destruct (Hj _ ltac:(by rewrite lookup_alter_eq, Ha1, Ha)) as (j & Hjson & Hat).
      by exists j.
  - apply m_bind_Ok in Hs as (o1 & u1 & [= <- _] & Hs).
    apply m_bind_Ok in Hs as (o2 & u2 & Hm & Hs).
    apply mark_spec in Hm as (Ha1 & _ & Hst).
    apply m_bind_Ok in Hs as (o3 & u3 & Hs & [= <- <-]).
    apply sync_spec in Hs as (Hl & Hk & Hj). rewrite Hl. split; [done|].
    rewrite Ha1 in Hk, Hj. cbn in Hk, Hj. split.
    { intros k Hne. by rewrite Hk, lookup_alter_ne. }
    split; [done|]. destruct (Hj _ ltac:(by rewrite lookup_alter_eq, Ha)) as (j & Hjson & Hat).
    by exists j.
Qed.

(** Requeueing a message leaves message and record apart: the record waits
    as [Queued], the message itself is shown as [Pending]. *)
Theorem requeue_status i o o' p :
  requeue i o = (o', Ok p) ->
  exists a m, attempts o' !! i = Some a /\ a_delivery_status a = Queued /\
    find (has_id i) (messages (log o')) = Some m /\ cm_delivery_status m = Some Pending.
Proof using Type H0.
  unfold requeue, reopen_as. destruct (attempts o !! i) as [a|]; [|done].
  destruct (map_err _ _); [|done]. intros Hs.
  apply m_bind_Ok in Hs as (o1 & u1 & Hm & Hs).
  apply mark_spec in Hm as (Ha1 & _ & Hst).
  apply m_bind_Ok in Hs as (o2 & u2 & Hs & [= <- _]).
  apply sync_spec in Hs as (Hl & _ & Hj). rewrite Ha1 in Hj. cbn in Hj.
  destruct (Hj _ (lookup_insert_eq _ _ _)) as (j & _ & Hat).
  destruct Hst as (m & Hm & Hd). rewrite Hl. by eexists _, m.
Qed.
End Log.

(** ** The group's message type ([private_group_runtime.rs]) *)

Record VoiceMeta := { duration_ms : N; peaks_b64 : string }.

Record AttachmentDescriptor := {
  attachment_id : string;
  d_content_hash : string;
  file_name : string;
  mime : string;
  total_size : N;
  thumbnail_b64 : option string;
  voice : option VoiceMeta;
}.

Record GroupMessage := {
  metadata : option MessageMetadata;
  from_device : string;
  from_fingerprint : string;
  body : string;
  message_id : option string;
  sent_at_ms : option N;
  attachment : option AttachmentDescriptor;
  g_delivery : MessageDeliveryMeta;   (** the four delivery fields, in order *)
  name_change : option string;
}.

Definition no_delivery : MessageDeliveryMeta :=
  {| delivery_status := None; delivery_error := None; retryable := None; retry_count := None |}.

#[export] Instance group_message : ConversationMessage GroupMessage := {|
  cm_metadata := metadata;
  cm_set_metadata md m := {| metadata := md; from_device := from_device m;
    from_fingerprint := from_fingerprint m; body := body m; message_id := message_id m;
    sent_at_ms := sent_at_ms m; attachment := attachment m; g_delivery := g_delivery m;
    name_change := name_change m |};
  cm_erase_content m := {| metadata := metadata m; from_device := from_device m;
    from_fingerprint := from_fingerprint m; body := EmptyString; message_id := message_id m;
    sent_at_ms := sent_at_ms m; attachment := None; g_delivery := no_delivery;
    name_change := None |};
  cm_message_id := message_id;
  cm_set_message_id i m := {| metadata := metadata m; from_device := from_device m;
    from_fingerprint := from_fingerprint m; body := body m; message_id := Some i;
    sent_at_ms := sent_at_ms m; attachment := attachment m; g_delivery := g_delivery m;
    name_change := name_change m |};
  cm_sent_at_ms := sent_at_ms;
  cm_set_sent_at_ms t m := {| metadata := metadata m; from_device := from_device m;
    from_fingerprint := from_fingerprint m; body := body m; message_id := message_id m;
    sent_at_ms := Some t; attachment := attachment m; g_delivery := g_delivery m;
    name_change := name_change m |};
  cm_body := body;
  cm_author := from_fingerprint;
  cm_set_delivery d m := {| metadata := metadata m; from_device := from_device m;
    from_fingerprint := from_fingerprint m; body := body m; message_id := message_id m;
    sent_at_ms := sent_at_ms m; attachment := attachment m; g_delivery := d;
    name_change := name_change m |};
  cm_delivery_status m := delivery_status (g_delivery m);
|}.

#[export] Instance group_message_laws : ConversationMessageLaws GroupMessage.
Proof. by split. Qed.

(** ** Witnesses *)

Definition text (i b : string) : GroupMessage :=
  {| metadata := None; from_device := "d"; from_fingerprint := "fp"; body := b;
     message_id := Some i; sent_at_ms := Some 5%N; attachment := None;
     g_delivery := no_delivery; name_change := None |}.
Definition tombstone (i : string) : GroupMessage :=
  cm_set_metadata (Some {| origin := None; deletion := Some {| scope := ForEveryone;
      status := Confirmed; administrator := None |}; deletion_key := None;
      personal_correlation := None; can_delete_for_everyone := false; local_only := false;
      is_own := None |}) (cm_erase_content (text i "secret")).

Definition one_message : @MessageLog GroupMessage := push (text "a" "secret") default_log.
Definition erased_log : @MessageLog GroupMessage :=
  default default_log (replace 0 (tombstone "a") one_message).


Definition show (m : GroupMessage) : result string string := Ok (body m).
Definition toy_encode (b : bytes) : string := String.string_of_list_byte b.
Definition toy_decode (s : string) : result string bytes := Ok (String.list_byte_of_string s).
Lemma toy_payload_roundtrip b : toy_decode (toy_encode b) = Ok b.
Proof. unfold toy_decode, toy_encode. by rewrite String.list_byte_of_string_of_list_byte. Qed.

Definition empty_outbox : @Outbox GroupMessage := {| log := default_log; attempts := ∅ |}.
Definition filed := file show toy_encode 9 (text "a" "hi") "conv" [x01; x02] 2 Pending empty_outbox.
Definition failed_twice : @Outbox GroupMessage :=
  let o := (settle show 10 "a" (Err "down") Forget filed.1).1 in
  (requeue show toy_decode "a" o).1.

Lemma reopen_same_payload_witness :
  exists a o3 p', attempts failed_twice !! "a" = Some a /\
    reopen show toy_decode "a" failed_twice = (o3, Ok p') /\ payload p' = [x01; x02] /\
    p_sent_at_ms p' = 5%N /\ p_ciphertext_bytes p' = 2%N /\
    p_retry_count p' = saturating_add32 (a_retry_count a) 1.
Proof.
  refine (reopen_same_payload show toy_encode toy_decode (fun _ => eq_refl) toy_payload_roundtrip
    9 "a" (text "a" "hi") "conv" [x01; x02] 2 Pending empty_outbox filed.1
    {| p_message_id := "a"; p_sent_at_ms := 5; p_ciphertext_bytes := 2; p_retry_count := 0;
       payload := [x01; x02] |} failed_twice eq_refl _ _).
  - vm_compute. reflexivity.
  - eapply rtc_l; [|eapply rtc_l; [|apply rtc_refl]].
    + apply (out_settle show toy_encode toy_decode "a" 10 "a" (Err "down") Forget). auto.
    + apply out_requeue.
Defined.

Lemma settle_spec_witness :
  (settle show 10 "a" (Err "down") Retain filed.1).2 =
    Ok {| s_status := Failed; s_error := Some "down" |} /\
  exists m, find (has_id "a") (messages (log (settle show 10 "a" (Err "down") Retain filed.1).1))
              = Some m /\ cm_delivery_status m = Some Failed.
Proof.
  split; [vm_compute; reflexivity|].
  destruct (attempts filed.1 !! "a") as [a|] eqn:Ha; [|vm_compute in Ha; discriminate].
  refine (proj1 (settle_spec show 10 "a" (Err "down") Retain filed.1 _
    {| s_status := Failed; s_error := Some "down" |} a _ Ha)).
  apply surjective_pairing_eq. vm_compute. reflexivity.
Defined.

Lemma requeue_status_witness :
  exists a m, attempts (requeue show toy_decode "a" filed.1).1 !! "a" = Some a /\
    a_delivery_status a = Queued /\
    find (has_id "a") (messages (log (requeue show toy_decode "a" filed.1).1)) = Some m /\
    cm_delivery_status m = Some Pending.
Proof.
  refine (requeue_status show toy_decode "a" filed.1 _
    {| p_message_id := "a"; p_sent_at_ms := 5; p_ciphertext_bytes := 2; p_retry_count := 1;
       payload := [x01; x02] |} _).
  apply surjective_pairing_eq. vm_compute. reflexivity.
Defined.
End Messages.
