(* ===== verification/Attachments.v ===== *)
(** * Attachments: chunked encrypted transfers ([attachment_crypto.rs],
      [attachment_runtime.rs] and its [incoming], [outgoing], [requests] and
      [stream_range] modules)

    A file is cut into chunks, each sealed under the transfer's key and a nonce
    of its index.  The receiver asks for chunks in bounded windows, takes them
    in any order, checks the length of each and the hash of the whole, and a
    player can read a range while the download runs.  AES-GCM, SHA-256 and
    base64 are section variables; an [Instant] is a number of nanoseconds. *)
From S2P Require Import Prelude Store Messages.
Import Store Messages.

Module Attachments.

(** ** Chunk encryption ([attachment_crypto.rs]) *)

Definition ATTACHMENT_KEY_LEN : nat := 32.
Definition ATTACHMENT_NONCE_PREFIX_LEN : nat := 4.

Inductive AttachmentCryptoError :=
| Encrypt (e : string) | Decrypt (e : string) | InvalidKey | InvalidNoncePrefix.

Definition display_crypto (e : AttachmentCryptoError) : string :=
  match e with
  | Encrypt e => "attachment encrypt failed: " +:+ e
  | Decrypt e => "attachment decrypt failed: " +:+ e
  | InvalidKey => "attachment key must be 32 bytes"
  | InvalidNoncePrefix => "attachment nonce prefix must be 4 bytes"
  end.

Definition byte_of (n : N) : Byte.byte := default x00 (Byte.of_N (n mod 256)).

(** [u64::to_be_bytes]. *)
Definition to_be_bytes (n : N) : bytes :=
  map (fun i => byte_of (N.shiftr n (8 * i))) [7; 6; 5; 4; 3; 2; 1; 0]%N.

Definition build_nonce (prefix : bytes) (chunk_index : N) : result AttachmentCryptoError bytes :=
  if negb (length prefix =? ATTACHMENT_NONCE_PREFIX_LEN)%nat then Err InvalidNoncePrefix
  else Ok (prefix ++ to_be_bytes chunk_index).

(** ** Data ([attachment_runtime.rs]) *)

Definition CHUNK_SIZE : N := 4096.
Definition MAX_ATTACHMENT_SIZE : N := 52428800.
Definition MAX_THUMBNAIL_B64 : N := 32768.
Definition REQUEST_WINDOW_BYTES : N := 2097152.
Definition MAX_REQUEST_BATCH : N := 256.
Definition CHUNK_REQUEST_TIMEOUT : N := 10000000000.

Definition request_batch (chunk_size : N) : N :=
  N.min (N.max 1 (REQUEST_WINDOW_BYTES / N.max chunk_size 1)) MAX_REQUEST_BATCH.

Inductive AttachmentRuntimeError :=
| TooLarge (size : N) | Empty | Crypto (e : string) | UnknownTransfer (id : string)
| DuplicateTransfer (id : string) | ManifestMismatch (detail : string) | Codec (e : string).

Definition of_crypto (e : AttachmentCryptoError) : AttachmentRuntimeError :=
  Crypto (display_crypto e).

Record AttachmentManifest := {
  m_origin : option MessageOrigin;
  attachment_id : string;
  content_hash : string;
  file_name : string;
  mime : string;
  total_size : N;
  chunk_size : N;
  chunk_count : N;
  key_b64 : string;
  nonce_prefix_b64 : string;
  m_thumbnail_b64 : option string;
  m_voice : option VoiceMeta;
  from_fingerprint : string;
}.

Record OutgoingAttachment := {
  oa_attachment_id : string;
  oa_file_name : string;
  oa_mime : string;
  oa_from_fingerprint : string;
  oa_bytes : bytes;
  oa_thumbnail_b64 : option string;
  oa_voice : option VoiceMeta;
}.

(** The request's optional [execution] proof does not enter serving. *)
Record ChunkRequest := { cr_attachment_id : string; chunk_indices : list N }.
Record ChunkFrame := { cf_attachment_id : string; chunk_index : N; ciphertext_b64 : string }.

Inductive TransferState := Active | Complete | Cancelled | Failed.
#[export] Instance TransferState_eq_dec : EqDecision TransferState.
Proof. solve_decision. Defined.

Record TransferProgress := {
  tp_attachment_id : string;
  tp_file_name : string;
  tp_total_size : N;
  tp_chunk_count : N;
  completed_chunks : N;
  tp_state : TransferState;
}.

Inductive ChunkOutcome :=
| Progress (p : TransferProgress)
| CompleteO (attachment_id content_hash : string) (b : bytes)
| Duplicate
| Unknown.

Inductive StreamRange :=
| Ready (b : bytes) (total_size : N) (mime : string)
| PendingS (total_size : N)
| UnknownS.

Record OutgoingTransfer := {
  o_manifest : AttachmentManifest;
  plaintext : bytes;
  o_key : bytes;
  o_nonce_prefix : bytes;
  served_chunks : gmap N N;
  o_state : TransferState;
}.

Record IncomingTransfer := {
  manifest : AttachmentManifest;
  key : bytes;
  nonce_prefix : bytes;
  chunks : gmap N bytes;
  state : TransferState;
  download_started : bool;
  request_cursor : N;
  requested_at : gmap N N;
  priority_chunk : option N;
}.

Record AttachmentRuntime := {
  outgoing : gmap string OutgoingTransfer;
  incoming : gmap string IncomingTransfer;
}.

Definition new_runtime : AttachmentRuntime := {| outgoing := ∅; incoming := ∅ |}.

Definition o_set_state (s : TransferState) (t : OutgoingTransfer) : OutgoingTransfer :=
  {| o_manifest := o_manifest t; plaintext := plaintext t; o_key := o_key t;
     o_nonce_prefix := o_nonce_prefix t; served_chunks := served_chunks t; o_state := s |}.
Definition set_state (s : TransferState) (t : IncomingTransfer) : IncomingTransfer :=
  {| manifest := manifest t; key := key t; nonce_prefix := nonce_prefix t; chunks := chunks t;
     state := s; download_started := download_started t; request_cursor := request_cursor t;
     requested_at := requested_at t; priority_chunk := priority_chunk t |}.
Definition set_chunks (c : gmap N bytes) (t : IncomingTransfer) : IncomingTransfer :=
  {| manifest := manifest t; key := key t; nonce_prefix := nonce_prefix t; chunks := c;
     state := state t; download_started := download_started t;
     request_cursor := request_cursor t; requested_at := requested_at t;
     priority_chunk := priority_chunk t |}.
Definition set_requests (cursor : N) (req : gmap N N) (prio : option N) (t : IncomingTransfer)
  : IncomingTransfer :=
  {| manifest := manifest t; key := key t; nonce_prefix := nonce_prefix t; chunks := chunks t;
     state := state t; download_started := download_started t; request_cursor := cursor;
     requested_at := req; priority_chunk := prio |}.
Definition set_started (t : IncomingTransfer) : IncomingTransfer :=
  {| manifest := manifest t; key := key t; nonce_prefix := nonce_prefix t; chunks := chunks t;
     state := state t; download_started := true; request_cursor := request_cursor t;
     requested_at := requested_at t; priority_chunk := priority_chunk t |}.

Definition put_incoming (i : string) (t : IncomingTransfer) (r : AttachmentRuntime)
  : AttachmentRuntime := {| outgoing := outgoing r; incoming := <[i := t]> (incoming r) |}.
Definition put_outgoing (i : string) (t : OutgoingTransfer) (r : AttachmentRuntime)
  : AttachmentRuntime := {| outgoing := <[i := t]> (outgoing r); incoming := incoming r |}.

(** ** Bookkeeping *)

Definition manifest_of (r : AttachmentRuntime) (i : string) : option AttachmentManifest :=
  match outgoing r !! i with
  | Some t => Some (o_manifest t)
  | None => manifest <$> incoming r !! i
  end.

Definition served_count (r : AttachmentRuntime) (i : string) (index : N) : N :=
  default 0%N (t ← outgoing r !! i; served_chunks t !! index).

Definition cancel (i : string) (r : AttachmentRuntime) : AttachmentRuntime :=
  {| outgoing := alter (fun t => if decide (o_state t = Active) then o_set_state Cancelled t else t)
                   i (outgoing r);
     incoming := alter (fun t => if decide (state t = Active) then set_state Cancelled t else t)
                   i (incoming r) |}.

Definition fail_incoming (i : string) (r : AttachmentRuntime) : AttachmentRuntime :=
  {| outgoing := outgoing r; incoming := alter (set_state Failed) i (incoming r) |}.

Definition forget (i : string) (r : AttachmentRuntime) : AttachmentRuntime :=
  {| outgoing := delete i (outgoing r); incoming := delete i (incoming r) |}.

Definition progress_of (m : AttachmentManifest) (completed : N) (s : TransferState)
  : TransferProgress :=
  {| tp_attachment_id := attachment_id m; tp_file_name := file_name m;
     tp_total_size := total_size m; tp_chunk_count := chunk_count m;
     completed_chunks := completed; tp_state := s |}.

Definition outgoing_progress (r : AttachmentRuntime) (i : string) : option TransferProgress :=
  (fun t => progress_of (o_manifest t) (N.of_nat (size (served_chunks t))) (o_state t))
    <$> outgoing r !! i.
Definition incoming_progress (r : AttachmentRuntime) (i : string) : option TransferProgress :=
  (fun t => progress_of (manifest t) (N.of_nat (size (chunks t))) (state t)) <$> incoming r !! i.

(** [checked_mul] of [u64]; past it the slice is in bounds. *)
Definition chunk_slice (pt : bytes) (index cs : N) : option bytes :=
  let start := (index * cs)%N in
  if (u64_max <? start)%N then None
  else if (N.of_nat (length pt) <=? start)%N then None
  else let stop := N.min (start + cs) (N.of_nat (length pt)) in
       Some (take (N.to_nat (stop - start)) (drop (N.to_nat start) pt)).

Definition held (t : IncomingTransfer) (index : N) : bool :=
  bool_decide (is_Some (chunks t !! index)).

Definition resume_outgoing (i : string) (r : AttachmentRuntime) : AttachmentRuntime :=
  {| outgoing := alter (o_set_state Active) i (outgoing r); incoming := incoming r |}.

(** ** Cutting and joining *)

Lemma chunk_slice_spec pt index cs :
  is_u64 (N.of_nat (length pt)) ->
  chunk_slice pt index cs =
    if (index * cs <? N.of_nat (length pt))%N then Some (piece pt cs index) else None.
Proof.
  unfold is_u64, chunk_slice, piece. intros Hl.
  destruct (N.ltb_spec (index * cs) (N.of_nat (length pt))) as [Hlt|Hge].
  - rewrite (proj2 (N.ltb_ge _ _)), (proj2 (N.leb_gt _ _)) by lia. f_equal.
    set (s := (index * cs)%N) in *. destruct (N.leb_spec (s + cs) (N.of_nat (length pt))).
    + f_equal. lia.
    + rewrite !take_ge; [done|rewrite length_drop; lia..].
  - destruct (N.ltb_spec u64_max (index * cs)); [done|]. by rewrite (proj2 (N.leb_le _ _)).
Qed.

Lemma div_bounds a b : (b <> 0)%N -> (a / b * b <= a < a / b * b + b)%N.
Proof.
  intros Hb. pose proof (N.div_mod a b Hb) as H1. pose proof (N.mod_lt a b Hb) as H2.
  revert H1 H2. generalize (a / b)%N (a mod b)%N. intros q m -> Hm. lia.
Qed.

Section Transfers.
Variable aes_encrypt aes_decrypt : bytes -> bytes -> bytes -> result string bytes.
Variable sha256 : bytes -> bytes.
Variable b64_encode : bytes -> string.
Variable b64_decode : string -> result string bytes.
#[local] Set Default Proof Using "Type".

Definition sha256_hex (b : bytes) : string := hex_string (sha256 b).

Definition encrypt_chunk (k prefix : bytes) (index : N) (pt : bytes)
  : result AttachmentCryptoError bytes :=
  _ ← guard_or (length k =? ATTACHMENT_KEY_LEN)%nat InvalidKey;
  nonce ← build_nonce prefix index;
  map_err Encrypt (aes_encrypt k nonce pt).

Definition decrypt_chunk (k prefix : bytes) (index : N) (ct : bytes)
  : result AttachmentCryptoError bytes :=
  _ ← guard_or (length k =? ATTACHMENT_KEY_LEN)%nat InvalidKey;
  nonce ← build_nonce prefix index;
  map_err Decrypt (aes_decrypt k nonce ct).

Definition decode_fixed (n : nat) (s : string) : option bytes :=
  b ← res_ok (b64_decode s); if (length b =? n)%nat then Some b else None.

Definition manifest_keys (m : AttachmentManifest)
  : result AttachmentRuntimeError (bytes * bytes) :=
  k ← ok_or (decode_fixed ATTACHMENT_KEY_LEN (key_b64 m)) (ManifestMismatch "key");
  n ← ok_or (decode_fixed ATTACHMENT_NONCE_PREFIX_LEN (nonce_prefix_b64 m))
        (ManifestMismatch "nonce prefix");
  Ok (k, n).

(** *** Serving ([outgoing.rs]); [new_key] and [new_prefix] are the OS draws *)

Definition prepare_outgoing (new_key new_prefix : bytes) (request : OutgoingAttachment)
  : method AttachmentRuntime AttachmentRuntimeError AttachmentManifest := fun r =>
  let total := N.of_nat (length (oa_bytes request)) in
  if (length (oa_bytes request) =? 0)%nat then (r, Err Empty)
  else if (MAX_ATTACHMENT_SIZE <? total)%N then (r, Err (TooLarge total))
  else if bool_decide (is_Some (outgoing r !! oa_attachment_id request))
  then (r, Err (DuplicateTransfer (oa_attachment_id request)))
  else
    let m := {| m_origin := None; attachment_id := oa_attachment_id request;
      content_hash := sha256_hex (oa_bytes request); file_name := oa_file_name request;
      mime := oa_mime request; total_size := total; chunk_size := CHUNK_SIZE;
      chunk_count := div_ceil total CHUNK_SIZE; key_b64 := b64_encode new_key;
      nonce_prefix_b64 := b64_encode new_prefix;
      m_thumbnail_b64 := match oa_thumbnail_b64 request with
        | Some thumb => if (str_len thumb <=? MAX_THUMBNAIL_B64)%N then Some thumb else None
        | None => None
        end;
      m_voice := oa_voice request; from_fingerprint := oa_from_fingerprint request |} in
    (put_outgoing (oa_attachment_id request)
       {| o_manifest := m; plaintext := oa_bytes request; o_key := new_key;
          o_nonce_prefix := new_prefix; served_chunks := ∅; o_state := Active |} r,
     Ok m).

(** The [for] loop: what was served before a failing chunk stays counted. *)
Fixpoint serve_loop (i : string) (indices : list N)
  : method OutgoingTransfer AttachmentRuntimeError (list ChunkFrame) := fun t =>
  match indices with
  | [] => (t, Ok [])
  | index :: indices =>
      match chunk_slice (plaintext t) index (chunk_size (o_manifest t)) with
      | None => serve_loop i indices t
      | Some slice =>
          match encrypt_chunk (o_key t) (o_nonce_prefix t) index slice with
          | Err e => (t, Err (of_crypto e))
          | Ok ct =>
              let count := default 0%N (served_chunks t !! index) in
              let t := {| o_manifest := o_manifest t; plaintext := plaintext t;
                o_key := o_key t; o_nonce_prefix := o_nonce_prefix t;
                served_chunks := <[index := as_u32 (count + 1)]> (served_chunks t);
                o_state := o_state t |} in
              let '(t, rest) := serve_loop i indices t in
              (t, frames ← rest;
                  Ok ({| cf_attachment_id := i; chunk_index := index;
                         ciphertext_b64 := b64_encode ct |} :: frames))
          end
      end
  end.

Definition serve_chunks (request : ChunkRequest)
  : method AttachmentRuntime AttachmentRuntimeError (list ChunkFrame) := fun r =>
  let i := cr_attachment_id request in
  match outgoing r !! i with
  | None => (r, Err (UnknownTransfer i))
  | Some t =>
      if decide (o_state t = Active) then
        let '(t', frames) := serve_loop i
          (take (N.to_nat (request_batch (chunk_size (o_manifest t)))) (chunk_indices request)) t in
        (put_outgoing i t' r, frames)
      else (r, Ok [])
  end.

Definition restore_outgoing (m : AttachmentManifest) (b : bytes)
  : method AttachmentRuntime AttachmentRuntimeError unit := fun r =>
  if bool_decide (is_Some (outgoing r !! attachment_id m))
  then (r, Err (DuplicateTransfer (attachment_id m)))
  else if negb (N.of_nat (length b) =? total_size m)%N
          || negb (String.eqb (sha256_hex b) (content_hash m))
          || (chunk_size m =? 0)%N
          || negb (div_ceil (total_size m) (chunk_size m) =? chunk_count m)%N
  then (r, Err (ManifestMismatch "restored outgoing file"))
  else match manifest_keys m with
  | Err e => (r, Err e)
  | Ok (k, n) =>
      (put_outgoing (attachment_id m)
         {| o_manifest := m; plaintext := b; o_key := k; o_nonce_prefix := n;
            served_chunks := ∅; o_state := Active |} r, Ok tt)
  end.

(** *** Receiving ([incoming.rs]) *)

Definition register_incoming (m : AttachmentManifest)
  : method AttachmentRuntime AttachmentRuntimeError unit := fun r =>
  if bool_decide (is_Some (incoming r !! attachment_id m))
  then (r, Err (DuplicateTransfer (attachment_id m)))
  else match manifest_keys m with
  | Err e => (r, Err e)
  | Ok (k, n) =>
      if (total_size m =? 0)%N || (chunk_size m =? 0)%N || (MAX_ATTACHMENT_SIZE <? total_size m)%N
      then (r, Err (ManifestMismatch "size or chunk_size"))
      else if negb (div_ceil (total_size m) (chunk_size m) =? chunk_count m)%N
      then (r, Err (ManifestMismatch "chunk_count"))
      else (put_incoming (attachment_id m)
              {| manifest := m; key := k; nonce_prefix := n; chunks := ∅; state := Active;
                 download_started := false; request_cursor := 0; requested_at := ∅;
                 priority_chunk := None |} r, Ok tt)
  end.

Definition start_download (i : string)
  : method AttachmentRuntime AttachmentRuntimeError unit := fun r =>
  match incoming r !! i with
  | None => (r, Err (UnknownTransfer i))
  | Some t =>
      let t1 :=
        if bool_decide (state t = Cancelled) || bool_decide (state t = Failed)
        then set_requests 0 ∅ None (set_state Active
               (if decide (state t = Failed) then set_chunks ∅ t else t))
        else t in
      (put_incoming i (set_started t1) r, Ok tt)
  end.

Definition complete (i : string) (t : IncomingTransfer)
  : IncomingTransfer * result AttachmentRuntimeError ChunkOutcome :=
  let assembled := concat (btree_values N.le (chunks t)) in
  let len := N.of_nat (length assembled) in
  if negb (len =? total_size (manifest t))%N
  then (set_state Failed t, Err (ManifestMismatch
          ("size " +:+ format_u64 1 len +:+ " != " +:+ format_u64 1 (total_size (manifest t)))))
  else
    let actual_hash := sha256_hex assembled in
    if negb (String.eqb actual_hash (content_hash (manifest t)))
    then (set_state Failed t, Err (ManifestMismatch
            ("content hash " +:+ actual_hash +:+ " != " +:+ content_hash (manifest t))))
    else (set_state Complete t, Ok (CompleteO i actual_hash assembled)).

Definition ingest_chunk (frame : ChunkFrame)
  : method AttachmentRuntime AttachmentRuntimeError ChunkOutcome := fun r =>
  let i := cf_attachment_id frame in
  match incoming r !! i with
  | None => (r, Ok Unknown)
  | Some t =>
      if decide (state t <> Active) then (r, Ok Duplicate)
      else if (chunk_count (manifest t) <=? chunk_index frame)%N then (r, Ok Unknown)
      else if held t (chunk_index frame) then (r, Ok Duplicate)
      else match b64_decode (ciphertext_b64 frame) with
      | Err _ => (r, Err (Codec "chunk base64"))
      | Ok ct =>
          match decrypt_chunk (key t) (nonce_prefix t) (chunk_index frame) ct with
          | Err e => (r, Err (of_crypto e))
          | Ok pt =>
              let start := (chunk_index frame * chunk_size (manifest t))%N in
              let expected := N.min (chunk_size (manifest t)) (total_size (manifest t) - start) in
              if negb (N.of_nat (length pt) =? expected)%N
              then (put_incoming i (set_state Failed t) r, Err (ManifestMismatch "chunk length"))
              else
                let t := set_chunks (<[chunk_index frame := pt]> (chunks t)) t in
                if negb (N.of_nat (size (chunks t)) =? chunk_count (manifest t))%N
                then (put_incoming i t r, Ok (Progress
                        (progress_of (manifest t) (N.of_nat (size (chunks t))) Active)))
                else let '(t, outcome) := complete i t in (put_incoming i t r, outcome)
          end
      end
  end.

(** *** Requesting ([requests.rs]) *)

Definition in_flight (now : N) (t : IncomingTransfer) : nat :=
  if download_started t && bool_decide (state t = Active)
  then size (filter (fun '(index, sent) =>
               negb (held t index) && (now - sent <? CHUNK_REQUEST_TIMEOUT)%N = true)
             (requested_at t))
  else 0.

Definition available_request_slots_at (now : N) (r : AttachmentRuntime) : N :=
  MAX_REQUEST_BATCH
  - N.of_nat (sum_list_with (fun it => in_flight now it.2) (map_to_list (incoming r))).

Definition wanted (t : IncomingTransfer) (now index : N) : bool :=
  negb (held t index)
  && match requested_at t !! index with
     | None => true
     | Some sent => (CHUNK_REQUEST_TIMEOUT <=? now - sent)%N
     end.

Definition wanted_in (t : IncomingTransfer) (now a b : N) : list N :=
  filter (fun index => wanted t now index = true) (range a b).

Definition request_indices (now batch : N) (t : IncomingTransfer) : IncomingTransfer * list N :=
  let count := chunk_count (manifest t) in
  let '(t, prioritised) :=
    match priority_chunk t with
    | Some priority =>
        let indices := take (N.to_nat batch) (wanted_in t now priority count) in
        (if forallb (held t) (range priority count)
         then set_requests (request_cursor t) (requested_at t) None t else t, indices)
    | None => (t, [])
    end in
  if negb (bool_decide (prioritised = [])) then (t, prioritised)
  else
    let gaps := take (N.to_nat batch) (wanted_in t now 0 (request_cursor t)) in
    if negb (bool_decide (gaps = [])) then (t, gaps)
    else
      let stop := N.min (request_cursor t + batch) count in
      (set_requests stop (requested_at t) (priority_chunk t) t,
       wanted_in t now (request_cursor t) stop).

Definition next_chunk_request_with_budget_at (i : string) (now budget : N) (r : AttachmentRuntime)
  : AttachmentRuntime * option ChunkRequest :=
  let budget := N.min budget (available_request_slots_at now r) in
  match incoming r !! i with
  | None => (r, None)
  | Some t =>
      if (budget =? 0)%N || negb (download_started t) || negb (bool_decide (state t = Active))
      then (r, None)
      else
        let '(t, indices) := request_indices now
          (N.min budget (request_batch (chunk_size (manifest t)))) t in
        if bool_decide (indices = []) then (put_incoming i t r, None)
        else (put_incoming i (set_requests (request_cursor t)
                (foldl (fun m index => <[index := now]> m) (requested_at t) indices)
                (priority_chunk t) t) r,
              Some {| cr_attachment_id := i; chunk_indices := indices |})
  end.

Definition next_chunk_request_at (i : string) (now : N) (r : AttachmentRuntime) :=
  next_chunk_request_with_budget_at i now MAX_REQUEST_BATCH r.

Definition pending_chunk_indices (i : string) (r : AttachmentRuntime)
  : result AttachmentRuntimeError (list N) :=
  match incoming r !! i with
  | None => Err (UnknownTransfer i)
  | Some t =>
      if decide (state t = Active)
      then Ok (take (N.to_nat (request_batch (chunk_size (manifest t))))
                 (filter (fun index => held t index = false) (range 0 (chunk_count (manifest t)))))
      else Ok []
  end.

(** *** Playback ([stream_range.rs]) *)

Definition stream_range (i : string) (start stop : N) (r : AttachmentRuntime)
  : AttachmentRuntime * StreamRange :=
  match incoming r !! i with
  | None => (r, UnknownS)
  | Some t =>
      let t := set_started t in
      let total := total_size (manifest t) in
      let mime := mime (manifest t) in
      if (total =? 0)%N || (total <=? start)%N then (put_incoming i t r, Ready [] total mime)
      else
        let stop := N.max (N.min stop total) start in
        let chunk := chunk_size (manifest t) in
        let first := (start / chunk)%N in
        let last := if (start <? stop)%N then ((stop - 1) / chunk)%N else first in
        match find (fun index => negb (held t index)) (range first (last + 1)) with
        | Some index =>
            (put_incoming i (set_requests (request_cursor t) (requested_at t) (Some index) t) r,
             PendingS total)
        | None =>
            let assembled := concat (map (fun index => default [] (chunks t !! index))
                                       (range first (last + 1))) in
            let offset := N.to_nat (start - first * chunk) in
            let span := N.to_nat (stop - start) in
            let e := Nat.min (offset + span) (length assembled) in
            let slice := if (offset <=? e)%nat then drop offset (take e assembled) else [] in
            (put_incoming i t r, Ready slice total mime)
        end
  end.

(** ** Delivery in any order *)

Hypothesis aes_roundtrip : forall k n p c, aes_encrypt k n p = Ok c -> aes_decrypt k n c = Ok p.
Hypothesis b64_roundtrip : forall b, b64_decode (b64_encode b) = Ok b.

Lemma decrypt_encrypt_chunk k pre i p c :
  encrypt_chunk k pre i p = Ok c -> decrypt_chunk k pre i c = Ok p.
Proof using Type aes_roundtrip.
  unfold encrypt_chunk, decrypt_chunk. intros ([] & -> & H)%bind_Ok.
  apply bind_Ok in H as (n & -> & H). apply map_err_Ok, aes_roundtrip in H. cbn. by rewrite H.
Qed.

Section Genuine.
Variable m : AttachmentManifest.
Variable pt k pre : bytes.
Notation cs := (chunk_size m).
Notation piece_at := (piece pt cs).

(** A frame the sender of this file could have produced. *)
Definition genuine_frame (f : ChunkFrame) : Prop :=
  cf_attachment_id f = attachment_id m /\ (chunk_index f < chunk_count m)%N /\
  exists ct, encrypt_chunk k pre (chunk_index f) (piece_at (chunk_index f)) = Ok ct /\
    ciphertext_b64 f = b64_encode ct.

Definition receiving (t : IncomingTransfer) : Prop :=
  manifest t = m /\ key t = k /\ nonce_prefix t = pre /\
  forall i c, chunks t !! i = Some c -> (i < chunk_count m)%N /\ c = piece_at i.

Lemma keys_bound t : receiving t ->
  dom (chunks t) ⊆ (list_to_set (range 0 (chunk_count m)) : gset N).
Proof.
  intros (_ & _ & _ & Hc) i [c Hi]%elem_of_dom.
  apply elem_of_list_to_set, elem_of_range. apply Hc in Hi as [? _]. lia.
Qed.

Lemma range_size : size (list_to_set (range 0 (chunk_count m)) : gset N) = N.to_nat (chunk_count m).
Proof.
  rewrite size_list_to_set by apply range_NoDup. unfold range.
  rewrite length_map, length_seq. lia.
Qed.

(** With as many chunks as the manifest counts, none is missing. *)
Lemma full_chunks t i : receiving t -> N.of_nat (size (chunks t)) = chunk_count m ->
  (i < chunk_count m)%N -> chunks t !! i = Some (piece_at i).
Proof.
  intros Hr Hs Hi. pose proof (keys_bound t Hr) as Hsub.
  assert (Heq : dom (chunks t) = (list_to_set (range 0 (chunk_count m)) : gset N)).
  { apply leibniz_equiv, set_subseteq_size_equiv; [done|].
    rewrite range_size. pose proof (size_dom (D := gset N) (chunks t)). lia. }
  assert (Hin : i ∈ dom (chunks t)).
  { rewrite Heq. apply elem_of_list_to_set, elem_of_range. lia. }
  apply elem_of_dom in Hin as [c Hc]. rewrite Hc. f_equal.
  by apply Hr in Hc as [_ ->].
Qed.

Hypothesis size_ok : total_size m = N.of_nat (length pt).
Hypothesis cs_pos : (chunk_size m <> 0)%N.
Hypothesis count_ok : chunk_count m = div_ceil (total_size m) (chunk_size m).
Hypothesis hash_ok : content_hash m = sha256_hex pt.

Lemma piece_length i : (i < chunk_count m)%N ->
  N.of_nat (length (piece_at i)) = N.min cs (total_size m - i * cs).
Proof using Type size_ok cs_pos count_ok.
  rewrite count_ok, div_ceil_spec by done. intros Hi. unfold piece.
  rewrite length_take, length_drop, size_ok. lia.
Qed.

Lemma full_concat t : receiving t -> N.of_nat (size (chunks t)) = chunk_count m ->
  concat (btree_values N.le (chunks t)) = pt.
Proof using Type size_ok cs_pos count_ok.
  intros Hr Hs.
  assert (Hkeys : btree_keys N.le (chunks t) = range 0 (chunk_count m)).
  { apply btree_keys_unique; [apply _..|apply range_sorted|apply range_NoDup|].
    intros i. rewrite elem_of_range. split.
    - intros Hi. rewrite (full_chunks t i Hr Hs) by lia. by eexists.
    - intros [c Hc]. apply Hr in Hc as [? _]. lia. }
  rewrite (btree_values_map N.le (chunks t) piece_at).
  - rewrite Hkeys, concat_pieces by lia. cbn [N.mul N.to_nat drop].
    rewrite N.sub_0_r. apply take_ge.
    destruct (N.le_gt_cases (N.of_nat (length pt)) (chunk_count m * cs)) as [|Hlt]; [lia|].
    rewrite <-size_ok in Hlt. apply div_ceil_spec in Hlt; [|done]. rewrite <-count_ok in Hlt. lia.
  - intros i. rewrite Hkeys, elem_of_range. intros Hi. apply full_chunks; [done|done|lia].
Qed.

Definition in_progress (t : IncomingTransfer) : Prop :=
  receiving t /\ state t = Active /\ (N.of_nat (size (chunks t)) < chunk_count m)%N.

(** One genuine frame: it is taken, or it was already held, or it completes
    the file with exactly the sender's bytes. *)
Lemma ingest_genuine r t f :
  incoming r !! attachment_id m = Some t -> in_progress t -> genuine_frame f ->
  exists t' o, ingest_chunk f r = (put_incoming (attachment_id m) t' r, Ok o) /\
    ((in_progress t' /\ dom (chunks t') = {[ chunk_index f ]} ∪ dom (chunks t)) \/
     (state t' = Complete /\ o = CompleteO (attachment_id m) (content_hash m) pt)).
Proof using Type size_ok cs_pos count_ok hash_ok aes_roundtrip b64_roundtrip.
  intros Ht (Hr & Hst & Hsz) (Hid & Hlt & ct & Hct & Hb64).
  pose proof Hr as (Hm & Hk & Hp & Hc).
  unfold ingest_chunk. rewrite Hid, Ht, Hm. rewrite decide_False by congruence.
  rewrite (proj2 (N.leb_gt _ _)) by done. unfold held.
  destruct (decide (is_Some (chunks t !! chunk_index f))) as [Hh|Hh].
  - rewrite bool_decide_true by done. exists t, Duplicate. split.
    { f_equal. destruct r as [out inc]. unfold put_incoming. cbn in *. f_equal.
      by rewrite insert_id. }
    left. split; [done|]. apply elem_of_dom in Hh. set_solver.
  - rewrite bool_decide_false by done. rewrite Hb64, b64_roundtrip, Hk, Hp.
    rewrite (decrypt_encrypt_chunk _ _ _ _ _ Hct).
    rewrite (proj2 (N.eqb_eq _ _) (piece_length _ Hlt)). cbn [negb].
    set (t1 := set_chunks _ t).
    assert (Hr1 : receiving t1).
    { split; [done|]. split; [done|]. split; [done|]. intros i c.
      cbn. rewrite lookup_insert. case_decide; [|apply Hc].
      intros [= <-]. by subst i. }
    assert (Hsize : size (chunks t1) = S (size (chunks t))).
    { cbn. rewrite map_size_insert_None; [done|]. by apply eq_None_not_Some. }
    destruct (N.eqb_spec (N.of_nat (size (chunks t1))) (chunk_count (manifest t1)))
      as [Hfull|Hpart]; cbn [negb]; change (manifest t1) with (manifest t) in *;
      rewrite Hm in *.
    + unfold complete. rewrite (full_concat t1 Hr1 Hfull).
      change (manifest t1) with (manifest t). rewrite Hm, size_ok, N.eqb_refl. cbn [negb].
      rewrite hash_ok, String.eqb_refl. cbn [negb]. by eexists _, _; split; [done|right].
    + eexists _, _. split; [done|]. left. split.
      * split; [done|]. split; [done|]. rewrite Hsize in *. lia.
      * cbn. by rewrite dom_insert_L.
Qed.

(** A finished transfer answers every further frame with [Duplicate]. *)
Lemma ingest_after_complete r t f :
  incoming r !! attachment_id m = Some t -> state t = Complete ->
  cf_attachment_id f = attachment_id m -> ingest_chunk f r = (r, Ok Duplicate).
Proof.
  intros Ht Hst Hid. unfold ingest_chunk. rewrite Hid, Ht.
  rewrite decide_True; [done|congruence].
Qed.
End Genuine.

(** Feeding a list of frames, keeping every answer. *)
Fixpoint deliver (fs : list ChunkFrame) (r : AttachmentRuntime)
  : AttachmentRuntime * list (result AttachmentRuntimeError ChunkOutcome) :=
  match fs with
  | [] => (r, [])
  | f :: fs => let '(r1, o) := ingest_chunk f r in
               let '(r2, os) := deliver fs r1 in (r2, o :: os)
  end.

Lemma deliver_complete m fs r t :
  incoming r !! attachment_id m = Some t -> state t = Complete ->
  Forall (fun f => cf_attachment_id f = attachment_id m) fs ->
  (deliver fs r).1 = r /\ Forall (fun o => o = Ok Duplicate) (deliver fs r).2.
Proof.
  intros Ht Hst. induction 1 as [|f fs Hf _ [IH1 IH2]]; cbn; [done|].
  rewrite (ingest_after_complete m r t f) by done.
  destruct (deliver fs r) as [r2 os]. cbn in *. subst. split; [done|]. by constructor.
Qed.

Lemma deliver_genuine m pt k pre fs r t :
  total_size m = N.of_nat (length pt) -> (chunk_size m <> 0)%N ->
  chunk_count m = div_ceil (total_size m) (chunk_size m) -> content_hash m = sha256_hex pt ->
  incoming r !! attachment_id m = Some t -> in_progress m pt k pre t ->
  Forall (genuine_frame m pt k pre) fs ->
  let '(r', os) := deliver fs r in
  Forall (fun o => is_ok o = true) os /\
  exists t', incoming r' !! attachment_id m = Some t' /\
    ((in_progress m pt k pre t' /\
      dom (chunks t') = list_to_set (map chunk_index fs) ∪ dom (chunks t)) \/
     (state t' = Complete /\ Ok (CompleteO (attachment_id m) (content_hash m) pt) ∈ os)).
Proof using Type aes_roundtrip b64_roundtrip.
  intros Hsz Hcs Hn Hh. revert r t. induction fs as [|f fs IH]; intros r t Ht Hp Hg; cbn.
  - split; [constructor|]. exists t. split; [done|]. left. split; [done|]. apply set_of_nil.
  - apply Forall_cons in Hg as [Hf Hg].
    destruct (ingest_genuine m pt k pre Hsz Hcs Hn Hh r t f Ht Hp Hf) as (t1 & o & Hi & Hcase).
    rewrite Hi.
    assert (Ht1 : incoming (put_incoming (attachment_id m) t1 r) !! attachment_id m = Some t1)
      by apply lookup_insert_eq.
    destruct Hcase as [[Hp1 Hdom]|[Hst ->]].
    + specialize (IH _ _ Ht1 Hp1 Hg). destruct (deliver fs _) as [r' os].
      destruct IH as (Hok & t' & Ht' & IH). split; [by constructor|]. exists t'. split; [done|].
      destruct IH as [[Hp' Hd]|[Hst Hin]]; [left|right; split; [done|by right]].
      split; [done|]. rewrite Hd, Hdom. cbn. set_solver.
    + assert (Hids : Forall (fun f => cf_attachment_id f = attachment_id m) fs).
      { eapply Forall_impl; [exact Hg|]. by intros x (? & _). }
      destruct (deliver_complete m fs _ t1 Ht1 Hst Hids) as [Hr Hos].
      destruct (deliver fs _) as [r' os]. cbn in Hr, Hos. subst r'.
      split.
      { constructor; [done|]. eapply Forall_impl; [exact Hos|]. by intros ? ->. }
      exists t1. split; [done|]. right. split; [done|by left].
Qed.

(** ** What a sender serves *)

Lemma serve_loop_spec i indices t t' frames f :
  serve_loop i indices t = (t', Ok frames) -> f ∈ frames ->
  is_u64 (N.of_nat (length (plaintext t))) ->
  cf_attachment_id f = i /\
  (chunk_index f * chunk_size (o_manifest t) < N.of_nat (length (plaintext t)))%N /\
  exists ct, encrypt_chunk (o_key t) (o_nonce_prefix t) (chunk_index f)
      (piece (plaintext t) (chunk_size (o_manifest t)) (chunk_index f)) = Ok ct /\
    ciphertext_b64 f = b64_encode ct.
Proof.
  revert t t' frames. induction indices as [|x indices IH]; intros t t' frames; cbn [serve_loop].
  - intros [= _ <-] Hf. by apply elem_of_nil in Hf.
  - intros Hs Hf Hu. rewrite chunk_slice_spec in Hs by done.
    destruct (N.ltb_spec (x * chunk_size (o_manifest t)) (N.of_nat (length (plaintext t))));
      [|by eapply IH].
    destruct (encrypt_chunk _ _ _ _) as [ct|] eqn:Hct; [|done].
    destruct (serve_loop _ _ _) as [t1 rest] eqn:Hl. injection Hs as _ Hr.
    apply bind_Ok in Hr as (fs & -> & [= <-]).
    apply elem_of_cons in Hf as [->|Hf]; [cbn; split; [done|]; split; [done|by exists ct]|].
    exact (IH _ _ _ Hl Hf Hu).
Qed.

(** The sender's transfer of [i], however often it was served. *)
Definition sends (i : string) (m : AttachmentManifest) (pt k pre : bytes)
    (r : AttachmentRuntime) : Prop :=
  exists t, outgoing r !! i = Some t /\ o_manifest t = m /\ plaintext t = pt /\
    o_key t = k /\ o_nonce_prefix t = pre.

Definition serve_step (r r' : AttachmentRuntime) : Prop :=
  exists rq, r' = (serve_chunks rq r).1.

Lemma serve_loop_same i indices t :
  let t' := (serve_loop i indices t).1 in
  o_manifest t' = o_manifest t /\ plaintext t' = plaintext t /\ o_key t' = o_key t /\
  o_nonce_prefix t' = o_nonce_prefix t.
Proof.
  revert t. induction indices as [|x indices IH]; intros t; cbn [serve_loop]; [done|].
  destruct (chunk_slice _ _ _); [|apply IH]. destruct (encrypt_chunk _ _ _ _); [|done].
  match goal with |- context [serve_loop i indices ?t1] => specialize (IH t1) end.
  by destruct (serve_loop _ _ _).
Qed.

Lemma serve_step_sends i m pt k pre r r' :
  serve_step r r' -> sends i m pt k pre r -> sends i m pt k pre r'.
Proof.
  intros [rq ->] (t & Ht & Hm & Hp & Hk & Hn). unfold serve_chunks.
  destruct (outgoing r !! cr_attachment_id rq) as [t0|] eqn:E; [|by exists t].
  case_decide; [|by exists t].
  match goal with |- context [serve_loop ?i ?l t0] =>
    pose proof (serve_loop_same i l t0) as Hs; destruct (serve_loop i l t0) as [t1 fs] end.
  cbn in *. unfold sends. cbn. destruct (decide (cr_attachment_id rq = i)) as [<-|Hne].
  - rewrite lookup_insert_eq. rewrite Ht in E. injection E as <-.
    exists t1. destruct Hs as (-> & -> & -> & ->). done.
  - rewrite lookup_insert_ne by done. by exists t.
Qed.

(** [f] was handed out by some serve call of this sender. *)
Definition was_served (r : AttachmentRuntime) (i : string) (f : ChunkFrame) : Prop :=
  exists r1 r2 rq frames, rtc serve_step r r1 /\ cr_attachment_id rq = i /\
    serve_chunks rq r1 = (r2, Ok frames) /\ f ∈ frames.

Lemma was_served_genuine m pt k pre r f :
  sends (attachment_id m) m pt k pre r -> is_u64 (N.of_nat (length pt)) ->
  total_size m = N.of_nat (length pt) -> (chunk_size m <> 0)%N ->
  chunk_count m = div_ceil (total_size m) (chunk_size m) ->
  was_served r (attachment_id m) f -> genuine_frame m pt k pre f.
Proof.
  intros Hs Hu Hsz Hcs Hn (r1 & r2 & rq & frames & Hsteps & Hid & Hserve & Hf).
  assert (Hs1 : sends (attachment_id m) m pt k pre r1).
  { clear -Hs Hsteps. induction Hsteps; [done|]. apply IHHsteps. by eapply serve_step_sends. }
  destruct Hs1 as (t & Ht & Hm & <- & <- & <-). unfold serve_chunks in Hserve.
  rewrite Hid, Ht in Hserve. case_decide; [|injection Hserve as _ <-; by apply elem_of_nil in Hf].
  destruct (serve_loop _ _ _) as [t1 fs] eqn:Hl. injection Hserve as _ ->.
  destruct (serve_loop_spec _ _ _ _ _ _ Hl Hf Hu) as (? & Hlt & ct & Hct & ?).
  rewrite Hm in *. split; [done|]. split; [|by exists ct].
  by rewrite Hn, div_ceil_spec, Hsz.
Qed.

(** C1. A transfer reconstructs the file: for a file the sender prepared and
    the receiver registered from its manifest, chunks served by the sender in
    any number of requests and delivered in any order, with repeats, are all
    accepted; once every index has arrived the transfer is complete and one
    delivery handed out exactly the sender's bytes under the manifest's hash. *)
Theorem transfer_reconstructs k pre request m (sender sender1 receiver receiver1 : AttachmentRuntime) fs :
  length k = ATTACHMENT_KEY_LEN -> length pre = ATTACHMENT_NONCE_PREFIX_LEN ->
  prepare_outgoing k pre request sender = (sender1, Ok m) ->
  register_incoming m receiver = (receiver1, Ok tt) ->
  Forall (was_served sender1 (attachment_id m)) fs ->
  (forall i, (i < chunk_count m)%N -> exists f, f ∈ fs /\ chunk_index f = i) ->
  let '(receiver2, outcomes) := deliver fs receiver1 in
  Forall (fun o => is_ok o = true) outcomes /\
  Ok (CompleteO (attachment_id m) (content_hash m) (oa_bytes request)) ∈ outcomes /\
  (state <$> incoming receiver2 !! attachment_id m) = Some Complete.
Proof using Type aes_roundtrip b64_roundtrip.
  intros Hk Hpre Hprep Hreg Hserved Hcover.
  unfold prepare_outgoing in Hprep.
  destruct (length (oa_bytes request) =? 0)%nat eqn:Hempty; [done|].
  apply Nat.eqb_neq in Hempty.
  destruct (N.ltb_spec MAX_ATTACHMENT_SIZE (N.of_nat (length (oa_bytes request)))) as [|Hmax]; [done|].
  case_bool_decide; [done|]. injection Hprep as Hs1 Hm.
  set (pt := oa_bytes request) in *.
  assert (Hu : is_u64 (N.of_nat (length pt))).
  { unfold is_u64, u64_max, MAX_ATTACHMENT_SIZE in *. lia. }
  assert (Hsz : total_size m = N.of_nat (length pt)) by (by rewrite <-Hm).
  assert (Hcs : (chunk_size m <> 0)%N) by (by rewrite <-Hm).
  assert (Hn : chunk_count m = div_ceil (total_size m) (chunk_size m)) by (by rewrite <-Hm).
  assert (Hh : content_hash m = sha256_hex pt) by (by rewrite <-Hm).
  assert (Hsend : sends (attachment_id m) m pt k pre sender1).
  { rewrite <-Hs1, <-Hm. eexists. cbn. split; [apply lookup_insert_eq|]. done. }
  assert (Hkeys : manifest_keys m = Ok (k, pre)).
  { unfold manifest_keys, decode_fixed. rewrite <-Hm. cbn [key_b64 nonce_prefix_b64].
    rewrite !b64_roundtrip. cbn. by rewrite Hk, Hpre. }
  unfold register_incoming in Hreg. case_bool_decide; [done|]. rewrite Hkeys in Hreg.
  destruct (_ || _); [done|]. destruct (negb _); [done|]. injection Hreg as <-.
  set (t0 := {| manifest := m |}).
  assert (Hcount : (0 < chunk_count m)%N).
  { rewrite Hn. apply div_ceil_spec; [done|]. lia. }
  assert (Hp0 : in_progress m pt k pre t0).
  { split; [|by split]. split; [done|]. split; [done|]. split; [done|].
    intros i c Hc. cbn in Hc. by rewrite lookup_empty in Hc. }
  assert (Hg : Forall (genuine_frame m pt k pre) fs).
  { eapply Forall_impl; [exact Hserved|]. intros f. by apply was_served_genuine. }
  pose proof (deliver_genuine m pt k pre fs (put_incoming (attachment_id m) t0 receiver) t0
    Hsz Hcs Hn Hh (lookup_insert_eq _ _ _) Hp0 Hg) as Hd.
  destruct (deliver fs _) as [r2 os]. destruct Hd as (Hok & t' & Ht' & [[Hp Hdom]|[Hst Hin]]).
  - exfalso. destruct Hp as (Hrecv & _ & Hlt).
    assert (Hall : (list_to_set (range 0 (chunk_count m)) : gset N) ⊆ dom (chunks t')).
    { intros i [_ Hi]%elem_of_list_to_set%elem_of_range. rewrite Hdom.
      destruct (Hcover i Hi) as (f & Hf & <-). apply elem_of_union_l, elem_of_list_to_set.
      by apply list_elem_of_In, in_map, list_elem_of_In. }
    apply subseteq_size in Hall. rewrite range_size in Hall.
    rewrite (size_dom (D := gset N)) in Hall. lia.
  - split; [done|]. split; [done|]. by rewrite Ht', <-Hst.
Qed.

(** No frame, forged or damaged, can complete a transfer with the wrong
    file: whenever a frame completes a transfer, the bytes handed out have the
    manifest's size and hash, and the transfer is closed. *)
Theorem complete_sound f r r' i h b :
  ingest_chunk f r = (r', Ok (CompleteO i h b)) ->
  i = cf_attachment_id f /\
  exists t t', incoming r !! i = Some t /\ incoming r' !! i = Some t' /\
    state t = Active /\ state t' = Complete /\
    N.of_nat (length b) = total_size (manifest t) /\
    sha256_hex b = h /\ h = content_hash (manifest t).
Proof.
  unfold ingest_chunk. destruct (incoming r !! cf_attachment_id f) as [t|] eqn:Ht; [|done].
  case_decide as Hst; [done|].
  destruct (_ <=? _)%N; [done|]. destruct (held _ _); [done|].
  destruct (b64_decode _) as [ct|]; [|done]. destruct (decrypt_chunk _ _ _ _) as [pt|]; [|done].
  destruct (negb _); [done|]. destruct (negb _); [done|].
  unfold complete. set (t1 := set_chunks _ t).
  destruct (N.eqb_spec (N.of_nat (length (concat (btree_values N.le (chunks t1)))))
    (total_size (manifest t1))) as [Hlen|]; [|done]. cbn [negb].
  destruct (String.eqb_spec (sha256_hex (concat (btree_values N.le (chunks t1))))
    (content_hash (manifest t1))) as [Hh|]; [|done]. cbn [negb].
  intros [= <- <- <- <-]. split; [done|]. exists t, (set_state Complete t1).
  split; [done|]. split; [apply lookup_insert_eq|]. done.
Qed.

(** ** Bounded requests *)

Definition counts (t : IncomingTransfer) (now : N) (kv : N * N) : bool :=
  negb (held t kv.1) && (now - kv.2 <? CHUNK_REQUEST_TIMEOUT)%N.

Lemma in_flight_eq now t :
  in_flight now t =
    if download_started t && bool_decide (state t = Active)
    then size (filter (fun kv => counts t now kv = true) (requested_at t)) else 0.
Proof.
  unfold in_flight, counts. destruct (_ && _); [|done].
  apply (f_equal size), map_filter_ext. by intros i x _.
Qed.

Lemma wanted_not_counted t now index :
  wanted t now index = true ->
  filter (fun kv => counts t now kv = true) (requested_at t) !! index = None /\
  counts t now (index, now) = true.
Proof.
  unfold wanted, counts. cbn. intros [Hh Hw]%andb_true_iff. rewrite Hh. split.
  - apply map_lookup_filter_None. right. intros sent Hsent.
    rewrite Hsent in Hw. apply N.leb_le in Hw. cbn. rewrite Hh. cbn.
    rewrite (proj2 (N.ltb_ge _ _)) by done. done.
  - cbn. rewrite N.sub_diag. done.
Qed.

Lemma mark_requested_size now (P : N * N -> Prop) `{!forall x, Decision (P x)} indices m :
  NoDup indices -> (forall i, i ∈ indices -> filter P m !! i = None /\ P (i, now)) ->
  size (filter P (foldl (fun (m : gmap N N) index => <[index := now]> m) m indices))
  = size (filter P m) + length indices.
Proof.
  intros Hnd. revert m. induction Hnd as [|i indices Hi Hnd IH]; intros m Hm; cbn; [lia|].
  destruct (Hm i) as [Hn HP]; [by left|]. rewrite IH.
  - rewrite map_filter_insert_True by done. rewrite map_size_insert_None by done. lia.
  - intros k Hk. destruct (Hm k) as [Hkn HkP]; [by right|]. split; [|done].
    rewrite map_filter_insert_True by done. rewrite lookup_insert_ne; [done|].
    intros ->. done.
Qed.

Lemma sum_in_flight_insert now i t t' m :
  m !! i = Some t ->
  sum_list_with (fun it : string * IncomingTransfer => in_flight now it.2)
    (map_to_list (<[i := t']> m)) + in_flight now t
  = sum_list_with (fun it => in_flight now it.2) (map_to_list m) + in_flight now t'.
Proof.
  intros Hm.
  assert (H1 : map_to_list (<[i := t']> m) ≡ₚ (i, t') :: map_to_list (delete i m)).
  { rewrite <-insert_delete_eq. apply map_to_list_insert, lookup_delete_eq. }
  assert (H2 : map_to_list m ≡ₚ (i, t) :: map_to_list (delete i m)).
  { rewrite <-(insert_id m i t Hm) at 1. rewrite <-insert_delete_eq.
    apply map_to_list_insert, lookup_delete_eq. }
  rewrite H1, H2. cbn. lia.
Qed.

Lemma wanted_in_spec t now a b :
  NoDup (wanted_in t now a b) /\
  forall i, i ∈ wanted_in t now a b -> (a <= i < b)%N /\ wanted t now i = true.
Proof.
  unfold wanted_in. split; [apply NoDup_filter, range_NoDup|].
  intros i [Hw Hi]%list_elem_of_filter. by apply elem_of_range in Hi.
Qed.

Definition good_window (t : IncomingTransfer) (now batch : N) (l : list N) : Prop :=
  NoDup l /\ (N.of_nat (length l) <= batch)%N /\
  forall i, i ∈ l -> (i < chunk_count (manifest t))%N /\ wanted t now i = true.

Lemma take_window t now batch a b :
  (b <= chunk_count (manifest t))%N -> good_window t now batch (take (N.to_nat batch) (wanted_in t now a b)).
Proof.
  intros Hb. destruct (wanted_in_spec t now a b) as [Hnd Hin].
  rewrite <-(take_drop (N.to_nat batch) (wanted_in t now a b)) in Hnd.
  split; [by apply NoDup_app in Hnd as (? & _)|]. split; [rewrite length_take; lia|].
  intros i Hi. assert (Hi' : i ∈ wanted_in t now a b).
  { rewrite <-(take_drop (N.to_nat batch) (wanted_in t now a b)). apply elem_of_app. by left. }
  destruct (Hin i Hi') as [? ?]. split; [lia|done].
Qed.

Lemma tail_window t now batch a :
  good_window t now batch (wanted_in t now a (N.min (a + batch) (chunk_count (manifest t)))).
Proof.
  destruct (wanted_in_spec t now a (N.min (a + batch) (chunk_count (manifest t)))) as [Hnd Hin].
  split; [done|]. split.
  - unfold wanted_in. pose proof (length_filter (fun index => wanted t now index = true)
      (range a (N.min (a + batch) (chunk_count (manifest t))))) as Hl.
    unfold range in Hl at 2. rewrite length_map, length_seq in Hl. lia.
  - intros i Hi. apply Hin in Hi as [? ?]. split; [lia|done].
Qed.

(** What a request leaves untouched. *)
Definition same_transfer (t t' : IncomingTransfer) : Prop :=
  requested_at t' = requested_at t /\ chunks t' = chunks t /\ manifest t' = manifest t /\
  state t' = state t /\ download_started t' = download_started t.

Lemma request_indices_spec t now batch t' l :
  (request_cursor t <= chunk_count (manifest t))%N ->
  request_indices now batch t = (t', l) ->
  good_window t now batch l /\ same_transfer t t' /\
  (request_cursor t' <= chunk_count (manifest t))%N.
Proof.
  intros Hcur. unfold request_indices.
  assert (Hprio : forall t0 l0,
    match priority_chunk t with
    | Some priority =>
        (if forallb (held t) (range priority (chunk_count (manifest t)))
         then set_requests (request_cursor t) (requested_at t) None t else t,
         take (N.to_nat batch) (wanted_in t now priority (chunk_count (manifest t))))
    | None => (t, [])
    end = (t0, l0) ->
    good_window t now batch l0 /\ same_transfer t t0 /\ request_cursor t0 = request_cursor t).
  { intros t0 l0. destruct (priority_chunk t) as [p|]; intros [= <- <-].
    - split; [by apply take_window|]. by destruct (forallb _ _).
    - split; [|by repeat split]. split; [constructor|]. split; [cbn; lia|].
      by intros i Hi%elem_of_nil. }
  destruct (match priority_chunk t with Some _ => _ | None => _ end) as [t0 l0].
  destruct (Hprio _ _ eq_refl) as (Hw0 & Hs & Hc). clear Hprio.
  destruct (negb (bool_decide (l0 = []))); [intros [= <- <-]; by rewrite Hc|].
  assert (Hw : forall a b, wanted_in t0 now a b = wanted_in t now a b).
  { destruct Hs as (H1 & H2 & _). intros a b. unfold wanted_in, wanted, held. by rewrite H1, H2. }
  rewrite !Hw, Hc. cbn zeta.
  destruct (negb (bool_decide (take (N.to_nat batch) (wanted_in t now 0 (request_cursor t)) = [])));
    intros [= <- <-].
  - split; [by apply take_window|]. by rewrite Hc.
  - split; [apply tail_window|]. split; [done|]. cbn. lia.
Qed.

(** Requests stay within the peer's window: what is asked for is distinct,
    in range, neither held nor still in flight, no more than the budget and
    the batch allow, and it uses up exactly that many of the 256 slots all
    downloads share, so no more than 256 requests are ever in flight. *)
Theorem request_bounded i now budget r r' rq t :
  incoming r !! i = Some t -> (request_cursor t <= chunk_count (manifest t))%N ->
  next_chunk_request_with_budget_at i now budget r = (r', Some rq) ->
  let n := N.of_nat (length (chunk_indices rq)) in
  cr_attachment_id rq = i /\ NoDup (chunk_indices rq) /\
  (0 < n)%N /\ (n <= N.min budget (request_batch (chunk_size (manifest t))))%N /\
  (n <= available_request_slots_at now r)%N /\
  (forall k, k ∈ chunk_indices rq -> (k < chunk_count (manifest t))%N /\ wanted t now k = true) /\
  available_request_slots_at now r' = (available_request_slots_at now r - n)%N /\
  exists t', incoming r' !! i = Some t' /\ (request_cursor t' <= chunk_count (manifest t'))%N.
Proof.
  intros Ht Hcur. unfold next_chunk_request_with_budget_at. rewrite Ht.
  destruct ((N.min budget (available_request_slots_at now r) =? 0)%N
    || negb (download_started t) || negb (bool_decide (state t = Active))) eqn:Hgo; [done|].
  apply orb_false_iff in Hgo as [[_ Hds%negb_false_iff]%orb_false_iff Hact%negb_false_iff].
  destruct (request_indices now _ t) as [t1 l] eqn:Hreq.
  destruct (request_indices_spec _ _ _ _ _ Hcur Hreq) as ((Hnd & Hlen & Hin) & Hs & Hc1).
  destruct (bool_decide (l = [])) eqn:Hl; [done|]. apply bool_decide_eq_false in Hl.
  intros [= <- <-]. cbn [chunk_indices cr_attachment_id].
  split; [done|]. split; [done|]. split; [destruct l; [done|cbn; lia]|].
  split; [lia|]. split; [lia|]. split; [done|].
  destruct Hs as (H1 & H2 & H3 & H4 & H5). split.
  - unfold available_request_slots_at. unfold put_incoming. cbn [incoming].
    set (t2 := set_requests _ _ _ t1).
    pose proof (sum_in_flight_insert now i t t2 (incoming r) Ht) as Hsum.
    assert (Hflight : in_flight now t2 = in_flight now t + length l).
    { rewrite !in_flight_eq. unfold t2. cbn [set_requests download_started state requested_at].
      rewrite H5, H4, Hds, Hact, H1. cbn [andb].
      assert (Hcounts : forall kv, counts (set_requests (request_cursor t1)
          (foldl (fun m index => <[index := now]> m) (requested_at t) l) (priority_chunk t1) t1)
          now kv = counts t now kv).
      { intros kv. unfold counts, held. cbn. by rewrite H2. }
      rewrite <-(mark_requested_size now (fun kv => counts t now kv = true) l (requested_at t)).
      - f_equal. apply map_filter_ext. intros k x _. by rewrite Hcounts.
      - done.
      - intros k Hk. apply wanted_not_counted. by apply Hin. }
    lia.
  - eexists. unfold put_incoming. cbn [incoming]. split; [apply lookup_insert_eq|].
    cbn. by rewrite H3.
Qed.

(** ** Playback *)

(** A range read is exact: while the held chunks are the file's own, an
    answer [Ready] carries precisely the bytes of the file in the range asked
    (cut at the end of the file), and [Pending] means that some chunk of the
    range is missing and is now fetched first. *)
Theorem stream_range_exact i start stop r r' t pt answer :
  incoming r !! i = Some t -> total_size (manifest t) = N.of_nat (length pt) ->
  (chunk_size (manifest t) <> 0)%N ->
  (forall k c, chunks t !! k = Some c -> c = piece pt (chunk_size (manifest t)) k) ->
  stream_range i start stop r = (r', answer) ->
  match answer with
  | Ready b size _ =>
      size = total_size (manifest t) /\
      b = take (N.to_nat (N.min stop size - start)) (drop (N.to_nat start) pt)
  | PendingS size =>
      size = total_size (manifest t) /\ (start < size)%N /\
      exists k t', chunks t !! k = None /\ incoming r' !! i = Some t' /\
        priority_chunk t' = Some k /\ download_started t' = true
  | UnknownS => False
  end.
Proof.
  intros Ht Htotal Hcs Hgen. unfold stream_range. rewrite Ht.
  change (total_size (manifest (set_started t))) with (total_size (manifest t)).
  change (chunk_size (manifest (set_started t))) with (chunk_size (manifest t)).
  set (cs := chunk_size (manifest t)) in *. rewrite Htotal in *.
  set (len := N.of_nat (length pt)) in *.
  destruct ((len =? 0)%N || (len <=? start)%N) eqn:Hout.
  { intros [= <- <-]. split; [done|]. symmetry.
    apply orb_true_iff in Hout as [Ho%N.eqb_eq|Ho%N.leb_le];
      rewrite drop_ge by (unfold len in *; lia); apply take_nil. }
  apply orb_false_iff in Hout as [Hne%N.eqb_neq Hlt%N.leb_gt].
  set (stop' := N.max (N.min stop len) start).
  set (first := (start / cs)%N).
  set (last := if (start <? stop')%N then ((stop' - 1) / cs)%N else first).
  assert (Hfirst : (first * cs <= start < first * cs + cs)%N).
  { by apply div_bounds. }
  assert (Hlast : (first <= last /\ stop' <= (last + 1) * cs)%N).
  { unfold last. destruct (N.ltb_spec start stop').
    - pose proof (div_bounds (stop' - 1) cs Hcs) as Hb.
      split; [apply N.Div0.div_le_mono; lia|]. revert Hb.
      generalize ((stop' - 1) / cs)%N. intros q Hb. lia.
    - split; [lia|]. assert (stop' = start) by (unfold stop' in *; lia). lia. }
  destruct (find _ _) as [k|] eqn:Hfind.
  - intros [= <- <-]. split; [done|]. split; [done|].
    apply find_some in Hfind as [_ Hk%negb_true_iff]. unfold held in Hk.
    apply bool_decide_eq_false in Hk. eexists k, _.
    split; [by apply eq_None_not_Some|]. unfold put_incoming. cbn [incoming].
    split; [apply lookup_insert_eq|]. done.
  - intros [= <- <-]. split; [done|].
    replace (concat (map _ (range first (last + 1)))) with
      (concat (map (piece pt cs) (range first (last + 1)))).
    2:{ f_equal. apply map_ext_in. intros k Hk.
        pose proof (find_none _ _ Hfind k Hk) as Hh. cbn in Hh.
        apply negb_false_iff in Hh. unfold held in Hh.
        apply bool_decide_eq_true in Hh as [c Hc]. cbn in Hc |- *. rewrite Hc. symmetry.
        by apply Hgen. }
    rewrite concat_pieces by lia.
    set (assembled := take _ _).
    assert (Hal : N.of_nat (length assembled) =
      N.min ((last + 1 - first) * cs) (len - first * cs)).
    { unfold assembled. rewrite length_take, length_drop. unfold len. lia. }
    assert (Hstop : (start <= stop' <= len)%N) by (unfold stop'; lia).
    assert (Hfit : (stop' - first * cs <= N.of_nat (length assembled))%N).
    { rewrite Hal. destruct Hlast as [? Hl]. rewrite N.mul_sub_distr_r. lia. }
    rewrite Nat.min_l by lia. rewrite (proj2 (Nat.leb_le _ _)) by lia.
    assert (Hfit' : (stop' - first * cs <= (last + 1 - first) * cs)%N) by lia.
    unfold assembled. rewrite take_take, Nat.min_l by lia.
    rewrite skipn_firstn_comm, drop_drop. f_equal; [unfold stop'; lia|]. f_equal. lia.
Qed.
End Transfers.

(** ** Witnesses: a file of two chunks *)

Definition toy_sha (b : bytes) : bytes := take 2 b.
Definition toy_key : bytes := replicate 32 x07.
Definition toy_prefix : bytes := replicate 4 x01.
Definition toy_file : bytes := replicate 4096 x41 ++ [x42; x43].
Definition toy_request : OutgoingAttachment :=
  {| oa_attachment_id := "f"; oa_file_name := "n"; oa_mime := "t"; oa_from_fingerprint := "fp";
     oa_bytes := toy_file; oa_thumbnail_b64 := None; oa_voice := None |}.
Definition toy_prepared := prepare_outgoing toy_sha toy_encode toy_key toy_prefix toy_request new_runtime.
Definition toy_manifest : AttachmentManifest :=
  {| m_origin := None; attachment_id := "f"; content_hash := hex_string [x41; x41];
     file_name := "n"; mime := "t"; total_size := 4098; chunk_size := 4096; chunk_count := 2;
     key_b64 := toy_encode toy_key; nonce_prefix_b64 := toy_encode toy_prefix;
     m_thumbnail_b64 := None; m_voice := None; from_fingerprint := "fp" |}.
Definition toy_registered := register_incoming toy_decode toy_manifest new_runtime.
Definition toy_served := serve_chunks plain_encrypt toy_encode
  {| cr_attachment_id := "f"; chunk_indices := [1; 0; 7]%N |} toy_prepared.1.
Definition toy_frames : list ChunkFrame := default [] (res_ok toy_served.2).

Lemma toy_frames_served :
  Forall (was_served plain_encrypt toy_encode toy_prepared.1 "f") (toy_frames ++ toy_frames).
Proof.
  assert (H : Forall (was_served plain_encrypt toy_encode toy_prepared.1 "f") toy_frames).
  { apply Forall_forall. intros f Hf. exists toy_prepared.1, toy_served.1.
    eexists {| cr_attachment_id := "f"; chunk_indices := [1; 0; 7]%N |}, toy_frames.
    split; [apply rtc_refl|]. split; [done|]. split; [|done].
    apply surjective_pairing_eq. vm_compute. reflexivity. }
  by apply Forall_app.
Qed.

Lemma transfer_reconstructs_witness :
  let '(receiver2, outcomes) := deliver plain_decrypt toy_sha toy_decode
                                  (toy_frames ++ toy_frames) toy_registered.1 in
  Forall (fun o => is_ok o = true) outcomes /\
  Ok (CompleteO "f" (hex_string [x41; x41]) toy_file) ∈ outcomes /\
  (state <$> incoming receiver2 !! "f") = Some Complete.
Proof.
  refine (transfer_reconstructs plain_encrypt plain_decrypt toy_sha toy_encode toy_decode
    plain_roundtrip toy_payload_roundtrip toy_key toy_prefix toy_request toy_manifest new_runtime
    toy_prepared.1 new_runtime toy_registered.1 (toy_frames ++ toy_frames) eq_refl eq_refl
    _ _ toy_frames_served _).
  - apply surjective_pairing_eq. vm_compute. reflexivity.
  - apply surjective_pairing_eq. vm_compute. reflexivity.
  - intros i Hi. change (i < 2)%N in Hi.
    assert (Hi' : i = 1%N \/ i = 0%N) by lia.
    assert (Hidx : map chunk_index toy_frames = [1; 0]%N) by (vm_compute; reflexivity).
    destruct toy_frames as [|f1 [|f2 [|]]]; try discriminate. injection Hidx as H1 H2.
    destruct Hi' as [-> | ->]; [exists f1|exists f2]; (split; [|done]).
    + by left.
    + right. by left.
Defined.

Definition toy_last : ChunkFrame :=
  {| cf_attachment_id := "f"; chunk_index := 1; ciphertext_b64 := toy_encode [x42; x43] |}.
Definition toy_first : ChunkFrame :=
  {| cf_attachment_id := "f"; chunk_index := 0; ciphertext_b64 := toy_encode (replicate 4096 x41) |}.
Definition toy_half : AttachmentRuntime :=
  (ingest_chunk plain_decrypt toy_sha toy_decode toy_first toy_registered.1).1.

Lemma complete_sound_witness :
  "f" = cf_attachment_id toy_last /\
  exists t t', incoming toy_half !! "f" = Some t /\
    incoming (ingest_chunk plain_decrypt toy_sha toy_decode toy_last toy_half).1 !! "f" = Some t' /\
    state t = Active /\ state t' = Complete /\
    N.of_nat (length toy_file) = total_size (manifest t) /\
    sha256_hex toy_sha toy_file = hex_string [x41; x41] /\
    hex_string [x41; x41] = content_hash (manifest t).
Proof.
  refine (complete_sound plain_decrypt toy_sha toy_decode toy_last toy_half _ "f"
    (hex_string [x41; x41]) toy_file _).
  apply surjective_pairing_eq. vm_compute. reflexivity.
Defined.

Definition toy_downloading : AttachmentRuntime := (start_download "f" toy_half).1.

Lemma request_bounded_witness :
  (next_chunk_request_with_budget_at "f" 5 10 toy_downloading).2
    = Some {| cr_attachment_id := "f"; chunk_indices := [1%N] |} /\
  available_request_slots_at 5 (next_chunk_request_with_budget_at "f" 5 10 toy_downloading).1
    = (available_request_slots_at 5 toy_downloading - 1)%N.
Proof.
  assert (H : (next_chunk_request_with_budget_at "f" 5 10 toy_downloading).2
    = Some {| cr_attachment_id := "f"; chunk_indices := [1%N] |}) by (vm_compute; reflexivity).
  split; [exact H|].
  destruct (incoming toy_downloading !! "f") as [t|] eqn:Ht; [|vm_compute in Ht; discriminate].
  refine (proj1 (proj2 (proj2 (proj2 (proj2 (proj2 (proj2
    (request_bounded "f" 5 10 toy_downloading _ _ t Ht _ (surjective_pairing_eq _ _ H))))))))).
  vm_compute in Ht. injection Ht as <-. vm_compute. discriminate.
Defined.

Lemma stream_range_exact_witness :
  (stream_range "f" 10 13 toy_half).2 = Ready [x41; x41; x41] 4098 "t" /\
  [x41; x41; x41] = take (N.to_nat (N.min 13 4098 - 10)) (drop (N.to_nat 10) toy_file).
Proof.
  assert (H : (stream_range "f" 10 13 toy_half).2 = Ready [x41; x41; x41] 4098 "t")
    by (vm_compute; reflexivity).
  split; [exact H|].
  destruct (incoming toy_half !! "f") as [t|] eqn:Ht; [|vm_compute in Ht; discriminate].
  refine (proj2 (stream_range_exact "f" 10 13 toy_half _ t toy_file
    (Ready [x41; x41; x41] 4098 "t") Ht _ _ _ (surjective_pairing_eq _ _ H)));
    vm_compute in Ht; injection Ht as <-.
  - vm_compute. reflexivity.
  - vm_compute. discriminate.
  - intros k c Hk. cbn [chunks] in Hk.
    destruct (decide (k = 0%N)) as [->|Hne].
    + vm_compute in Hk. injection Hk as <-. vm_compute. reflexivity.
    + exfalso. destruct k as [|k]; [done|]. by destruct k.
Defined.
End Attachments.
