(* ===== verification/Slots.v ===== *)
(** * Slots: what the user sees of a conversation's files
      ([conversation/attachments.rs])

    [AttachmentRuntime] (Attachments) owns the bytes, the slot table the
    bookkeeping around them: what was offered, what the user asked for, where
    the finished file landed.  Calls that must move both take both. *)
From S2P Require Import Prelude Store Messages Attachments.

Module Slots.
Import Messages Attachments.

#[local] Open Scope mosh_scope.
#[local] Set Default Proof Using "Type".

Inductive AttachmentState := Available | Offered | Downloading | Paused | SlotFailed | SlotCancelled.
#[export] Instance AttachmentState_eq_dec : EqDecision AttachmentState.
Proof. solve_decision. Defined.

Inductive AttachmentDirection := Outgoing | Incoming.
#[export] Instance AttachmentDirection_eq_dec : EqDecision AttachmentDirection.
Proof. solve_decision. Defined.

Record AttachmentView := {
  v_attachment_id : string; v_direction : string; v_state : AttachmentState; v_completed_chunks : N;
  v_chunk_count : N; v_local_path : option string; preview_path : option string;
}.

Definition UNNAMED_FILE : string := "file".
Definition OUTGOING_LABEL : string := "outgoing".
Definition INCOMING_LABEL : string := "incoming".

Inductive SlotError := SlotMissing (id : string) | NotIncoming | SlotTransfer (error : AttachmentRuntimeError).

Record AttachmentSlot := {
  descriptor : AttachmentDescriptor;
  direction : AttachmentDirection;
  local_path : option string;
  download_requested : bool;
  failed : bool;
  cancelled : bool;
}.
Abbreviation AttachmentSlots := (gmap string AttachmentSlot).

(** The progress the view shows: what the runtime knows of this direction. *)
Definition slot_progress (s : AttachmentSlot) (r : AttachmentRuntime) : option TransferProgress :=
  match direction s with
  | Outgoing => outgoing_progress r (Messages.attachment_id (descriptor s))
  | Incoming => incoming_progress r (Messages.attachment_id (descriptor s))
  end.

Definition slot_state (s : AttachmentSlot) : AttachmentState :=
  if cancelled s then SlotCancelled
  else if failed s then SlotFailed
  else if bool_decide (is_Some (local_path s)) then Available
  else if download_requested s then Downloading
  else Offered.

Definition view (s : AttachmentSlot) (r : AttachmentRuntime) : AttachmentView :=
  let progress := slot_progress s r in
  {| v_attachment_id := Messages.attachment_id (descriptor s);
     v_direction := match direction s with Outgoing => OUTGOING_LABEL | Incoming => INCOMING_LABEL end;
     v_state := slot_state s;
     v_completed_chunks := default 0%N (completed_chunks <$> progress);
     v_chunk_count := N.max 1 (default (div_ceil (Messages.total_size (descriptor s)) CHUNK_SIZE)
                                 (tp_chunk_count <$> progress));
     v_local_path := local_path s;
     preview_path := None |}.

Definition set_flags (requested failed cancelled : bool) (s : AttachmentSlot) : AttachmentSlot :=
  {| descriptor := descriptor s; direction := direction s; local_path := local_path s;
     download_requested := requested; failed := failed; cancelled := cancelled |}.

Definition insert_slot (d : AttachmentDescriptor) (dir : AttachmentDirection) (path : option string)
    (ss : AttachmentSlots) : AttachmentSlots :=
  <[ Messages.attachment_id d := {| descriptor := d; direction := dir; local_path := path;
                                     download_requested := false; failed := false; cancelled := false |} ]> ss.
Definition restore_metadata (d : AttachmentDescriptor) (dir : AttachmentDirection) : AttachmentSlots -> AttachmentSlots :=
  insert_slot d dir None.
Definition forget_slot (i : string) (ss : AttachmentSlots) : AttachmentSlots := delete i ss.
Definition contains (i : string) (ss : AttachmentSlots) : bool := bool_decide (is_Some (ss !! i)).
Definition cached_descriptor (i : string) (ss : AttachmentSlots) : option AttachmentDescriptor :=
  s ← ss !! i; if bool_decide (is_Some (local_path s)) then Some (descriptor s) else None.
Definition offer (d : AttachmentDescriptor) : AttachmentSlots -> AttachmentSlots := insert_slot d Incoming None.
Definition record_sent (d : AttachmentDescriptor) (path : string) : AttachmentSlots -> AttachmentSlots :=
  insert_slot d Outgoing (Some path).
Definition restore (d : AttachmentDescriptor) (dir : AttachmentDirection) (path : string) (ss : AttachmentSlots)
  : AttachmentSlots :=
  if contains (Messages.attachment_id d) ss then ss else insert_slot d dir (Some path) ss.
Definition file_name (i : string) (ss : AttachmentSlots) : string :=
  default UNNAMED_FILE ((fun s => Messages.file_name (descriptor s)) <$> ss !! i).
Definition complete_download (i path : string) (ss : AttachmentSlots) : AttachmentSlots :=
  alter (fun s => {| descriptor := descriptor s; direction := direction s; local_path := Some path;
                     download_requested := download_requested s; failed := false; cancelled := cancelled s |}) i ss.
Definition fail (i : string) (ss : AttachmentSlots) : AttachmentSlots :=
  alter (fun s => set_flags (download_requested s) true (cancelled s) s) i ss.

(** A slot and its transfer, moved together. *)
Abbreviation Table := (AttachmentSlots * AttachmentRuntime)%type.

Definition start_download (i : string) : method Table SlotError unit := fun w =>
  match w.1 !! i with
  | None => (w, Err (SlotMissing i))
  | Some slot =>
      if bool_decide (direction slot <> Incoming) then (w, Err NotIncoming)
      else match Attachments.start_download i w.2 with
           | (r, Err e) => ((w.1, r), Err (SlotTransfer e))
           | (r, Ok tt) => ((<[ i := set_flags true false false slot ]> w.1, r), Ok tt)
           end
  end.
Definition resume_for_stream (i : string) (w : Table) : Table := (start_download i w).1.
Definition cancel (i : string) : method Table SlotError unit := fun w =>
  match w.1 !! i with
  | None => (w, Err (SlotMissing i))
  | Some slot => ((<[ i := set_flags false (failed slot) true slot ]> w.1, Attachments.cancel i w.2), Ok tt)
  end.
Definition resume_sent (i : string) (ss : AttachmentSlots) : AttachmentSlots :=
  alter (fun s => if decide (direction s = Outgoing) then set_flags (download_requested s) false false s else s) i ss.
Definition incoming (i : string) (ss : AttachmentSlots) : bool :=
  match ss !! i with Some s => bool_decide (direction s = Incoming) | None => false end.

Definition expecting (s : AttachmentSlot) : bool :=
  download_requested s && negb (cancelled s) && negb (failed s) && bool_decide (local_path s = None).
Definition expects_chunks (i : string) (ss : AttachmentSlots) : bool :=
  match ss !! i with Some s => expecting s | None => false end.

(** Voice notes first, then by id. *)
Definition chunk_order : bool * string -> bool * string -> Prop := lex_le Bool.le String.le.
#[local] Instance chunk_order_dec : RelDecision chunk_order := _.
#[local] Instance chunk_order_po : PartialOrder chunk_order := _.
#[local] Instance chunk_order_total : Total chunk_order := _.
Definition awaiting (s : AttachmentSlot) : bool := bool_decide (direction s = Incoming) && expecting s.
Definition awaiting_chunks (ss : AttachmentSlots) : list string :=
  map snd (sort_by_key chunk_order (fun x => x)
    (omap (fun kv => if awaiting kv.2
                     then Some (bool_decide (Messages.voice (descriptor kv.2) = None), kv.1) else None)
       (map_to_list ss))).

Definition views (r : AttachmentRuntime) (ss : AttachmentSlots) : list AttachmentView :=
  sort_by_key String.le v_attachment_id (map (fun kv => view kv.2 r) (map_to_list ss)).


(** ** A request is one act *)

(** A slot and its transfer move together: asking for a file either refuses,
    and then neither the table nor the runtime moved, or the slot is an
    incoming one whose flags now say requested, neither failed nor cancelled,
    and whose transfer is running with its download started; no other slot or
    transfer moved. *)
Theorem request_whole i w w' r : start_download i w = (w', r) ->
  is_ok r = false /\ w' = w \/
  r = Ok tt /\ exists slot t, w.1 !! i = Some slot /\ direction slot = Incoming /\
    w'.1 = <[ i := set_flags true false false slot ]> w.1 /\
    Attachments.incoming w'.2 !! i = Some t /\ download_started t = true /\ state t ∈ [Active; Complete] /\
    (forall j, j <> i -> Attachments.incoming w'.2 !! j = Attachments.incoming w.2 !! j) /\
    outgoing w'.2 = outgoing w.2.
Proof.
  unfold start_download, Attachments.start_download. destruct (w.1 !! i) as [slot|] eqn:Hs; [|intros [= <- <-]; by left].
  case_bool_decide as Hd; [intros [= <- <-]; by left|].
  destruct (Attachments.incoming w.2 !! i) as [t|] eqn:Ht; [|intros [= <- <-]; left; by destruct w].
  intros [= <- <-]. right. split; [done|]. exists slot. eexists. cbn [fst snd].
  split; [done|]. split; [by destruct (direction slot); [destruct Hd|]|]. split; [done|].
  cbn [put_incoming Attachments.incoming outgoing]. split; [apply lookup_insert_eq|].
  split; [by case_bool_decide; [|case_bool_decide]|]. split.
  - destruct (state t) eqn:Hst; cbn; rewrite ?Hst; set_solver.
  - split; [|done]. intros j Hj. by rewrite lookup_insert_ne.
Qed.

(** ** What is still wanted *)

Definition wanted_rows (ss : AttachmentSlots) : list (bool * string) :=
  omap (fun kv => if awaiting kv.2
                  then Some (bool_decide (voice (descriptor kv.2) = None), kv.1) else None) (map_to_list ss).

Lemma elem_of_wanted ss b i : (b, i) ∈ wanted_rows ss <->
  exists s, ss !! i = Some s /\ awaiting s = true /\ b = bool_decide (voice (descriptor s) = None).
Proof.
  unfold wanted_rows. rewrite list_elem_of_omap. split.
  - intros ([k s] & Hin%elem_of_map_to_list & Hs). cbn in Hs. destruct (awaiting s) eqn:Ha; [|done].
    injection Hs as <- <-. eauto.
  - intros (s & Hs & Ha & ->). exists (i, s). split; [by apply elem_of_map_to_list|]. cbn. by rewrite Ha.
Qed.

Lemma wanted_NoDup ss : NoDup (wanted_rows ss).*2.
Proof.
  unfold wanted_rows. pose proof (NoDup_fst_map_to_list ss) as Hn. revert Hn.
  induction (map_to_list ss) as [|[k s] l IH]; intros Hn; [constructor|]. rewrite fmap_cons in Hn.
  apply NoDup_cons in Hn as [Hk Hl]. cbn. destruct (awaiting s); [|by apply IH]. cbn. constructor; [|by apply IH].
  intros ([b k'] & -> & Hin)%list_elem_of_fmap. apply list_elem_of_omap in Hin as ([k'' s'] & Hin & Hs). cbn in *.
  destruct (awaiting s'); [|done]. injection Hs as _ <-. apply Hk. apply list_elem_of_fmap. by exists (k'', s').
Qed.

(** The scheduler asks for exactly the files that are still wanted, each once,
    with every voice note before every other file. *)
Theorem awaiting_exact ss : NoDup (awaiting_chunks ss) /\
  (forall i, i ∈ awaiting_chunks ss <-> exists s, ss !! i = Some s /\ awaiting s = true) /\
  (forall a b i j, awaiting_chunks ss !! a = Some i -> awaiting_chunks ss !! b = Some j ->
     is_Some (ss !! i ≫= fun s => voice (descriptor s)) -> (ss !! j ≫= fun s => voice (descriptor s)) = None ->
     a < b).
Proof.
  unfold awaiting_chunks. fold (wanted_rows ss).
  set (l := sort_by_key chunk_order (fun x => x) (wanted_rows ss)).
  assert (Hp : l ≡ₚ wanted_rows ss) by apply sort_by_key_perm.
  assert (Hs : StronglySorted chunk_order l).
  { pose proof (sort_by_key_sorted chunk_order (fun x : bool * string => x) (wanted_rows ss)) as Hs.
    by rewrite map_id in Hs. }
  assert (Hb : forall i b k, l !! k = Some (b, i) -> b = bool_decide ((ss !! i ≫= fun s => voice (descriptor s)) = None)).
  { intros i b k Hk%list_elem_of_lookup_2. rewrite Hp in Hk. apply elem_of_wanted in Hk as (s & Hi & _ & ->).
    rewrite Hi. done. }
  change (map snd l) with (l.*2). split; [|split].
  - rewrite Hp. apply wanted_NoDup.
  - intros i. rewrite Hp, list_elem_of_fmap. split.
    + intros ([b i'] & -> & (s & Hi & Ha & _)%elem_of_wanted). by exists s.
    + intros (s & Hi & Ha). exists (bool_decide (voice (descriptor s) = None), i). split; [done|].
      apply elem_of_wanted. by exists s.
  - intros a b i j. rewrite !list_lookup_fmap.
    destruct (l !! a) as [[v i']|] eqn:Ha; [|done]. destruct (l !! b) as [[v' j']|] eqn:Hlb; [|done].
    intros [= ->] [= ->] Hi Hj. pose proof (Hb _ _ _ Ha) as Hv. pose proof (Hb _ _ _ Hlb) as Hv'.
    rewrite bool_decide_false in Hv by by intros He; rewrite He in Hi; destruct Hi.
    rewrite bool_decide_true in Hv' by done. subst v v'.
    destruct (decide (a < b)) as [|Hge]; [done|]. exfalso.
    destruct (decide (a = b)) as [->|Hne]; [by rewrite Ha in Hlb|].
    assert (Hle : chunk_order (true, j) (false, i)) by (eapply (StronglySorted_lookup_lt chunk_order l); [exact Hs|exact Hlb|exact Ha|lia]).
    by destruct Hle as [Hle _].
Qed.

(** ** What is shown *)

(** Every slot is filed under the id its descriptor carries. *)
Definition keyed (ss : AttachmentSlots) : Prop := map_Forall (fun i s => Messages.attachment_id (descriptor s) = i) ss.

Lemma keyed_alter f i ss : (forall s, descriptor (f s) = descriptor s) -> keyed ss -> keyed (alter f i ss).
Proof.
  intros Hf Hk j s. rewrite lookup_alter. case_decide as He; [subst|by apply Hk].
  destruct (ss !! j) as [s0|] eqn:Hs; [|done]. intros [= <-]. rewrite Hf. by apply Hk.
Qed.
Lemma keyed_insert d dir p ss : keyed ss -> keyed (insert_slot d dir p ss).
Proof. intros Hk. by apply map_Forall_insert_2. Qed.

(** What the user can do to the table and what the transfer reports. *)
Inductive slot_step : Table -> Table -> Prop :=
| Filed d dir p w : slot_step w (insert_slot d dir p w.1, w.2)
| Restored d dir p w : slot_step w (restore d dir p w.1, w.2)
| Forgot i w : slot_step w (forget_slot i w.1, w.2)
| Saved i p w : slot_step w (complete_download i p w.1, w.2)
| Broke i w : slot_step w (fail i w.1, w.2)
| Requested i w : slot_step w (start_download i w).1
| Stopped i w : slot_step w (cancel i w).1
| Resumed i w : slot_step w (resume_sent i w.1, w.2)
| Moved r w : slot_step w (w.1, r).

Lemma keyed_step w w' : slot_step w w' -> keyed w.1 -> keyed w'.1.
Proof.
  destruct 1; cbn [fst]; intros Hk; try done.
  - by apply keyed_insert.
  - unfold restore. destruct (contains _ _); [done|by apply keyed_insert].
  - by apply map_Forall_delete.
  - by apply keyed_alter.
  - by apply keyed_alter.
  - destruct (start_download i w) as [w' r] eqn:Hd. cbn [fst].
    apply request_whole in Hd as [[_ ->]|(_ & s & t & Hs & _ & -> & _)]; [done|]. apply map_Forall_insert_2; [|done]. exact (Hk _ _ Hs).
  - unfold cancel. destruct (w.1 !! i) as [s|] eqn:Hs; [|done]. cbn. apply map_Forall_insert_2; [|done]. exact (Hk _ _ Hs).
  - apply keyed_alter; [|done]. intros s. by destruct (decide _).
Qed.

(** The list the user sees: whatever happened to the table since it was empty,
    every slot is shown exactly once, in id order, with what its flags and its
    transfer say. *)
Theorem views_exact w r : rtc slot_step (∅, new_runtime) w ->
  StronglySorted String.le (map v_attachment_id (views r w.1)) /\ NoDup (map v_attachment_id (views r w.1)) /\
  forall v, v ∈ views r w.1 <-> exists s, w.1 !! v_attachment_id v = Some s /\ v = view s r.
Proof.
  intros Hr. assert (Hk : keyed w.1).
  { refine (rtc_ind_r (fun w => keyed w.1) (∅, new_runtime) _ _ w Hr); [apply map_Forall_empty|].
    intros y z _ Hs Hy. by eapply keyed_step. }
  unfold views. set (l := map (fun kv => view kv.2 r) (map_to_list w.1)).
  assert (Hp : sort_by_key String.le v_attachment_id l ≡ₚ l) by apply sort_by_key_perm.
  assert (Hids : map v_attachment_id l = (map_to_list w.1).*1).
  { unfold l. rewrite map_map. apply map_ext_in. intros [i s] Hin%list_elem_of_In%elem_of_map_to_list. by apply Hk. }
  split; [apply sort_by_key_sorted; apply _|]. split.
  - rewrite (Permutation_map v_attachment_id Hp), Hids. apply NoDup_fst_map_to_list.
  - intros v. rewrite Hp. unfold l. rewrite list_elem_of_In, in_map_iff. split.
    + intros ([i s] & <- & Hin%list_elem_of_In%elem_of_map_to_list). exists s. split; [|done]. cbn.
      by rewrite (Hk _ _ Hin).
    + intros (s & Hs & ->). exists (v_attachment_id (view s r), s). split; [done|]. by apply list_elem_of_In, elem_of_map_to_list.
Qed.

(** ** A table in use *)

Definition photo : AttachmentDescriptor :=
  {| Messages.attachment_id := "f"; d_content_hash := hex_string (toy_sha toy_file); Messages.file_name := "a.png";
     Messages.mime := "image/png"; Messages.total_size := 4098; thumbnail_b64 := None; voice := None |}.
Definition offered : Table := (offer photo ∅, Attachments.forget "g" toy_half).
Definition downloading : Table := (start_download "f" offered).1.

Lemma request_whole_witness : exists slot t,
  offered.1 !! "f" = Some slot /\ Attachments.incoming downloading.2 !! "f" = Some t /\ download_started t = true /\
  awaiting_chunks downloading.1 = ["f"].
Proof.
  destruct (request_whole "f" offered downloading (Ok tt)) as [[H _]|(_ & s & t & Hs & _ & _ & Ht & Hd & _)].
  - vm_compute. reflexivity.
  - discriminate H.
  - exists s, t. split; [exact Hs|]. split; [exact Ht|]. split; [exact Hd|]. vm_compute. reflexivity.
Defined.

Lemma views_exact_witness : NoDup (map v_attachment_id (views downloading.2 downloading.1)) /\
  map v_state (views downloading.2 downloading.1) = [Downloading].
Proof.
  split; [|vm_compute; reflexivity]. apply (views_exact downloading downloading.2).
  eapply rtc_l; [apply (Filed photo Incoming None)|]. eapply rtc_l; [apply (Moved (Attachments.forget "g" toy_half))|].
  eapply rtc_l; [apply (Requested "f")|]. apply rtc_refl.
Defined.

End Slots.
