(* ===== verification/Calls.v ===== *)
(** * Calls: call controls of a private DM ([private_dm_runtime/calls.rs] and
      its modules)

    A call is a small state machine per session: outgoing, ringing, accepting,
    active.  Controls arrive authenticated by MLS, are admitted by signer and
    sequence, and are published again until they are answered or the ring
    deadline passes.  What the rest of the session answers (encryption, storage,
    transport) is a script of outcomes; the controls the transport took are
    kept in [sent].  The clock is read once per operation. *)
From S2P Require Import Prelude Store Messages.
Import Store Messages.

Module Calls.

#[local] Open Scope mosh_scope.

Definition CALL_RESEND_MS : N := 2000.
Definition CALL_RING_TIMEOUT_MS : N := 30000.
Definition LEASE_MS : N := 15000.
Definition RETRY_WINDOW_MS : N := 15000.
Definition MAX_TERMINAL_CONTROLS : nat := 32.

Inductive PrivateDmRuntimeError :=
| BodyTooLarge | PayloadTooLarge | Deletion (e : string) | Revoked | Moss (e : string)
| OpenMls (e : string) | Codec (e : string) | InvalidInvite (e : string) | NotReady
| MissingSession | MissingMessage (id : string) | DuplicateSession (id : string)
| Attachment (e : string) | MissingAttachment (id : string) | PersistenceE (e : string).

(** ** The DM's message type ([contracts.rs]) *)

Record CallEvent := { kind : string; duration_ms : N; ce_call_id : string }.

Record ChatMessage := {
  c_metadata : option MessageMetadata;
  from_device : string;
  c_body : string;
  c_message_id : option string;
  c_sent_at_ms : option N;
  c_attachment : option AttachmentDescriptor;
  call_event : option CallEvent;
  c_delivery : MessageDeliveryMeta;   (** the four delivery fields, in order *)
  read : option bool;
}.

#[export] Instance chat_message : ConversationMessage ChatMessage := {|
  cm_metadata := c_metadata;
  cm_set_metadata md m := {| c_metadata := md; from_device := from_device m; c_body := c_body m;
    c_message_id := c_message_id m; c_sent_at_ms := c_sent_at_ms m;
    c_attachment := c_attachment m; call_event := call_event m; c_delivery := c_delivery m;
    read := read m |};
  cm_erase_content m := {| c_metadata := c_metadata m; from_device := from_device m;
    c_body := EmptyString; c_message_id := c_message_id m; c_sent_at_ms := c_sent_at_ms m;
    c_attachment := None; call_event := None; c_delivery := no_delivery; read := read m |};
  cm_message_id := c_message_id;
  cm_set_message_id i m := {| c_metadata := c_metadata m; from_device := from_device m;
    c_body := c_body m; c_message_id := Some i; c_sent_at_ms := c_sent_at_ms m;
    c_attachment := c_attachment m; call_event := call_event m; c_delivery := c_delivery m;
    read := read m |};
  cm_sent_at_ms := c_sent_at_ms;
  cm_set_sent_at_ms t m := {| c_metadata := c_metadata m; from_device := from_device m;
    c_body := c_body m; c_message_id := c_message_id m; c_sent_at_ms := Some t;
    c_attachment := c_attachment m; call_event := call_event m; c_delivery := c_delivery m;
    read := read m |};
  cm_body := c_body;
  cm_author := from_device;
  cm_set_delivery d m := {| c_metadata := c_metadata m; from_device := from_device m;
    c_body := c_body m; c_message_id := c_message_id m; c_sent_at_ms := c_sent_at_ms m;
    c_attachment := c_attachment m; call_event := call_event m; c_delivery := d;
    read := read m |};
  cm_delivery_status m := delivery_status (c_delivery m);
|}.

#[export] Instance chat_message_laws : ConversationMessageLaws ChatMessage.
Proof. by split. Qed.

(** ** Media signals ([native_call/types.rs]) *)

Record Binding := {
  b_session_id : string;
  b_call_id : string;
  b_caller : string;
  b_callee : string;
  media_session : bytes;
}.
Record Description := { binding : Binding; offer : bool; parameters : bytes }.
Inductive Signal :=
| SDescription (d : Description)
| Candidates (nonce : bytes) (candidates : list string)
| Camera (nonce : bytes) (enabled : bool).

Definition bounded (s : Signal) : bool :=
  match s with
  | SDescription d =>
      (length (parameters d) <=? 16384)%nat && (length (media_session (binding d)) =? 16)%nat
  | Candidates nonce candidates =>
      (length nonce =? 16)%nat && (length candidates <=? 8)%nat
      && forallb (fun c => (str_len c <=? 2048)%N) candidates
  | Camera nonce _ => (length nonce =? 16)%nat
  end.

(** ** The call ([state.rs]) *)

Inductive CallDirection := Caller | Callee.
#[export] Instance CallDirection_eq_dec : EqDecision CallDirection.
Proof. solve_decision. Defined.
Inductive CallPhase := Outgoing | Ringing | Accepting | Active.
#[export] Instance CallPhase_eq_dec : EqDecision CallPhase.
Proof. solve_decision. Defined.

Record CallState := {
  call_id : string;
  direction : CallDirection;
  phase : CallPhase;
  started_at_ms : N;
  remote_device : string;
  caller_signer : string;
  selected_signer : option string;
  remote_peer : string;
  merged_call_id : option string;
  offer_first_ms : N;
  offer_last_ms : N;
  native_controls : list Signal;
  native_camera_sequence : N;
  refused_by_other_engine : bool;
}.

Definition new_call (d : CallDirection) (p : CallPhase) (id device : string) : CallState :=
  {| call_id := id; direction := d; phase := p; started_at_ms := 0; remote_device := device;
     caller_signer := EmptyString; selected_signer := None; remote_peer := EmptyString;
     merged_call_id := None; offer_first_ms := 0; offer_last_ms := 0; native_controls := [];
     native_camera_sequence := 0; refused_by_other_engine := false |}.
Definition outgoing : string -> string -> CallState := new_call Caller Outgoing.
Definition ringing : string -> string -> CallState := new_call Callee Ringing.

Definition with_phase (p : CallPhase) (c : CallState) : CallState :=
  {| call_id := call_id c; direction := direction c; phase := p;
     started_at_ms := started_at_ms c; remote_device := remote_device c;
     caller_signer := caller_signer c; selected_signer := selected_signer c;
     remote_peer := remote_peer c; merged_call_id := merged_call_id c;
     offer_first_ms := offer_first_ms c; offer_last_ms := offer_last_ms c;
     native_controls := native_controls c; native_camera_sequence := native_camera_sequence c;
     refused_by_other_engine := refused_by_other_engine c |}.
Definition with_parties (device signer : string) (selected : option string) (peer : string)
    (c : CallState) : CallState :=
  {| call_id := call_id c; direction := direction c; phase := phase c;
     started_at_ms := started_at_ms c; remote_device := device; caller_signer := signer;
     selected_signer := selected; remote_peer := peer; merged_call_id := merged_call_id c;
     offer_first_ms := offer_first_ms c; offer_last_ms := offer_last_ms c;
     native_controls := native_controls c; native_camera_sequence := native_camera_sequence c;
     refused_by_other_engine := refused_by_other_engine c |}.
Definition with_merged (id : option string) (refused : bool) (c : CallState) : CallState :=
  {| call_id := call_id c; direction := direction c; phase := phase c;
     started_at_ms := started_at_ms c; remote_device := remote_device c;
     caller_signer := caller_signer c; selected_signer := selected_signer c;
     remote_peer := remote_peer c; merged_call_id := id;
     offer_first_ms := offer_first_ms c; offer_last_ms := offer_last_ms c;
     native_controls := native_controls c; native_camera_sequence := native_camera_sequence c;
     refused_by_other_engine := refused |}.
Definition with_media (controls : list Signal) (camera : N) (c : CallState) : CallState :=
  {| call_id := call_id c; direction := direction c; phase := phase c;
     started_at_ms := started_at_ms c; remote_device := remote_device c;
     caller_signer := caller_signer c; selected_signer := selected_signer c;
     remote_peer := remote_peer c; merged_call_id := merged_call_id c;
     offer_first_ms := offer_first_ms c; offer_last_ms := offer_last_ms c;
     native_controls := controls; native_camera_sequence := camera;
     refused_by_other_engine := refused_by_other_engine c |}.

Definition become_active (now : N) (c : CallState) : CallState :=
  {| call_id := call_id c; direction := direction c; phase := Active;
     started_at_ms := now; remote_device := remote_device c;
     caller_signer := caller_signer c; selected_signer := selected_signer c;
     remote_peer := remote_peer c; merged_call_id := merged_call_id c;
     offer_first_ms := offer_first_ms c; offer_last_ms := offer_last_ms c;
     native_controls := native_controls c; native_camera_sequence := native_camera_sequence c;
     refused_by_other_engine := refused_by_other_engine c |}.

Definition matches_id (c : CallState) (id : string) : bool :=
  String.eqb (call_id c) id || bool_decide (merged_call_id c = Some id).

Definition presentation_alias (c : CallState) : option string :=
  if decide (direction c = Callee) then merged_call_id c else None.

Definition mark_offer_sent (now : N) (c : CallState) : CallState :=
  {| call_id := call_id c; direction := direction c; phase := phase c;
     started_at_ms := started_at_ms c; remote_device := remote_device c;
     caller_signer := caller_signer c; selected_signer := selected_signer c;
     remote_peer := remote_peer c; merged_call_id := merged_call_id c;
     offer_first_ms := if (offer_first_ms c =? 0)%N then now else offer_first_ms c;
     offer_last_ms := now;
     native_controls := native_controls c; native_camera_sequence := native_camera_sequence c;
     refused_by_other_engine := refused_by_other_engine c |}.

Definition end_kind (c : CallState) : string :=
  if decide (phase c <> Active) then "missed" else "completed".

Definition call_duration_ms (c : CallState) (now : N) : N :=
  if (started_at_ms c =? 0)%N || (now <? started_at_ms c)%N then 0%N
  else (now - started_at_ms c)%N.

(** ** Controls ([protocol.rs]) *)

Inductive CallAction :=
| Media (signal : Signal)
| Offer
| Answer
| Occupied (caller : string) (receiver : option string)
| Selected (receiver : string)
| Decline (reason : string)
| End_ (caller reason : string).

Record CallControl := {
  k_session_id : string;
  k_call_id : string;
  signer : string;
  sequence : N;
  peer : string;
  name : string;
  action : CallAction;
  k_media_protocol : N;
}.

Definition UPDATE_REQUIRED : string := "update_required".

(** [protocol::end_kind]. *)
Definition end_kind_for (c : CallState) (reason : string) : string :=
  let kind := end_kind c in
  if String.eqb reason UPDATE_REQUIRED || (refused_by_other_engine c && String.eqb kind "missed")
  then UPDATE_REQUIRED else kind.

Definition end_reason (a : CallAction) : string :=
  match a with Decline reason | End_ _ reason => reason | _ => EmptyString end.

Definition outbound_control (c : CallState) : option CallAction :=
  match phase c with
  | Outgoing => Some Offer
  | Accepting => Some Answer
  | Active =>
      if decide (direction c = Caller) then Selected <$> selected_signer c
      else Some (Occupied (caller_signer c) (selected_signer c))
  | Ringing => Some (Occupied (caller_signer c) (selected_signer c))
  end.

(** ** The protocol book ([book.rs]) *)

Record ClosedCall := { closed_id : string; confirmed : bool }.
Record CallProtocolBook := {
  next_sequence : N;
  received : gmap string N;
  closed_calls : list ClosedCall;
}.

Definition allocate_sequence (b : CallProtocolBook) : CallProtocolBook * option N :=
  match checked_add64 (next_sequence b) 1 with
  | None => (b, None)
  | Some n => ({| next_sequence := n; received := received b; closed_calls := closed_calls b |}, Some n)
  end.

Definition retain_signers (admitted : string -> bool) (b : CallProtocolBook) : CallProtocolBook :=
  {| next_sequence := next_sequence b;
     received := filter (fun kv => admitted kv.1 = true) (received b);
     closed_calls := closed_calls b |}.

Definition receive (sg : string) (seq : N) (b : CallProtocolBook) : CallProtocolBook * bool :=
  if (seq =? 0)%N || match received b !! sg with Some old => (seq <=? old)%N | None => false end
  then (b, false)
  else ({| next_sequence := next_sequence b; received := <[sg := seq]> (received b);
           closed_calls := closed_calls b |}, true).

Fixpoint confirm_closed (id : string) (c : bool) (l : list ClosedCall) : list ClosedCall :=
  match l with
  | [] => []
  | x :: l => if String.eqb (closed_id x) id
              then {| closed_id := closed_id x; confirmed := confirmed x || c |} :: l
              else x :: confirm_closed id c l
  end.

Definition closed (b : CallProtocolBook) (id : string) : bool :=
  existsb (fun c => String.eqb (closed_id c) id) (closed_calls b).
Definition confirmed_closed (b : CallProtocolBook) (id : string) : bool :=
  existsb (fun c => String.eqb (closed_id c) id && confirmed c) (closed_calls b).

Definition close (id : string) (c : bool) (b : CallProtocolBook) : CallProtocolBook :=
  {| next_sequence := next_sequence b; received := received b;
     closed_calls :=
       if closed b id then confirm_closed id c (closed_calls b)
       else (if (length (closed_calls b) =? 512)%nat then tail (closed_calls b) else closed_calls b)
            ++ [ {| closed_id := id; confirmed := c |} ] |}.

(** ** Other devices' calls ([occupancy.rs]) *)

Record Reservation := {
  r_call_id : string;
  r_caller : string;
  r_receiver : option string;
  expires : N;
}.
Record CallOccupancy := {
  devices : gmap string Reservation;
  admitted_offer : option (string * string);   (** call id, caller *)
}.

Definition retain_devices (p : Reservation -> bool) (o : CallOccupancy) : CallOccupancy :=
  {| devices := filter (fun kv => p kv.2 = true) (devices o); admitted_offer := admitted_offer o |}.

Definition admit_offer (id caller : string) (o : CallOccupancy) : CallOccupancy :=
  {| devices := devices o; admitted_offer := Some (id, caller) |}.

Definition expire (now : N) : CallOccupancy -> CallOccupancy :=
  retain_devices (fun r => (now <? expires r)%N).

Definition reserve (device id caller : string) (receiver : option string) (now : N)
    (o : CallOccupancy) : CallOccupancy :=
  let o := expire now o in
  if (64 <=? size (devices o))%nat && negb (bool_decide (is_Some (devices o !! device))) then o
  else {| devices := <[device := {| r_call_id := id; r_caller := caller; r_receiver := receiver;
                                    expires := saturating_add64 now LEASE_MS |}]> (devices o);
          admitted_offer := admitted_offer o |}.

Definition reserve_selected (device id caller : string) (now : N) (o : CallOccupancy)
  : CallOccupancy :=
  let o := expire now o in
  if negb (bool_decide (admitted_offer o = Some (id, caller))) then o
  else if match devices o !! device with
          | Some r => negb (String.eqb (r_call_id r) id) || negb (String.eqb (r_caller r) caller)
          | None => false
          end then o
  else reserve device id caller (Some device) now o.

Definition reservations (o : CallOccupancy) : list Reservation := (map_to_list (devices o)).*2.

Definition permits_end (o : CallOccupancy) (sender id : string) : option bool :=
  let rs := filter (fun r => r_call_id r = id) (reservations o) in
  if bool_decide (rs = []) then None
  else Some (existsb (fun r => String.eqb (r_caller r) sender
                               || bool_decide (r_receiver r = Some sender)) rs).

Definition selected (o : CallOccupancy) (id : string) (now : N) : bool :=
  existsb (fun r => String.eqb (r_call_id r) id && bool_decide (is_Some (r_receiver r))
                    && (now <? expires r)%N) (reservations o).

Definition release (device id : string) (o : CallOccupancy) : CallOccupancy :=
  match devices o !! device with
  | Some r => if String.eqb (r_call_id r) id
              then {| devices := delete device (devices o); admitted_offer := admitted_offer o |}
              else o
  | None => o
  end.

Definition forget_offer (id : string) (o : CallOccupancy) : CallOccupancy :=
  match admitted_offer o with
  | Some (i, _) => if String.eqb i id then {| devices := devices o; admitted_offer := None |} else o
  | None => o
  end.

Definition finish (id : string) (confirmed : bool) (o : CallOccupancy) : CallOccupancy :=
  let o := retain_devices (fun r => negb (String.eqb (r_call_id r) id)) o in
  if confirmed then forget_offer id o else o.

Definition receive_end (sender id : string) (o : CallOccupancy) : CallOccupancy :=
  let o := if bool_decide (admitted_offer o = Some (id, sender)) then forget_offer id o else o in
  retain_devices (fun r => negb (String.eqb (r_call_id r) id)
    || (negb (String.eqb (r_caller r) sender) && negb (bool_decide (r_receiver r = Some sender)))) o.

Definition occupied_calls (o : CallOccupancy) (now : N) : gset string :=
  list_to_set (map r_call_id (filter (fun r => (now <? expires r)%N = true) (reservations o))).

(** ** Terminal controls kept for retry ([terminal.rs]) *)

Record TerminalControl := { t_call_id : string; t_action : CallAction; t_expires : N; last_sent : N }.
Definition CallEndRetries : Type := list TerminalControl.

Definition remember (id : string) (a : CallAction) (now : N) (l : CallEndRetries) : CallEndRetries :=
  let l := filter (fun c => negb (String.eqb (t_call_id c) id) && (now <? t_expires c)%N = true) l in
  (if (length l =? MAX_TERMINAL_CONTROLS)%nat then tail l else l)
  ++ [ {| t_call_id := id; t_action := a; t_expires := saturating_add64 now RETRY_WINDOW_MS;
          last_sent := now |} ].

Definition is_due (now : N) (c : TerminalControl) : bool :=
  negb (now - last_sent c <? CALL_RESEND_MS)%N.

Definition due (now : N) (l : CallEndRetries) : CallEndRetries * list (string * CallAction) :=
  let l := filter (fun c => (now <? t_expires c)%N = true) l in
  (map (fun c => if is_due now c
                 then {| t_call_id := t_call_id c; t_action := t_action c;
                         t_expires := t_expires c; last_sent := now |} else c) l,
   map (fun c => (t_call_id c, t_action c)) (filter (fun c => is_due now c = true) l)).

(** ** The session around the call ([calls.rs]) *)

(** What the session's device membership answers about a signer. *)
Record DeviceMembership := {
  call_own : string -> bool;
  call_peer : string -> option string;
}.

Record CallSession := {
  session_id : string;
  device_id : string;
  own : string;                    (** the hex of this device's MLS signing key *)
  local_peer_id : option string;
  peer_moss_id : option string;
  membership : option DeviceMembership;
  connected : bool;
  call_admission_blocked : bool;
  call : option CallState;
  call_controls : CallProtocolBook;
  call_occupancy : CallOccupancy;
  call_ends : CallEndRetries;
  chat : @MessageLog ChatMessage;
  record_dirty : bool;
  frames : list string;            (** names passed to [note_authenticated_frame] *)
  draws : nat;
  external : list (option PrivateDmRuntimeError);
  sent : list CallControl;
}.

Definition upd (call_ : option CallState) (controls : CallProtocolBook) (occ : CallOccupancy)
    (ends : CallEndRetries) (s : CallSession) : CallSession :=
  {| session_id := session_id s; device_id := device_id s; own := own s;
     local_peer_id := local_peer_id s; peer_moss_id := peer_moss_id s;
     membership := membership s; connected := connected s;
     call_admission_blocked := call_admission_blocked s; call := call_; call_controls := controls;
     call_occupancy := occ; call_ends := ends; chat := chat s; record_dirty := record_dirty s;
     frames := frames s; draws := draws s; external := external s; sent := sent s |}.
Definition set_call (c : option CallState) (s : CallSession) : CallSession :=
  upd c (call_controls s) (call_occupancy s) (call_ends s) s.
Definition set_controls (b : CallProtocolBook) (s : CallSession) : CallSession :=
  upd (call s) b (call_occupancy s) (call_ends s) s.
Definition on_occupancy (f : CallOccupancy -> CallOccupancy) (s : CallSession) : CallSession :=
  upd (call s) (call_controls s) (f (call_occupancy s)) (call_ends s) s.
Definition on_ends (f : CallEndRetries -> CallEndRetries) (s : CallSession) : CallSession :=
  upd (call s) (call_controls s) (call_occupancy s) (f (call_ends s)) s.
Definition on_call (f : CallState -> CallState) (s : CallSession) : CallSession :=
  set_call (f <$> call s) s.

Definition env (dirty : bool) (ext : list (option PrivateDmRuntimeError)) (out : list CallControl)
    (log : @MessageLog ChatMessage) (fr : list string) (dr : nat) (s : CallSession) : CallSession :=
  {| session_id := session_id s; device_id := device_id s; own := own s;
     local_peer_id := local_peer_id s; peer_moss_id := peer_moss_id s;
     membership := membership s; connected := connected s;
     call_admission_blocked := call_admission_blocked s; call := call s;
     call_controls := call_controls s; call_occupancy := call_occupancy s;
     call_ends := call_ends s; chat := log; record_dirty := dirty; frames := fr;
     draws := dr; external := ext; sent := out |}.
Definition mark_dirty (s : CallSession) : CallSession :=
  env true (external s) (sent s) (chat s) (frames s) (draws s) s.
Definition note_frame (name : string) (s : CallSession) : CallSession :=
  env (record_dirty s) (external s) (sent s) (chat s) (frames s ++ [name]) (draws s) s.
Definition transmit (c : CallControl) (s : CallSession) : CallSession :=
  env (record_dirty s) (external s) (sent s ++ [c]) (chat s) (frames s) (draws s) s.

Abbreviation op A := (method CallSession PrivateDmRuntimeError A).

(** One step of encryption, storage or transport: the script says how it ends. *)
Definition ask : op unit := fun s =>
  (env (record_dirty s) (tail (external s)) (sent s) (chat s) (frames s) (draws s) s,
   match head (external s) with Some (Some e) => Err e | _ => Ok tt end).

Section Session.
(** The media engine this installation loaded, and the OS random generator. *)
Variable media_protocol : N.
Variable os_hex : nat -> string.

Definition same_media_protocol (c : CallControl) : bool :=
  (k_media_protocol c =? media_protocol)%N.

(** *** Publishing ([authentication.rs]) *)

Definition publish_authenticated_call (id : string) (a : CallAction) : op unit := fun s =>
  let '(book, seq) := allocate_sequence (call_controls s) in
  let s := set_controls book s in
  match seq, local_peer_id s with
  | Some n, Some p =>
      let control := {| k_session_id := session_id s; k_call_id := id; signer := own s;
        sequence := n; peer := p; name := device_id s; action := a;
        k_media_protocol := media_protocol |} in
      (ask ;;;                                  (* encrypt_json *)
       m_modify mark_dirty ;;;
       ask ;;;                                  (* persist_device_crypto *)
       ask ;;;                                  (* route_send *)
       m_modify (transmit control)) s
  | _, _ => (s, Err NotReady)
  end.

Definition publish_call_offer (id : string) : op unit := publish_authenticated_call id Offer.
Definition publish_call_accept (id : string) : op unit := publish_authenticated_call id Answer.

(** *** The call log ([history.rs]) *)

Definition append_call_event_message (now : N) (caller : string) (own_ : bool) (kind_ : string)
    (duration : N) (id : string) (s : CallSession) : CallSession :=
  let m := {|
    c_metadata := Some {| origin := None; deletion := None; deletion_key := None;
      personal_correlation := None; can_delete_for_everyone := false; local_only := false;
      is_own := Some own_ |};
    from_device := caller; c_body := EmptyString; c_message_id := None; c_sent_at_ms := None;
    c_attachment := None;
    call_event := Some {| kind := kind_; duration_ms := duration; ce_call_id := id |};
    c_delivery := no_delivery; read := None |} in
  let '(log, m) := stamp now (os_hex (draws s)) (chat s) m in
  env (record_dirty s) (external s) (sent s) (push m log) (frames s) (S (draws s)) s.

Definition finish_call (now : N) (kind_ : string) (duration : N) (s : CallSession) : CallSession :=
  match call s with
  | None => s
  | Some c =>
      let s := set_call None s in
      let conf := bool_decide (direction c = Caller) || bool_decide (phase c = Active)
                  || confirmed_closed (call_controls s) (call_id c) in
      let s := set_controls (close (call_id c) conf (call_controls s)) s in
      let s := match merged_call_id c with
               | Some id => set_controls (close id conf (call_controls s)) s
               | None => s
               end in
      let s := on_occupancy (finish (call_id c) conf) (mark_dirty s) in
      let own_ := bool_decide (direction c = Caller) in
      append_call_event_message now (if own_ then device_id s else remote_device c) own_ kind_
        duration (call_id c) s
  end.

(** *** The user's actions ([calls.rs]) *)

Definition holds_call (s : CallSession) (id : string) : bool :=
  match call s with Some c => matches_id c id | None => false end.

Definition call_start (now : N) : op string := fun s =>
  if negb (connected s) then (s, Err NotReady)
  else if bool_decide (is_Some (call s))
  then (s, Err (Attachment "another call is already in flight"))
  else match ask s with
  | (s, Err e) => (s, Err e)
  | (s, Ok _) =>
      let id := "call-" +:+ os_hex (draws s) in
      let s := env (record_dirty s) (external s) (sent s) (chat s) (frames s) (S (draws s)) s in
      let c := with_parties EmptyString (own s) None EmptyString (outgoing id EmptyString) in
      match publish_call_offer id (set_call (Some c) s) with
      | (s, Err e) => (set_call None s, Err e)
      | (s, Ok _) => (on_call (mark_offer_sent now) s, Ok id)
      end
  end.

Definition call_accept (now : N) (id : string) : op unit := fun s =>
  match call s with
  | None => (s, Err MissingSession)
  | Some c =>
      if negb (String.eqb (call_id c) id)
         || negb (bool_decide (phase c = Ringing) || bool_decide (phase c = Accepting))
      then (s, Err MissingSession)
      else (publish_call_accept id ;;;
            m_modify (on_call (fun c => mark_offer_sent now (with_phase Accepting c)))) s
  end.

Definition call_decline (now : N) (id reason : string) : op unit := fun s =>
  if negb (holds_call s id) then (s, Ok tt)
  else (publish_authenticated_call id (Decline reason) ;;;
        m_modify (fun s => finish_call now "missed" 0
                             (on_ends (remember id (Decline reason) now) s))) s.

Definition call_end (now : N) (id reason : string) : op unit := fun s =>
  match call s with
  | Some c =>
      if negb (matches_id c id) then (s, Ok tt)
      else
        let a := End_ (caller_signer c) reason in
        let '(s, outcome) := publish_authenticated_call (call_id c) a
                               (on_ends (remember (call_id c) a now) s) in
        (finish_call now (end_kind_for c reason) (call_duration_ms c now) s, outcome)
  | None => (s, Ok tt)
  end.

Definition publish_native_media (id : string) (sig : Signal) : op unit := fun s =>
  if negb (bounded sig)
     || negb match call s with
             | Some c => bool_decide (phase c = Active) && String.eqb (call_id c) id
             | None => false
             end
  then (s, Ok tt)
  else publish_authenticated_call id (Media sig) s.

(** *** An offer ([offer.rs]) *)

Definition closed_call_offer (s : CallSession) (id : string) : bool :=
  closed (call_controls s) id
  || existsb (fun m => match call_event m with
                       | Some e => String.eqb (ce_call_id e) id
                       | None => false
                       end) (messages (chat s)).

Definition install_incoming_call (now : N) (k : CallControl) (s : CallSession) : CallSession :=
  let c := with_parties (name k) (signer k) None (peer k)
             (mark_offer_sent now (ringing (k_call_id k) (name k))) in
  note_frame (name k)
    (set_call (Some c) (on_occupancy (admit_offer (k_call_id k) (signer k)) s)).

(** [(&signer, &call_id) >= (&caller_signer, &call_id)] on string pairs. *)
Definition pair_geb (a b : string * string) : bool :=
  if String.eqb a.1 b.1 then String.leb b.2 a.2 else String.leb b.1 a.1.

Definition merge_cross_call (now : N) (k : CallControl) (c : CallState) : op unit := fun s =>
  if pair_geb (signer k, k_call_id k) (caller_signer c, call_id c)
  then (on_call (fun c => with_merged (Some (k_call_id k)) (refused_by_other_engine c) c) s, Ok tt)
  else
    let s := install_incoming_call now k s in
    let s := on_call (fun n => mark_offer_sent now (with_phase Accepting
               (with_merged (Some (call_id c)) (refused_by_other_engine n) n))) s in
    publish_call_accept (k_call_id k) s.

Definition refuse_other_engine (now : N) (k : CallControl) : op unit := fun s =>
  let s := append_call_event_message now (name k) false UPDATE_REQUIRED 0 (k_call_id k) s in
  let s := on_ends (remember (k_call_id k) (Decline UPDATE_REQUIRED) now) s in
  publish_authenticated_call (k_call_id k) (Decline UPDATE_REQUIRED) s.

Definition receive_call_offer (now : N) (k : CallControl) : op unit := fun s =>
  if closed_call_offer s (k_call_id k) || selected (call_occupancy s) (k_call_id k) now
  then (s, Ok tt)
  else if negb (same_media_protocol k) then refuse_other_engine now k s
  else match call s with
  | Some c =>
      if bool_decide (phase c = Outgoing) && negb (String.eqb (call_id c) (k_call_id k))
      then merge_cross_call now k c s
      else if String.eqb (call_id c) (k_call_id k) && String.eqb (caller_signer c) (signer k)
              && (bool_decide (phase c = Accepting) || bool_decide (phase c = Active))
      then publish_call_accept (k_call_id k) s
      else (s, Ok tt)
  | None =>
      if call_admission_blocked s
         || existsb (fun id => negb (String.eqb id (k_call_id k)))
              (elements (occupied_calls (call_occupancy s) now))
      then publish_authenticated_call (k_call_id k) (Decline "busy") s
      else (install_incoming_call now k s, Ok tt)
  end.

(** *** Other controls ([receive.rs], [occupancy.rs]) *)

Definition owns (s : CallSession) (sg : string) : bool :=
  match membership s with Some m => call_own m sg | None => false end.

Definition receive_native_media (k : CallControl) (sig : Signal) (s : CallSession) : CallSession :=
  if negb (bounded sig) then s
  else match call s with
  | None => s
  | Some c =>
      if negb (bool_decide (phase c = Active) && String.eqb (call_id c) (k_call_id k)) then s
      else
        let remote := if decide (direction c = Caller) then selected_signer c
                      else Some (caller_signer c) in
        if negb (bool_decide (remote = Some (signer k)))
           || negb (String.eqb (remote_peer c) (peer k)) then s
        else if match sig with
                | SDescription d =>
                    let b := binding d in
                    negb (String.eqb (b_session_id b) (session_id s))
                    || negb (String.eqb (b_call_id b) (call_id c))
                    || negb (String.eqb (b_caller b) (caller_signer c))
                    || negb (bool_decide (selected_signer c = Some (b_callee b)))
                    || negb (Bool.eqb (offer d) (bool_decide (direction c = Callee)))
                | Camera _ _ => (sequence k <=? native_camera_sequence c)%N
                | Candidates _ _ => false
                end then s
        else
          let camera := match sig with Camera _ _ => sequence k | _ => native_camera_sequence c end in
          let q := if (16 <=? length (native_controls c))%nat then tail (native_controls c)
                   else native_controls c in
          set_call (Some (with_media (q ++ [sig]) camera c)) s
  end.

Definition receive_call_answer (now : N) (k : CallControl) : op unit := fun s =>
  match call s with
  | None => (s, Ok tt)
  | Some c =>
      if negb (String.eqb (call_id c) (k_call_id k)) then (s, Ok tt)
      else if negb (bool_decide (direction c = Caller)) then (s, Ok tt)
      else if decide (phase c = Active) then
        match selected_signer c with
        | Some r => publish_authenticated_call (k_call_id k) (Selected r) s
        | None => (s, Ok tt)
        end
      else if negb (bool_decide (phase c = Outgoing)) then (s, Ok tt)
      else if negb (same_media_protocol k) then call_end now (k_call_id k) UPDATE_REQUIRED s
      else
        (publish_authenticated_call (k_call_id k) (Selected (signer k)) ;;;
         m_modify (fun s => note_frame (name k) (on_call (fun c => become_active now
           (with_parties (name k) (caller_signer c) (Some (signer k)) (peer k) c)) s))) s
  end.

Definition observe_call_selection (now : N) (k : CallControl) (receiver : string)
    (s : CallSession) : CallSession :=
  if owns s receiver
  then on_occupancy (reserve_selected receiver (k_call_id k) (signer k) now) s
  else s.

Definition receive_call_selection (now : N) (k : CallControl) (receiver : string)
    (s : CallSession) : CallSession :=
  let s := if bool_decide (call s = None) then observe_call_selection now k receiver s else s in
  match call s with
  | None => s
  | Some c =>
      if negb (String.eqb (call_id c) (k_call_id k)) then s
      else if negb (String.eqb (caller_signer c) (signer k))
              || negb (bool_decide (direction c = Callee)) then s
      else if decide (phase c = Active) then s
      else if negb (String.eqb receiver (own s))
      then set_call None (observe_call_selection now k receiver s)
      else if negb (bool_decide (phase c = Accepting)) then s
      else note_frame (name k) (set_call (Some (become_active now
             (with_parties (remote_device c) (caller_signer c) (Some receiver) (remote_peer c) c))) s)
  end.

Definition authoritative_call_end (s : CallSession) (k : CallControl) : bool :=
  match action k with
  | End_ caller _ =>
      match call s with
      | Some c =>
          if matches_id c (k_call_id k)
          then String.eqb (signer k) (caller_signer c)
               || bool_decide (selected_signer c = Some (signer k))
          else default (String.eqb caller (signer k))
                 (permits_end (call_occupancy s) (signer k) (k_call_id k))
      | None => default (String.eqb caller (signer k))
                  (permits_end (call_occupancy s) (signer k) (k_call_id k))
      end
  | _ => false
  end.

Definition observe_own_call (now : N) (k : CallControl) (s : CallSession) : CallSession :=
  let s := if authoritative_call_end s k
           then on_occupancy (finish (k_call_id k) true)
                  (set_controls (close (k_call_id k) true (call_controls s)) s)
           else s in
  match action k with
  | End_ _ _ | Decline _ => on_occupancy (release (signer k) (k_call_id k)) s
  | Occupied caller receiver =>
      on_occupancy (reserve (signer k) (k_call_id k) caller receiver now) s
  | Selected receiver =>
      on_occupancy (reserve (signer k) (k_call_id k) (signer k) (Some receiver) now) s
  | _ =>
      let caller := match call s with
                    | Some c => if String.eqb (call_id c) (k_call_id k) then caller_signer c
                                else signer k
                    | None => signer k
                    end in
      on_occupancy (reserve (signer k) (k_call_id k) caller None now) s
  end.

Definition receive_call_termination (now : N) (k : CallControl) (s : CallSession) : CallSession :=
  let authoritative := authoritative_call_end s k in
  let s := on_occupancy (receive_end (signer k) (k_call_id k)) s in
  match (match call s with
         | Some c => if matches_id c (k_call_id k) then Some c else None
         | None => None
         end) with
  | None =>
      if authoritative then set_controls (close (k_call_id k) true (call_controls s)) s else s
  | Some c =>
      let permitted :=
        if decide (phase c = Active)
        then String.eqb (signer k) (caller_signer c)
             || bool_decide (selected_signer c = Some (signer k))
        else bool_decide (direction c = Caller) || String.eqb (signer k) (caller_signer c) in
      if negb permitted then s
      else
        let reason := end_reason (action k) in
        if String.eqb reason UPDATE_REQUIRED && bool_decide (phase c = Outgoing)
        then on_call (fun c => with_merged (merged_call_id c) true c) s
        else
          let s := set_controls (close (call_id c) true (call_controls s)) s in
          let s :=
            if decide (direction c = Caller)
            then let a := End_ (caller_signer c) "ended" in
                 (publish_authenticated_call (call_id c) a
                    (on_ends (remember (call_id c) a now) s)).1
            else s in
          finish_call now (end_kind_for c reason) (call_duration_ms c now) s
  end.

Definition apply_call_control (now : N) (k : CallControl) : op unit := fun s =>
  if confirmed_closed (call_controls s) (k_call_id k) then (s, Ok tt)
  else if String.eqb (signer k) (own s) then (s, Ok tt)
  else if owns s (signer k) then (observe_own_call now k s, Ok tt)
  else match action k with
  | Media sig => (receive_native_media k sig s, Ok tt)
  | Offer => receive_call_offer now k s
  | Answer => receive_call_answer now k s
  | Occupied _ _ => (s, Ok tt)
  | Selected receiver => (receive_call_selection now k receiver s, Ok tt)
  | Decline _ | End_ _ _ => (receive_call_termination now k s, Ok tt)
  end.

(** *** Admission ([authentication.rs]) *)

Definition admitted_participants (m : DeviceMembership) (k : CallControl) : bool :=
  let admitted sg := bool_decide (is_Some (call_peer m sg)) in
  match action k with
  | Selected receiver =>
      admitted receiver && negb (Bool.eqb (call_own m receiver) (call_own m (signer k)))
  | Occupied caller receiver =>
      admitted caller && match receiver with Some r => String.eqb r (signer k) | None => true end
  | End_ caller _ => admitted caller
  | _ => true
  end.

(** The check [decrypt_checked] runs on a decrypted body before the ratchet
    moves; [mls_signer] is the hex of the leaf that signed it. *)
Definition check_control (s : CallSession) (k : CallControl) (mls_signer : string)
  : result string unit :=
  if negb (String.eqb (k_session_id k) (session_id s)) || negb (String.eqb (signer k) mls_signer)
     || String.eqb (k_call_id k) EmptyString || (128 <? str_len (k_call_id k))%N
     || (256 <? str_len (name k))%N || (sequence k =? 0)%N
  then Err "invalid authenticated call control"
  else if match membership s with
          | Some m => bool_decide (call_peer m (signer k) = Some (peer k))
                      && admitted_participants m k
          | None => negb (String.eqb (signer k) (own s))
                    && bool_decide (peer_moss_id s = Some (peer k))
          end
  then Ok tt
  else Err "call device is not an admitted participant".

(** [handle_call_control] of a frame for session [to]; [body] is what MLS
    decrypts, with the signer it names. *)
Definition handle_call_control (now : N) (to : string)
    (body : result PrivateDmRuntimeError (CallControl * string)) : op unit := fun s =>
  if negb (String.eqb to (session_id s)) then (s, Ok tt)
  else
    let s := match membership s with
             | Some m => set_controls (retain_signers
                 (fun sg => bool_decide (is_Some (call_peer m sg))) (call_controls s)) s
             | None => s
             end in
    match body with
    | Err e => (s, Err e)
    | Ok (k, mls_signer) =>
        match check_control s k mls_signer with
        | Err e => (s, Err (OpenMls e))
        | Ok _ =>
          (ask ;;;                             (* persist_device_crypto *)
           (fun s =>
              let terminal := match action k with End_ _ _ | Decline _ => true | _ => false end in
              let media := match action k with Media _ => true | _ => false end in
              let '(book, fresh) :=
                if media then (call_controls s, false)
                else receive (signer k) (sequence k) (call_controls s) in
              let s := set_controls book s in
              let '(s, outcome) :=
                if media || fresh || terminal then apply_call_control now k s else (s, Ok tt) in
              (ask ;;; m_lift outcome) (mark_dirty s))) s
        end
    end.

(** *** The pump ([signaling.rs]) *)

Definition pump_call_signaling (now : N) (s : CallSession) : CallSession :=
  let s := on_occupancy (expire now) s in
  let '(ends, ready) := due now (call_ends s) in
  let s := on_ends (fun _ => ends) s in
  let s := foldl (fun s '(id, a) => (publish_authenticated_call id a s).1) s ready in
  match call s with
  | None => s
  | Some c =>
      if negb (bool_decide (phase c = Active))
         && (CALL_RING_TIMEOUT_MS <=? now - offer_first_ms c)%N
      then (call_end now (call_id c) "no_answer" s).1
      else if (now - offer_last_ms c <? CALL_RESEND_MS)%N then s
      else match outbound_control c with
      | None => s
      | Some a =>
          match publish_authenticated_call (call_id c) a s with
          | (s, Err _) => s
          | (s, Ok _) => on_call (mark_offer_sent now) s
          end
      end
  end.

#[local] Set Default Proof Using "Type".

(** ** What publishing leaves alone *)

(** Everything the call logic reads, but the script and the trace. *)
Definition kept (s s' : CallSession) : Prop :=
  call s' = call s /\ closed_calls (call_controls s') = closed_calls (call_controls s) /\
  received (call_controls s') = received (call_controls s) /\
  call_occupancy s' = call_occupancy s /\ call_ends s' = call_ends s /\
  own s' = own s /\ session_id s' = session_id s /\ device_id s' = device_id s /\
  membership s' = membership s /\ chat s' = chat s.

Lemma kept_refl s : kept s s.
Proof. by repeat split. Qed.
Lemma kept_trans s1 s2 s3 : kept s1 s2 -> kept s2 s3 -> kept s1 s3.
Proof. unfold kept. intros (?&?&?&?&?&?&?&?&?&?) (?&?&?&?&?&?&?&?&?&?). split_and!; congruence. Qed.

Lemma ask_kept s : kept s (ask s).1.
Proof. by repeat split. Qed.

Lemma bind_kept {A B} (m : op A) (f : A -> op B) s :
  kept s (m s).1 -> (forall a s1, kept s1 (f a s1).1) -> kept s (m_bind m f s).1.
Proof.
  intros Hm Hf. unfold m_bind. destruct (m s) as [s1 [a|e]]; [|exact Hm].
  eapply kept_trans; [exact Hm|apply Hf].
Qed.

Lemma publish_kept id a s : kept s (publish_authenticated_call id a s).1.
Proof.
  unfold publish_authenticated_call, allocate_sequence.
  destruct (checked_add64 _ _) as [n|]; [|by repeat split].
  set (s1 := set_controls _ s).
  assert (H1 : kept s s1) by (by repeat split).
  destruct (local_peer_id s1) as [p|]; [|exact H1].
  eapply kept_trans; [exact H1|].
  repeat (apply bind_kept; [first [apply ask_kept|by repeat split]|intros]).
  by repeat split.
Qed.

(** ** The abstract call

    What an operation may do to the call, whatever arrives and whatever the
    environment answers. *)
Definition core (c : CallState) :=
  (call_id c, direction c, phase c, caller_signer c, selected_signer c, started_at_ms c).

Inductive transition (own : string) : option CallState -> option CallState -> Prop :=
| tr_same o : transition own o o
| tr_end c : transition own (Some c) None
| tr_start c :
    direction c = Caller -> phase c = Outgoing -> caller_signer c = own ->
    selected_signer c = None -> native_controls c = [] -> transition own None (Some c)
| tr_ring c :
    direction c = Callee -> phase c = Ringing -> selected_signer c = None ->
    native_controls c = [] -> transition own None (Some c)
| tr_touch c c' :
    core c' = core c ->
    (length (native_controls c) <= 16 -> length (native_controls c') <= 16) ->
    transition own (Some c) (Some c')
| tr_accept c c' :
    phase c = Ringing \/ phase c = Accepting ->
    core c' = core (with_phase Accepting c) -> native_controls c' = native_controls c ->
    transition own (Some c) (Some c')
| tr_yield c c' :
    phase c = Outgoing -> direction c' = Callee -> phase c' = Accepting ->
    selected_signer c' = None -> native_controls c' = [] ->
    merged_call_id c' = Some (call_id c) -> transition own (Some c) (Some c')
| tr_answered c c' r :
    direction c = Caller -> phase c = Outgoing -> direction c' = Caller -> phase c' = Active ->
    call_id c' = call_id c -> caller_signer c' = caller_signer c ->
    selected_signer c' = Some r -> native_controls c' = native_controls c ->
    transition own (Some c) (Some c')
| tr_chosen c c' :
    direction c = Callee -> phase c = Accepting -> direction c' = Callee -> phase c' = Active ->
    call_id c' = call_id c -> caller_signer c' = caller_signer c ->
    selected_signer c' = Some own -> native_controls c' = native_controls c ->
    transition own (Some c) (Some c').

(** The steps of a session. *)
Inductive call_step : CallSession -> CallSession -> Prop :=
| step_start now s : call_step s (call_start now s).1
| step_accept now id s : call_step s (call_accept now id s).1
| step_decline now id reason s : call_step s (call_decline now id reason s).1
| step_end now id reason s : call_step s (call_end now id reason s).1
| step_media id sig s : call_step s (publish_native_media id sig s).1
| step_control now to body s : call_step s (handle_call_control now to body s).1
| step_pump now s : call_step s (pump_call_signaling now s).

Lemma publish_call id a s : call (publish_authenticated_call id a s).1 = call s.
Proof. apply publish_kept. Qed.
Lemma publish_own id a s : own (publish_authenticated_call id a s).1 = own s.
Proof. apply publish_kept. Qed.

Lemma append_event_call now c o k d id s :
  call (append_call_event_message now c o k d id s) = call s /\
  own (append_call_event_message now c o k d id s) = own s.
Proof. unfold append_call_event_message. by destruct (stamp _ _ _ _). Qed.

Lemma finish_call_call now k d s : call (finish_call now k d s) = None /\ own (finish_call now k d s) = own s.
Proof.
  unfold finish_call. destruct (call s) as [c|] eqn:E; [|by split].
  match goal with |- context [append_call_event_message ?a ?b ?c ?d ?e ?f ?g] =>
    destruct (append_event_call a b c d e f g) as [-> ->] end.
  by destruct (merged_call_id c).
Qed.

Lemma call_end_call now id reason s :
  own (call_end now id reason s).1 = own s /\
  (call (call_end now id reason s).1 = call s \/ call (call_end now id reason s).1 = None).
Proof.
  unfold call_end. destruct (call s) as [c|] eqn:E; [|cbn; by auto].
  destruct (negb _); [cbn; by auto|].
  match goal with |- context [publish_authenticated_call ?id ?a ?s0] =>
    pose proof (publish_own id a s0) as Ho; destruct (publish_authenticated_call id a s0) as [s1 r] end.
  cbn in Ho |- *.
  destruct (finish_call_call now (end_kind_for c reason) (call_duration_ms c now) s1) as [-> ->].
  by auto.
Qed.

Lemma transition_none own_ o : transition own_ o None.
Proof. destruct o; constructor. Qed.

Lemma on_call_call f s : call (on_call f s) = f <$> call s.
Proof. done. Qed.

(** [moves s s']: the identity stays and the call makes one abstract move. *)
Definition moves (s s' : CallSession) : Prop :=
  own s' = own s /\ transition (own s) (call s) (call s').

Lemma moves_same s s' : own s' = own s -> call s' = call s -> moves s s'.
Proof. intros Ho Hc. split; [done|]. rewrite Hc. constructor. Qed.
Lemma moves_end s s' : own s' = own s -> call s' = None -> moves s s'.
Proof. intros Ho Hc. split; [done|]. rewrite Hc. apply transition_none. Qed.

Lemma publish_moves id a s : moves s (publish_authenticated_call id a s).1.
Proof. apply moves_same; [apply publish_own|apply publish_call]. Qed.

Lemma call_end_moves now id reason s : moves s (call_end now id reason s).1.
Proof.
  destruct (call_end_call now id reason s) as [Ho [Hc|Hc]]; [by apply moves_same|by apply moves_end].
Qed.

(** Publish, then edit the installed call. *)
Lemma publish_then id a f g s c :
  call s = Some c ->
  (forall s1, own (g s1) = own s1 /\ call (g s1) = f <$> call s1) ->
  transition (own s) (Some c) (Some (f c)) ->
  moves s (m_bind (publish_authenticated_call id a) (fun _ => m_modify g) s).1.
Proof.
  intros Hc Hg Ht. unfold m_bind, m_modify.
  pose proof (publish_own id a s) as Ho. pose proof (publish_call id a s) as Hpc.
  destruct (publish_authenticated_call id a s) as [s1 [u|e]]; cbn in *.
  - destruct (Hg s1) as [Hgo Hgc]. split; [congruence|]. by rewrite Hgc, Hpc, Hc.
  - by apply moves_same.
Qed.

Lemma call_start_moves now s : moves s (call_start now s).1.
Proof.
  unfold call_start. destruct (negb _); [by apply moves_same|].
  destruct (bool_decide _) eqn:Hb; [by apply moves_same|]. apply bool_decide_eq_false in Hb.
  assert (Hn : call s = None) by (by apply eq_None_not_Some).
  destruct (ask s) as [s1 r] eqn:Ea. assert (H1 : own s1 = own s /\ call s1 = None).
  { unfold ask in Ea. by injection Ea as <- _. }
  destruct H1 as [Ho1 Hc1]. destruct r as [u|e]; [|apply moves_same; cbn; congruence].
  set (id := "call-" +:+ _). set (s2 := env _ _ _ _ _ _ s1). set (c := with_parties _ _ _ _ _).
  unfold publish_call_offer.
  pose proof (publish_own id Offer (set_call (Some c) s2)) as Ho.
  pose proof (publish_call id Offer (set_call (Some c) s2)) as Hc.
  destruct (publish_authenticated_call _ _ _) as [s3 [u'|e]]; cbn in Ho, Hc |- *.
  - split; cbn; [congruence|]. rewrite Hc, Hn. cbn. by apply tr_start.
  - apply moves_end; cbn; congruence.
Qed.

Lemma call_accept_moves now id s : moves s (call_accept now id s).1.
Proof.
  unfold call_accept. destruct (call s) as [c|] eqn:E; [|by apply moves_same].
  destruct (_ || _) eqn:Hg; [by apply moves_same|].
  apply orb_false_iff in Hg as [_ Hg%negb_false_iff].
  eapply (publish_then _ _ (fun c => mark_offer_sent now (with_phase Accepting c))); [done|done|].
  apply tr_accept; [|done|done].
  apply orb_true_iff in Hg as [Hg|Hg]; apply bool_decide_eq_true in Hg; auto.
Qed.

Lemma call_decline_moves now id reason s : moves s (call_decline now id reason s).1.
Proof.
  unfold call_decline. destruct (negb _); [by apply moves_same|].
  unfold m_bind, m_modify. pose proof (publish_own id (Decline reason) s) as Ho.
  pose proof (publish_call id (Decline reason) s) as Hc.
  destruct (publish_authenticated_call _ _ _) as [s1 [u|e]]; cbn in Ho, Hc |- *;
    [|by apply moves_same].
  match goal with |- context [finish_call ?a ?b ?c ?d] =>
    destruct (finish_call_call a b c d) as [Hf1 Hf2] end.
  apply moves_end; [by rewrite Hf2|done].
Qed.

Lemma install_moves now k s : call s = None ->
  moves s (install_incoming_call now k s).
Proof. intros Hn. split; [done|]. cbn. rewrite Hn. by apply tr_ring. Qed.

Lemma receive_call_offer_moves now k s : moves s (receive_call_offer now k s).1.
Proof.
  unfold receive_call_offer. destruct (_ || _); [by apply moves_same|].
  destruct (negb _).
  { unfold refuse_other_engine.
    match goal with |- moves _ (publish_authenticated_call ?i ?a ?s0).1 =>
      pose proof (publish_own i a s0) as Ho; pose proof (publish_call i a s0) as Hc end.
    destruct (append_event_call now (name k) false UPDATE_REQUIRED 0 (k_call_id k) s) as [H1 H2].
    apply moves_same; [rewrite Ho|rewrite Hc]; done. }
  destruct (call s) as [c|] eqn:E.
  - destruct (_ && _) eqn:Hout.
    + apply andb_true_iff in Hout as [Hp%bool_decide_eq_true _].
      unfold merge_cross_call. destruct (pair_geb _ _).
      * split; [done|]. cbn. rewrite E. by apply tr_touch.
      * unfold publish_call_accept.
        match goal with |- moves _ (publish_authenticated_call ?i ?a ?s0).1 =>
          pose proof (publish_own i a s0) as Ho; pose proof (publish_call i a s0) as Hc end.
        split; [by rewrite Ho|]. rewrite Hc, E. by apply tr_yield.
    + match goal with |- context [if ?b then publish_call_accept _ _ else _] => destruct b end;
        [apply publish_moves|by apply moves_same].
  - match goal with |- context [if ?b then publish_authenticated_call _ _ _ else _] =>
      destruct b end; [apply publish_moves|by apply install_moves].
Qed.

Lemma receive_native_media_moves k sig s : moves s (receive_native_media k sig s).
Proof.
  unfold receive_native_media. destruct (negb _); [by apply moves_same|].
  destruct (call s) as [c|] eqn:E; [|by apply moves_same].
  destruct (negb _); [by apply moves_same|]. destruct (_ || _); [by apply moves_same|].
  match goal with |- moves s (if ?b then s else _) => destruct b end; [by apply moves_same|].
  split; [done|]. rewrite E. cbn [call set_call upd]. apply tr_touch; [done|].
  cbn [native_controls with_media]. intros Hl. rewrite length_app.
  destruct (Nat.leb_spec 16 (length (native_controls c))) as [H16|H16];
    destruct (native_controls c); cbn [tail length] in *; lia.
Qed.

Lemma receive_call_answer_moves now k s : moves s (receive_call_answer now k s).1.
Proof.
  unfold receive_call_answer. destruct (call s) as [c|] eqn:E; [|by apply moves_same].
  destruct (negb _); [by apply moves_same|].
  destruct (negb (bool_decide (direction c = Caller))) eqn:Hd; [by apply moves_same|].
  apply negb_false_iff, bool_decide_eq_true in Hd.
  case_decide as Ha.
  { destruct (selected_signer c); [apply publish_moves|by apply moves_same]. }
  destruct (negb (bool_decide (phase c = Outgoing))) eqn:Hp; [by apply moves_same|].
  apply negb_false_iff, bool_decide_eq_true in Hp.
  destruct (negb _); [apply call_end_moves|].
  eapply (publish_then _ _ (fun c => become_active now
           (with_parties (name k) (caller_signer c) (Some (signer k)) (peer k) c))); [done|done|].
  by eapply (tr_answered _ _ _ (signer k)).
Qed.

Lemma observe_selection_same now k r s :
  own (observe_call_selection now k r s) = own s /\ call (observe_call_selection now k r s) = call s.
Proof. unfold observe_call_selection. by destruct (owns s r). Qed.

Lemma receive_call_selection_moves now k r s : moves s (receive_call_selection now k r s).
Proof.
  unfold receive_call_selection. cbn zeta.
  set (s1 := if bool_decide (call s = None) then _ else s).
  assert (H1 : own s1 = own s /\ call s1 = call s).
  { unfold s1. destruct (bool_decide _); [apply observe_selection_same|done]. }
  destruct H1 as [Ho Hc]. destruct (call s1) as [c|] eqn:E; [|apply moves_same; congruence].
  destruct (negb (String.eqb (call_id c) _)); [apply moves_same; congruence|].
  destruct (negb (String.eqb (caller_signer c) (signer k)) || negb (bool_decide (direction c = Callee)))
    eqn:Hd; [apply moves_same; congruence|].
  apply orb_false_iff in Hd as [_ Hd%negb_false_iff%bool_decide_eq_true].
  case_decide; [apply moves_same; congruence|].
  destruct (negb (String.eqb r (own s1))) eqn:Hr.
  { apply moves_end; [|done]. cbn. by destruct (observe_selection_same now k r s1) as [-> _]. }
  apply negb_false_iff, String.eqb_eq in Hr.
  destruct (negb (bool_decide (phase c = Accepting))) eqn:Hp; [apply moves_same; congruence|].
  apply negb_false_iff, bool_decide_eq_true in Hp.
  split; [done|]. rewrite <-Hc. cbn. apply tr_chosen; try done; cbn; congruence.
Qed.

Lemma observe_own_same now k s : moves s (observe_own_call now k s).
Proof. unfold observe_own_call. apply moves_same; by destruct (authoritative_call_end s k), (action k). Qed.

Lemma receive_call_termination_moves now k s : moves s (receive_call_termination now k s).
Proof.
  unfold receive_call_termination. cbn zeta. set (s1 := on_occupancy _ s).
  assert (H1 : own s1 = own s /\ call s1 = call s) by done. destruct H1 as [Ho Hc].
  destruct (match call s1 with Some _ => _ | None => _ end) as [c|] eqn:E.
  2:{ destruct (authoritative_call_end _ _); by apply moves_same. }
  assert (Es : call s1 = Some c).
  { destruct (call s1) as [c0|]; [|done]. destruct (matches_id c0 _); [done|discriminate]. }
  match goal with |- moves s (if ?b then _ else _) => destruct b end; [by apply moves_same|].
  destruct (_ && _).
  { split; [done|]. cbn. rewrite <-Hc, Es. by apply tr_touch. }
  match goal with |- moves s (finish_call ?a ?b ?c ?d) =>
    destruct (finish_call_call a b c d) as [Hf1 Hf2] end.
  apply moves_end; [|done]. rewrite Hf2. case_decide; [|done]. by rewrite publish_own.
Qed.

Lemma apply_call_control_moves now k s : moves s (apply_call_control now k s).1.
Proof.
  unfold apply_call_control. destruct (confirmed_closed _ _); [by apply moves_same|].
  destruct (String.eqb _ _); [by apply moves_same|].
  destruct (owns _ _); [apply observe_own_same|].
  destruct (action k); cbn [fst].
  - apply receive_native_media_moves.
  - apply receive_call_offer_moves.
  - apply receive_call_answer_moves.
  - by apply moves_same.
  - apply receive_call_selection_moves.
  - apply receive_call_termination_moves.
  - apply receive_call_termination_moves.
Qed.

Lemma moves_via s s1 s2 : own s1 = own s -> call s1 = call s -> moves s1 s2 -> moves s s2.
Proof. intros Ho Hc [H1 H2]. split; [congruence|]. by rewrite <-Ho, <-Hc. Qed.

Lemma handle_call_control_moves now to body s : moves s (handle_call_control now to body s).1.
Proof.
  unfold handle_call_control. destruct (negb _); [by apply moves_same|]. cbn zeta.
  set (s1 := match membership s with Some _ => _ | None => s end).
  assert (H1 : own s1 = own s /\ call s1 = call s) by (unfold s1; by destruct (membership s)).
  destruct H1 as [Ho Hc]. destruct body as [[k sg]|e]; [|by apply moves_same].
  destruct (check_control s1 k sg); [|by apply moves_same].
  unfold m_bind at 1. destruct (ask s1) as [s2 r] eqn:Ea.
  assert (H2 : own s2 = own s /\ call s2 = call s).
  { unfold ask in Ea. injection Ea as <- _. done. }
  destruct H2 as [Ho2 Hc2]. destruct r; [|by apply moves_same]. cbn zeta.
  match goal with |- context [let '(_, _) := ?e in _] => destruct e as [book fresh] end.
  match goal with |- context [if ?b then apply_call_control now k ?s3 else _] =>
    assert (H3 : moves s (if b then apply_call_control now k s3 else (s3, Ok tt)).1);
    [|destruct (if b then apply_call_control now k s3 else (s3, Ok tt)) as [s4 out]] end.
  { destruct (_ || _); [|by apply moves_same].
    eapply moves_via; [| |apply apply_call_control_moves]; done. }
  cbn [fst] in H3. unfold m_bind, m_lift, ask. cbn.
  destruct (head (external s4)) as [[e|]|]; cbn; destruct H3 as [H4 H5]; by split.
Qed.

Lemma pump_moves now s : moves s (pump_call_signaling now s).
Proof.
  unfold pump_call_signaling. destruct (due now _) as [ends ready]. cbn zeta.
  set (s1 := foldl _ _ ready).
  assert (H1 : own s1 = own s /\ call s1 = call s).
  { unfold s1. set (s0 := on_ends _ _).
    assert (H0 : own s0 = own s /\ call s0 = call s) by done. revert H0. generalize s0.
    induction ready as [|[id a] ready IH]; intros s2 [Ho Hc]; cbn; [done|]. apply IH.
    by rewrite publish_own, publish_call. }
  destruct H1 as [Ho Hc]. destruct (call s1) as [c|] eqn:E; [|apply moves_same; congruence].
  destruct (_ && _); [eapply moves_via; [done| |apply call_end_moves]; congruence|].
  destruct (_ <? _)%N; [apply moves_same; congruence|].
  destruct (outbound_control c) as [a|]; [|apply moves_same; congruence].
  pose proof (publish_own (call_id c) a s1) as Hpo. pose proof (publish_call (call_id c) a s1) as Hpc.
  destruct (publish_authenticated_call _ _ _) as [s2 [u|e]]; cbn in Hpo, Hpc.
  - split; [cbn; congruence|]. cbn. rewrite Hpc, E, <-Hc. by apply tr_touch.
  - apply moves_same; congruence.
Qed.


(** ** What every reachable call satisfies *)

Definition call_ok (own : string) (c : CallState) : Prop :=
  length (native_controls c) <= 16 /\
  match direction c with
  | Caller => caller_signer c = own /\
      ((phase c = Outgoing /\ selected_signer c = None) \/
       (phase c = Active /\ is_Some (selected_signer c)))
  | Callee =>
      ((phase c = Ringing \/ phase c = Accepting) /\ selected_signer c = None) \/
      (phase c = Active /\ selected_signer c = Some own)
  end.

Lemma core_ok own_ c c' :
  core c' = core c -> (length (native_controls c) <= 16 -> length (native_controls c') <= 16) ->
  call_ok own_ c -> call_ok own_ c'.
Proof.
  unfold core, call_ok. intros [= _ Hd Hp Hc Hs _] Hn (Hl & Hm).
  split; [by apply Hn|]. by rewrite Hd, Hp, Hc, Hs.
Qed.

Lemma transition_ok own_ o o' :
  transition own_ o o' -> (forall c, o = Some c -> call_ok own_ c) ->
  forall c, o' = Some c -> call_ok own_ c.
Proof.
  destruct 1 as [| |c0 Hd Hp Hs Hsel Hn|c0 Hd Hp Hsel Hn|c0 c1 Hcore Hn|c0 c1 Hp Hcore Hn
                 |c0 c1 Hp Hd Hp' Hsel Hn Hm|c0 c1 r Hd Hp Hd' Hp' Hi Hcs Hsel Hn
                 |c0 c1 Hd Hp Hd' Hp' Hi Hcs Hsel Hn]; intros Ho c1' [= <-] || intros Ho c1' Hc1.
  all: try (by apply Ho); try done.
  all: try (specialize (Ho _ eq_refl)).
  - unfold call_ok. rewrite Hn, Hd. split; [cbn; lia|]. auto.
  - unfold call_ok. rewrite Hn, Hd. split; [cbn; lia|]. auto.
  - by eapply core_ok.
  - destruct Ho as (Hl & Hm). unfold core in Hcore. injection Hcore as _ Hd Hph Hcs Hsel _.
    cbn in Hd, Hph, Hcs, Hsel. unfold call_ok. rewrite Hn, Hd, Hph, Hsel. split; [done|].
    destruct (direction c0).
    + destruct Hm as (_ & [[Hp0 _]|[Hp0 _]]), Hp; congruence.
    + destruct Hm as [[_ ?]|[Hp0 _]]; [by auto|]. destruct Hp; congruence.
  - unfold call_ok. rewrite Hn, Hd. split; [cbn; lia|]. auto.
  - destruct Ho as (Hl & Hm). rewrite Hd in Hm. unfold call_ok. rewrite Hn, Hd'.
    split; [done|]. split; [rewrite Hcs; apply Hm|]. right. split; [done|]. by rewrite Hsel.
  - destruct Ho as (Hl & Hm). unfold call_ok. rewrite Hn, Hd'. split; [done|]. by right.
Qed.


(** ** Crossing calls *)

Lemma leb_total_neq a b : a <> b -> String.leb a b = negb (String.leb b a).
Proof.
  intros Hne. destruct (String.leb a b) eqn:H1, (String.leb b a) eqn:H2; try done.
  - destruct Hne. apply (anti_symm String.le); unfold String.le; by apply Is_true_true.
  - destruct (total String.le a b) as [H|H]; unfold String.le in H; apply Is_true_true in H; congruence.
Qed.

(** An offer reaches a device that is calling the offer's sender. *)
Definition crossing (s : CallSession) (c : CallState) (k : CallControl) (now : N) : Prop :=
  call s = Some c /\ direction c = Caller /\ phase c = Outgoing /\ caller_signer c = own s /\
  action k = Offer /\ k_media_protocol k = media_protocol /\ call_id c <> k_call_id k /\
  closed_call_offer s (k_call_id k) = false /\
  selected (call_occupancy s) (k_call_id k) now = false.

Lemma crossing_result s c k now :
  crossing s c k now -> signer k <> own s ->
  if String.leb (own s) (signer k)
  then exists c', call (receive_call_offer now k s).1 = Some c' /\ direction c' = Caller /\
         phase c' = Outgoing /\ call_id c' = call_id c /\ caller_signer c' = own s /\
         merged_call_id c' = Some (k_call_id k)
  else exists c', call (receive_call_offer now k s).1 = Some c' /\ direction c' = Callee /\
         phase c' = Accepting /\ call_id c' = k_call_id k /\ caller_signer c' = signer k /\
         merged_call_id c' = Some (call_id c).
Proof.
  intros (Hc & Hd & Hp & Hcs & Ha & Hm & Hne & Hclosed & Hsel) Hsig.
  unfold receive_call_offer. rewrite Hclosed, Hsel. cbn [orb].
  unfold same_media_protocol. rewrite Hm, N.eqb_refl. cbn [negb]. rewrite Hc.
  rewrite Hp, bool_decide_true by done. rewrite (proj2 (String.eqb_neq _ _)) by done. cbn [negb andb].
  unfold merge_cross_call, pair_geb. cbn [fst snd]. rewrite Hcs.
  rewrite (proj2 (String.eqb_neq _ _)) by done.
  destruct (String.leb (own s) (signer k)).
  - cbn. rewrite Hc. cbn. eexists. split; [done|]. done.
  - unfold publish_call_accept. rewrite publish_call. cbn. eexists. split; [done|]. done.
Qed.

(** Crossing calls become one call: when two devices call each other and
    each receives the other's offer, both end up with the same call, under the
    same caller and remembering the same replaced call, one of them still
    calling and the other answering, whatever the publications meet. *)
Theorem cross_calls_converge sa sb ca cb ka kb now now' :
  crossing sa ca kb now -> crossing sb cb ka now' ->
  signer ka = own sa -> k_call_id ka = call_id ca ->
  signer kb = own sb -> k_call_id kb = call_id cb -> own sa <> own sb ->
  exists ca' cb',
    call (receive_call_offer now kb sa).1 = Some ca' /\
    call (receive_call_offer now' ka sb).1 = Some cb' /\
    call_id ca' = call_id cb' /\ caller_signer ca' = caller_signer cb' /\
    merged_call_id ca' = merged_call_id cb' /\
    ((direction ca' = Caller /\ phase ca' = Outgoing /\
      direction cb' = Callee /\ phase cb' = Accepting) \/
     (direction cb' = Caller /\ phase cb' = Outgoing /\
      direction ca' = Callee /\ phase ca' = Accepting)).
Proof.
  intros Ha Hb Hsa Hia Hsb Hib Hne.
  pose proof (crossing_result sa ca kb now Ha ltac:(congruence)) as Ra.
  pose proof (crossing_result sb cb ka now' Hb ltac:(congruence)) as Rb.
  rewrite Hsb, Hib in Ra. rewrite Hsa, Hia in Rb.
  rewrite (leb_total_neq (own sb) (own sa)) in Rb by done.
  destruct (String.leb (own sa) (own sb)); cbn [negb] in Rb;
    destruct Ra as (ca' & ? & ? & ? & ? & ? & ?), Rb as (cb' & ? & ? & ? & ? & ? & ?);
    exists ca', cb'; (split; [done|]); (split; [done|]); (split; [congruence|]);
    (split; [congruence|]); (split; [congruence|]); [by left|by right].
Qed.

(** ** Sequences and table bounds *)

Definition sent_between (lo hi : N) (l : list CallControl) : Prop :=
  StronglySorted N.lt (map sequence l) /\
  Forall (fun k => (lo < sequence k <= hi)%N) l.

(** What every operation does to the controls published and to the tables. *)
Record evolves (s s' : CallSession) : Prop := {
  ev_self : own s' = own s /\ session_id s' = session_id s;
  ev_next : (next_sequence (call_controls s) <= next_sequence (call_controls s'))%N;
  ev_sent : exists l, sent s' = sent s ++ l /\
    sent_between (next_sequence (call_controls s)) (next_sequence (call_controls s')) l /\
    Forall (fun k => signer k = own s /\ k_session_id k = session_id s) l;
  ev_closed : length (closed_calls (call_controls s)) <= 512 ->
              length (closed_calls (call_controls s')) <= 512;
  ev_devices : size (devices (call_occupancy s)) <= 64 ->
               size (devices (call_occupancy s')) <= 64;
  ev_ends : length (call_ends s) <= MAX_TERMINAL_CONTROLS ->
            length (call_ends s') <= MAX_TERMINAL_CONTROLS;
}.

Lemma sent_between_nil lo hi : sent_between lo hi [].
Proof. split; constructor. Qed.

Lemma sent_between_app lo mid hi l l' :
  (lo <= mid)%N -> (mid <= hi)%N ->
  sent_between lo mid l -> sent_between mid hi l' -> sent_between lo hi (l ++ l').
Proof.
  intros H1 H2 [Hs Hb] [Hs' Hb']. rewrite Forall_forall in Hb, Hb'. split.
  - rewrite map_app. apply StronglySorted_app_2; [|done|done].
    intros x y Hx Hy. apply list_elem_of_fmap in Hx as (a & -> & Ha).
    apply list_elem_of_fmap in Hy as (b & -> & Hb0).
    apply Hb in Ha. apply Hb' in Hb0. lia.
  - apply Forall_app. split; rewrite Forall_forall; intros k Hk;
      [apply Hb in Hk|apply Hb' in Hk]; lia.
Qed.

Lemma evolves_refl s : evolves s s.
Proof.
  split; try done. exists []. rewrite app_nil_r. auto using sent_between_nil.
Qed.

Lemma evolves_trans s1 s2 s3 : evolves s1 s2 -> evolves s2 s3 -> evolves s1 s3.
Proof.
  intros [[Ho Hi] Hn (l & Hl & Hb & Hf) Hc Hd He] [[Ho' Hi'] Hn' (l' & Hl' & Hb' & Hf') Hc' Hd' He'].
  split; [split; congruence|lia| |auto|auto|auto].
  exists (l ++ l'). rewrite Hl', Hl, app_assoc. split; [done|].
  split; [by eapply sent_between_app|]. rewrite Ho, Hi in Hf'. by apply Forall_app.
Qed.

(** Steps that send nothing. *)
Lemma evolves_quiet s s' :
  own s' = own s -> session_id s' = session_id s -> sent s' = sent s ->
  next_sequence (call_controls s') = next_sequence (call_controls s) ->
  (length (closed_calls (call_controls s)) <= 512 -> length (closed_calls (call_controls s')) <= 512) ->
  (size (devices (call_occupancy s)) <= 64 -> size (devices (call_occupancy s')) <= 64) ->
  (length (call_ends s) <= MAX_TERMINAL_CONTROLS -> length (call_ends s') <= MAX_TERMINAL_CONTROLS) ->
  evolves s s'.
Proof.
  intros Ho Hi Hs Hn Hc Hd He. split; try done; [lia|].
  exists []. rewrite app_nil_r. auto using sent_between_nil.
Qed.

Lemma publish_evolves s0 id a s :
  evolves s0 s -> evolves s0 (publish_authenticated_call id a s).1.
Proof.
  intros H. eapply evolves_trans; [exact H|]. clear s0 H.
  unfold publish_authenticated_call, allocate_sequence, checked_add64.
  destruct (_ <=? _)%N eqn:E; cbn zeta iota beta.
  2:{ by apply evolves_quiet. }
  set (b := {| next_sequence := _; received := _; closed_calls := _ |}).
  set (s1 := set_controls b s).
  assert (H1 : forall s2, own s2 = own s -> session_id s2 = session_id s -> sent s2 = sent s ->
             call_controls s2 = b -> call_occupancy s2 = call_occupancy s ->
             call_ends s2 = call_ends s -> evolves s s2).
  { intros s2 Ho Hi Hs Hb Hoc He. split; rewrite ?Hb, ?Hoc, ?He; try done; [cbn; lia|].
    exists []. rewrite app_nil_r. auto using sent_between_nil. }
  destruct (local_peer_id s1) as [p|]; [|by apply H1].
  unfold m_bind, ask, m_modify. cbn.
  destruct (external s) as [|[e|] [|[e1|] [|[e2|] ext]]]; cbn; try (by apply H1).
  all: split; cbn; try done; [lia|]; eexists; split; [done|]; split; [|by repeat constructor];
    split; cbn; [by repeat constructor|]; repeat constructor; cbn; lia.
Qed.

Lemma filter_le {A} (P : A -> Prop) `{forall x, Decision (P x)} (l : list A) n :
  length l <= n -> length (filter P l) <= n.
Proof. intros. pose proof (length_filter P l). lia. Qed.

Lemma close_bound id c b :
  length (closed_calls b) <= 512 -> length (closed_calls (close id c b)) <= 512.
Proof.
  intros Hb. cbn [closed_calls close]. destruct (closed b id).
  - assert (forall l, length (confirm_closed id c l) = length l) as ->; [|done].
    intros l. induction l as [|x l IH]; cbn [confirm_closed]; [done|].
    destruct (String.eqb _ _); cbn; lia.
  - rewrite length_app. destruct (Nat.eqb_spec (length (closed_calls b)) 512) as [E|E];
      destruct (closed_calls b); cbn [tail length] in *; lia.
Qed.

Lemma remember_bound id a now l :
  length l <= MAX_TERMINAL_CONTROLS -> length (remember id a now l) <= MAX_TERMINAL_CONTROLS.
Proof.
  unfold remember. intros Hl. cbn zeta.
  match goal with |- context [if (length ?l0 =? _)%nat then _ else _] =>
    assert (length l0 <= MAX_TERMINAL_CONTROLS) as Hl' by (by apply filter_le);
    revert Hl'; generalize l0; intros l' Hl' end.
  unfold MAX_TERMINAL_CONTROLS in *. rewrite length_app.
  destruct (Nat.eqb_spec (length l') 32) as [E|E]; destruct l'; cbn [tail length] in *; lia.
Qed.

Lemma retain_bound p o : size (devices (retain_devices p o)) <= size (devices o).
Proof. cbn. apply map_size_filter. Qed.

Lemma reserve_bound d id caller r now o :
  size (devices o) <= 64 -> size (devices (reserve d id caller r now o)) <= 64.
Proof.
  intros Ho. unfold reserve. cbn zeta. set (o' := expire now o).
  assert (size (devices o') <= 64) as Ho'.
  { pose proof (retain_bound (fun r => (now <? expires r)%N) o). unfold o', expire. lia. }
  destruct (_ && _) eqn:E; [done|]. cbn [devices]. apply andb_false_iff in E as [E|E].
  - apply Nat.leb_gt in E. rewrite map_size_insert.
    destruct (devices o' !! d); cbn beta iota; unfold Datatypes.id; lia.
  - apply negb_false_iff, bool_decide_eq_true in E as [x Hx]. rewrite map_size_insert, Hx. done.
Qed.

Lemma finish_bound id c o : size (devices (finish id c o)) <= size (devices o).
Proof.
  unfold finish, forget_offer. pose proof (retain_bound (fun r => negb (String.eqb (r_call_id r) id)) o).
  destruct c; [|done]. cbn zeta.
  destruct (admitted_offer _) as [[i ?]|]; [|done]. by destruct (String.eqb _ _).
Qed.

(** One rule per primitive, to peel an operation from the outside in. *)
Lemma ev_set_call s0 s c : evolves s0 s -> evolves s0 (set_call c s).
Proof. intros H. eapply evolves_trans; [exact H|]. by apply evolves_quiet. Qed.
Lemma ev_on_call s0 s f : evolves s0 s -> evolves s0 (on_call f s).
Proof. apply ev_set_call. Qed.
Lemma ev_note s0 s n : evolves s0 s -> evolves s0 (note_frame n s).
Proof. intros H. eapply evolves_trans; [exact H|]. by apply evolves_quiet. Qed.
Lemma ev_dirty s0 s : evolves s0 s -> evolves s0 (mark_dirty s).
Proof. intros H. eapply evolves_trans; [exact H|]. by apply evolves_quiet. Qed.
Lemma ev_env s0 s d e l f n : evolves s0 s -> evolves s0 (env d e (sent s) l f n s).
Proof. intros H. eapply evolves_trans; [exact H|]. by apply evolves_quiet. Qed.
Lemma ev_ask s0 s : evolves s0 s -> evolves s0 (ask s).1.
Proof. apply ev_env. Qed.
Lemma ev_controls s0 s b :
  next_sequence b = next_sequence (call_controls s) ->
  (length (closed_calls (call_controls s)) <= 512 -> length (closed_calls b) <= 512) ->
  evolves s0 s -> evolves s0 (set_controls b s).
Proof. intros Hn Hc H. eapply evolves_trans; [exact H|]. by apply evolves_quiet. Qed.
Lemma ev_close s0 s id c : evolves s0 s -> evolves s0 (set_controls (close id c (call_controls s)) s).
Proof. apply ev_controls; [done|apply close_bound]. Qed.
Lemma ev_occ s0 s f :
  (forall o, size (devices o) <= 64 -> size (devices (f o)) <= 64) ->
  evolves s0 s -> evolves s0 (on_occupancy f s).
Proof. intros Hf H. eapply evolves_trans; [exact H|]. apply evolves_quiet; try done. apply Hf. Qed.
Lemma ev_finish_occ s0 s id c : evolves s0 s -> evolves s0 (on_occupancy (finish id c) s).
Proof. apply ev_occ. intros o Ho. pose proof (finish_bound id c o). lia. Qed.
Lemma ev_reserve s0 s d id c r now :
  evolves s0 s -> evolves s0 (on_occupancy (reserve d id c r now) s).
Proof. apply ev_occ. intros o. apply reserve_bound. Qed.
Lemma ev_remember s0 s id a now : evolves s0 s -> evolves s0 (on_ends (remember id a now) s).
Proof.
  intros H. eapply evolves_trans; [exact H|]. apply evolves_quiet; try done. apply remember_bound.
Qed.

Lemma ev_bind {A B} s0 s (m : op A) (f : A -> op B) :
  evolves s0 (m s).1 -> (forall a s1, evolves s0 s1 -> evolves s0 (f a s1).1) ->
  evolves s0 (m_bind m f s).1.
Proof. intros Hm Hf. unfold m_bind. destruct (m s) as [s1 [a|e]]; [by apply Hf|exact Hm]. Qed.
Lemma ev_modify s0 s f : evolves s0 (f s) -> evolves s0 ((m_modify f : op unit) s).1.
Proof. done. Qed.

Lemma ev_append s0 s now c o k d id :
  evolves s0 s -> evolves s0 (append_call_event_message now c o k d id s).
Proof.
  intros H. unfold append_call_event_message. destruct (stamp _ _ _ _). by apply ev_env.
Qed.

Lemma ev_finish_call s0 s now k d : evolves s0 s -> evolves s0 (finish_call now k d s).
Proof.
  intros H. unfold finish_call. destruct (call s) as [c|]; [|done].
  apply ev_append, ev_finish_occ, ev_dirty.
  destruct (merged_call_id c); [apply ev_close|]; by apply ev_close, ev_set_call.
Qed.

Lemma install_evolves s0 now k s : evolves s0 s -> evolves s0 (install_incoming_call now k s).
Proof.
  intros H. unfold install_incoming_call. apply ev_note, ev_set_call, ev_occ; [done|done].
Qed.

(** Peels one rule; what is left open is the operation's own branching. *)
Ltac evolve :=
  repeat first
    [ apply evolves_refl
    | eassumption
    | apply install_evolves
    | apply publish_evolves | apply ev_set_call | apply ev_on_call | apply ev_note
    | apply ev_dirty | apply ev_close | apply ev_finish_occ | apply ev_reserve
    | apply ev_remember | apply ev_append | apply ev_finish_call
    | apply ev_modify
    | apply ev_bind; [|intros ? ? ?] | apply ev_ask ].

Lemma call_end_evolves s0 now id reason s :
  evolves s0 s -> evolves s0 (call_end now id reason s).1.
Proof.
  intros H. unfold call_end. destruct (call s) as [c|]; [|done]. destruct (negb _); [done|].
  cbn zeta. match goal with |- context [publish_authenticated_call ?i ?a ?s1] =>
    pose proof (publish_evolves s0 i a s1) as Hp; destruct (publish_authenticated_call i a s1) end.
  cbn in Hp |- *. evolve. apply Hp. evolve.
Qed.

Lemma call_start_evolves now s : evolves s (call_start now s).1.
Proof.
  unfold call_start. destruct (negb _); [evolve|]. destruct (bool_decide _); [evolve|].
  pose proof (ev_ask s s (evolves_refl s)) as Ha. destruct (ask s) as [s1 [u|e]]; [|exact Ha].
  cbn in Ha. cbn zeta. unfold publish_call_offer.
  match goal with |- context [publish_authenticated_call ?i ?a ?s2] =>
    pose proof (publish_evolves s i a s2) as Hp; destruct (publish_authenticated_call i a s2) as [s3 [u'|e]] end;
    cbn [fst] in Hp |- *; evolve; apply Hp, ev_set_call, ev_env, Ha.
Qed.

Lemma call_accept_evolves now id s : evolves s (call_accept now id s).1.
Proof.
  unfold call_accept. destruct (call s) as [c|]; [|evolve]. destruct (_ || _); [evolve|].
  unfold publish_call_accept. evolve.
Qed.

Lemma call_decline_evolves now id reason s : evolves s (call_decline now id reason s).1.
Proof. unfold call_decline. destruct (negb _); evolve. Qed.

Lemma receive_call_offer_evolves now k s : evolves s (receive_call_offer now k s).1.
Proof.
  unfold receive_call_offer. destruct (_ || _); [evolve|].
  destruct (negb _); [unfold refuse_other_engine; evolve|].
  destruct (call s) as [c|].
  - destruct (_ && _).
    + unfold merge_cross_call, publish_call_accept. destruct (pair_geb _ _); evolve.
    + unfold publish_call_accept. destruct (_ && _); evolve.
  - destruct (_ || _); evolve.
Qed.

Lemma receive_native_media_evolves k sig s : evolves s (receive_native_media k sig s).
Proof.
  unfold receive_native_media. destruct (negb _); [evolve|]. destruct (call s) as [c|]; [|evolve].
  destruct (negb _); [evolve|]. destruct (_ || _); [evolve|].
  match goal with |- evolves s (if ?b then s else _) => destruct b end; evolve.
Qed.

Lemma receive_call_answer_evolves now k s : evolves s (receive_call_answer now k s).1.
Proof.
  unfold receive_call_answer. destruct (call s) as [c|]; [|evolve].
  destruct (negb _); [evolve|]. destruct (negb _); [evolve|].
  destruct (decide _). { destruct (selected_signer c); evolve. }
  destruct (negb _); [evolve|].
  destruct (negb _); [apply call_end_evolves|]; evolve.
Qed.

Lemma observe_selection_evolves s0 now k r s :
  evolves s0 s -> evolves s0 (observe_call_selection now k r s).
Proof.
  intros H. unfold observe_call_selection. destruct (owns s r); [|done]. apply ev_occ; [|done].
  intros o Ho. unfold reserve_selected.
  assert (size (devices (expire now o)) <= 64).
  { unfold expire. pose proof (retain_bound (fun r => (now <? expires r)%N) o). lia. }
  destruct (negb _); [done|].
  match goal with |- context [if ?b then expire now o else _] => destruct b end; [done|].
  by apply reserve_bound.
Qed.

Lemma receive_call_selection_evolves now k r s : evolves s (receive_call_selection now k r s).
Proof.
  unfold receive_call_selection. cbn zeta. set (s1 := if bool_decide (call s = None) then _ else s).
  assert (H1 : evolves s s1).
  { unfold s1. destruct (bool_decide _); [apply observe_selection_evolves|]; evolve. }
  revert H1. generalize s1. clear s1. intros s1 H1.
  destruct (call s1) as [c|]; [|done]. destruct (negb _); [done|]. destruct (_ || _); [done|].
  destruct (decide _); [done|]. destruct (negb _).
  { apply ev_set_call. by apply observe_selection_evolves. }
  destruct (negb _); evolve.
Qed.

Lemma release_bound d id o : size (devices (release d id o)) <= size (devices o).
Proof.
  unfold release. destruct (devices o !! d) as [r|]; [|done].
  destruct (String.eqb _ _); [|done]. cbn. rewrite map_size_delete.
  destruct (devices o !! d); cbn beta iota; unfold Datatypes.id; lia.
Qed.

Lemma observe_own_evolves now k s : evolves s (observe_own_call now k s).
Proof.
  unfold observe_own_call. cbn zeta. set (s1 := if authoritative_call_end s k then _ else s).
  assert (H1 : evolves s s1) by (unfold s1; destruct (authoritative_call_end s k); evolve).
  revert H1. generalize s1. clear s1. intros s1 H1.
  destruct (action k); evolve; (apply ev_occ; [|done]); intros o Ho;
    pose proof (release_bound (signer k) (k_call_id k) o); lia.
Qed.

Lemma receive_end_bound sd id o : size (devices (receive_end sd id o)) <= size (devices o).
Proof.
  unfold receive_end. cbn zeta. etransitivity; [apply retain_bound|].
  destruct (bool_decide _); [|done]. unfold forget_offer.
  destruct (admitted_offer o) as [[i ?]|]; [|done]. by destruct (String.eqb _ _).
Qed.

Lemma receive_call_termination_evolves now k s : evolves s (receive_call_termination now k s).
Proof.
  unfold receive_call_termination. cbn zeta. set (s1 := on_occupancy _ s).
  assert (H1 : evolves s s1).
  { unfold s1. apply ev_occ; [|evolve]. intros o Ho.
    pose proof (receive_end_bound (signer k) (k_call_id k) o). lia. }
  revert H1. generalize s1. clear s1. intros s1 H1.
  destruct (match call s1 with Some _ => _ | None => _ end) as [c|].
  2:{ destruct (authoritative_call_end _ _); evolve. }
  match goal with |- evolves s (if ?b then _ else _) => destruct b end; [done|].
  destruct (_ && _); [evolve|]. apply ev_finish_call. destruct (decide _); evolve.
Qed.

Lemma apply_call_control_evolves now k s : evolves s (apply_call_control now k s).1.
Proof.
  unfold apply_call_control. destruct (confirmed_closed _ _); [evolve|].
  destruct (String.eqb _ _); [evolve|].
  destruct (owns _ _); [apply observe_own_evolves|].
  destruct (action k); cbn [fst]; auto using receive_native_media_evolves,
    receive_call_offer_evolves, receive_call_answer_evolves, receive_call_selection_evolves,
    receive_call_termination_evolves, evolves_refl.
Qed.

Lemma ev_lift {A} s0 s (r : result PrivateDmRuntimeError A) :
  evolves s0 s -> evolves s0 ((m_lift r : op A) s).1.
Proof. done. Qed.

Lemma handle_call_control_evolves now to body s :
  evolves s (handle_call_control now to body s).1.
Proof.
  unfold handle_call_control. destruct (negb _); [evolve|]. cbn zeta.
  set (s1 := match membership s with Some _ => _ | None => s end).
  assert (H1 : evolves s s1).
  { unfold s1. destruct (membership s); [apply ev_controls|]; evolve; done. }
  revert H1. generalize s1. clear s1. intros s1 H1.
  destruct body as [[k sg]|e]; [|done]. destruct (check_control s1 k sg); [|done].
  apply ev_bind; [by apply ev_ask|]. intros _ s2 H2. cbn zeta.
  destruct (if match action k with Media _ => true | _ => false end then _ else _) as [b fr] eqn:Eb.
  assert (H3 : evolves s (set_controls b s2)).
  { assert (next_sequence b = next_sequence (call_controls s2) /\
            closed_calls b = closed_calls (call_controls s2)) as [Hn Hc].
    { destruct (match action k with Media _ => true | _ => false end); [by injection Eb as <- _|].
      unfold receive in Eb. destruct (_ || _); by injection Eb as <- _. }
    apply ev_controls; [done|by rewrite Hc|done]. }
  assert (H4 : forall g : bool, evolves s
    (if g then apply_call_control now k (set_controls b s2) else (set_controls b s2, Ok tt)).1).
  { intros [|]; [|done]. eapply evolves_trans; [exact H3|apply apply_call_control_evolves]. }
  match goal with |- context [if ?g then apply_call_control _ _ _ else _] =>
    specialize (H4 g); destruct (if g then apply_call_control now k (set_controls b s2)
                                 else (set_controls b s2, Ok tt)) as [s4 out] end.
  cbn [fst] in H4. apply ev_bind; [by apply ev_ask, ev_dirty|]. intros. by apply ev_lift.
Qed.

Lemma pump_evolves now s : evolves s (pump_call_signaling now s).
Proof.
  unfold pump_call_signaling. cbn zeta. set (s0 := on_occupancy (expire now) s).
  assert (H0 : evolves s s0).
  { apply ev_occ; [|evolve]. intros o Ho. unfold expire.
    pose proof (retain_bound (fun r => (now <? expires r)%N) o). lia. }
  assert (Hd : length (due now (call_ends s0)).1 <= length (call_ends s0)).
  { unfold due. cbn [fst]. rewrite length_map. apply length_filter. }
  destruct (due now (call_ends s0)) as [ends ready]. cbn [fst] in Hd.
  assert (H1 : evolves s (on_ends (fun _ => ends) s0)).
  { eapply evolves_trans; [exact H0|]. apply evolves_quiet; try done.
    intros He. change (length ends <= MAX_TERMINAL_CONTROLS). lia. }
  set (s1 := foldl _ _ ready).
  assert (H2 : evolves s s1).
  { unfold s1. revert H1. generalize (on_ends (fun _ => ends) s0).
    induction ready as [|[id a] ready IH]; intros s2 Hs2; cbn [foldl]; [done|].
    apply IH. by apply publish_evolves. }
  revert H2. generalize s1. clear -s. intros s1 H2.
  destruct (call s1) as [c|]; [|done]. destruct (_ && _); [by apply call_end_evolves|].
  destruct (_ <? _)%N; [done|]. destruct (outbound_control c) as [a|]; [|done].
  pose proof (publish_evolves s (call_id c) a s1 H2) as Hp.
  destruct (publish_authenticated_call (call_id c) a s1) as [s3 [u|e]]; [by apply ev_on_call|done].
Qed.

Lemma step_evolves s s' : call_step s s' -> evolves s s'.
Proof.
  destruct 1; auto using call_start_evolves, call_accept_evolves, call_decline_evolves,
    handle_call_control_evolves, pump_evolves, call_end_evolves, evolves_refl.
  unfold publish_native_media. destruct (_ || _); evolve.
Qed.


(** ** Replays *)

(** What a replayed control could have disturbed. *)
Definition undisturbed (s s' : CallSession) : Prop :=
  call s' = call s /\ call_occupancy s' = call_occupancy s /\ call_ends s' = call_ends s /\
  closed_calls (call_controls s') = closed_calls (call_controls s) /\ chat s' = chat s /\
  frames s' = frames s /\ sent s' = sent s.

(** A replayed control is inert: once a signer's control of some sequence
    was received, no control of that signer with the same or a smaller
    sequence has any effect on the call, the reservations, the retries, the
    closed calls, the message log or the wire, unless it is one of the two
    kinds the code exempts, those that end a call and media signals. *)
Theorem replayed_control_inert now to k mls s old :
  received (call_controls s) !! signer k = Some old -> (sequence k <= old)%N ->
  match action k with Media _ | End_ _ _ | Decline _ => False | _ => True end ->
  undisturbed s (handle_call_control now to (Ok (k, mls)) s).1.
Proof.
  intros Hr Hseq Hact. unfold handle_call_control. destruct (negb _); [by repeat split|].
  cbn zeta. set (s1 := match membership s with Some _ => _ | None => s end).
  assert (H1 : undisturbed s s1) by (unfold s1; destruct (membership s); by repeat split).
  destruct (check_control s1 k mls) as [u|e] eqn:Echeck; [|exact H1].
  assert (Hr1 : received (call_controls s1) !! signer k = Some old).
  { unfold s1 in *. destruct (membership s) as [m|] eqn:Em; [|done].
    unfold check_control in Echeck. cbn [membership set_controls upd] in Echeck. rewrite Em in Echeck.
    destruct (_ || _); [done|].
    destruct (bool_decide (call_peer m (signer k) = Some (peer k))) eqn:Hp;
      [|discriminate Echeck].
    apply bool_decide_eq_true in Hp. cbn. apply map_lookup_filter_Some. split; [done|].
    cbn. rewrite bool_decide_true; [done|]. rewrite Hp. by eexists. }
  revert H1 Hr1. generalize s1. clear Echeck s1. intros s1 H1 Hr1.
  unfold m_bind at 1. assert (H2 : undisturbed s (ask s1).1 /\
    received (call_controls (ask s1).1) !! signer k = Some old) by (by split).
  destruct (ask s1) as [s2 [u2|e]]; cbn [fst] in H2; destruct H2 as [H2 Hr2]; [|exact H2].
  assert (Hrecv : receive (signer k) (sequence k) (call_controls s2) = (call_controls s2, false)).
  { unfold receive. rewrite Hr2. by rewrite (proj2 (N.leb_le _ _) Hseq), orb_true_r. }
  assert (H3 : undisturbed s (mark_dirty (set_controls (call_controls s2) s2))) by exact H2.
  revert H3. destruct (action k); try done; rewrite Hrecv; cbn [orb]; intros H3;
    unfold m_bind, m_lift, ask; destruct (head _) as [[e|]|]; exact H3.
Qed.

(** ** The ring deadline *)

Lemma publish_draws id a s : draws (publish_authenticated_call id a s).1 = draws s.
Proof.
  unfold publish_authenticated_call, allocate_sequence.
  destruct (checked_add64 _ _); [|done]. destruct (local_peer_id _); [|done].
  unfold m_bind, ask, m_modify. cbn.
  by destruct (external s) as [|[e|] [|[e1|] [|[e2|] ext]]].
Qed.

Lemma fold_publish_kept l s :
  kept s (foldl (fun s '(id, a) => (publish_authenticated_call id a s).1) s l).
Proof.
  revert s. induction l as [|[id a] l IH]; intros s; cbn [foldl]; [apply kept_refl|].
  eapply kept_trans; [apply publish_kept|apply IH].
Qed.

Lemma finish_call_log now kd d s c :
  call s = Some c ->
  call_ends (finish_call now kd d s) = call_ends s /\
  exists m, chat (finish_call now kd d s) = push_stamped now (os_hex (draws s)) m (chat s) /\
    call_event m = Some {| kind := kd; duration_ms := d; ce_call_id := call_id c |}.
Proof.
  intros Hc. unfold finish_call. rewrite Hc. unfold append_call_event_message, push_stamped.
  destruct (merged_call_id c); cbn zeta;
    match goal with |- context [stamp _ _ _ ?m0] => set (m := m0) end; cbn [chat draws env upd
      on_occupancy mark_dirty set_controls set_call call_controls];
    destruct (stamp now _ _ m) as [log m'] eqn:Es; (split; [done|]); exists m;
    (split; [|done]); cbn [chat env]; by rewrite Es.
Qed.

End Session.

(** ** Concrete sessions *)

Definition idle_session (me device peer_id : string) : CallSession := {|
  session_id := "dm-1"; device_id := device; own := me; local_peer_id := Some ("moss-" +:+ me);
  peer_moss_id := Some peer_id; membership := None; connected := true;
  call_admission_blocked := false; call := None;
  call_controls := {| next_sequence := 0; received := ∅; closed_calls := [] |};
  call_occupancy := {| devices := ∅; admitted_offer := None |}; call_ends := [];
  chat := default_log; record_dirty := false; frames := []; draws := 0; external := []; sent := [] |}.

Definition alice : CallSession := idle_session "aa" "alice-phone" "moss-bb".
Definition bob : CallSession := idle_session "bb" "bob-phone" "moss-aa".
Definition hex_of (n : nat) : string := if (n =? 0)%nat then "00ff" else "11ee".

Definition control_of (sg device id : string) (seq : N) (a : CallAction) : CallControl :=
  {| k_session_id := "dm-1"; k_call_id := id; signer := sg; sequence := seq;
     peer := "moss-" +:+ sg; name := device; action := a; k_media_protocol := 2 |}.

(** Alice calls, Bob answers. *)
Definition alice_calling : CallSession := (call_start 2 hex_of 1000 alice).1.
Definition bob_answer : CallControl := control_of "bb" "bob-phone" "call-00ff" 1 Answer.
Definition alice_active : CallSession :=
  (handle_call_control 2 hex_of 1500 "dm-1" (Ok (bob_answer, "bb")) alice_calling).1.

Example alice_is_active :
  phase <$> call alice_active = Some Active /\
  (selected_signer <$> call alice_active) = Some (Some "bb") /\
  map action (sent alice_active) = [Offer; Selected "bb"].
Proof. vm_compute. done. Qed.



(** Bob calls too; the offers cross. *)
Definition bob_calling : CallSession :=
  (call_start 2 (fun _ => "b0b0") 1100 bob).1.
Definition call_of (s : CallSession) : CallState := default (outgoing "" "") (call s).

Lemma cross_calls_converge_witness :
  exists ca' cb',
    call (receive_call_offer 2 hex_of 1200 (control_of "bb" "bob-phone" "call-b0b0" 1 Offer) alice_calling).1
      = Some ca' /\
    call (receive_call_offer 2 hex_of 1200 (control_of "aa" "alice-phone" "call-00ff" 1 Offer) bob_calling).1
      = Some cb' /\
    call_id ca' = call_id cb' /\ caller_signer ca' = caller_signer cb' /\
    merged_call_id ca' = merged_call_id cb' /\
    ((direction ca' = Caller /\ phase ca' = Outgoing /\ direction cb' = Callee /\ phase cb' = Accepting) \/
     (direction cb' = Caller /\ phase cb' = Outgoing /\ direction ca' = Callee /\ phase ca' = Accepting)).
Proof.
  apply (cross_calls_converge 2 hex_of alice_calling bob_calling (call_of alice_calling)
           (call_of bob_calling)); done.
Defined.


Lemma replayed_control_inert_witness :
  undisturbed alice_active
    (handle_call_control 2 hex_of 1600 "dm-1" (Ok (bob_answer, "bb")) alice_active).1.
Proof.
  apply (replayed_control_inert 2 hex_of 1600 "dm-1" bob_answer "bb" alice_active 1).
  - vm_compute. reflexivity.
  - vm_compute. discriminate.
  - exact I.
Defined.

End Calls.
