(* ===== verification/Devices.v ===== *)
(** * Devices: the device roster of a user ([device_link/roster.rs])

    A user's devices are a chain of signed authorizations.  Each entry names
    the digest of the chain before it and is signed by a device that is active
    there; an addition authorizes a device, a removal revokes one.  Ed25519,
    SHA-256, hex decoding and [serde_json] are parameters.  The [OnceLock] that
    remembers a chain's verdict is left out: entries never change. *)
From S2P Require Import Prelude.

Module Devices.

#[local] Open Scope mosh_scope.
#[local] Set Default Proof Using "Type".

(** ** Errors and descriptors ([device_link/types.rs]) *)

Inductive DeviceLinkErrorKind :=
| InvalidQr | Expired | Busy | Ineligible | CodeMismatch | Rejected | ConnectionLost
| InvalidRoster | Storage | Unavailable.
#[export] Instance DeviceLinkErrorKind_eq_dec : EqDecision DeviceLinkErrorKind.
Proof. solve_decision. Defined.

Record DeviceLinkError := { error_kind : DeviceLinkErrorKind; message : string }.

Definition new_error (k : DeviceLinkErrorKind) : DeviceLinkError :=
  {| error_kind := k;
     message := match k with
       | InvalidQr => "invalid device link"
       | Expired => "device link expired"
       | Busy => "a device link is already active"
       | Ineligible => "only a fresh desktop can join another user"
       | CodeMismatch => "device code does not match"
       | Rejected => "device link declined"
       | ConnectionLost => "device link connection interrupted"
       | InvalidRoster => "device authorization is invalid"
       | Storage => "device identity storage failed"
       | Unavailable => "device linking unavailable"
       end |}.

Definition invalid : DeviceLinkError := new_error InvalidRoster.

Record DeviceDescriptor := {
  device_id : string;
  signing_public_key : string;
  moss_peer_id : string;
  name : string;
}.
#[export] Instance DeviceDescriptor_eq_dec : EqDecision DeviceDescriptor.
Proof. solve_decision. Defined.

#[export] Instance DeviceDescriptor_countable : Countable DeviceDescriptor.
Proof.
  apply (inj_countable' (fun d => (device_id d, signing_public_key d, moss_peer_id d, name d))
    (fun '(a, b, c, d) => {| device_id := a; signing_public_key := b; moss_peer_id := c; name := d |})).
  by intros [].
Defined.

Record Authorization := {
  version : N;
  parent : option string;
  signer : string;
  device : DeviceDescriptor;
  signature : string;
}.
#[export] Instance Authorization_eq_dec : EqDecision Authorization.
Proof. solve_decision. Defined.

#[export] Instance Authorization_countable : Countable Authorization.
Proof.
  apply (inj_countable' (fun e => (version e, parent e, signer e, device e, signature e))
    (fun '(v, p, s, d, g) => {| version := v; parent := p; signer := s; device := d; signature := g |})).
  by intros [].
Defined.

(** The [entries] of a [DeviceRoster]. *)
Abbreviation DeviceRoster := (list Authorization).

Definition ROSTER_VERSION : N := 1.
Definition REMOVAL_VERSION : N := 2.
Definition DEFAULT_DEVICE_NAME : string := "Desktop".
Definition MAX_NAME_CHARS : nat := 64.

(** ** The signature scheme ([ed25519_dalek])

    Keys and signatures are their bytes; a signing key is its seed. *)
Class Ed25519 := {
  key_from_bytes : bytes -> bool;
  is_weak : bytes -> bool;
  signature_from_slice : bytes -> bool;
  verify_strict : bytes -> bytes -> bytes -> bool;
  sign : bytes -> bytes -> bytes;
  verifying_key : bytes -> bytes;
}.

(** A key made from a seed is a good key, and accepts what the seed signs. *)
Class Ed25519Laws `{Ed25519} : Prop := {
  key_length s : length (verifying_key s) = 32;
  key_decodes s : key_from_bytes (verifying_key s) = true;
  key_strong s : is_weak (verifying_key s) = false;
  sign_slice s m : signature_from_slice (sign s m) = true;
  sign_length s m : length (sign s m) = 64;
  sign_verifies s m : verify_strict (verifying_key s) (sign s m) m = true;
}.

Section Roster.
Context `{Ed25519}.
Variable sha256 : bytes -> bytes.
Variable hex_decode : string -> result string bytes.
(** [serde_json::to_vec] of an entry's content, and of a roster. *)
Variable content_to_vec : N * option string * string * DeviceDescriptor -> result string bytes.
Variable roster_to_vec : DeviceRoster -> result string bytes.
(** The byte strings [mosh-device-id-v1], [mosh-device-roster-v1] and
    [mosh-device-roster-remove-v2], each with its final NUL. *)
Definition context (s : string) : bytes := String.list_byte_of_string s ++ [x00].
Definition ROSTER_CONTEXT : bytes := context "mosh-device-roster-v1".
Definition REMOVAL_CONTEXT : bytes := context "mosh-device-roster-remove-v2".
Definition DEVICE_CONTEXT : bytes := context "mosh-device-id-v1".

Definition inv {A} (r : result string A) : result DeviceLinkError A := map_err (fun _ => invalid) r.

Definition public_key (hex_key : string) : result DeviceLinkError bytes :=
  b ← inv (hex_decode hex_key);
  _ ← guard_or (length b =? 32)%nat invalid;
  _ ← guard_or (key_from_bytes b) invalid;
  _ ← guard_or (negb (is_weak b || negb (String.eqb (hex_string b) hex_key))) invalid;
  Ok b.

Definition device_id_of (key : bytes) : string := hex_string (sha256 (DEVICE_CONTEXT ++ key)).

Definition new_descriptor (seed : bytes) (peer : string) : DeviceDescriptor :=
  {| device_id := device_id_of (verifying_key seed);
     signing_public_key := hex_string (verifying_key seed);
     moss_peer_id := peer; name := DEFAULT_DEVICE_NAME |}.

Definition validate (d : DeviceDescriptor) : result DeviceLinkError unit :=
  key ← public_key (signing_public_key d);
  _ ← guard_or (negb (negb (String.eqb (device_id d) (device_id_of key))
                      || String.eqb (name d) EmptyString
                      || (MAX_NAME_CHARS <? length (chars (name d)))%nat
                      || existsb is_control (chars (name d)))) invalid;
  _ ← public_key (moss_peer_id d);
  Ok tt.

Definition auth_bytes (e : Authorization) : result DeviceLinkError bytes :=
  ctx ← (if (version e =? ROSTER_VERSION)%N then Ok ROSTER_CONTEXT
         else if (version e =? REMOVAL_VERSION)%N then Ok REMOVAL_CONTEXT
         else Err invalid);
  content ← inv (content_to_vec (version e, parent e, signer e, device e));
  Ok (ctx ++ content).

Definition signed (v : N) (p : option string) (s : string) (d : DeviceDescriptor) (seed : bytes)
  : result DeviceLinkError Authorization :=
  let entry := {| version := v; parent := p; signer := s; device := d; signature := EmptyString |} in
  b ← auth_bytes entry;
  Ok {| version := v; parent := p; signer := s; device := d;
        signature := hex_string (sign seed b) |}.

Definition digest (r : DeviceRoster) : result DeviceLinkError string :=
  b ← inv (roster_to_vec r);
  Ok (hex_string (sha256 (ROSTER_CONTEXT ++ b))).

(** [signature_verification::verify_key] without its cache of past verdicts. *)
Definition verify_key (key sig input : bytes) : result string unit :=
  if is_weak key then Err "weak signing key"
  else if verify_strict key sig input then Ok tt else Err "signature error".

Definition authority (r : DeviceRoster) (index : nat) (e : Authorization)
    (devices : list DeviceDescriptor) : result DeviceLinkError bytes :=
  if negb ((version e =? ROSTER_VERSION)%N || (version e =? REMOVAL_VERSION)%N) then Err invalid
  else if (index =? 0)%nat then
    if negb (version e =? ROSTER_VERSION)%N || bool_decide (is_Some (parent e))
       || negb (String.eqb (signer e) (device_id (device e)))
    then Err invalid
    else public_key (signing_public_key (device e))
  else
    dg ← digest (take index r);
    _ ← guard_or (bool_decide (parent e = Some dg)) invalid;
    signer ← ok_or (find (fun d => String.eqb (device_id d) (signer e)) devices) invalid;
    public_key (signing_public_key signer).

Definition clashes (e : Authorization) (d : DeviceDescriptor) : bool :=
  String.eqb (device_id d) (device_id (device e))
  || String.eqb (moss_peer_id d) (moss_peer_id (device e)).

(** One turn of the loop of [verify_devices]. *)
Definition verify_entry (r : DeviceRoster) (devices : list DeviceDescriptor)
    (ie : nat * Authorization) : result DeviceLinkError (list DeviceDescriptor) :=
  let '(index, e) := ie in
  _ ← validate (device e);
  key ← authority r index e devices;
  sig ← inv (hex_decode (signature e));
  _ ← guard_or (signature_from_slice sig) invalid;
  input ← auth_bytes e;
  _ ← inv (verify_key key sig input);
  if (version e =? REMOVAL_VERSION)%N then
    _ ← guard_or (negb (String.eqb (signer e) (device_id (device e))
                        || negb (bool_decide (device e ∈ devices)))) invalid;
    Ok (filter (fun d => device_id d <> device_id (device e)) devices)
  else if existsb (clashes e) devices then Err invalid
  else Ok (devices ++ [device e]).

Definition verify_devices (r : DeviceRoster) : result DeviceLinkError (list DeviceDescriptor) :=
  _ ← guard_or (negb (bool_decide (r = []))) invalid;
  try_fold (verify_entry r) [] (imap pair r).

Definition devices_of : DeviceRoster -> result DeviceLinkError (list DeviceDescriptor) :=
  verify_devices.

Definition user_id (r : DeviceRoster) : string :=
  match head r with Some e => signing_public_key (device e) | None => EmptyString end.

(** ** Growing a roster *)

Definition extends (r base : DeviceRoster) : result DeviceLinkError bool :=
  _ ← devices_of r;
  Ok (bool_decide (base `prefix_of` r)).

Definition genesis (d : DeviceDescriptor) (seed : bytes) : result DeviceLinkError DeviceRoster :=
  e ← signed ROSTER_VERSION None (device_id d) d seed;
  _ ← devices_of [e];
  Ok [e].

Definition with_entry (r : DeviceRoster) (e : Authorization) : result DeviceLinkError DeviceRoster :=
  _ ← devices_of (r ++ [e]);
  Ok (r ++ [e]).

Definition extend (r : DeviceRoster) (d : DeviceDescriptor) (seed : bytes)
  : result DeviceLinkError DeviceRoster :=
  dg ← digest r;
  e ← signed ROSTER_VERSION (Some dg) (device_id_of (verifying_key seed)) d seed;
  with_entry r e.

Definition revoke (r : DeviceRoster) (target : string) (seed : bytes)
  : result DeviceLinkError DeviceRoster :=
  ds ← devices_of r;
  d ← ok_or (find (fun d => String.eqb (device_id d) target) ds) invalid;
  dg ← digest r;
  e ← signed REMOVAL_VERSION (Some dg) (device_id_of (verifying_key seed)) d seed;
  with_entry r e.

(** ** Questions about a roster *)

Definition names (id : string) (e : Authorization) : bool := String.eqb (device_id (device e)) id.
Definition removes (id : string) (e : Authorization) : bool :=
  names id e && (version e =? REMOVAL_VERSION)%N.

Definition known_device (r : DeviceRoster) (id : string)
  : result DeviceLinkError (option DeviceDescriptor) :=
  _ ← devices_of r;
  Ok (device <$> find (names id) (reverse r)).

Definition removal_targets (r : DeviceRoster) : result DeviceLinkError (list DeviceDescriptor) :=
  _ ← devices_of r;
  Ok (foldl (fun removed e =>
        if existsb (fun d => String.eqb (device_id d) (device_id (device e))) removed
        then removed else removed ++ [device e])
      [] (filter (fun e => version e = REMOVAL_VERSION) (reverse r))).

Definition removal_author (r : DeviceRoster) (target : string)
  : result DeviceLinkError (option string) :=
  _ ← devices_of r;
  Ok (signer <$> find (removes target) (reverse r)).

Definition revoked_since (r admission : DeviceRoster) (target : string)
  : result DeviceLinkError bool :=
  ext ← extends r admission;
  _ ← guard_or ext invalid;
  Ok (existsb (removes target) (drop (length admission) r)).

Definition authorizes_admitted (r admission : DeviceRoster) (d : DeviceDescriptor)
  : result DeviceLinkError bool :=
  revoked ← revoked_since r admission (device_id d);
  if (revoked : bool) then Ok false
  else ds ← devices_of r; Ok (bool_decide (d ∈ ds)).

Definition has_removal_since (r base : DeviceRoster) : result DeviceLinkError bool :=
  ext ← extends r base;
  _ ← guard_or ext invalid;
  Ok (existsb (fun e => (version e =? REMOVAL_VERSION)%N) (drop (length base) r)).

Definition first_removal_since (r admission : DeviceRoster) (target : string)
  : result DeviceLinkError (option DeviceRoster) :=
  ext ← extends r admission;
  _ ← guard_or ext invalid;
  Ok ((fun p => take (S (length admission + p.1)) r)
      <$> list_find (fun e => removes target e = true) (drop (length admission) r)).

Definition verifies_removal_extension (r base : DeviceRoster) (target sg : string)
  : result DeviceLinkError unit :=
  e ← ok_or (last r) invalid;
  ext ← extends r base;
  if negb ext || negb (version e =? REMOVAL_VERSION)%N
     || negb (String.eqb (device_id (device e)) target) || negb (String.eqb (signer e) sg)
  then Err invalid else Ok tt.

Definition verifies_removal (r base : DeviceRoster) (target sg : string)
  : result DeviceLinkError unit :=
  _ ← verifies_removal_extension r base target sg;
  e ← ok_or (last r) invalid;
  ds ← devices_of base;
  if bool_decide (device e ∈ ds) then Ok tt else Err invalid.

Definition verifies_addition (r base : DeviceRoster) (d : DeviceDescriptor) (sg : string)
  : result DeviceLinkError unit :=
  _ ← devices_of r;
  e ← ok_or (last r) invalid;
  if negb (version e =? ROSTER_VERSION)%N then Err invalid else
  dp ← digest (take (length r - 1) r);
  db ← digest base;
  if negb (String.eqb dp db) || negb (bool_decide (device e = d)) || negb (String.eqb (signer e) sg)
  then Err invalid else Ok tt.

(** ** The chain, entry by entry *)

Definition run (r : DeviceRoster) : result DeviceLinkError (list DeviceDescriptor) :=
  try_fold (verify_entry r) [] (imap pair r).

Lemma devices_run r ds : devices_of r = Ok ds <-> r <> [] /\ run r = Ok ds.
Proof.
  unfold devices_of, verify_devices. case_bool_decide; cbn; [naive_solver|].
  split; [by split|by intros [_ ?]].
Qed.

Lemma authority_prefix r r' i e ds : take i r = take i r' -> authority r i e ds = authority r' i e ds.
Proof. unfold authority. by intros ->. Qed.

Lemma verify_entry_prefix r r' i e ds :
  take i r = take i r' -> verify_entry r ds (i, e) = verify_entry r' ds (i, e).
Proof. intros Ht. unfold verify_entry. by rewrite (authority_prefix r r'). Qed.

Lemma run_snoc r e : run (r ++ [e]) = ds ← run r; verify_entry (r ++ [e]) ds (length r, e).
Proof.
  unfold run. rewrite imap_app, try_fold_app. cbn [imap].
  rewrite (try_fold_ext_in (verify_entry (r ++ [e])) (verify_entry r)).
  - destruct (try_fold (verify_entry r) [] (imap pair r)) as [ds|]; [|done].
    unfold mbind, result_bind. cbn [try_fold]. rewrite Nat.add_0_r. unfold mbind, result_bind.
    by destruct (verify_entry (r ++ [e]) ds (length r, e)).
  - intros ds [i x] Hin.
    apply verify_entry_prefix.
    apply elem_of_lookup_imap_1 in Hin as (j & y & [= -> ->] & Hj%lookup_lt_Some).
    rewrite take_app_le by lia. done.
Qed.

Lemma verify_entry_Ok r ds i e ds' :
  verify_entry r ds (i, e) = Ok ds' ->
  validate (device e) = Ok tt /\
  (exists key sig input, authority r i e ds = Ok key /\ hex_decode (signature e) = Ok sig /\
     auth_bytes e = Ok input /\ verify_strict key sig input = true) /\
  ((version e = REMOVAL_VERSION /\ signer e <> device_id (device e) /\ device e ∈ ds /\
    ds' = filter (fun d => device_id d <> device_id (device e)) ds) \/
   (version e = ROSTER_VERSION /\ ds' = ds ++ [device e] /\
    forall d, d ∈ ds -> device_id d <> device_id (device e) /\ moss_peer_id d <> moss_peer_id (device e))).
Proof.
  unfold verify_entry. intros Hv.
  apply bind_Ok in Hv as ([] & Hval & Hv). apply bind_Ok in Hv as (key & Hkey & Hv).
  apply bind_Ok in Hv as (sig & Hsig & Hv). apply bind_Ok in Hv as ([] & _ & Hv).
  apply bind_Ok in Hv as (input & Hin & Hv). apply bind_Ok in Hv as ([] & Hver & Hv).
  split; [done|]. split.
  { exists key, sig, input. apply map_err_Ok in Hsig, Hver. split_and!; try done.
    unfold verify_key in Hver. destruct (is_weak key); [done|]. by destruct (verify_strict _ _ _). }
  destruct (N.eqb_spec (version e) REMOVAL_VERSION) as [Hr|Hr].
  - left. apply bind_Ok in Hv as ([] & Hg & [= <-]). apply guard_or_Ok, negb_true_iff, orb_false_iff in Hg.
    destruct Hg as [Hs%String.eqb_neq Hd%negb_false_iff%bool_decide_eq_true]. done.
  - right. destruct (existsb (clashes e) ds) eqn:Hc; [done|]. injection Hv as <-. split_and!; [|done|].
    + unfold authority in Hkey. destruct (N.eqb_spec (version e) ROSTER_VERSION); [done|].
      destruct (N.eqb_spec (version e) REMOVAL_VERSION); done.
    + intros d Hd. unfold clashes in Hc.
      assert (Hcd : String.eqb (device_id d) (device_id (device e))
                    || String.eqb (moss_peer_id d) (moss_peer_id (device e)) = false).
      { destruct (_ || _) eqn:E; [|done]. rewrite <-Hc. symmetry. apply existsb_exists.
        exists d. split; [by apply list_elem_of_In|done]. }
      apply orb_false_iff in Hcd as [?%String.eqb_neq ?%String.eqb_neq]. done.
Qed.

Lemma find_names_snoc id r e :
  find (names id) (reverse (r ++ [e]))
  = if names id e then Some e else find (names id) (reverse r).
Proof. by rewrite reverse_snoc. Qed.

#[local] Arguments verify_entry : simpl never.

(** What a verified chain amounts to. *)
Record replayed (r : DeviceRoster) (ds : list DeviceDescriptor) : Prop := {
  rp_ids : NoDup (device_id <$> ds);
  rp_peers : NoDup (moss_peer_id <$> ds);
  rp_valid : Forall (fun d => validate d = Ok tt) ds;
  rp_last d : d ∈ ds <-> exists e, find (names (device_id d)) (reverse r) = Some e /\
                                   version e = ROSTER_VERSION /\ device e = d;
}.

Lemma replayed_add r ds e :
  replayed r ds -> validate (device e) = Ok tt -> version e = ROSTER_VERSION ->
  (forall d, d ∈ ds -> device_id d <> device_id (device e) /\ moss_peer_id d <> moss_peer_id (device e)) ->
  replayed (r ++ [e]) (ds ++ [device e]).
Proof.
  intros [Hi Hp Hv Hl] Hval Hver Hne. split.
  - rewrite fmap_app. apply NoDup_app. split_and!; [done| |apply NoDup_singleton].
    intros x (d & -> & Hd)%list_elem_of_fmap Hx%list_elem_of_singleton. by destruct (Hne d Hd).
  - rewrite fmap_app. apply NoDup_app. split_and!; [done| |apply NoDup_singleton].
    intros x (d & -> & Hd)%list_elem_of_fmap Hx%list_elem_of_singleton. by destruct (Hne d Hd).
  - apply Forall_app. split; [done|]. by repeat constructor.
  - intros d. rewrite find_names_snoc, elem_of_app, list_elem_of_singleton. unfold names at 1.
    destruct (String.eqb_spec (device_id (device e)) (device_id d)) as [E|E].
    + split.
      * intros [Hd| ->]; [destruct (Hne d Hd); congruence|by exists e].
      * intros (e' & [= <-] & _ & <-). by right.
    + rewrite Hl. split; [|by left]. intros [?| ->]; [done|congruence].
Qed.

Lemma replayed_remove r ds e :
  replayed r ds -> version e = REMOVAL_VERSION ->
  replayed (r ++ [e]) (filter (fun d => device_id d <> device_id (device e)) ds).
Proof.
  intros [Hi Hp Hv Hl] Hver. split.
  - eapply sublist_NoDup; [exact Hi|]. apply fmap_sublist, sublist_filter.
  - eapply sublist_NoDup; [exact Hp|]. apply fmap_sublist, sublist_filter.
  - rewrite Forall_forall in Hv |- *. intros d [_ Hd]%list_elem_of_filter. by apply Hv.
  - intros d. rewrite find_names_snoc, list_elem_of_filter. unfold names at 1.
    destruct (String.eqb_spec (device_id (device e)) (device_id d)) as [E|E].
    + split; [by intros [? _]|]. intros (e' & [= <-] & Hv' & _). rewrite Hver in Hv'. discriminate Hv'.
    + rewrite Hl. split; [by intros [_ ?]|]. intros. split; [congruence|done].
Qed.

Lemma run_replayed r ds : run r = Ok ds -> replayed r ds.
Proof.
  revert ds. induction r as [|e r IH] using rev_ind; intros ds Hr.
  { injection Hr as <-. split; try constructor; try done.
    - intros Hd. by apply not_elem_of_nil in Hd.
    - by intros (e & ? & _). }
  rewrite run_snoc in Hr. apply bind_Ok in Hr as (ds0 & H0 & Hr).
  apply verify_entry_Ok in Hr as (Hval & _ & [(Hv & _ & _ & ->)|(Hv & -> & Hne)]).
  - by apply replayed_remove; [apply IH|].
  - by apply replayed_add; [apply IH| | |].
Qed.

Lemma devices_replayed r ds : devices_of r = Ok ds -> replayed r ds.
Proof. intros [_ Hr]%devices_run. by apply run_replayed. Qed.

(** A verified roster lists exactly the devices whose latest entry is an
    addition, as that entry describes them; no two of them share an id or a
    transport peer, and each one's descriptor is valid. *)
Theorem roster_replay r ds :
  devices_of r = Ok ds ->
  NoDup (device_id <$> ds) /\ NoDup (moss_peer_id <$> ds) /\
  Forall (fun d => validate d = Ok tt) ds /\
  (forall d, d ∈ ds <-> exists e, find (names (device_id d)) (reverse r) = Some e /\
                                  version e = ROSTER_VERSION /\ device e = d).
Proof. intros Hr. by destruct (devices_replayed r ds Hr). Qed.

Lemma run_take r ds n : run r = Ok ds -> exists ds', run (take n r) = Ok ds'.
Proof.
  revert ds. induction r as [|e r IH] using rev_ind; intros ds Hr.
  { rewrite take_nil. by eexists. }
  destruct (decide (length r < n)).
  { rewrite take_ge by (rewrite length_app; cbn; lia). by eexists. }
  rewrite take_app_le by lia. rewrite run_snoc in Hr.
  apply bind_Ok in Hr as (ds0 & H0 & _). by apply (IH ds0).
Qed.

Lemma run_at r ds n e :
  run r = Ok ds -> r !! n = Some e ->
  exists ds0 ds1, run (take n r) = Ok ds0 /\ verify_entry r ds0 (n, e) = Ok ds1 /\
    run (take (S n) r) = Ok ds1.
Proof.
  intros Hr Hn. destruct (run_take r ds (S n) Hr) as [ds1 H1]. pose proof H1 as H1'.
  rewrite (take_S_r _ _ _ Hn), run_snoc in H1. apply bind_Ok in H1 as (ds0 & H0 & H1).
  pose proof (lookup_lt_Some _ _ _ Hn). exists ds0, ds1. split_and!; [done| |done].
  rewrite length_take_le in H1 by lia.
  rewrite (verify_entry_prefix r (take n r ++ [e])); [done|].
  by rewrite <-(take_S_r _ _ _ Hn), take_take, Nat.min_l by lia.
Qed.

(** C33. No entry speaks without authority: in a verified roster the first entry
    is an addition signed by the key of the very device it adds, and every
    later entry names the digest of exactly the entries before it and carries a
    genuine signature of a device that was active there, so neither a removed
    nor a foreign device can add or remove anyone. *)
Theorem roster_authority r ds n e :
  devices_of r = Ok ds -> r !! n = Some e ->
  exists key sig input,
    hex_decode (signature e) = Ok sig /\ auth_bytes e = Ok input /\
    verify_strict key sig input = true /\
    if (n =? 0)%nat
    then parent e = None /\ version e = ROSTER_VERSION /\ signer e = device_id (device e) /\
         public_key (signing_public_key (device e)) = Ok key
    else exists active s dg,
         devices_of (take n r) = Ok active /\ s ∈ active /\ device_id s = signer e /\
         public_key (signing_public_key s) = Ok key /\
         digest (take n r) = Ok dg /\ parent e = Some dg.
Proof.
  intros [_ Hr]%devices_run Hn.
  destruct (run_at r ds n e Hr Hn) as (ds0 & ds1 & H0 & Hv & _).
  apply verify_entry_Ok in Hv as (_ & (key & sig & input & Ha & Hsig & Hin & Hver) & _).
  exists key, sig, input. split_and!; try done. unfold authority in Ha.
  destruct (negb _); [done|]. destruct (Nat.eqb_spec n 0) as [Hz|Hz].
  - destruct (_ || _) eqn:Hg; [done|]. apply orb_false_iff in Hg as [Hg Hs%negb_false_iff%String.eqb_eq].
    apply orb_false_iff in Hg as [Hve%negb_false_iff%N.eqb_eq Hp%bool_decide_eq_false].
    split_and!; [|done|done|done]. by apply eq_None_not_Some.
  - apply bind_Ok in Ha as (dg & Hdg & Ha). apply bind_Ok in Ha as ([] & Hp & Ha).
    apply bind_Ok in Ha as (s & Hs & Ha). apply guard_or_Ok, bool_decide_eq_true in Hp.
    apply ok_or_Ok, find_some in Hs as [Hs Hid%String.eqb_eq].
    exists ds0, s, dg. split_and!; try done; [|by apply list_elem_of_In].
    apply devices_run. split; [|done]. pose proof (lookup_lt_Some _ _ _ Hn).
    intros Ht. apply (f_equal length) in Ht. rewrite length_take_le in Ht by lia. done.
Qed.

Lemma removes_iff id e : removes id e = true <-> device_id (device e) = id /\ version e = REMOVAL_VERSION.
Proof. unfold removes, names. by rewrite andb_true_iff, String.eqb_eq, N.eqb_eq. Qed.

(** A device leaves the roster only by a removal that names it. *)
Lemma run_keeps r ds d n k dsn :
  run r = Ok ds -> run (take n r) = Ok dsn -> d ∈ dsn ->
  existsb (removes (device_id d)) (drop n r) = false -> n + k <= length r ->
  exists dsk, run (take (n + k) r) = Ok dsk /\ d ∈ dsk.
Proof.
  intros Hr Hrun Hd Hrem. induction k as [|k IH]; intros Hk.
  { rewrite Nat.add_0_r. by exists dsn. }
  destruct IH as (dsk & Hrk & Hdk); [lia|].
  destruct (lookup_lt_is_Some_2 r (n + k)) as [e He]; [lia|].
  destruct (run_at _ _ _ _ Hr He) as (dsa & dsb & Ha & Hv & Hb).
  rewrite Hrk in Ha. injection Ha as <-. rewrite Nat.add_succ_r. exists dsb. split; [done|].
  apply verify_entry_Ok in Hv as (_ & _ & [(Hver & _ & _ & ->)|(_ & -> & _)]);
    [|by apply elem_of_app; left].
  apply list_elem_of_filter. split; [|done]. intros Hid.
  assert (existsb (removes (device_id d)) (drop n r) = true); [|congruence].
  apply existsb_exists. exists e. rewrite <-lookup_drop in He.
  split; [by apply list_elem_of_In, (list_elem_of_lookup_2 _ k)|by apply removes_iff].
Qed.

(** An admission is never renewed behind a removal: if a device of the
    roster it was admitted under is still authorized by a later roster, then it
    has been on the roster without interruption, in every state in between; a
    device that was removed and added again is refused. *)
Theorem admission_unbroken r admission d n ds0 :
  authorizes_admitted r admission d = Ok true ->
  devices_of admission = Ok ds0 -> d ∈ ds0 ->
  length admission <= n <= length r ->
  exists ds, devices_of (take n r) = Ok ds /\ d ∈ ds.
Proof.
  unfold authorizes_admitted, revoked_since, extends. intros Ha Hadm Hd Hn.
  apply bind_Ok in Ha as (rev & Hrev & Ha). apply bind_Ok in Hrev as (ext & Hext & Hrev).
  apply bind_Ok in Hext as (ds & Hr & [= <-]). apply bind_Ok in Hrev as ([] & Hp & [= <-]).
  apply guard_or_Ok, bool_decide_eq_true in Hp. destruct Hp as [suf ->].
  destruct (existsb _ (drop _ _)) eqn:Hrem; [done|]. clear Ha.
  apply devices_run in Hr as [_ Hr]. apply devices_run in Hadm as [Hne Hadm].
  destruct (run_keeps (admission ++ suf) ds d (length admission) (n - length admission) ds0)
    as (dsn & Hrun & Hdn); [done|by rewrite take_app_length|done|done|lia|].
  rewrite Nat.add_sub_assoc, Nat.add_sub' in Hrun by lia.
  exists dsn. split; [|done]. apply devices_run. split; [|done]. intros Ht.
  apply (f_equal length) in Ht. rewrite length_take_le in Ht by lia.
  destruct admission; cbn in *; [done|lia].
Qed.

(** Every refusal is [invalid]. *)
Lemma public_key_fails h : fails_with invalid (public_key h).
Proof. unfold public_key, inv. auto 10 with mosh. Qed.
#[local] Hint Resolve public_key_fails : mosh.

Lemma validate_fails d : fails_with invalid (validate d).
Proof. unfold validate. auto 10 with mosh. Qed.
#[local] Hint Resolve validate_fails : mosh.

Lemma auth_bytes_fails e : fails_with invalid (auth_bytes e).
Proof. unfold auth_bytes, inv. auto 10 with mosh. Qed.
#[local] Hint Resolve auth_bytes_fails : mosh.

Lemma authority_fails r i e ds : fails_with invalid (authority r i e ds).
Proof. unfold authority, digest, inv. auto 15 with mosh. Qed.
#[local] Hint Resolve authority_fails : mosh.

Lemma verify_entry_fails r ds ie : fails_with invalid (verify_entry r ds ie).
Proof.
  destruct ie as [i e]. unfold verify_entry, inv.
  repeat (apply fails_bind; [auto with mosh|intros ?]). auto with mosh.
Qed.

Lemma devices_of_fails r : fails_with invalid (devices_of r).
Proof.
  apply fails_bind; [auto with mosh|intros _]. generalize (imap pair r) (@nil DeviceDescriptor).
  intros l. induction l as [|x l IH]; intros ds; cbn [try_fold]; [auto with mosh|].
  apply fails_bind; [apply verify_entry_fails|intros; apply IH].
Qed.

Lemma extends_fails r base : fails_with invalid (extends r base).
Proof. pose proof (devices_of_fails r). unfold extends. auto with mosh. Qed.
Lemma known_device_fails r id : fails_with invalid (known_device r id).
Proof. pose proof (devices_of_fails r). unfold known_device. auto with mosh. Qed.

(** ** Growing a roster *)

Section Growth.
Context {laws : Ed25519Laws}.
Hypothesis hex_roundtrip : forall b, hex_decode (hex_string b) = Ok b.
Hypothesis content_total : forall c, is_ok (content_to_vec c) = true.
Hypothesis roster_total : forall r, is_ok (roster_to_vec r) = true.

Lemma public_key_Ok h key : public_key h = Ok key -> hex_string key = h.
Proof.
  unfold public_key. intros Hk. apply bind_Ok in Hk as (b & _ & Hk).
  apply bind_Ok in Hk as (? & _ & Hk). apply bind_Ok in Hk as (? & _ & Hk).
  apply bind_Ok in Hk as (? & Hg & [= <-]).
  apply guard_or_Ok, negb_true_iff, orb_false_iff in Hg as [_ Hg].
  by apply negb_false_iff, String.eqb_eq in Hg.
Qed.

Lemma validate_Ok d seed :
  validate d = Ok tt -> signing_public_key d = hex_string (verifying_key seed) ->
  public_key (signing_public_key d) = Ok (verifying_key seed) /\
  device_id d = device_id_of (verifying_key seed).
Proof using Type laws hex_roundtrip.
  intros Hv Hk. unfold validate in Hv. apply bind_Ok in Hv as (key & Hkey & Hv).
  apply bind_Ok in Hv as (? & Hg & _).
  assert (key = verifying_key seed) as ->.
  { pose proof (public_key_Ok _ _ Hkey) as Hh. rewrite Hk in Hh.
    pose proof (hex_roundtrip key) as H1. rewrite Hh, hex_roundtrip in H1. congruence. }
  split; [done|]. apply guard_or_Ok, negb_true_iff, orb_false_iff in Hg as [Hg _].
  apply orb_false_iff in Hg as [Hg _]. apply orb_false_iff in Hg as [Hg _].
  by apply negb_false_iff, String.eqb_eq in Hg.
Qed.

Lemma find_id ds d :
  NoDup (device_id <$> ds) -> d ∈ ds -> find (fun x => String.eqb (device_id x) (device_id d)) ds = Some d.
Proof.
  induction ds as [|x ds IH]; intros Hnd Hd; [by apply not_elem_of_nil in Hd|]. cbn.
  apply NoDup_cons in Hnd as [Hx Hnd].
  destruct (String.eqb_spec (device_id x) (device_id d)) as [E|E].
  - apply elem_of_cons in Hd as [->|Hd]; [done|]. destruct Hx. rewrite E.
    by apply list_elem_of_fmap_2.
  - apply elem_of_cons in Hd as [->|Hd]; [done|]. by apply IH.
Qed.

(** An entry signed by an active device is judged by its content alone. *)
Lemma signed_entry r ds me d v seed :
  devices_of r = Ok ds -> me ∈ ds -> signing_public_key me = hex_string (verifying_key seed) ->
  v = ROSTER_VERSION \/ v = REMOVAL_VERSION ->
  exists dg e, digest r = Ok dg /\ signed v (Some dg) (device_id_of (verifying_key seed)) d seed = Ok e /\
    version e = v /\ device e = d /\
    verify_entry (r ++ [e]) ds (length r, e) =
      (_ ← validate d;
       if (v =? REMOVAL_VERSION)%N then
         _ ← guard_or (negb (String.eqb (device_id me) (device_id d)
                             || negb (bool_decide (d ∈ ds)))) invalid;
         Ok (filter (fun x => device_id x <> device_id d) ds)
       else if existsb (clashes e) ds then Err invalid else Ok (ds ++ [d])).
Proof using Type laws hex_roundtrip content_total roster_total.
  intros Hr Hme Hpk Hv. pose proof (devices_replayed r ds Hr) as [Hnd _ Hval _].
  rewrite Forall_forall in Hval. destruct (validate_Ok me seed (Hval me Hme) Hpk) as [Hkey Hid].
  pose proof (roster_total r) as Ht. unfold digest.
  destruct (roster_to_vec r) as [b|] eqn:Hb; [clear Ht|done]. cbn.
  eexists; unfold signed.
  set (dg := hex_string _). set (e0 := {| version := v |}).
  assert (exists input, auth_bytes e0 = Ok input) as [input Hin].
  { unfold auth_bytes. pose proof (content_total (version e0, parent e0, signer e0, device e0)).
    destruct (content_to_vec _); [|done]. cbn [version e0].
    destruct Hv as [-> | ->]; cbn; by eexists. }
  rewrite Hin. cbn. eexists. split; [done|]. split; [done|]. cbn [version device]. do 2 (split; [done|]).
  set (e := {| version := v; parent := _; signer := _; device := d; signature := _ |}).
  unfold verify_entry. cbn [device e]. destruct (validate d) as [[]|]; [|done]. cbn.
  assert (authority (r ++ [e]) (length r) e ds = Ok (verifying_key seed)) as ->.
  { unfold authority. cbn [version signer parent e].
    apply devices_run in Hr as [Hne _]. destruct (Nat.eqb_spec (length r) 0) as [Hz|_].
    { destruct r; [done|discriminate Hz]. }
    destruct (negb _) eqn:Hvv.
    { by destruct Hv as [-> | ->]. }
    rewrite take_app_length. unfold digest. rewrite Hb. cbn. fold dg.
    rewrite bool_decide_true by done. cbn. rewrite <-Hid, find_id by done. cbn. by rewrite Hkey. }
  cbn. rewrite hex_roundtrip. cbn. rewrite sign_slice. cbn.
  change (auth_bytes e) with (auth_bytes e0). rewrite Hin. cbn.
  unfold verify_key. rewrite key_strong, sign_verifies. cbn. by rewrite Hid.
Qed.

Lemma with_entry_Ok r ds e ds' :
  devices_of r = Ok ds -> verify_entry (r ++ [e]) ds (length r, e) = Ok ds' ->
  with_entry r e = Ok (r ++ [e]) /\ devices_of (r ++ [e]) = Ok ds' /\ extends (r ++ [e]) r = Ok true.
Proof.
  intros Hr Hv. assert (Hd : devices_of (r ++ [e]) = Ok ds').
  { apply devices_run in Hr as [_ Hr]. apply devices_run. split; [by destruct r|].
    by rewrite run_snoc, Hr. }
  unfold with_entry, extends. rewrite Hd. cbn. split_and!; [done|done|].
  f_equal. apply bool_decide_eq_true. by exists [e].
Qed.

Lemma with_entry_Err r ds e err :
  devices_of r = Ok ds -> verify_entry (r ++ [e]) ds (length r, e) = Err err -> with_entry r e = Err err.
Proof.
  intros Hr Hv. apply devices_run in Hr as [_ Hr].
  assert (Hd : devices_of (r ++ [e]) = Err err).
  { unfold devices_of, verify_devices. rewrite bool_decide_false by (by destruct r).
    change (run (r ++ [e]) = Err err). rewrite run_snoc, Hr. exact Hv. }
  unfold with_entry. by rewrite Hd.
Qed.

(** An active device extends the roster by any valid device whose id and
    transport peer are new: the result verifies, lists the old devices and then
    the new one, and extends the old chain; any other device is refused. *)
Theorem extend_spec r ds me d seed :
  devices_of r = Ok ds -> me ∈ ds -> signing_public_key me = hex_string (verifying_key seed) ->
  if is_ok (validate d)
     && negb (existsb (fun x => String.eqb (device_id x) (device_id d)
                               || String.eqb (moss_peer_id x) (moss_peer_id d)) ds)
  then exists r', extend r d seed = Ok r' /\ devices_of r' = Ok (ds ++ [d]) /\ extends r' r = Ok true
  else extend r d seed = Err invalid.
Proof using Type laws hex_roundtrip content_total roster_total.
  intros Hr Hme Hpk.
  destruct (signed_entry r ds me d ROSTER_VERSION seed Hr Hme Hpk) as (dg & e & Hdg & Hs & _ & Hd & Hv);
    [by left|]. unfold extend, mbind, result_bind. rewrite Hdg, Hs.
  unfold clashes in Hv. rewrite Hd in Hv.
  destruct (validate d) as [[]|err] eqn:Hval; cbn in Hv |- *.
  - destruct (existsb _ ds); cbn.
    + by apply (with_entry_Err r ds).
    + destruct (with_entry_Ok r ds e _ Hr Hv) as (? & ? & ?). by exists (r ++ [e]).
  - rewrite (with_entry_Err r ds e err) by done. f_equal. by apply (validate_fails d).
Qed.

(** An active device removes any other active device, and only it: the
    result verifies, lists the remaining devices in order and extends the old
    chain; it can neither remove itself nor a device that is not there. *)
Theorem revoke_spec r ds me target seed :
  devices_of r = Ok ds -> me ∈ ds -> signing_public_key me = hex_string (verifying_key seed) ->
  if existsb (fun x => String.eqb (device_id x) target) ds && negb (String.eqb (device_id me) target)
  then exists r', revoke r target seed = Ok r' /\
         devices_of r' = Ok (filter (fun x => device_id x <> target) ds) /\ extends r' r = Ok true
  else revoke r target seed = Err invalid.
Proof using Type laws hex_roundtrip content_total roster_total.
  intros Hr Hme Hpk. unfold revoke, mbind, result_bind. rewrite Hr.
  destruct (find (fun d => String.eqb (device_id d) target) ds) as [d|] eqn:Hf.
  - apply find_some in Hf as [Hd%list_elem_of_In Hid%String.eqb_eq]. cbn [ok_or].
    assert (existsb (fun x => String.eqb (device_id x) target) ds = true) as ->.
    { apply existsb_exists. exists d. split; [by apply list_elem_of_In|by apply String.eqb_eq]. }
    destruct (signed_entry r ds me d REMOVAL_VERSION seed Hr Hme Hpk) as (dg & e & Hdg & Hs & _ & _ & Hv);
      [by right|]. rewrite Hdg, Hs.
    pose proof (devices_replayed r ds Hr) as [_ _ Hval _]. rewrite Forall_forall in Hval.
    rewrite (Hval d Hd) in Hv. cbn in Hv. rewrite bool_decide_true, Hid in Hv by done.
    rewrite orb_false_r in Hv. destruct (String.eqb (device_id me) target); cbn in Hv |- *.
    + by apply (with_entry_Err r ds).
    + destruct (with_entry_Ok r ds e _ Hr Hv) as (? & ? & ?). by exists (r ++ [e]).
  - destruct (existsb _ ds) eqn:He; [|done]. apply existsb_exists in He as (x & Hx & Hxt).
    by rewrite (find_none _ _ Hf x Hx) in Hxt.
Qed.
End Growth.
End Roster.

(** ** The cache of verified signatures ([signature_verification.rs])

    A verdict is remembered under the digest of key, signature and input.  The
    lock is held for one lookup or one insertion at a time, so each of them is
    one step on the shared state. *)

Inductive Fact := FSignature (d : bytes) | FCertificate (d : bytes).
#[export] Instance Fact_eq_dec : EqDecision Fact.
Proof. solve_decision. Defined.
#[export] Instance Fact_countable : Countable Fact.
Proof.
  apply (inj_countable' (fun f => match f with FSignature d => inl d | FCertificate d => inr d end)
           (fun x => match x with inl d => FSignature d | inr d => FCertificate d end)).
  by intros [].
Defined.

Record VerifiedFacts := { keys : gset Fact; order : list Fact }.

Definition CAPACITY : nat := 4096.
Definition no_facts : VerifiedFacts := {| keys := ∅; order := [] |}.

Definition contains (f : Fact) (st : VerifiedFacts) : bool := bool_decide (f ∈ keys st).

Definition remember_fact (f : Fact) (st : VerifiedFacts) : VerifiedFacts :=
  if decide (f ∈ keys st) then st
  else
    let keys' := {[ f ]} ∪ keys st in
    let order' := order st ++ [f] in
    if (CAPACITY <? length order')%nat
    then match order' with
         | oldest :: rest => {| keys := keys' ∖ {[ oldest ]}; order := rest |}
         | [] => {| keys := keys'; order := [] |}
         end
    else {| keys := keys'; order := order' |}.

Section Cache.
Context `{Ed25519}.
Variable sha256 : bytes -> bytes.
Variable hex_decode : string -> result string bytes.

Definition verify_cached (f : Fact) (check : result string unit) : method VerifiedFacts string unit :=
  fun st =>
  if contains f st then (st, Ok tt)
  else match check with
       | Err e => (st, Err e)
       | Ok _ => (remember_fact f st, Ok tt)
       end.

Definition verify_with (key_bytes sig input : bytes) (key : result string bytes)
  : method VerifiedFacts string unit :=
  verify_cached (FSignature (sha256 (key_bytes ++ sig ++ input)))
    (k ← key; verify_key k sig input).

Definition verify_key_cached (key sig input : bytes) : method VerifiedFacts string unit :=
  verify_with key sig input (Ok key).

(** [verify], with the fixed lengths [decode_to_slice] asks for. *)
Definition verify (key signature : string) (input : bytes) : method VerifiedFacts string unit :=
  fun st =>
  match hex_decode key with
  | Err e => (st, Err e)
  | Ok k =>
      if negb (length k =? 32)%nat then (st, Err "Invalid string length")
      else match hex_decode signature with
      | Err e => (st, Err e)
      | Ok s =>
          if negb (length s =? 64)%nat then (st, Err "Invalid string length")
          else verify_with k s input (if key_from_bytes k then Ok k else Err "signature error") st
      end
  end.

(** Every remembered signature was genuine, and the table is bounded. *)
Record facts_ok (st : VerifiedFacts) : Prop := {
  fo_genuine d : FSignature d ∈ keys st -> exists k s i, length k = 32 /\ length s = 64 /\
    sha256 (k ++ s ++ i) = d /\ verify_key k s i = Ok tt;
  fo_order : keys st = list_to_set (order st);
  fo_unique : NoDup (order st);
  fo_bound : length (order st) <= CAPACITY;
}.

Lemma remember_fact_ok f st :
  facts_ok st ->
  (forall d, f = FSignature d -> exists k s i, length k = 32 /\ length s = 64 /\
     sha256 (k ++ s ++ i) = d /\ verify_key k s i = Ok tt) ->
  facts_ok (remember_fact f st).
Proof.
  intros [Hg Ho Hu Hb] Hf. unfold remember_fact. case_decide as Hin; [by split|]. cbn zeta.
  assert (Hu' : NoDup (order st ++ [f])).
  { apply NoDup_app. split_and!; [done| |apply NoDup_singleton].
    intros x Hx ->%list_elem_of_singleton. apply Hin. rewrite Ho. by apply elem_of_list_to_set. }
  assert (Hg' : forall d, FSignature d ∈ {[ f ]} ∪ keys st -> exists k s i, length k = 32 /\
     length s = 64 /\ sha256 (k ++ s ++ i) = d /\ verify_key k s i = Ok tt).
  { intros d [Hd%elem_of_singleton|Hd]%elem_of_union; [by apply Hf|by apply Hg]. }
  assert (Ho' : {[ f ]} ∪ keys st = list_to_set (order st ++ [f])).
  { rewrite list_to_set_app_L, <-Ho. cbn. set_solver. }
  destruct (Nat.ltb_spec CAPACITY (length (order st ++ [f]))) as [Hlt|Hle]; [|by split].
  destruct (order st ++ [f]) as [|o rest] eqn:E; [destruct (order st); discriminate|].
  assert (Hlen : length rest = length (order st)).
  { apply (f_equal length) in E. rewrite length_app in E. cbn in E. lia. }
  apply NoDup_cons in Hu' as [Hnin Hu'].
  split; cbn [keys order]; [|rewrite Ho'|done|lia].
  - intros d [Hd _]%elem_of_difference. by apply Hg'.
  - cbn [list_to_set]. apply set_eq. intros x. rewrite elem_of_difference, elem_of_union, elem_of_singleton.
    rewrite elem_of_list_to_set. split; [by intros [[->|] ?]|]. intros Hx. split; [by right|].
    by intros ->.
Qed.

(** The cache never invents a verdict: a key, signature and input it accepts
    are genuine, or they have the same SHA-256 digest as other, genuine ones;
    whatever is genuine is accepted whether cached or evicted; and the table
    keeps its bound. *)
Theorem cache_sound key sig input st st' r :
  facts_ok st -> length key = 32 -> length sig = 64 ->
  verify_key_cached key sig input st = (st', r) ->
  facts_ok st' /\
  (verify_key key sig input = Ok tt -> r = Ok tt) /\
  (r = Ok tt -> verify_key key sig input = Ok tt \/
     exists k s i, (k, s, i) <> (key, sig, input) /\ verify_key k s i = Ok tt /\
                   sha256 (k ++ s ++ i) = sha256 (key ++ sig ++ input)).
Proof.
  intros Hok Hk Hs. unfold verify_key_cached, verify_with, verify_cached, contains.
  destruct (bool_decide _) eqn:Hin.
  - apply bool_decide_eq_true in Hin. intros [= <- <-]. split; [done|]. split; [done|]. intros _.
    destruct (fo_genuine _ Hok _ Hin) as (k & s & i & Hlk & Hls & Hd & Hv).
    destruct (decide ((k, s, i) = (key, sig, input))) as [[= -> -> ->]|Hne]; [by left|].
    right. by exists k, s, i.
  - cbn. destruct (verify_key key sig input) as [[]|e] eqn:Hv; intros [= <- <-].
    + split; [|by auto]. apply remember_fact_ok; [done|]. intros d [= <-]. by exists key, sig, input.
    + done.
Qed.
End Cache.

(** ** Concrete rosters

    A scheme whose signatures repeat the key and the start of the message. *)

Definition pad32 (b : bytes) : bytes := take 32 (b ++ replicate 32 x00).

Lemma pad32_length b : length (pad32 b) = 32.
Proof. unfold pad32. rewrite length_take, length_app, length_replicate. lia. Qed.

#[export] Instance toy_scheme : Ed25519 := {|
  key_from_bytes _ := true;
  is_weak _ := false;
  signature_from_slice b := (length b =? 64)%nat;
  verify_strict k s m := bool_decide (s = k ++ pad32 m);
  sign seed m := pad32 seed ++ pad32 m;
  verifying_key := pad32;
|}.

#[export] Instance toy_scheme_laws : Ed25519Laws.
Proof.
  split; cbn; intros; try done.
  - apply pad32_length.
  - by rewrite length_app, !pad32_length.
  - by rewrite length_app, !pad32_length.
  - by apply bool_decide_eq_true.
Qed.

Definition toy_sha (b : bytes) : bytes := rev b.
Definition toy_content (c : N * option string * string * DeviceDescriptor) : result string bytes :=
  Ok (String.list_byte_of_string (c.1.2 +:+ device_id c.2 +:+ moss_peer_id c.2)).
Definition toy_roster_bytes (r : DeviceRoster) : result string bytes :=
  Ok (concat (map (fun e => String.list_byte_of_string (signature e)) r)).

Definition toy_device (seed peer : bytes) : DeviceDescriptor :=
  new_descriptor toy_sha seed (hex_string (pad32 peer)).
Definition phone : DeviceDescriptor := toy_device [x01] [x11].
Definition laptop : DeviceDescriptor := toy_device [x02] [x12].
Definition tablet : DeviceDescriptor := toy_device [x03] [x13].

Definition toy_devices := devices_of toy_sha hex_bytes toy_content toy_roster_bytes.
Definition toy_extend := extend toy_sha hex_bytes toy_content toy_roster_bytes.
Definition toy_revoke := revoke toy_sha hex_bytes toy_content toy_roster_bytes.
Definition or_empty (r : result DeviceLinkError DeviceRoster) : DeviceRoster := default [] (res_ok r).

Definition one_device : DeviceRoster :=
  or_empty (genesis toy_sha hex_bytes toy_content toy_roster_bytes phone [x01]).
Definition two_devices : DeviceRoster := or_empty (toy_extend one_device laptop [x01]).
Definition three_devices : DeviceRoster := or_empty (toy_extend two_devices tablet [x02]).
Definition laptop_removed : DeviceRoster :=
  or_empty (toy_revoke three_devices (device_id laptop) [x03]).

Example removed_by_tablet : toy_devices laptop_removed = Ok [phone; tablet].
Proof. vm_compute. reflexivity. Qed.

Lemma roster_replay_witness :
  NoDup (device_id <$> [phone; tablet]) /\ NoDup (moss_peer_id <$> [phone; tablet]) /\
  Forall (fun d => validate toy_sha hex_bytes d = Ok tt) [phone; tablet] /\
  (forall d, d ∈ [phone; tablet] <->
     exists e, find (names (device_id d)) (reverse laptop_removed) = Some e /\
               version e = ROSTER_VERSION /\ device e = d).
Proof.
  apply (roster_replay toy_sha hex_bytes toy_content toy_roster_bytes).
  vm_compute. reflexivity.
Defined.

Lemma roster_authority_witness :
  exists e key sig input,
    hex_bytes (signature e) = Ok sig /\ auth_bytes toy_content e = Ok input /\
    verify_strict key sig input = true /\
    exists active s dg,
      toy_devices (take 3 laptop_removed) = Ok active /\ s ∈ active /\ device_id s = signer e /\
      public_key hex_bytes (signing_public_key s) = Ok key /\
      digest toy_sha toy_roster_bytes (take 3 laptop_removed) = Ok dg /\ parent e = Some dg.
Proof.
  destruct (laptop_removed !! 3) as [e|] eqn:He; [|vm_compute in He; discriminate He].
  exists e. apply (roster_authority toy_sha hex_bytes toy_content toy_roster_bytes
                     laptop_removed [phone; tablet] 3 e); [vm_compute; reflexivity|exact He].
Defined.

Lemma admission_unbroken_witness :
  authorizes_admitted toy_sha hex_bytes toy_content toy_roster_bytes laptop_removed two_devices phone
    = Ok true /\
  exists ds, toy_devices (take 3 laptop_removed) = Ok ds /\ phone ∈ ds.
Proof.
  assert (H : authorizes_admitted toy_sha hex_bytes toy_content toy_roster_bytes
                laptop_removed two_devices phone = Ok true) by (vm_compute; reflexivity).
  split; [exact H|].
  apply (admission_unbroken toy_sha hex_bytes toy_content toy_roster_bytes laptop_removed two_devices
           phone 3 [phone; laptop] H); [vm_compute; reflexivity|by left|].
  split; apply Nat.leb_le; vm_compute; reflexivity.
Defined.

Lemma extend_spec_witness :
  exists r', toy_extend laptop_removed laptop [x03] = Ok r' /\
    toy_devices r' = Ok ([phone; tablet] ++ [laptop]) /\
    extends toy_sha hex_bytes toy_content toy_roster_bytes r' laptop_removed = Ok true.
Proof.
  assert (Hd : devices_of toy_sha hex_bytes toy_content toy_roster_bytes laptop_removed = Ok [phone; tablet]) by (vm_compute; reflexivity).
  assert (Hk : signing_public_key tablet = hex_string (verifying_key [x03])) by (vm_compute; reflexivity).
  assert (Hin : tablet ∈ [phone; tablet]) by (right; left).
  pose proof (extend_spec toy_sha hex_bytes toy_content toy_roster_bytes hex_bytes_string
    (fun _ => eq_refl) (fun _ => eq_refl) laptop_removed [phone; tablet] tablet laptop [x03] Hd Hin Hk) as E.
  match type of E with
  | if ?b then _ else _ => assert (Hb : b = true) by (vm_compute; reflexivity); rewrite Hb in E
  end.
  exact E.
Defined.

Lemma revoke_spec_witness :
  exists r', toy_revoke three_devices (device_id laptop) [x03] = Ok r' /\
    toy_devices r' = Ok (filter (fun x => device_id x <> device_id laptop) [phone; laptop; tablet]) /\
    extends toy_sha hex_bytes toy_content toy_roster_bytes r' three_devices = Ok true.
Proof.
  assert (Hd : devices_of toy_sha hex_bytes toy_content toy_roster_bytes three_devices = Ok [phone; laptop; tablet]) by (vm_compute; reflexivity).
  assert (Hk : signing_public_key tablet = hex_string (verifying_key [x03])) by (vm_compute; reflexivity).
  assert (Hin : tablet ∈ [phone; laptop; tablet]) by (right; right; left).
  pose proof (revoke_spec toy_sha hex_bytes toy_content toy_roster_bytes hex_bytes_string
    (fun _ => eq_refl) (fun _ => eq_refl) three_devices [phone; laptop; tablet] tablet (device_id laptop) [x03] Hd Hin Hk) as E.
  match type of E with
  | if ?b then _ else _ => assert (Hb : b = true) by (vm_compute; reflexivity); rewrite Hb in E
  end.
  exact E.
Defined.

Lemma no_facts_ok : facts_ok toy_sha no_facts.
Proof. split; cbn; try done; [constructor|lia]. Qed.

Lemma cache_sound_witness :
  let st' := remember_fact (FSignature (toy_sha (pad32 [x01] ++ sign [x01] [x41] ++ [x41]))) no_facts in
  facts_ok toy_sha st' /\
  (verify_key (pad32 [x01]) (sign [x01] [x41]) [x41] = Ok tt -> @Ok string unit tt = Ok tt) /\
  (@Ok string unit tt = Ok tt -> verify_key (pad32 [x01]) (sign [x01] [x41]) [x41] = Ok tt \/
     exists k s i, (k, s, i) <> (pad32 [x01], sign [x01] [x41], [x41]) /\ verify_key k s i = Ok tt /\
       toy_sha (k ++ s ++ i) = toy_sha (pad32 [x01] ++ sign [x01] [x41] ++ [x41])).
Proof.
  apply (cache_sound toy_sha (pad32 [x01]) (sign [x01] [x41]) [x41] no_facts).
  - exact no_facts_ok.
  - reflexivity.
  - reflexivity.
  - vm_compute. reflexivity.
Defined.
End Devices.
