(* ===== verification/Identity.v ===== *)
(** * Identity: this installation's device identity ([device_link/identity.rs])

    The identity is one stored record (signing seed, own device, roster, account
    certificate, pairing state) that several runtime owners open and replace by
    compare-and-swap.  The store is any [CasCell]; [serde_json] is a codec
    parameter, the signing key is its seed. *)
From S2P Require Import Prelude Store Devices.
Import Store Devices.

Module Identity.

#[local] Open Scope mosh_scope.
#[local] Set Default Proof Using "Type".

(** ** Records *)

Record PairingQr := {
  qr_version : N;
  qr_id : string;
  expires_at : N;
  qr_device : DeviceDescriptor;
  secret : bytes;
}.

Record Delegation := { dg_key : string; dg_signature : string }.
Record AccountCertificate := { root : string; delegations : list Delegation }.

Record LinkDelivery := {
  d_qr : PairingQr; d_joining : option DeviceDescriptor; d_packet : bytes; d_roster_hash : string
}.
Record LinkReceipt := {
  l_qr : PairingQr; l_trusted : DeviceDescriptor; l_roster_hash : string; l_packet : bytes
}.
Record PendingJoin := {
  p_qr : PairingQr; p_joining : option DeviceDescriptor; p_trusted : DeviceDescriptor;
  p_base : DeviceRoster
}.
Record ConsumedRequest := { request_id : string; request_expires : N }.

Record LocalIdentity := {
  seed : bytes;
  own_device : DeviceDescriptor;
  roster : DeviceRoster;
  account_certificate : option AccountCertificate;
  delivery : option LinkDelivery;
  receipt : option LinkReceipt;
  pending : option PendingJoin;
  consumed : list ConsumedRequest;
  roster_delivery : list DeviceDescriptor;
}.

Record DeviceIdentity := {
  persisted : bytes;
  signing_key : bytes;
  record : LocalIdentity;
}.

(** The records are data with decidable equality. *)
#[export] Instance PairingQr_eq_dec : EqDecision PairingQr.
Proof. solve_decision. Defined.
#[export] Instance Delegation_eq_dec : EqDecision Delegation.
Proof. solve_decision. Defined.
#[export] Instance AccountCertificate_eq_dec : EqDecision AccountCertificate.
Proof. solve_decision. Defined.
#[export] Instance LinkDelivery_eq_dec : EqDecision LinkDelivery.
Proof. solve_decision. Defined.
#[export] Instance LinkReceipt_eq_dec : EqDecision LinkReceipt.
Proof. solve_decision. Defined.
#[export] Instance PendingJoin_eq_dec : EqDecision PendingJoin.
Proof. solve_decision. Defined.
#[export] Instance ConsumedRequest_eq_dec : EqDecision ConsumedRequest.
Proof. solve_decision. Defined.
#[export] Instance LocalIdentity_eq_dec : EqDecision LocalIdentity.
Proof. solve_decision. Defined.

Definition with_roster (r : DeviceRoster) (i : LocalIdentity) : LocalIdentity :=
  {| seed := seed i; own_device := own_device i; roster := r;
     account_certificate := account_certificate i; delivery := delivery i; receipt := receipt i;
     pending := pending i; consumed := consumed i; roster_delivery := roster_delivery i |}.
Definition with_consumed (c : list ConsumedRequest) (i : LocalIdentity) : LocalIdentity :=
  {| seed := seed i; own_device := own_device i; roster := roster i;
     account_certificate := account_certificate i; delivery := delivery i; receipt := receipt i;
     pending := pending i; consumed := c; roster_delivery := roster_delivery i |}.
(** The pairing state of a device that has been revoked. *)
Definition clear_pairing (i : LocalIdentity) : LocalIdentity :=
  {| seed := seed i; own_device := own_device i; roster := roster i;
     account_certificate := account_certificate i; delivery := None; receipt := None;
     pending := None; consumed := consumed i; roster_delivery := [] |}.

Definition joining_device (joining : option DeviceDescriptor) (qr : PairingQr) : DeviceDescriptor :=
  default (qr_device qr) joining.

Definition is_consumed (qr : PairingQr) (now : N) (i : LocalIdentity) : bool :=
  existsb (fun c => String.eqb (request_id c) (qr_id qr) && (now <? request_expires c)%N) (consumed i).

Definition consume (qr : PairingQr) (now : N) (i : LocalIdentity) : LocalIdentity :=
  let i := with_consumed (filter (fun c => (now <? request_expires c)%N = true) (consumed i)) i in
  if (now <? expires_at qr)%N && negb (is_consumed qr now i)
  then with_consumed (consumed i ++ [ {| request_id := qr_id qr; request_expires := expires_at qr |} ]) i
  else i.

Definition QR_VERSION : N := 2.
Definition MAX_DELEGATIONS : nat := 32.
Definition storage_error : DeviceLinkError := new_error Storage.

(** ** Account certificates ([account_certificate.rs]) *)

Section Certificate.
Context {scheme : Ed25519}.
Variable hex_decode : string -> result string bytes.
(** [serde_json] of a certificate's signed content. *)
Variable delegation_to_vec : string * list Delegation * string -> result string bytes.

Abbreviation public_key := (public_key hex_decode).

Definition CONTEXT : bytes := context "mosh-account-delegation-v1".

Definition subject (c : AccountCertificate) : string :=
  match last (delegations c) with Some d => dg_key d | None => root c end.

Definition issuer (c : AccountCertificate) : option string :=
  match last (delegations c) with
  | None => None
  | Some _ => Some (match reverse (delegations c) !! 1 with Some d => dg_key d | None => root c end)
  end.

Definition root_certificate (key : bytes) : AccountCertificate :=
  {| root := hex_string (verifying_key key); delegations := [] |}.

Definition input (c : AccountCertificate) (prefix : nat) (key : string) : result DeviceLinkError bytes :=
  b ← inv (delegation_to_vec (root c, take prefix (delegations c), key));
  Ok (CONTEXT ++ b).

(** One turn of the loop of [verify]: the signer so far and the keys seen. *)
Definition verify_delegation (c : AccountCertificate) (acc : bytes * gset string)
    (id : nat * Delegation) : result DeviceLinkError (bytes * gset string) :=
  let '(signer, known) := acc in
  let '(index, d) := id in
  next ← public_key (dg_key d);
  _ ← guard_or (negb (bool_decide (dg_key d ∈ known))) invalid;
  sig ← inv (hex_decode (dg_signature d));
  content ← input c index (dg_key d);
  _ ← guard_or (signature_from_slice sig) invalid;
  _ ← guard_or (verify_strict signer sig content) invalid;
  Ok (next, {[ dg_key d ]} ∪ known).

Definition verify_certificate (c : AccountCertificate) : result DeviceLinkError unit :=
  _ ← guard_or (length (delegations c) <=? MAX_DELEGATIONS)%nat invalid;
  signer ← public_key (root c);
  _ ← try_fold (verify_delegation c) (signer, {[ root c ]}) (imap pair (delegations c));
  Ok tt.

Definition issue (c : AccountCertificate) (sub : string) (signer : bytes)
  : result DeviceLinkError AccountCertificate :=
  _ ← verify_certificate c;
  _ ← guard_or (String.eqb (subject c) (hex_string (verifying_key signer))) invalid;
  content ← input c (length (delegations c)) sub;
  let next := {| root := root c; delegations := delegations c ++
    [ {| dg_key := sub; dg_signature := hex_string (sign signer content) |} ] |} in
  _ ← verify_certificate next;
  Ok next.

Definition subject_of (c : AccountCertificate) (l : list Delegation) : string :=
  match last l with Some d => dg_key d | None => root c end.

Definition delegated (c : AccountCertificate) (l : list Delegation) : Prop :=
  forall n d, l !! n = Some d -> exists key sig content,
    public_key (subject_of c (take n l)) = Ok key /\ hex_decode (dg_signature d) = Ok sig /\
    input c n (dg_key d) = Ok content /\ verify_strict key sig content = true.

Lemma verify_delegation_Ok c signer known n d acc :
  verify_delegation c (signer, known) (n, d) = Ok acc ->
  public_key (dg_key d) = Ok acc.1 /\ acc.2 = {[ dg_key d ]} ∪ known /\ dg_key d ∉ known /\
  exists sig content, hex_decode (dg_signature d) = Ok sig /\ input c n (dg_key d) = Ok content /\
    verify_strict signer sig content = true.
Proof.
  unfold verify_delegation. intros Hv. apply bind_Ok in Hv as (next & Hn & Hv).
  apply bind_Ok in Hv as ([] & Hk & Hv). apply bind_Ok in Hv as (sig & Hs & Hv).
  apply bind_Ok in Hv as (content & Hc & Hv). apply bind_Ok in Hv as ([] & _ & Hv).
  apply bind_Ok in Hv as ([] & Hver & [= <-]). apply map_err_Ok in Hs. apply guard_or_Ok in Hver.
  apply guard_or_Ok, negb_true_iff, bool_decide_eq_false in Hk. cbn. split_and!; try done.
  by exists sig, content.
Qed.

Lemma delegations_chain c k0 l acc :
  public_key (root c) = Ok k0 ->
  try_fold (verify_delegation c) (k0, {[ root c ]}) (imap pair l) = Ok acc ->
  public_key (subject_of c l) = Ok acc.1 /\
  acc.2 = list_to_set (root c :: map dg_key l) /\ NoDup (root c :: map dg_key l) /\ delegated c l.
Proof.
  intros Hroot. revert acc. induction l as [|d l IH] using rev_ind; intros acc Hf.
  { injection Hf as <-. split_and!; [done|cbn; set_solver|apply NoDup_singleton|by intros ? ? ?]. }
  rewrite imap_app, try_fold_app in Hf. apply bind_Ok in Hf as ([signer known] & H0 & Hf).
  cbn [imap try_fold] in Hf. apply bind_Ok in Hf as (acc' & Hv & [= <-]).
  destruct (IH _ H0) as (Hs & Hk & Hnd & Hdel). cbn [fst snd] in Hs, Hk.
  rewrite Nat.add_0_r in Hv.
  apply verify_delegation_Ok in Hv as (Hpk & Hk' & Hnin & sig & content & Hsig & Hc & Hver).
  unfold subject_of. rewrite last_snoc, map_app. cbn [map]. split_and!; [done| | |].
  - rewrite Hk', Hk. change (root c :: map dg_key l ++ [dg_key d])
      with ((root c :: map dg_key l) ++ [dg_key d]). rewrite list_to_set_app_L. cbn. set_solver.
  - change (NoDup ((root c :: map dg_key l) ++ [dg_key d])). apply NoDup_app.
    split_and!; [done| |apply NoDup_singleton].
    intros x Hx ->%list_elem_of_singleton. apply Hnin. rewrite Hk. by apply elem_of_list_to_set.
  - intros n x Hx. apply lookup_app_Some in Hx as [Hx|[Hn Hx]].
    + rewrite take_app_le by (apply lookup_lt_Some in Hx; lia). by apply Hdel.
    + assert (n = length l) as ->.
      { apply lookup_lt_Some in Hx. cbn in Hx. lia. }
      rewrite Nat.sub_diag in Hx. injection Hx as <-. rewrite take_app_length.
      by exists signer, sig, content.
Qed.

(** A certificate that verifies is an unbroken delegation: at most
    thirty-two links, each signed by the key the link before it names (the root
    key for the first) over the whole chain up to there, and no key appears
    twice. *)
Theorem certificate_sound c :
  verify_certificate c = Ok tt ->
  length (delegations c) <= MAX_DELEGATIONS /\
  NoDup (root c :: map dg_key (delegations c)) /\ delegated c (delegations c).
Proof.
  unfold verify_certificate. intros Hv. apply bind_Ok in Hv as ([] & Hl & Hv).
  apply bind_Ok in Hv as (k0 & Hk & Hv). apply bind_Ok in Hv as (acc & Hf & _).
  apply guard_or_Ok, Nat.leb_le in Hl. by destruct (delegations_chain c k0 _ _ Hk Hf) as (_ & _ & ? & ?).
Qed.

End Certificate.

Section Identity.
Context {scheme : Ed25519} {St : Type} {cell : CasCell St} {cell_laws : CasCellLaws St}.
Variable sha256 : bytes -> bytes.
Variable hex_decode : string -> result string bytes.
Variable content_to_vec : N * option string * string * DeviceDescriptor -> result string bytes.
Variable roster_to_vec : DeviceRoster -> result string bytes.
(** [serde_json] of a certificate's signed content, and of the identity. *)
Variable delegation_to_vec : string * list Delegation * string -> result string bytes.
Variable identity_to_vec : LocalIdentity -> result string bytes.
Variable identity_from_slice : bytes -> result string LocalIdentity.

Abbreviation devices_of := (devices_of sha256 hex_decode content_to_vec roster_to_vec).
Abbreviation known_device := (known_device sha256 hex_decode content_to_vec roster_to_vec).
Abbreviation extends := (extends sha256 hex_decode content_to_vec roster_to_vec).
Abbreviation verify_certificate := (verify_certificate hex_decode delegation_to_vec).

(** ** Pairing codes ([qr.rs]) *)

Definition is_current (qr : PairingQr) : bool := (qr_version qr =? QR_VERSION)%N.

Definition validate_stored (qr : PairingQr) : result DeviceLinkError unit :=
  if negb ((qr_version qr =? 1)%N || (qr_version qr =? QR_VERSION)%N)
     || negb (str_len (qr_id qr) =? 32)%N
     || negb (is_ok (hex_decode (qr_id qr)))
     || bool_decide (secret qr = replicate 32 x00)
  then Err (new_error InvalidQr)
  else map_err (fun _ => new_error InvalidQr) (validate sha256 hex_decode (qr_device qr)).

(** ** The identity *)

Definition revoked (i : DeviceIdentity) : result DeviceLinkError bool :=
  ds ← devices_of (roster (record i));
  Ok (negb (bool_decide (own_device (record i) ∈ ds))).

Definition key (i : DeviceIdentity) : bytes :=
  if bool_decide (signing_key i = seed (record i)) then signing_key i else seed (record i).

Definition own_certificate (i : DeviceIdentity)
  : result DeviceLinkError (option AccountCertificate) :=
  r ← revoked i;
  if (r : bool) then Err invalid
  else if String.eqb (signing_public_key (own_device (record i))) (user_id (roster (record i)))
  then Ok (Some (root_certificate (key i)))
  else Ok (account_certificate (record i)).

Definition validate_pending (i : DeviceIdentity) (p : PendingJoin) : result DeviceLinkError unit :=
  let d := own_device (record i) in
  ds ← devices_of (p_base p);
  _ ← validate_stored (p_qr p);
  if negb (bool_decide (joining_device (p_joining p) (p_qr p) = d))
     || (is_current (p_qr p) && (bool_decide (p_joining p = None)
                                 || negb (bool_decide (qr_device (p_qr p) = p_trusted p))))
  then Err invalid
  else
    rv ← revoked i;
    ok ← (if (rv : bool) then extends (p_base p) (roster (record i)) else Ok true);
    if negb ok || bool_decide (is_Some (delivery (record i)))
       || negb (bool_decide (p_trusted p ∈ ds))
       || existsb (fun x => String.eqb (device_id x) (device_id d)
                            || String.eqb (moss_peer_id x) (moss_peer_id d)) ds
    then Err invalid else Ok tt.

Definition validate_delivery (i : DeviceIdentity) (d : LinkDelivery) : result DeviceLinkError unit :=
  _ ← validate_stored (d_qr d);
  if is_current (d_qr d) && (bool_decide (d_joining d = None)
                             || negb (bool_decide (qr_device (d_qr d) = own_device (record i))))
  then Err invalid
  else validate sha256 hex_decode (joining_device (d_joining d) (d_qr d)).

Definition when_some {A} (o : option A) (f : A -> result DeviceLinkError unit)
  : result DeviceLinkError unit := match o with Some a => f a | None => Ok tt end.

Definition validate_identity (i : DeviceIdentity) (peer_id : string) : result DeviceLinkError unit :=
  let d := own_device (record i) in
  _ ← when_some (account_certificate (record i)) (fun c =>
        _ ← verify_certificate c;
        guard_or (String.eqb (root c) (user_id (roster (record i)))
                  && String.eqb (subject c) (signing_public_key d)) invalid);
  _ ← guard_or (String.eqb (moss_peer_id d) peer_id
                && String.eqb (hex_string (verifying_key (key i))) (signing_public_key d)) invalid;
  known ← known_device (roster (record i)) (device_id d);
  _ ← guard_or (bool_decide (known = Some d)) invalid;
  _ ← when_some (pending (record i)) (validate_pending i);
  _ ← when_some (delivery (record i)) (validate_delivery i);
  when_some (receipt (record i)) (fun l => validate_stored (l_qr l)).

Definition new_identity (generated : bytes) (peer_id : string)
  : result DeviceLinkError LocalIdentity :=
  let d := new_descriptor sha256 generated peer_id in
  r ← genesis sha256 hex_decode content_to_vec roster_to_vec d generated;
  Ok {| seed := generated; own_device := d; roster := r; account_certificate := None;
        delivery := None; receipt := None; pending := None; consumed := []; roster_delivery := [] |}.

(** [DeviceIdentity::open]; [generated] is the key drawn when none is stored. *)
Definition open (s : St) (generated : bytes) (peer_id : string)
  : St * result DeviceLinkError DeviceIdentity :=
  let loaded (s : St) (b : bytes) :=
    (s, r ← map_err (fun _ => storage_error) (identity_from_slice b);
        let i := {| persisted := b; signing_key := seed r; record := r |} in
        _ ← validate_identity i peer_id; Ok i) in
  match cell_get s with
  | Err _ => (s, Err storage_error)
  | Ok (Some b) => loaded s b
  | Ok None =>
      match (candidate ← new_identity generated peer_id;
             map_err (fun _ => storage_error) (identity_to_vec candidate)) with
      | Err e => (s, Err e)
      | Ok b =>
          match cell_init s b with
          | (s, Err _) => (s, Err storage_error)
          | (s, Ok w) => loaded s w
          end
      end
  end.

Definition update (r : LocalIdentity) (s : St) (i : DeviceIdentity)
  : St * DeviceIdentity * result DeviceLinkError unit :=
  match (known ← known_device (roster r) (device_id (own_device r));
         _ ← guard_or (bool_decide (known = Some (own_device r))) invalid;
         map_err (fun _ => storage_error) (identity_to_vec r)) with
  | Err e => (s, i, Err e)
  | Ok b =>
      match cell_replace s (persisted i) b with
      | (s, Err _) => (s, i, Err storage_error)
      | (s, Ok false) => (s, i, Err (new_error Busy))
      | (s, Ok true) => (s, {| persisted := b;
          signing_key := if bool_decide (signing_key i = seed r) then signing_key i else seed r;
          record := r |}, Ok tt)
      end
  end.

Definition reload (generated : bytes) (s : St) (i : DeviceIdentity)
  : St * DeviceIdentity * result DeviceLinkError unit :=
  match open s generated (moss_peer_id (own_device (record i))) with
  | (s, Err e) => (s, i, Err e)
  | (s, Ok next) => (s, next, Ok tt)
  end.

Definition adopt_roster (next : DeviceRoster) (s : St) (i : DeviceIdentity)
  : St * DeviceIdentity * result DeviceLinkError unit :=
  match (ext ← extends next (roster (record i));
         _ ← guard_or ext invalid;
         ds ← devices_of next;
         let r := with_roster next (record i) in
         Ok (if bool_decide (own_device r ∈ ds) then r else clear_pairing r)) with
  | Err e => (s, i, Err e)
  | Ok r => update r s i
  end.

(** ** Owners of the record *)

Hypothesis identity_roundtrip : forall r b, identity_to_vec r = Ok b -> identity_from_slice b = Ok r.

(** What an owner holds is what it last read or wrote. *)
Definition in_sync (i : DeviceIdentity) : Prop := identity_from_slice (persisted i) = Ok (record i).

Definition stored (s : St) : option LocalIdentity :=
  b ← cell_content s; res_ok (identity_from_slice b).

Lemma update_cases r s i s' i' res :
  update r s i = (s', i', res) ->
  (i' = i /\ is_ok res = false /\
   (cell_content s' = cell_content s \/
    exists b, identity_to_vec r = Ok b /\ cell_content s = Some (persisted i) /\ cell_content s' = Some b)) \/
  (res = Ok tt /\ record i' = r /\ identity_to_vec r = Ok (persisted i') /\
   cell_content s = Some (persisted i) /\ cell_content s' = Some (persisted i')).
Proof using Type cell_laws.
  unfold update. destruct (_ ≫= _) as [b|e] eqn:Eb; [|intros [= <- <- <-]; left; by auto].
  apply bind_Ok in Eb as (known & _ & Eb). apply bind_Ok in Eb as ([] & _ & Eb).
  apply map_err_Ok in Eb.
  destruct (cell_replace s (persisted i) b) as [s1 r1] eqn:Er.
  apply cell_replace_cases in Er as [(Hc & Hr & _)|(Hc & Hc' & Hr)].
  - destruct r1 as [[]|]; [done| |]; intros [= <- <- <-]; left; auto.
  - destruct r1 as [[]|]; [|done|]; intros [= <- <- <-].
    + right. by split_and!.
    + left. split_and!; [done|done|]. right. by exists b.
Qed.

Lemma update_busy r s i s' i' e :
  update r s i = (s', i', Err e) -> error_kind e = Busy ->
  cell_content s' = cell_content s /\ cell_content s <> Some (persisted i).
Proof using Type cell_laws.
  unfold update. destruct (_ ≫= _) as [b|e'] eqn:Eb.
  - destruct (cell_replace s (persisted i) b) as [s1 [[]|]] eqn:Er.
    + intros [=].
    + intros [= <- <- <-] _. apply cell_replace_cases in Er as [(Hc & _ & Hn)|(_ & _ & Hr)]; [by auto|done].
    + intros [= <- <- <-] [=].
  - intros [= <- <- <-] Hk. exfalso. apply bind_Err in Eb as [Eb|(known & _ & Eb)].
    + apply known_device_fails in Eb as ->. discriminate Hk.
    + apply bind_Err in Eb as [Eb|(? & _ & Eb)].
      * unfold guard_or in Eb. destruct (bool_decide _); [done|]. injection Eb as <-. discriminate Hk.
      * destruct (identity_to_vec r); [done|]. injection Eb as <-. discriminate Hk.
Qed.

Lemma open_in_sync s g peer s' i :
  open s g peer = (s', Ok i) -> in_sync i.
Proof.
  assert (Hload : forall (s0 : St) b,
    (r ← map_err (fun _ => storage_error) (identity_from_slice b);
     _ ← validate_identity {| persisted := b; signing_key := seed r; record := r |} peer;
     Ok {| persisted := b; signing_key := seed r; record := r |}) = Ok i -> in_sync i).
  { intros s0 b Hl. apply bind_Ok in Hl as (r & Hr & Hl). apply bind_Ok in Hl as (? & _ & [= <-]).
    by apply map_err_Ok in Hr. }
  unfold open. cbn zeta. destruct (cell_get s) as [[b|]|]; [| |done].
  - intros [= _ Hl]. by apply (Hload s b).
  - destruct (_ ≫= _) as [b|]; [|done]. destruct (cell_init s b) as [s1 [w|]]; [|done].
    intros [= _ Hl]. by apply (Hload s1 w).
Qed.

Lemma open_content s g peer s' res :
  open s g peer = (s', res) -> is_Some (cell_content s) -> cell_content s' = cell_content s.
Proof using Type cell_laws.
  unfold open. cbn zeta. intros Ho [b0 Hb0]. destruct (cell_get s) as [[b|]|] eqn:Eg.
  - by injection Ho as <- _.
  - apply cell_get_content in Eg. congruence.
  - by injection Ho as <- _.
Qed.

(** Runtime owners taking turns on the shared record: they adopt a received
    roster, write back a record of their own whose roster extends the one they
    know (an added or revoked device, consumed pairing requests), reload, or
    open. *)
Inductive owner_step : St * list DeviceIdentity -> St * list DeviceIdentity -> Prop :=
| own_adopt s os n i next s' i' res :
    os !! n = Some i -> adopt_roster next s i = (s', i', res) ->
    owner_step (s, os) (s', <[n := i']> os)
| own_update s os n i r s' i' res :
    os !! n = Some i -> extends (roster r) (roster (record i)) = Ok true ->
    update r s i = (s', i', res) -> owner_step (s, os) (s', <[n := i']> os)
| own_reload s os n i g s' i' res :
    os !! n = Some i -> reload g s i = (s', i', res) -> owner_step (s, os) (s', <[n := i']> os)
| own_open s os g peer s' res :
    open s g peer = (s', res) ->
    owner_step (s, os) (s', match res with Ok i => os ++ [i] | Err _ => os end).

Lemma extends_prefix r base : extends r base = Ok true -> base `prefix_of` r.
Proof.
  unfold Devices.extends. intros He. apply bind_Ok in He as (? & _ & He). injection He as He.
  by apply bool_decide_eq_true in He.
Qed.

Lemma adopt_update next s i s' i' res :
  adopt_roster next s i = (s', i', res) ->
  (s' = s /\ i' = i /\ res = Err invalid) \/
  exists ds r, devices_of next = Ok ds /\ roster (record i) `prefix_of` next /\
    r = (if bool_decide (own_device (record i) ∈ ds) then with_roster next (record i)
         else clear_pairing (with_roster next (record i))) /\
    update r s i = (s', i', res).
Proof.
  unfold adopt_roster. destruct (_ ≫= _) as [r|e] eqn:Er.
  2:{ intros [= <- <- <-]. left. split_and!; [done|done|]. f_equal. revert e Er.
      change (fails_with invalid (ext ← extends next (roster (record i)); _ ← guard_or ext invalid;
        ds ← devices_of next; let r := with_roster next (record i) in
        Ok (if bool_decide (own_device r ∈ ds) then r else clear_pairing r))).
      auto using extends_fails, devices_of_fails with mosh. }
  apply bind_Ok in Er as (ext & He & Er). apply bind_Ok in Er as ([] & Hg & Er).
  apply bind_Ok in Er as (ds & Hds & [= <-]). apply guard_or_Ok in Hg. subst ext.
  apply extends_prefix in He. intros Hu. right. eexists ds, _. split_and!; [done|done|done|done].
Qed.

Definition grows (s s' : St) : Prop :=
  forall r, stored s = Some r -> exists r', stored s' = Some r' /\ roster r `prefix_of` roster r'.

Lemma grows_same s s' : cell_content s' = cell_content s -> grows s s'.
Proof. intros Hc r Hr. exists r. split; [|done]. unfold stored in *. by rewrite Hc. Qed.

Lemma update_grows r s i s' i' res :
  in_sync i -> roster (record i) `prefix_of` roster r -> update r s i = (s', i', res) ->
  in_sync i' /\ grows s s'.
Proof using Type cell_laws identity_roundtrip.
  intros Hsync Hpre Hu.
  assert (Hgo : forall b, identity_to_vec r = Ok b -> cell_content s = Some (persisted i) ->
                cell_content s' = Some b -> grows s s').
  { intros b Hb Hc Hc' r0 Hr0. unfold stored in *. rewrite Hc in Hr0. cbn in Hr0. rewrite Hsync in Hr0.
    injection Hr0 as <-. exists r. rewrite Hc'. cbn. by rewrite (identity_roundtrip r b). }
  apply update_cases in Hu as [(-> & _ & [Hc|(b & Hb & Hc & Hc')])|(_ & Hrec & Hb & Hc & Hc')].
  - split; [done|by apply grows_same].
  - split; [done|by eapply Hgo].
  - split; [|by eapply Hgo]. unfold in_sync. rewrite Hrec. by apply identity_roundtrip.
Qed.


(** Adopting a roster is all or nothing: on success memory and store hold
    the same record, its roster is the new one, which extends the old, the
    device keeps its seed, descriptor, certificate and consumed requests, and a
    device the new roster no longer lists forgets its pairing state; on any
    error memory is untouched, and [Busy] means that another owner has replaced
    the record since and the store was left as it was. *)
Theorem adopt_roster_spec next s i s' i' res :
  adopt_roster next s i = (s', i', res) ->
  match res with
  | Ok _ => exists ds, devices_of next = Ok ds /\ roster (record i) `prefix_of` next /\
      roster (record i') = next /\ seed (record i') = seed (record i) /\
      own_device (record i') = own_device (record i) /\
      account_certificate (record i') = account_certificate (record i) /\
      consumed (record i') = consumed (record i) /\
      (if bool_decide (own_device (record i) ∈ ds)
       then delivery (record i') = delivery (record i) /\ receipt (record i') = receipt (record i) /\
            pending (record i') = pending (record i) /\ roster_delivery (record i') = roster_delivery (record i)
       else delivery (record i') = None /\ receipt (record i') = None /\
            pending (record i') = None /\ roster_delivery (record i') = []) /\
      cell_content s' = Some (persisted i') /\ identity_to_vec (record i') = Ok (persisted i')
  | Err e => i' = i /\
      (error_kind e = Busy -> cell_content s' = cell_content s /\ cell_content s <> Some (persisted i))
  end.
Proof using Type cell_laws.
  intros Ha. destruct (adopt_update next s i s' i' res Ha) as [(-> & -> & ->)|Hu].
  { split; [done|]. intros Hk. discriminate Hk. }
  destruct Hu as (ds & r & Hds & Hp & Er & Hu).
  assert (Hr : roster r = next /\ seed r = seed (record i) /\ own_device r = own_device (record i) /\
    account_certificate r = account_certificate (record i) /\ consumed r = consumed (record i))
    by (rewrite Er; by case_bool_decide).
  destruct Hr as (Hr1 & Hr2 & Hr3 & Hr4 & Hr5).
  destruct res as [[]|e].
  - apply update_cases in Hu as [(_ & [=] & _)|(_ & Hrec & Hb & _ & Hc)]. rewrite Hrec.
    exists ds. split_and!; try done. rewrite Er. by case_bool_decide.
  - pose proof (update_cases r s i s' i' _ Hu) as [(-> & _ & _)|([=] & _)]. split; [done|].
    intros Hbusy. by apply (update_busy r s i s' i e).
Qed.
End Identity.

(** ** Two owners of one record *)

Definition toy_delegation (c : string * list Delegation * string) : result string bytes :=
  Ok (String.list_byte_of_string (c.1.1 +:+ c.2)).
(** A codec that knows the phone's record under three rosters. *)
Definition phone_record (r : DeviceRoster) : LocalIdentity :=
  {| seed := [x01]; own_device := phone; roster := r; account_certificate := None; delivery := None;
     receipt := None; pending := None; consumed := []; roster_delivery := [] |}.
Definition known_rosters : list (bytes * DeviceRoster) :=
  [([x01], one_device); ([x02], two_devices); ([x03], three_devices)].
Definition toy_identity (r : LocalIdentity) : result string bytes :=
  ok_or (fst <$> find (fun kr => bool_decide (phone_record kr.2 = r)) known_rosters) "unknown".
Definition toy_identity_of (b : bytes) : result string LocalIdentity :=
  ok_or ((fun kr => phone_record kr.2) <$> find (fun kr => bool_decide (kr.1 = b)) known_rosters) "unknown".

Lemma toy_identity_roundtrip r b : toy_identity r = Ok b -> toy_identity_of b = Ok r.
Proof.
  unfold toy_identity, known_rosters. cbn [find].
  repeat (case_bool_decide; [intros [= <-]; subst; reflexivity|]). done.
Qed.

Definition cell_open := @open toy_scheme Persistence plain_cell toy_sha hex_bytes toy_content
  toy_roster_bytes toy_delegation toy_identity toy_identity_of.
Definition cell_adopt := @adopt_roster toy_scheme Persistence plain_cell toy_sha hex_bytes toy_content
  toy_roster_bytes toy_identity.
Definition cell_step := @owner_step toy_scheme Persistence plain_cell toy_sha hex_bytes toy_content
  toy_roster_bytes toy_delegation toy_identity toy_identity_of.

Definition peer_name : string := moss_peer_id phone.
Definition blank : DeviceIdentity :=
  {| persisted := []; signing_key := []; record := {| seed := []; own_device := phone; roster := [];
     account_certificate := None; delivery := None; receipt := None; pending := None;
     consumed := []; roster_delivery := [] |} |}.
Definition opened (s : Persistence) : Persistence * DeviceIdentity :=
  let '(s', r) := cell_open s [x01] peer_name in (s', default blank (res_ok r)).
Definition owner_store : Persistence := (opened (new_store [])).1.
Definition first_owner : DeviceIdentity := (opened (new_store [])).2.
Definition after_adopt : Persistence * DeviceIdentity := (cell_adopt two_devices owner_store first_owner).1.

Lemma adopted : cell_adopt two_devices owner_store first_owner = (after_adopt.1, after_adopt.2, Ok tt).
Proof. vm_compute. reflexivity. Qed.

Lemma adopt_roster_spec_witness :
  exists ds, toy_devices two_devices = Ok ds /\
    roster (record first_owner) `prefix_of` two_devices /\
    roster (record after_adopt.2) = two_devices /\
    @cell_content Persistence plain_cell after_adopt.1 = Some (persisted after_adopt.2).
Proof.
  destruct (@adopt_roster_spec toy_scheme Persistence plain_cell plain_cell_laws toy_sha hex_bytes
    toy_content toy_roster_bytes toy_identity two_devices owner_store first_owner _ _ _ adopted)
    as (ds & H1 & H2 & H3 & _ & _ & _ & _ & _ & H4 & _).
  exists ds. exact (conj H1 (conj H2 (conj H3 H4))).
Defined.

(** A second owner with a stale copy tries to write its own record back. *)
Lemma stale_is_busy :
  (cell_adopt three_devices after_adopt.1 first_owner).2 = Err (new_error Busy).
Proof. vm_compute. reflexivity. Qed.

Definition stale_write := cell_adopt three_devices after_adopt.1 first_owner.
Definition first_world : Persistence * list DeviceIdentity := (owner_store, [first_owner; first_owner]).
Definition last_world : Persistence * list DeviceIdentity :=
  (stale_write.1.1, <[1 := stale_write.1.2]> (<[0 := after_adopt.2]> [first_owner; first_owner])).

Lemma stale_result : stale_write = (stale_write.1.1, stale_write.1.2, Err (new_error Busy)).
Proof. apply surjective_pairing_eq2, stale_is_busy. Qed.

Lemma two_turns : rtc cell_step first_world last_world.
Proof.
  apply rtc_l with (after_adopt.1, <[0 := after_adopt.2]> [first_owner; first_owner]).
  - exact (own_adopt _ _ _ _ _ _ _ owner_store [first_owner; first_owner] 0 first_owner two_devices _ _ _ eq_refl adopted).
  - apply rtc_once.
    exact (own_adopt _ _ _ _ _ _ _ after_adopt.1 (<[0 := after_adopt.2]> [first_owner; first_owner]) 1 first_owner three_devices _ _ _ eq_refl stale_result).
Qed.


Definition delegate : AccountCertificate :=
  default (root_certificate [x01])
    (res_ok (issue hex_bytes toy_delegation (root_certificate [x01])
               (hex_string (pad32 [x02])) [x01])).

Lemma certificate_sound_witness :
  dg_key <$> delegations delegate = [hex_string (pad32 [x02])] /\
  NoDup (root delegate :: map dg_key (delegations delegate)) /\
  delegated hex_bytes toy_delegation delegate (delegations delegate).
Proof.
  split; [vm_compute; reflexivity|].
  apply (certificate_sound hex_bytes toy_delegation delegate). vm_compute. reflexivity.
Defined.
End Identity.
