(* ===== verification/Fragments.v ===== *)
(** * Fragments: pages cut to fit a datagram

    A message too long for the wire travels as fragments of [CHUNK] bytes.
    [message_deletion/fragment_buffer.rs] reassembles them in any order and
    from several carriers at once; [conversation/recovery/fragment.rs] takes
    them one after the other, as the history readers pull them.  SHA-256 and
    base64 are parameters. *)
From S2P Require Import Prelude.

Module Fragments.

#[local] Open Scope N_scope.
#[local] Set Default Proof Using "Type".

Definition CHUNK : N := 3000.
Definition MAX_PAGE : N := 200000.
(** The pages a [FragmentBuffer] keeps. *)
Definition MAX_PAGES : nat := 16.

Record PageFragment := { digest : string; offset : N; total : N; bytes_b64 : string }.
#[export] Instance PageFragment_eq_dec : EqDecision PageFragment.
Proof. solve_decision. Defined.

Record PartialPage := { page_total : N; chunks : gmap N bytes }.
Record FragmentBuffer := { pages : gmap string PartialPage }.
Definition empty_buffer : FragmentBuffer := {| pages := ∅ |}.

Definition len (b : bytes) : N := N.of_nat (length b).

(** The bytes the chunks of a page add up to. *)
Definition held (p : PartialPage) : nat := sum_list_with length (btree_values N.le (chunks p)).

Section Buffer.
Variable sha256 : bytes -> bytes.
Variable b64_encode : bytes -> string.
Variable b64_decode : string -> result string bytes.

Definition fragment_of (b : bytes) (index : N) : PageFragment :=
  {| digest := hex_string (sha256 b); offset := index * CHUNK; total := len b;
     bytes_b64 := b64_encode (piece b CHUNK index) |}.

Definition split_bytes (b : bytes) : result string (list PageFragment) :=
  if MAX_PAGE <? len b then Err "deletion page exceeds limit"
  else Ok (map (fragment_of b) (range 0 (div_ceil (len b) CHUNK))).

Definition validate (f : PageFragment) (b : bytes) : result string unit :=
  if (total f =? 0) || (MAX_PAGE <? total f) || (total f <=? offset f)
     || negb (offset f mod CHUNK =? 0)
     || negb (len b =? N.min CHUNK (total f - offset f))
     || negb (String.length (digest f) =? 64)%nat
  then Err "invalid deletion fragment" else Ok tt.

Definition page_key (carrier d : string) : string := carrier +:+ ":" +:+ d.

(** Room for the page of [key]: the least key goes when sixteen others are open. *)
Definition make_room (key : string) (ps : gmap string PartialPage) : gmap string PartialPage :=
  if negb (bool_decide (is_Some (ps !! key))) && (MAX_PAGES <=? size ps)%nat
  then btree_pop_first ps else ps.

Definition open_page (key : string) (t : N) (ps : gmap string PartialPage) : PartialPage :=
  default {| page_total := t; chunks := ∅ |} (ps !! key).

Definition conflicts (p : PartialPage) (f : PageFragment) (b : bytes) : bool :=
  negb (page_total p =? total f)
  || match chunks p !! offset f with Some old => negb (bool_decide (old = b)) | None => false end.

Definition add (carrier : string) (f : PageFragment) : method FragmentBuffer string (option bytes) :=
  fun s =>
  match b64_decode (bytes_b64 f) with
  | Err e => (s, Err e)
  | Ok b =>
      match validate f b with
      | Err e => (s, Err e)
      | Ok _ =>
          let key := page_key carrier (digest f) in
          let ps := make_room key (pages s) in
          let p := open_page key (total f) ps in
          if conflicts p f b
          then ({| pages := <[ key := p ]> ps |}, Err "conflicting deletion fragment")
          else
            let p' := {| page_total := page_total p; chunks := <[ offset f := b ]> (chunks p) |} in
            if negb (N.of_nat (held p') =? total f)
            then ({| pages := <[ key := p' ]> ps |}, Ok None)
            else
              let page := concat (btree_values N.le (chunks p')) in
              ({| pages := delete key ps |},
               if String.eqb (hex_string (sha256 page)) (digest f)
               then Ok (Some page) else Err "deletion page digest mismatch")
      end
  end.

(** ** The weight of a page *)

Definition weight (t o : N) : nat := N.to_nat (N.min CHUNK (t - o)).
Definition offsets (t : N) : list N := map (fun i => i * CHUNK) (range 0 (div_ceil t CHUNK)).

Record wf_page (p : PartialPage) : Prop := {
  wf_total : 0 < page_total p <= MAX_PAGE;
  wf_chunk o c : chunks p !! o = Some c ->
    (o mod CHUNK = 0 /\ o < page_total p) /\ len c = N.min CHUNK (page_total p - o);
}.

Lemma CHUNK_pos : CHUNK <> 0.
Proof. done. Qed.
Opaque CHUNK.

Lemma aligned o : o mod CHUNK = 0 -> o = o / CHUNK * CHUNK.
Proof. pose proof CHUNK_pos. intros Ho. pose proof (N.div_mod o CHUNK H). lia. Qed.

Lemma elem_of_offsets t o : o ∈ offsets t <-> o mod CHUNK = 0 /\ o < t.
Proof.
  pose proof CHUNK_pos. unfold offsets. rewrite list_elem_of_fmap. split.
  - intros (i & -> & Hi%elem_of_range). split; [by apply N.Div0.mod_mul|].
    apply div_ceil_spec; [done|lia].
  - intros [Ha Ho]. exists (o / CHUNK). split; [by apply aligned|]. apply elem_of_range.
    split; [apply N.le_0_l|]. apply div_ceil_spec; [done|]. by rewrite <-aligned.
Qed.

Lemma offsets_NoDup t : NoDup (offsets t).
Proof.
  pose proof CHUNK_pos. apply NoDup_fmap_2; [|apply range_NoDup]. intros x y Hxy. nia.
Qed.

Lemma offsets_sorted t : StronglySorted N.le (offsets t).
Proof.
  unfold offsets. pose proof (range_sorted 0 (div_ceil t CHUNK)) as Hs.
  induction Hs as [|x l Hs IH Hall]; [constructor|]. cbn. constructor; [done|].
  apply Forall_map. eapply Forall_impl; [done|]. cbn. intros y Hy. nia.
Qed.

Lemma cut_length b i : i * CHUNK < len b -> length (piece b CHUNK i) = weight (len b) (i * CHUNK).
Proof. unfold piece, weight, len. rewrite length_take, length_drop. lia. Qed.

Lemma pieces_concat b : concat (map (piece b CHUNK) (range 0 (div_ceil (len b) CHUNK))) = b.
Proof.
  pose proof CHUNK_pos. rewrite concat_pieces by lia. cbn [N.mul N.to_nat drop].
  rewrite N.sub_0_r. apply take_ge. pose proof (div_ceil_spec (len b) CHUNK (div_ceil (len b) CHUNK) H).
  unfold len in *. lia.
Qed.

Lemma sum_length {A} (f : A -> bytes) l : length (concat (map f l)) = sum_list_with (length ∘ f) l.
Proof. induction l as [|x l IH]; [done|]. cbn. rewrite length_app, IH. done. Qed.

Lemma sum_ext {A} (f g : A -> nat) l : (forall x, x ∈ l -> f x = g x) ->
  sum_list_with f l = sum_list_with g l.
Proof.
  induction l as [|x l IH]; intros Hfg; [done|]. cbn. rewrite (Hfg x) by by left.
  rewrite IH; [done|]. intros y Hy. apply Hfg. by right.
Qed.

Lemma sum_map {A B} (f : B -> nat) (g : A -> B) l :
  sum_list_with f (map g l) = sum_list_with (f ∘ g) l.
Proof. induction l as [|x l IH]; [done|]. cbn. by rewrite IH. Qed.

Lemma offsets_weight t : sum_list_with (weight t) (offsets t) = N.to_nat t.
Proof.
  pose proof CHUNK_pos. set (b := replicate (N.to_nat t) x00).
  assert (Ht : len b = t) by (unfold len, b; rewrite length_replicate; lia).
  transitivity (length b); [|unfold b; apply length_replicate].
  rewrite <-(pieces_concat b), sum_length, Ht. unfold offsets. rewrite sum_map.
  apply sum_ext. intros i Hi%elem_of_range. cbn.
  rewrite cut_length, Ht; [done|]. rewrite Ht. apply div_ceil_spec; [done|lia].
Qed.

Lemma held_keys p : wf_page p -> held p = sum_list_with (weight (page_total p)) (btree_keys N.le (chunks p)).
Proof.
  intros Hp. unfold held. rewrite (btree_values_map N.le (chunks p) (fun k => default [] (chunks p !! k))).
  - rewrite sum_map. apply sum_ext. intros o Ho%elem_of_btree_keys. cbn. destruct Ho as [c Hc].
    rewrite Hc. apply Hp in Hc as [_ Hc]. unfold len, weight in *. cbn. lia.
  - intros k [c Hc]%elem_of_btree_keys. by rewrite Hc.
Qed.

Lemma btree_keys_NoDup (m : gmap N bytes) : NoDup (btree_keys N.le m).
Proof. unfold btree_keys. rewrite merge_sort_Permutation. apply NoDup_elements. Qed.

Lemma sum_submseteq {A} (f : A -> nat) l k :
  l ⊆+ k -> (sum_list_with f l <= sum_list_with f k)%nat.
Proof. intros [j ->]%submseteq_Permutation. rewrite sum_list_with_app. lia. Qed.

(** A page with a chunk missing weighs less than its total. *)
Lemma held_missing p o : wf_page p -> o mod CHUNK = 0 -> o < page_total p ->
  chunks p !! o = None -> N.of_nat (held p) < page_total p.
Proof.
  intros Hp Ha Ho Hn. pose proof CHUNK_pos. rewrite held_keys by done.
  assert (Hsub : o :: btree_keys N.le (chunks p) ⊆+ offsets (page_total p)).
  { apply NoDup_submseteq.
    - constructor; [|apply btree_keys_NoDup]. rewrite elem_of_btree_keys, Hn. by intros [].
    - intros o' [->|[c Hc]%elem_of_btree_keys]%elem_of_cons; apply elem_of_offsets; [done|].
      by apply Hp in Hc as [[] _]. }
  apply (sum_submseteq (weight (page_total p))) in Hsub. rewrite offsets_weight in Hsub.
  cbn in Hsub. unfold weight at 1 in Hsub. lia.
Qed.

Lemma full_keys p : wf_page p ->
  (forall o, o mod CHUNK = 0 -> o < page_total p -> is_Some (chunks p !! o)) ->
  btree_keys N.le (chunks p) = offsets (page_total p).
Proof.
  intros Hp Hall. apply btree_keys_unique; [apply _..|apply offsets_sorted|apply offsets_NoDup|].
  intros o. rewrite elem_of_offsets. split; [by intros []; apply Hall|].
  intros [c Hc]. by apply Hp in Hc as [[] _].
Qed.

(** The weight says whether every chunk is there. *)
Lemma held_total p : wf_page p ->
  N.of_nat (held p) = page_total p <->
  forall o, o mod CHUNK = 0 -> o < page_total p -> is_Some (chunks p !! o).
Proof.
  intros Hp. split.
  - intros Hh o Ha Ho. destruct (chunks p !! o) eqn:E; [done|].
    pose proof (held_missing p o Hp Ha Ho E). lia.
  - intros Hall. rewrite held_keys, full_keys, offsets_weight by done. lia.
Qed.

Lemma held_le p : wf_page p -> N.of_nat (held p) <= page_total p.
Proof.
  intros Hp. rewrite held_keys by done.
  enough (btree_keys N.le (chunks p) ⊆+ offsets (page_total p)) as Hsub.
  { apply (sum_submseteq (weight (page_total p))) in Hsub. rewrite offsets_weight in Hsub. lia. }
  apply NoDup_submseteq; [apply btree_keys_NoDup|].
  intros o [c Hc]%elem_of_btree_keys. apply elem_of_offsets. by apply Hp in Hc as [[] _].
Qed.

(** ** One delivery *)

Lemma make_room_sub key ps k p : make_room key ps !! k = Some p -> ps !! k = Some p.
Proof. unfold make_room. destruct (_ && _); [apply btree_pop_first_sub|done]. Qed.

Lemma make_room_key key ps : make_room key ps !! key = ps !! key.
Proof.
  unfold make_room. destruct (bool_decide_reflect (is_Some (ps !! key))) as [|Hn]; [done|].
  destruct (_ <=? _)%nat; [|done]. cbn. apply eq_None_not_Some in Hn. rewrite Hn.
  apply eq_None_not_Some. intros [p Hp%btree_pop_first_sub]. congruence.
Qed.

Lemma make_room_size key ps : (size ps <= MAX_PAGES)%nat ->
  (size (make_room key ps) <= MAX_PAGES)%nat /\
  (ps !! key = None -> (size (make_room key ps) < MAX_PAGES)%nat).
Proof.
  intros Hs. unfold make_room. destruct (bool_decide_reflect (is_Some (ps !! key))) as [Hk|Hk].
  { cbn. split; [done|]. intros Hn. destruct Hk. congruence. }
  cbn [negb andb]. destruct (Nat.leb_spec MAX_PAGES (size ps)); [|by split; intros; lia].
  rewrite btree_pop_first_size. unfold MAX_PAGES in *. lia.
Qed.

Lemma fragment_valid_Ok f b u : validate f b = Ok u ->
  0 < total f <= MAX_PAGE /\ offset f < total f /\ offset f mod CHUNK = 0 /\
  len b = N.min CHUNK (total f - offset f) /\ String.length (digest f) = 64%nat.
Proof.
  unfold validate. destruct (_ || _) eqn:E; [done|]. intros _.
  repeat (apply orb_false_iff in E as [E ?]).
  rewrite !negb_false_iff, !N.eqb_eq, ?Nat.eqb_eq, ?N.leb_gt, ?N.ltb_ge, ?N.eqb_neq in *.
  repeat split; [lia|done..].
Qed.

(** The page a valid fragment lands on. *)
Definition landing (f : PageFragment) (b : bytes) (p : PartialPage) : PartialPage :=
  {| page_total := page_total p; chunks := <[ offset f := b ]> (chunks p) |}.

(** Every way [add] can go. *)
Lemma add_cases carrier f s s' r : add carrier f s = (s', r) ->
  (s' = s /\ exists e, r = Err e) \/
  exists b, b64_decode (bytes_b64 f) = Ok b /\ validate f b = Ok tt /\
  let key := page_key carrier (digest f) in
  let ps := make_room key (pages s) in
  let p := open_page key (total f) ps in
  (conflicts p f b = true /\ s' = {| pages := <[ key := p ]> ps |} /\
     r = Err "conflicting deletion fragment") \/
  (conflicts p f b = false /\ N.of_nat (held (landing f b p)) <> total f /\
     s' = {| pages := <[ key := landing f b p ]> ps |} /\ r = Ok None) \/
  (conflicts p f b = false /\ N.of_nat (held (landing f b p)) = total f /\
     s' = {| pages := delete key ps |} /\
     let page := concat (btree_values N.le (chunks (landing f b p))) in
     r = if String.eqb (hex_string (sha256 page)) (digest f)
         then Ok (Some page) else Err "deletion page digest mismatch").
Proof.
  unfold add. destruct (b64_decode _) as [b|e]; [|intros [= <- <-]; left; by eauto].
  destruct (validate f b) as [[]|e] eqn:Hv; [|intros [= <- <-]; left; by eauto].
  intros Hadd. right. exists b. split; [done|]. split; [done|]. cbn zeta.
  fold (landing f b (open_page (page_key carrier (digest f)) (total f)
          (make_room (page_key carrier (digest f)) (pages s)))) in Hadd.
  set (p := open_page _ _ _) in *.
  destruct (conflicts p f b) eqn:Hc; [injection Hadd as <- <-; by left|].
  destruct (N.eqb_spec (N.of_nat (held (landing f b p))) (total f)); injection Hadd as <- <-;
    right; [right|left]; done.
Qed.

(** ** Every buffer an installation can reach *)

Fixpoint deliver (ds : list (string * PageFragment)) (s : FragmentBuffer)
  : FragmentBuffer * list (result string (option bytes)) :=
  match ds with
  | [] => (s, [])
  | (carrier, f) :: ds =>
      let '(s1, r) := add carrier f s in
      let '(s2, rs) := deliver ds s1 in (s2, r :: rs)
  end.

Lemma deliver_app ds es s :
  deliver (ds ++ es) s =
  ((deliver es (deliver ds s).1).1, (deliver ds s).2 ++ (deliver es (deliver ds s).1).2).
Proof.
  revert s. induction ds as [|[c f] ds IH]; intros s; cbn; [by destruct (deliver es s)|].
  destruct (add c f s) as [s1 r]. rewrite IH. by destruct (deliver ds s1).
Qed.

(** The carriers did send chunk [c] at [o] for the page of [key]. *)
Definition sent (ds : list (string * PageFragment)) (key : string) (o : N) (c : bytes) : Prop :=
  exists carrier f, (carrier, f) ∈ ds /\ page_key carrier (digest f) = key /\
    String.length (digest f) = 64%nat /\ offset f = o /\ b64_decode (bytes_b64 f) = Ok c.

Record wf_buffer (ds : list (string * PageFragment)) (s : FragmentBuffer) : Prop := {
  wf_size : (size (pages s) <= MAX_PAGES)%nat;
  wf_pages k p : pages s !! k = Some p -> wf_page p /\ N.of_nat (held p) < page_total p;
  wf_sent k p o c : pages s !! k = Some p -> chunks p !! o = Some c -> sent ds k o c;
}.

Lemma sent_more ds es k o c : sent ds k o c -> sent (ds ++ es) k o c.
Proof. intros (carrier & f & Hin & H). exists carrier, f. split; [|done]. apply elem_of_app. by left. Qed.

Lemma wf_open ds key t s : wf_buffer ds s -> 0 < t <= MAX_PAGE ->
  wf_page (open_page key t (make_room key (pages s))).
Proof.
  intros Hs Ht. unfold open_page. rewrite make_room_key.
  destruct (pages s !! key) as [p|] eqn:Hp; [by eapply Hs|].
  split; [done|]. intros o c Hc. by destruct (lookup_empty_Some o c).
Qed.

Lemma wf_landing f b p : validate f b = Ok tt -> conflicts p f b = false -> wf_page p ->
  page_total p = total f /\ wf_page (landing f b p).
Proof.
  intros (_ & Ho & Ha & Hl & _)%fragment_valid_Ok [Ht _]%orb_false_iff Hp.
  apply negb_false_iff, N.eqb_eq in Ht. split; [done|]. split; [apply Hp|].
  cbn. intros o c [[<- <-]|[_ Hc]]%lookup_insert_Some; [|by eapply Hp].
  by rewrite Ht.
Qed.

(** A chunk of the page a fragment lands on came from the carriers. *)
Lemma landing_sent ds carrier f b s o c :
  wf_buffer ds s -> b64_decode (bytes_b64 f) = Ok b -> validate f b = Ok tt ->
  let key := page_key carrier (digest f) in
  chunks (landing f b (open_page key (total f) (make_room key (pages s)))) !! o = Some c ->
  sent (ds ++ [(carrier, f)]) key o c.
Proof.
  intros Hs Hb (_ & _ & _ & _ & Hd)%fragment_valid_Ok key Hc.
  cbn [landing chunks] in Hc. apply lookup_insert_Some in Hc as [[<- <-]|[_ Hc]].
  - exists carrier, f. split; [|done]. apply elem_of_app. right. by left.
  - apply sent_more. unfold open_page in Hc. rewrite make_room_key in Hc.
    destruct (pages s !! key) as [p|] eqn:Hp; [by eapply Hs|].
    by destruct (lookup_empty_Some o c).
Qed.

Lemma wf_make_room ds key s k p es : wf_buffer ds s -> make_room key (pages s) !! k = Some p ->
  (wf_page p /\ N.of_nat (held p) < page_total p) /\
  forall o c, chunks p !! o = Some c -> sent (ds ++ es) k o c.
Proof.
  intros Hs Hk%make_room_sub. split; [by eapply Hs|].
  intros o c Hc. eapply sent_more, Hs; done.
Qed.

Lemma add_wf ds carrier f s s' r :
  wf_buffer ds s -> add carrier f s = (s', r) -> wf_buffer (ds ++ [(carrier, f)]) s'.
Proof.
  intros Hs Hadd. pose proof (add_cases _ _ _ _ _ Hadd) as [[-> _]|(b & Hb & Hv & Hcases)].
  { split; [apply Hs|apply Hs|]. intros k p o c Hp Hc. eapply sent_more, Hs; done. }
  cbn zeta in Hcases. set (key := page_key _ _) in *. set (p := open_page _ _ _) in *.
  pose proof (fragment_valid_Ok _ _ _ Hv) as (Ht & _).
  pose proof (wf_open ds key _ s Hs Ht) as Hp. fold p in Hp.
  destruct (make_room_size key (pages s) (wf_size _ _ Hs)) as [Hsz Hsz'].
  assert (Hroom : forall q, (size (<[key := q]> (make_room key (pages s))) <= MAX_PAGES)%nat).
  { intros q. destruct (pages s !! key) as [p0|] eqn:Hk.
    - rewrite map_size_insert_Some; [done|]. by rewrite make_room_key, Hk.
    - rewrite map_size_insert_None; [|by rewrite make_room_key]. specialize (Hsz' eq_refl). lia. }
  destruct Hcases as [(Hc & -> & _)|[(Hc & Hne & -> & _)|(Hc & _ & -> & _)]].
  - assert (Hex : pages s !! key = Some p).
    { unfold p, open_page, conflicts in *. rewrite make_room_key in *.
      destruct (pages s !! key) as [q|]; [done|]. cbn [default page_total] in Hc.
      rewrite N.eqb_refl in Hc. cbn [negb orb chunks] in Hc. by rewrite lookup_empty in Hc. }
    rewrite insert_id by by rewrite make_room_key.
    split; [done|..]; cbn [pages]; intros k q; [|intros o c];
      intros Hk; [|revert o c]; eapply (wf_make_room ds key s k q); done.
  - destruct (wf_landing _ _ _ Hv Hc Hp) as [Hpt Hl].
    split; [apply Hroom|..]; cbn [pages]; intros k q; [|intros o c];
      intros [[<- <-]|[_ Hk]]%lookup_insert_Some.
    + split; [done|]. pose proof (held_le _ Hl). cbn [landing page_total] in *. rewrite Hpt in *. lia.
    + by eapply wf_make_room.
    + by apply landing_sent.
    + by eapply wf_make_room.
  - split; cbn [pages].
    + rewrite map_size_delete. destruct (make_room key (pages s) !! key); [|done].
      by etransitivity; [apply Nat.le_pred_l|].
    + intros k q [_ Hk]%lookup_delete_Some. by eapply wf_make_room.
    + intros k q o c [_ Hk]%lookup_delete_Some. by eapply wf_make_room.
Qed.

Lemma wf_empty : wf_buffer [] empty_buffer.
Proof.
  split; cbn [empty_buffer pages].
  - rewrite map_size_empty. lia.
  - intros k p []%lookup_empty_Some.
  - intros k p o c []%lookup_empty_Some.
Qed.

Lemma wf_deliver ds es s : wf_buffer ds s -> wf_buffer (ds ++ es) (deliver es s).1.
Proof.
  revert ds s. induction es as [|[c f] es IH]; intros ds s Hs; cbn; [by rewrite app_nil_r|].
  destruct (add c f s) as [s1 r] eqn:Hadd. apply (add_wf ds) in Hadd; [|done].
  specialize (IH _ _ Hadd). destruct (deliver es s1). by rewrite <-app_assoc in IH.
Qed.

Lemma wf_reachable ds : wf_buffer ds (deliver ds empty_buffer).1.
Proof. apply (wf_deliver [] ds), wf_empty. Qed.

(** However hostile the traffic, a buffer never holds more than sixteen
    pages, every page it holds still lacks a chunk and stays below its
    declared total, itself at most [MAX_PAGE]: a buffer never keeps more than
    sixteen times that many bytes. *)
Theorem buffer_bounded ds :
  let s := (deliver ds empty_buffer).1 in
  (size (pages s) <= MAX_PAGES)%nat /\
  (forall key p, pages s !! key = Some p ->
     N.of_nat (held p) < page_total p <= MAX_PAGE /\
     exists o, o mod CHUNK = 0 /\ o < page_total p /\ chunks p !! o = None) /\
  N.of_nat (sum_list_with held (btree_values String.le (pages s))) <= N.of_nat MAX_PAGES * MAX_PAGE.
Proof.
  cbn zeta. pose proof (wf_reachable ds) as Hs. set (s := (deliver _ _).1) in *.
  assert (Hall : forall key p, pages s !! key = Some p -> N.of_nat (held p) < page_total p <= MAX_PAGE).
  { intros key p Hp. apply (wf_pages _ _ Hs) in Hp as [[Ht _] Hh]. lia. }
  split; [apply Hs|split].
  - intros key p Hp. split; [by eapply Hall|].
    destruct (wf_pages _ _ Hs _ _ Hp) as [Hwf Hh].
    destruct (decide (Exists (fun o => chunks p !! o = None) (offsets (page_total p)))) as [He|He].
    + apply Exists_exists in He as (o & [Ha Ho]%elem_of_offsets & Hn). by exists o.
    + exfalso. apply not_Exists_Forall in He; [|intros; apply _].
      rewrite Forall_forall in He.
      assert (N.of_nat (held p) = page_total p); [|lia]. apply held_total; [done|].
      intros o Ha Ho. apply not_eq_None_Some, He, elem_of_offsets. done.
  - transitivity (N.of_nat (length (btree_values String.le (pages s))) * MAX_PAGE).
    + assert (Hv : Forall (fun p => N.of_nat (held p) <= MAX_PAGE) (btree_values String.le (pages s))).
      { apply Forall_forall. intros p [key Hp]%elem_of_btree_values. apply Hall in Hp. lia. }
      induction Hv as [|p l Hp _ IH]; cbn [sum_list_with length]; lia.
    + apply N.mul_le_mono_r. pose proof (wf_size _ _ Hs). rewrite btree_values_length. lia.
Qed.

(** *** Sound reassembly *)

Lemma page_key_inj c d c' d' : String.length d = String.length d' ->
  page_key c d = page_key c' d' -> c = c' /\ d = d'.
Proof.
  unfold page_key. intros Hd [-> Hk]%append_inj; [|by rewrite !append_length, Hd].
  by apply append_inj in Hk as [_ ->].
Qed.

(** Chunks of one size, the last perhaps shorter, are the pieces of their
    concatenation. *)
Lemma piece_concat (l : list bytes) i c :
  (forall j x, l !! j = Some x -> len x <= CHUNK) ->
  (forall j x, l !! j = Some x -> (S j < length l)%nat -> len x = CHUNK) ->
  l !! i = Some c -> piece (concat l) CHUNK (N.of_nat i) = c.
Proof.
  unfold piece, len. revert i. induction l as [|x l IH]; intros i Hle Heq Hi; [done|].
  destruct i as [|i]; cbn [lookup list_lookup] in Hi.
  - injection Hi as ->. cbn [concat N.of_nat]. replace (0 * CHUNK) with 0 by lia.
    specialize (Hle 0%nat c eq_refl). destruct l as [|y l].
    + cbn. rewrite app_nil_r. apply take_ge. lia.
    + specialize (Heq 0%nat c eq_refl). cbn in Heq. cbn [drop N.to_nat].
      apply take_app_length'. cbn. specialize (Heq ltac:(lia)). lia.
  - pose proof (lookup_lt_Some _ _ _ Hi) as Hlt.
    specialize (Heq 0%nat x eq_refl) as Hx. cbn in Hx. specialize (Hx ltac:(lia)).
    replace (N.to_nat (N.of_nat (S i) * CHUNK))
      with (length x + N.to_nat (N.of_nat i * CHUNK))%nat by lia.
    cbn [concat]. rewrite <-drop_drop, drop_app_length. apply IH; [..|done].
    + intros j y Hj. by apply (Hle (S j)).
    + intros j y Hj Hlj. apply (Heq (S j)); [done|cbn; lia].
Qed.

(** A page with every chunk is its chunks at their offsets. *)
Lemma full_page p : wf_page p -> N.of_nat (held p) = page_total p ->
  let b := concat (btree_values N.le (chunks p)) in
  len b = page_total p /\
  forall i, i * CHUNK < len b -> chunks p !! (i * CHUNK) = Some (piece b CHUNK i).
Proof.
  intros Hp Hh. pose proof CHUNK_pos.
  pose proof (proj1 (held_total p Hp) Hh) as Hall. pose proof (full_keys p Hp Hall) as Hk.
  set (chunk o := default [] (chunks p !! o)).
  assert (Hv : btree_values N.le (chunks p) = map chunk (offsets (page_total p))).
  { rewrite <-Hk. apply btree_values_map. intros o [c Hc]%elem_of_btree_keys.
    unfold chunk. by rewrite Hc. }
  cbn zeta. assert (Hlen : len (concat (btree_values N.le (chunks p))) = page_total p).
  { rewrite <-Hh. unfold len, held. f_equal. rewrite <-(map_id (btree_values _ _)) at 1.
    apply sum_length. }
  split; [done|]. intros i Hi. rewrite Hlen in Hi. rewrite Hv.
  destruct (Hall (i * CHUNK)) as [c Hc]; [by apply N.Div0.mod_mul|done|]. rewrite Hc. f_equal.
  assert (Hat : forall j x, map chunk (offsets (page_total p)) !! j = Some x ->
            chunks p !! (N.of_nat j * CHUNK) = Some x /\ N.of_nat j < div_ceil (page_total p) CHUNK).
  { intros j x Hj. unfold offsets, range in Hj. rewrite !list_lookup_fmap in Hj.
    apply fmap_Some in Hj as (o & Ho & ->). apply fmap_Some in Ho as (k & Hk' & ->).
    apply fmap_Some in Hk' as (n & [-> Hn]%lookup_seq & ->).
    assert (Hj : N.of_nat (0 + j) < div_ceil (page_total p) CHUNK) by lia.
    replace (0 + N.of_nat (0 + j)) with (N.of_nat j) by lia. split; [|lia].
    unfold chunk. destruct (Hall (N.of_nat j * CHUNK)) as [d Hd]; [by apply N.Div0.mod_mul| |by rewrite Hd].
    by apply div_ceil_spec. }
  symmetry. rewrite <-(N2Nat.id i). apply piece_concat.
  - intros j x [Hx _]%Hat. apply Hp in Hx as [_ Hx]. lia.
  - intros j x [Hx _]%Hat Hj. apply Hp in Hx as [_ Hx].
    unfold offsets, range in Hj. rewrite !length_map, length_seq in Hj.
    assert (Hn : N.of_nat (S j) < div_ceil (page_total p) CHUNK) by lia.
    apply div_ceil_spec in Hn; [|done]. lia.
  - unfold offsets, range. rewrite !list_lookup_fmap, lookup_seq_lt.
    + cbn [fmap option_fmap option_map]. f_equal. unfold chunk.
      replace (0 + N.of_nat (0 + N.to_nat i)) with i by lia. by rewrite Hc.
    + apply div_ceil_spec in Hi; [|done]. lia.
Qed.

(** A page the buffer hands over is sound, whatever arrived before it from
    whomever: it has the length and the SHA-256 its fragments announce, it is
    at most [MAX_PAGE] long, and every chunk of it was sent by the very
    carrier that completed it, under that digest and at that offset. *)
Theorem fragments_sound ds carrier f s b :
  add carrier f (deliver ds empty_buffer).1 = (s, Ok (Some b)) ->
  digest f = hex_string (sha256 b) /\ len b = total f /\ 0 < len b <= MAX_PAGE /\
  forall i, i * CHUNK < len b ->
    exists g, (carrier, g) ∈ ds ++ [(carrier, f)] /\ digest g = digest f /\
      offset g = i * CHUNK /\ b64_decode (bytes_b64 g) = Ok (piece b CHUNK i).
Proof.
  pose proof (wf_reachable ds) as Hs. set (s0 := (deliver _ _).1) in *.
  intros Hadd. apply add_cases in Hadd as [[_ [? [=]]]|(c & Hc & Hv & Hcases)].
  cbn zeta in Hcases. destruct Hcases as [(_ & _ & [=])|[(_ & _ & _ & [=])|(Hcf & Hh & _ & Hr)]].
  destruct (String.eqb_spec (hex_string (sha256 (concat (btree_values N.le
    (chunks (landing f c (open_page (page_key carrier (digest f)) (total f)
      (make_room (page_key carrier (digest f)) (pages s0))))))))) (digest f)) as [Hd|]; [|done].
  injection Hr as ->. pose proof (fragment_valid_Ok _ _ _ Hv) as (Ht & _ & _ & _ & H64).
  destruct (wf_landing f c _ Hv Hcf (wf_open ds _ (total f) s0 Hs Ht)) as [Hpt Hl].
  set (p := landing _ _ _) in *. cbn [landing page_total] in Hpt.
  assert (Htot : page_total p = total f) by done.
  rewrite <-Htot in Hh. destruct (full_page p Hl Hh) as [Hlen Hat].
  rewrite Htot in Hlen. split; [done|]. split; [done|].
  split; [by rewrite <-Hlen in Ht|]. intros i Hi%Hat. apply (landing_sent ds carrier f c s0) in Hi as (carrier' & g & Hin & Hk & Hg & Ho & Hb);
    [|done..].
  apply page_key_inj in Hk as [-> Hdg]; [|congruence]. by exists g.
Qed.

(** No two fragments of a page are the same. *)
Lemma split_distinct b fs : split_bytes b = Ok fs -> NoDup fs.
Proof.
  unfold split_bytes. destruct (_ <? _); [done|]. intros [= <-]. apply NoDup_fmap_2; [|apply range_NoDup].
  intros i j Hij%(f_equal offset). cbn in Hij. pose proof CHUNK_pos. nia.
Qed.
Lemma split_size b fs : split_bytes b = Ok fs -> len b <= MAX_PAGE.
Proof. unfold split_bytes. destruct (N.ltb_spec MAX_PAGE (len b)); done. Qed.

(** *** Fragments in any order *)

Section Arrival.
Hypothesis b64_roundtrip : forall b, b64_decode (b64_encode b) = Ok b.
Hypothesis sha256_length : forall b, length (sha256 b) = 32%nat.
Variable carrier : string.
Variable b : bytes.
Hypothesis size_ok : len b <= MAX_PAGE.
Notation count := (div_ceil (len b) CHUNK).
Notation key := (page_key carrier (hex_string (sha256 b))).

Lemma fragment_valid i : i * CHUNK < len b -> validate (fragment_of b i) (piece b CHUNK i) = Ok tt.
Proof using Type size_ok sha256_length.
  intros Hi. pose proof CHUNK_pos. unfold validate, fragment_of. cbn [total offset digest].
  rewrite hex_string_length, sha256_length. rewrite N.Div0.mod_mul.
  unfold len at 4. rewrite cut_length by done. unfold weight.
  rewrite N2Nat.id, (N.eqb_refl (N.min _ _)).
  rewrite (proj2 (N.eqb_neq (len b) 0)), (proj2 (N.ltb_ge _ _)), (proj2 (N.leb_gt _ _)) by lia. done.
Qed.

(** The page of [b] holds exactly the chunks whose indices are in [I]. *)
Definition holds (I : gset N) (s : FragmentBuffer) : Prop :=
  let p := open_page key (len b) (pages s) in
  page_total p = len b /\
  (forall i, i ∈ I -> i * CHUNK < len b) /\
  forall o c, chunks p !! o = Some c <-> exists i, i ∈ I /\ o = i * CHUNK /\ c = piece b CHUNK i.

Lemma holds_nothing s : pages s !! key = None -> holds ∅ s.
Proof.
  intros Hk. unfold holds, open_page. rewrite Hk. split; [done|].
  split; [by intros i ?%elem_of_empty|].
  intros o c. split; [by intros Hc; destruct (lookup_empty_Some o c)|]. intros (i & []%elem_of_empty & _).
Qed.

Lemma holds_wf (I : gset N) p : page_total p = len b ->
  (forall i, i ∈ I -> i * CHUNK < len b) -> (0 < len b) ->
  (forall o c, chunks p !! o = Some c <-> exists i, i ∈ I /\ o = i * CHUNK /\ c = piece b CHUNK i) ->
  wf_page p.
Proof using Type size_ok.
  intros Ht HI Hb Hc. split; [lia|]. intros o c (i & Hi%HI & -> & ->)%Hc. rewrite Ht.
  split; [split; [by apply N.Div0.mod_mul|done]|]. unfold len at 1.
  rewrite cut_length by done. unfold weight. lia.
Qed.

Lemma add_fragment i I s : holds I s -> i * CHUNK < len b ->
  exists s' r, add carrier (fragment_of b i) s = (s', r) /\
  ((forall j, j * CHUNK < len b -> j ∈ {[ i ]} ∪ I) -> r = Ok (Some b) /\ pages s' !! key = None) /\
  ((exists j, j * CHUNK < len b /\ j ∉ {[ i ]} ∪ I) -> r = Ok None /\ holds ({[ i ]} ∪ I) s').
Proof using Type b64_roundtrip size_ok sha256_length.
  intros (Ht & HI & Hc) Hi. unfold add. cbn [bytes_b64 fragment_of]. rewrite b64_roundtrip.
  fold (fragment_of b i). rewrite fragment_valid by done. cbn [digest total offset fragment_of].
  assert (Hopen : open_page key (len b) (make_room key (pages s)) = open_page key (len b) (pages s))
    by (unfold open_page; by rewrite make_room_key).
  rewrite Hopen. set (p := open_page _ _ _) in *.
  assert (Hno : conflicts p (fragment_of b i) (piece b CHUNK i) = false).
  { unfold conflicts. cbn [total offset fragment_of]. rewrite Ht, N.eqb_refl. cbn.
    destruct (chunks p !! (i * CHUNK)) as [c|] eqn:E; [|done].
    apply Hc in E as (j & Hj & Hij & ->). pose proof CHUNK_pos.
    assert (i = j) as -> by nia. by rewrite bool_decide_true. }
  fold (fragment_of b i). rewrite Hno.
  set (p' := {| page_total := _; chunks := _ |}).
  assert (Hc' : forall o c, chunks p' !! o = Some c <->
            exists j, j ∈ {[ i ]} ∪ I /\ o = j * CHUNK /\ c = piece b CHUNK j).
  { intros o c. cbn [p' chunks]. rewrite lookup_insert_Some, Hc. split.
    - intros [[<- <-]|[Hne (j & Hj & -> & ->)]]; [exists i|exists j]; set_solver.
    - intros (j & Hj & -> & ->). destruct (decide (j = i)) as [->|Hne]; [by left|].
      right. pose proof CHUNK_pos. split; [nia|]. exists j. set_solver. }
  assert (HI' : forall j, j ∈ {[ i ]} ∪ I -> j * CHUNK < len b).
  { intros j [->%elem_of_singleton|Hj]%elem_of_union; [done|by apply HI]. }
  assert (Hwf : wf_page p') by (eapply (holds_wf ({[ i ]} ∪ I)); [done|done|lia|done]).
  destruct (N.eqb_spec (N.of_nat (held p')) (len b)) as [Hh|Hh]; cbn [negb].
  - eexists _, _. split; [reflexivity|]. rewrite <-Ht in Hh.
    pose proof (proj1 (held_total p' Hwf) Hh) as Hall. destruct (full_page p' Hwf Hh) as [Hlen Hat].
    split.
    + intros _. cbn [pages]. rewrite lookup_delete_eq. split; [|done].
      assert (Hb : concat (btree_values N.le (chunks p')) = b); [|by rewrite Hb, String.eqb_refl].
      rewrite <-(pieces_concat b), <-(pieces_concat (concat _)) at 1.
      rewrite Hlen. cbn [p' page_total]. rewrite Ht. f_equal. apply map_ext_in.
      intros j Hj%list_elem_of_In%elem_of_range. pose proof CHUNK_pos.
      assert (Hj' : j * CHUNK < len b) by (apply div_ceil_spec; [done|lia]).
      specialize (Hat j). rewrite Hlen in Hat. cbn [page_total p'] in Hat. rewrite Ht in Hat.
      specialize (Hat Hj'). apply Hc' in Hat as (j' & _ & Hjj & Hp). assert (j = j') as -> by nia. done.
    + intros (j & Hj & Hn). exfalso. destruct (Hall (j * CHUNK)) as [c (j' & Hj' & Hjj & _)%Hc'];
        [by apply N.Div0.mod_mul|cbn; by rewrite Ht|]. pose proof CHUNK_pos.
      assert (j = j') as -> by nia. done.
  - eexists _, _. split; [reflexivity|]. split.
    + intros Hall. exfalso. apply Hh. rewrite <-Ht. apply (held_total p' Hwf).
      intros o Ho Hlt. cbn [p' page_total] in Hlt. rewrite Ht in Hlt.
      exists (piece b CHUNK (o / CHUNK)). apply Hc'. exists (o / CHUNK).
      rewrite <-aligned by done. split; [|done]. apply Hall. by rewrite <-aligned.
    + intros _. split; [done|]. unfold holds, open_page. cbn [pages]. rewrite lookup_insert_eq. done.
Qed.

Lemma deliver_partial i gs I s :
  holds I s -> i ∉ I ->
  (forall g, g ∈ gs -> exists j, g = fragment_of b j /\ j * CHUNK < len b /\ j <> i) ->
  i * CHUNK < len b ->
  exists I' s', deliver (map (pair carrier) gs) s = (s', replicate (length gs) (Ok None)) /\
    holds I' s' /\ i ∉ I' /\ forall j, j ∈ I \/ fragment_of b j ∈ gs -> j ∈ I'.
Proof using Type b64_roundtrip size_ok sha256_length.
  revert I s. induction gs as [|g gs IH]; intros I s Hs Hi Hgs Hlt.
  { exists I, s. split; [done|]. split; [done|]. split; [done|]. by intros j [|[]%elem_of_nil]. }
  destruct (Hgs g) as (k & -> & Hk & Hne); [by left|].
  destruct (add_fragment k I s Hs Hk) as (s1 & r & Hadd & _ & Hpart).
  destruct Hpart as [-> Hs1]; [by exists i; split; [|set_solver]|].
  destruct (IH ({[ k ]} ∪ I) s1 Hs1) as (I' & s' & Hd & Hh & Hn & Hin);
    [set_solver|by intros g Hg; apply Hgs; right|done|].
  exists I', s'. split; [cbn; by rewrite Hadd, Hd|]. split; [done|]. split; [done|].
  intros j [Hj|[Hj|Hj]%elem_of_cons]; apply Hin; [left; set_solver|left|by right].
  apply (f_equal offset) in Hj. cbn in Hj. pose proof CHUNK_pos. assert (j = k) as -> by nia.
  set_solver.
Qed.

(** The fragments of a page complete it in any order. *)
Lemma arrival fs gs f s :
  split_bytes b = Ok fs ->
  (forall g, g ∈ gs -> g ∈ fs) -> f ∈ fs -> f ∉ gs -> (forall g, g ∈ fs -> g = f \/ g ∈ gs) ->
  pages s !! key = None ->
  exists s', deliver (map (pair carrier) (gs ++ [f])) s
               = (s', replicate (length gs) (Ok None) ++ [Ok (Some b)]) /\
    pages s' !! key = None.
Proof using Type b64_roundtrip size_ok sha256_length.
  unfold split_bytes. destruct (_ <? _); [done|]. intros [= <-] Hgs Hf Hfgs Hcover Hk.
  assert (Hin : forall g, g ∈ map (fragment_of b) (range 0 count) <->
            exists j, g = fragment_of b j /\ j * CHUNK < len b).
  { intros g. rewrite list_elem_of_fmap. setoid_rewrite elem_of_range.
    setoid_rewrite <-(div_ceil_spec _ _ _ CHUNK_pos). split; intros (j & -> & Hj); exists j;
      (split; [done|lia]). }
  apply Hin in Hf as (i & -> & Hi).
  destruct (deliver_partial i gs ∅ s (holds_nothing s Hk)) as (I & s1 & Hd & Hs1 & Hn & HI);
    [set_solver| |done|].
  { intros g Hg. destruct (proj1 (Hin g) (Hgs g Hg)) as (j & -> & Hj). exists j.
    split; [done|]. split; [done|]. by intros ->. }
  destruct (add_fragment i I s1 Hs1 Hi) as (s2 & r & Hadd & Hall & _).
  destruct Hall as [-> Hs2].
  { intros j Hj. destruct (Hcover (fragment_of b j)) as [He|Hg]; [apply Hin; by exists j| |].
    - apply (f_equal offset) in He. cbn in He. pose proof CHUNK_pos. assert (j = i) as -> by nia.
      set_solver.
    - apply elem_of_union_r, HI. by right. }
  exists s2. split; [|done]. rewrite map_app, deliver_app, Hd. cbn. by rewrite Hadd.
Qed.

(** A page cut by [split_bytes] survives the wire: its fragments may come in
    any order and more than once, to a buffer full of other pages; each
    arrival before the last missing fragment asks for more, and that fragment
    returns exactly the bytes that were cut, and frees the page. *)
Theorem fragments_arrive fs gs f s :
  split_bytes b = Ok fs ->
  (forall g, g ∈ gs -> g ∈ fs) -> f ∈ fs -> f ∉ gs -> (forall g, g ∈ fs -> g = f \/ g ∈ gs) ->
  pages s !! key = None ->
  exists s', deliver (map (pair carrier) (gs ++ [f])) s
               = (s', replicate (length gs) (Ok None) ++ [Ok (Some b)]) /\
    pages s' !! key = None.
Proof using Type b64_roundtrip size_ok sha256_length. apply arrival. Qed.
End Arrival.
End Buffer.

(** ** Records pulled one fragment at a time ([conversation/recovery/fragment.rs]) *)

Definition MAX_RECORD : N := 256 * 1024.

Record PartialRecord := { record_digest : string; record_total : N; record_bytes : bytes }.

Section Records.
Variable sha256 : bytes -> bytes.
Variable b64_encode : bytes -> string.
Variable b64_decode : string -> result string bytes.

Definition fragment (b : bytes) (o : N) : result string PageFragment :=
  if bool_decide (b = []) || (MAX_RECORD <? len b) || (len b <=? o) || negb (o mod CHUNK =? 0)
  then Err "history fragment exceeds bounded record"
  else Ok {| digest := hex_string (sha256 b); total := len b; offset := o;
             bytes_b64 := b64_encode (take (N.to_nat (N.min (len b) (o + CHUNK) - o))
                                           (drop (N.to_nat o) b)) |}.

(** [PartialRecord::offset], zero before the first fragment. *)
Definition record_offset (current : option PartialRecord) : N :=
  match current with Some p => len (record_bytes p) | None => 0 end.

Definition bounded (f : PageFragment) : bool :=
  negb ((total f =? 0) || (MAX_RECORD <? total f) || (total f <=? offset f)
        || negb (offset f mod CHUNK =? 0) || negb (String.length (digest f) =? 64)%nat
        || (4 * CHUNK / 3 + 8 <? str_len (bytes_b64 f))).

Definition accept (f : PageFragment) : method (option PartialRecord) string (option bytes) :=
  fun current =>
  if negb (bounded f) then (current, Err "invalid bounded history fragment") else
  match b64_decode (bytes_b64 f) with
  | Err e => (current, Err e)
  | Ok b =>
      if negb (len b =? N.min CHUNK (total f - offset f))
      then (current, Err "invalid history fragment length")
      else
        let p := default {| record_digest := digest f; record_total := total f; record_bytes := [] |}
                         current in
        if negb (String.eqb (record_digest p) (digest f)) || negb (record_total p =? total f)
           || negb (len (record_bytes p) =? offset f)
        then (Some p, Err "history fragment window differs")
        else
          let p' := {| record_digest := record_digest p; record_total := record_total p;
                       record_bytes := record_bytes p ++ b |} in
          if negb (len (record_bytes p') =? record_total p') then (Some p', Ok None)
          else if negb (String.eqb (hex_string (sha256 (record_bytes p'))) (record_digest p'))
          then (Some p', Err "history record digest differs")
          else (None, Ok (Some (record_bytes p')))
  end.

(** A reader pulls at its own offset; the source cuts its record there. *)
Definition pull (b : bytes) (current : option PartialRecord)
  : option PartialRecord * result string (option bytes) :=
  match fragment b (record_offset current) with
  | Err e => (current, Err e)
  | Ok f => accept f current
  end.

Fixpoint fetch (fuel : nat) (b : bytes) (current : option PartialRecord)
  : option PartialRecord * result string (option bytes) :=
  match fuel with
  | O => (current, Ok None)
  | S fuel =>
      match pull b current with
      | (current', Ok None) => fetch fuel b current'
      | done => done
      end
  end.

Section Fetching.
Hypothesis b64_roundtrip : forall b, b64_decode (b64_encode b) = Ok b.
Hypothesis b64_short : forall b, 3 * str_len (b64_encode b) <= 4 * len b + 8.
Hypothesis sha256_length : forall b, length (sha256 b) = 32%nat.
Variable b : bytes.
Hypothesis size_ok : 0 < len b <= MAX_RECORD.

(** The record read as far as [n] fragments go. *)
Definition read_upto (n : nat) : option PartialRecord :=
  match n with
  | O => None
  | _ => Some {| record_digest := hex_string (sha256 b); record_total := len b;
                 record_bytes := take (n * N.to_nat CHUNK) b |}
  end.

Lemma read_offset n : N.of_nat n * CHUNK <= len b -> record_offset (read_upto n) = N.of_nat n * CHUNK.
Proof.
  intros Hn. destruct n as [|n]; [done|]. cbn [read_upto record_offset record_bytes].
  clear size_ok. unfold len in *. rewrite length_take. lia.
Qed.

Lemma pull_at n : N.of_nat n * CHUNK < len b ->
  pull b (read_upto n) =
    if N.of_nat (S n) * CHUNK <? len b then (read_upto (S n), Ok None) else (None, Ok (Some b)).
Proof using Type b64_roundtrip b64_short sha256_length size_ok.
  intros Hn. pose proof CHUNK_pos. unfold pull. rewrite read_offset by lia.
  set (o := N.of_nat n * CHUNK) in *.
  assert (Hb : b <> []) by (intros ->; unfold len in size_ok; cbn [length] in size_ok; lia).
  unfold fragment. rewrite bool_decide_false, (proj2 (N.ltb_ge _ _)), (proj2 (N.leb_gt _ _)) by (done || lia).
  assert (Ho : o mod CHUNK = 0) by (by apply N.Div0.mod_mul). rewrite Ho. cbn [orb negb N.eqb].
  set (c := take _ (drop _ b)).
  assert (Hc : len c = N.min CHUNK (len b - o)).
  { unfold c, len in *. rewrite length_take, length_drop. lia. }
  assert (Hnext : take (n * N.to_nat CHUNK) b ++ c = take (S n * N.to_nat CHUNK) b).
  { unfold c. replace (N.to_nat o) with (n * N.to_nat CHUNK)%nat by lia.
    rewrite take_take_drop. destruct (N.le_gt_cases (len b) (o + CHUNK)) as [Hle|Hle].
    - unfold len in *. rewrite !take_ge by lia. done.
    - f_equal. unfold len in *. lia. }
  unfold accept. set (f := {| digest := _; offset := _; total := _; bytes_b64 := _ |}).
  assert (Hbd : bounded f = true).
  { unfold bounded. cbn [f total offset digest bytes_b64]. rewrite hex_string_length, sha256_length, Ho.
    pose proof (b64_short c) as Hs. rewrite Hc in Hs.
    assert (str_len (b64_encode c) <= 4 * CHUNK / 3 + 8).
    { apply N.Div0.div_le_mono with (c := 3) in Hs. rewrite (N.mul_comm 3), N.div_mul in Hs by done.
      etransitivity; [exact Hs|]. transitivity ((4 * CHUNK + 8 * 3) / 3).
      - apply N.Div0.div_le_mono. lia.
      - rewrite N.div_add by done. lia. }
    rewrite (proj2 (N.eqb_neq _ _)), (proj2 (N.ltb_ge MAX_RECORD _)), (proj2 (N.leb_gt _ _)),
      (proj2 (N.ltb_ge _ _)) by lia. done. }
  rewrite Hbd. cbn [negb f bytes_b64 total offset digest]. rewrite b64_roundtrip, Hc, N.eqb_refl. cbn [negb].
  set (p := default _ _).
  assert (Hp : record_digest p = hex_string (sha256 b) /\ record_total p = len b /\
               record_bytes p = take (n * N.to_nat CHUNK) b) by (unfold p; by destruct n).
  destruct Hp as (-> & -> & ->). rewrite String.eqb_refl, N.eqb_refl, Hnext.
  assert (Hl : len (take (n * N.to_nat CHUNK) b) = o) by (unfold len in *; rewrite length_take; lia).
  rewrite Hl, N.eqb_refl. cbn [negb orb record_bytes record_total record_digest].
  destruct (N.ltb_spec (N.of_nat (S n) * CHUNK) (len b)) as [Hlt|Hge].
  - rewrite (proj2 (N.eqb_neq _ _)); [done|]. unfold len in *. rewrite length_take. lia.
  - rewrite take_ge by (unfold len in *; lia). by rewrite N.eqb_refl, String.eqb_refl.
Qed.

Lemma fetch_from k n : N.of_nat n * CHUNK < len b ->
  fetch k b (read_upto n) =
    if N.of_nat (n + k) * CHUNK <? len b then (read_upto (n + k), Ok None) else (None, Ok (Some b)).
Proof using Type b64_roundtrip b64_short sha256_length size_ok.
  revert n. induction k as [|k IH]; intros n Hn.
  { cbn [fetch]. rewrite Nat.add_0_r. by rewrite (proj2 (N.ltb_lt _ _)). }
  cbn [fetch]. rewrite pull_at by done.
  destruct (N.ltb_spec (N.of_nat (S n) * CHUNK) (len b)) as [Hlt|Hge].
  - rewrite IH by done. by rewrite <-plus_n_Sm.
  - rewrite (proj2 (N.ltb_ge _ _)) by lia. done.
Qed.

(** The pull exchange of a record terminates: after exactly one pull per
    fragment the reader holds the source's bytes and no partial record, and
    after fewer it waits at the next fragment with the bytes before it. *)
Theorem record_fetched n :
  (div_ceil (len b) CHUNK <= N.of_nat n -> fetch n b None = (None, Ok (Some b))) /\
  (N.of_nat n < div_ceil (len b) CHUNK ->
     exists current, fetch n b None = (current, Ok None) /\
       record_offset current = N.of_nat n * CHUNK /\
       forall p, current = Some p -> record_bytes p = take (n * N.to_nat CHUNK) b).
Proof using Type b64_roundtrip b64_short sha256_length size_ok.
  pose proof (fetch_from n 0) as Hf. cbn [read_upto Nat.add] in Hf. rewrite Hf by lia.
  pose proof (div_ceil_spec (len b) CHUNK (N.of_nat n) CHUNK_pos) as Hn. split.
  - intros Hge. rewrite (proj2 (N.ltb_ge _ _)) by lia. done.
  - intros Hlt. apply Hn in Hlt. rewrite (proj2 (N.ltb_lt _ _)) by done.
    exists (read_upto n). split; [done|]. split; [apply read_offset; lia|].
    intros p. by destruct n; intros [= <-].
Qed.
End Fetching.
End Records.

(** ** Examples *)

Transparent CHUNK.

(** A stand-in of 32 bytes for SHA-256, and of short text for base64. *)
Definition toy_sha (b : bytes) : bytes := take 32 (rev b ++ replicate 32 x00).
Definition toy_encode (b : bytes) : string := String.string_of_list_byte b.
Definition toy_decode (s : string) : result string bytes := Ok (String.list_byte_of_string s).

Lemma toy_sha_length b : length (toy_sha b) = 32%nat.
Proof. unfold toy_sha. rewrite length_take, length_app, length_replicate. lia. Qed.

Lemma toy_base64 b : toy_decode (toy_encode b) = Ok b.
Proof. unfold toy_decode, toy_encode. by rewrite String.list_byte_of_string_of_list_byte. Qed.

Lemma toy_short b : 3 * str_len (toy_encode b) <= 4 * len b + 8.
Proof.
  unfold str_len, toy_encode, len.
  enough (String.length (String.string_of_list_byte b) = length b) by lia.
  induction b as [|x b IH]; [done|].
  change (S (String.length (String.string_of_list_byte b)) = S (length b)). by rewrite IH.
Qed.

(** Two fragments, the second of them a short one. *)
Definition long_page : bytes := replicate 4500 x2a.
Definition first_fragment : PageFragment := fragment_of toy_sha toy_encode long_page 0.
Definition second_fragment : PageFragment := fragment_of toy_sha toy_encode long_page 1.

Lemma fragments_differ : second_fragment <> first_fragment.
Proof. intros H. apply (f_equal offset) in H. vm_compute in H. discriminate. Qed.

Lemma fragments_arrive_witness :
  exists s', deliver toy_sha toy_decode
      (map (pair "alice") ([second_fragment; second_fragment] ++ [first_fragment])) empty_buffer
    = (s', replicate 2 (Ok None) ++ [Ok (Some long_page)]) /\
  pages s' !! page_key "alice" (hex_string (toy_sha long_page)) = None.
Proof.
  apply (fragments_arrive toy_sha toy_encode toy_decode toy_base64 toy_sha_length "alice" long_page)
    with (fs := [first_fragment; second_fragment]).
  - vm_compute. discriminate.
  - vm_compute. reflexivity.
  - intros g [->|[->|[]%elem_of_nil]%elem_of_cons]%elem_of_cons; right; left.
  - left.
  - intros [H|[H|[]%elem_of_nil]%elem_of_cons]%elem_of_cons; by apply fragments_differ.
  - intros g [->|[->|[]%elem_of_nil]%elem_of_cons]%elem_of_cons; [by left|right; left].
  - reflexivity.
Defined.

Definition half_page : list (string * PageFragment) :=
  [("bob", second_fragment); ("alice", second_fragment)].

Lemma fragments_sound_witness :
  exists g, ("alice", g) ∈ half_page ++ [("alice", first_fragment)] /\ digest g = digest first_fragment /\
    offset g = 1 * CHUNK /\ toy_decode (bytes_b64 g) = Ok (piece long_page CHUNK 1).
Proof.
  assert (Hadd : add toy_sha toy_decode "alice" first_fragment
      (deliver toy_sha toy_decode half_page empty_buffer).1
    = ((add toy_sha toy_decode "alice" first_fragment
         (deliver toy_sha toy_decode half_page empty_buffer).1).1, Ok (Some long_page))).
  { apply surjective_pairing_eq. vm_compute. reflexivity. }
  destruct (fragments_sound toy_sha toy_decode half_page "alice" first_fragment _ long_page Hadd)
    as (_ & _ & _ & Hat).
  apply (Hat 1). vm_compute. reflexivity.
Defined.

Lemma record_fetched_witness :
  fetch toy_sha toy_encode toy_decode 2 long_page None = (None, Ok (Some long_page)).
Proof.
  apply (record_fetched toy_sha toy_encode toy_decode toy_base64 toy_short toy_sha_length long_page).
  - vm_compute. split; [reflexivity|discriminate].
  - vm_compute. discriminate.
Defined.

End Fragments.
