(* ===== verification/Deletion.v ===== *)
(** * Deletion: signed deletion records ([message_deletion/])

    Deleting a message for everyone is a signed request that travels with its
    status until another account has saved it.  This file holds the record and
    how two copies of it merge, the proofs that bind a key to an account, the
    signature checks, the rules of who may delete what, and the pages a
    conversation's records are exchanged in.  SHA-256, Ed25519, hex and JSON
    are parameters; signatures are verified against
    an empty cache: a cache only saves time. *)
From S2P Require Import Prelude Devices Identity Messages Fragments.

Module Deletion.
Import Devices Identity Messages.

#[local] Open Scope mosh_scope.
#[local] Set Default Proof Using "Type".

(** ** Errors and results ([error.rs], [types.rs]) *)

Inductive DeletionError :=
| InvalidInput (e : string)
| PermissionDenied
| Revoked
| Persistence (e : string)
| Internal (e : string).

Record DeleteMessagesResult := { deleted_count : nat; local_only_count : nat; pending_count : nat }.
Record DeletionSummary := { pending_records : nat; rejected_records : nat }.

(** ** Requests, acknowledgements and records ([protocol.rs], [book.rs]) *)

#[export] Instance DeletionMarker_eq_dec : EqDecision DeletionMarker.
Proof. solve_decision. Defined.
#[export] Instance MessageOrigin_eq_dec : EqDecision MessageOrigin.
Proof. solve_decision. Defined.

Record DeleteRequest := {
  operation : string;
  target : MessageOrigin;
  actor : string;
  actor_name : string;
  moderated : bool;
  epoch : N;
  q_signature : string;
  q_ownership : option string;
}.
#[export] Instance DeleteRequest_eq_dec : EqDecision DeleteRequest.
Proof. solve_decision. Defined.

Record DeleteAck := {
  request_digest : string;
  k_actor : string;
  k_signature : string;
  k_ownership : option string;
}.
#[export] Instance DeleteAck_eq_dec : EqDecision DeleteAck.
Proof. solve_decision. Defined.

Record DeletionRecord := {
  r_context : string;
  r_key : string;
  r_correlation : option string;
  r_scope : DeleteScope;
  r_owner : string;
  r_local_only : bool;
  r_status : DeletionStatus;
  r_administrator : option string;
  r_request : option DeleteRequest;
  r_ack : option DeleteAck;
}.
#[export] Instance DeletionRecord_eq_dec : EqDecision DeletionRecord.
Proof. solve_decision. Defined.

Inductive DeletionMessage :=
| FragmentM (f : Fragments.PageFragment)
| RequestM (after digest : option string)
| StateM (records : list DeletionRecord) (next : option string)
| AckM (key : string) (acknowledgement : DeleteAck).

Record DeletionFrame := {
  f_context : string; f_epoch : N; f_author : string; payload_b64 : string; f_signature : string
}.

Definition visible_to_account (r : DeletionRecord) (user : string) : bool :=
  (bool_decide (r_scope r = ForMe) && String.eqb (r_owner r) user && negb (r_local_only r))
  || (bool_decide (r_scope r = ForEveryone) && negb (bool_decide (r_status r = Rejected))).

(** Rust's order on [Option<&String>]: [None] comes first. *)
Definition option_leb (a b : option string) : bool :=
  match a, b with
  | None, _ => true
  | Some _, None => false
  | Some a, Some b => String.leb a b
  end.

Definition ack_actor (r : DeletionRecord) : option string := k_actor <$> r_ack r.

Definition merged (self incoming : DeletionRecord) : DeletionRecord :=
  if bool_decide (r_scope self = ForMe) && bool_decide (r_correlation self = None)
     && negb (bool_decide (r_correlation incoming = None))
  then incoming
  else if bool_decide (r_status self = Confirmed)
          && (negb (bool_decide (r_status incoming = Confirmed))
              || option_leb (ack_actor self) (ack_actor incoming))
  then self
  else if bool_decide (r_status self = Rejected) && bool_decide (r_status incoming = DPending)
  then self
  else incoming.

Definition one : string := String (Ascii.ascii_of_N 1) EmptyString.

Definition storage_key (r : DeletionRecord) : string :=
  r_context r +:+ one +:+ r_owner r +:+ one
  +:+ (if bool_decide (r_scope r = ForMe) then "personal" else "shared") +:+ one
  +:+ r_key r +:+ ":" +:+ match r_request r with Some q => operation q | None => "" end.

Definition matches (r : DeletionRecord) (t : string) (correlation : option string) : bool :=
  String.eqb (r_key r) t
  || (bool_decide (r_scope r = ForMe)
      && (bool_decide (r_correlation r = Some t)
          || match correlation with
             | Some key => String.eqb (r_key r) key || bool_decide (r_correlation r = Some key)
             | None => false
             end)).

Definition marker (r : DeletionRecord) : DeletionMarker :=
  {| scope := if bool_decide (r_status r = Rejected) then ForMe else r_scope r;
     status := r_status r; administrator := r_administrator r |}.

(** ** Merging is a join

    Shared copies of one deletion are ranked: pending, then rejected, then
    confirmed, and among confirmed ones by the least acknowledging key. *)

Definition record_le (a b : DeletionRecord) : Prop :=
  match r_status a, r_status b with
  | DPending, _ => True
  | Rejected, (Rejected | Confirmed) => True
  | Confirmed, Confirmed => option_leb (ack_actor b) (ack_actor a) = true
  | _, _ => False
  end.

Lemma option_leb_total a b : option_leb a b = true \/ option_leb b a = true.
Proof.
  destruct a as [a|], b as [b|]; cbn; try by auto.
  destruct (total String.le a b) as [H|H]; [left|right]; by apply Is_true_true in H.
Qed.

Lemma option_leb_trans a b c : option_leb a b = true -> option_leb b c = true -> option_leb a c = true.
Proof.
  destruct a as [a|], b as [b|], c as [c|]; cbn; try done.
  rewrite <-!Is_true_true. apply (transitivity (R := String.le)).
Qed.

Lemma option_leb_anti a b : option_leb a b = true -> option_leb b a = true -> a = b.
Proof.
  destruct a as [a|], b as [b|]; cbn; try done.
  rewrite <-!Is_true_true. intros Hab Hba. f_equal. by apply (anti_symm String.le).
Qed.

#[export] Instance record_le_preorder : PreOrder record_le.
Proof.
  split.
  - intros a. unfold record_le. destruct (r_status a); try done.
    by destruct (option_leb_total (ack_actor a) (ack_actor a)).
  - intros a b c. unfold record_le. destruct (r_status a), (r_status b), (r_status c); try done.
    intros Hab Hbc. by eapply option_leb_trans.
Qed.

(** What two records of one rank agree on. *)
Lemma record_le_equiv a b : record_le a b -> record_le b a ->
  r_status a = r_status b /\ (r_status a = Confirmed -> ack_actor a = ack_actor b).
Proof.
  unfold record_le. destruct (r_status a), (r_status b); try done.
  intros Hab Hba. split; [done|]. intros _. by apply option_leb_anti.
Qed.

Lemma merged_shared a b : r_scope a = ForEveryone ->
  (merged a b = a /\ record_le b a) \/ (merged a b = b /\ record_le a b).
Proof.
  intros Ha. unfold merged, record_le. rewrite Ha. cbn [bool_decide decide].
  rewrite (bool_decide_false (ForEveryone = ForMe)) by done. cbn [andb].
  destruct (r_status a), (r_status b); cbn; try by auto.
  destruct (option_leb (ack_actor a) (ack_actor b)) eqn:E; [by left|right].
  split; [done|]. by destruct (option_leb_total (ack_actor a) (ack_actor b)); [congruence|].
Qed.

Lemma fold_merged rs a : r_scope a = ForEveryone -> Forall (fun r => r_scope r = ForEveryone) rs ->
  foldl merged a rs ∈ a :: rs /\ Forall (fun r => record_le r (foldl merged a rs)) (a :: rs).
Proof.
  revert a. induction rs as [|b rs IH]; intros a Ha Hrs; cbn.
  { split; [by left|]. constructor; [reflexivity|constructor]. }
  apply Forall_cons in Hrs as [Hb Hrs]. destruct (merged_shared a b Ha) as [[Hm Hle]|[Hm Hle]]; rewrite Hm.
  - destruct (IH a Ha Hrs) as [Hin [Hfa Hfr]%Forall_cons]. split.
    + apply elem_of_cons in Hin as [Heq|Hin]; [rewrite Heq; by left|by right; right].
    + constructor; [done|]. constructor; [by transitivity a|done].
  - destruct (IH b Hb Hrs) as [Hin [Hfb Hfr]%Forall_cons]. split; [by right|].
    constructor; [by transitivity b|]. by constructor.
Qed.

(** Installations that saw the same copies of a shared deletion agree on it,
    in whatever order and however often the copies came: they agree on its
    status, and when it is confirmed on whose acknowledgement counts. *)
Theorem merge_converges a rs rs' :
  Forall (fun r => r_scope r = ForEveryone) (a :: rs) ->
  (forall r, r ∈ a :: rs <-> r ∈ a :: rs') ->
  r_status (foldl merged a rs) = r_status (foldl merged a rs') /\
  (r_status (foldl merged a rs) = Confirmed ->
     ack_actor (foldl merged a rs) = ack_actor (foldl merged a rs')).
Proof.
  intros Hall Hsame. assert (Hall' : Forall (fun r => r_scope r = ForEveryone) (a :: rs')).
  { rewrite !Forall_forall in *. intros r Hr. by apply Hall, Hsame. }
  apply Forall_cons in Hall as [Ha Hrs]. apply Forall_cons in Hall' as [_ Hrs'].
  destruct (fold_merged rs a Ha Hrs) as [Hin Hle]. destruct (fold_merged rs' a Ha Hrs') as [Hin' Hle'].
  rewrite Forall_forall in Hle, Hle'.
  apply record_le_equiv; [apply Hle'; by apply Hsame|apply Hle; by apply Hsame].
Qed.


(** ** Proofs and signatures *)

(** A signed statement that a key belongs to an account ([ownership.rs]). *)
Record AccountProof := {
  certificate : AccountCertificate; proof_subject : string; proof_signature : string
}.

(** The serializers of [serde_json] the transcripts use, one per content. *)
Class DeletionJson := {
  origin_to_vec : string * string * string * string * option string -> result string bytes;
  request_to_vec : string * MessageOrigin * string * string * bool * N * option string
                   -> result string bytes;
  ack_to_vec : string * string * option string -> result string bytes;
  frame_to_vec : string * N * string * string -> result string bytes;
  proof_to_vec : AccountCertificate * string -> result string bytes;
  proof_from_str : string -> result string AccountProof;
  delegation_to_vec : string * list Delegation * string -> result string bytes;
  record_to_vec : DeletionRecord -> result string bytes;
  records_to_vec : list DeletionRecord -> result string bytes;
}.

Section Signed.
Context {scheme : Ed25519} {json : DeletionJson}.
Variable sha256 : bytes -> bytes.
Variable hex_decode : string -> result string bytes.

Definition sha_hex (b : bytes) : string := hex_string (sha256 b).

(** [signature_verification::verify] on an empty cache. *)
Definition verify_signature (key sig : string) (input : bytes) : result string unit :=
  (verify sha256 hex_decode key sig input no_facts).2.

Definition text (e : DeviceLinkError) : string := Devices.message e.

Definition proof_input (p : AccountProof) : result string bytes :=
  b ← proof_to_vec (certificate p, proof_subject p);
  Ok (context "mosh-message-account-v1" ++ b).

Definition verify_proof (p : AccountProof) (subj : string) : result string unit :=
  _ ← guard_or (String.eqb (proof_subject p) subj) "account subject mismatch";
  _ ← map_err text (verify_certificate hex_decode delegation_to_vec (certificate p));
  input ← proof_input p;
  verify_signature (subject (certificate p)) (proof_signature p) input.

Definition verified_proof (proof subj : string) : result string AccountProof :=
  _ ← guard_or (str_len proof <=? 16000)%N "account proof too large";
  p ← proof_from_str proof;
  _ ← verify_proof p subj;
  Ok p.

(** The account root a proof speaks for. *)
Definition ownership_verify (proof subj : string) : result string string :=
  p ← verified_proof proof subj; Ok (root (certificate p)).

Definition same_proven (act : string) (act_proof : option string)
    (auth : string) (auth_proof : option string) : bool :=
  match act_proof, auth_proof with
  | Some p, Some p' =>
      match verified_proof p act, verified_proof p' auth with
      | Ok a, Ok b => String.eqb (root (certificate a)) (root (certificate b))
      | _, _ => false
      end
  | _, _ => false
  end.

(** *** The accounts this installation knows by itself *)

Record OwnAccounts := { own_accounts : gmap string string; revoked_keys : gset string }.

Definition certificate_keys (c : AccountCertificate) : list string := root c :: map dg_key (delegations c).

Definition in_set (k : string) (s : gset string) : bool := bool_decide (k ∈ s).

Definition is_revoked (o : OwnAccounts) (key : string) (proof : option string) : bool :=
  if in_set key (revoked_keys o) then true
  else match proof with
       | None => false
       | Some p =>
           match verified_proof p key with
           | Err _ => false
           | Ok p =>
               if bool_decide (is_Some (own_accounts o !! subject (certificate p)))
               then in_set (subject (certificate p)) (revoked_keys o)
               else existsb (fun k => in_set k (revoked_keys o)) (certificate_keys (certificate p))
           end
       end.

Definition account (o : OwnAccounts) (key : string) (proof : option string) : option string :=
  match own_accounts o !! key with
  | Some user => Some user
  | None =>
      match proof with
      | None => None
      | Some p =>
          match verified_proof p key with
          | Err _ => None
          | Ok p => own_accounts o !! subject (certificate p)
          end
      end
  end.

Definition own_same_account (o : OwnAccounts) (l : string) (lp : option string)
    (r : string) (rp : option string) : bool :=
  match account o l lp with
  | Some user => bool_decide (account o r rp = Some user)
  | None => false
  end.

(** *** Message origins ([origin.rs]) *)

Definition signing_input (o : MessageOrigin) : result string bytes :=
  b ← origin_to_vec (conversation o, id o, content_hash o, author o, ownership o);
  Ok (context "mosh-message-origin-v1" ++ b).

Definition origin_key (o : MessageOrigin) : result string string :=
  b ← signing_input o; Ok (sha_hex b).

Definition origin_verify_signature (o : MessageOrigin) : result string unit :=
  _ ← match ownership o with
      | Some p => r ← ownership_verify p (author o); Ok tt
      | None => Ok tt
      end;
  _ ← guard_or (negb (String.eqb (conversation o) "" || (512 <? str_len (conversation o))%N
                      || String.eqb (id o) "" || (256 <? str_len (id o))%N
                      || negb (str_len (content_hash o) =? 64)%N)) "invalid message origin";
  input ← signing_input o;
  verify_signature (author o) (signature o) input.

Definition origin_verify (o : MessageOrigin) (conv i : string) (content : bytes) : result string unit :=
  _ ← guard_or (String.eqb (conversation o) conv && String.eqb (id o) i
                && String.eqb (content_hash o) (sha_hex content)) "message origin mismatch";
  origin_verify_signature o.

Definition verify_from_signer (o : MessageOrigin) (conv i : string) (content signer : bytes)
  : result string unit :=
  _ ← origin_verify o conv i content;
  guard_or (String.eqb (author o) (hex_string signer)) "message origin signer mismatch".

(** *** Requests, acknowledgements, frames ([protocol.rs]) *)

Definition request_input (q : DeleteRequest) : result string bytes :=
  b ← request_to_vec (operation q, target q, actor q, actor_name q, moderated q, epoch q, q_ownership q);
  Ok (context "mosh-delete-request-v1" ++ b).

Definition request_verify (q : DeleteRequest) (ctx : string) : result string unit :=
  proof ← ok_or (q_ownership q) "deletion account is not verified";
  _ ← ownership_verify proof (actor q);
  _ ← guard_or (negb (negb (String.eqb (conversation (target q)) ctx)
                      || negb (str_len (operation q) =? 39)%N
                      || (64 <? length (chars (actor_name q)))%nat
                      || existsb is_control (chars (actor_name q)))) "invalid deletion request";
  _ ← origin_verify_signature (target q);
  input ← request_input q;
  verify_signature (actor q) (q_signature q) input.

Definition request_hash (q : DeleteRequest) : result string string :=
  b ← request_input q; Ok (sha_hex b).

Definition ack_input (k : DeleteAck) : result string bytes :=
  b ← ack_to_vec (request_digest k, k_actor k, k_ownership k);
  Ok (context "mosh-delete-saved-v1" ++ b).

Definition ack_verify (k : DeleteAck) (q : DeleteRequest) : result string unit :=
  proof ← ok_or (k_ownership k) "recipient account is not verified";
  _ ← ownership_verify proof (k_actor k);
  d ← request_hash q;
  _ ← guard_or (String.eqb (request_digest k) d && negb (String.eqb (k_actor k) (actor q)))
        "invalid deletion acknowledgement";
  _ ← guard_or (negb (same_proven (k_actor k) (k_ownership k) (actor q) (q_ownership q)))
        "deletion receipt must be from another account";
  input ← ack_input k;
  verify_signature (k_actor k) (k_signature k) input.

Definition frame_input (f : DeletionFrame) : result string bytes :=
  b ← frame_to_vec (f_context f, f_epoch f, f_author f, payload_b64 f);
  Ok (context "mosh-deletion-frame-v1" ++ b).

Definition frame_verify (f : DeletionFrame) (ctx : string) : result string unit :=
  _ ← guard_or (String.eqb (f_context f) ctx && (str_len (payload_b64 f) <=? 60000)%N)
        "invalid deletion frame";
  input ← frame_input f;
  verify_signature (f_author f) (f_signature f) input.

(** *** The one form a shared record may have ([shared.rs]) *)

Definition canonical (q : DeleteRequest) (st : DeletionStatus) (ack : option DeleteAck)
  : result string DeletionRecord :=
  key ← origin_key (target q);
  Ok {| r_context := conversation (target q); r_key := key; r_correlation := None;
        r_scope := ForEveryone; r_owner := ""; r_local_only := false; r_status := st;
        r_administrator := if moderated q then Some (actor_name q) else None;
        r_request := Some q; r_ack := ack |}.

Definition verify_record (r : DeletionRecord) (ctx : string) : result string DeleteRequest :=
  q ← ok_or (r_request r) "deletion request missing";
  _ ← request_verify q ctx;
  _ ← guard_or (Bool.eqb (bool_decide (r_status r = Confirmed)) (bool_decide (is_Some (r_ack r))))
        "deletion acknowledgement status mismatch";
  c ← canonical q (r_status r) (r_ack r);
  _ ← guard_or (bool_decide (r = c)) "deletion record mismatch";
  _ ← (if bool_decide (r_status r = Confirmed)
       then k ← ok_or (r_ack r) "unconfirmed deletion"; ack_verify k q
       else Ok tt);
  _ ← guard_or (negb (bool_decide (r_status r = Rejected))) "rejected deletion cannot be forwarded";
  Ok q.

Lemma verify_signature_iff key sig input :
  verify_signature key sig input = Ok tt <->
  exists k s, hex_decode key = Ok k /\ length k = 32%nat /\ hex_decode sig = Ok s /\ length s = 64%nat /\
    key_from_bytes k = true /\ is_weak k = false /\ verify_strict k s input = true.
Proof.
  unfold verify_signature, verify. destruct (hex_decode key) as [k|e].
  2: { cbn. split; [done|]. by intros (? & ? & ? & _). }
  destruct (Nat.eqb_spec (length k) 32); cbn [negb].
  2: { cbn. split; [done|]. intros (? & ? & [= ->] & ? & _). done. }
  destruct (hex_decode sig) as [s|e'].
  2: { cbn. split; [done|]. by intros (? & ? & _ & _ & ? & _). }
  destruct (Nat.eqb_spec (length s) 64); cbn [negb].
  2: { cbn. split; [done|]. intros (? & ? & _ & _ & [= ->] & ? & _). done. }
  unfold verify_with, verify_cached, contains, no_facts, verify_key. cbn.
  rewrite bool_decide_eq_false_2 by apply not_elem_of_empty.
  destruct (key_from_bytes k) eqn:Hk; cbn.
  2: { split; [done|]. intros (? & ? & [= <-] & _ & _ & _ & ? & _). congruence. }
  destruct (is_weak k) eqn:Hw; cbn.
  { split; [done|]. intros (? & ? & [= <-] & _ & _ & _ & _ & ? & _). congruence. }
  destruct (verify_strict k s input) eqn:Hv; cbn.
  - split; [|done]. intros _. by exists k, s.
  - split; [done|]. intros (? & ? & [= <-] & _ & [= <-] & _ & _ & _ & ?). congruence.
Qed.

(** What a seed signs is accepted under its key. *)
Lemma sign_verify {laws : Ed25519Laws} (hex_decode_string : forall b, hex_decode (hex_string b) = Ok b) seed input :
  verify_signature (hex_string (verifying_key seed)) (hex_string (sign seed input)) input = Ok tt.
Proof.
  apply verify_signature_iff. exists (verifying_key seed), (sign seed input).
  rewrite !hex_decode_string, key_length, sign_length, key_decodes, key_strong, sign_verifies. done.
Qed.

(** What a shared record must be to be taken from the network, and all it
    must be: the canonical form of a request its actor signed for this
    conversation, pending without an acknowledgement, or confirmed with one
    that another account's key signed for this very request. *)
Theorem verify_record_iff r ctx q :
  verify_record r ctx = Ok q <->
  r_request r = Some q /\ request_verify q ctx = Ok tt /\ canonical q (r_status r) (r_ack r) = Ok r /\
  ((r_status r = DPending /\ r_ack r = None) \/
   (r_status r = Confirmed /\ exists k, r_ack r = Some k /\ ack_verify k q = Ok tt)).
Proof.
  unfold verify_record. rewrite bind_Ok. setoid_rewrite ok_or_Ok. split.
  - intros (q' & Hq & Hv). apply bind_Ok in Hv as ([] & Hver & Hv).
    apply bind_Ok in Hv as ([] & Hst%guard_or_Ok & Hv). apply bind_Ok in Hv as (c & Hc & Hv).
    apply bind_Ok in Hv as ([] & Heq%guard_or_Ok%bool_decide_eq_true & Hv). subst c.
    apply bind_Ok in Hv as ([] & Hack & Hv).
    apply bind_Ok in Hv as ([] & Hrej%guard_or_Ok & [= <-]).
    split; [done|]. split; [done|]. split; [done|].
    destruct (r_status r) eqn:Es; [left|right|done].
    + split; [done|]. destruct (r_ack r); [|done]. done.
    + split; [done|]. cbn in Hack. apply bind_Ok in Hack as (k & Hk%ok_or_Ok & Hack). by exists k.
  - intros (Hq & Hver & Hc & Hcase). exists q. split; [done|].
    rewrite Hver. cbn [mbind result_bind].
    destruct Hcase as [[Hs Ha]|(Hs & k & Ha & Hk)]; rewrite Hs, Ha in *; unfold guard_or; cbn;
      rewrite Hc; cbn; rewrite (bool_decide_true (r = r)) by done; cbn; [done|by rewrite Hk].
Qed.

(** ** Who may delete what ([authority.rs]) *)

Record DeletionActor := {
  a_key : string; a_name : string; a_epoch : N; a_ownership : option string
}.

Record DeletionAuthority := {
  local : DeletionActor;
  members : gset string;
  admins : gset string;
  accepted_before : gset string;
  accounts : gmap string string;
  own : OwnAccounts;
  public_channel : bool;
}.

Definition member (a : DeletionAuthority) (key : string) : bool :=
  negb (in_set key (revoked_keys (own a))) && (public_channel a || in_set key (members a)).

Definition member_with_proof (a : DeletionAuthority) (key : string) (proof : option string) : bool :=
  member a key && negb (is_revoked (own a) key proof).

Definition same_account (a : DeletionAuthority) (l r : string) : bool :=
  String.eqb l r
  || match accounts a !! l with
     | Some u => bool_decide (accounts a !! r = Some u)
     | None => false
     end.

Definition is_author (a : DeletionAuthority) (o : MessageOrigin) : bool :=
  same_account a (a_key (local a)) (author o)
  || same_proven (a_key (local a)) (a_ownership (local a)) (author o) (ownership o).

(** [SnapshotAuthority::permitted]; its [OnceCell] keeps the first answer of an
    unchanging question. *)
Definition permitted (a : DeletionAuthority) (o : MessageOrigin) : option bool :=
  if negb (member_with_proof a (a_key (local a)) (a_ownership (local a))
           && bool_decide (is_Some (a_ownership (local a))))
  then None
  else if is_author a o then Some false
  else if in_set (a_key (local a)) (admins a) then Some true else None.

Definition other_account (a : DeletionAuthority) (q : DeleteRequest) (key : string)
    (proof : option string) : bool :=
  bool_decide (is_Some (q_ownership q)) && bool_decide (is_Some proof)
  && negb (same_account a key (actor q))
  && negb (own_same_account (own a) key proof (actor q) (q_ownership q))
  && negb (same_proven key proof (actor q) (q_ownership q)).

Definition may_ack_with_proof (a : DeletionAuthority) (q : DeleteRequest) (key : string)
    (proof : option string) : bool :=
  member_with_proof a key proof && other_account a q key proof.

Definition may_ack (a : DeletionAuthority) (q : DeleteRequest) (key : string) : bool :=
  may_ack_with_proof a q key
    (if String.eqb key (a_key (local a)) then a_ownership (local a) else None).

Definition is_confirmed (r : DeletionRecord) : bool := bool_decide (r_status r = Confirmed).

(** An admin stands behind a confirmed record: the carrier, or who acknowledged it. *)
Definition endorsed (a : DeletionAuthority) (r : DeletionRecord) (q : DeleteRequest) (carrier : string)
  : bool :=
  is_confirmed r
  && (in_set carrier (admins a)
      || match r_ack r with
         | Some k => in_set (k_actor k) (admins a) && may_ack_with_proof a q (k_actor k) (k_ownership k)
         | None => false
         end).

Definition authored (a : DeletionAuthority) (q : DeleteRequest) : bool :=
  same_account a (actor q) (author (target q))
  || same_proven (actor q) (q_ownership q) (author (target q)) (ownership (target q)).

Definition validate (a : DeletionAuthority) (r : DeletionRecord) (carrier : string) : result string unit :=
  _ ← guard_or (member a carrier) "deletion carrier is not a member";
  q ← ok_or (r_request r) "missing deletion request";
  known ← (if is_confirmed r
           then d ← request_hash q; Ok (in_set d (accepted_before a)) else Ok false);
  if (known : bool) then Ok tt else
  let en := endorsed a r q carrier in
  let mem := member_with_proof a (actor q) (q_ownership q) in
  _ ← guard_or (negb ((a_epoch (local a) <? epoch q)%N || (negb mem && negb en)))
        "deletion author left or epoch is ahead";
  _ ← guard_or (if moderated q then in_set (actor q) (admins a) || en else authored a q)
        "deletion permission denied";
  match r_ack r with
  | None => Ok tt
  | Some k =>
      guard_or (other_account a q (k_actor k) (k_ownership k)
                && (member_with_proof a (k_actor k) (k_ownership k) || en))
        "ineligible deletion acknowledgement"
  end.

(** ** The book of a conversation ([book.rs]) *)

Definition has_shared_records (records : gmap string DeletionRecord) : bool :=
  existsb (fun r => bool_decide (r_scope r = ForEveryone) && negb (bool_decide (r_status r = Rejected)))
    (btree_values String.le records).

Definition summary (records : gmap string DeletionRecord) : option DeletionSummary :=
  let count st := length (filter (fun r => r_status r = st) (btree_values String.le records)) in
  if (0 <? count DPending + count Rejected)%nat
  then Some {| pending_records := count DPending; rejected_records := count Rejected |} else None.

(** ** Pages ([shared.rs]) *)

Definition PAGE_RECORDS : nat := 16.
Definition PAGE_BYTES : N := 24000.

(** A record this installation may pass on. *)
Definition forwardable (a : DeletionAuthority) (r : DeletionRecord) : bool :=
  bool_decide (r_scope r = ForEveryone) && negb (bool_decide (r_status r = Rejected))
  && is_ok (validate a r (a_key (local a))).

Definition record_size (r : DeletionRecord) : N :=
  match record_to_vec r with Ok b => N.of_nat (length b) | Err _ => 60000 end.

Fixpoint fill_page (rows : list DeletionRecord) (page : list DeletionRecord) (size : N)
  : list DeletionRecord * option string :=
  match rows with
  | [] => (page, None)
  | r :: rows =>
      if negb (bool_decide (page = []))
         && ((length page =? PAGE_RECORDS)%nat || (PAGE_BYTES <? size + record_size r)%N)
      then (page, storage_key <$> last page)
      else fill_page rows (page ++ [r]) (size + record_size r)
  end.

Definition after_key (after : option string) (key : string) : bool :=
  match after with None => true | Some a => negb (String.leb key a) end.

(** What is left to send after [after], in the order of the keys. *)
Definition remaining (a : DeletionAuthority) (records : gmap string DeletionRecord)
    (after : option string) : list (string * DeletionRecord) :=
  filter (fun kr => forwardable a kr.2 && after_key after kr.1 = true)
    (btree_entries String.le records).

Definition page (a : DeletionAuthority) (records : gmap string DeletionRecord) (after : option string)
  : list DeletionRecord * option string :=
  fill_page (remaining a records after).*2 [] 0.

Definition digest_of (a : DeletionAuthority) (records : gmap string DeletionRecord)
  : result string string :=
  b ← records_to_vec (filter (fun r => forwardable a r = true) (btree_values String.le records));
  Ok (sha_hex b).

(** *** Walking the pages *)

Lemma fill_page_cut rows pg size pg' next :
  fill_page rows pg size = (pg', next) ->
  exists taken rest, rows = taken ++ rest /\ pg' = pg ++ taken /\
    (length pg <= PAGE_RECORDS -> length pg' <= PAGE_RECORDS)%nat /\
    ((next = None /\ rest = []) \/ (pg' <> [] /\ next = storage_key <$> last pg')).
Proof.
  revert pg size. induction rows as [|r rows IH]; intros pg size; cbn [fill_page].
  { intros [= <- <-]. exists [], []. split; [done|]. split; [by rewrite app_nil_r|]. split; [lia|by left]. }
  destruct (_ && _) eqn:E.
  - intros [= <- <-]. exists [], (r :: rows).
    apply andb_true_iff in E as [Hne%negb_true_iff%bool_decide_eq_false _].
    split; [done|]. split; [by rewrite app_nil_r|]. split; [lia|by right].
  - intros Hf. destruct (IH _ _ Hf) as (taken & rest & -> & -> & Hlen & Hnext).
    exists (r :: taken), rest. split; [done|]. split; [by rewrite <-app_assoc|]. split; [|done].
    intros Hpg. apply Hlen. rewrite length_app. cbn.
    apply andb_false_iff in E as [E|E].
    + apply negb_false_iff, bool_decide_eq_true in E as ->. cbn. unfold PAGE_RECORDS. lia.
    + apply orb_false_iff in E as [E%Nat.eqb_neq _]. lia.
Qed.

Lemma filter_none {A} (P : A -> Prop) `{!forall x, Decision (P x)} l :
  (forall x, x ∈ l -> ~ P x) -> filter P l = [].
Proof.
  induction l as [|x l IH]; intros Hl; [done|]. rewrite filter_cons, decide_False.
  - apply IH. intros y Hy. apply Hl. by right.
  - apply Hl. by left.
Qed.

(** In a list sorted by key, the entries after the last taken are the rest. *)
Lemma filter_after {A} (taken rest : list (string * A)) (e : string * A) :
  StronglySorted (fun p q => String.le p.1 q.1 /\ p.1 <> q.1) (taken ++ rest) ->
  last taken = Some e ->
  filter (fun kr => after_key (Some e.1) kr.1 = true) (taken ++ rest) = rest.
Proof.
  intros Hs Hlast. apply last_Some in Hlast as [l ->]. rewrite filter_app.
  replace (filter _ (l ++ [e])) with (@nil (string * A)); [cbn [app]|symmetry].
  - rewrite <-app_assoc in Hs. apply StronglySorted_app_1_r in Hs. cbn in Hs.
    apply StronglySorted_inv in Hs as [_ Hs]. induction Hs as [|x rest [Hle Hne] _ IH]; [done|].
    rewrite filter_cons, IH, decide_True; [done|]. cbn. apply negb_true_iff, not_true_iff_false.
    intros Hx. apply Hne. apply Is_true_true in Hx. by apply (anti_symm String.le).
  - apply filter_none. intros x Hx. cbn.
    rewrite negb_true_iff, not_false_iff_true. apply Is_true_true.
    apply elem_of_app in Hx as [Hx|Hx].
    2: { apply list_elem_of_singleton in Hx as ->. apply (reflexivity (R := String.le)). }
    apply StronglySorted_app_1_l, StronglySorted_app in Hs as (Hs & _ & _).
    apply Hs; [done|by apply list_elem_of_singleton].
Qed.

Lemma remaining_next a records after taken rest e :
  remaining a records after = taken ++ rest -> last taken = Some e ->
  remaining a records (Some e.1) = rest.
Proof.
  intros Hrem Hlast. pose proof (btree_entries_sorted String.le records) as Hs.
  apply (StronglySorted_filter _ (fun kr => forwardable a kr.2 && after_key after kr.1 = true)) in Hs.
  fold (remaining a records after) in Hs. rewrite Hrem in Hs.
  rewrite <-(filter_after taken rest e Hs Hlast), <-Hrem. unfold remaining.
  rewrite list_filter_filter. apply list_filter_iff. intros [k r]. cbn.
  assert (Hafter : after_key after e.1 = true).
  { assert (He : e ∈ remaining a records after).
    { rewrite Hrem. apply elem_of_app. left. apply last_Some in Hlast as [l ->].
      apply elem_of_app. right. by left. }
    apply list_elem_of_filter in He as [He _]. by apply andb_true_iff in He as [_ He]. }
  rewrite !andb_true_iff. split; [|by intros [Hk [? _]]].
  intros [Hf Hk]. split; [done|]. split; [done|]. destruct after as [x|]; [|done]. cbn in *.
  rewrite negb_true_iff in *. apply not_true_iff_false in Hk, Hafter. apply not_true_iff_false.
  intros Hkx. apply Hafter. destruct (total String.le k e.1) as [H|H]; apply Is_true_true in H; [done|].
  apply Is_true_true. transitivity k; by apply Is_true_true.
Qed.

(** The requests of a reader that follows [next]. *)
Fixpoint walk (fuel : nat) (a : DeletionAuthority) (records : gmap string DeletionRecord)
    (after : option string) : list DeletionRecord :=
  match fuel with
  | O => []
  | S fuel =>
      let '(p, next) := page a records after in
      p ++ match next with Some k => walk fuel a records (Some k) | None => [] end
  end.

(** Records are filed under their own keys. *)
Definition keyed (records : gmap string DeletionRecord) : Prop :=
  forall k r, records !! k = Some r -> storage_key r = k.

Lemma remaining_elem a records after k r :
  (k, r) ∈ remaining a records after <->
  records !! k = Some r /\ forwardable a r = true /\ after_key after k = true.
Proof.
  unfold remaining. rewrite list_elem_of_filter, elem_of_btree_entries. cbn.
  rewrite andb_true_iff. tauto.
Qed.

Lemma walk_remaining fuel a records after :
  keyed records -> (length (remaining a records after) < fuel)%nat ->
  walk fuel a records after = (remaining a records after).*2.
Proof.
  intros Hkeyed. revert after. induction fuel as [|fuel IH]; intros after Hfuel; [lia|].
  cbn [walk]. unfold page. destruct (fill_page _ _ _) as [p next] eqn:Hf.
  destruct (fill_page_cut _ _ _ _ _ Hf) as (taken & rest & Hrows & -> & _ & Hnext). cbn [app] in *.
  destruct Hnext as [[-> ->]|[Hne ->]]; [by rewrite !app_nil_r in *|].
  apply fmap_app_inv in Hrows as (l & l' & -> & -> & Hrem).
  destruct (last l) as [e|] eqn:Hlast; [|apply last_None in Hlast as ->; done].
  rewrite fmap_last, Hlast. cbn [fmap option_fmap option_map].
  assert (He : storage_key e.2 = e.1).
  { apply Hkeyed. eapply (proj1 (remaining_elem a records after e.1 e.2)).
    rewrite <-surjective_pairing, Hrem. apply elem_of_app. left.
    apply last_Some in Hlast as [l0 ->]. apply elem_of_app. right. by left. }
  pose proof (remaining_next a records after l l' e Hrem Hlast) as Hnext.
  rewrite He, IH, Hnext, Hrem, fmap_app; [done|].
  rewrite Hnext. rewrite Hrem, length_app in Hfuel.
  destruct l as [|x l]; [done|]. cbn in Hfuel. lia.
Qed.

(** Following the pages of a conversation ends, and delivers exactly the
    records this installation may pass on, each once and in the order of
    their keys; a page holds at most sixteen of them. *)
Theorem pages_cover a records :
  keyed records ->
  let sent := walk (S (size records)) a records None in
  sent = filter (fun r => forwardable a r = true) (btree_values String.le records) /\
  NoDup sent /\
  forall after, (length (page a records after).1 <= PAGE_RECORDS)%nat.
Proof.
  intros Hkeyed. cbn zeta.
  assert (Hall : walk (S (size records)) a records None = (remaining a records None).*2).
  { apply walk_remaining; [done|]. rewrite <-(btree_values_length String.le records).
    unfold btree_values. rewrite length_fmap. unfold remaining.
    apply Nat.lt_succ_r, length_filter. }
  assert (Hvals : (remaining a records None).*2
            = filter (fun r => forwardable a r = true) (btree_values String.le records)).
  { unfold remaining, btree_values. induction (btree_entries String.le records) as [|kr l IH]; [done|].
    rewrite fmap_cons, !filter_cons. cbn [after_key]. rewrite andb_true_r.
    case_decide; [rewrite fmap_cons; by f_equal|done]. }
  rewrite Hall. split; [done|]. split.
  - apply NoDup_fmap_2_strong.
    + intros [k r] [k' r'] Hr Hr' Heq. cbn in Heq. subst r'.
      apply remaining_elem in Hr as [Hr%Hkeyed _]. apply remaining_elem in Hr' as [Hr'%Hkeyed _].
      congruence.
    + unfold remaining. apply NoDup_filter. by apply (btree_entries_NoDup String.le); apply _.
  - intros after. unfold page. destruct (fill_page _ _ _) as [p next] eqn:Hf.
    destruct (fill_page_cut _ _ _ _ _ Hf) as (taken & rest & _ & _ & Hlen & _). apply Hlen. cbn. lia.
Qed.
End Signed.

(** ** Examples

    Transcripts that only list the fields that differ; an account proof is
    named by the seed of its root key. *)

Definition str (s : string) : bytes := String.list_byte_of_string s.
Definition toy_key (seed : bytes) : string := hex_string (verifying_key seed).
Definition toy_sign (seed : bytes) (b : bytes) : result string string := Ok (hex_string (sign seed b)).

Definition toy_proof (seed : bytes) : AccountProof :=
  {| certificate := root_certificate seed; proof_subject := toy_key seed;
     proof_signature := hex_string (sign seed (context "mosh-message-account-v1" ++ str (toy_key seed))) |}.

#[local] Instance toy_json : DeletionJson := {|
  origin_to_vec o := Ok (str (o.1.1.1.2 +:+ o.1.2));
  request_to_vec q := Ok (str (q.1.1.1.1.1.1 +:+ q.1.1.1.1.2));
  ack_to_vec k := Ok (str (k.1.1 +:+ k.1.2));
  frame_to_vec f := Ok (str (f.1.2 +:+ f.2));
  proof_to_vec p := Ok (str p.2);
  proof_from_str s := if String.eqb s "alice" then Ok (toy_proof [x01])
                      else if String.eqb s "bob" then Ok (toy_proof [x02]) else Err "unknown";
  delegation_to_vec _ := Ok [];
  record_to_vec r := Ok (str (r_key r));
  records_to_vec rs := Ok (concat (map (fun r => str (r_key r)) rs));
|}.

Abbreviation toy_sha := Fragments.toy_sha.

(** Alice's message, and her request to delete it. *)
Definition alice_unsigned (i : string) : MessageOrigin :=
  {| conversation := "group:club"; id := i; content_hash := hex_string (toy_sha (str "secret"));
     author := toy_key [x01]; signature := ""; ownership := Some "alice" |}.
Definition alice_origin (i : string) : MessageOrigin :=
  {| conversation := "group:club"; id := i; content_hash := hex_string (toy_sha (str "secret"));
     author := toy_key [x01];
     signature := default "" (res_ok (b ← signing_input (alice_unsigned i); toy_sign [x01] b));
     ownership := Some "alice" |}.

Definition alice_request (i : string) : DeleteRequest :=
  let unsigned sig := {| operation := "delete-00000000000000000000000000000000"; target := alice_origin i;
    actor := toy_key [x01]; actor_name := "Alice"; moderated := false; epoch := 0; q_signature := sig;
    q_ownership := Some "alice" |} in
  unsigned (default "" (res_ok (b ← request_input (unsigned ""); toy_sign [x01] b))).

Definition no_record : DeletionRecord :=
  {| r_context := ""; r_key := ""; r_correlation := None; r_scope := ForMe; r_owner := "";
     r_local_only := false; r_status := DPending; r_administrator := None; r_request := None; r_ack := None |}.
Definition alice_record (i : string) : DeletionRecord :=
  default no_record (res_ok (canonical toy_sha (alice_request i) DPending None)).

(** What bob knows: alice and he are members, nobody is an administrator. *)
Definition bob_authority : DeletionAuthority :=
  {| local := {| a_key := toy_key [x02]; a_name := "Bob"; a_epoch := 0; a_ownership := Some "bob" |};
     members := {[ toy_key [x01]; toy_key [x02] ]}; admins := ∅; accepted_before := ∅;
     accounts := ∅; own := {| own_accounts := ∅; revoked_keys := ∅ |}; public_channel := false |}.

Example alice_is_heard :
  verify_record toy_sha hex_bytes (alice_record "a") "group:club" = Ok (alice_request "a").
Proof. vm_compute. reflexivity. Qed.

Example alice_may_delete :
  validate toy_sha hex_bytes bob_authority (alice_record "a") (toy_key [x01]) = Ok tt.
Proof. vm_compute. reflexivity. Qed.

Definition with_state (st : DeletionStatus) (ack : option string) (r : DeletionRecord) : DeletionRecord :=
  {| r_context := r_context r; r_key := r_key r; r_correlation := r_correlation r; r_scope := r_scope r;
     r_owner := r_owner r; r_local_only := r_local_only r; r_status := st;
     r_administrator := r_administrator r; r_request := r_request r;
     r_ack := (fun k => {| request_digest := ""; k_actor := k; k_signature := ""; k_ownership := None |}) <$> ack |}.

Definition pending_copy : DeletionRecord := alice_record "a".
Definition rejected_copy : DeletionRecord := with_state Rejected None pending_copy.
Definition saved_by (k : string) : DeletionRecord := with_state Confirmed (Some k) pending_copy.

Lemma merge_converges_witness :
  r_status (foldl merged pending_copy [saved_by "carol"; rejected_copy; saved_by "bob"]) = Confirmed /\
  ack_actor (foldl merged pending_copy [saved_by "carol"; rejected_copy; saved_by "bob"])
    = ack_actor (foldl merged pending_copy [saved_by "bob"; saved_by "bob"; saved_by "carol"; rejected_copy]).
Proof.
  assert (Hst : r_status (foldl merged pending_copy [saved_by "carol"; rejected_copy; saved_by "bob"]) = Confirmed)
    by (vm_compute; reflexivity).
  split; [exact Hst|].
  refine (proj2 (merge_converges pending_copy _ _ _ _) Hst).
  - repeat constructor; vm_compute; reflexivity.
  - intros r. rewrite !elem_of_cons, elem_of_nil. tauto.
Defined.

Definition two_records : gmap string DeletionRecord :=
  {[ storage_key (alice_record "a") := alice_record "a"; storage_key (alice_record "b") := alice_record "b" ]}.

Lemma pages_cover_witness :
  walk toy_sha hex_bytes (S (size two_records)) bob_authority two_records None
    = filter (fun r => forwardable toy_sha hex_bytes bob_authority r = true)
        (btree_values String.le two_records).
Proof.
  apply (pages_cover toy_sha hex_bytes bob_authority two_records).
  intros k r. unfold two_records. rewrite lookup_insert_Some, lookup_singleton_Some.
  by intros [[<- <-]|[_ [<- <-]]].
Defined.
End Deletion.
