(* ===== verification/Erasure.v ===== *)
(** * Erasure: applying deletions to a conversation ([message_deletion/])

    A deletion names its target by a digest that survives erasure.  Installing
    records merges them into the book, erases every message they match, cancels
    the sends of those messages and commits the whole plan to the store in one
    call.  This file models the targets ([target.rs], [correlation.rs]), the
    plan ([application.rs]) and the two ways a user deletes ([personal.rs],
    [shared.rs]).  The encrypted store and the attachment transfer are
    interfaces. *)
From S2P Require Import Prelude Store Devices Identity Messages Attachments Fragments Deletion.

Module Erasure.
Import Devices Identity Messages Deletion.

#[local] Open Scope mosh_scope.
#[local] Set Default Proof Using "Type".

(** ** Data *)

(** The values a target is the digest of ([serde_json::json!]). *)
Inductive Json :=
| JNull
| JString (s : string)
| JNumber (n : N)
| JDescriptor (d : AttachmentDescriptor)
| JArray (l : list Json).

Definition j_string (o : option string) : Json := match o with Some s => JString s | None => JNull end.
Definition j_number (o : option N) : Json := match o with Some n => JNumber n | None => JNull end.

(** What a message adds to the log's trait: its file, its call, its kind. *)
Class DeletableMessage (M : Type) := {
  cm_attachment : M -> option AttachmentDescriptor;
  cm_call_id : M -> option string;
  cm_is_service : M -> bool;
}.

(** Its setters move their own field. *)
Class DeletableLaws (M : Type) `{ConversationMessage M} : Prop := {
  set_metadata_metadata md m : cm_metadata (cm_set_metadata md m) = md;
  set_metadata_twice md md' m : cm_set_metadata md (cm_set_metadata md' m) = cm_set_metadata md m;
  erase_set_metadata md m :
    cm_set_metadata md (cm_erase_content m) = cm_erase_content (cm_set_metadata md m);
  erase_metadata m : cm_metadata (cm_erase_content m) = cm_metadata m;
}.

(** A message as its history row holds it ([conversation/history.rs]). *)
Record StoredMessage (M : Type) := {
  s_conversation_id : string; s_sent_at_ms : N; s_message_id : string; s_message : M;
}.
Arguments s_conversation_id {M}. Arguments s_sent_at_ms {M}.
Arguments s_message_id {M}. Arguments s_message {M}.

(** The attachment transfer of a conversation, as far as erasure asks it. *)
Class TransferOps (T : Type) := {
  manifest_for : T -> string -> option Attachments.AttachmentManifest;
  previews : T -> gmap string Attachments.AttachmentManifest;
  forget : string -> T -> T;
}.

(** Records merged one after the other, as memory and store both do it. *)
Definition merge_one (m : gmap string DeletionRecord) (r : DeletionRecord) : gmap string DeletionRecord :=
  <[ storage_key r := match m !! storage_key r with Some old => merged old r | None => r end ]> m.
Definition merge_all (rs : list DeletionRecord) (m : gmap string DeletionRecord) : gmap string DeletionRecord :=
  foldl merge_one m rs.

(** The encrypted store of a conversation, as the file [Rows] implements it.
    [commit_message_deletions] writes the records, the erased rows, the
    cancelled sends and the files to collect in one transaction; [saved] is what
    the deletion table decrypts to, and [accepted_saved] the digests the
    acceptance table has a row for. *)
Class DeletionStore (St M : Type) := {
  ds_cell :: Store.CasCell St;
  accepted_deletions : St -> string -> result string (gset string);
  deletion_records : St -> string -> result string (list DeletionRecord);
  commit_message_deletions : St -> list DeletionRecord -> list (StoredMessage M) -> gset string ->
    list AttachmentDescriptor -> bool -> St * result string (gmap string DeletionMarker);
  saved : St -> gmap string DeletionRecord;
  accepted_saved : St -> gset string;
}.

(** The digest a confirmation is remembered by. *)
Definition is_receipt (r : DeletionRecord) : bool :=
  is_confirmed r && bool_decide (is_Some (r_ack r)).

(** A commit that answers has merged the records and, on request, filed the
    confirmed ones' digests; one that fails may have done so or not.  Digests
    are never dropped. *)
Class DeletionStoreLaws (St M : Type) (digest : DeletionRecord -> result string string)
    `{DeletionStore St M} : Prop := {
  commit_ok s rs rows cancelled files acc s' ms :
    commit_message_deletions s rs rows cancelled files acc = (s', Ok ms) ->
    saved s' = merge_all rs (saved s) /\
    (acc = true -> forall r d, r ∈ rs -> is_receipt r = true -> digest r = Ok d -> d ∈ accepted_saved s');
  commit_keeps s rs rows cancelled files acc s' res :
    commit_message_deletions s rs rows cancelled files acc = (s', res) ->
    accepted_saved s ⊆ accepted_saved s' /\ (saved s' = saved s \/ saved s' = merge_all rs (saved s));
}.

Record DeletionBook (St : Type) := {
  b_context : string;
  b_store : option St;
  b_records : gmap string DeletionRecord;
  b_accepted : gset string;
  b_last_sync : N;
  b_fragments : Fragments.FragmentBuffer;
}.
Arguments b_context {St}. Arguments b_store {St}. Arguments b_records {St}.
Arguments b_accepted {St}. Arguments b_last_sync {St}. Arguments b_fragments {St}.

(** The serializers this file needs besides those of [Deletion]. *)
Class ErasureJson := {
  json_to_vec : Json -> result string bytes;
  manifest_to_vec : Attachments.AttachmentManifest -> result string bytes;
  message_to_vec : DeletionMessage -> result string bytes;
  message_from_slice : bytes -> result string DeletionMessage;
  content_to_vec : N * option string * string * DeviceDescriptor -> result string bytes;
  roster_to_vec : DeviceRoster -> result string bytes;
  identity_to_vec : LocalIdentity -> result string bytes;
  identity_from_slice : bytes -> result string LocalIdentity;
  b64_encode : bytes -> string;
  b64_decode : string -> result string bytes;
}.

(** [Display] of the two error types. *)
Definition persistence_text (e : Store.PersistenceError) : string :=
  match e with
  | Store.Crypto e => "persistence crypto error: " +:+ e
  | Store.Io e => "persistence io error: " +:+ e
  | Store.Db e => "persistence db error: " +:+ e
  | Store.Json e => "persistence json error: " +:+ e
  | Store.Keychain e => "persistence keychain error: " +:+ e
  end.
Definition error_text (e : DeletionError) : string :=
  match e with
  | InvalidInput m | Deletion.Persistence m | Internal m => m
  | PermissionDenied => "deletion permission denied"
  | Revoked => "revoked device cannot delete messages"
  end.

Definition strip_suffix (p s : string) : option string :=
  let n := String.length s - String.length p in
  if (String.length p <=? String.length s) && String.eqb (String.substring n (String.length p) s) p
  then Some (String.substring 0 n s) else None.

(** The part of a context after its kind. *)
Definition context_id (ctx : string) : string :=
  match split_once (Ascii.ascii_of_N 58) ctx with Some (_, i) => i | None => ctx end.

Definition starts_with (p s : string) : bool := bool_decide (is_Some (strip_prefix p s)).

Definition no_metadata : MessageMetadata :=
  {| origin := None; deletion := None; deletion_key := None; personal_correlation := None;
     can_delete_for_everyone := false; local_only := false; is_own := None |}.

Definition set_deletion (d : DeletionMarker) (md : MessageMetadata) : MessageMetadata :=
  {| origin := origin md; deletion := Some d; deletion_key := deletion_key md;
     personal_correlation := personal_correlation md;
     can_delete_for_everyone := can_delete_for_everyone md; local_only := local_only md;
     is_own := is_own md |}.

Section Deletions.
Context {scheme : Ed25519} {json : DeletionJson} {json' : ErasureJson}.
Context {M : Type} {msg : ConversationMessage M} {deletable : DeletableMessage M}.
Context {T : Type} {transfer : TransferOps T} {St : Type} {store : DeletionStore St M}.
Variable sha256 : bytes -> bytes.
Variable hex_decode : string -> result string bytes.

Abbreviation sha_hex := (sha_hex sha256).
Abbreviation origin_key := (origin_key sha256).
Abbreviation request_hash := (request_hash sha256).
Abbreviation validate := (validate sha256 hex_decode).
Abbreviation verify_record := (verify_record sha256 hex_decode).
Abbreviation request_verify := (request_verify sha256 hex_decode).
Abbreviation ack_verify := (ack_verify sha256 hex_decode).
Abbreviation canonical := (canonical sha256).

(** ** Targets ([correlation.rs], [target.rs]) *)

Definition json_hex (j : Json) : result string string := b ← json_to_vec j; Ok (sha_hex b).

Definition cm_origin (m : M) : option MessageOrigin := cm_metadata m ≫= origin.
Definition cm_deletion (m : M) : option DeletionMarker := cm_metadata m ≫= deletion.

Definition text_correlation (ctx : string) (m : M) (hash : string) : result string string :=
  json_hex (JArray [JString ctx; JString "text"; j_string (cm_message_id m);
                    j_number (cm_sent_at_ms m); JString (cm_author m); JString hash]).

Definition text_key (ctx : string) (m : M) : result string (option string) :=
  if bool_decide (is_Some (cm_attachment m)) || bool_decide (is_Some (cm_call_id m)) || cm_is_service m
  then Ok None
  else if bool_decide (is_Some (cm_deletion m)) && bool_decide (cm_origin m = None)
  then Ok (cm_metadata m ≫= deletion_key)
  else
    let hash := match cm_origin m with
                | Some o => content_hash o
                | None => sha_hex (String.list_byte_of_string (cm_body m))
                end in
    k ← text_correlation ctx m hash; Ok (Some k).

Definition legacy_text_key (ctx : string) (m : M) : result string string :=
  k ← text_key ctx m; ok_or k "missing text target".

(** A manifest's bytes without its origin. *)
Definition manifest_bytes (m : Attachments.AttachmentManifest) : result string bytes :=
  manifest_to_vec
    {| Attachments.m_origin := None; Attachments.attachment_id := Attachments.attachment_id m;
       Attachments.content_hash := Attachments.content_hash m;
       Attachments.file_name := Attachments.file_name m; Attachments.mime := Attachments.mime m;
       Attachments.total_size := Attachments.total_size m;
       Attachments.chunk_size := Attachments.chunk_size m;
       Attachments.chunk_count := Attachments.chunk_count m;
       Attachments.key_b64 := Attachments.key_b64 m;
       Attachments.nonce_prefix_b64 := Attachments.nonce_prefix_b64 m;
       Attachments.m_thumbnail_b64 := Attachments.m_thumbnail_b64 m;
       Attachments.m_voice := Attachments.m_voice m;
       Attachments.from_fingerprint := Attachments.from_fingerprint m |}.

Definition attachment_target (ctx : string) (m : M) (t : T) (a : AttachmentDescriptor)
  : result string (Json * bool) :=
  if negb (starts_with "channel:" ctx)
  then Ok (JArray [JString ctx; JString "attachment"; JString (attachment_id a);
                   JString (d_content_hash a)], false)
  else match manifest_for t (attachment_id a) with
       | Some manifest =>
           b ← manifest_bytes manifest;
           Ok (JArray [JString ctx; JString "manifest"; JString (sha_hex b)], false)
       | None =>
           Ok (JArray [JString ctx; JString "local"; j_string (cm_message_id m);
                       j_number (cm_sent_at_ms m); JString (cm_author m); JDescriptor a], true)
       end.

Definition target_of (ctx : string) (m : M) (t : T) : result string (string * bool) :=
  match cm_metadata m ≫= deletion_key with
  | Some key => Ok (key, match cm_metadata m with Some md => local_only md | None => false end)
  | None =>
      match cm_origin m with
      | Some o => key ← origin_key o; Ok (key, false)
      | None =>
          match cm_attachment m, cm_call_id m with
          | Some a, _ =>
              vl ← attachment_target ctx m t a;
              key ← json_hex vl.1; Ok (key, vl.2)
          | None, Some call =>
              key ← json_hex (JArray [JString ctx; JString "call"; JString call]); Ok (key, false)
          | None, None =>
              if cm_is_service m && bool_decide (is_Some (cm_message_id m))
              then key ← json_hex (JArray [JString ctx; JString "service"; j_string (cm_message_id m)]);
                   Ok (key, false)
              else key ← legacy_text_key ctx m; Ok (key, true)
          end
      end
  end.

Definition message_key (ctx : string) (m : M) (t : T) : result string (option string) :=
  match cm_metadata m ≫= personal_correlation with
  | Some key => Ok (Some key)
  | None =>
      if bool_decide (is_Some (cm_attachment m))
      then kl ← target_of ctx (cm_set_metadata None m) t;
           Ok (if (kl.2 : bool) then None else Some kl.1)
      else text_key ctx m
  end.

(** ** The plan ([application.rs]) *)

Record Erasure := { e_index : nat; e_message : M; e_row : StoredMessage M }.

Definition new_erasure (index : nat) (m : M) (ctx : string) : Erasure :=
  {| e_index := index; e_message := m;
     e_row := {| s_conversation_id := context_id ctx; s_sent_at_ms := default 0%N (cm_sent_at_ms m);
                 s_message_id := default "" (cm_message_id m); s_message := m |} |}.

Record ErasurePlan := {
  p_merged : gmap string DeletionRecord;
  p_changes : list Erasure;
  p_cancelled : gset string;
  p_attachments : list AttachmentDescriptor;
}.

Record DeletionContext := {
  c_book : DeletionBook St;
  c_log : @MessageLog M;
  c_attempts : gmap string OutboundAttemptRecord;
  c_transfer : T;
}.

Definition set_book (b : DeletionBook St) (c : DeletionContext) : DeletionContext :=
  {| c_book := b; c_log := c_log c; c_attempts := c_attempts c; c_transfer := c_transfer c |}.
Definition with_store (s : option St) (b : DeletionBook St) : DeletionBook St :=
  {| b_context := b_context b; b_store := s; b_records := b_records b; b_accepted := b_accepted b;
     b_last_sync := b_last_sync b; b_fragments := b_fragments b |}.
Definition with_records (rs : gmap string DeletionRecord) (b : DeletionBook St) : DeletionBook St :=
  {| b_context := b_context b; b_store := b_store b; b_records := rs; b_accepted := b_accepted b;
     b_last_sync := b_last_sync b; b_fragments := b_fragments b |}.
Definition with_accepted (a : gset string) (b : DeletionBook St) : DeletionBook St :=
  {| b_context := b_context b; b_store := b_store b; b_records := b_records b; b_accepted := a;
     b_last_sync := b_last_sync b; b_fragments := b_fragments b |}.
Definition with_fragments (f : Fragments.FragmentBuffer) (b : DeletionBook St) : DeletionBook St :=
  {| b_context := b_context b; b_store := b_store b; b_records := b_records b;
     b_accepted := b_accepted b; b_last_sync := b_last_sync b; b_fragments := f |}.

(** [DeletionBook::user]. *)
Definition user (b : DeletionBook St) : result DeletionError string :=
  match b_store b with
  | None => Ok "local"
  | Some s =>
      row ← map_err (fun e => Deletion.Persistence (persistence_text e)) (Store.cell_get s);
      match row with
      | None => Ok "local"
      | Some bs =>
          r ← map_err Deletion.Persistence (identity_from_slice bs);
          ds ← map_err (fun e => Deletion.Persistence (text e))
                 (devices_of sha256 hex_decode content_to_vec roster_to_vec (roster r));
          _ ← guard_or (bool_decide (own_device r ∈ ds)) Revoked;
          Ok (user_id (roster r))
      end
  end.

Definition reload : method DeletionContext string unit := fun c =>
  let b := c_book c in
  match b_store b with
  | None => (c, Ok tt)
  | Some s =>
      match accepted_deletions s (b_context b) with
      | Err e => (c, Err e)
      | Ok acc =>
          let b := with_accepted acc b in
          match deletion_records s (b_context b) with
          | Err e => (set_book b c, Err e)
          | Ok rs =>
              (set_book (with_records (foldl (fun m r => <[ storage_key r := r ]> m) (b_records b) rs) b) c,
               Ok tt)
          end
      end
  end.

(** The key [max_by_key] compares. *)
Definition rank (r : DeletionRecord) : bool * bool * string :=
  (bool_decide (r_scope r = ForMe) || bool_decide (r_status r = Rejected), is_confirmed r, storage_key r).

Definition bool_leb (a b : bool) : bool := negb a || b.
Definition rank_leb (a b : bool * bool * string) : bool :=
  let '(a1, a2, a3) := a in let '(b1, b2, b3) := b in
  if negb (Bool.eqb a1 b1) then bool_leb a1 b1
  else if negb (Bool.eqb a2 b2) then bool_leb a2 b2 else String.leb a3 b3.

(** [Iterator::max_by_key]: the last of the greatest. *)
Definition max_record (rs : list DeletionRecord) : option DeletionRecord :=
  foldl (fun best r => match best with
                       | None => Some r
                       | Some b => if rank_leb (rank b) (rank r) then Some r else Some b
                       end) None rs.

Definition erased_metadata (old : option MessageMetadata) (key : string) (correlation : option string)
    (local : bool) (mk : DeletionMarker) : MessageMetadata :=
  let md := default no_metadata old in
  {| origin := origin md; deletion := Some mk; deletion_key := Some key;
     personal_correlation := match correlation with
                             | Some alias => if String.eqb alias key then None else Some alias
                             | None => None
                             end;
     can_delete_for_everyone := false; local_only := local; is_own := is_own md |}.

(** What the records make of one message: nothing, or its erased form. *)
Definition erase_one (c : DeletionContext) (records : list DeletionRecord) (m : M)
  : result string (option M) :=
  let ctx := b_context (c_book c) in
  kl ← target_of ctx m (c_transfer c);
  let key := kl.1 in
  correlation ← message_key ctx m (c_transfer c);
  match max_record (filter (fun r => matches r key correlation = true) records) with
  | None => Ok None
  | Some r =>
      if bool_decide (cm_deletion m = Some (marker r)) then Ok None
      else Ok (Some (cm_erase_content
             (cm_set_metadata (Some (erased_metadata (cm_metadata m) key correlation kl.2 (marker r))) m)))
  end.

Definition prepare (c : DeletionContext) (records : list DeletionRecord) : result string (list Erasure) :=
  try_fold (fun changes im =>
      o ← erase_one c records im.2;
      Ok (changes ++ match o with
                     | Some m => [new_erasure im.1 m (b_context (c_book c))]
                     | None => []
                     end))
    [] (imap pair (messages (c_log c))).

(** What an erased attachment leaves behind: itself and its preview. *)
Definition descriptor_of (m : Attachments.AttachmentManifest) : AttachmentDescriptor :=
  {| attachment_id := Attachments.attachment_id m; d_content_hash := Attachments.content_hash m;
     file_name := Attachments.file_name m; mime := Attachments.mime m;
     total_size := Attachments.total_size m; thumbnail_b64 := Attachments.m_thumbnail_b64 m;
     voice := Attachments.m_voice m |}.

Definition erasure_descriptors (t : T) (a : AttachmentDescriptor) : list AttachmentDescriptor :=
  a :: match previews t !! attachment_id a with Some p => [descriptor_of p] | None => [] end.

Definition visible_attachment_id (t : T) (i : string) : string :=
  match strip_suffix "/preview" i with
  | Some parent => if bool_decide (is_Some (previews t !! parent)) then parent else i
  | None => i
  end.

Definition cancels (c : DeletionContext) (e : Erasure) : bool :=
  match cm_deletion (e_message e) with
  | Some d => bool_decide (scope d = ForEveryone)
  | None => false
  end
  || match c_attempts c !! s_message_id (e_row e) with
     | None => true
     | Some a => bool_decide (ever_published a = Some false)
     end.

(** The records that bind this installation's user. *)
Definition relevant (owner : string) (r : DeletionRecord) : bool :=
  bool_decide (r_scope r = ForEveryone) || String.eqb (r_owner r) owner.

Definition new_plan (c : DeletionContext) (records : list DeletionRecord) : result string ErasurePlan :=
  let all := merge_all records (b_records (c_book c)) in
  owner ← map_err error_text (user (c_book c));
  changes ← prepare c (filter (fun r => relevant owner r = true) (btree_values String.le all));
  Ok {| p_merged := all; p_changes := changes;
        p_cancelled := list_to_set (map (fun e => s_message_id (e_row e))
                                      (filter (fun e => cancels c e = true) changes));
        p_attachments := flat_map (fun e =>
            match messages (c_log c) !! e_index e ≫= cm_attachment with
            | Some a => erasure_descriptors (c_transfer c) a
            | None => []
            end) changes |}.

Definition unchanged (p : ErasurePlan) (c : DeletionContext) (records : list DeletionRecord)
    (accepted : bool) : bool :=
  bool_decide (p_changes p = [])
  && forallb (fun r => bool_decide (p_merged p !! storage_key r = b_records (c_book c) !! storage_key r))
       records
  && (negb accepted
      || forallb (fun r => match r_request r with
                           | Some q => match request_hash q with
                                       | Ok d => in_set d (b_accepted (c_book c))
                                       | Err _ => false
                                       end
                           | None => false
                           end) (filter (fun r => is_confirmed r = true) records)).

(** ** Installing records *)

(** The store may have found another record stronger than the plan did. *)
Definition mark (markers : gmap string DeletionMarker) (e : Erasure) : Erasure :=
  match markers !! s_message_id (e_row e) with
  | Some mk =>
      {| e_index := e_index e; e_row := e_row e;
         e_message := cm_set_metadata (set_deletion mk <$> cm_metadata (e_message e)) (e_message e) |}
  | None => e
  end.

Definition store_plan (p : ErasurePlan) (records : list DeletionRecord) (accepted : bool)
  : method DeletionContext string ErasurePlan := fun c =>
  match b_store (c_book c) with
  | None => (c, Ok p)
  | Some s =>
      let '(s, r) := commit_message_deletions s records (map e_row (p_changes p)) (p_cancelled p)
                       (p_attachments p) accepted in
      (set_book (with_store (Some s) (c_book c)) c,
       markers ← r;
       Ok {| p_merged := p_merged p; p_changes := map (mark markers) (p_changes p);
             p_cancelled := p_cancelled p; p_attachments := p_attachments p |})
  end.

Definition receipt_digest (r : DeletionRecord) : result string string :=
  q ← ok_or (r_request r) "missing request"; request_hash q.

(** The digests of confirmed records join [accepted]; the first error stops. *)
Fixpoint accept_digests (rs : list DeletionRecord) : method DeletionContext string unit :=
  match rs with
  | [] => m_ret tt
  | r :: rs => fun c =>
      match receipt_digest r with
      | Err e => (c, Err e)
      | Ok d => accept_digests rs (set_book (with_accepted ({[ d ]} ∪ b_accepted (c_book c)) (c_book c)) c)
      end
  end.

Definition apply_change (cancelled : gset string) (c : DeletionContext) (e : Erasure) : DeletionContext :=
  {| c_book := c_book c;
     c_log := default (c_log c) (replace (e_index e) (e_message e) (c_log c));
     c_attempts := if in_set (s_message_id (e_row e)) cancelled
                   then delete (s_message_id (e_row e)) (c_attempts c) else c_attempts c;
     c_transfer := c_transfer c |}.

Definition carries (i : string) (m : M) : bool :=
  match cm_attachment m with Some a => String.eqb (attachment_id a) i | None => false end.

(** The transfer of an erased file is forgotten unless another message shows
    it.  ([clean_erased] only touches files.) *)
Definition drop_attachment (c : DeletionContext) (a : AttachmentDescriptor) : DeletionContext :=
  if existsb (carries (visible_attachment_id (c_transfer c) (attachment_id a))) (messages (c_log c))
  then c
  else {| c_book := c_book c; c_log := c_log c; c_attempts := c_attempts c;
          c_transfer := forget (attachment_id a) (c_transfer c) |}.

Definition apply_plan (p : ErasurePlan) (c : DeletionContext) : DeletionContext :=
  let c := set_book (with_records (p_merged p) (c_book c)) c in
  let c := foldl (apply_change (p_cancelled p)) c (p_changes p) in
  foldl drop_attachment c (p_attachments p).

Definition install (records : list DeletionRecord) (accepted : bool)
  : method DeletionContext string unit := fun c =>
  match new_plan c records with
  | Err e => (c, Err e)
  | Ok p =>
      if unchanged p c records accepted then (c, Ok tt)
      else (p <~ store_plan p records accepted;;
            accept_digests (if accepted then filter (fun r => is_receipt r = true) records else []) ;;;
            m_modify (apply_plan p)) c
  end.

(** [application::apply], run when a conversation is restored.  The cache it
    collects first is on disk only. *)
Definition apply_deletions : method DeletionContext string unit :=
  reload ;;; fun c =>
  let b := c_book c in
  if bool_decide (b_records b = ∅) then (c, Ok tt)
  else match map_err error_text (user b) with
       | Err e => (c, Err e)
       | Ok u => install (filter (fun r => relevant u r = true) (btree_values String.le (b_records b)))
                         false c
       end.

(** ** Deleting ([personal.rs], [shared.rs]) *)

Definition has_one (l : @MessageLog M) (i : string) : bool :=
  (length (filter (fun m => has_id i m = true) (messages l)) =? 1)%nat.

Definition validate_selection (l : @MessageLog M) (ids : list string)
  : result DeletionError (list string) :=
  if bool_decide (ids = []) || (1000 <? length ids)%nat
  then Err (InvalidInput "select between 1 and 1000 messages")
  else if forallb (has_one l) ids then Ok ids
  else Err (InvalidInput "selected message is missing or ambiguous").

Definition selected (l : @MessageLog M) (ids : list string) : list M :=
  filter (fun m => match cm_message_id m with
                   | Some i => bool_decide (i ∈ ids)
                   | None => false
                   end = true) (messages l).

Definition personal_record (ctx owner : string) (t : T) (m : M) : result DeletionError DeletionRecord :=
  kl ← map_err Internal (target_of ctx m t);
  correlation ← map_err Internal (message_key ctx m t);
  Ok {| r_context := ctx; r_key := kl.1;
        r_correlation := match correlation with
                         | Some alias => if String.eqb alias kl.1 then None else Some alias
                         | None => None
                         end;
        r_scope := ForMe; r_owner := owner; r_local_only := kl.2; r_status := Confirmed;
        r_administrator := None; r_request := None; r_ack := None |}.

Definition lift_error {A} (f : string -> DeletionError) (m : method DeletionContext string A)
  : method DeletionContext DeletionError A := fun c => let '(c, r) := m c in (c, map_err f r).

(** [DeviceIdentity::open] of the store, before a personal deletion; [generated]
    is the key drawn when the installation has none yet. *)
Definition open_identity (generated : bytes) (peer : option string)
  : method DeletionContext DeletionError unit := fun c =>
  match b_store (c_book c), peer with
  | Some s, Some peer =>
      let '(s, r) := @Identity.open _ _ ds_cell sha256 hex_decode content_to_vec roster_to_vec
                       delegation_to_vec identity_to_vec identity_from_slice s generated peer in
      (set_book (with_store (Some s) (c_book c)) c,
       _ ← map_err (fun e => Deletion.Persistence (text e)) r; Ok tt)
  | _, _ => (c, Ok tt)
  end.

Definition push_record {A} (f : A -> result DeletionError DeletionRecord) (acc : list DeletionRecord) (x : A)
  : result DeletionError (list DeletionRecord) := r ← f x; Ok (acc ++ [r]).

Definition delete_for_me (ids : list string) (peer : option string) (generated : bytes)
  : method DeletionContext DeletionError DeleteMessagesResult :=
  open_identity generated peer ;;;
  lift_error Deletion.Persistence reload ;;; fun c =>
  match (ids ← validate_selection (c_log c) ids;
         owner ← user (c_book c);
         try_fold (push_record (personal_record (b_context (c_book c)) owner (c_transfer c))) []
           (selected (c_log c) ids)) with
  | Err e => (c, Err e)
  | Ok records =>
      (lift_error Deletion.Persistence (install records false) ;;;
       m_ret {| deleted_count := length records;
                local_only_count := length (filter (fun r => r_local_only r = true) records);
                pending_count := 0 |}) c
  end.

(** The request for one message; [draw] is the randomness of its operation id. *)
Definition request_for (m : M) (ctx : string) (a : DeletionActor) (moderated : option bool)
    (draw : string) (sign : bytes -> result string string) : result DeletionError DeleteRequest :=
  moderated ← ok_or moderated PermissionDenied;
  _ ← guard_or (negb (cm_is_service m || bool_decide (is_Some (cm_deletion m))))
        (InvalidInput "message cannot be deleted for everyone");
  o ← ok_or (cm_origin m) PermissionDenied;
  let unsigned sig :=
    {| operation := occurrence_id "delete" draw; target := o; actor := a_key a;
       actor_name := of_chars (filter (fun ch => is_control ch = false) (take 64 (chars (a_name a))));
       moderated := moderated; epoch := a_epoch a; q_signature := sig; q_ownership := a_ownership a |} in
  input ← map_err Internal (request_input (unsigned ""));
  sig ← map_err Internal (sign input);
  _ ← map_err Internal (request_verify (unsigned sig) ctx);
  Ok (unsigned sig).

Definition shared_record (ctx : string) (a : DeletionActor) (permitted : M -> option bool)
    (sign : bytes -> result string string) (rm : string * M) : result DeletionError DeletionRecord :=
  q ← request_for rm.2 ctx a (permitted rm.2) rm.1 sign;
  map_err Internal (canonical q DPending None).

(** [random] gives the draw for each selected message. *)
Definition admit_shared (ids : list string) (a : DeletionActor) (permitted : M -> option bool)
    (random : nat -> string) (sign : bytes -> result string string)
  : method DeletionContext DeletionError DeleteMessagesResult := fun c =>
  match b_store (c_book c) with
  | None => (c, Err (Deletion.Persistence "shared deletion requires encrypted storage"))
  | Some _ =>
      match (ids ← validate_selection (c_log c) ids;
             try_fold (push_record (shared_record (b_context (c_book c)) a permitted sign)) []
               (imap (fun n m => (random n, m)) (selected (c_log c) ids))) with
      | Err e => (c, Err e)
      | Ok records =>
          (lift_error Deletion.Persistence (install records false) ;;;
           m_ret {| deleted_count := length records; local_only_count := 0;
                    pending_count := length records |}) c
      end
  end.

(** ** What an installation does *)

Context {deletable_laws : DeletableLaws M}.

(** *** Merging *)

Lemma merge_one_lookup rs r k :
  merge_one rs r !! k =
    if decide (k = storage_key r)
    then Some (match rs !! k with Some old => merged old r | None => r end) else rs !! k.
Proof.
  unfold merge_one. destruct (decide (k = storage_key r)) as [->|Hk].
  - by rewrite lookup_insert_eq.
  - by rewrite lookup_insert_ne.
Qed.

Lemma merged_either a b : merged a b = a \/ merged a b = b.
Proof. unfold merged. repeat case_match; auto. Qed.

(** A confirmation is never lost. *)
Lemma merged_confirmed a b :
  (r_status a = Confirmed -> r_scope a = ForEveryone -> r_status (merged a b) = Confirmed) /\
  (r_status b = Confirmed -> r_status (merged a b) = Confirmed).
Proof.
  unfold merged. split; intros H; [intros Hs; rewrite Hs, H|rewrite H];
    repeat case_bool_decide; try done; cbn; repeat case_match; try done.
Qed.

Lemma merge_all_keyed rs m : keyed m -> keyed (merge_all rs m).
Proof.
  unfold merge_all. revert m. induction rs as [|r rs IH]; intros m Hm; [done|]. apply IH.
  intros k x. rewrite merge_one_lookup. case_decide as Hk; [|by apply Hm]. subst k. intros [= <-].
  destruct (m !! storage_key r) as [old|] eqn:Ho; [|done].
  destruct (merged_either old r) as [->| ->]; [by apply Hm|done].
Qed.

(** Nothing enters a merge from elsewhere. *)
Lemma merge_all_from rs m k r :
  merge_all rs m !! k = Some r -> m !! k = Some r \/ (r ∈ rs /\ storage_key r = k).
Proof.
  unfold merge_all. revert m. induction rs as [|x rs IH]; intros m; cbn; [by left|].
  intros [Hm|[Hin Hk]]%IH; [|right; split; [by right|done]].
  rewrite merge_one_lookup in Hm. case_decide as Hkx; [|by left]. subst k. injection Hm as Hm.
  destruct (m !! storage_key x) as [old|]; [destruct (merged_either old x) as [Hx|Hx]|];
    rewrite ?Hx in Hm; subst r; [by left|right; split; [left|done]..].
Qed.

Lemma merge_all_absent rs m k : (forall r, r ∈ rs -> storage_key r <> k) -> merge_all rs m !! k = m !! k.
Proof.
  unfold merge_all. revert m. induction rs as [|r rs IH]; intros m Hrs; [done|]. cbn.
  rewrite IH by (intros x Hx; apply Hrs; by right).
  rewrite merge_one_lookup, decide_False; [done|]. intros ->. by apply (Hrs r); [left|].
Qed.

(** *** The plan *)

Lemma prepare_Ok c rs changes :
  prepare c rs = Ok changes ->
  (forall i m, messages (c_log c) !! i = Some m -> exists o, erase_one c rs m = Ok o /\
     forall e, e ∈ changes -> e_index e = i -> exists m', o = Some m' /\ e = new_erasure i m' (b_context (c_book c))) /\
  (forall i m m', messages (c_log c) !! i = Some m -> erase_one c rs m = Ok (Some m') ->
     new_erasure i m' (b_context (c_book c)) ∈ changes) /\
  NoDup (map e_index changes) /\
  forall e, e ∈ changes -> e_index e < length (messages (c_log c)).
Proof.
  unfold prepare. generalize (messages (c_log c)) as l. intros l. revert changes.
  induction l as [|m l IH] using rev_ind; intros changes Hf.
  { injection Hf as <-. split; [done|]. split; [done|]. split; [constructor|]. by intros e ?%elem_of_nil. }
  rewrite imap_app, try_fold_app in Hf. apply bind_Ok in Hf as (old & Hold & Hf).
  cbn [imap try_fold] in Hf. rewrite Nat.add_0_r in Hf. apply bind_Ok in Hf as (new & Hnew & [= <-]).
  apply bind_Ok in Hnew as (o & Ho & [= <-]). cbn [fst snd] in Ho.
  destruct (IH _ Hold) as (H1 & H2 & H3 & H4). clear IH Hold.
  set (fresh := match o with Some m0 => _ | None => _ end).
  assert (Hfresh : forall e, e ∈ fresh -> exists m', o = Some m' /\ e = new_erasure (length l) m' (b_context (c_book c))).
  { unfold fresh. destruct o as [m'|]; intros e; [|by intros ?%elem_of_nil].
    intros ->%list_elem_of_singleton. by exists m'. }
  split_and!.
  - intros i x. destruct (decide (i = length l)) as [->|Hi].
    + rewrite lookup_app_r, Nat.sub_diag by lia. intros [= <-]. exists o. split; [done|].
      intros e [He|He]%elem_of_app Hei; [apply H4 in He; lia|by apply Hfresh].
    + intros Hx. assert (Hlt : i < length l).
      { apply lookup_lt_Some in Hx. rewrite length_app in Hx. cbn in Hx. lia. }
      rewrite lookup_app_l in Hx by done. destruct (H1 i x Hx) as (o' & Ho' & He'). exists o'.
      split; [done|]. intros e [He|He]%elem_of_app Hei; [by apply He'|].
      apply Hfresh in He as (m' & _ & ->). cbn in Hei. lia.
  - intros i x x' Hx Hxx. apply elem_of_app. destruct (decide (i = length l)) as [->|Hi].
    + rewrite lookup_app_r, Nat.sub_diag in Hx by lia. injection Hx as ->. right. unfold fresh.
      rewrite Ho in Hxx. injection Hxx as ->. by left.
    + left. eapply H2; [|done]. assert (Hlt : i < length l).
      { apply lookup_lt_Some in Hx. rewrite length_app in Hx. cbn in Hx. lia. }
      by rewrite lookup_app_l in Hx.
  - rewrite map_app. apply NoDup_app. split_and!; [done| |].
    + intros i (e & -> & He)%list_elem_of_fmap Hi. apply list_elem_of_fmap in Hi as (e' & Hee & He').
      apply Hfresh in He' as (m' & _ & ->). apply H4 in He. cbn in Hee. lia.
    + unfold fresh. destruct o; cbn; [apply NoDup_singleton|constructor].
  - intros e [He|He]%elem_of_app; rewrite length_app; cbn; [apply H4 in He; lia|].
    apply Hfresh in He as (m' & _ & ->). cbn. lia.
Qed.

Lemma apply_changes_log cancelled changes c :
  NoDup (map e_index changes) -> (forall e, e ∈ changes -> e_index e < length (messages (c_log c))) ->
  let c' := foldl (apply_change cancelled) c changes in
  length (messages (c_log c')) = length (messages (c_log c)) /\
  (forall e, e ∈ changes -> messages (c_log c') !! e_index e = Some (e_message e)) /\
  (forall i, i ∉ map e_index changes -> messages (c_log c') !! i = messages (c_log c) !! i) /\
  c_book c' = c_book c.
Proof.
  revert c. induction changes as [|e changes IH]; intros c Hnd Hlt; cbn zeta.
  { split; [done|]. split; [by intros e ?%elem_of_nil|]. done. }
  cbn [map] in Hnd. apply NoDup_cons in Hnd as [Hn Hnd]. cbn [foldl].
  assert (Hmsgs : messages (c_log (apply_change cancelled c e)) = <[ e_index e := e_message e ]> (messages (c_log c))).
  { unfold apply_change, replace. cbn [c_log].
    rewrite (proj2 (Nat.ltb_lt _ _)) by (apply Hlt; by left). done. }
  destruct (IH (apply_change cancelled c e)) as (Hl & Hin & Hout & Hb); [done| |].
  { intros e' He'. rewrite Hmsgs, length_insert. apply Hlt. by right. }
  rewrite Hmsgs, length_insert in Hl. rewrite Hmsgs in Hout. split; [done|]. split_and!.
  - intros e' [->|He']%elem_of_cons; [|by apply Hin].
    rewrite Hout by done. apply list_lookup_insert_eq, Hlt. by left.
  - intros i Hi. rewrite Hout; [|intros H; apply Hi; by right].
    apply list_lookup_insert_ne. intros <-. apply Hi. by left.
  - by rewrite Hb.
Qed.

Lemma max_record_in rs r : max_record rs = Some r -> r ∈ rs.
Proof.
  unfold max_record. enough (H : forall best, foldl (fun best r => match best with
      | None => Some r | Some b => if rank_leb (rank b) (rank r) then Some r else Some b end) best rs = Some r ->
      best = Some r \/ r ∈ rs) by (intros H'; by destruct (H _ H')).
  induction rs as [|x rs IH]; intros best; cbn [foldl]; [by left|].
  intros [Hb|Hin]%IH; [|right; by right]. destruct best as [b|].
  - revert Hb. destruct (rank_leb (rank b) (rank x)); intros [= ->]; [right; by left|by left].
  - injection Hb as ->. right. by left.
Qed.

Lemma max_record_none rs : max_record rs = None -> rs = [].
Proof.
  unfold max_record. destruct rs as [|x rs]; [done|]. cbn [foldl]. intros H. exfalso. revert x H.
  induction rs as [|y rs IH]; intros x; [done|]. cbn [foldl].
  destruct (rank_leb (rank x) (rank y)); apply IH.
Qed.

(** Some record of [rs] names message [m] of [c]. *)
Definition bound_by (c : DeletionContext) (rs : list DeletionRecord) (m : M) : Prop :=
  exists kl correlation r, target_of (b_context (c_book c)) m (c_transfer c) = Ok kl /\
    message_key (b_context (c_book c)) m (c_transfer c) = Ok correlation /\
    r ∈ rs /\ matches r kl.1 correlation = true.

(** [m'] is [m] without its content; the proof of who sent it stays. *)
Definition erased_form (m m' : M) : Prop :=
  exists md mk, m' = cm_erase_content (cm_set_metadata (Some md) m) /\
    origin md = cm_origin m /\ deletion md = Some mk.

Lemma erased_tombstone m m' : erased_form m m' -> is_tombstone m' = true.
Proof using Type deletable_laws.
  intros (md & mk & -> & _ & Hd). unfold is_tombstone.
  by rewrite erase_metadata, set_metadata_metadata, Hd.
Qed.

Lemma erase_one_None c rs m : erase_one c rs m = Ok None -> bound_by c rs m -> is_tombstone m = true.
Proof.
  unfold erase_one. intros He (kl & cor & r & Hkl & Hcor & Hr & Hm). rewrite Hkl in He. cbn in He.
  rewrite Hcor in He. cbn in He.
  destruct (max_record _) as [x|] eqn:Hx.
  - destruct (bool_decide_reflect (cm_deletion m = Some (marker x))) as [Hd|]; [|done].
    unfold cm_deletion in Hd. unfold is_tombstone. destruct (cm_metadata m); [|done]. cbn in Hd. by rewrite Hd.
  - apply max_record_none in Hx. assert (Hin : r ∈ filter (fun r => matches r kl.1 cor = true) rs).
    { by apply list_elem_of_filter. }
    rewrite Hx in Hin. by apply elem_of_nil in Hin.
Qed.

Lemma erase_one_Some c rs m m' : erase_one c rs m = Ok (Some m') -> bound_by c rs m /\ erased_form m m'.
Proof.
  unfold erase_one. intros He. apply bind_Ok in He as (kl & Hkl & He). apply bind_Ok in He as (cor & Hcor & He).
  destruct (max_record _) as [x|] eqn:Hx; [|done]. case_bool_decide; [done|]. injection He as <-.
  apply max_record_in, list_elem_of_filter in Hx as [Hm Hin]. split; [by exists kl, cor, x|].
  eexists _, _. split; [reflexivity|]. split; [|reflexivity]. unfold cm_origin. cbn.
  by destruct (cm_metadata m).
Qed.

Lemma mark_erased markers c i m m' : erased_form m m' ->
  erased_form m (e_message (mark markers (new_erasure i m' c))).
Proof using Type deletable_laws.
  intros (md & mk & -> & Ho & Hd). unfold mark. cbn [e_row new_erasure s_message_id].
  destruct (markers !! _) as [mk'|]; [|by exists md, mk].
  exists (set_deletion mk' md), mk'. cbn [e_message new_erasure].
  rewrite erase_metadata, set_metadata_metadata. cbn [fmap option_fmap option_map].
  by rewrite erase_set_metadata, set_metadata_twice.
Qed.

Lemma store_plan_Ok p rs acc c c' p' : store_plan p rs acc c = (c', Ok p') ->
  c_log c' = c_log c /\ c_attempts c' = c_attempts c /\ c_transfer c' = c_transfer c /\
  b_records (c_book c') = b_records (c_book c) /\ b_accepted (c_book c') = b_accepted (c_book c) /\
  p_merged p' = p_merged p /\ p_cancelled p' = p_cancelled p /\ p_attachments p' = p_attachments p /\
  exists markers, p_changes p' = map (mark markers) (p_changes p).
Proof.
  unfold store_plan. destruct (b_store (c_book c)) as [s|].
  - destruct (commit_message_deletions _ _ _ _ _ _) as [s' [markers|e]]; [|done]. intros [= <- <-].
    split_and!; try done. by exists markers.
  - intros [= <- <-]. split_and!; try done. exists ∅.
    rewrite <-(map_id (p_changes p)) at 1. apply map_ext. intros e. unfold mark. by rewrite lookup_empty.
Qed.

Lemma accept_digests_same rs c c' r : accept_digests rs c = (c', r) ->
  c_log c' = c_log c /\ c_attempts c' = c_attempts c /\ c_transfer c' = c_transfer c /\
  b_records (c_book c') = b_records (c_book c) /\ b_store (c_book c') = b_store (c_book c) /\
  b_context (c_book c') = b_context (c_book c).
Proof.
  revert c. induction rs as [|x rs IH]; intros c; cbn [accept_digests]; [by intros [= <- _]|].
  destruct (receipt_digest x) as [d|e]; [|by intros [= <- _]].
  intros Ha. by apply IH in Ha.
Qed.

Lemma drop_attachments_same l c :
  c_log (foldl drop_attachment c l) = c_log c /\ c_book (foldl drop_attachment c l) = c_book c.
Proof.
  revert c. induction l as [|a l IH]; intros c; [done|]. cbn. destruct (IH (drop_attachment c a)) as [-> ->].
  unfold drop_attachment. by destruct (existsb _ _).
Qed.

Lemma unchanged_records p c rs acc :
  p_merged p = merge_all rs (b_records (c_book c)) -> unchanged p c rs acc = true ->
  p_changes p = [] /\ b_records (c_book c) = merge_all rs (b_records (c_book c)).
Proof.
  unfold unchanged. intros Hp [[Hc Hall]%andb_true_iff _]%andb_true_iff.
  split; [by apply bool_decide_eq_true in Hc|]. apply map_eq. intros k.
  destruct (decide (Exists (fun r => storage_key r = k) rs)) as [He|Hn].
  - apply Exists_exists in He as (r & Hr & <-). rewrite forallb_forall in Hall.
    apply list_elem_of_In in Hr. specialize (Hall r Hr). apply bool_decide_eq_true in Hall.
    by rewrite <-Hall, Hp.
  - rewrite merge_all_absent; [done|]. intros r Hr Hk. apply Hn, Exists_exists. by exists r.
Qed.

(** C14. Installing records erases what they name and nothing else: the book
    becomes the merge of the records into it; a message that no binding record
    names is left as it was; a message that one names is a tombstone, without
    its content and with the proof of who sent it; no message moves. *)
Theorem install_erases records accepted c c' :
  install records accepted c = (c', Ok tt) ->
  exists owner, user (c_book c) = Ok owner /\
  let all := merge_all records (b_records (c_book c)) in
  let binding := filter (fun r => relevant owner r = true) (btree_values String.le all) in
  b_records (c_book c') = all /\
  length (messages (c_log c')) = length (messages (c_log c)) /\
  forall i m, messages (c_log c) !! i = Some m -> exists m', messages (c_log c') !! i = Some m' /\
    (~ bound_by c binding m -> m' = m) /\
    (bound_by c binding m -> is_tombstone m' = true /\ (m' = m \/ erased_form m m')).
Proof using Type deletable_laws.
  unfold install. intros Hi. destruct (new_plan c records) as [p|e] eqn:Hp; [|done].
  unfold new_plan in Hp. apply bind_Ok in Hp as (owner & Ho%map_err_Ok & Hp).
  apply bind_Ok in Hp as (changes & Hch & Hp). exists owner. split; [done|]. cbn zeta.
  set (all := merge_all _ _) in *. set (binding := filter _ _) in *.
  destruct (prepare_Ok c binding changes Hch) as (Heach & Hpresent & Hnd & Hlt).
  assert (Hkeep : forall i m, messages (c_log c) !! i = Some m -> i ∉ map e_index changes ->
            (bound_by c binding m -> is_tombstone m = true)).
  { intros i m Hm Hn. destruct (Heach i m Hm) as ([m'|] & He & _); [|by apply erase_one_None].
    exfalso. apply Hn, list_elem_of_fmap. eexists. split; [|by eapply Hpresent]. done. }
  assert (Hmerged : p_merged p = all) by (by injection Hp as <-).
  assert (Hchanges : p_changes p = changes) by (by injection Hp as <-). clear Hp.
  destruct (unchanged p c records accepted) eqn:Hun.
  { injection Hi as <-. destruct (unchanged_records _ _ _ _ Hmerged Hun) as [Hnil Hrec].
    split; [done|]. split; [done|]. intros i m Hm. exists m. split; [done|]. split; [done|].
    intros Hb. split; [|by left]. eapply Hkeep; [done| |done]. rewrite <-Hchanges, Hnil. by intros ?%elem_of_nil. }
  apply m_bind_Ok in Hi as (c1 & p1 & Hs & Hi). apply m_bind_Ok in Hi as (c2 & [] & Ha & Hi).
  apply store_plan_Ok in Hs as (Hlog1 & _ & _ & _ & _ & Hm1 & _ & _ & markers & Hch1).
  apply accept_digests_same in Ha as (Hlog2 & _). injection Hi as <-. unfold apply_plan.
  destruct (drop_attachments_same (p_attachments p1)
    (foldl (apply_change (p_cancelled p1)) (set_book (with_records (p_merged p1) (c_book c2)) c2) (p_changes p1)))
    as [-> ->].
  assert (Hidx : map e_index (p_changes p1) = map e_index changes).
  { rewrite Hch1, map_map, Hchanges. apply map_ext. intros e. unfold mark. by destruct (markers !! _). }
  destruct (apply_changes_log (p_cancelled p1) (p_changes p1)
    (set_book (with_records (p_merged p1) (c_book c2)) c2)) as (Hlen & Hat & Hout & ->).
  { by rewrite Hidx. }
  { intros e. rewrite Hch1, Hchanges. intros (e' & -> & He')%list_elem_of_fmap. cbn [c_log set_book].
    rewrite Hlog2, Hlog1. apply Hlt in He'. unfold mark. by destruct (markers !! _). }
  cbn [c_log set_book] in Hlen, Hout. rewrite Hlog2, Hlog1 in Hlen, Hout.
  split; [cbn; by rewrite Hm1|]. split; [done|]. intros i m Hm.
  destruct (decide (i ∈ map e_index changes)) as [Hin|Hn].
  - apply list_elem_of_fmap in Hin as (e & -> & He).
    destruct (Heach _ m Hm) as (o & Ho' & Hone). destruct (Hone e He eq_refl) as (m' & -> & Hee).
    destruct (erase_one_Some _ _ _ _ Ho') as [Hb Hform].
    apply (mark_erased markers (b_context (c_book c)) (e_index e)) in Hform. rewrite <-Hee in Hform.
    exists (e_message (mark markers e)). split.
    + rewrite <-(Hat (mark markers e)).
      * f_equal. unfold mark. by destruct (markers !! _).
      * rewrite Hch1, Hchanges. by apply list_elem_of_fmap_2.
    + split; [by intros Hnb|]. intros _. split; [by eapply erased_tombstone|by right].
  - exists m. split; [by rewrite Hout by (by rewrite Hidx)|]. split; [done|].
    intros Hb. split; [by eapply Hkeep|by left].
Qed.

(** *** On every outcome *)

Lemma store_plan_any p rs acc c c' res : store_plan p rs acc c = (c', res) ->
  b_context (c_book c') = b_context (c_book c) /\ b_records (c_book c') = b_records (c_book c) /\
  b_accepted (c_book c') = b_accepted (c_book c) /\
  (b_store (c_book c') = None <-> b_store (c_book c) = None).
Proof.
  unfold store_plan. destruct (b_store (c_book c)) as [s|] eqn:Hs.
  - destruct (commit_message_deletions _ _ _ _ _ _) as [s' r]. intros [= <- <-]. done.
  - intros [= <- <-]. by rewrite Hs.
Qed.

Lemma apply_plan_book p c : c_book (apply_plan p c) = with_records (p_merged p) (c_book c).
Proof.
  unfold apply_plan. rewrite (proj2 (drop_attachments_same _ _)).
  assert (Hb : forall c0, c_book (foldl (apply_change (p_cancelled p)) c0 (p_changes p)) = c_book c0).
  { induction (p_changes p) as [|e l IH]; intros c0; [done|]. cbn [foldl]. by rewrite IH. }
  by rewrite Hb.
Qed.

(** The steps of an installation that changes something. *)
Lemma install_steps rs acc c c' res : install rs acc c = (c', res) ->
  (c' = c /\ (res = Ok tt -> exists p, new_plan c rs = Ok p /\ unchanged p c rs acc = true)) \/
  exists p, new_plan c rs = Ok p /\
    ((exists e, store_plan p rs acc c = (c', Err e) /\ res = Err e) \/
     exists c1 p1, store_plan p rs acc c = (c1, Ok p1) /\
       ((exists e, accept_digests (if acc then filter (fun r => is_receipt r = true) rs else []) c1 = (c', Err e)
           /\ res = Err e) \/
        exists c2, accept_digests (if acc then filter (fun r => is_receipt r = true) rs else []) c1 = (c2, Ok tt)
           /\ c' = apply_plan p1 c2 /\ res = Ok tt)).
Proof.
  unfold install. destruct (new_plan c rs) as [p|e] eqn:Hp; [|intros [= <- <-]; by left].
  destruct (unchanged p c rs acc) eqn:Hu.
  { intros [= <- <-]. left. split; [done|]. intros _. by exists p. }
  intros Hi. right. exists p. split; [done|]. unfold m_bind in Hi.
  destruct (store_plan p rs acc c) as [c1 [p1|e]]; [right; exists c1, p1|injection Hi as <- <-; left; by exists e].
  split; [done|]. destruct (accept_digests _ c1) as [c2 [[]|e]]; injection Hi as <- <-.
  - right. by exists c2.
  - left. by exists e.
Qed.

(** Whatever happens, the book holds what it held or the merge of the records. *)
Lemma install_records rs acc c c' res : install rs acc c = (c', res) ->
  b_context (c_book c') = b_context (c_book c) /\
  (b_store (c_book c') = None <-> b_store (c_book c) = None) /\
  (b_records (c_book c') = b_records (c_book c) \/
   b_records (c_book c') = merge_all rs (b_records (c_book c))).
Proof.
  intros [[-> _]|(p & Hp & Hi)]%install_steps; [split_and!; try done; by left|].
  assert (Hm : p_merged p = merge_all rs (b_records (c_book c))).
  { unfold new_plan in Hp. apply bind_Ok in Hp as (owner & _ & Hp).
    by apply bind_Ok in Hp as (changes & _ & [= <-]). }
  destruct Hi as [(e & Hs & ->)|(c1 & p1 & Hs & Hi)];
    pose proof (store_plan_any _ _ _ _ _ _ Hs) as (Hctx & Hrec & _ & Hst); [by auto|].
  apply store_plan_Ok in Hs as (_ & _ & _ & _ & _ & Hm1 & _).
  destruct Hi as [(e & Ha & ->)|(c2 & Ha & -> & ->)];
    apply accept_digests_same in Ha as (_ & _ & _ & Hrec' & Hst' & Hctx').
  - rewrite Hctx', Hrec', Hst'. by auto.
  - rewrite apply_plan_book. cbn [with_records b_context b_store b_records].
    rewrite Hctx', Hst'. split; [done|]. split; [done|]. right. congruence.
Qed.

Lemma accept_digests_out rs c c' res : accept_digests rs c = (c', res) ->
  b_accepted (c_book c) ⊆ b_accepted (c_book c') /\
  (res = Ok tt -> forall r d, r ∈ rs -> receipt_digest r = Ok d -> d ∈ b_accepted (c_book c')).
Proof.
  revert c. induction rs as [|x rs IH]; intros c; cbn [accept_digests].
  { intros [= <- _]. split; [done|]. by intros _ r d ?%elem_of_nil. }
  destruct (receipt_digest x) as [d0|e] eqn:Hx; [|by intros [= <- <-]].
  intros Ha. apply IH in Ha as [Hsub Hin]. cbn [set_book with_accepted c_book b_accepted] in Hsub.
  split; [etransitivity; [apply union_subseteq_r|exact Hsub]|].
  intros Hres r d [->|Hr]%elem_of_cons Hd; [|by eapply Hin].
  apply Hsub. rewrite Hd in Hx. injection Hx as ->. by apply elem_of_union_l, elem_of_singleton.
Qed.

(** A successful installation remembers the receipts it was asked to. *)
Lemma install_accepted rs acc c c' res : install rs acc c = (c', res) ->
  b_accepted (c_book c) ⊆ b_accepted (c_book c') /\
  (res = Ok tt -> acc = true -> forall r d, r ∈ rs -> is_receipt r = true ->
     receipt_digest r = Ok d -> d ∈ b_accepted (c_book c')).
Proof.
  intros [[-> Hu]|(p & _ & Hi)]%install_steps.
  { split; [done|]. intros Hres -> r d Hr Hrec Hd. destruct (Hu Hres) as (p & _ & Hun).
    unfold unchanged in Hun. apply andb_true_iff in Hun as [_ Hun]. cbn in Hun.
    rewrite forallb_forall in Hun. specialize (Hun r). unfold receipt_digest in Hd.
    apply bind_Ok in Hd as (q & Hq%ok_or_Ok & Hd). rewrite Hq, Hd in Hun.
    assert (Hin : in_set d (b_accepted (c_book c)) = true).
    { apply Hun, list_elem_of_In, list_elem_of_filter. split; [|done].
      by apply andb_true_iff in Hrec as [? _]. }
    by apply bool_decide_eq_true in Hin. }
  destruct Hi as [(e & Hs & ->)|(c1 & p1 & Hs & Hi)];
    apply store_plan_any in Hs as (_ & _ & Hacc & _); rewrite <-Hacc; [done|].
  destruct Hi as [(e & Ha & ->)|(c2 & Ha & -> & ->)]; apply accept_digests_out in Ha as [Hsub Hin]; [done|].
  rewrite apply_plan_book. split; [done|]. intros _ -> r d Hr Hrec Hd.
  apply (Hin eq_refl r d); [|done]. by apply list_elem_of_filter.
Qed.

(** *** Receipts are on disk first *)

Section Receipts.
Context {laws : DeletionStoreLaws St M (receipt_digest)}.

(** Every digest the book counts as accepted is in the store's table. *)
Definition receipts_saved (c : DeletionContext) : Prop :=
  forall s, b_store (c_book c) = Some s -> b_accepted (c_book c) ⊆ accepted_saved s.

Lemma accept_digests_in rs c c' res : accept_digests rs c = (c', res) ->
  (forall d, d ∈ b_accepted (c_book c') ->
     d ∈ b_accepted (c_book c) \/ exists r, r ∈ rs /\ receipt_digest r = Ok d).
Proof.
  revert c. induction rs as [|r rs IH]; intros c; cbn [accept_digests]; [by intros [= <- _] d; left|].
  destruct (receipt_digest r) as [d0|e] eqn:Hr; [|by intros [= <- _] d; left].
  intros Ha d Hd. apply IH with (d := d) in Ha; [|done].
  destruct Ha as [Hin|(x & Hx & Hxd)].
  - cbn [set_book with_accepted c_book b_accepted] in Hin. apply elem_of_union in Hin as [Hin|Hin]; [|by left].
    apply elem_of_singleton in Hin as ->. right. exists r. split; [by left|done].
  - right. exists x. split; [by right|done].
Qed.

Lemma install_receipts rs acc c c' res : install rs acc c = (c', res) -> receipts_saved c ->
  receipts_saved c'.
Proof using Type laws.
  intros Hi Hinv. apply install_steps in Hi as [[-> _]|(p & _ & Hi)]; [done|].
  assert (Hplan : forall c1 r1, store_plan p rs acc c = (c1, r1) -> receipts_saved c1 /\
            (forall p1 s, r1 = Ok p1 -> b_store (c_book c1) = Some s -> acc = true ->
               forall r d, r ∈ rs -> is_receipt r = true -> receipt_digest r = Ok d -> d ∈ accepted_saved s)).
  { unfold store_plan, receipts_saved. intros c1 r1. destruct (b_store (c_book c)) as [s|] eqn:Hs.
    - destruct (commit_message_deletions _ _ _ _ _ _) as [s' r] eqn:Hc. intros [= <- <-]. split.
      + intros x [= <-]. cbn. etransitivity; [by apply Hinv|]. by apply commit_keeps in Hc as [? _].
      + intros p1 x Hok [= <-] ->. destruct r as [ms|e]; [|done]. by eapply commit_ok.
    - intros [= <- _]. rewrite Hs. done. }
  destruct Hi as [(e & Hs & ->)|(c1 & p1 & Hs & Hi)]; [by apply Hplan in Hs as [? _]|].
  apply Hplan in Hs as [Hinv1 Hfiled].
  assert (Hdig : forall c2 r2, accept_digests (if acc then filter (fun r => is_receipt r = true) rs else []) c1
            = (c2, r2) -> receipts_saved c2).
  { intros c2 r2 Ha s Hs2 d Hd. pose proof (accept_digests_same _ _ _ _ Ha) as (_ & _ & _ & _ & Hst & _).
    rewrite Hst in Hs2.
    destruct (accept_digests_in _ _ _ _ Ha d Hd) as [Hin|(r & Hr & Hrd)]; [by eapply Hinv1|].
    destruct acc; [|by apply elem_of_nil in Hr]. apply list_elem_of_filter in Hr as [Hrec Hr].
    by eapply Hfiled. }
  destruct Hi as [(e & Ha & ->)|(c2 & Ha & -> & ->)]; apply Hdig in Ha; [done|].
  unfold receipts_saved. by rewrite apply_plan_book.
Qed.
End Receipts.
End Deletions.

(** ** Examples

    A group message, no transfers, and a store that keeps its two tables as
    they are. *)

#[export] Instance group_deletable : DeletableMessage GroupMessage := {|
  cm_attachment := attachment; cm_call_id _ := None;
  cm_is_service m := bool_decide (is_Some (name_change m));
|}.
#[export] Instance group_deletable_laws : DeletableLaws GroupMessage.
Proof. by split. Qed.

#[local] Existing Instance toy_json.
#[local] Instance no_transfers : TransferOps unit :=
  {| manifest_for _ _ := None; previews _ := ∅; forget _ t := t |}.

Record Tables := { records_table : gmap string DeletionRecord; accepted_table : gset string }.

Definition toy_digest : DeletionRecord -> result string string := receipt_digest toy_sha.

#[local] Instance toy_store : DeletionStore Tables GroupMessage := {|
  ds_cell := {| Store.cell_get _ := Ok None; Store.cell_replace s _ _ := (s, Ok false);
                Store.cell_init s b := (s, Ok b); Store.cell_content _ := None |};
  accepted_deletions s _ := Ok (accepted_table s);
  deletion_records s ctx :=
    Ok (filter (fun r => r_context r = ctx /\ records_table s !! storage_key r = Some r)
          (btree_values String.le (records_table s)));
  commit_message_deletions s rs _ _ _ acc :=
    ({| records_table := merge_all rs (records_table s);
        accepted_table := if acc then list_to_set (omap (fun r => if is_receipt r then res_ok (toy_digest r) else None) rs)
                                      ∪ accepted_table s
                          else accepted_table s |}, Ok ∅);
  saved := records_table;
  accepted_saved := accepted_table;
|}.

#[local] Instance toy_store_laws : DeletionStoreLaws Tables GroupMessage toy_digest.
Proof.
  split; cbn.
  - intros s rs rows cancelled files acc s' ms [= <- _]. split; [done|]. cbn. intros -> r d Hr Hrec Hd.
    apply elem_of_union_l, elem_of_list_to_set, list_elem_of_omap. exists r. by rewrite Hrec, Hd.
  - intros s rs rows cancelled files acc s' res [= <- _]. split; [|by right]. cbn.
    destruct acc; [apply union_subseteq_r|done].
Qed.

#[local] Instance toy_json' : ErasureJson := {|
  json_to_vec _ := Ok []; manifest_to_vec _ := Ok []; message_to_vec _ := Ok [];
  message_from_slice _ := Err "malformed"; content_to_vec := toy_content;
  roster_to_vec := toy_roster_bytes; identity_to_vec _ := Ok []; identity_from_slice _ := Err "malformed";
  b64_encode := Fragments.toy_encode; b64_decode := Fragments.toy_decode;
|}.

(** Bob's copy of alice's message, and one he wrote. *)
Definition from_alice : GroupMessage :=
  cm_set_metadata (Some {| origin := Some (alice_origin "a"); deletion := None; deletion_key := None;
    personal_correlation := None; can_delete_for_everyone := false; local_only := false; is_own := None |})
    (Messages.text "a" "secret").
Definition bob_log : @MessageLog GroupMessage := push (Messages.text "b" "hello") (push from_alice default_log).

Definition bob_book : DeletionBook Tables :=
  {| b_context := "group:club"; b_store := Some {| records_table := ∅; accepted_table := ∅ |};
     b_records := ∅; b_accepted := ∅; b_last_sync := 0; b_fragments := Fragments.empty_buffer |}.
Definition bob_context : @DeletionContext GroupMessage unit Tables :=
  {| c_book := bob_book; c_log := bob_log; c_attempts := ∅; c_transfer := tt |}.

Definition toy_install := install (T := unit) (St := Tables) toy_sha hex_bytes.
Definition bob_after : @DeletionContext GroupMessage unit Tables :=
  (toy_install [alice_record "a"] false bob_context).1.

Lemma install_erases_witness :
  exists m', messages (c_log bob_after) !! 0 = Some m' /\
    is_tombstone m' = true /\ (m' = from_alice \/ erased_form from_alice m').
Proof.
  assert (Hi : toy_install [alice_record "a"] false bob_context = (bob_after, Ok tt)).
  { apply surjective_pairing_eq. vm_compute. reflexivity. }
  destruct (install_erases (T := unit) (St := Tables) toy_sha hex_bytes [alice_record "a"] false bob_context bob_after Hi)
    as (owner & Ho & _ & _ & Hat).
  assert (owner = "local") as -> by (vm_compute in Ho; congruence).
  destruct (Hat 0 from_alice) as (m' & Hm' & _ & Hb); [vm_compute; reflexivity|].
  exists m'. split; [exact Hm'|]. apply Hb. exists (r_key (alice_record "a"), false), (Some (hex_string (toy_sha []))), (alice_record "a").
  split; [vm_compute; reflexivity|]. split; [vm_compute; reflexivity|]. split; [|vm_compute; reflexivity].
  apply list_elem_of_filter. split; [vm_compute; reflexivity|].
  apply elem_of_btree_values. exists (storage_key (alice_record "a")). vm_compute. reflexivity.
Defined.

Example bob_keeps_the_rest :
  cm_body <$> messages (c_log bob_after) = [""; "hello"].
Proof. vm_compute. reflexivity. Qed.
End Erasure.
