(* ===== verification/Exchange.v ===== *)
(** * Exchange: deletion between peers ([message_deletion/])

    Conversations exchange their shared deletions in pages: a peer asks
    ([RequestM]), answers with records ([StateM]) and acknowledges what it has
    saved ([AckM]); a message too long for the wire travels as fragments.  This
    file models what a carrier's message does ([receive.rs], [shared.rs],
    [fragments.rs]), the loss of rights ([lifecycle.rs]) and what the user is
    shown ([snapshot.rs]). *)
From S2P Require Import Prelude Store Devices Identity Messages Attachments Fragments Deletion Erasure.

Module Exchange.
Import Devices Identity Messages Deletion Erasure.

#[local] Open Scope mosh_scope.
#[local] Set Default Proof Using "Type".

Section Exchange.
Context {scheme : Ed25519} {json : DeletionJson} {json' : ErasureJson}.
Context {M : Type} {msg : ConversationMessage M} {deletable : DeletableMessage M}.
Context {T : Type} {transfer : TransferOps T} {St : Type} {store : DeletionStore St M}.
Variable sha256 : bytes -> bytes.
Variable hex_decode : string -> result string bytes.

Abbreviation request_hash := (request_hash sha256).
Abbreviation validate := (validate sha256 hex_decode).
Abbreviation verify_record := (verify_record sha256 hex_decode).
Abbreviation request_verify := (request_verify sha256 hex_decode).
Abbreviation ack_verify := (ack_verify sha256 hex_decode).
Abbreviation canonical := (canonical sha256).
Abbreviation may_ack := (may_ack sha256 hex_decode).
Abbreviation may_ack_with_proof := (may_ack_with_proof sha256 hex_decode).
Abbreviation member_with_proof := (member_with_proof sha256 hex_decode).
Abbreviation authored := (authored sha256 hex_decode).
Abbreviation install := (install sha256 hex_decode).
Abbreviation DeletionContext := (@DeletionContext M T St).

(** ** Fragments ([fragments.rs]) *)

Definition split (m : DeletionMessage) : result string (list DeletionMessage) :=
  b ← message_to_vec m;
  if (Fragments.len b <=? Fragments.CHUNK)%N then Ok [m]
  else fs ← Fragments.split_bytes sha256 b64_encode b; Ok (map FragmentM fs).

Definition assemble (carrier : string) (m : DeletionMessage)
  : method DeletionContext string (option DeletionMessage) := fun c =>
  match m with
  | FragmentM f =>
      let '(fb, r) := Fragments.add sha256 b64_decode carrier f (b_fragments (c_book c)) in
      (set_book (with_fragments fb (c_book c)) c,
       page ← r;
       match page with
       | None => Ok None
       | Some b =>
           m ← message_from_slice b;
           match m with FragmentM _ => Err "nested deletion fragments" | _ => Ok (Some m) end
       end)
  | _ => (c, Ok (Some m))
  end.

(** ** Taking and acknowledging records ([shared.rs]) *)

Definition with_receipt (k : DeleteAck) (r : DeletionRecord) : DeletionRecord :=
  {| r_context := r_context r; r_key := r_key r; r_correlation := r_correlation r; r_scope := r_scope r;
     r_owner := r_owner r; r_local_only := r_local_only r; r_status := Confirmed;
     r_administrator := r_administrator r; r_request := r_request r; r_ack := Some k |}.

(** The record as it is installed: with this installation's receipt, when it
    may give one. *)
Definition accepted_form (r : DeletionRecord) (q : DeleteRequest) (a : DeletionActor) (may : bool)
    (sign : bytes -> result string string) : result string DeletionRecord :=
  if bool_decide (r_ack r = None) && may && negb (String.eqb (a_key a) (actor q))
  then
    d ← request_hash q;
    let unsigned sig := {| request_digest := d; k_actor := a_key a; k_signature := sig;
                           k_ownership := a_ownership a |} in
    input ← ack_input (unsigned "");
    sig ← sign input;
    Ok (with_receipt (unsigned sig) r)
  else Ok r.

Definition receipt_reply (a : DeletionActor) (r : DeletionRecord) : option DeletionMessage :=
  match r_ack r with
  | Some k => if String.eqb (k_actor k) (a_key a) then Some (AckM (r_key r) k) else None
  | None => None
  end.

Definition accept (r : DeletionRecord) (a : DeletionActor) (may : bool)
    (sign : bytes -> result string string) : method DeletionContext string (option DeletionMessage) :=
  fun c =>
  match (q ← verify_record r (b_context (c_book c));
         _ ← guard_or (bool_decide (is_Some (b_store (c_book c)))) "cannot acknowledge unsaved deletion";
         accepted_form r q a may sign) with
  | Err e => (c, Err e)
  | Ok accepted => (install [accepted] true ;;; m_ret (receipt_reply a accepted)) c
  end.

Definition has_digest (d : string) (r : DeletionRecord) : bool :=
  match r_request r with
  | Some q => match request_hash q with Ok d' => String.eqb d' d | Err _ => false end
  | None => false
  end.

Definition acknowledge (key : string) (k : DeleteAck) : method DeletionContext string unit := fun c =>
  match find (fun r => String.eqb (r_key r) key && has_digest (request_digest k) r)
          (btree_values String.le (b_records (c_book c))) with
  | None => (c, Ok tt)
  | Some r =>
      if bool_decide (r_status r = Rejected) then (c, Ok tt)
      else match (q ← ok_or (r_request r) "missing request"; ack_verify k q) with
           | Err e => (c, Err e)
           | Ok _ => install [with_receipt k r] true c
           end
  end.

(** ** A carrier's message ([receive.rs]) *)

Definition currently_admissible (a : DeletionAuthority) (carrier : string) (r : DeletionRecord)
    (ctx : string) : result string DeletionRecord :=
  q ← verify_record r ctx;
  if is_ok (validate a r carrier) then Ok r
  else
    _ ← (if is_confirmed r then Ok tt else validate a r carrier);
    pending ← canonical q DPending None;
    _ ← validate a pending carrier;
    Ok pending.

(** One record of a page: the receipt it earns, if any. *)
Definition receive_record (a : DeletionAuthority) (carrier : string)
    (sign : bytes -> result string string) (r : DeletionRecord)
  : method DeletionContext string (list DeletionMessage) := fun c =>
  match currently_admissible a carrier r (b_context (c_book c)) with
  | Err e => (c, Err e)
  | Ok r =>
      if bool_decide (r_status r = DPending) && bool_decide (a_ownership (local a) = None)
      then (c, Ok [])
      else match ok_or (r_request r) "missing request" with
           | Err e => (c, Err e)
           | Ok q =>
               (reply <~ accept r (local a) (may_ack a q (a_key (local a))) sign;;
                m_ret (match reply with Some m => [m] | None => [] end)) c
           end
  end.

Fixpoint receive_records (a : DeletionAuthority) (carrier : string)
    (sign : bytes -> result string string) (rs : list DeletionRecord)
  : method DeletionContext string (list DeletionMessage) :=
  match rs with
  | [] => m_ret []
  | r :: rs =>
      replies <~ receive_record a carrier sign r;;
      more <~ receive_records a carrier sign rs;;
      m_ret (replies ++ more)
  end.

Definition receive_state (a : DeletionAuthority) (carrier : string)
    (sign : bytes -> result string string) (rs : list DeletionRecord) (next : option string)
  : method DeletionContext string (list DeletionMessage) :=
  if (16 <? length rs)%nat || match next with Some n => (1024 <? str_len n)%N | None => false end
  then m_lift (Err "deletion page too large")
  else
    replies <~ receive_records a carrier sign rs;;
    m_ret (replies ++ match next with Some n => [RequestM (Some n) None] | None => [] end).

Definition receive_request (a : DeletionAuthority) (records : gmap string DeletionRecord)
    (after digest : option string) : result string (list DeletionMessage) :=
  local_digest ← digest_of sha256 hex_decode a records;
  if bool_decide (after = None) && bool_decide (digest = Some local_digest) then Ok []
  else
    let '(rs, next) := page sha256 hex_decode a records after in
    Ok (StateM rs next ::
        if bool_decide (after = None) && bool_decide (is_Some digest)
           && bool_decide (is_Some (a_ownership (local a)))
        then [RequestM None (Some local_digest)] else []).

Definition receive_ack (a : DeletionAuthority) (carrier key : string) (k : DeleteAck)
  : method DeletionContext string (list DeletionMessage) := fun c =>
  let record := find (has_digest (request_digest k)) (btree_values String.le (b_records (c_book c))) in
  match record, record ≫= r_request with
  | Some r, Some q =>
      match (_ ← validate a r carrier;
             guard_or (String.eqb (k_actor k) carrier && may_ack_with_proof a q carrier (k_ownership k))
               "ineligible acknowledgement carrier") with
      | Err e => (c, Err e)
      | Ok _ => (acknowledge key k ;;; m_ret []) c
      end
  | _, _ => (c, Ok [])
  end.

Definition handle (a : DeletionAuthority) (carrier : string) (sign : bytes -> result string string)
    (m : DeletionMessage) : method DeletionContext string (list DeletionMessage) :=
  match m with
  | FragmentM _ => m_lift (Err "unexpected deletion fragment")
  | RequestM after digest => fun c => (c, receive_request a (b_records (c_book c)) after digest)
  | StateM rs next => receive_state a carrier sign rs next
  | AckM key k => receive_ack a carrier key k
  end.

Definition receive (m : DeletionMessage) (carrier : string) (a : DeletionAuthority)
    (sign : bytes -> result string string) : method DeletionContext string (list DeletionMessage) :=
  if negb (member a carrier) then m_lift (Err "unknown deletion carrier")
  else
    whole <~ assemble carrier m;;
    match whole with
    | None => m_ret []
    | Some m => handle a carrier sign m
    end.

(** ** Losing rights ([lifecycle.rs]) *)

Definition rejected (r : DeletionRecord) : DeletionRecord :=
  {| r_context := r_context r; r_key := r_key r; r_correlation := r_correlation r; r_scope := r_scope r;
     r_owner := r_owner r; r_local_only := r_local_only r; r_status := Rejected;
     r_administrator := r_administrator r; r_request := r_request r; r_ack := r_ack r |}.

Definition personal_rejection (c : DeletionContext) (r : DeletionRecord) (q : DeleteRequest)
    (owner : string) : result string DeletionRecord :=
  correlation ← match find (has_id (id (target q))) (messages (c_log c)) with
                | Some m => message_key sha256 (b_context (c_book c)) m (c_transfer c)
                | None => Ok None
                end;
  Ok {| r_context := r_context r; r_key := r_key r; r_correlation := correlation; r_scope := ForMe;
        r_owner := owner; r_local_only := false; r_status := Confirmed; r_administrator := None;
        r_request := None; r_ack := None |}.

(** The pending record of a request by [key] that [permitted] no longer allows. *)
Definition withdrawn (key : string) (permitted : DeleteRequest -> bool) (r : DeletionRecord)
  : option DeleteRequest :=
  match r_request r with
  | Some q => if bool_decide (r_status r = DPending) && String.eqb (actor q) key && negb (permitted q)
              then Some q else None
  | None => None
  end.

Definition reject_local_pending (key : string) (permitted : DeleteRequest -> bool)
  : method DeletionContext string unit :=
  reload ;;; fun c =>
  if bool_decide (b_records (c_book c) = ∅) then (c, Ok tt)
  else
    match (owner ← map_err error_text (user sha256 hex_decode (c_book c));
           try_fold (fun changes r =>
               match withdrawn key permitted r with
               | None => Ok changes
               | Some q => p ← personal_rejection c r q owner; Ok (changes ++ [rejected r; p])
               end) [] (btree_values String.le (b_records (c_book c)))) with
    | Err e => (c, Err e)
    | Ok changes => install changes false c
    end.

Definition reconcile (a : DeletionAuthority) (leaving : bool) : method DeletionContext string unit :=
  reject_local_pending (a_key (local a)) (fun q =>
    negb leaving && member_with_proof a (actor q) (q_ownership q)
    && (negb (moderated q) || in_set (actor q) (admins a))).

Definition cancel_pending (key : string) : method DeletionContext string unit :=
  reject_local_pending key (fun _ => false).

(** ** What the user sees ([snapshot.rs]) *)

Definition snapshot_message (t : T) (b : DeletionBook St) (a : option DeletionAuthority) (m : M) : M :=
  let local := match target_of sha256 (b_context b) m t with Ok kl => kl.2 | Err _ => true end in
  let md := default no_metadata (cm_metadata m) in
  let can := negb (cm_is_service m) && bool_decide (deletion md = None)
             && bool_decide (is_Some (b_store b))
             && match origin md with
                | Some o =>
                    String.eqb (conversation o) (b_context b)
                    && is_ok (origin_verify_signature sha256 hex_decode o)
                    && match a with
                       | Some a => bool_decide (is_Some (permitted sha256 hex_decode a o))
                       | None => false
                       end
                | None => false
                end in
  cm_set_metadata
    (Some {| origin := origin md; deletion := deletion md; deletion_key := deletion_key md;
             personal_correlation := personal_correlation md; can_delete_for_everyone := can;
             local_only := local;
             is_own := match origin md with
                       | Some o => (fun a => is_author sha256 hex_decode a o) <$> a
                       | None => is_own md
                       end |}) m.

Definition snapshot (l : @MessageLog M) (t : T) (b : DeletionBook St) (a : option DeletionAuthority)
  : list M := map (snapshot_message t b a) (visible l).

(** ** Who can make this installation erase *)

(** An administrator stands behind the request: as the carrier, or as a member
    of another account who may acknowledge it. *)
Definition backed (a : DeletionAuthority) (carrier : string) (q : DeleteRequest) : Prop :=
  carrier ∈ admins a \/ exists key proof, key ∈ admins a /\ may_ack_with_proof a q key proof = true.

(** The request was admitted here before; or it is not ahead of this epoch, and
    its actor's account wrote the message or an administrator moderates. *)
Definition entitled (a : DeletionAuthority) (carrier : string) (q : DeleteRequest) : Prop :=
  (exists d, request_hash q = Ok d /\ d ∈ accepted_before a) \/
  ((epoch q <= a_epoch (local a))%N /\
   if moderated q then actor q ∈ admins a \/ backed a carrier q else authored a q = true).

Lemma in_set_true k s : in_set k s = true <-> k ∈ s.
Proof. unfold in_set. apply bool_decide_eq_true. Qed.

Lemma endorsed_backed a r q carrier : endorsed sha256 hex_decode a r q carrier = true -> backed a carrier q.
Proof.
  unfold endorsed, backed. intros [_ He]%andb_true_iff. apply orb_true_iff in He as [He|He].
  - left. by apply in_set_true.
  - destruct (r_ack r) as [k|]; [|done]. apply andb_true_iff in He as [Ha Hm].
    right. exists (k_actor k), (k_ownership k). split; [by apply in_set_true|done].
Qed.

Lemma validate_entitled a r carrier q u :
  validate a r carrier = Ok u -> r_request r = Some q -> member a carrier = true /\ entitled a carrier q.
Proof.
  unfold Deletion.validate. intros Hv Hq. apply bind_Ok in Hv as ([] & Hm%guard_or_Ok & Hv).
  rewrite Hq in Hv. cbn in Hv. split; [done|]. unfold entitled.
  apply bind_Ok in Hv as (known & Hk & Hv). destruct known.
  - left. destruct (is_confirmed r); [|done]. apply bind_Ok in Hk as (d & Hd & [= Hin]).
    exists d. split; [done|]. by apply in_set_true.
  - right. clear Hk. apply bind_Ok in Hv as ([] & He%guard_or_Ok & Hv).
    apply bind_Ok in Hv as ([] & Hr%guard_or_Ok & _).
    apply negb_true_iff, orb_false_iff in He as [He%N.ltb_ge _]. split; [done|].
    destruct (moderated q); [|done]. apply orb_true_iff in Hr as [Hr|Hr].
    + left. by apply in_set_true.
    + right. by eapply endorsed_backed.
Qed.

(** A record that arrived and may be installed. *)
Definition lawful (a : DeletionAuthority) (carrier ctx : string) (r : DeletionRecord) : Prop :=
  exists q, r_request r = Some q /\ request_verify q ctx = Ok tt /\ entitled a carrier q.

Lemma canonical_request q st ack r : canonical q st ack = Ok r ->
  r_request r = Some q /\ r_status r = st /\ r_ack r = ack.
Proof. unfold Deletion.canonical. intros (key & _ & [= <-])%bind_Ok. done. Qed.

Lemma currently_admissible_lawful a carrier r ctx r' :
  currently_admissible a carrier r ctx = Ok r' -> lawful a carrier ctx r'.
Proof.
  unfold currently_admissible. intros Hc. apply bind_Ok in Hc as (q & Hq & Hc).
  apply verify_record_iff in Hq as (Hreq & Hver & _ & _).
  destruct (is_ok (validate a r carrier)) eqn:Hv.
  - injection Hc as <-. destruct (validate a r carrier) as [u|] eqn:Hu; [|done].
    exists q. split; [done|]. split; [done|]. by eapply validate_entitled.
  - apply bind_Ok in Hc as ([] & _ & Hc). apply bind_Ok in Hc as (p & Hp%canonical_request & Hc).
    apply bind_Ok in Hc as (u & Hu & [= <-]). destruct Hp as (Hpq & _).
    exists q. split; [done|]. split; [done|]. by eapply validate_entitled.
Qed.

Lemma accepted_form_request r q a may sign r' :
  accepted_form r q a may sign = Ok r' -> r_request r' = r_request r.
Proof.
  unfold accepted_form. destruct (_ && _); [|by intros [= <-]].
  intros Hf. apply bind_Ok in Hf as (d & _ & Hf). apply bind_Ok in Hf as (input & _ & Hf).
  by apply bind_Ok in Hf as (sig & _ & [= <-]).
Qed.

(** A step adds to the book nothing but records that satisfy [P]. *)
Definition only_adds (P : DeletionRecord -> Prop) (c c' : DeletionContext) : Prop :=
  b_context (c_book c') = b_context (c_book c) /\
  (b_store (c_book c') = None <-> b_store (c_book c) = None) /\
  forall k r, b_records (c_book c') !! k = Some r -> b_records (c_book c) !! k = Some r \/ P r.

#[local] Instance only_adds_preorder P : PreOrder (only_adds P).
Proof.
  split; [intros c; split_and!; auto|]. intros c1 c2 c3 (H1 & H2 & H3) (H4 & H5 & H6).
  split; [congruence|]. split; [tauto|]. intros k r [Hr|]%H6; [by apply H3|by right].
Qed.

Lemma install_only_adds (P : DeletionRecord -> Prop) rs acc c c' res :
  install rs acc c = (c', res) -> (forall r, r ∈ rs -> P r) -> only_adds P c c'.
Proof.
  intros Hi HP. apply install_records in Hi as (Hctx & Hst & Hrec). split; [done|]. split; [done|].
  intros k r Hr. destruct Hrec as [Hrec|Hrec]; rewrite Hrec in Hr; [by left|].
  apply merge_all_from in Hr as [Hr|[Hr _]]; [by left|right; by apply HP].
Qed.

Lemma accept_only_adds a carrier r may sign c c' res ctx :
  accept r (local a) may sign c = (c', res) -> lawful a carrier ctx r ->
  only_adds (lawful a carrier ctx) c c'.
Proof.
  unfold accept. intros Ha (q & Hq & Hver & Hen).
  destruct (_ ≫= _) as [r'|e] eqn:Hr; [|by injection Ha as <- _].
  apply bind_Ok in Hr as (q' & _ & Hr). apply bind_Ok in Hr as ([] & _ & Hr%accepted_form_request).
  unfold m_bind in Ha. destruct (install [r'] true c) as [c1 [u|e]] eqn:Hi; injection Ha as <- _;
    (eapply install_only_adds; [exact Hi|]; intros x ->%list_elem_of_singleton; exists q;
     by rewrite Hr).
Qed.

Lemma receive_record_only_adds a carrier sign r c c' res :
  receive_record a carrier sign r c = (c', res) ->
  only_adds (lawful a carrier (b_context (c_book c))) c c'.
Proof.
  unfold receive_record. destruct (currently_admissible _ _ _ _) as [r'|e] eqn:Hc; [|by intros [= <- _]].
  apply currently_admissible_lawful in Hc. destruct (_ && _); [by intros [= <- _]|].
  destruct (ok_or _ _) as [q|e]; [|by intros [= <- _]]. unfold m_bind.
  destruct (accept _ _ _ _ c) as [c1 [o|e]] eqn:Ha; intros [= <- _]; by eapply accept_only_adds.
Qed.

Lemma receive_records_only_adds a carrier sign rs c c' res :
  receive_records a carrier sign rs c = (c', res) ->
  only_adds (lawful a carrier (b_context (c_book c))) c c'.
Proof.
  revert c res. induction rs as [|r rs IH]; intros c res; cbn [receive_records]; [by intros [= <- _]|].
  unfold m_bind. destruct (receive_record a carrier sign r c) as [c1 [l|e]] eqn:Hr;
    apply receive_record_only_adds in Hr as Hr'; [|by intros [= <- _]].
  destruct (receive_records a carrier sign rs c1) as [c2 [l'|e]] eqn:Hrs; intros [= <- _];
    apply IH in Hrs; rewrite (proj1 Hr') in Hrs; by transitivity c1.
Qed.

(** A receipt a carrier brought for a record of the book. *)
Definition acknowledged (a : DeletionAuthority) (carrier : string) (c : DeletionContext)
    (r : DeletionRecord) : Prop :=
  exists r0 q k, r0 ∈ btree_values String.le (b_records (c_book c)) /\ r_request r0 = Some q /\
    r = with_receipt k r0 /\ ack_verify k q = Ok tt /\ k_actor k = carrier.

Lemma find_in {A} (f : A -> bool) l x : find f l = Some x -> x ∈ l /\ f x = true.
Proof. intros [Hin Hf]%find_some. split; [by apply list_elem_of_In|done]. Qed.

Lemma receive_ack_only_adds a carrier key k c c' res :
  receive_ack a carrier key k c = (c', res) -> only_adds (acknowledged a carrier c) c c'.
Proof.
  unfold receive_ack. destruct (find _ _) as [r|]; cbn [mbind option_bind]; [|by intros [= <- _]].
  destruct (r_request r) as [q|]; [|by intros [= <- _]].
  destruct (_ ≫= _) as [u|e] eqn:Hg; [|by intros [= <- _]].
  apply bind_Ok in Hg as ([] & _ & Hg%guard_or_Ok). apply andb_true_iff in Hg as [Hact%String.eqb_eq _].
  unfold m_bind, acknowledge. destruct (find _ _) as [r1|] eqn:Hf; [|by intros [= <- _]].
  apply find_in in Hf as [Hin _]. case_bool_decide; [by intros [= <- _]|].
  destruct (_ ≫= _) as [u'|e] eqn:Hv; [|by intros [= <- _]].
  apply bind_Ok in Hv as (q1 & Hq1%ok_or_Ok & Hv). destruct u'.
  destruct (install _ true c) as [c1 [u1|e]] eqn:Hi; intros [= <- _];
    (eapply install_only_adds; [exact Hi|]; intros x ->%list_elem_of_singleton; by exists r1, q1, k).
Qed.

Lemma assemble_records carrier m c c' res : assemble carrier m c = (c', res) ->
  b_context (c_book c') = b_context (c_book c) /\ b_store (c_book c') = b_store (c_book c) /\
  b_records (c_book c') = b_records (c_book c) /\ b_accepted (c_book c') = b_accepted (c_book c) /\
  c_log c' = c_log c.
Proof.
  unfold assemble. destruct m; try by intros [= <- _].
  destruct (Fragments.add _ _ _ _ _) as [fb r]. by intros [= <- _].
Qed.

(** No one makes this installation erase a message without the right to:
    whatever a carrier sends, and even when its message is refused halfway,
    every record that is new in the book is one of two.  Either its request was
    signed for this conversation by its actor, and the actor's account wrote
    the message or an administrator moderates it (or it was admitted here
    before); or it is a record the book already had, with a receipt that the
    carrier, of another account, signed for that very request. *)
Theorem receive_authorized m carrier a sign c c' res :
  receive m carrier a sign c = (c', res) ->
  (member a carrier = false -> c' = c) /\
  forall k r, b_records (c_book c') !! k = Some r ->
    b_records (c_book c) !! k = Some r \/ lawful a carrier (b_context (c_book c)) r \/
    acknowledged a carrier c r.
Proof.
  unfold receive. destruct (member a carrier) eqn:Hm; [|by intros [= <- _]; split; auto].
  unfold m_bind. cbn [negb]. destruct (assemble carrier m c) as [c1 [o|e]] eqn:Ha;
    apply assemble_records in Ha as (Hctx & Hst & Hrec & _ & _).
  2: { intros [= <- _]. rewrite Hrec. split; [done|]. auto. }
  intros Hr. split; [done|]. intros k r Hk.
  destruct o as [m'|]; [|injection Hr as <- _; rewrite Hrec in Hk; by left].
  destruct m' as [f|after dg|rs next|key ack]; cbn [handle] in Hr.
  - injection Hr as <- _. rewrite Hrec in Hk. by left.
  - injection Hr as <- _. rewrite Hrec in Hk. by left.
  - unfold receive_state in Hr. destruct (_ || _); [injection Hr as <- _; rewrite Hrec in Hk; by left|].
    unfold m_bind in Hr. destruct (receive_records a carrier sign rs c1) as [c2 [l|e]] eqn:Hrs;
      injection Hr as <- _; apply receive_records_only_adds in Hrs as (_ & _ & Hadd);
      rewrite Hctx in Hadd; apply Hadd in Hk as [Hk|Hk]; rewrite ?Hrec in Hk; auto.
  - apply receive_ack_only_adds in Hr as (_ & _ & Hadd). apply Hadd in Hk as [Hk|Hk]; [rewrite Hrec in Hk; by left|].
    right. right. unfold acknowledged in *. by rewrite Hrec in Hk.
Qed.

(** ** Receipts are on disk before they are sent *)

Section Receipts.
Context {laws : DeletionStoreLaws St M (receipt_digest sha256)}.

(** A step keeps the book's acceptances filed, forgets none, and every
    acknowledgement among its replies is one of them. *)
Definition receipts_kept (c c' : DeletionContext) (res : result string (list DeletionMessage)) : Prop :=
  (receipts_saved c -> receipts_saved c') /\
  b_accepted (c_book c) ⊆ b_accepted (c_book c') /\
  forall replies key k, res = Ok replies -> AckM key k ∈ replies ->
    request_digest k ∈ b_accepted (c_book c').

Lemma kept_nothing c res : (forall replies key k, res = Ok replies -> AckM key k ∉ replies) ->
  receipts_kept c c res.
Proof. intros Hn. split; [done|]. split; [done|]. intros replies key k Hr Hk. by destruct (Hn _ key k Hr). Qed.

Lemma install_kept rs acc c c' res res' : install rs acc c = (c', res) ->
  (forall replies key k, res' = Ok replies -> AckM key k ∈ replies ->
     request_digest k ∈ b_accepted (c_book c')) -> receipts_kept c c' res'.
Proof using Type laws.
  intros Hi Hr. split; [intros Hinv; by eapply install_receipts|]. split; [|done].
  by apply install_accepted in Hi as [? _].
Qed.

(** What [accept] sends back acknowledges the request it installed. *)
Lemma accepted_receipt r q ctx a may sign r' k :
  verify_record r ctx = Ok q -> accepted_form r q a may sign = Ok r' -> r_ack r' = Some k ->
  is_receipt r' = true /\ receipt_digest sha256 r' = Ok (request_digest k).
Proof.
  intros (Hq & _ & _ & Hst)%verify_record_iff Hf Hk. unfold accepted_form in Hf.
  destruct (bool_decide_reflect (r_ack r = None)) as [Hn|Hs]; cbn [andb] in Hf.
  - destruct (_ && _); [|injection Hf as <-; congruence].
    apply bind_Ok in Hf as (d & Hd & Hf). apply bind_Ok in Hf as (input & _ & Hf).
    apply bind_Ok in Hf as (sig & _ & [= <-]). cbn in Hk. injection Hk as <-.
    unfold is_receipt, is_confirmed, receipt_digest. cbn. rewrite Hq. split; [done|exact Hd].
  - injection Hf as <-. destruct Hst as [[_ Hn]|(Hc & k' & Hk' & Hv)]; [done|].
    assert (k' = k) as -> by congruence.
    unfold is_receipt, is_confirmed, receipt_digest. rewrite Hc, Hk, Hq. split; [done|]. cbn.
    unfold Deletion.ack_verify in Hv. apply bind_Ok in Hv as (proof & _ & Hv).
    apply bind_Ok in Hv as (root & _ & Hv). apply bind_Ok in Hv as (d & Hd & Hv).
    apply bind_Ok in Hv as ([] & Hg%guard_or_Ok & _).
    apply andb_true_iff in Hg as [Hg%String.eqb_eq _]. by rewrite Hg.
Qed.

Lemma accept_kept r a may sign c c' res : accept r a may sign c = (c', res) ->
  receipts_kept c c' (l ← res; Ok (match l with Some m => [m] | None => [] end)).
Proof using Type laws.
  unfold accept. intros Ha. destruct (_ ≫= _) as [r'|e] eqn:Hr; [|injection Ha as <- <-; by apply kept_nothing].
  apply bind_Ok in Hr as (q & Hq & Hr). apply bind_Ok in Hr as ([] & _ & Hr).
  unfold m_bind in Ha. destruct (install [r'] true c) as [c1 [[]|e]] eqn:Hi; injection Ha as <- <-;
    (eapply install_kept; [exact Hi|]); [|done].
  intros replies key k. cbn. unfold receipt_reply.
  destruct (r_ack r') as [k'|] eqn:Hk'; [|by intros [= <-] ?%elem_of_nil].
  destruct (String.eqb _ _); [|by intros [= <-] ?%elem_of_nil].
  intros [= <-] [= -> <-]%list_elem_of_singleton.
  destruct (accepted_receipt _ _ _ _ _ _ _ _ Hq Hr Hk') as [Hrec Hd].
  apply install_accepted in Hi as [_ Hin]. apply (Hin eq_refl eq_refl r' _); [by left|done|done].
Qed.

Lemma receive_record_kept a carrier sign r c c' res :
  receive_record a carrier sign r c = (c', res) -> receipts_kept c c' res.
Proof using Type laws.
  assert (Hnone : forall c, receipts_kept c c (Ok [])).
  { intros c0. apply kept_nothing. by intros replies key k [= <-] ?%elem_of_nil. }
  unfold receive_record. destruct (currently_admissible _ _ _ _) as [r'|e];
    [|intros [= <- <-]; by apply kept_nothing].
  destruct (_ && _); [intros [= <- <-]; apply Hnone|].
  destruct (ok_or _ _) as [q|e]; [|intros [= <- <-]; by apply kept_nothing]. unfold m_bind.
  destruct (accept _ _ _ _ c) as [c1 [o|e]] eqn:Ha; intros [= <- <-]; by apply accept_kept in Ha.
Qed.

Lemma kept_then c c1 c2 l l' :
  receipts_kept c c1 (Ok l) -> receipts_kept c1 c2 l' -> receipts_kept c c2 (m ← l'; Ok (l ++ m)).
Proof using Type.
  intros (H1 & H2 & H3) (H4 & H5 & H6). split; [by auto|]. split; [by transitivity (b_accepted (c_book c1))|].
  intros replies key k Hr. destruct l' as [m|e]; [|done]. injection Hr as <-.
  intros [Hk|Hk]%elem_of_app; [apply H5; by eapply H3|by eapply H6].
Qed.

Lemma receive_records_kept a carrier sign rs c c' res :
  receive_records a carrier sign rs c = (c', res) -> receipts_kept c c' res.
Proof using Type laws.
  revert c c' res. induction rs as [|r rs IH]; intros c c' res; cbn [receive_records].
  { intros [= <- <-]. apply kept_nothing. by intros replies key k [= <-] ?%elem_of_nil. }
  unfold m_bind. destruct (receive_record a carrier sign r c) as [c1 [l|e]] eqn:Hr;
    apply receive_record_kept in Hr; [|by intros [= <- <-]].
  destruct (receive_records a carrier sign rs c1) as [c2 [l'|e]] eqn:Hrs; intros [= <- <-];
    apply IH in Hrs; by apply (kept_then _ _ _ _ _ Hr) in Hrs.
Qed.

Lemma receive_ack_kept a carrier key k c c' res :
  receive_ack a carrier key k c = (c', res) -> receipts_kept c c' res.
Proof using Type laws.
  assert (Hnone : forall c (r : result string (list DeletionMessage)), (forall l, r = Ok l -> l = []) -> receipts_kept c c r).
  { intros c0 r Hr. apply kept_nothing. intros replies key0 k0 Hx. rewrite (Hr _ Hx). apply not_elem_of_nil. }
  unfold receive_ack. destruct (find _ _) as [r|]; cbn [mbind option_bind];
    [|intros [= <- <-]; apply Hnone; by intros l [= <-]].
  destruct (r_request r) as [q|]; [|intros [= <- <-]; apply Hnone; by intros l [= <-]].
  destruct (_ ≫= _) as [u|e]; [|intros [= <- <-]; by apply Hnone].
  unfold m_bind, acknowledge. destruct (find _ _) as [r1|]; [|intros [= <- <-]; apply Hnone; by intros l [= <-]].
  case_bool_decide; [intros [= <- <-]; apply Hnone; by intros l [= <-]|].
  destruct (_ ≫= _) as [u'|e]; [|intros [= <- <-]; by apply Hnone].
  destruct (install _ true c) as [c1 [u1|e]] eqn:Hi; intros [= <- <-];
    (eapply install_kept; [exact Hi|]); [|done].
  by intros replies key0 k0 [= <-] ?%elem_of_nil.
Qed.

(** An acknowledgement never runs ahead of the disk: every acknowledgement
    this installation sends in answer to a carrier is for a deletion whose
    acceptance the store has filed; and receiving keeps it true that whatever
    the book counts as accepted is filed. *)
Theorem receipts_durable m carrier a sign c c' res :
  receive m carrier a sign c = (c', res) -> receipts_saved c ->
  receipts_saved c' /\
  forall replies key k s, res = Ok replies -> AckM key k ∈ replies ->
    b_store (c_book c') = Some s -> request_digest k ∈ accepted_saved s.
Proof using Type laws.
  intros Hr Hinv. enough (Hk : receipts_kept c c' res).
  { destruct Hk as (H1 & _ & H3). split; [by apply H1|]. intros replies key k s Hres Hin Hs.
    apply (H1 Hinv s Hs). by eapply H3. }
  unfold receive in Hr. assert (Hnil : forall c, receipts_kept c c (Ok [])).
  { intros c0. apply kept_nothing. by intros replies key k [= <-] ?%elem_of_nil. }
  destruct (member a carrier); cbn [negb] in Hr; [|injection Hr as <- <-; by apply kept_nothing].
  unfold m_bind in Hr. destruct (assemble carrier m c) as [c1 [o|e]] eqn:Ha;
    apply assemble_records in Ha as (_ & Hst & _ & Hacc & _).
  2: { injection Hr as <- <-. unfold receipts_kept, receipts_saved. rewrite Hst, Hacc. done. }
  enough (Hk : receipts_kept c1 c' res).
  { unfold receipts_kept, receipts_saved in *. by rewrite <-Hst, <-Hacc. }
  destruct o as [m'|]; [|injection Hr as <- <-; apply Hnil].
  destruct m' as [f|after dg|rs next|key ack]; cbn [handle] in Hr.
  - injection Hr as <- <-. by apply kept_nothing.
  - injection Hr as <- <-. apply kept_nothing. intros replies key k Hres Hin.
    unfold receive_request in Hres. apply bind_Ok in Hres as (d & _ & Hres).
    destruct (_ && _); [by injection Hres as <-; apply elem_of_nil in Hin|].
    destruct (page _ _ _ _ _) as [rs next]. injection Hres as <-.
    apply elem_of_cons in Hin as [|Hin]; [done|].
    destruct (_ && _); [by apply list_elem_of_singleton in Hin|by apply elem_of_nil in Hin].
  - unfold receive_state in Hr. destruct (_ || _); [injection Hr as <- <-; by apply kept_nothing|].
    unfold m_bind in Hr. destruct (receive_records a carrier sign rs c1) as [c2 [l|e]] eqn:Hrs;
      apply receive_records_kept in Hrs; injection Hr as <- <-; [|done].
    destruct Hrs as (H1 & H2 & H3). split; [done|]. split; [done|]. intros replies key k [= <-] Hin.
    apply elem_of_app in Hin as [Hin|Hin]; [by eapply H3|].
    destruct next; [by apply list_elem_of_singleton in Hin|by apply elem_of_nil in Hin].
  - by eapply receive_ack_kept.
Qed.
End Receipts.
End Exchange.

(** ** Examples: alice's request reaches bob *)

#[local] Existing Instance toy_json.
#[local] Existing Instance toy_json'.
#[local] Existing Instance no_transfers.
#[local] Existing Instance toy_store.
#[local] Existing Instance toy_store_laws.

Definition toy_receive (m : DeletionMessage) :=
  receive (T := unit) (St := Tables) toy_sha hex_bytes m (toy_key [x01]) bob_authority (toy_sign [x02]).
Definition alice_page : DeletionMessage := StateM [alice_record "a"] None.
Definition bob_answers := toy_receive alice_page bob_context.
Definition bob_receipt : DeletionRecord :=
  default no_record (b_records (c_book bob_answers.1) !! storage_key (alice_record "a")).

Lemma bob_answered : bob_answers = (bob_answers.1, Ok (default [] (res_ok bob_answers.2))).
Proof. apply surjective_pairing_eq. vm_compute. reflexivity. Qed.

Lemma receive_authorized_witness :
  r_status bob_receipt = Confirmed /\
  lawful toy_sha hex_bytes bob_authority (toy_key [x01]) "group:club" bob_receipt.
Proof.
  split; [vm_compute; reflexivity|].
  destruct (proj2 (receive_authorized toy_sha hex_bytes alice_page (toy_key [x01]) bob_authority
      (toy_sign [x02]) bob_context _ _ bob_answered) (storage_key (alice_record "a")) bob_receipt)
    as [H|[H|(r0 & q & k & H & _)]].
  - vm_compute. reflexivity.
  - exfalso. vm_compute in H. discriminate.
  - exact H.
  - exfalso. apply elem_of_btree_values in H as [key H]. vm_compute in H. discriminate.
Defined.

Definition bob_ack : DeleteAck :=
  default {| request_digest := ""; k_actor := ""; k_signature := ""; k_ownership := None |}
    (r_ack bob_receipt).
Definition bob_tables : Tables :=
  default {| records_table := ∅; accepted_table := ∅ |} (b_store (c_book bob_answers.1)).

Lemma receipts_durable_witness :
  AckM (r_key bob_receipt) bob_ack ∈ default [] (res_ok bob_answers.2) /\
  request_digest bob_ack ∈ accepted_table bob_tables.
Proof.
  assert (Hin : AckM (r_key bob_receipt) bob_ack ∈ default [] (res_ok bob_answers.2)).
  { assert (Hr : default [] (res_ok bob_answers.2) = [AckM (r_key bob_receipt) bob_ack])
      by (vm_compute; reflexivity).
    rewrite Hr. by apply list_elem_of_singleton. }
  split; [exact Hin|].
  destruct (receipts_durable toy_sha hex_bytes alice_page (toy_key [x01]) bob_authority
      (toy_sign [x02]) bob_context _ _ bob_answered) as [_ Hack].
  { intros s [= <-]. by vm_compute. }
  assert (Hs : b_store (c_book bob_answers.1) = Some bob_tables) by (vm_compute; reflexivity).
  exact (Hack _ _ bob_ack bob_tables eq_refl Hin Hs).
Defined.
End Exchange.
