(* ===== verification/Recovery.v ===== *)
(** * Recovery: pulling a conversation's history from a peer
      ([conversation/recovery/])

    A member that missed messages asks the others for theirs.  A round names
    one request; one source is chosen by its offer, and the reader pulls that
    source's frozen view in windows of [PAGE_RECORDS] records.  This file models
    what all conversation kinds share: the cursor, the manifest a view is
    identified by, the signed frames, the coordinator of rounds, and the slots
    that bound how many conversations import at once.  SHA-256, Ed25519, base64
    and JSON are parameters. *)
From S2P Require Import Prelude Devices Messages Fragments Deletion.

Module Recovery.
Import Devices Messages Deletion.

#[local] Open Scope mosh_scope.
#[local] Open Scope N_scope.
#[local] Set Default Proof Using "Type".

Inductive HistorySyncState := WaitingForSource | Importing | Complete.
Inductive HistorySyncReason := SourceUnavailable | EvidenceMissing | Unsupported | StorageRefused.
Record HistorySync := { state : HistorySyncState; reason : option HistorySyncReason }.

(** ** Manifests ([manifest.rs]) *)

Definition is_lower_hex (b : byte) : bool :=
  let n := Byte.to_N b in ((48 <=? n) && (n <=? 57)) || ((97 <=? n) && (n <=? 102)).
Definition canonical_hex (v : string) (n : nat) : bool :=
  (String.length v =? n)%nat && forallb is_lower_hex (String.list_byte_of_string v).

Record HistoryKey := { k_message_id : string; k_sent_at_ms : N; k_digest : string }.
Record Manifest := { m_digest : string; m_total : N }.
(** [fed] is what the running SHA-256 was given. *)
Record ManifestHash := { fed : bytes; h_total : N }.

(** [serde_json::to_vec] of the values a manifest is made of. *)
Class ManifestJson := {
  conversation_to_vec : string -> result string bytes;
  key_to_vec : HistoryKey -> result string bytes;
  manifest_to_vec : N * string * list HistoryKey -> result string bytes;
}.

Definition utf8 (s : string) : bytes := String.list_byte_of_string s.

(** The elements of a compact JSON array. *)
Fixpoint commas (bs : list bytes) : bytes :=
  match bs with
  | [] => []
  | [b] => b
  | b :: bs => b ++ utf8 "," ++ commas bs
  end.

(** [serde_json] writes a tuple and a list as arrays without blanks. *)
Class ManifestJsonLaws `{ManifestJson} : Prop := {
  manifest_compact conv keys c ks :
    conversation_to_vec conv = Ok c -> Forall2 (fun k b => key_to_vec k = Ok b) keys ks ->
    manifest_to_vec (1, conv, keys) = Ok (utf8 "[1," ++ c ++ utf8 ",[" ++ commas ks ++ utf8 "]]");
}.

Section Manifests.
Context {json : ManifestJson}.
Variable sha256 : bytes -> bytes.

Definition new_hash (conv : string) : result string ManifestHash :=
  b ← conversation_to_vec conv;
  Ok {| fed := utf8 "[1," ++ b ++ utf8 ",["; h_total := 0 |}.

Definition push (k : HistoryKey) : method ManifestHash string N := fun h =>
  let h := if h_total h =? 0 then h else {| fed := fed h ++ utf8 ","; h_total := h_total h |} in
  match key_to_vec k with
  | Err e => (h, Err e)
  | Ok b =>
      let h := {| fed := fed h ++ b; h_total := h_total h |} in
      match checked_add64 (h_total h) 1 with
      | None => (h, Err "history manifest count overflow")
      | Some n => ({| fed := fed h; h_total := n |}, Ok (h_total h))
      end
  end.

Definition finish (h : ManifestHash) : Manifest :=
  {| m_digest := hex_string (sha256 (fed h ++ utf8 "]]")); m_total := h_total h |}.

(** [digest] of a serialized value. *)
Definition digest_of_vec (v : result string bytes) : result string string :=
  b ← v; Ok (hex_string (sha256 b)).

Fixpoint push_all (keys : list HistoryKey) : method ManifestHash string (list N) :=
  match keys with
  | [] => m_ret []
  | k :: keys => i <~ push k;; rest <~ push_all keys;; m_ret (i :: rest)
  end.

End Manifests.

(** ** The window of an import ([cursor.rs]) *)

Definition PAGE_RECORDS : N := 16.

Record HistoryCursor := {
  request_id : string;
  cursor : N;
  manifest : option string;
  total : option N;
  complete : bool;
}.
Definition empty_cursor : HistoryCursor :=
  {| request_id := ""; cursor := 0; manifest := None; total := None; complete := false |}.

Definition differs {A} `{EqDecision A} (known : option A) (now : A) : bool :=
  match known with Some old => negb (bool_decide (old = now)) | None => false end.

Definition check (c : HistoryCursor) (request : string) (offset : N) (m : string) (t records : N)
  : result string unit :=
  if complete c || negb (String.eqb request (request_id c)) || negb (offset =? cursor c)
     || (PAGE_RECORDS <? records) || negb (canonical_hex m 64)
     || differs (total c) t || differs (manifest c) m
  then Err "history window differs" else Ok tt.

Definition advance (m : string) (t records : N) (partial : bool) : method HistoryCursor string unit :=
  fun c =>
  match checked_add64 (cursor c) records with
  | None => (c, Err "history cursor overflow")
  | Some next =>
      if (t <? next) || ((records =? 0) && negb partial && (next <? t))
      then (c, Err "history page makes no progress")
      else ({| request_id := request_id c; cursor := next; manifest := Some m; total := Some t;
               complete := next =? t |}, Ok tt)
  end.

(** ** Import slots ([slots.rs]) *)

Notation Slots := (gmap string (gset string)).
Record ImportPermit := { owner : string; conv : string }.
#[export] Instance ImportPermit_eq_dec : EqDecision ImportPermit.
Proof. solve_decision. Defined.

Definition MAX_ACTIVE : nat := 4.

Definition acquire (o c : string) (s : Slots) : Slots * option ImportPermit :=
  let active := default ∅ (s !! o) in
  if (MAX_ACTIVE <=? size active)%nat then (<[ o := active ]> s, None)
  else if bool_decide (c ∈ active) then (<[ o := active ]> s, None)
  else (<[ o := {[ c ]} ∪ active ]> s, Some {| owner := o; conv := c |}).

(** [Drop] of a permit. *)
Definition release (p : ImportPermit) (s : Slots) : Slots :=
  match s !! owner p with
  | None => s
  | Some active =>
      let active := active ∖ {[ conv p ]} in
      if bool_decide (active = ∅) then delete (owner p) s else <[ owner p := active ]> s
  end.

(** ** The deletion journal of a round ([journal.rs]) *)

Section Journal.
Variable sha256 : bytes -> bytes.
Variable b64_decode : string -> result string bytes.
Variable message_from_slice : bytes -> result string DeletionMessage.

Definition assemble_journal (m : DeletionMessage)
  : method (option Fragments.PartialRecord) string (option DeletionMessage) := fun p =>
  match m with
  | FragmentM f =>
      let '(p', r) := Fragments.accept sha256 b64_decode f p in
      (p', o ← r; match o with
                  | None => Ok None
                  | Some b => m ← message_from_slice b; Ok (Some m)
                  end)
  | _ => match p with
         | Some _ => (p, Err "history journal partial missing")
         | None => (p, Ok (Some m))
         end
  end.

End Journal.

Fixpoint ascend (last : option string) (rs : list DeletionRecord) : result string (option string) :=
  match rs with
  | [] => Ok last
  | r :: rs =>
      let key := storage_key r in
      _ ← guard_or (negb match last with Some old => String.leb key old | None => false end)
            "history journal keys are not ordered";
      ascend (Some key) rs
  end.

Definition validate_window (rs : list DeletionRecord) (previous next : option string) : result string unit :=
  last ← ascend previous rs;
  guard_or (negb ((16 <? length rs)%nat
                  || match next with
                     | Some n => bool_decide (rs = []) || negb (bool_decide (last = Some n))
                     | None => false
                     end))
    "history journal makes no progress".

(** ** Signed frames ([wire.rs]) *)

Definition MAX_PUBLISH_BYTES : N := 65536.

Record HistoryFrame := {
  f_version : N;
  f_conversation : string;
  f_mesh_id : string;
  f_channel : string;
  sender_key : string;
  recipient_key : option string;
  f_request_id : string;
  f_round : N;
  f_payload_b64 : string;
  f_signature : string;
}.

Record HistoryPull := {
  p_manifest : string;
  p_offset : N;
  fragment_offset : N;
  p_deletion_digest : string;
  journal : bool;
  p_journal_after : option string;
}.

Definition is_first (p : HistoryPull) : bool :=
  (p_offset p =? 0) && (fragment_offset p =? 0) && journal p && bool_decide (p_journal_after p = None).

Inductive HistoryMessage (R : Type) :=
| Probe
| Offer (m : string) (t : N) (deletions : string)
| Pull (p : HistoryPull)
| Page (m : string) (t offset : N) (records : list R) (fragment : option Fragments.PageFragment)
| Journal (m deletions : string) (page : DeletionMessage)
| Unavailable.
Arguments Probe {R}.
Arguments Offer {R} _ _ _.
Arguments Pull {R} _.
Arguments Page {R} _ _ _ _ _.
Arguments Journal {R} _ _ _.
Arguments Unavailable {R}.

Definition is_probe {R} (m : HistoryMessage R) : bool := match m with Probe => true | _ => false end.

(** [serde_json] on frames: the tuple that is signed, and the whole frame. *)
Class FrameJson := {
  frame_input_to_vec :
    N * string * string * string * string * option string * string * N * string -> result string bytes;
  frame_to_vec : HistoryFrame -> result string bytes;
}.

Definition with_payload (key payload : string) (f : HistoryFrame) : HistoryFrame :=
  {| f_version := f_version f; f_conversation := f_conversation f; f_mesh_id := f_mesh_id f;
     f_channel := f_channel f; sender_key := key; recipient_key := recipient_key f;
     f_request_id := f_request_id f; f_round := f_round f; f_payload_b64 := payload;
     f_signature := f_signature f |}.
Definition with_signature (sig : string) (f : HistoryFrame) : HistoryFrame :=
  {| f_version := f_version f; f_conversation := f_conversation f; f_mesh_id := f_mesh_id f;
     f_channel := f_channel f; sender_key := sender_key f; recipient_key := recipient_key f;
     f_request_id := f_request_id f; f_round := f_round f; f_payload_b64 := f_payload_b64 f;
     f_signature := sig |}.

Section Frames.
Context {scheme : Ed25519} {json : FrameJson}.
Variable sha256 : bytes -> bytes.
Variable hex_decode : string -> result string bytes.
Variable b64_encode : bytes -> string.
Variable b64_decode : string -> result string bytes.
Context {R : Type}.
(** [serde_json] on the messages of one conversation kind. *)
Variable payload_to_vec : HistoryMessage R -> result string bytes.
Variable payload_from_slice : bytes -> result string (HistoryMessage R).

Definition frame_input (f : HistoryFrame) : result string bytes :=
  b ← frame_input_to_vec (f_version f, f_conversation f, f_mesh_id f, f_channel f, sender_key f,
                          recipient_key f, f_request_id f, f_round f, f_payload_b64 f);
  Ok (context "mosh-conversation-history-frame-v1" ++ b).

(** The frame fits into one publication. *)
Definition fits (f : HistoryFrame) : result string bool :=
  b ← frame_to_vec f; Ok (N.of_nat (length b) <=? MAX_PUBLISH_BYTES - 128).

Definition seal (seed : bytes) (m : HistoryMessage R) : method HistoryFrame string unit := fun f =>
  let keyed := with_payload (hex_string (verifying_key seed)) (f_payload_b64 f) f in
  match payload_to_vec m with
  | Err e => (keyed, Err e)
  | Ok b =>
      let filled := with_payload (sender_key keyed) (b64_encode b) keyed in
      match frame_input filled with
      | Err e => (filled, Err e)
      | Ok input =>
          let signed := with_signature (hex_string (sign seed input)) filled in
          (signed, ok ← fits signed; guard_or ok "history frame exceeds publication limit")
      end
  end.

Definition open_payload (ctx mesh channel : string) (f : HistoryFrame)
  : result string (HistoryMessage R) :=
  _ ← guard_or ((f_version f =? 1) && String.eqb (f_conversation f) ctx && String.eqb (f_mesh_id f) mesh
                && String.eqb (f_channel f) channel && negb (f_round f =? 0)
                && canonical_hex (f_request_id f) 32 && (str_len (f_payload_b64 f) <=? MAX_PUBLISH_BYTES))
        "invalid history frame scope";
  _ ← guard_or (canonical_hex (sender_key f) 64 && canonical_hex (f_signature f) 128
                && match recipient_key f with Some k => canonical_hex k 64 | None => true end)
        "history frame exceeds bounded carrier";
  ok ← fits f;
  _ ← guard_or ok "history frame exceeds bounded carrier";
  input ← frame_input f;
  _ ← verify_signature sha256 hex_decode (sender_key f) (f_signature f) input;
  b ← b64_decode (f_payload_b64 f);
  payload_from_slice b.

Definition open (ctx mesh channel : string) (f : HistoryFrame) : result string (HistoryMessage R) :=
  m ← open_payload ctx mesh channel f;
  _ ← guard_or (is_probe m || bool_decide (is_Some (recipient_key f)))
        "history reply has no exact recipient";
  Ok m.

End Frames.

(** ** The coordinator of rounds ([coordinator.rs]) *)

Record Checkpoint := {
  round : N;
  progress : HistoryCursor;
  source : option string;
  observed : gmap string string;
  partial : option Fragments.PartialRecord;
  deletion_digest : string;
  journal_after : option string;
  journal_complete : bool;
}.
Definition empty_checkpoint : Checkpoint :=
  {| round := 0; progress := empty_cursor; source := None; observed := ∅; partial := None;
     deletion_digest := ""; journal_after := None; journal_complete := false |}.

Record Coordinator := {
  checkpoint : Checkpoint;
  pending : list HistoryFrame;
  cache : option (N * Manifest);
  last_probe : N;
  last_pull : N;
  last_progress : N;
  error : option HistorySyncReason;
  restored : bool;
  occurrences_ready : bool;
  permit : option ImportPermit;
  pending_bytes : N;
  next_probe : N;
  backoff : N;
  peer_revision : N;
  local_revision : N;
  failed_sources : gmap string N;
}.
Definition new_coordinator : Coordinator :=
  {| checkpoint := empty_checkpoint; pending := []; cache := None; last_probe := 0; last_pull := 0;
     last_progress := 0; error := None; restored := false; occurrences_ready := false; permit := None;
     pending_bytes := 0; next_probe := 0; backoff := 0; peer_revision := 0; local_revision := 0;
     failed_sources := ∅ |}.

Definition with_pending (fs : list HistoryFrame) (n : N) (c : Coordinator) : Coordinator :=
  {| checkpoint := checkpoint c; pending := fs; cache := cache c; last_probe := last_probe c;
     last_pull := last_pull c; last_progress := last_progress c; error := error c;
     restored := restored c; occurrences_ready := occurrences_ready c; permit := permit c;
     pending_bytes := n; next_probe := next_probe c; backoff := backoff c;
     peer_revision := peer_revision c; local_revision := local_revision c;
     failed_sources := failed_sources c |}.
Definition with_probe (next wait last : N) (c : Coordinator) : Coordinator :=
  {| checkpoint := checkpoint c; pending := pending c; cache := cache c; last_probe := last;
     last_pull := last_pull c; last_progress := last_progress c; error := error c;
     restored := restored c; occurrences_ready := occurrences_ready c; permit := permit c;
     pending_bytes := pending_bytes c; next_probe := next; backoff := wait;
     peer_revision := peer_revision c; local_revision := local_revision c;
     failed_sources := failed_sources c |}.
Definition with_revisions (peers locals : N) (c : Coordinator) : Coordinator :=
  {| checkpoint := checkpoint c; pending := pending c; cache := cache c; last_probe := last_probe c;
     last_pull := last_pull c; last_progress := last_progress c; error := error c;
     restored := restored c; occurrences_ready := occurrences_ready c; permit := permit c;
     pending_bytes := pending_bytes c; next_probe := next_probe c; backoff := backoff c;
     peer_revision := peers; local_revision := locals; failed_sources := failed_sources c |}.
Definition with_failed (failures : gmap string N) (progressed : N) (c : Coordinator) : Coordinator :=
  {| checkpoint := checkpoint c; pending := pending c; cache := cache c; last_probe := last_probe c;
     last_pull := last_pull c; last_progress := progressed; error := error c;
     restored := restored c; occurrences_ready := occurrences_ready c; permit := permit c;
     pending_bytes := pending_bytes c; next_probe := next_probe c; backoff := backoff c;
     peer_revision := peer_revision c; local_revision := local_revision c;
     failed_sources := failures |}.
Definition with_checkpoint (cp : Checkpoint) (p : option ImportPermit) (e : option HistorySyncReason)
    (c : Coordinator) : Coordinator :=
  {| checkpoint := cp; pending := pending c; cache := cache c; last_probe := last_probe c;
     last_pull := last_pull c; last_progress := last_progress c; error := e;
     restored := restored c; occurrences_ready := occurrences_ready c; permit := p;
     pending_bytes := pending_bytes c; next_probe := next_probe c; backoff := backoff c;
     peer_revision := peer_revision c; local_revision := local_revision c;
     failed_sources := failed_sources c |}.

Definition has_source (f : HistoryFrame) (cp : Checkpoint) : bool :=
  (round cp =? f_round f) && bool_decide (source cp = Some (sender_key f))
  && String.eqb (request_id (progress cp)) (f_request_id f).

(** The next round; [fresh] is the sixteen random bytes that name its request. *)
Definition begin_round (fresh : bytes) (cp : Checkpoint) : result string Checkpoint :=
  r ← ok_or (checked_add64 (round cp) 1) "history round overflow";
  Ok {| round := r;
        progress := {| request_id := hex_string fresh; cursor := 0; manifest := None; total := None;
                       complete := complete (progress cp) |};
        source := None; observed := observed cp; partial := None;
        deletion_digest := deletion_digest cp; journal_after := None; journal_complete := false |}.

(** A checkpoint that was saved; a finished one gives its slot back. *)
Definition installed (cp : Checkpoint) (cs : Coordinator * Slots) : Coordinator * Slots :=
  let '(c, s) := cs in
  if bool_decide (source cp = None)
  then (with_checkpoint cp None None c,
        match permit c with Some p => release p s | None => s end)
  else (with_checkpoint cp (permit c) None c, s).

Definition MAX_PENDING : nat := 32.
Definition MAX_PENDING_BYTES : N := 1024 * 1024.

Definition queue {json : FrameJson} (f : HistoryFrame) : method Coordinator string unit := fun c =>
  match frame_to_vec f with
  | Err e => (c, Err e)
  | Ok b =>
      let n := N.of_nat (length b) in
      (if (length (pending c) <? MAX_PENDING)%nat && (pending_bytes c + n <=? MAX_PENDING_BYTES)
       then with_pending (pending c ++ [f]) (pending_bytes c + n) c else c, Ok tt)
  end.

Definition drain (c : Coordinator) : Coordinator * list HistoryFrame := (with_pending [] 0 c, pending c).

Definition observe (peers locals : N) (c : Coordinator) : Coordinator :=
  if negb (peer_revision c =? peers) || negb (local_revision c =? locals)
  then with_probe 0 5000 (last_probe c) (with_revisions peers locals c) else c.

Definition probe_due (now : N) (c : Coordinator) : bool :=
  (next_probe c <=? now) && (2000 <=? saturating_sub now (last_probe c)).

Definition saturating_mul64 (a b : N) : N := N.min (a * b) u64_max.

(** [random] is one draw of a [u64]. *)
Definition probed (now random : N) (c : Coordinator) : Coordinator :=
  let delay := N.max (backoff c) 5000 in
  with_probe (saturating_add64 now (N.min (delay + random mod (delay / 5 + 1)) 60000))
    (N.min (saturating_mul64 delay 2) 60000) now c.

Definition view_name (m d : string) : string := m +:+ ":" +:+ d.

(** Whether an offer is taken up: it answers this round's request, no source is
    chosen yet, its view is new, and its sender did not just fail. *)
Definition acceptable (f : HistoryFrame) (m d : string) (now : N) (c : Coordinator) : bool :=
  let cp := checkpoint c in
  (f_round f =? round cp) && String.eqb (f_request_id f) (request_id (progress cp))
  && bool_decide (source cp = None)
  && negb (bool_decide (observed cp !! sender_key f = Some (view_name m d)))
  && negb match failed_sources c !! sender_key f with Some until => now <? until | None => false end
  && canonical_hex m 64 && canonical_hex d 64.

Definition chosen (f : HistoryFrame) (m : string) (t : N) (d : string) (cp : Checkpoint) : Checkpoint :=
  {| round := round cp;
     progress := {| request_id := request_id (progress cp); cursor := cursor (progress cp);
                    manifest := Some m; total := Some t; complete := false |};
     source := Some (sender_key f); observed := observed cp; partial := partial cp;
     deletion_digest := d; journal_after := journal_after cp; journal_complete := journal_complete cp |}.

(** The permit taken is dropped again when the round cannot begin. *)
Definition offered (f : HistoryFrame) (m : string) (t : N) (d own ctx : string) (now : N) (fresh : bytes)
    (c : Coordinator) (s : Slots) : Slots * result string (option (Checkpoint * ImportPermit)) :=
  if negb (acceptable f m d now c) then (s, Ok None)
  else
    let '(s, p) := acquire own ctx s in
    match p with
    | None => (s, Ok None)
    | Some p =>
        match begin_round fresh (checkpoint c) with
        | Err e => (release p s, Err e)
        | Ok next => (s, Ok (Some (chosen f m t d next, p)))
        end
    end.

Definition reoffered (f : HistoryFrame) (m : string) (t : N) (d : string) (cp : Checkpoint)
  : option Checkpoint :=
  if negb (has_source f cp) || negb (cursor (progress cp) =? 0) || bool_decide (is_Some (partial cp))
     || bool_decide (is_Some (journal_after cp)) || journal_complete cp
     || (bool_decide (manifest (progress cp) = Some m) && String.eqb (deletion_digest cp) d)
     || negb (canonical_hex m 64) || negb (canonical_hex d 64)
  then None
  else Some {| round := round cp;
               progress := {| request_id := request_id (progress cp); cursor := cursor (progress cp);
                              manifest := Some m; total := Some t; complete := complete (progress cp) |};
               source := source cp; observed := observed cp; partial := partial cp;
               deletion_digest := d; journal_after := journal_after cp;
               journal_complete := journal_complete cp |}.

Definition MAX_SOURCES : nat := 16.

(** A table of at most [MAX_SOURCES] peers: the least key makes room. *)
Definition note {V} (k : string) (v : V) (m : gmap string V) : gmap string V :=
  <[ k := v ]> (if (MAX_SOURCES <=? size m)%nat then btree_pop_first m else m).

Definition finished (from : string) (cp : Checkpoint) : Checkpoint :=
  if complete (progress cp)
  then {| round := round cp; progress := progress cp; source := None;
          observed := note from (view_name (default "" (manifest (progress cp))) (deletion_digest cp))
                        (observed cp);
          partial := partial cp; deletion_digest := deletion_digest cp;
          journal_after := journal_after cp; journal_complete := journal_complete cp |}
  else cp.

Definition source_timed_out (now : N) (c : Coordinator) : bool :=
  bool_decide (is_Some (source (checkpoint c))) && (10000 <=? saturating_sub now (last_progress c))
  && (2000 <=? saturating_sub now (last_probe c)).

Definition failed (now : N) (c : Coordinator) : Coordinator :=
  let c := match source (checkpoint c) with
           | None => c
           | Some src => with_failed (note src (saturating_add64 now 60000) (failed_sources c))
                           (last_progress c) c
           end in
  with_probe 0 (backoff c) (last_probe c) c.

Definition unavailable (f : HistoryFrame) (now : N) (c : Coordinator) : Coordinator :=
  if has_source f (checkpoint c) then failed now (with_failed (failed_sources c) 0 c) else c.

(** ** Manifests are streamed *)

Section Streaming.
Context `{ManifestJsonLaws}.
Variable sha256 : bytes -> bytes.

Lemma commas_snoc bs b :
  commas (bs ++ [b]) = match bs with [] => b | _ => commas bs ++ utf8 "," ++ b end.
Proof.
  induction bs as [|x bs IH]; [done|]. destruct bs as [|y bs]; [done|].
  change (commas (x :: (y :: bs) ++ [b]) = commas (x :: y :: bs) ++ utf8 "," ++ b).
  cbn [app commas] in IH |- *. rewrite IH. by rewrite <-!app_assoc.
Qed.

(** The hash after the elements [done] of an array that began with [pre]. *)
Definition fed_with (pre : bytes) (done : list bytes) : ManifestHash :=
  {| fed := pre ++ commas done; h_total := N.of_nat (length done) |}.

Lemma push_one pre done k b :
  key_to_vec k = Ok b -> N.of_nat (length done) < u64_max ->
  push k (fed_with pre done) = (fed_with pre (done ++ [b]), Ok (N.of_nat (length done))).
Proof.
  intros Hk Hlen. unfold push, fed_with, checked_add64. rewrite commas_snoc.
  destruct done as [|x done]; cbn [h_total fed length] in *; rewrite Hk.
  - cbn. by rewrite app_nil_r.
  - rewrite (proj2 (N.eqb_neq _ 0)) by lia. cbn [h_total fed].
    rewrite (proj2 (N.leb_le _ _)) by lia. rewrite length_app. cbn [length].
    rewrite <-!app_assoc. by replace (N.of_nat (S (length done) + 1)) with (N.of_nat (S (length done)) + 1) by lia.
Qed.

Lemma push_all_from pre keys ks done :
  Forall2 (fun k b => key_to_vec k = Ok b) keys ks ->
  N.of_nat (length done + length keys) <= u64_max ->
  push_all keys (fed_with pre done)
  = (fed_with pre (done ++ ks),
     Ok (map N.of_nat (seq (length done) (length keys)))).
Proof.
  intros Hks. revert done. induction Hks as [|k b keys ks Hk Hks IH]; intros done Hlen.
  { by rewrite app_nil_r. }
  cbn [push_all length seq map] in *. unfold m_bind at 1. rewrite (push_one _ _ _ _ Hk) by lia.
  unfold m_bind. rewrite IH by (rewrite length_app; cbn; lia).
  rewrite length_app, Nat.add_comm, <-app_assoc. done.
Qed.

(** A manifest is streamed: hashing the keys of a view one by one gives the
    digest of the whole triple [(1, conversation, keys)] serialized at once,
    and numbers the keys from zero on. *)
Theorem manifest_streams convn keys c ks :
  conversation_to_vec convn = Ok c -> Forall2 (fun k b => key_to_vec k = Ok b) keys ks ->
  N.of_nat (length keys) <= u64_max ->
  exists h0 h, new_hash convn = Ok h0 /\
    push_all keys h0 = (h, Ok (map N.of_nat (seq 0 (length keys)))) /\
    Ok (m_digest (finish sha256 h)) = digest_of_vec sha256 (manifest_to_vec (1, convn, keys)) /\
    m_total (finish sha256 h) = N.of_nat (length keys).
Proof using Type*.
  intros Hc Hks Hlen. set (pre := utf8 "[1," ++ c ++ utf8 ",[").
  exists (fed_with pre []), (fed_with pre ks).
  unfold new_hash. rewrite Hc. split; [unfold fed_with; cbn; by rewrite app_nil_r|].
  split; [by apply (push_all_from pre keys ks [])|]. split.
  - unfold digest_of_vec. rewrite (manifest_compact _ _ _ _ Hc Hks). cbn [mbind result_bind].
    cbn [finish m_digest]. unfold fed_with, pre. cbn [fed]. by rewrite <-!app_assoc.
  - cbn. by apply Forall2_length in Hks as ->.
Qed.

End Streaming.

(** ** Slots *)

(** The slots together with the permits that are alive. *)
Inductive slot_step : Slots * list ImportPermit -> Slots * list ImportPermit -> Prop :=
| ss_acquire o c s s' live p :
    acquire o c s = (s', p) -> slot_step (s, live) (s', match p with Some p => p :: live | None => live end)
| ss_drop p s live live' :
    live ≡ₚ p :: live' -> slot_step (s, live) (release p s, live').

Definition of_owner (o : string) (live : list ImportPermit) : list ImportPermit :=
  filter (fun p => owner p = o) live.

(** The table says exactly which permits are alive. *)
Record slots_ok (w : Slots * list ImportPermit) : Prop := {
  so_active o active : w.1 !! o = Some active ->
    active <> ∅ /\ (size active <= MAX_ACTIVE)%nat /\ (forall c, c ∈ active <-> {| owner := o; conv := c |} ∈ w.2);
  so_idle o : w.1 !! o = None -> forall c, {| owner := o; conv := c |} ∉ w.2;
  so_nodup : NoDup w.2;
}.

Lemma slots_elem w o c : slots_ok w ->
  c ∈ default ∅ (w.1 !! o) <-> {| owner := o; conv := c |} ∈ w.2.
Proof.
  intros Hw. destruct (w.1 !! o) as [active|] eqn:Ho; cbn.
  - by apply Hw in Ho as (_ & _ & ?).
  - split; [by intros ?%elem_of_empty|]. intros Hc. by apply (so_idle _ Hw o Ho) in Hc.
Qed.

Lemma slots_size w o : slots_ok w -> (size (default ∅ (w.1 !! o)) <= MAX_ACTIVE)%nat.
Proof.
  intros Hw. destruct (w.1 !! o) as [active|] eqn:Ho; [by apply Hw in Ho as (_ & ? & _)|].
  cbn. rewrite size_empty. unfold MAX_ACTIVE. lia.
Qed.

Lemma acquire_cases o c s :
  let active := default ∅ (s !! o) in
  acquire o c s = (<[ o := active ]> s, None) /\ ((MAX_ACTIVE <= size active)%nat \/ c ∈ active) \/
  acquire o c s = (<[ o := {[ c ]} ∪ active ]> s, Some {| owner := o; conv := c |}) /\
    (size active < MAX_ACTIVE)%nat /\ c ∉ active.
Proof.
  cbn zeta. unfold acquire. destruct (Nat.leb_spec MAX_ACTIVE (size (default ∅ (s !! o)))); [by left; auto|].
  destruct (bool_decide_reflect (c ∈ default ∅ (s !! o))); [by left; auto|by right].
Qed.

(** A refused request leaves the table as it was. *)
Lemma slots_same w o c : slots_ok w -> (MAX_ACTIVE <= size (default ∅ (w.1 !! o)))%nat \/ c ∈ default ∅ (w.1 !! o) ->
  <[ o := default ∅ (w.1 !! o) ]> w.1 = w.1.
Proof.
  intros Hw Hc. destruct (w.1 !! o) as [active|] eqn:Ho; [by apply insert_id|]. cbn in Hc.
  rewrite size_empty in Hc. destruct Hc as [Hc|Hc%elem_of_empty]; [unfold MAX_ACTIVE in Hc; lia|done].
Qed.

Lemma slots_acquire o c s s' live p : slots_ok (s, live) -> acquire o c s = (s', p) ->
  slots_ok (s', match p with Some p => p :: live | None => live end).
Proof.
  intros Hw Hac. pose proof (acquire_cases o c s) as Hcases. cbn zeta in Hcases. rewrite Hac in Hcases.
  destruct Hcases as [[[= -> ->] Hfull]|([= -> ->] & Hroom & Hc)].
  { pose proof (slots_same (s, live) o c Hw Hfull) as Hsame. cbn [fst] in Hsame. by rewrite Hsame. }
  pose proof (slots_elem (s, live) o) as Helem. cbn [fst snd] in Helem.
  split; cbn [fst snd].
  - intros o' active Ho'. destruct (decide (o' = o)) as [->|Hne].
    + rewrite lookup_insert_eq in Ho'. injection Ho' as <-. split; [set_solver|]. split.
      * rewrite size_union, size_singleton by set_solver. lia.
      * intros c'. rewrite elem_of_union, elem_of_singleton, Helem, elem_of_cons by done.
        split; [intros [->|?]|intros [[= ->]|?]]; auto.
    + rewrite lookup_insert_ne in Ho' by done. apply Hw in Ho' as (Hne' & Hsize & Hin).
      split; [done|]. split; [done|]. intros c'. rewrite elem_of_cons, Hin. split; [by right|].
      by intros [[= ??]|].
  - intros o' Ho' c'. destruct (decide (o' = o)) as [->|Hne]; [by rewrite lookup_insert_eq in Ho'|].
    rewrite lookup_insert_ne in Ho' by done. apply not_elem_of_cons. split; [congruence|].
    by apply (so_idle _ Hw).
  - constructor; [|apply Hw]. by rewrite <-Helem.
Qed.

Lemma slots_release p s live : slots_ok (s, p :: live) -> slots_ok (release p s, live).
Proof.
  intros Hw. destruct p as [o c]. pose proof (so_nodup _ Hw) as [Hnot Hnd]%NoDup_cons. cbn [fst snd] in *.
  destruct (s !! o) as [active|] eqn:Ho.
  2: { exfalso. apply (so_idle _ Hw o Ho c). by left. }
  destruct (so_active _ Hw o active Ho) as (Hne & Hsize & Hin). cbn [fst snd] in *.
  assert (Hrest : forall c', c' ∈ active ∖ {[ c ]} <-> {| owner := o; conv := c' |} ∈ live).
  { intros c'. rewrite elem_of_difference, elem_of_singleton, Hin, elem_of_cons. split.
    - by intros [[[= ->]|] ?].
    - intros Hc'. split; [by right|]. intros ->. done. }
  assert (Hother : forall o', o' <> o -> release {| owner := o; conv := c |} s !! o' = s !! o').
  { intros o' Ho'. unfold release. cbn [owner conv]. rewrite Ho.
    destruct (bool_decide _); [by rewrite lookup_delete_ne|by rewrite lookup_insert_ne]. }
  assert (Hown : release {| owner := o; conv := c |} s !! o
    = if bool_decide (active ∖ {[ c ]} = ∅) then None else Some (active ∖ {[ c ]})).
  { unfold release. cbn [owner conv]. rewrite Ho.
    destruct (bool_decide _); [by rewrite lookup_delete_eq|by rewrite lookup_insert_eq]. }
  split; cbn [fst snd]; [| |done].
  - intros o' active' Ho'. destruct (decide (o' = o)) as [->|Hne'].
    + rewrite Hown in Ho'. destruct (bool_decide_reflect (active ∖ {[ c ]} = ∅)) as [|Hnon]; [done|].
      injection Ho' as <-. split; [done|]. split; [|done].
      etrans; [|exact Hsize]. apply subseteq_size, subseteq_difference_l. done.
    + rewrite Hother in Ho' by done. apply (so_active _ Hw) in Ho' as (? & ? & Hin').
      split; [done|]. split; [done|]. cbn [snd] in Hin'. intros c'. rewrite Hin', elem_of_cons.
      split; [|by right]. by intros [[= ??]|].
  - intros o' Ho' c'. destruct (decide (o' = o)) as [->|Hne'].
    + rewrite Hown in Ho'. destruct (bool_decide_reflect (active ∖ {[ c ]} = ∅)) as [He|]; [|done].
      rewrite <-Hrest, He. apply not_elem_of_empty.
    + rewrite Hother in Ho' by done. pose proof (so_idle _ Hw o' Ho' c') as Hno. cbn in Hno.
      by apply not_elem_of_cons in Hno as [_ ?].
Qed.

Lemma slots_perm s live live' : live ≡ₚ live' -> slots_ok (s, live) -> slots_ok (s, live').
Proof.
  intros Hp [Ha Hi Hn]. split; cbn [fst snd] in *; [| |by rewrite <-Hp].
  - intros o active Ho. destruct (Ha o active Ho) as (? & ? & Hin). split; [done|]. split; [done|].
    intros c. by rewrite <-Hp.
  - intros o Ho c. rewrite <-Hp. by apply Hi.
Qed.

Lemma slot_steps_ok w w' : slots_ok w -> rtc slot_step w w' -> slots_ok w'.
Proof.
  intros Hw Hs. induction Hs as [|w w1 w2 Hstep _ IH]; [done|]. apply IH. destruct Hstep.
  - by eapply slots_acquire.
  - eapply slots_release, slots_perm; done.
Qed.

Lemma slots_start s live : rtc slot_step (∅, []) (s, live) -> slots_ok (s, live).
Proof.
  intros Hs. eapply slot_steps_ok; [|done]. split; cbn; [done|by intros ? _ ? ?%elem_of_nil|constructor].
Qed.

Lemma slots_count w o : slots_ok w -> length (of_owner o w.2) = size (default ∅ (w.1 !! o)).
Proof.
  intros Hw. unfold of_owner.
  assert (Hnd : NoDup (map conv (filter (fun p => owner p = o) w.2))).
  { apply NoDup_fmap_2_strong; [|by apply NoDup_filter, Hw].
    intros [o1 c1] [o2 c2] [H1 _]%list_elem_of_filter [H2 _]%list_elem_of_filter. cbn in *. congruence. }
  rewrite <-(length_map conv). rewrite <-(size_list_to_set (C := gset string)) by done.
  f_equal. apply set_eq. intros c. rewrite elem_of_list_to_set, slots_elem by done. split.
  - intros ([o' c'] & -> & [Ho Hin]%list_elem_of_filter)%list_elem_of_fmap. cbn in *. by subst.
  - intros Hin. apply list_elem_of_fmap. exists {| owner := o; conv := c |}. split; [done|].
    by apply list_elem_of_filter.
Qed.

(** Import slots are exact: whatever the order in which permits are asked
    for and dropped, an installation never has more than four alive, no
    conversation has two, a refusal changes nothing, and a request is granted
    exactly when neither limit is reached; when all permits of an installation
    are dropped its entry is gone. *)
Theorem slots_exact s live o c : rtc slot_step (∅, []) (s, live) ->
  (length (of_owner o live) <= MAX_ACTIVE)%nat /\ NoDup live /\
  (s !! o = None <-> of_owner o live = []) /\
  (is_Some (acquire o c s).2 <->
     (length (of_owner o live) < MAX_ACTIVE)%nat /\ {| owner := o; conv := c |} ∉ live) /\
  ((acquire o c s).2 = None -> (acquire o c s).1 = s).
Proof.
  intros Hs. assert (Hw : slots_ok (s, live)) by by apply slots_start.
  pose proof (slots_count _ o Hw) as Hn. pose proof (slots_size _ o Hw) as Hle.
  pose proof (slots_elem _ o c Hw) as Hel. cbn [fst snd] in *. rewrite Hn.
  split; [done|]. split; [by apply Hw|]. split.
  { rewrite <-length_zero_iff_nil, Hn. destruct (s !! o) as [active|] eqn:Ho; [|by cbn].
    cbn [default]. apply Hw in Ho as (Hne & _). split; [done|]. by intros ?%size_empty_inv%leibniz_equiv. }
  pose proof (acquire_cases o c s) as Hcases. cbn zeta in Hcases.
  destruct Hcases as [[-> Hfull]|(-> & Hroom & Hc)]; cbn [fst snd].
  - split; [|intros _; by apply (slots_same (s, live) o c)]. rewrite <-Hel. split; [by intros []|].
    intros [??]. destruct Hfull; [lia|done].
  - rewrite <-Hel. split; [by split|done].
Qed.

(** An acquired slot that is dropped at once leaves the table as it was. *)
Lemma acquire_release o c s s' p live : slots_ok (s, live) -> acquire o c s = (s', Some p) -> release p s' = s.
Proof.
  intros Hw Hac. pose proof (acquire_cases o c s) as Hcases. cbn zeta in Hcases. rewrite Hac in Hcases.
  destruct Hcases as [[[=] _]|([= -> ->] & _ & Hc)]. unfold release. cbn [owner conv].
  rewrite lookup_insert_eq. replace (_ ∖ _) with (default ∅ (s !! o)) by set_solver.
  destruct (s !! o) as [active|] eqn:Ho; cbn [default].
  - rewrite bool_decide_eq_false_2 by (by apply Hw in Ho as (? & _)). by rewrite insert_insert_eq, insert_id.
  - rewrite bool_decide_eq_true_2 by done. rewrite delete_insert_eq. by apply delete_id.
Qed.

(** The cursor at row [n] of a view. *)
Definition at_row (req m : string) (t n : N) (done : bool) : HistoryCursor :=
  {| request_id := req; cursor := n; manifest := Some m; total := Some t; complete := done |}.

(** ** Offers *)

(** What an offer must be to start an import: an answer to this round's
    request, while no source is chosen, of a view this reader has not already
    seen from that peer, by a peer that did not fail lately; a slot is free, and
    a further round exists. *)
Record welcome (f : HistoryFrame) (m d own ctx : string) (now : N) (c : Coordinator) (s : Slots) : Prop := {
  we_round : f_round f = round (checkpoint c);
  we_request : f_request_id f = request_id (progress (checkpoint c));
  we_free : source (checkpoint c) = None;
  we_new : observed (checkpoint c) !! sender_key f <> Some (view_name m d);
  we_sound : forall until, failed_sources c !! sender_key f = Some until -> until <= now;
  we_names : canonical_hex m 64 = true /\ canonical_hex d 64 = true;
  we_slot : (size (default ∅ (s !! own)) < MAX_ACTIVE)%nat /\ ctx ∉ default ∅ (s !! own);
}.

Lemma acceptable_iff f m d own ctx now c s :
  welcome f m d own ctx now c s <-> acceptable f m d now c = true /\
    (size (default ∅ (s !! own)) < MAX_ACTIVE)%nat /\ ctx ∉ default ∅ (s !! own).
Proof.
  unfold acceptable.
  rewrite !andb_true_iff, !negb_true_iff, N.eqb_eq, String.eqb_eq, bool_decide_eq_true, bool_decide_eq_false.
  assert (Hf : match failed_sources c !! sender_key f with Some until => now <? until | None => false end = false
    <-> forall until, failed_sources c !! sender_key f = Some until -> until <= now).
  { destruct (failed_sources c !! sender_key f) as [u|]; [|done]. rewrite N.ltb_ge.
    split; [by intros ? ? [= <-]|intros Hu; by apply Hu]. }
  rewrite Hf. split; [intros []; naive_solver|]. intros (((((((?&?)&?)&?)&?)&?)&?)&?&?). by split.
Qed.

(** An offer is taken up exactly when it is welcome: then the next round
    begins at the first record of the offered view with its sender as the only
    source and the conversation's slot taken; in every other case nothing is
    taken, and a round counter at its end gives the slot back. *)
Theorem offer_taken f m t d own ctx now fresh c s live :
  rtc slot_step (∅, []) (s, live) ->
  match offered f m t d own ctx now fresh c s with
  | (s', Ok (Some (cp, p))) =>
      welcome f m d own ctx now c s /\ p = {| owner := own; conv := ctx |} /\
      slots_ok (s', p :: live) /\
      round cp = round (checkpoint c) + 1 /\ round cp <= u64_max /\ source cp = Some (sender_key f) /\
      progress cp = at_row (hex_string fresh) m t 0 false /\ deletion_digest cp = d /\
      partial cp = None /\ journal_after cp = None /\ journal_complete cp = false /\
      observed cp = observed (checkpoint c)
  | (s', Ok None) => s' = s /\ ~ welcome f m d own ctx now c s
  | (s', Err _) => s' = s /\ u64_max <= round (checkpoint c)
  end.
Proof.
  intros Hs. assert (Hw : slots_ok (s, live)) by by eapply slots_start.
  pose proof (acceptable_iff f m d own ctx now c s) as Hwel. unfold offered.
  destruct (acceptable f m d now c); cbn [negb]; [|split; [done|by intros [[=] _]%Hwel]].
  destruct (acquire own ctx s) as [s' [p|]] eqn:Hac.
  - assert (Hslot : (size (default ∅ (s !! own)) < MAX_ACTIVE)%nat /\ ctx ∉ default ∅ (s !! own)
      /\ p = {| owner := own; conv := ctx |}).
    { pose proof (acquire_cases own ctx s) as Hc. cbn zeta in Hc. rewrite Hac in Hc.
      destruct Hc as [[[=] _]|([= _ ->] & ? & ?)]. done. }
    destruct Hslot as (Hsize & Hfree & Hp). unfold begin_round, checked_add64.
    destruct (N.leb_spec (round (checkpoint c) + 1) u64_max); cbn [ok_or mbind result_bind].
    + split; [by apply Hwel|]. split; [done|]. split; [|done]. by apply (slots_acquire own ctx s s' live (Some p)).
    + split; [by eapply acquire_release|lia].
  - pose proof (acquire_cases own ctx s) as Hc. cbn zeta in Hc. rewrite Hac in Hc.
    destruct Hc as [[[= ->] Hfull]|([=] & _)].
    split; [by apply (slots_same (s, live) own ctx)|]. intros (_ & Hsize & Hfree)%Hwel. destruct Hfull; [lia|done].
Qed.

(** ** The windows of an import *)

Record Window := {
  w_request : string;
  w_offset : N;
  w_manifest : string;
  w_total : N;
  w_records : N;
  w_rows : N;
  w_partial : bool;
}.

(** A window holds [w_records] records on the wire, and gives [w_rows] rows
    once its fragment, if it has one, is put together. *)
Definition take_window (w : Window) (c : HistoryCursor) : result string HistoryCursor :=
  _ ← check c (w_request w) (w_offset w) (w_manifest w) (w_total w) (w_records w);
  let '(c, r) := advance (w_manifest w) (w_total w) (w_rows w) (w_partial w) c in
  _ ← r; Ok c.

Fixpoint take_windows (ws : list Window) (c : HistoryCursor) : result string HistoryCursor :=
  match ws with
  | [] => Ok c
  | w :: ws => c ← take_window w c; take_windows ws c
  end.

Definition rows_before (i : nat) (ws : list Window) : N := foldr N.add 0 (map w_rows (take i ws)).
Definition rows_of (ws : list Window) : N := foldr N.add 0 (map w_rows ws).

Lemma take_window_iff w req m t n done c :
  take_window w (at_row req m t n done) = Ok c <->
  done = false /\ w_request w = req /\ w_offset w = n /\ w_records w <= PAGE_RECORDS /\
  canonical_hex m 64 = true /\ w_total w = t /\ w_manifest w = m /\ n + w_rows w <= N.min t u64_max /\
  (w_rows w = 0 -> w_partial w = true \/ t <= n) /\ c = at_row req m t (n + w_rows w) (n + w_rows w =? t).
Proof.
  unfold take_window, check, advance, checked_add64, at_row.
  cbn [request_id cursor manifest total complete differs].
  assert (Hneg : forall A (x y : A) `{EqDecision A}, negb (bool_decide (x = y)) = false <-> x = y).
  { intros A x y He. by rewrite negb_false_iff, bool_decide_eq_true. }
  split.
  - intros ([] & Hc & Ha)%bind_Ok.
    destruct (_ || _) eqn:Hor in Hc; [done|]. clear Hc.
    rewrite !orb_false_iff, !negb_false_iff, String.eqb_eq, N.eqb_eq, N.ltb_ge, !bool_decide_eq_true in Hor.
    destruct Hor as ((((((-> & <-) & <-) & Hp) & Hm) & ->) & ->).
    destruct (N.leb_spec (w_offset w + w_rows w) u64_max) as [Hle|]; [|done].
    destruct (_ || _) eqn:Hor in Ha; [done|]. injection Ha as <-.
    rewrite orb_false_iff, N.ltb_ge, !andb_false_iff, negb_false_iff, N.eqb_neq, N.ltb_ge in Hor.
    destruct Hor as [Hle' Hzero]. do 7 (split; [done|]). split; [lia|]. split; [|done].
    intros Hz. rewrite Hz in Hzero. destruct Hzero as [[|]|]; [done|by left|right; lia].
  - intros (-> & <- & <- & Hp & Hm & <- & -> & Hle & Hz & ->).
    rewrite String.eqb_refl, N.eqb_refl, Hm, !bool_decide_eq_true_2 by done.
    rewrite (proj2 (N.ltb_ge _ _)) by done. cbn [orb negb mbind result_bind].
    rewrite (proj2 (N.leb_le _ u64_max)) by lia. rewrite (proj2 (N.ltb_ge (w_total w) _)) by lia.
    cbn [orb]. destruct (N.eqb_spec (w_rows w) 0) as [H0|]; [|done].
    destruct (Hz H0) as [->|Hend]; [done|]. cbn [andb].
    rewrite (proj2 (N.ltb_ge _ _)) by lia. by rewrite andb_false_r.
Qed.

Lemma take_windows_from ws req m t n done c : take_windows ws (at_row req m t n done) = Ok c ->
  n <= t -> (done = true -> n = t) ->
  (forall i w, ws !! i = Some w -> w_request w = req /\ w_offset w = n + rows_before i ws /\
     w_manifest w = m /\ w_total w = t /\ w_records w <= PAGE_RECORDS) /\
  n + rows_of ws <= t /\
  c = at_row req m t (n + rows_of ws) (if bool_decide (ws = []) then done else n + rows_of ws =? t) /\
  (n < t -> N.of_nat (length (filter (fun w => w_partial w = false) ws)) <= rows_of ws) /\
  (done = true -> ws = []).
Proof.
  revert n done. induction ws as [|w ws IH]; intros n done Hws Hn Hd.
  { injection Hws as <-. unfold rows_of. cbn. rewrite N.add_0_r. split; [done|].
    split; [done|]. split; [done|]. split; [lia|done]. }
  cbn [take_windows] in Hws. apply bind_Ok in Hws as (c1 & Hw & Hws).
  apply take_window_iff in Hw as (-> & Hr & Ho & Hp & Hm & Ht & Hmm & Hle & Hz & ->).
  apply IH in Hws as (Hall & Hsum & -> & Hcount & Hend); [|lia|by intros ?%N.eqb_eq].
  assert (Hrows : rows_of (w :: ws) = w_rows w + rows_of ws) by done.
  rewrite Hrows, N.add_assoc. split; [|split; [lia|split; [|split; [|done]]]].
  - intros [|i] w' Hi; cbn in Hi.
    + injection Hi as <-. unfold rows_before. cbn. rewrite N.add_0_r. done.
    + apply Hall in Hi as (? & -> & ?). split; [done|]. split; [|done]. unfold rows_before. cbn. lia.
  - cbn. destruct (bool_decide_reflect (ws = [])) as [->|]; [|done]. unfold rows_of. cbn. by rewrite N.add_0_r.
  - intros Hlt. rewrite filter_cons.
    destruct (decide (n + w_rows w = t)) as [Heq|Hne].
    + rewrite (Hend (proj2 (N.eqb_eq _ _) Heq)). rewrite filter_nil. destruct (decide _); cbn; lia.
    + assert (Hlt' : n + w_rows w < t) by lia. specialize (Hcount Hlt').
      destruct (decide (w_partial w = false)) as [Hf|]; cbn [length]; [|lia].
      assert (w_rows w <> 0); [|lia]. intros H0. destruct (Hz H0); [congruence|lia].
Qed.

(** C39. The windows of a round tile the view: when a sequence of pages is
    accepted from the start of a round, every page is of the view that was
    chosen and begins exactly where the previous one ended, nothing is beyond
    the announced total, the import is complete exactly when all of it has
    arrived, no page is accepted afterwards, and there are no more pages that
    are not fragments than there are records (one, when there are none). *)
Theorem windows_tile ws req m t c : take_windows ws (at_row req m t 0 false) = Ok c ->
  (forall i w, ws !! i = Some w -> w_request w = req /\ w_offset w = rows_before i ws /\
     w_manifest w = m /\ w_total w = t /\ w_records w <= PAGE_RECORDS) /\
  cursor c = rows_of ws /\ rows_of ws <= t /\ (complete c = true <-> ws <> [] /\ rows_of ws = t) /\
  (complete c = true -> forall w, is_ok (take_window w c) = false) /\
  N.of_nat (length (filter (fun w => w_partial w = false) ws)) <= N.max 1 t.
Proof.
  intros Hws. pose proof (take_windows_from _ _ _ _ _ _ _ Hws) as Hf.
  destruct Hf as (Hall & Hsum & -> & Hcount & _); [lia|done|]. rewrite N.add_0_l in *. cbn [at_row cursor complete].
  split; [intros i w Hi; by apply Hall in Hi|]. split; [done|]. split; [done|].
  split; [|split].
  - destruct (bool_decide_reflect (ws = [])) as [->|Hne]; [by split; [|intros []]|]. rewrite N.eqb_eq. by split; [|intros []].
  - intros -> w. destruct (take_window _ _) eqn:Hw; [|done]. by apply take_window_iff in Hw as ([=] & _).
  - destruct (N.eq_dec t 0) as [->|]; [|specialize (Hcount ltac:(lia)); lia].
    destruct ws as [|w ws]; [cbn; lia|]. cbn [take_windows] in Hws. apply bind_Ok in Hws as (c1 & Hw & Hws).
    apply take_window_iff in Hw as (_ & _ & _ & _ & _ & _ & _ & Hle & _ & ->).
    destruct ws as [|w' ws].
    + rewrite filter_cons, filter_nil. destruct (decide _); cbn; lia.
    + cbn [take_windows] in Hws. apply bind_Ok in Hws as (c2 & Hw & _).
      apply take_window_iff in Hw as (Hd & _). rewrite N.eqb_neq in Hd. lia.
Qed.

(** ** Frames *)

Lemma is_lower_hex_digit n : n < 16 -> is_lower_hex (Ascii.byte_of_ascii (hex_digit n)) = true.
Proof.
  intros Hn. rewrite <-(N2Nat.id n) in *. generalize dependent (N.to_nat n). intros k Hk.
  do 16 (destruct k as [|k]; [reflexivity|]). lia.
Qed.

Lemma canonical_hex_string b : canonical_hex (hex_string b) (2 * length b) = true.
Proof.
  unfold canonical_hex. rewrite hex_string_length, Nat.eqb_refl. cbn [andb].
  unfold String.list_byte_of_string. induction b as [|x b IH]; [done|].
  cbn [hex_string String.list_ascii_of_string map forallb].
  pose proof (Byte.to_N_bounded x). rewrite !is_lower_hex_digit, IH; [done| |].
  - apply N.mod_lt. lia.
  - apply N.Div0.div_lt_upper_bound. lia.
Qed.

Lemma canonical_hex_length b n : length b = n -> canonical_hex (hex_string b) (2 * n) = true.
Proof. intros <-. apply canonical_hex_string. Qed.

Section Signing.
Context {scheme : Ed25519} {laws : Ed25519Laws} {json : FrameJson}.
Variable sha256 : bytes -> bytes.
Variable hex_decode : string -> result string bytes.
Hypothesis hex_decode_string : forall b, hex_decode (hex_string b) = Ok b.
Variable b64_encode : bytes -> string.
Variable b64_decode : string -> result string bytes.
Hypothesis b64_roundtrip : forall b, b64_decode (b64_encode b) = Ok b.
Context {R : Type}.
Variable payload_to_vec : HistoryMessage R -> result string bytes.
Variable payload_from_slice : bytes -> result string (HistoryMessage R).
Hypothesis payload_roundtrip : forall m b, payload_to_vec m = Ok b -> payload_from_slice b = Ok m.
(** The JSON text of a frame contains its payload's text. *)
Hypothesis payload_inside : forall f b, frame_to_vec f = Ok b -> str_len (f_payload_b64 f) <= N.of_nat (length b).

(** What a frame must be to be read as a message of the conversation. *)
Definition scoped (ctx mesh channel : string) (f : HistoryFrame) : Prop :=
  f_version f = 1 /\ f_conversation f = ctx /\ f_mesh_id f = mesh /\ f_channel f = channel /\
  f_round f <> 0 /\ canonical_hex (f_request_id f) 32 = true /\
  (forall k, recipient_key f = Some k -> canonical_hex k 64 = true).

Lemma open_iff ctx mesh channel f m :
  open sha256 hex_decode b64_decode payload_from_slice ctx mesh channel f = Ok m <->
  scoped ctx mesh channel f /\ canonical_hex (sender_key f) 64 = true /\
  canonical_hex (f_signature f) 128 = true /\ str_len (f_payload_b64 f) <= MAX_PUBLISH_BYTES /\
  (exists b, frame_to_vec f = Ok b /\ N.of_nat (length b) <= MAX_PUBLISH_BYTES - 128) /\
  (exists input, frame_input f = Ok input /\
     verify_signature sha256 hex_decode (sender_key f) (f_signature f) input = Ok tt) /\
  (exists b, b64_decode (f_payload_b64 f) = Ok b /\ payload_from_slice b = Ok m) /\
  (m = Probe \/ is_Some (recipient_key f)).
Proof.
  unfold open, open_payload, fits, scoped.
  assert (Hrec : match recipient_key f with Some k => canonical_hex k 64 | None => true end = true <->
    forall k, recipient_key f = Some k -> canonical_hex k 64 = true).
  { destruct (recipient_key f); [|done]. split; [by intros ? ? [= <-]|intros Hk; by apply Hk]. }
  assert (Hprobe : is_probe m || bool_decide (is_Some (recipient_key f)) = true <->
    m = Probe \/ is_Some (recipient_key f)).
  { rewrite orb_true_iff, bool_decide_eq_true. split; (intros [Hm|]; [left|by right]).
    - by destruct m. - by subst. }
  split.
  - intros (m' & Hm & [[] [Hp%guard_or_Ok [= ->]]]%bind_Ok)%bind_Ok. apply Hprobe in Hp.
    apply bind_Ok in Hm as ([] & Hs%guard_or_Ok & Hm). apply bind_Ok in Hm as ([] & Hc%guard_or_Ok & Hm).
    apply bind_Ok in Hm as (ok & (b & Hb & [= <-])%bind_Ok & Hm).
    apply bind_Ok in Hm as ([] & Hl%guard_or_Ok%N.leb_le & Hm).
    apply bind_Ok in Hm as (input & Hi & Hm). apply bind_Ok in Hm as ([] & Hv & Hm).
    apply bind_Ok in Hm as (p & Hd & Hm).
    rewrite !andb_true_iff, N.eqb_eq, !String.eqb_eq, negb_true_iff, N.eqb_neq, N.leb_le in Hs.
    rewrite !andb_true_iff, Hrec in Hc. naive_solver.
  - intros ((Hver & Hcv & Hme & Hch & Hr & Hq & Hk) & Hs & Hg & Hlen & (b & Hb & Hl) & (i & Hi & Hv) &
      (p & Hd & Hm) & Hp).
    apply bind_Ok. exists m. split; [|rewrite (proj2 Hprobe Hp); done].
    apply bind_Ok. exists tt. split.
    { apply guard_or_Ok. rewrite Hver, Hcv, Hme, Hch, Hq, !String.eqb_refl, (proj2 (N.eqb_neq _ _) Hr),
        (proj2 (N.leb_le _ _) Hlen). done. }
    apply bind_Ok. exists tt. split; [apply guard_or_Ok; by rewrite Hs, Hg, (proj2 Hrec Hk)|].
    rewrite Hb. cbn [mbind result_bind]. rewrite (proj2 (N.leb_le _ _) Hl).
    cbn [guard_or mbind result_bind]. rewrite Hi. cbn [mbind result_bind]. rewrite Hv.
    cbn [mbind result_bind]. by rewrite Hd.
Qed.

(** What is sealed arrives: a frame of this conversation that [seal] accepts
    is opened by its reader as the very message that went in, under the
    sender's own key. *)
Theorem frame_arrives seed m f f' ctx mesh channel :
  seal b64_encode payload_to_vec seed m f = (f', Ok tt) ->
  scoped ctx mesh channel f -> (m = Probe \/ is_Some (recipient_key f)) ->
  open sha256 hex_decode b64_decode payload_from_slice ctx mesh channel f' = Ok m /\
  sender_key f' = hex_string (verifying_key seed).
Proof using Type*.
  unfold seal. destruct (payload_to_vec m) as [b|e] eqn:Hb; [|done].
  set (filled := with_payload _ _ _). destruct (frame_input filled) as [input|e] eqn:Hi; [|done].
  intros [= <- Hfit] Hs Hp. split; [|done]. apply bind_Ok in Hfit as (ok & Hfits & ->%guard_or_Ok).
  unfold fits in Hfits. apply bind_Ok in Hfits as (bs & Hbs & [= Hl%N.leb_le]).
  apply open_iff. split; [exact Hs|]. cbn [sender_key f_signature f_payload_b64 with_signature].
  split; [apply (canonical_hex_length _ 32), key_length|].
  split; [apply (canonical_hex_length _ 64), sign_length|].
  split; [apply payload_inside in Hbs; cbn in Hbs |- *; unfold MAX_PUBLISH_BYTES in *; lia|].
  split; [by exists bs|]. split; [exists input; split; [exact Hi|by apply sign_verify]|].
  split; [|exact Hp]. exists b. split; [apply b64_roundtrip|by apply payload_roundtrip].
Qed.

End Signing.
(** ** Concrete inputs *)

#[local] Instance toy_manifests : ManifestJson := {|
  conversation_to_vec c := Ok (utf8 c);
  key_to_vec k := Ok (utf8 (k_message_id k));
  manifest_to_vec '(_, c, keys) :=
    Ok (utf8 "[1," ++ utf8 c ++ utf8 ",[" ++ commas (map (fun k => utf8 (k_message_id k)) keys) ++ utf8 "]]");
|}.

#[local] Instance toy_manifests_laws : ManifestJsonLaws.
Proof.
  split. intros convn keys c ks [= <-] Hks.
  assert (Hmap : ks = map (fun k => utf8 (k_message_id k)) keys); [|by rewrite Hmap].
  induction Hks as [|k b keys ks [= <-] _ IH]; [done|]. cbn [map]. by rewrite IH.
Qed.

Definition toy_history_key (i : string) : HistoryKey := {| k_message_id := i; k_sent_at_ms := 7; k_digest := "d" |}.

Lemma manifest_streams_witness : exists h0 h,
  new_hash "club" = Ok h0 /\
  push_all [toy_history_key "a"; toy_history_key "b"] h0 = (h, Ok [0; 1]) /\
  Ok (m_digest (finish Fragments.toy_sha h))
  = digest_of_vec Fragments.toy_sha (manifest_to_vec (1, "club", [toy_history_key "a"; toy_history_key "b"])) /\
  m_total (finish Fragments.toy_sha h) = 2.
Proof.
  apply (manifest_streams Fragments.toy_sha "club" [toy_history_key "a"; toy_history_key "b"] (utf8 "club")
           [utf8 "a"; utf8 "b"]).
  - reflexivity.
  - by repeat constructor.
  - unfold u64_max. cbn. lia.
Defined.

(** Two conversations of one installation import; the second is dropped. *)
Definition two_imports : Slots := (acquire "me" "b" (acquire "me" "a" ∅).1).1.

Lemma slots_exact_witness :
  (length (of_owner "me" [{| owner := "me"; conv := "a" |}]) <= MAX_ACTIVE)%nat /\
  is_Some (acquire "me" "b" (release {| owner := "me"; conv := "b" |} two_imports)).2.
Proof.
  assert (Hs : rtc slot_step (∅, [])
    (release {| owner := "me"; conv := "b" |} two_imports, [{| owner := "me"; conv := "a" |}])).
  { eapply rtc_l; [apply (ss_acquire "me" "a" ∅ (acquire "me" "a" ∅).1 [] (acquire "me" "a" ∅).2);
      by destruct (acquire _ _ _)|].
    eapply rtc_l; [apply (ss_acquire "me" "b" _ two_imports _ (acquire "me" "b" (acquire "me" "a" ∅).1).2);
      unfold two_imports; by destruct (acquire "me" "b" _)|].
    eapply rtc_l; [|apply rtc_refl]. apply ss_drop. done. }
  destruct (slots_exact _ _ "me" "b" Hs) as (Hl & _ & _ & Hgrant & _).
  split; [exact Hl|]. apply Hgrant. split; [apply Nat.ltb_lt; vm_compute; reflexivity|].
  by intros [[=]|?%elem_of_nil]%elem_of_cons.
Defined.

Definition toy_view : string := hex_string (repeat x0c 32).
Definition toy_windows : list Window :=
  let w off n := {| w_request := "r"; w_offset := off; w_manifest := toy_view; w_total := 3;
                    w_records := n; w_rows := n; w_partial := n =? 0 |} in
  [w 0 2; w 2 0; w 2 1].

(** Two records, a fragment of the third, and the third. *)
Lemma windows_tile_witness :
  exists c, take_windows toy_windows (at_row "r" toy_view 3 0 false) = Ok c /\
    cursor c = 3 /\ (complete c = true <-> toy_windows <> [] /\ rows_of toy_windows = 3).
Proof.
  exists (at_row "r" toy_view 3 3 true). split; [vm_compute; reflexivity|].
  assert (Hws : take_windows toy_windows (at_row "r" toy_view 3 0 false) = Ok (at_row "r" toy_view 3 3 true))
    by (vm_compute; reflexivity).
  destruct (windows_tile toy_windows "r" toy_view 3 _ Hws) as (_ & Hc & _ & Hd & _).
  split; [rewrite Hc; vm_compute; reflexivity|exact Hd].
Defined.

Definition toy_offer_frame : HistoryFrame :=
  {| f_version := 1; f_conversation := "group:club"; f_mesh_id := "mesh"; f_channel := "ch"; sender_key := "peer";
     recipient_key := None; f_request_id := ""; f_round := 0; f_payload_b64 := ""; f_signature := "" |}.

Lemma offer_taken_witness :
  exists s cp p, offered toy_offer_frame toy_view 3 toy_view "me" "group:club" 7 (repeat x0d 16) new_coordinator ∅
    = (s, Ok (Some (cp, p))) /\
    welcome toy_offer_frame toy_view toy_view "me" "group:club" 7 new_coordinator ∅ /\
    progress cp = at_row (hex_string (repeat x0d 16)) toy_view 3 0 false.
Proof.
  pose proof (offer_taken toy_offer_frame toy_view 3 toy_view "me" "group:club" 7 (repeat x0d 16)
                new_coordinator ∅ [] (rtc_refl _ _)) as Ho.
  destruct (offered _ _ _ _ _ _ _ _ _ _) as [s r]. destruct r as [[[cp p]|]|e].
  - destruct Ho as (Hw & _ & _ & _ & _ & _ & Hp & _). by exists s, cp, p.
  - destruct Ho as [_ []]. split; [done..| | | |].
    + done.
    + by intros deadline.
    + by split.
    + split; [apply Nat.ltb_lt; reflexivity|apply not_elem_of_empty].
  - destruct Ho as [_ Hmax]. unfold u64_max in Hmax. cbn in Hmax. lia.
Defined.

#[local] Instance toy_frames : FrameJson := {|
  frame_input_to_vec '(_, c, _, _, k, _, _, _, p) := Ok (utf8 (c +:+ k +:+ p));
  frame_to_vec f := Ok (utf8 (f_payload_b64 f));
|}.
Definition toy_payload (m : HistoryMessage unit) : result string bytes :=
  match m with Probe => Ok [x01] | Unavailable => Ok [x02] | _ => Err "unsupported" end.
Definition toy_message (b : bytes) : result string (HistoryMessage unit) :=
  match b with [x01] => Ok Probe | [x02] => Ok Unavailable | _ => Err "unsupported" end.

Definition toy_hex32 : string := hex_string (repeat x0a 16).
Definition toy_frame : HistoryFrame :=
  {| f_version := 1; f_conversation := "group:club"; f_mesh_id := "mesh"; f_channel := "ch"; sender_key := "";
     recipient_key := Some (hex_string (repeat x0b 32)); f_request_id := toy_hex32; f_round := 3;
     f_payload_b64 := ""; f_signature := "" |}.
Definition toy_sealed : HistoryFrame := (seal hex_string toy_payload [x01] Unavailable toy_frame).1.

Lemma frame_arrives_witness :
  open Fragments.toy_sha hex_bytes hex_bytes toy_message "group:club" "mesh" "ch" toy_sealed = Ok Unavailable /\
  sender_key toy_sealed = hex_string (verifying_key [x01]).
Proof.
  apply (frame_arrives Fragments.toy_sha hex_bytes hex_bytes_string hex_string hex_bytes hex_bytes_string
           toy_payload toy_message) with (f := toy_frame).
  - intros m b. by destruct m; intros [= <-].
  - intros f b [= <-]. unfold utf8, str_len, String.list_byte_of_string. rewrite length_map.
    induction (f_payload_b64 f) as [|a s IH]; cbn in *; lia.
  - vm_compute. reflexivity.
  - repeat split; try done. intros k [= <-]. vm_compute. reflexivity.
  - right. by eexists.
Defined.

End Recovery.
