(* ===== verification/Frames.v ===== *)
(** * Frames: from the wire to the owner of a frame ([conversation/dedup.rs],
      [inbox.rs], [conversation/typing.rs])

    Every frame the mesh delivers is filed under the first owner that claims
    its channel; a conversation then asks whether it has seen the frame before.
    The window of seen frames, the queues and the cadence of typing hints are
    bounded.  SHA-256 is a parameter. *)
From S2P Require Import Prelude.

Module Frames.

#[local] Open Scope mosh_scope.
#[local] Set Default Proof Using "Type".

(** ** Frames seen before ([dedup.rs]) *)

Definition SEEN_FRAME_CAP : nat := N.to_nat 4096.

Record SeenFrames := { keys : gset string; order : list string }.
Definition no_frames : SeenFrames := {| keys := ∅; order := [] |}.

Section Seen.
Variable sha256 : bytes -> bytes.

Definition frame_key (channel : string) (payload : bytes) : string :=
  channel +:+ ":" +:+ hex_string (sha256 payload).

Definition contains (channel : string) (payload : bytes) (s : SeenFrames) : bool :=
  bool_decide (frame_key channel payload ∈ keys s).

Definition seen_before (channel : string) (payload : bytes) (s : SeenFrames) : SeenFrames * bool :=
  let key := frame_key channel payload in
  if bool_decide (key ∈ keys s) then (s, true)
  else
    let known := {[ key ]} ∪ keys s in
    let line := order s ++ [key] in
    if (SEEN_FRAME_CAP <? length line)%nat
    then match line with
         | evicted :: rest => ({| keys := known ∖ {[ evicted ]}; order := rest |}, false)
         | [] => ({| keys := known; order := line |}, false)
         end
    else ({| keys := known; order := line |}, false).

Fixpoint seen_all (fs : list (string * bytes)) (s : SeenFrames) : list bool :=
  match fs with
  | [] => []
  | (c, p) :: fs => let '(s, b) := seen_before c p s in b :: seen_all fs s
  end.

(** The reference: every key ever recorded, newest first, and a look at the
    newest [SEEN_FRAME_CAP] of them. *)
Fixpoint recall_all (fs : list (string * bytes)) (log : list string) : list bool :=
  match fs with
  | [] => []
  | (c, p) :: fs =>
      let key := frame_key c p in
      if bool_decide (key ∈ take SEEN_FRAME_CAP log) then true :: recall_all fs log
      else false :: recall_all fs (key :: log)
  end.

(** The window holds the newest keys of the log, each once. *)
Record window (log : list string) (s : SeenFrames) : Prop := {
  wi_order : order s = rev (take SEEN_FRAME_CAP log);
  wi_keys k : k ∈ keys s <-> k ∈ order s;
  wi_nodup : NoDup (order s);
}.

Lemma window_record log s key : window log s -> key ∉ keys s ->
  window (key :: log)
    (let line := order s ++ [key] in
     if (SEEN_FRAME_CAP <? length line)%nat
     then match line with
          | evicted :: rest => {| keys := ({[ key ]} ∪ keys s) ∖ {[ evicted ]}; order := rest |}
          | [] => {| keys := {[ key ]} ∪ keys s; order := line |}
          end
     else {| keys := {[ key ]} ∪ keys s; order := line |}).
Proof.
  intros [Ho Hk Hn] Hnew. rewrite Hk in Hnew. cbn zeta.
  assert (Hcap : exists c, SEEN_FRAME_CAP = S c) by (exists (N.to_nat 4095); unfold SEEN_FRAME_CAP; lia).
  destruct Hcap as [c Hc]. clear -Ho Hk Hn Hnew Hc. rewrite Hc in *. generalize dependent c. intros c Ho.
  set (line := order s ++ [key]).
  assert (Hline : line = rev (key :: take (S c) log)) by (unfold line; rewrite Ho; done).
  assert (Hnd : NoDup line).
  { unfold line. apply NoDup_app. split; [done|]. split; [|apply NoDup_singleton].
    by intros x Hx ->%list_elem_of_singleton. }
  assert (Hset : forall k, k ∈ {[ key ]} ∪ keys s <-> k ∈ line).
  { intros k. unfold line. rewrite elem_of_union, elem_of_singleton, elem_of_app, list_elem_of_singleton, Hk.
    tauto. }
  clearbody line. destruct (Nat.ltb_spec (S c) (length line)) as [Hlong|Hshort].
  - destruct line as [|evicted rest]; [cbn in Hlong; lia|].
    apply NoDup_cons in Hnd as [Hout Hrest]. split; cbn [order keys]; [| |done].
    + assert (Hlen : length log >= S c).
      { apply (f_equal (@length _)) in Hline. rewrite length_rev in Hline. cbn [length] in Hline, Hlong.
        rewrite length_take in Hline. lia. }
      rewrite <-(take_drop c (take (S c) log)), take_take, Nat.min_l in Hline by lia.
      change (key :: take c log ++ drop c (take (S c) log))
        with ((key :: take c log) ++ drop c (take (S c) log)) in Hline.
      rewrite rev_app_distr in Hline.
      assert (H1 : length (drop c (take (S c) log)) = 1).
      { rewrite length_drop, length_take. lia. }
      destruct (drop c (take (S c) log)) as [|x [|]]; [done| |done].
      rewrite Hc. cbn [rev app take] in Hline |- *. by injection Hline as _ ->.
    + intros k. rewrite elem_of_difference, elem_of_singleton, Hset, elem_of_cons.
      split; [by intros [[->|?] ?]|]. intros Hin. split; [by right|]. by intros ->.
  - split; cbn [order keys]; [|done|done]. rewrite Hline, Hc. cbn [take]. f_equal.
    apply (f_equal (@length _)) in Hline. rewrite length_rev in Hline. cbn [length] in Hline.
    rewrite length_take in Hline. by rewrite !take_ge by lia.
Qed.

(** A repeat is spotted exactly within the window: whatever frames arrive, a
    frame is reported as seen if and only if its key is one of the last
    [SEEN_FRAME_CAP] keys that were recorded. *)
Theorem seen_window fs : seen_all fs no_frames = recall_all fs [].
Proof.
  assert (Hw : window [] no_frames).
  { split; cbn; [by rewrite take_nil|intros k; by rewrite elem_of_empty, elem_of_nil|constructor]. }
  revert Hw. generalize no_frames. generalize (@nil string).
  induction fs as [|[c p] fs IH]; intros log s Hw; [done|]. cbn [seen_all recall_all].
  unfold seen_before.
  assert (Hkey : frame_key c p ∈ keys s <-> frame_key c p ∈ take SEEN_FRAME_CAP log).
  { rewrite (wi_keys _ _ Hw), (wi_order _ _ Hw). by rewrite !list_elem_of_In, <-in_rev. }
  destruct (bool_decide_reflect (frame_key c p ∈ keys s)) as [Hin|Hnot].
  - rewrite bool_decide_eq_true_2 by by apply Hkey. f_equal. by apply IH.
  - rewrite bool_decide_eq_false_2 by by rewrite <-Hkey.
    pose proof (window_record _ _ _ Hw Hnot) as Hw'. cbn zeta in Hw'.
    destruct (_ <? _)%nat; [destruct (order s ++ _)|]; f_equal; by apply IH.
Qed.

End Seen.

(** ** The queue of each owner ([inbox.rs]) *)

Record MossReceivedMessage := { channel : string; payload : bytes }.

(** A claim, the frames waiting, and the limits on their number and size. *)
Record Slot := {
  claim : option (string -> bool);
  queue : list MossReceivedMessage;
  limits : option (nat * nat);
}.

Definition UNCLAIMED_CAP : nat := 256.

Definition tail_slot : Slot := {| claim := None; queue := []; limits := None |}.
(** The registry, with its tail. *)
Definition slots (s : list Slot) : list Slot := match s with [] => [tail_slot] | _ => s end.

Definition register (c : string -> bool) (s : list Slot) : list Slot * nat :=
  let s := slots s ++ [{| claim := Some c; queue := []; limits := None |}] in (s, pred (length s)).

(** [None] is the failed assertion. *)
Definition register_bounded (c : string -> bool) (capacity max_payload : nat) (s : list Slot)
  : option (list Slot * nat) :=
  if (0 <? capacity)%nat && (0 <? max_payload)%nat
  then let s := slots s ++ [{| claim := Some c; queue := []; limits := Some (capacity, max_payload) |}] in
       Some (s, pred (length s))
  else None.

Definition with_queue (q : list MossReceivedMessage) (sl : Slot) : Slot :=
  {| claim := claim sl; queue := q; limits := limits sl |}.

Definition claims (ch : string) (sl : Slot) : Prop :=
  match claim sl with Some c => c ch = true | None => False end.
#[export] Instance claims_dec ch sl : Decision (claims ch sl).
Proof. unfold claims. destruct (claim sl); apply _. Defined.

Definition file (m : MossReceivedMessage) (sl : Slot) : Slot :=
  match limits sl with
  | None => with_queue (queue sl ++ [m]) sl
  | Some (capacity, max_payload) =>
      if (max_payload <? length (payload m))%nat then sl
      else with_queue ((if (capacity <=? length (queue sl))%nat then tail (queue sl) else queue sl) ++ [m]) sl
  end.

Definition file_unclaimed (m : MossReceivedMessage) (sl : Slot) : Slot :=
  with_queue ((if (UNCLAIMED_CAP <=? length (queue sl))%nat then tail (queue sl) else queue sl) ++ [m]) sl.

(** [Iterator::position] of the owner. *)
Definition position (ch : string) (s : list Slot) : option nat := fst <$> list_find (claims ch) s.

Definition deliver (m : MossReceivedMessage) (s : list Slot) : list Slot :=
  let s := slots s in
  match position (channel m) s with
  | Some i => alter (file m) i s
  | None => alter (file_unclaimed m) 0 s
  end.

Definition drain (i : nat) (s : list Slot) : list Slot * list MossReceivedMessage :=
  let s := slots s in (alter (with_queue []) i s, match s !! i with Some sl => queue sl | None => [] end).

Definition drain_all (s : list Slot) : list Slot * list MossReceivedMessage :=
  let s := slots s in (map (with_queue []) s, concat (map queue s)).

(** *** What each owner gets *)

Inductive event := Deliver (m : MossReceivedMessage) | Drain (i : nat) | DrainAll.

Definition step (e : event) (s : list Slot) : list Slot :=
  match e with Deliver m => deliver m s | Drain i => (drain i s).1 | DrainAll => (drain_all s).1 end.

(** A registry right after its owners registered. *)
Definition registry (s : list Slot) : Prop :=
  (exists rest, s = tail_slot :: rest) /\
  Forall (fun sl => queue sl = [] /\ match limits sl with Some (c, _) => 0 < c | None => True end) s /\
  forall i sl, s !! i = Some sl -> claim sl = None -> i = 0.

(** The owner of a channel: the first slot that claims it, else the tail. *)
Definition owner_of (s : list Slot) (ch : string) : nat := default 0 (position ch s).

Definition fits (sl : Slot) (m : MossReceivedMessage) : bool :=
  match limits sl with Some (_, max) => (length (payload m) <=? max)%nat | None => true end.

Definition capacity_of (i : nat) (sl : Slot) : option nat :=
  if (i =? 0)%nat then Some UNCLAIMED_CAP else fst <$> limits sl.

Definition keep_last {A} (n : option nat) (l : list A) : list A :=
  match n with Some n => drop (length l - n) l | None => l end.

(** The frames that came for slot [i] since it was last drained. *)
Definition wait (s : list Slot) (i : nat) (sl : Slot) (l : list MossReceivedMessage) (e : event)
  : list MossReceivedMessage :=
  match e with
  | Deliver m => if (owner_of s (channel m) =? i)%nat && fits sl m then l ++ [m] else l
  | Drain j => if (j =? i)%nat then [] else l
  | DrainAll => []
  end.

Lemma keep_last_snoc {A} c (l : list A) m : 0 < c ->
  (if (c <=? length (keep_last (Some c) l))%nat then tail (keep_last (Some c) l) else keep_last (Some c) l) ++ [m]
  = keep_last (Some c) (l ++ [m]).
Proof.
  intros Hc. cbn [keep_last]. rewrite length_drop, length_app. cbn [length].
  destruct (Nat.leb_spec c (length l - (length l - c))) as [Hle|Hlt].
  - replace (length l + 1 - c) with (S (length l - c)) by lia.
    rewrite drop_app_le by lia. f_equal. replace (S (length l - c)) with (length l - c + 1) by lia.
    rewrite <-drop_drop. by destruct (drop (length l - c) l).
  - replace (length l - c) with 0 by lia. replace (length l + 1 - c) with 0 by lia. done.
Qed.

Lemma position_claims ch s s' : map claim s = map claim s' -> position ch s = position ch s'.
Proof.
  unfold position. revert s'. induction s as [|a s IH]; intros [|a' s'] Heq; [done|done|done|].
  injection Heq as Ha Hs.
  cbn [list_find]. assert (claims ch a <-> claims ch a') by (unfold claims; by rewrite Ha).
  destruct (decide (claims ch a)), (decide (claims ch a')); [done|tauto|tauto|].
  specialize (IH s' Hs). destruct (list_find _ s) as [[]|], (list_find _ s') as [[]|]; cbn in *; congruence.
Qed.

Lemma slots_registry s : registry s -> slots s = s.
Proof. by intros [[rest ->] _]. Qed.

(** A slot of the registry now, after [es]. *)
Definition slot_after (s : list Slot) (es : list event) (i : nat) (sl : Slot) : Slot :=
  with_queue (keep_last (capacity_of i sl) (foldl (wait s i sl) [] es)) sl.

Lemma claims_after s es : map claim (imap (slot_after s es) s) = map claim s.
Proof.
  apply list_eq. intros i. rewrite !list_lookup_fmap, list_lookup_imap. by destruct (s !! i).
Qed.

Lemma position_lookup ch s i : position ch s = Some i -> exists sl, s !! i = Some sl /\ claims ch sl.
Proof.
  unfold position. intros ([j sl] & (Hl & Hc & _)%list_find_Some & ->)%fmap_Some. by exists sl.
Qed.

Lemma file_after s i sl es m : registry s -> s !! i = Some sl -> 0 < i -> owner_of s (channel m) = i ->
  file m (slot_after s es i sl) = slot_after s (es ++ [Deliver m]) i sl.
Proof.
  intros (_ & Hall & _) Hi Hpos Ho. unfold slot_after. rewrite foldl_snoc. cbn [wait].
  rewrite Forall_lookup in Hall. specialize (Hall i sl Hi) as [_ Hcap].
  unfold file, fits, capacity_of, with_queue. cbn [limits queue].
  rewrite Ho, Nat.eqb_refl, (proj2 (Nat.eqb_neq i 0)) by lia. cbn [andb].
  destruct (limits sl) as [[c max]|]; cbn [fmap option_fmap option_map fst].
  - rewrite Nat.ltb_antisym. destruct (_ <=? _)%nat; cbn [negb]; [by rewrite keep_last_snoc|done].
  - done.
Qed.

Lemma tail_after s sl es m : s !! 0 = Some sl -> limits sl = None -> owner_of s (channel m) = 0 ->
  file_unclaimed m (slot_after s es 0 sl) = slot_after s (es ++ [Deliver m]) 0 sl.
Proof.
  intros Hi Hl Ho. unfold slot_after. rewrite foldl_snoc. cbn [wait]. unfold file_unclaimed, with_queue.
  cbn [queue claim limits capacity_of Nat.eqb]. unfold fits. rewrite Ho, Hl. cbn [andb Nat.eqb].
  rewrite keep_last_snoc; [done|unfold UNCLAIMED_CAP; lia].
Qed.

Lemma untouched s i sl es m : owner_of s (channel m) <> i ->
  slot_after s (es ++ [Deliver m]) i sl = slot_after s es i sl.
Proof.
  intros Ho. unfold slot_after. rewrite foldl_snoc. cbn [wait].
  by rewrite (proj2 (Nat.eqb_neq _ _) Ho).
Qed.

Lemma drained_after s i sl es e : (e = Drain i \/ e = DrainAll) ->
  with_queue [] (slot_after s es i sl) = slot_after s (es ++ [e]) i sl.
Proof.
  intros He. unfold slot_after. rewrite foldl_snoc. unfold with_queue. cbn [claim limits].
  assert (Hw : forall l, wait s i sl l e = []) by (intros; destruct He as [-> | ->]; cbn; by rewrite ?Nat.eqb_refl).
  rewrite Hw. by destruct (capacity_of i sl).
Qed.

Lemma step_after s es e : registry s ->
  step e (imap (slot_after s es) s) = imap (slot_after s (es ++ [e])) s.
Proof.
  intros Hs. pose proof Hs as ([rest Hrest] & Hall & Hclaim).
  assert (Hsl : slots (imap (slot_after s es) s) = imap (slot_after s es) s) by by rewrite Hrest.
  apply list_eq. intros i. rewrite list_lookup_imap.
  destruct e as [m|j|]; cbn [step].
  - unfold deliver. rewrite Hsl, (position_claims _ _ _ (claims_after s es)).
    destruct (position (channel m) s) as [k|] eqn:Hp.
    + apply position_lookup in Hp as Hk. destruct Hk as (sl & Hk & Hc).
      assert (Ho : owner_of s (channel m) = k) by (unfold owner_of; by rewrite Hp).
      assert (0 < k).
      { destruct k; [|lia]. rewrite Hrest in Hk. injection Hk as <-. by cbn in Hc. }
      destruct (decide (k = i)) as [->|Hne].
      * rewrite list_lookup_alter_eq, list_lookup_imap, Hk. cbn. f_equal. by apply file_after.
      * rewrite list_lookup_alter_ne, list_lookup_imap by done. destruct (s !! i) as [sl'|]; [|done].
        cbn. f_equal. symmetry. apply untouched. congruence.
    + assert (Ho : owner_of s (channel m) = 0) by (unfold owner_of; by rewrite Hp).
      destruct i as [|i].
      * rewrite list_lookup_alter_eq, list_lookup_imap, Hrest. cbn [lookup list_lookup fmap option_fmap option_map].
        f_equal. rewrite <-Hrest. by apply tail_after; [rewrite Hrest| |].
      * rewrite list_lookup_alter_ne, list_lookup_imap by done. destruct (s !! S i) as [sl'|]; [|done].
        cbn. f_equal. symmetry. apply untouched. congruence.
  - unfold drain. rewrite Hsl. cbn [fst]. destruct (decide (j = i)) as [->|Hne].
    + rewrite list_lookup_alter_eq, list_lookup_imap. destruct (s !! i) as [sl|]; [|done].
      cbn. f_equal. apply drained_after. by left.
    + rewrite list_lookup_alter_ne, list_lookup_imap by done. destruct (s !! i) as [sl|]; [|done].
      cbn. f_equal. unfold slot_after. rewrite foldl_snoc. cbn [wait].
      by rewrite (proj2 (Nat.eqb_neq j i)) by done.
  - unfold drain_all. rewrite Hsl. cbn [fst]. rewrite list_lookup_fmap, list_lookup_imap.
    destruct (s !! i) as [sl|]; [|done]. cbn. f_equal. apply drained_after. by right.
Qed.

(** Every owner gets its own frames and no other's, in the order they came:
    after any interleaving of deliveries and drains, a drain of slot [i] yields
    the frames delivered since its last one whose channel slot [i] is the first
    to claim, those over its size limit left out, and of them the newest its
    capacity allows; what nobody claims waits in the tail, at most
    [UNCLAIMED_CAP] of them. *)
Theorem inbox_exact s es i sl : registry s -> s !! i = Some sl ->
  (drain i (foldl (flip step) s es)).2 = keep_last (capacity_of i sl) (foldl (wait s i sl) [] es).
Proof.
  intros Hs Hi. assert (Hstart : s = imap (slot_after s []) s).
  { apply list_eq. intros j. rewrite list_lookup_imap. destruct (s !! j) as [sl'|] eqn:Hj; [|done].
    cbn. f_equal. destruct Hs as (_ & Hall & _). rewrite Forall_lookup in Hall.
    apply Hall in Hj as [Hq _]. unfold slot_after, with_queue. cbn. destruct sl'; cbn in *. subst.
    by destruct (capacity_of _ _). }
  assert (Hrun : foldl (flip step) s es = imap (slot_after s es) s).
  { induction es as [|e es IH] using rev_ind; [done|]. rewrite foldl_snoc, IH. by apply step_after. }
  rewrite Hrun. unfold drain. replace (slots (imap (slot_after s es) s)) with (imap (slot_after s es) s).
  2: { destruct Hs as ([rest ->] & _). done. }
  cbn [snd]. rewrite list_lookup_imap, Hi. done.
Qed.

(** ** The cadence of typing hints ([typing.rs]) *)

Definition TYPING_REFRESH_MS : N := 3000.
Definition TYPING_EXPIRY_MS : N := 5000.

Record TypingGate := { last_send_ms : N }.

Definition send_due (now : N) (g : TypingGate) : TypingGate * bool :=
  if (saturating_sub now (last_send_ms g) <? TYPING_REFRESH_MS)%N then (g, false)
  else ({| last_send_ms := now |}, true).

Definition deadline (now : N) : N := saturating_add64 now TYPING_EXPIRY_MS.

(** The hints that go out when the user types at the given times. *)
Fixpoint hints (asks : list N) (g : TypingGate) : list N :=
  match asks with
  | [] => []
  | now :: asks => let '(g, due) := send_due now g in (if due then [now] else []) ++ hints asks g
  end.

(** Two hints are never closer than the refresh, whatever the clock does. *)
Lemma hints_spaced asks g :
  StronglySorted (fun a b => (a + TYPING_REFRESH_MS <= b)%N) (last_send_ms g :: hints asks g).
Proof.
  revert g. induction asks as [|now asks IH]; intros g; [repeat constructor|].
  cbn [hints]. unfold send_due, saturating_sub.
  destruct (N.ltb_spec (now - last_send_ms g) TYPING_REFRESH_MS) as [|Hdue]; [apply IH|].
  specialize (IH {| last_send_ms := now |}). cbn [last_send_ms app] in *.
  apply StronglySorted_inv in IH as [Hs Hall]. constructor; [by constructor|].
  assert (Hg : (last_send_ms g + TYPING_REFRESH_MS <= now)%N) by (unfold TYPING_REFRESH_MS in *; lia).
  constructor; [done|]. eapply Forall_impl; [exact Hall|]. cbn. intros t Ht.
  unfold TYPING_REFRESH_MS in *. lia.
Qed.

(** A hint sent now keeps the receiver's slot alive until the next one is due. *)
Lemma hint_outlives_refresh now : (now + TYPING_EXPIRY_MS <= u64_max)%N ->
  (now + TYPING_REFRESH_MS < deadline now)%N.
Proof. unfold deadline, saturating_add64, TYPING_REFRESH_MS, TYPING_EXPIRY_MS. lia. Qed.

(** Registering keeps a registry that has not met a frame yet. *)
Lemma registry_start : registry (slots []).
Proof.
  split; [by exists []|]. split; [repeat constructor|].
  intros [|i] sl Hi _; [done|by destruct i].
Qed.

Lemma registry_more s c l : registry s -> match l with Some (n, _) => 0 < n | None => True end ->
  registry (s ++ [{| claim := Some c; queue := []; limits := l |}]).
Proof.
  intros ([rest ->] & Hall & Hc) Hl. split; [by eexists|]. split.
  - apply Forall_app. split; [done|]. by repeat constructor.
  - intros i sl Hi Hn. apply lookup_app_Some in Hi as [Hi|[_ Hi]]; [by eapply Hc|].
    apply list_lookup_singleton_Some in Hi as [_ <-]. done.
Qed.

Lemma register_registry c s : registry s -> registry (register c s).1.
Proof. intros Hs. unfold register. rewrite slots_registry by done. by apply registry_more. Qed.

Lemma register_bounded_registry c n max s s' i :
  registry s -> register_bounded c n max s = Some (s', i) -> registry s'.
Proof.
  intros Hs. unfold register_bounded. destruct (Nat.ltb_spec 0 n); [|done].
  destruct (0 <? max)%nat; [|done]. cbn [andb]. rewrite slots_registry by done.
  intros [= <- _]. by apply registry_more.
Qed.

(** ** A concrete run *)

Definition starts_with (c : string) : string -> bool := fun s => bool_decide (is_Some (strip_prefix c s)).
Definition two_owners : list Slot :=
  let s := (register (starts_with "dm/") []).1 in
  default [] (fst <$> register_bounded (starts_with "media/") 2 3 s).
Definition frame (c : string) (n : nat) : MossReceivedMessage :=
  {| channel := c; payload := replicate n x00 |}.
Definition some_traffic : list event :=
  [Deliver (frame "media/1" 1); Deliver (frame "dm/1" 9); Deliver (frame "media/2" 4);
   Deliver (frame "media/3" 2); Drain 1; Deliver (frame "dm/2" 1); Deliver (frame "media/4" 3)].

Lemma inbox_exact_witness :
  registry two_owners /\ two_owners !! 2 = Some {| claim := Some (starts_with "media/"); queue := []; limits := Some (2, 3) |} /\
  (drain 2 (foldl (flip step) two_owners some_traffic)).2 = [frame "media/3" 2; frame "media/4" 3].
Proof.
  assert (Hr : registry two_owners).
  { apply (register_bounded_registry (starts_with "media/") 2 3 (register (starts_with "dm/") (slots [])).1 _ 2);
      [apply register_registry, registry_start|reflexivity]. }
  split; [exact Hr|]. split; [reflexivity|].
  etrans; [exact (inbox_exact two_owners some_traffic 2 _ Hr eq_refl)|]. vm_compute. reflexivity.
Defined.

End Frames.
