(* ===== verification/Courier.v ===== *)
(** * Courier: the carrier of directed history ([conversation/recovery/transport.rs]
      and its [bounded], [generation] and [worker] modules)

    History packets go to one peer at a time through a bounded queue and one
    worker, because a native send may block.  A packet carries a permit of the
    runtime that queued it; losing the right to send, or shutting history
    down, moves a generation on, and a permit of an earlier generation is
    refused when the worker claims it.  The threads' short critical sections
    are the atomic actions of the model; they interleave freely.  A panic (a
    failed assertion, an unsigned underflow) is [None]. *)
From S2P Require Import Prelude Recovery.

Module Courier.
Import Recovery.

#[local] Open Scope mosh_scope.
#[local] Open Scope N_scope.
#[local] Set Default Proof Using "Type".

(** ** A queue with a budget ([bounded.rs]) *)

Definition MAX_FRAMES : N := 32.
Definition MAX_BYTES : N := 1024 * 1024.

Record Bounded (T : Type) := { items : list (N * T); held_bytes : N; count : N }.
Arguments items {T} _.
Arguments held_bytes {T} _.
Arguments count {T} _.

Section Bounded.
Context {T : Type}.

Definition empty_queue : Bounded T := {| items := []; held_bytes := 0; count := 0 |}.

Definition has_room (n : N) (b : Bounded T) : bool :=
  (count b <? MAX_FRAMES) && (n <=? saturating_sub MAX_BYTES (held_bytes b)).

Definition push (item : T) (n : N) (b : Bounded T) : option (Bounded T) :=
  if has_room n b
  then Some {| items := items b ++ [(n, item)]; held_bytes := held_bytes b + n; count := count b + 1 |}
  else None.

Definition total_bytes (l : list (N * T)) : N := foldr (fun x acc => x.1 + acc) 0 l.

Definition drain (b : Bounded T) : option (Bounded T * list T) :=
  left_bytes ← checked_sub64 (held_bytes b) (total_bytes (items b));
  left_count ← checked_sub64 (count b) (N.of_nat (length (items b)));
  Some ({| items := []; held_bytes := left_bytes; count := left_count |}, map snd (items b)).

Definition pop (b : Bounded T) : Bounded T * option (N * T) :=
  match items b with
  | [] => (b, None)
  | x :: rest => ({| items := rest; held_bytes := held_bytes b; count := count b |}, Some x)
  end.

Definition complete (n : N) (b : Bounded T) : option (Bounded T) :=
  left_bytes ← checked_sub64 (held_bytes b) n;
  left_count ← checked_sub64 (count b) 1;
  Some {| items := items b; held_bytes := left_bytes; count := left_count |}.

(** What the budget accounts for: the queued items, and those taken out but not
    completed. *)
Record accounted (active : list N) (b : Bounded T) : Prop := {
  ac_bytes : held_bytes b = total_bytes (items b) + foldr N.add 0 active;
  ac_count : count b = N.of_nat (length (items b) + length active);
  ac_room : held_bytes b <= MAX_BYTES /\ count b <= MAX_FRAMES;
}.

Lemma total_bytes_app l l' : total_bytes (l ++ l') = total_bytes l + total_bytes l'.
Proof.
  unfold total_bytes. induction l as [|x l IH]; cbn [app foldr]; [done|]. rewrite IH. lia.
Qed.

Lemma accounted_empty : accounted [] empty_queue.
Proof. by split. Qed.

Lemma push_ok active item n b : accounted active b -> has_room n b = true ->
  exists b', push item n b = Some b' /\ accounted active b' /\ items b' = items b ++ [(n, item)].
Proof.
  intros [Hb Hc [Hm Hf]] Hr. unfold push. rewrite Hr. eexists. split; [done|]. split; [|done].
  unfold has_room, saturating_sub in Hr. apply andb_true_iff in Hr as [Hn%N.ltb_lt Hs%N.leb_le].
  split; cbn [items held_bytes count].
  - rewrite total_bytes_app, Hb. cbn. lia.
  - rewrite length_app, Hc. cbn. lia.
  - unfold MAX_FRAMES in *. lia.
Qed.

Lemma drain_ok active b : accounted active b ->
  exists b', drain b = Some (b', map snd (items b)) /\ accounted active b' /\ items b' = [].
Proof.
  intros [Hb Hc [Hm Hf]]. unfold drain, checked_sub64. rewrite !(proj2 (N.leb_le _ _)) by lia.
  cbn. eexists. split; [done|]. split; [|done]. split; cbn; lia.
Qed.

Lemma pop_ok active b : accounted active b ->
  match pop b with
  | (b', None) => b' = b /\ items b = []
  | (b', Some (n, x)) => accounted (n :: active) b' /\ items b = (n, x) :: items b'
  end.
Proof.
  intros [Hb Hc Hm]. unfold pop. destruct (items b) as [|[n x] rest] eqn:Hi; [done|].
  split; [|done]. split; cbn [items held_bytes count foldr length] in *; [|lia|done].
  rewrite Hb. unfold total_bytes. cbn [foldr fst]. lia.
Qed.

Lemma complete_ok n active b : accounted (n :: active) b ->
  exists b', complete n b = Some b' /\ accounted active b' /\ items b' = items b.
Proof.
  intros [Hb Hc [Hm Hf]]. cbn [foldr length] in *. unfold complete, checked_sub64.
  rewrite !(proj2 (N.leb_le _ _)) by lia. cbn. eexists. split; [done|]. split; [|done].
  split; cbn [items held_bytes count]; lia.
Qed.

End Bounded.

(** ** The world of the courier *)

Definition PREFIX : bytes := utf8 "mosh-history-v1" ++ [x00].

Record Packet := { claimed_peer : string; packet : bytes }.

Record Execution := { generation : N; active : N }.

(** An owner's generation lives behind a shared pointer; the permit keeps the
    pointer. *)
Record DispatchPermit := {
  owner_cell : nat;
  owner_generation : N;
  execution_generation : N;
}.
#[export] Instance DispatchPermit_eq_dec : EqDecision DispatchPermit.
Proof. solve_decision. Defined.

Record Job := {
  node : nat;
  recipient : string;
  carrier : bytes;
  queued : N;
  j_permit : DispatchPermit;
}.

(** Where the worker stands in its loop. *)
Inductive Worker :=
| Idle
| Took (n : N) (j : Job)
| Sending (n : N) (j : Job)
| Done (n : N).

(** [allowed] is [background::history_execution_allowed]; [sent] logs what was
    handed to the node, latest first. *)
Record World := {
  execution : Execution;
  cells : gmap nat N;
  allowed : bool;
  sender : Bounded Job;
  worker : Worker;
  inbound : Bounded Packet;
  sent : list Job;
}.

Definition set_execution (e : Execution) (w : World) : World :=
  {| execution := e; cells := cells w; allowed := allowed w; sender := sender w; worker := worker w;
     inbound := inbound w; sent := sent w |}.
Definition set_cells (c : gmap nat N) (w : World) : World :=
  {| execution := execution w; cells := c; allowed := allowed w; sender := sender w; worker := worker w;
     inbound := inbound w; sent := sent w |}.
Definition set_allowed (b : bool) (w : World) : World :=
  {| execution := execution w; cells := cells w; allowed := b; sender := sender w; worker := worker w;
     inbound := inbound w; sent := sent w |}.
Definition set_sender (q : Bounded Job) (k : Worker) (w : World) : World :=
  {| execution := execution w; cells := cells w; allowed := allowed w; sender := q; worker := k;
     inbound := inbound w; sent := sent w |}.
Definition set_inbound (q : Bounded Packet) (w : World) : World :=
  {| execution := execution w; cells := cells w; allowed := allowed w; sender := sender w; worker := worker w;
     inbound := q; sent := sent w |}.
Definition log_sent (j : Job) (w : World) : World :=
  {| execution := execution w; cells := cells w; allowed := allowed w; sender := sender w; worker := worker w;
     inbound := inbound w; sent := j :: sent w |}.

Definition cell (o : nat) (w : World) : N := default 0 (cells w !! o).

(** *** Permits ([generation.rs]) *)

Definition permit (o : nat) (w : World) : DispatchPermit :=
  {| owner_cell := o; owner_generation := cell o w; execution_generation := generation (execution w) |}.

Definition invalidate (o : nat) (w : World) : World :=
  set_cells (<[ o := wrapping_add64 (cell o w) 1 ]> (cells w)) w.

Definition is_current (p : DispatchPermit) (w : World) : bool :=
  (cell (owner_cell p) w =? owner_generation p)
  && (generation (execution w) =? execution_generation p) && allowed w.

Definition claim (p : DispatchPermit) (w : World) : World * bool :=
  if is_current p w
  then (set_execution {| generation := generation (execution w); active := active (execution w) + 1 |} w, true)
  else (w, false).

(** [Drop] of an [ActiveSend]. *)
Definition end_send (w : World) : option World :=
  n ← checked_sub64 (active (execution w)) 1;
  Some (set_execution {| generation := generation (execution w); active := n |} w).

Definition cancel (w : World) : World :=
  set_execution {| generation := wrapping_add64 (generation (execution w)) 1; active := active (execution w) |} w.

(** *** Queueing and sending ([worker.rs]) *)

Definition enqueue (nd : nat) (peer : string) (payload : bytes) (p : DispatchPermit) (now : N) (w : World)
  : option (World * result string unit) :=
  if negb (canonical_hex peer 64)
     || (MAX_PUBLISH_BYTES <? saturating_add64 (N.of_nat (length payload)) (N.of_nat (length PREFIX)))
     || negb (is_current p w)
  then Some (w, Err "invalid directed history carrier")
  else
    let n := N.of_nat (length PREFIX + length payload + String.length peer) in
    if negb (has_room n (sender w)) then Some (w, Err "history send queue is full")
    else
      q ← push {| node := nd; recipient := peer; carrier := PREFIX ++ payload; queued := now; j_permit := p |}
            n (sender w);
      Some (set_sender q (worker w) w, Ok tt).

(** The worker takes a job; with an empty queue it sleeps. *)
Definition take_job (w : World) : World :=
  match worker w with
  | Idle => match pop (sender w) with
            | (q, Some (n, j)) => set_sender q (Took n j) w
            | (q, None) => w
            end
  | _ => w
  end.

Definition dispatch (now : N) (w : World) : World :=
  match worker w with
  | Took n j =>
      if 10000 <? saturating_sub now (queued j) then set_sender (sender w) (Done n) w
      else match claim (j_permit j) w with
           | (w, true) => log_sent j (set_sender (sender w) (Sending n j) w)
           | (w, false) => set_sender (sender w) (Done n) w
           end
  | _ => w
  end.

(** The native call returned, with or without an error. *)
Definition send_returned (w : World) : option World :=
  match worker w with
  | Sending n j => w ← end_send w; Some (set_sender (sender w) (Done n) w)
  | _ => Some w
  end.

Definition finish_job (w : World) : option World :=
  match worker w with
  | Done n => q ← complete n (sender w); Some (set_sender q Idle w)
  | _ => Some w
  end.

Definition cancel_queued (w : World) : option World :=
  qd ← drain (sender w); Some (set_sender qd.1 (worker w) w).

(** *** Arrivals ([transport.rs]) *)

Fixpoint strip_bytes (p b : bytes) : option bytes :=
  match p, b with
  | [], _ => Some b
  | x :: p, y :: b => if Byte.eqb x y then strip_bytes p b else None
  | _ :: _, [] => None
  end.

Definition offer (from : string) (payload : bytes) (w : World) : option (World * bool) :=
  match strip_bytes PREFIX payload with
  | None => Some (w, false)
  | Some body =>
      if (N.of_nat (length payload) <=? MAX_PUBLISH_BYTES) && (str_len from <=? 128)
         && has_room (N.of_nat (length payload) + str_len from) (inbound w)
      then q ← push {| claimed_peer := from; packet := body |} (N.of_nat (length payload) + str_len from) (inbound w);
           Some (set_inbound q w, true)
      else Some (w, true)
  end.

Definition drain_inbound (w : World) : option (World * list Packet) :=
  qd ← drain (inbound w); Some (set_inbound qd.1 w, qd.2).

(** ** Interleavings *)

Inductive action :=
| AInvalidate (o : nat)
| ACancel
| ACancelQueued
| AAllow (b : bool)
| AEnqueue (nd : nat) (peer : string) (payload : bytes) (p : DispatchPermit) (now : N)
| ATake
| ADispatch (now : N)
| AReturned
| AFinish
| AOffer (from : string) (payload : bytes)
| ADrain.

Definition act (a : action) (w : World) : option World :=
  match a with
  | AInvalidate o => Some (invalidate o w)
  | ACancel => Some (cancel w)
  | ACancelQueued => cancel_queued w
  | AAllow b => Some (set_allowed b w)
  | AEnqueue nd peer payload p now => fst <$> enqueue nd peer payload p now w
  | ATake => Some (take_job w)
  | ADispatch now => Some (dispatch now w)
  | AReturned => send_returned w
  | AFinish => finish_job w
  | AOffer from payload => fst <$> offer from payload w
  | ADrain => fst <$> drain_inbound w
  end.

Fixpoint run (acts : list action) (w : World) : option World :=
  match acts with
  | [] => Some w
  | a :: acts => w ← act a w; run acts w
  end.

Definition start : World :=
  {| execution := {| generation := 0; active := 0 |}; cells := ∅; allowed := false; sender := empty_queue;
     worker := Idle; inbound := empty_queue; sent := [] |}.

(** [cancel_pending]: three critical sections. *)
Definition cancel_pending : list action := [ACancel; ACancelQueued; ADrain].

(** ** Budgets hold and nothing panics *)

Definition in_hand (k : Worker) : list N :=
  match k with Idle => [] | Took n _ | Sending n _ | Done n => [n] end.
Definition on_wire (k : Worker) : N := match k with Sending _ _ => 1 | _ => 0 end.

Record courier_ok (w : World) : Prop := {
  ok_sender : accounted (in_hand (worker w)) (sender w);
  ok_inbound : accounted [] (inbound w);
  ok_active : active (execution w) = on_wire (worker w);
}.

Ltac settled := eexists; split; [reflexivity|]; split; cbn; repeat match goal with
  | H : worker _ = _ |- _ => rewrite ?H in *; clear H end; cbn in *; by auto with lia.

Lemma act_ok a w : courier_ok w -> exists w', act a w = Some w' /\ courier_ok w'.
Proof.
  intros [Hs Hi Ha]. destruct a; cbn [act].
  - settled.
  - settled.
  - destruct (drain_ok _ _ Hs) as (q & Hd & Hq & _). unfold cancel_queued. rewrite Hd. settled.
  - settled.
  - unfold enqueue. destruct (_ || _ || _); [settled|].
    destruct (has_room _ (sender w)) eqn:Hr; cbn [negb]; [|settled].
    edestruct (push_ok (T := Job)) as (q & Hp & Hq & _); [exact Hs|exact Hr|]. rewrite Hp. settled.
  - unfold take_job. destruct (worker w) eqn:Hw; try (by settled).
    pose proof (pop_ok _ _ Hs) as Hp. destruct (pop (sender w)) as [q [[n j]|]].
    + destruct Hp as [Hq _]. settled.
    + settled.
  - unfold dispatch. destruct (worker w) as [|n j| |] eqn:Hw; try (by settled).
    destruct (_ <? _); [settled|]. unfold claim. destruct (is_current _ w); [|settled].
    settled.
  - unfold send_returned. destruct (worker w) as [| |n j|] eqn:Hw;
      try (by settled).
    unfold end_send, checked_sub64. rewrite Ha. cbn. settled.
  - unfold finish_job. destruct (worker w) as [| | |n] eqn:Hw; try (by settled).
    destruct (complete_ok _ _ _ Hs) as (q & Hc & Hq & _). rewrite Hc. settled.
  - unfold offer. destruct (strip_bytes _ _); [|settled]. destruct (_ && has_room _ _) eqn:Hr; [|settled].
    apply andb_true_iff in Hr as [_ Hr]. edestruct (push_ok (T := Packet)) as (q & Hp & Hq & _); [exact Hi|exact Hr|].
    rewrite Hp. settled.
  - destruct (drain_ok _ _ Hi) as (q & Hd & Hq & _). unfold drain_inbound. rewrite Hd. settled.
Qed.

Lemma run_ok acts w : courier_ok w -> exists w', run acts w = Some w' /\ courier_ok w'.
Proof.
  revert w. induction acts as [|a acts IH]; intros w Hw; [by exists w|].
  destruct (act_ok a w Hw) as (w1 & H1 & Hw1). cbn. rewrite H1. by apply IH.
Qed.

Lemma start_ok : courier_ok start.
Proof. by split; [apply accounted_empty..|]. Qed.

(** The courier never panics and never exceeds its budget: after any
    interleaving of senders, worker, arrivals and cancellations, the queue and
    the frame in the worker's hands together are at most [MAX_FRAMES] frames
    and [MAX_BYTES] bytes, the arrivals as well, at most one send is counted
    as active, and it is while the worker is sending. *)
Theorem courier_bounded acts :
  exists w, run acts start = Some w /\
    N.of_nat (length (items (sender w)) + length (in_hand (worker w))) <= MAX_FRAMES /\
    total_bytes (items (sender w)) + foldr N.add 0 (in_hand (worker w)) <= MAX_BYTES /\
    N.of_nat (length (items (inbound w))) <= MAX_FRAMES /\ total_bytes (items (inbound w)) <= MAX_BYTES /\
    active (execution w) = on_wire (worker w).
Proof.
  destruct (run_ok acts start start_ok) as (w & Hr & [[Hb Hc [Hm Hf]] [Hb' Hc' [Hm' Hf']] Ha]).
  exists w. split; [done|]. cbn [foldr length] in *. repeat split; try done; lia.
Qed.

(** ** A permit outlives nothing *)

Definition is_cancel (a : action) : bool := match a with ACancel => true | _ => false end.
Definition invalidates (o : nat) (a : action) : bool :=
  match a with AInvalidate o' => (o' =? o)%nat | _ => false end.
Definition cancels (acts : list action) : N := N.of_nat (length (filter (fun a => is_cancel a = true) acts)).
Definition invalidations (o : nat) (acts : list action) : N :=
  N.of_nat (length (filter (fun a => invalidates o a = true) acts)).

Definition wrap (n : N) : N := n mod (u64_max + 1).

Lemma wrap_add a b : wrap (wrap a + b) = wrap (a + b).
Proof. unfold wrap. by rewrite N.Div0.add_mod_idemp_l. Qed.

Lemma wrap_small a : a <= u64_max -> wrap a = a.
Proof. intros Ha. unfold wrap. apply N.mod_small. lia. Qed.

Lemma wrapping_add_wrap a b : wrapping_add64 a b = wrap (a + b).
Proof. done. Qed.

Lemma wrap_moves g k : g <= u64_max -> 0 < k <= u64_max -> wrap (g + k) <> g.
Proof.
  intros Hg Hk. unfold wrap. destruct (N.le_gt_cases (g + k) u64_max).
  - rewrite N.mod_small by lia. lia.
  - replace (g + k) with ((g + k - (u64_max + 1)) + 1 * (u64_max + 1)) by lia.
    rewrite N.Div0.mod_add, N.mod_small by lia. lia.
Qed.

(** What an action does to the generations and to the log. *)
Lemma act_generations a w w' o : act a w = Some w' ->
  generation (execution w') = (match a with ACancel => wrap (generation (execution w) + 1)
                               | _ => generation (execution w) end) /\
  cell o w' = (match a with AInvalidate o' => if decide (o' = o) then wrap (cell o w + 1) else cell o w
               | _ => cell o w end).
Proof.
  destruct a; cbn [act].
  - intros [= <-]. split; [done|]. unfold invalidate, cell, set_cells. cbn [cells].
    destruct (decide (o0 = o)) as [->|]; [by rewrite lookup_insert_eq|by rewrite lookup_insert_ne].
  - by intros [= <-].
  - unfold cancel_queued. destruct (drain _); [|done]. by intros [= <-].
  - by intros [= <-].
  - unfold enqueue. destruct (_ || _ || _); [by intros [= <-]|]. destruct (negb _); [by intros [= <-]|].
    destruct (push _ _ _); [|done]. by intros [= <-].
  - intros [= <-]. unfold take_job. destruct (worker w); try done. by destruct (pop _) as [? [[]|]].
  - intros [= <-]. unfold dispatch. destruct (worker w); try done. destruct (_ <? _); [done|].
    unfold claim. by destruct (is_current _ _).
  - unfold send_returned, end_send. destruct (worker w); try by intros [= <-].
    destruct (checked_sub64 _ _); [|done]. by intros [= <-].
  - unfold finish_job. destruct (worker w); try by intros [= <-]. destruct (complete _ _); [|done].
    by intros [= <-].
  - unfold offer. destruct (strip_bytes _ _); [|by intros [= <-]]. destruct (_ && _); [|by intros [= <-]].
    destruct (push _ _ _); [|done]. by intros [= <-].
  - unfold drain_inbound. destruct (drain _); [|done]. by intros [= <-].
Qed.

Lemma act_sent a w w' : act a w = Some w' ->
  sent w' = sent w \/ exists j, sent w' = j :: sent w /\ is_current (j_permit j) w = true.
Proof.
  destruct a; cbn [act].
  - intros [= <-]. by left.
  - intros [= <-]. by left.
  - unfold cancel_queued. destruct (drain _); [|done]. intros [= <-]. by left.
  - intros [= <-]. by left.
  - unfold enqueue. destruct (_ || _ || _); [intros [= <-]; by left|].
    destruct (negb _); [intros [= <-]; by left|]. destruct (push _ _ _); [|done]. intros [= <-]. by left.
  - intros [= <-]. left. unfold take_job. destruct (worker w); try done. by destruct (pop _) as [? [[]|]].
  - intros [= <-]. unfold dispatch. destruct (worker w) as [|n j| |]; try by left.
    destruct (_ <? _); [by left|]. unfold claim. destruct (is_current _ w) eqn:Hc; [|by left].
    right. by exists j.
  - unfold send_returned, end_send. destruct (worker w); try (intros [= <-]; by left).
    destruct (checked_sub64 _ _); [|done]. intros [= <-]. by left.
  - unfold finish_job. destruct (worker w); try (intros [= <-]; by left).
    destruct (complete _ _); [|done]. intros [= <-]. by left.
  - unfold offer. destruct (strip_bytes _ _); [|intros [= <-]; by left].
    destruct (_ && _); [|intros [= <-]; by left]. destruct (push _ _ _); [|done]. intros [= <-]. by left.
  - unfold drain_inbound. destruct (drain _); [|done]. intros [= <-]. by left.
Qed.

Definition in_width (o : nat) (w : World) : Prop :=
  generation (execution w) <= u64_max /\ cell o w <= u64_max.

Lemma wrap_width n : wrap n <= u64_max.
Proof. pose proof (N.mod_lt n (u64_max + 1)). unfold wrap. lia. Qed.

Lemma act_width a w w' o : act a w = Some w' -> in_width o w -> in_width o w'.
Proof.
  intros Ha [Hg Hc]. destruct (act_generations a w w' o Ha) as [Hg' Hc']. split.
  - rewrite Hg'. destruct a; try done. apply wrap_width.
  - rewrite Hc'. destruct a; try done. destruct (decide _); [apply wrap_width|done].
Qed.

Lemma run_generations acts w w' o : in_width o w -> run acts w = Some w' ->
  in_width o w' /\
  generation (execution w') = wrap (generation (execution w) + cancels acts) /\
  cell o w' = wrap (cell o w + invalidations o acts).
Proof.
  revert w. induction acts as [|a acts IH]; intros w Hw; cbn [run].
  { intros [= <-]. split; [done|]. unfold cancels, invalidations. cbn. rewrite !N.add_0_r.
    by rewrite !wrap_small by apply Hw. }
  destruct (act a w) as [w1|] eqn:Ha; [|done]. cbn. intros Hr.
  destruct (IH w1 (act_width _ _ _ _ Ha Hw) Hr) as (Hw' & Hg & Hc). split; [done|].
  destruct (act_generations a w w1 o Ha) as [Hg1 Hc1]. rewrite Hg, Hc, Hg1, Hc1.
  unfold cancels, invalidations. rewrite !filter_cons. split.
  - destruct a; cbn [is_cancel]; rewrite ?decide_False, ?decide_True by done; try done.
    rewrite wrap_add. cbn [length]. f_equal. lia.
  - destruct a as [o'| | | | | | | | | |]; cbn [invalidates]; rewrite ?decide_False by done; try done.
    destruct (Nat.eqb_spec o' o), (decide (o' = o)); try done.
    rewrite decide_True, wrap_add by done. cbn [length]. f_equal. lia.
Qed.

(** A permit does not outlive its generation: once history was cancelled, or
    the owner lost its right, nothing that carries a permit of before is handed
    to the node any more, whatever is queued and however the threads interleave
    (as long as the 64-bit generation has not come round). *)
Theorem stale_never_sent acts1 acts2 w1 w2 o a w3 :
  run acts1 start = Some w1 -> run acts2 w1 = Some w2 ->
  0 < cancels acts2 <= u64_max \/ 0 < invalidations o acts2 <= u64_max ->
  act a w2 = Some w3 ->
  sent w3 = sent w2 \/ exists j, sent w3 = j :: sent w2 /\ j_permit j <> permit o w1.
Proof.
  intros H1 H2 Hk Ha. assert (Hw0 : in_width o start) by (split; done).
  destruct (run_generations _ _ _ _ Hw0 H1) as ([Hg1 Hc1] & _).
  destruct (run_generations _ _ _ o (conj Hg1 Hc1) H2) as (_ & Hg & Hc).
  destruct (act_sent _ _ _ Ha) as [|(j & Hs & Hj)]; [by left|right]. exists j. split; [done|].
  intros Hp. rewrite Hp in Hj. unfold is_current, permit in Hj. cbn in Hj.
  apply andb_true_iff in Hj as [[Hcell%N.eqb_eq Hgen%N.eqb_eq]%andb_true_iff _].
  destruct Hk as [Hk|Hk].
  - rewrite Hg in Hgen. by apply (wrap_moves _ _ Hg1 Hk) in Hgen.
  - rewrite Hc in Hcell. by apply (wrap_moves _ _ Hc1 Hk) in Hcell.
Qed.

(** ** A concrete run *)

Definition peer_key : string := hex_string (replicate 32 x11).
Definition history_on : World := default start (run [AAllow true] start).
Definition queued_job (p : DispatchPermit) : action := AEnqueue 0 peer_key [x01] p 0.
Definition before_cancel : list action := [AAllow true; queued_job (permit 7 history_on); ATake].
Definition after_cancel : list action := [ACancel; queued_job (permit 7 (cancel history_on))].

Lemma stale_never_sent_witness :
  match run before_cancel start with
  | None => False
  | Some w1 => match run after_cancel w1 with
      | None => False
      | Some w2 => match act (ADispatch 5) w2 with
          | None => False
          | Some w3 => sent w3 = sent w2 \/ exists j, sent w3 = j :: sent w2 /\ j_permit j <> permit 7 w1
          end
      end
  end /\
  length (sent (default start (run (before_cancel ++ after_cancel ++ [ADispatch 5; AFinish; ATake; ADispatch 6]) start)))
  = 1%nat.
Proof.
  split; [|vm_compute; reflexivity].
  destruct (run before_cancel start) as [w1|] eqn:H1; [|vm_compute in H1; discriminate H1].
  destruct (run after_cancel w1) as [w2|] eqn:H2.
  2: { vm_compute in H1. injection H1 as <-. vm_compute in H2. discriminate H2. }
  destruct (act (ADispatch 5) w2) as [w3|] eqn:H3.
  2: { cbn in H3. discriminate H3. }
  apply (stale_never_sent before_cancel after_cancel w1 w2 7 (ADispatch 5) w3 H1 H2); [|exact H3].
  left. split; [reflexivity|discriminate].
Defined.

End Courier.

