(* ===== verification/Rows.v ===== *)
(** * Rows: the message rows of a conversation ([persistence/history.rs],
      [history_erasure.rs], [deletion_*.rs], [message_deletions.rs],
      [outbound*.rs], [attachment_gc.rs])

    Messages, sends in flight, deletion records and the index from a target to
    its records are rows of one database, changed in transactions.  Every write
    of a message row passes a guard: an erased row is never written over, and a
    message whose deletion is already known is stored without its content.
    AES-GCM, the random generator, SHA-256, Ed25519 and serde_json are
    parameters. *)
From S2P Require Import Prelude Values Store Devices Identity Messages Attachments Fragments Deletion Erasure.

Module Rows.
Import Store Values Devices Identity Messages Deletion.

#[local] Open Scope mosh_scope.
#[local] Set Default Proof Using "Type".

(** ** Tables ([schema.rs]) *)

Definition MLS_SNAPSHOT : string := "mls_snapshot".
Definition MESSAGES : string := "messages".
Definition SESSIONS : string := "sessions".
Definition GROUP_MLS_SNAPSHOT : string := "group_mls_snapshot".
Definition GROUP_MESSAGES : string := "group_messages".
Definition GROUPS : string := "groups".
Definition CHANNEL_MESSAGES : string := "channel_messages".
Definition CHANNELS : string := "channels".
Definition OUTBOUND_ATTEMPTS : string := "outbound_attempts".
Definition MESSAGE_DELETIONS : string := "message_deletions".
Definition MESSAGE_DELETION_TARGETS : string := "message_deletion_targets".
Definition ATTACHMENT_GC : string := "attachment_gc".
Definition DELETION_ACCEPTANCE : string := "deletion_acceptance".

Record HistoryTables := {
  conversations : string;
  snapshots : option string;
  messages : string;
  outbound_scope : string;
  label : string;
}.
Definition DM_HISTORY : HistoryTables :=
  {| conversations := SESSIONS; snapshots := Some MLS_SNAPSHOT; messages := MESSAGES;
     outbound_scope := "private_dm"; label := "session" |}.
Definition GROUP_HISTORY : HistoryTables :=
  {| conversations := GROUPS; snapshots := Some GROUP_MLS_SNAPSHOT; messages := GROUP_MESSAGES;
     outbound_scope := "private_group"; label := "group" |}.
Definition CHANNEL_HISTORY : HistoryTables :=
  {| conversations := CHANNELS; snapshots := None; messages := CHANNEL_MESSAGES;
     outbound_scope := "channel"; label := "channel" |}.

(** ** Transactions *)

(** AES-256-GCM and the operating system's generator. *)
Class Aes := {
  aes_encrypt : bytes -> bytes -> bytes -> result string bytes;
  aes_decrypt : bytes -> bytes -> bytes -> result string bytes;
  os_rng : nat -> bytes;
}.
Class AesLaws `{Aes} : Prop := {
  aes_roundtrip k n p c : aes_encrypt k n p = Ok c -> aes_decrypt k n c = Ok p;
  os_rng_length i : length (os_rng i) = NONCE_LEN;
}.

(** What a write transaction sees: the tables as changed so far.  Encrypting
    draws a nonce, whether or not the transaction commits. *)
Record Draft := { key : bytes; tables : gmap string (gmap string bytes); draws : nat }.
Notation tx := (method Draft PersistenceError).

Section Transactions.
Context {aes : Aes}.

Definition encrypt (k : bytes) (draw : nat) (p : bytes) : result PersistenceError bytes :=
  encrypt_blob aes_encrypt os_rng k draw p.
Definition decrypt (k b : bytes) : result PersistenceError bytes := decrypt_blob aes_decrypt k b.

Definition t_encrypt (p : bytes) : tx bytes := fun d =>
  ({| key := key d; tables := tables d; draws := S (draws d) |}, encrypt (key d) (draws d) p).
Definition t_decrypt (b : bytes) : tx bytes := fun d => (d, decrypt (key d) b).
Definition t_update (t k : string) (blob : option bytes) : tx unit := fun d =>
  ({| key := key d; tables := update_row (tables d) t k blob; draws := draws d |}, Ok tt).
(** [update_row] with a row encrypted on the way. *)
Definition t_put (t k : string) (p : bytes) : tx unit := b <~ t_encrypt p;; t_update t k (Some b).
Definition t_delete_prefix (t prefix : string) : tx unit := fun d =>
  ({| key := key d; tables := delete_prefix (tables d) t prefix; draws := draws d |}, Ok tt).

(** [read_transaction_blob]. *)
Definition t_read (t k : string) : tx (option bytes) := fun d =>
  (d, match table_of (tables d) t !! k with
      | Some row => p ← decrypt (key d) row; Ok (Some p)
      | None => Ok None
      end).

(** The rows of a table between two keys, in key order. *)
Definition rows_between (start stop : string) (t : gmap string bytes) : list (string * bytes) :=
  filter (fun kv => in_range start stop kv.1 = true) (btree_entries String.le t).

Fixpoint each {A} (f : A -> tx unit) (l : list A) : tx unit :=
  match l with [] => m_ret tt | x :: l => f x;;; each f l end.

(** [Persistence::write] of a whole operation. *)
Definition transact {T} (op : tx T) (s : Store.Persistence) : Store.Persistence * result PersistenceError T :=
  let '(d, r) := op {| key := dek s; tables := db s; draws := rng s |} in
  write {| db := db s; dek := dek s; rng := draws d; outcomes := outcomes s; read_fault := read_fault s |}
    (fun _ => v ← r; Ok (tables d, v)).

(** Encrypting before the transaction begins. *)
Definition p_encrypt (p : bytes) : method Store.Persistence PersistenceError bytes := fun s =>
  (drawn s, encrypt (dek s) (rng s) p).

Definition p_get (t k : string) (s : Store.Persistence) : result PersistenceError (option bytes) :=
  Store.get aes_decrypt s t k.
Definition p_range_prefix (t prefix : string) (s : Store.Persistence) : result PersistenceError (list bytes) :=
  range_prefix aes_decrypt s t prefix.
Definition p_list_rows (t : string) (s : Store.Persistence) : result PersistenceError (list (string * bytes)) :=
  list_rows aes_decrypt s t.

End Transactions.

(** ** Rows as JSON *)

Class RowJson := {
  rj_value :: ValueJson;
  origin_from_value : Value -> result string MessageOrigin;
  descriptor_from_value : Value -> result string AttachmentDescriptor;
  descriptor_from_slice : bytes -> result string AttachmentDescriptor;
  descriptor_to_vec : AttachmentDescriptor -> result string bytes;
  manifest_from_value : Value -> result string Attachments.AttachmentManifest;
  marker_to_value : DeletionMarker -> result string Value;
  marker_from_value : Value -> result string DeletionMarker;
  record_from_slice : bytes -> result string DeletionRecord;
  ack_row_to_vec : DeleteAck -> result string bytes;
  ack_from_slice : bytes -> result string DeleteAck;
}.

Section Rows.
Context {aes : Aes} {scheme : Ed25519} {json : DeletionJson} {json' : Erasure.ErasureJson} {rows : RowJson}.
Variable sha256 : bytes -> bytes.
Variable hex_decode : string -> result string bytes.

Abbreviation sha_hex := (sha_hex sha256).
Abbreviation origin_key := (origin_key sha256).
Abbreviation origin_verify_signature := (origin_verify_signature sha256 hex_decode).

Definition ok_json {A} (r : result string A) : result PersistenceError A := map_err Json r.

(** [String::from_utf8]. *)
Definition from_utf8 (b : bytes) : option string :=
  let s := String.string_of_list_byte b in
  if String.eqb (of_chars (chars s)) s
     && forallb (fun c => (c <? 55296)%N || ((57344 <=? c)%N && (c <? 1114112)%N)) (chars s)
  then Some s else None.

Definition kind_of (scope : string) : string :=
  if String.eqb scope "private_dm" then "dm" else if String.eqb scope "private_group" then "group"
  else "channel".

Definition history_message_key (id : string) (t : N) (mid : string) : string :=
  id +:+ one +:+ format_u64 20 t +:+ one +:+ mid.
Definition outbound_attempt_prefix (scope id : string) : string := scope +:+ one +:+ id.
Definition outbound_attempt_key (scope id mid : string) : string :=
  outbound_attempt_prefix scope id +:+ one +:+ mid.

(** ** What a stored message is the target of ([correlation.rs], [deletion_guard.rs]) *)

(** The origin in a metadata object, when it is this conversation's and signed. *)
Definition verified_origin (md : option Value) (ctx : string) : option MessageOrigin :=
  v ← md ≫= get "origin";
  o ← res_ok (origin_from_value v);
  if String.eqb (conversation o) ctx && is_ok (origin_verify_signature o) then Some o else None.

Definition history_text_key (ctx : string) (message : Value) : option string :=
  if existsb (fun k => held (get k message)) ["attachment"; "call_event"; "name_change"] then None
  else
    let md := get "metadata" message in
    let origin := verified_origin md ctx in
    if bool_decide (origin = None) && held (md ≫= get "deletion")
    then (md ≫= get "deletion_key") ≫= as_str
    else
      author ← (match get (if Erasure.starts_with "dm:" ctx then "from_device" else "from_fingerprint") message with
                | Some v => as_str v
                | None => get "from" message ≫= as_str
                end : option string);
      hash ← (match origin with
              | Some o => Some (content_hash o)
              | None => body ← get "body" message ≫= as_str; Some (sha_hex (String.list_byte_of_string body))
              end : option string);
      res_ok (Erasure.json_hex sha256
        (Erasure.JArray [Erasure.JString ctx; Erasure.JString "text";
           Erasure.j_string (get "message_id" message ≫= as_str);
           Erasure.j_number (get "sent_at_ms" message ≫= as_u64);
           Erasure.JString author; Erasure.JString hash])).

Definition history_attachment_key (ctx : string) (descriptor : Value) (manifest : option Value)
  : option string :=
  d ← res_ok (descriptor_from_value descriptor);
  t ← (if Erasure.starts_with "channel:" ctx
       then v ← manifest; m ← res_ok (manifest_from_value v); b ← res_ok (Erasure.manifest_bytes m);
            Some (Erasure.JArray [Erasure.JString ctx; Erasure.JString "manifest"; Erasure.JString (sha_hex b)])
       else Some (Erasure.JArray [Erasure.JString ctx; Erasure.JString "attachment";
                    Erasure.JString (attachment_id d); Erasure.JString (d_content_hash d)]) : option Erasure.Json);
  res_ok (Erasure.json_hex sha256 t).

(** [correlation::history_message_key]. *)
Definition row_correlation (ctx : string) (row : Value) : option string :=
  message ← get "message" row;
  let md := get "metadata" message in
  match (if held (md ≫= get "deletion") then (md ≫= get "personal_correlation") ≫= as_str else None) with
  | Some key => Some key
  | None =>
      match non_null (get "attachment" message) with
      | Some d => history_attachment_key ctx d (get "attachment_manifest" row)
      | None => history_text_key ctx message
      end
  end.

Definition history_target (md : option Value) (ctx : string) : option string :=
  match (md ≫= get "deletion_key") ≫= as_str with
  | Some k => Some k
  | None => o ← verified_origin md ctx; res_ok (origin_key o)
  end.

(** ** Deletion records and their index *)

Definition index_key (ctx target row_key : string) : string := ctx +:+ one +:+ target +:+ one +:+ row_key.

(** Both names of a record point at it; they share one encrypted value. *)
Definition index_deletion (r : DeletionRecord) : tx unit :=
  blob <~ t_encrypt (String.list_byte_of_string (storage_key r));;
  each (fun target => t_update MESSAGE_DELETION_TARGETS (index_key (r_context r) target (storage_key r)) (Some blob))
    (r_key r :: match r_correlation r with Some a => [a] | None => [] end).

Definition READY : string := String (Ascii.ascii_of_N 0) "ready-v1".

(** Built once, from every record, by the transaction that opens the store. *)
Definition initialize_deletion_index : tx unit := fun d =>
  if bool_decide (is_Some (table_of (tables d) MESSAGE_DELETION_TARGETS !! READY)) then (d, Ok tt)
  else
    (each (fun kv => p <~ t_decrypt kv.2;; r <~ m_lift (ok_json (record_from_slice p));; index_deletion r)
       (btree_entries String.le (table_of (tables d) MESSAGE_DELETIONS));;;
     t_put MESSAGE_DELETION_TARGETS READY (String.list_byte_of_string "v1")) d.

Definition target_record (d : Draft) (acc : list DeletionRecord) (kv : string * bytes)
  : result PersistenceError (list DeletionRecord) :=
  p ← decrypt (key d) kv.2;
  k ← ok_or (from_utf8 p) (Json "invalid utf-8");
  match table_of (tables d) MESSAGE_DELETIONS !! k with
  | None => Ok acc
  | Some row => b ← decrypt (key d) row; r ← ok_json (record_from_slice b); Ok (acc ++ [r])
  end.

Definition deletion_target_records (ctx target : string) : tx (list DeletionRecord) := fun d =>
  let '(start, stop) := prefix_range (ctx +:+ one +:+ target) in
  (d, try_fold (target_record d) [] (rows_between start stop (table_of (tables d) MESSAGE_DELETION_TARGETS))).

Definition merge_deletion_row (incoming : DeletionRecord) : tx unit :=
  old <~ t_read MESSAGE_DELETIONS (storage_key incoming);;
  record <~ m_lift (match old with
                    | Some p => current ← ok_json (record_from_slice p); Ok (merged current incoming)
                    | None => Ok incoming
                    end);;
  bytes <~ m_lift (ok_json (record_to_vec record));;
  blob <~ t_encrypt bytes;;
  t_update MESSAGE_DELETIONS (storage_key incoming) (Some blob);;;
  index_deletion record.

Definition save_deletion_acceptance (r : DeletionRecord) : tx unit :=
  match r_ack r, r_request r with
  | Some ack, Some q =>
      if negb (is_confirmed r) then m_ret tt
      else
        digest <~ m_lift (ok_json (request_hash sha256 q));;
        bytes <~ m_lift (ok_json (ack_row_to_vec ack));;
        t_put DELETION_ACCEPTANCE (r_context r +:+ one +:+ digest) bytes
  | _, _ => m_ret tt
  end.

Definition enqueue_attachment_gc (a : AttachmentDescriptor) : tx unit :=
  bytes <~ m_lift (ok_json (descriptor_to_vec a));;
  t_put ATTACHMENT_GC (d_content_hash a +:+ ":" +:+ file_name a) bytes.

(** The user whose deletions for oneself apply here. *)
Definition deletion_owner : tx string :=
  row <~ t_read DEVICE_LINK DEVICE_LINK_KEY;;
  m_lift (match row with
          | None => Ok "local"
          | Some p => i ← ok_json (Erasure.identity_from_slice p); Ok (user_id (roster i))
          end).

(** [max_by_key]: the last of the greatest. *)
Definition guard_rank (r : DeletionRecord) : bool * bool * string :=
  (bool_decide (r_scope r = ForMe), is_confirmed r, storage_key r).
Definition strongest (rs : list DeletionRecord) : option DeletionRecord :=
  foldl (fun best r => match best with
                       | None => Some r
                       | Some b => if Erasure.rank_leb (guard_rank b) (guard_rank r) then Some r else Some b
                       end) None rs.

Definition matching_deletion (ctx target : string) (correlation : option string) (owner : string)
  : tx (option DeletionRecord) :=
  own <~ deletion_target_records ctx target;;
  more <~ match correlation with
          | Some alias => if String.eqb alias target then m_ret [] else deletion_target_records ctx alias
          | None => m_ret []
          end;;
  m_ret (strongest (filter (fun r => matches r target correlation = true
                              /\ (r_scope r = ForEveryone \/ r_owner r = owner)) (own ++ more))).

(** ** The guard of every written row *)

Definition wiped : list string :=
  ["attachment"; "call_event"; "name_change"; "delivery_status"; "delivery_error"; "retryable"; "retry_count"].

Definition erase_content (r : DeletionRecord) (target : string) (correlation : option string) (v : Value)
  : result PersistenceError Value :=
  message ← ok_or (get "message" v ≫= as_object) (Json "invalid history row");
  row ← ok_or (as_object v) (Json "invalid history row");
  let message := <[ "body" := VString "" ]> (foldl (fun m k => <[ k := VNull ]> m) message wiped) in
  let md := match message !! "metadata" with Some (VObject m) => m | _ => ∅ end in
  mark ← ok_json (marker_to_value (marker r));
  let alias := match correlation with
               | Some a => if String.eqb a target then VNull else VString a
               | None => VNull
               end in
  let md := <[ "can_delete_for_everyone" := VBool false ]> (<[ "deletion" := mark ]>
            (<[ "personal_correlation" := alias ]> (<[ "deletion_key" := VString target ]> md))) in
  Ok (VObject (<[ "preview_manifest" := VNull ]> (<[ "attachment_manifest" := VNull ]>
       (<[ "message" := VObject (<[ "metadata" := VObject md ]> message) ]> row)))).

(** The files of an erased message are queued for removal. *)
Definition enqueue_files (v : Value) : tx unit :=
  match non_null (pointer ["message"; "attachment"] v) with
  | Some a => d <~ m_lift (ok_json (descriptor_from_value a));; enqueue_attachment_gc d
  | None => m_ret tt
  end;;;
  match non_null (get "preview_manifest" v) with
  | Some p => m <~ m_lift (ok_json (manifest_from_value p));; enqueue_attachment_gc (Erasure.descriptor_of m)
  | None => m_ret tt
  end.

(** The conversation of a row, the target it is, and its other name. *)
Definition row_target (t : HistoryTables) (v : Value) : option (string * string * option string) :=
  id ← get "conversation_id" v ≫= as_str;
  let ctx := kind_of (outbound_scope t) +:+ ":" +:+ id in
  let correlation := row_correlation ctx v in
  target ← (match history_target (pointer ["message"; "metadata"] v) ctx with
            | Some k => Some k
            | None => correlation
            end : option string);
  Some (ctx, target, correlation).

Definition erase_known_target (t : HistoryTables) (b : bytes) : tx bytes :=
  match value_from_slice b with
  | Err _ => m_ret b
  | Ok v =>
      match row_target t v with
      | None => m_ret b
      | Some (ctx, target, correlation) =>
          owner <~ deletion_owner;;
          record <~ matching_deletion ctx target correlation owner;;
          match record with
          | None => m_ret b
          | Some r =>
              enqueue_files v;;;
              v <~ m_lift (erase_content r target correlation v);;
              m_lift (ok_json (value_to_vec v))
          end
      end
  end.

Definition retain_history_evidence (b : bytes) (existing : option Value) : result PersistenceError bytes :=
  match non_null (existing ≫= get "history_evidence") with
  | None => Ok b
  | Some evidence =>
      incoming ← ok_json (value_from_slice b);
      object ← ok_or (as_object incoming) (Json "typed history evidence requires a message row");
      if held (object !! "history_evidence") then Ok b
      else ok_json (value_to_vec (VObject (<[ "history_evidence" := evidence ]> object)))
  end.

Definition erased_value (v : Value) : bool := held (pointer ["message"; "metadata"; "deletion"] v).

Definition write_history_row (t : HistoryTables) (k : string) (blob : bytes) : tx unit :=
  old <~ t_read (messages t) k;;
  let existing := old ≫= fun p => res_ok (value_from_slice p) in
  if match existing with Some v => erased_value v | None => false end then m_ret tt
  else
    p <~ t_decrypt blob;;
    p <~ m_lift (retain_history_evidence p existing);;
    p <~ erase_known_target t p;;
    t_put (messages t) k p.

(** ** Messages and conversations ([history.rs]) *)

Definition put_conversation (t : HistoryTables) (id : string) (b : bytes) : method Store.Persistence PersistenceError unit :=
  fun s => put aes_encrypt os_rng s (conversations t) id b.

(** A row that does not decrypt is skipped. *)
Definition list_conversations (t : HistoryTables) (s : Store.Persistence) : result PersistenceError (list bytes) :=
  d ← begin_read s;
  Ok (omap (fun kv => res_ok (decrypt (dek s) kv.2)) (btree_entries String.le (table_of d (conversations t)))).

Definition append_history_message (t : HistoryTables) (id : string) (sent : N) (mid : string) (b : bytes)
  : method Store.Persistence PersistenceError unit :=
  blob <~ p_encrypt b;;
  transact (write_history_row t (history_message_key id sent mid) blob).

Definition list_history_messages (t : HistoryTables) (id : string) (s : Store.Persistence)
  : result PersistenceError (list bytes) := p_range_prefix (messages t) id s.

(** ** Sends in flight ([outbound.rs], [outbound_guard.rs]) *)

(** A send of a message that was deleted meanwhile is dropped, unless it was
    only hidden here after it went out. *)
Definition cancelled_attempt (t : HistoryTables) (id mid : string) (attempt : bytes) : tx bool :=
  match value_from_slice attempt with
  | Err _ => m_ret false
  | Ok attempt =>
      match get "sent_at_ms" attempt ≫= as_u64 with
      | None => m_ret false
      | Some time =>
          row <~ t_read (messages t) (history_message_key id time mid);;
          m_ret match (row ≫= (fun p => res_ok (value_from_slice p)))
                      ≫= (fun v => non_null (pointer ["message"; "metadata"; "deletion"] v)) with
                | None => false
                | Some mark =>
                    bool_decide ((get "scope" mark ≫= as_str) = Some "ForEveryone")
                    || bool_decide ((get "ever_published" attempt ≫= as_bool) = Some false)
                end
      end
  end.

Definition write_outbound_row (t : HistoryTables) (id mid : string) (attempt : option bytes) : tx unit :=
  cancelled <~ match attempt with Some b => cancelled_attempt t id mid b | None => m_ret false end;;
  let k := outbound_attempt_key (outbound_scope t) id mid in
  match attempt with
  | Some b => if (cancelled : bool) then t_update OUTBOUND_ATTEMPTS k None else t_put OUTBOUND_ATTEMPTS k b
  | None => t_update OUTBOUND_ATTEMPTS k None
  end.

Definition tables_of_scope (scope : string) : option HistoryTables :=
  if String.eqb scope "private_dm" then Some DM_HISTORY
  else if String.eqb scope "private_group" then Some GROUP_HISTORY
  else if String.eqb scope "channel" then Some CHANNEL_HISTORY else None.

Definition put_outbound_attempt (scope id mid : string) (b : bytes) : method Store.Persistence PersistenceError unit :=
  match tables_of_scope scope with
  | None => m_lift (Err (Db "invalid outbound scope"))
  | Some t => transact (write_outbound_row t id mid (Some b))
  end.

Definition get_outbound_attempt (scope id mid : string) (s : Store.Persistence)
  : result PersistenceError (option bytes) := p_get OUTBOUND_ATTEMPTS (outbound_attempt_key scope id mid) s.

Definition list_outbound_attempts (scope id : string) (s : Store.Persistence)
  : result PersistenceError (list bytes) := p_range_prefix OUTBOUND_ATTEMPTS (outbound_attempt_prefix scope id) s.

Definition delete_outbound_attempt (scope id mid : string) : method Store.Persistence PersistenceError unit :=
  transact (t_update OUTBOUND_ATTEMPTS (outbound_attempt_key scope id mid) None).

(** The message row and its send are one fact. *)
Definition commit_send (t : HistoryTables) (id : string) (sent : N) (mid : string) (message : bytes)
    (attempt : option bytes) : method Store.Persistence PersistenceError unit :=
  blob <~ p_encrypt message;;
  transact (write_history_row t (history_message_key id sent mid) blob;;;
            write_outbound_row t id mid attempt).

(** ** Deletions ([message_deletions.rs], [deletion_acceptance.rs], [deletion_paging.rs]) *)

Definition parse_records (l : list bytes) : result PersistenceError (list DeletionRecord) :=
  try_fold (fun acc b => r ← ok_json (record_from_slice b); Ok (acc ++ [r])) [] l.

Definition deletion_records (ctx : string) (s : Store.Persistence) : result PersistenceError (list DeletionRecord) :=
  l ← p_range_prefix MESSAGE_DELETIONS ctx s; parse_records l.

Definition account_deletions (user : string) (s : Store.Persistence) : result PersistenceError (list DeletionRecord) :=
  l ← p_list_rows MESSAGE_DELETIONS s;
  rs ← parse_records l.*2;
  Ok (filter (fun r => visible_to_account r user = true) rs).

Definition accepted_deletions (ctx : string) (s : Store.Persistence) : result PersistenceError (gset string) :=
  l ← p_range_prefix DELETION_ACCEPTANCE ctx s;
  try_fold (fun acc b => k ← ok_json (ack_from_slice b); Ok ({[ request_digest k ]} ∪ acc)) ∅ l.

Definition lower_or_upper_hex64 (v : string) : bool := (str_len v =? 64)%N && is_ok (hex_decode v).

(** What another device of the account may send as a deletion. *)
Definition account_record_ok (user : string) (r : DeletionRecord) : result PersistenceError unit :=
  _ ← guard_or (existsb (fun p => Erasure.starts_with p (r_context r)) ["dm:"; "group:"; "channel:"]
                && (str_len (r_context r) <=? 512)%N && negb (existsb is_control (chars (r_context r)))
                && lower_or_upper_hex64 (r_key r)) (Json "invalid deletion target");
  if bool_decide (r_scope r = ForEveryone)
  then _ ← ok_json (verify_record sha256 hex_decode r (r_context r)); Ok tt
  else guard_or (bool_decide (r_owner r = user)
                 && match r_correlation r with Some a => lower_or_upper_hex64 a | None => true end
                 && negb (r_local_only r) && is_confirmed r && bool_decide (r_request r = None)
                 && bool_decide (r_ack r = None) && bool_decide (r_administrator r = None))
         (Json "invalid personal deletion").

Definition save_account_deletions (user : string) (rs : list DeletionRecord)
  : method Store.Persistence PersistenceError unit :=
  m_lift (try_fold (fun _ r => account_record_ok user r) tt rs);;;
  transact (each merge_deletion_row rs).

(** One page of an account's records, after a key. *)
Fixpoint account_page (user : string) (k : bytes) (rows : list (string * bytes)) (page : list DeletionRecord) (size : N)
  : result PersistenceError (list DeletionRecord * option string) :=
  match rows with
  | [] => Ok (page, None)
  | (_, v) :: rows =>
      p ← decrypt k v;
      r ← ok_json (record_from_slice p);
      if negb (visible_to_account r user) then account_page user k rows page size
      else
        b ← ok_json (record_to_vec r);
        let n := N.of_nat (length b) in
        if negb (bool_decide (page = [])) && ((length page =? 16)%nat || (24000 <? size + n)%N)
        then Ok (page, storage_key <$> last page)
        else account_page user k rows (page ++ [r]) (size + n)
  end.

Definition account_deletion_page (user : string) (after : option string) (s : Store.Persistence)
  : result PersistenceError (list DeletionRecord * option string) :=
  d ← begin_read s;
  account_page user (dek s)
    (filter (fun kv => after_key after kv.1 = true)
       (btree_entries String.le (table_of d MESSAGE_DELETIONS))) [] 0.

(** The keys of an erased row, its bytes, and the send it cancels. *)
Definition commit_erased_row (t : HistoryTables) (row : string * bytes * option string)
  : tx (option (string * DeletionMarker)) :=
  let '(k, value, attempt) := row in
  b <~ erase_known_target t value;;
  v <~ m_lift (ok_json (value_from_slice b));;
  mark <~ m_lift (match get "message_id" v ≫= as_str, pointer ["message"; "metadata"; "deletion"] v with
                  | Some id, Some mark => m ← ok_json (marker_from_value mark); Ok (Some (id, m))
                  | _, _ => Ok None
                  end);;
  t_put (messages t) k b;;;
  match attempt with Some a => t_update OUTBOUND_ATTEMPTS a None | None => m_ret tt end;;;
  m_ret mark.

Fixpoint commit_erased_rows (t : HistoryTables) (l : list (string * bytes * option string))
    (markers : gmap string DeletionMarker) : tx (gmap string DeletionMarker) :=
  match l with
  | [] => m_ret markers
  | row :: l =>
      m <~ commit_erased_row t row;;
      commit_erased_rows t l (match m with Some (id, mark) => <[ id := mark ]> markers | None => markers end)
  end.

Context {M : Type}.
(** [serde_json] of a stored message. *)
Variable stored_to_vec : Erasure.StoredMessage M -> result string bytes.

Definition erased_row (t : HistoryTables) (cancelled : gset string) (r : Erasure.StoredMessage M)
  : result PersistenceError (string * bytes * option string) :=
  b ← ok_json (stored_to_vec r);
  Ok (history_message_key (Erasure.s_conversation_id r) (Erasure.s_sent_at_ms r) (Erasure.s_message_id r), b,
      if bool_decide (Erasure.s_message_id r ∈ cancelled)
      then Some (outbound_attempt_key (outbound_scope t) (Erasure.s_conversation_id r) (Erasure.s_message_id r))
      else None).

Definition commit_message_deletions (t : HistoryTables) (rs : list DeletionRecord)
    (stored : list (Erasure.StoredMessage M)) (cancelled : gset string) (files : list AttachmentDescriptor)
    (accepted : bool) : method Store.Persistence PersistenceError (gmap string DeletionMarker) :=
  l <~ m_lift (try_fold (fun acc r => x ← erased_row t cancelled r; Ok (acc ++ [x])) [] stored);;
  transact (each enqueue_attachment_gc files;;;
            each (fun r => merge_deletion_row r;;; if accepted then save_deletion_acceptance r else m_ret tt) rs;;;
            commit_erased_rows t l ∅).

(** ** Files to remove ([attachment_gc.rs]) *)

Definition attachment_gc (after : option string) (s : Store.Persistence)
  : result PersistenceError (list (string * AttachmentDescriptor)) :=
  l ← p_list_rows ATTACHMENT_GC s;
  try_fold (fun acc kv => d ← ok_json (descriptor_from_slice kv.2); Ok (acc ++ [(kv.1, d)])) []
    (take 16 (filter (fun kv => after_key after kv.1 = true) l)).

Definition complete_attachment_gc (k : string) : method Store.Persistence PersistenceError unit :=
  transact (t_update ATTACHMENT_GC k None).

End Rows.

(** ** What a transaction leaves alone *)

(** A step that touches no row outside [S], however it ends. *)
Definition frame {A} (S : string -> string -> Prop) (op : tx A) : Prop :=
  forall d d' r, op d = (d', r) -> key d' = key d /\
    forall t k, ~ S t k -> table_of (tables d') t !! k = table_of (tables d) t !! k.

Section Frames.
Context {aes : Aes}.

Lemma frame_weaken {A} (S S' : string -> string -> Prop) (op : tx A) :
  (forall t k, S t k -> S' t k) -> frame S op -> frame S' op.
Proof. intros HS Hop d d' r (Hk & Hf)%Hop. split; [done|]. intros t k Hn. apply Hf. eauto. Qed.

Lemma frame_ret {A} S (a : A) : frame S (m_ret a).
Proof. by intros d d' r [= <- _]. Qed.
Lemma frame_lift {A} S (r : result PersistenceError A) : frame S (m_lift r).
Proof. by intros d d' r' [= <- _]. Qed.
Lemma frame_bind {A B} S (op : tx A) (f : A -> tx B) :
  frame S op -> (forall a, frame S (f a)) -> frame S (m_bind op f).
Proof.
  intros Hop Hf d d' r. unfold m_bind. destruct (op d) as [d1 [a|e]] eqn:Ho.
  - intros Hr. apply Hop in Ho as [Hk Ht]. apply Hf in Hr as [Hk' Ht']. split; [congruence|].
    intros t k Hn. by rewrite Ht', Ht.
  - intros [= <- _]. by eapply Hop.
Qed.
Lemma frame_encrypt S p : frame S (t_encrypt p).
Proof. by intros d d' r [= <- _]. Qed.
Lemma frame_decrypt S b : frame S (t_decrypt b).
Proof. by intros d d' r [= <- _]. Qed.
Lemma frame_read S t k : frame S (t_read t k).
Proof. by intros d d' r [= <- _]. Qed.
Lemma frame_update (S : string -> string -> Prop) t k b : S t k -> frame S (t_update t k b).
Proof.
  intros HS d d' r [= <- _]. split; [done|]. intros t' k' Hn. cbn [tables]. rewrite table_of_update.
  case_decide as Ht; [subst|done]. rewrite lookup_partial_alter_ne; [done|]. by intros ->.
Qed.
Lemma frame_put (S : string -> string -> Prop) t k p : S t k -> frame S (t_put t k p).
Proof. intros HS. apply frame_bind; [apply frame_encrypt|]. intros b. by apply frame_update. Qed.
Lemma frame_each {A} S (f : A -> tx unit) l : (forall x, x ∈ l -> frame S (f x)) -> frame S (each f l).
Proof.
  induction l as [|x l IH]; intros Hf; [apply frame_ret|]. cbn [each].
  apply frame_bind; [apply Hf; by left|]. intros _. apply IH. intros y Hy. apply Hf. by right.
Qed.
End Frames.

Create HintDb frame.
#[export] Hint Resolve frame_ret frame_lift frame_bind frame_encrypt frame_decrypt frame_read
  frame_update frame_put frame_each : frame.

(** Splits the matches of a step and frames its pieces. *)
Ltac framed :=
  intros; repeat match goal with
  | |- frame _ (match ?x with _ => _ end) => destruct x
  | |- frame _ (if ?x then _ else _) => destruct x
  | |- frame _ (m_bind _ _) => apply frame_bind; [|intros]
  | |- frame _ (let '(_, _) := ?x in _) => destruct x
  end; eauto with frame.

Section Guards.
Context {aes : Aes} {scheme : Ed25519} {json : DeletionJson} {json' : Erasure.ErasureJson} {rows : RowJson}.
Variable sha256 : bytes -> bytes.
Variable hex_decode : string -> result string bytes.

Abbreviation write_history_row := (write_history_row sha256 hex_decode).
Abbreviation erase_known_target := (erase_known_target sha256 hex_decode).
Abbreviation row_target := (row_target sha256 hex_decode).

Definition in_table (t0 : string) (t k : string) : Prop := t = t0.

Lemma frame_gc a : frame (in_table ATTACHMENT_GC) (enqueue_attachment_gc a).
Proof. unfold enqueue_attachment_gc. framed. by apply frame_put. Qed.

Lemma frame_files v : frame (in_table ATTACHMENT_GC) (enqueue_files v).
Proof. unfold enqueue_files. framed; apply frame_gc. Qed.

Lemma frame_records ctx target : frame (in_table ATTACHMENT_GC) (deletion_target_records ctx target).
Proof. by intros d d' r [= <- _]. Qed.

Lemma frame_matching ctx target corr owner : frame (in_table ATTACHMENT_GC) (matching_deletion ctx target corr owner).
Proof. unfold matching_deletion. framed; apply frame_records. Qed.

Lemma frame_erase t b : frame (in_table ATTACHMENT_GC) (erase_known_target t b).
Proof.
  unfold erase_known_target, deletion_owner. framed; [apply frame_matching|apply frame_files].
Qed.

(** Writing a message row touches that row and the files to remove. *)
Definition row_or_files (t0 k0 : string) (t k : string) : Prop := t = ATTACHMENT_GC \/ t = t0 /\ k = k0.

Lemma frame_write_row t k blob : frame (row_or_files (messages t) k) (write_history_row t k blob).
Proof.
  unfold write_history_row. framed.
  - eapply frame_weaken; [|apply frame_erase]. intros ? ? ->. by left.
  - apply frame_put. by right.
Qed.

(** *** Erased rows are sealed *)

(** The row under [k] is the ciphertext [row], and it decrypts to a message
    that was erased. *)
Definition sealed (K : bytes) (tables : gmap string (gmap string bytes)) (t k : string) (row : bytes) : Prop :=
  table_of tables t !! k = Some row /\
  exists p v, decrypt K row = Ok p /\ value_from_slice p = Ok v /\ erased_value v = true.

Lemma write_row_sealed t k blob d row :
  sealed (key d) (tables d) (messages t) k row -> write_history_row t k blob d = (d, Ok tt).
Proof.
  intros (Hrow & p & v & Hp & Hv & He). unfold Rows.write_history_row, m_bind, t_read. rewrite Hrow, Hp.
  cbn. rewrite Hv. cbn. by rewrite He.
Qed.

(** A step that keeps a row. *)
Definition keeps {A} (K : bytes) (t k : string) (row : bytes) (op : tx A) : Prop :=
  forall d d' r, op d = (d', r) -> key d = K -> sealed K (tables d) t k row ->
    key d' = K /\ sealed K (tables d') t k row.

Lemma frame_keeps {A} S K t k row (op : tx A) : ~ S t k -> frame S op -> keeps K t k row op.
Proof.
  intros HS Hf d d' r [Hk Ht]%Hf HK [Hrow Hv]. split; [congruence|]. split; [|done]. by rewrite Ht.
Qed.

Lemma keeps_bind {A B} K t k row (op : tx A) (f : A -> tx B) :
  keeps K t k row op -> (forall a, keeps K t k row (f a)) -> keeps K t k row (m_bind op f).
Proof.
  intros Ho Hf d d' r. unfold m_bind. destruct (op d) as [d1 [a|e]] eqn:Hd.
  - intros Hr HK Hs. edestruct Ho as [HK' Hs']; [done..|]. by eapply Hf.
  - intros [= <- _] HK Hs. by eapply Ho.
Qed.

Lemma keeps_write_row K t0 k0 row t k blob : t0 <> ATTACHMENT_GC ->
  keeps K t0 k0 row (write_history_row t k blob).
Proof.
  intros Ht0. destruct (decide (messages t = t0 /\ k = k0)) as [[<- <-]|Hne].
  - intros d d' r Hw HK Hs. rewrite (write_row_sealed t k blob d row) in Hw by by rewrite HK.
    by injection Hw as <- _.
  - eapply frame_keeps; [|apply frame_write_row]. intros [->|[-> ->]]; [done|]. by apply Hne.
Qed.

Lemma keeps_outbound K t0 k0 row t id mid attempt : t0 <> OUTBOUND_ATTEMPTS ->
  keeps K t0 k0 row (write_outbound_row t id mid attempt).
Proof.
  intros Ht0. apply (frame_keeps (in_table OUTBOUND_ATTEMPTS)); [done|].
  unfold write_outbound_row, cancelled_attempt. framed; try by apply frame_update. by apply frame_put.
Qed.

Lemma keeps_merge K t0 k0 row r : t0 <> MESSAGE_DELETIONS -> t0 <> MESSAGE_DELETION_TARGETS ->
  keeps K t0 k0 row (merge_deletion_row r).
Proof.
  intros H1 H2. apply (frame_keeps (fun t _ => t = MESSAGE_DELETIONS \/ t = MESSAGE_DELETION_TARGETS));
    [by intros [?|?]|].
  unfold merge_deletion_row, index_deletion. framed.
Qed.

Lemma keeps_each {A} K t k row (f : A -> tx unit) l :
  (forall x, keeps K t k row (f x)) -> keeps K t k row (each f l).
Proof.
  intros Hf. induction l as [|x l IH]; [by apply (frame_keeps (fun _ _ => False)); [intros []|apply frame_ret]|].
  by apply keeps_bind.
Qed.

Lemma transact_cases {T} (op : tx T) s s' r : transact op s = (s', r) ->
  dek s' = dek s /\
  ((db s' = db s /\ is_ok r = false) \/
   exists d v, op {| key := dek s; tables := db s; draws := rng s |} = (d, Ok v) /\ db s' = tables d /\
     (r = Ok v \/ is_ok r = false)).
Proof.
  unfold transact. destruct (op _) as [d ro] eqn:Ho. intros Hw. apply write_cases in Hw as (Hk & _ & _ & Hc).
  cbn [dek db] in *. split; [done|]. destruct Hc as [|(t & v & Hop & -> & Hr)]; [by left|].
  apply bind_Ok in Hop as (v' & -> & [= <- <-]). right. by exists d, v'.
Qed.

Definition row_sealed (s : Store.Persistence) (t k : string) (row : bytes) : Prop := sealed (dek s) (db s) t k row.

Lemma transact_keeps {T} (op : tx T) s s' r t k row :
  keeps (dek s) t k row op -> transact op s = (s', r) -> row_sealed s t k row ->
  dek s' = dek s /\ row_sealed s' t k row.
Proof.
  unfold row_sealed. intros Hk Ht Hs. apply transact_cases in Ht as [Hd [[Hdb _]|(d & v & Hop & Hdb & _)]].
  - rewrite Hd, Hdb. done.
  - rewrite Hd, Hdb. split; [done|]. by eapply Hk.
Qed.

Lemma encrypt_keeps p s s' r t k row :
  p_encrypt p s = (s', r) -> row_sealed s t k row -> dek s' = dek s /\ row_sealed s' t k row.
Proof. by intros [= <- _] Hs. Qed.

(** What may still arrive for a conversation after a message was erased: copies
    of the message, its send, a retry of the send, its end, deletions from the
    user's other devices, and files being removed. *)
Inductive late_write :=
| LateAppend (t : HistoryTables) (id : string) (sent : N) (mid : string) (b : bytes)
| LateSend (t : HistoryTables) (id : string) (sent : N) (mid : string) (b : bytes) (attempt : option bytes)
| LateAttempt (scope id mid : string) (b : bytes)
| LateSettled (scope id mid : string)
| LateRecords (user : string) (rs : list DeletionRecord)
| LateGc (k : string).

Definition late (w : late_write) : method Store.Persistence PersistenceError unit :=
  match w with
  | LateAppend t id sent mid b => append_history_message sha256 hex_decode t id sent mid b
  | LateSend t id sent mid b a => commit_send sha256 hex_decode t id sent mid b a
  | LateAttempt scope id mid b => put_outbound_attempt scope id mid b
  | LateSettled scope id mid => delete_outbound_attempt scope id mid
  | LateRecords user rs => save_account_deletions sha256 hex_decode user rs
  | LateGc k => complete_attachment_gc k
  end.

Definition run_late (ws : list late_write) (s : Store.Persistence) : Store.Persistence :=
  foldl (fun s w => (late w s).1) s ws.

Definition message_table (t : string) : Prop := t = MESSAGES \/ t = GROUP_MESSAGES \/ t = CHANNEL_MESSAGES.

Lemma late_keeps w s t k row : message_table t -> row_sealed s t k row -> row_sealed (late w s).1 t k row.
Proof.
  intros Ht Hs.
  assert (Hother : t <> ATTACHMENT_GC /\ t <> OUTBOUND_ATTEMPTS /\ t <> MESSAGE_DELETIONS /\ t <> MESSAGE_DELETION_TARGETS)
    by (destruct Ht as [->|[->| ->]]; done).
  destruct Hother as (Hg & Ho & Hd & Hi).
  assert (Hupd : forall t' k' b, t <> t' -> keeps (dek s) t k row (t_update t' k' b)).
  { intros t' k' b Hne. apply (frame_keeps (in_table t')); [done|]. by apply frame_update. }
  assert (Hrun : forall T (op : tx T) s0, dek s0 = dek s -> keeps (dek s) t k row op -> row_sealed s0 t k row ->
    row_sealed (transact op s0).1 t k row).
  { intros T op s0 Hk Hop Hs0. destruct (transact op s0) as [s' r] eqn:Htr.
    eapply transact_keeps in Htr as [_ Hs']; [exact Hs'|by rewrite Hk|done]. }
  destruct w as [t' id sent mid b|t' id sent mid b a|scope id mid b|scope id mid|user rs|k']; cbn [late].
  - unfold append_history_message, m_bind. destruct (p_encrypt b s) as [s1 [blob|e]] eqn:He;
      apply encrypt_keeps with (t := t) (k := k) (row := row) in He as [Hk1 Hs1]; [|done..].
    apply Hrun; [done|by apply keeps_write_row|done].
  - unfold commit_send, m_bind. destruct (p_encrypt b s) as [s1 [blob|e]] eqn:He;
      apply encrypt_keeps with (t := t) (k := k) (row := row) in He as [Hk1 Hs1]; [|done..].
    apply Hrun; [done| |done]. apply keeps_bind; [by apply keeps_write_row|]. intros _. by apply keeps_outbound.
  - unfold put_outbound_attempt. destruct (tables_of_scope scope); [|done]. apply Hrun; [done| |done]. by apply keeps_outbound.
  - apply Hrun; [done| |done]. by apply Hupd.
  - unfold save_account_deletions, m_bind, m_lift.
    destruct (try_fold _ _ _) as [[]|e]; [|done]. apply Hrun; [done| |done]. apply keeps_each. intros r.
    by apply keeps_merge.
  - apply Hrun; [done| |done]. by apply Hupd.
Qed.

(** C20. An erased row is sealed on disk: once a message's row has been erased,
    no late copy, send, retry, settlement, record from another device or file
    removal, in any order and whatever the database answers, changes a byte of
    it. *)
Theorem sealed_rows_stay ws s t k row :
  message_table t -> row_sealed s t k row -> table_of (db (run_late ws s)) t !! k = Some row.
Proof.
  intros Ht. revert s. induction ws as [|w ws IH]; intros s Hs; [apply Hs|]. cbn [run_late foldl].
  apply IH. by apply late_keeps.
Qed.

(** *** A deletion that is known erases every copy *)

Context {aes_laws : AesLaws} {value_laws : ValueJsonLaws}.
(** A marker is never [null]. *)
Hypothesis marker_object : forall m v, marker_to_value m = Ok v -> v <> VNull.

(** A message row without content. *)
Definition content_free (v : Value) : Prop :=
  erased_value v = true /\ pointer ["message"; "body"] v = Some (VString "") /\
  (forall k, k ∈ wiped -> pointer ["message"; k] v = Some VNull) /\
  get "attachment_manifest" v = Some VNull /\ get "preview_manifest" v = Some VNull.

Lemma lookup_wiped (m : gmap string Value) k :
  foldl (fun m k => <[ k := VNull ]> m) m wiped !! k = if bool_decide (k ∈ wiped) then Some VNull else m !! k.
Proof.
  unfold wiped. generalize ["attachment"; "call_event"; "name_change"; "delivery_status"; "delivery_error"; "retryable"; "retry_count"].
  intros l. revert m. induction l as [|x l IH]; intros m; [done|]. cbn [foldl]. rewrite IH.
  destruct (decide (k ∈ l)) as [Hin|Hout].
  - by rewrite (bool_decide_eq_true_2 (k ∈ l)), (bool_decide_eq_true_2 (k ∈ x :: l)) by (try right; done).
  - rewrite (bool_decide_eq_false_2 (k ∈ l)) by done. destruct (decide (k = x)) as [->|Hne].
    + by rewrite lookup_insert_eq, bool_decide_eq_true_2 by left.
    + rewrite lookup_insert_ne, bool_decide_eq_false_2; [done| |done]. by intros [|]%elem_of_cons.
Qed.

Lemma erase_content_free r target corr v v' :
  erase_content r target corr v = Ok v' -> content_free v'.
Proof using marker_object.
  unfold erase_content. intros He. apply bind_Ok in He as (m & _ & He). apply bind_Ok in He as (row & _ & He).
  apply bind_Ok in He as (mark & Hmark%map_err_Ok & [= <-]). apply marker_object in Hmark.
  set (metadata := <[ "can_delete_for_everyone" := _ ]> _).
  set (message := <[ "metadata" := VObject metadata ]> _).
  set (v' := VObject _).
  assert (Hmsg : get "message" v' = Some (VObject message)) by by unfold v'; cbn; simplify_map_eq.
  assert (Hmd : get "metadata" (VObject message) = Some (VObject metadata)) by by unfold message; cbn; simplify_map_eq.
  unfold content_free, erased_value. cbn [pointer]. rewrite Hmsg. cbn [mbind option_bind]. rewrite Hmd.
  cbn [mbind option_bind]. split; [|split; [|split; [|by unfold v'; cbn; simplify_map_eq]]].
  - apply held_Some. exists mark. unfold metadata. cbn. by simplify_map_eq.
  - unfold message. cbn. by simplify_map_eq.
  - intros k Hk. enough (Hget : get k (VObject message) = Some VNull) by by rewrite Hget.
    unfold get, message. cbn [as_object mbind option_bind].
    rewrite !lookup_insert_ne by (intros <-; apply (bool_decide_eq_true_2 _) in Hk; done).
    change (foldl (fun m k => <[ k := VNull ]> m) m wiped !! k = Some VNull).
    by rewrite lookup_wiped, bool_decide_eq_true_2.
Qed.

(** A record as [merge_deletion_row] leaves it: its row, and the index entries
    of its names. *)
Definition filed (K : bytes) (tables : gmap string (gmap string bytes)) (r : DeletionRecord) : Prop :=
  from_utf8 (String.list_byte_of_string (storage_key r)) = Some (storage_key r) /\
  (exists row p, table_of tables MESSAGE_DELETIONS !! storage_key r = Some row /\ decrypt K row = Ok p /\
     record_from_slice p = Ok r) /\
  forall name, name = r_key r \/ r_correlation r = Some name ->
    exists row, table_of tables MESSAGE_DELETION_TARGETS !! index_key (r_context r) name (storage_key r) = Some row /\
      decrypt K row = Ok (String.list_byte_of_string (storage_key r)).

Lemma prefix_in_range p k : let '(start, stop) := prefix_range p in in_range start stop (p +:+ one +:+ k) = true.
Proof.
  unfold prefix_range, in_range. cbn zeta. rewrite !leb_app. change (String (Ascii.ascii_of_N 1) EmptyString) with one.
  assert (H1 : String.leb one (one +:+ k) = true).
  { change (one +:+ k) with (String (Ascii.ascii_of_N 1) k). unfold one. rewrite leb_cons. by destruct k. }
  assert (H2 : String.leb (one +:+ k) (String (Ascii.ascii_of_N 2) EmptyString) = true).
  { change (one +:+ k) with (String (Ascii.ascii_of_N 1) k). by rewrite leb_cons. }
  rewrite H1, H2. cbn [andb]. apply negb_true_iff, String.eqb_neq. intros He.
  by apply (inj (String.append _)) in He.
Qed.

Lemma index_key_in_range ctx name k :
  let '(start, stop) := prefix_range (ctx +:+ one +:+ name) in in_range start stop (index_key ctx name k) = true.
Proof.
  unfold index_key. replace (ctx +:+ one +:+ name +:+ one +:+ k) with ((ctx +:+ one +:+ name) +:+ one +:+ k)
    by by rewrite !append_assoc.
  apply prefix_in_range.
Qed.

Lemma targets_subset d l acc rs r : try_fold (target_record d) acc l = Ok rs -> r ∈ acc -> r ∈ rs.
Proof.
  intros Hf Hin. eapply (try_fold_inv (fun a => r ∈ a)); [|exact Hin|exact Hf].
  intros a [k v] b _ Ha Hb. unfold target_record in Hb.
  apply bind_Ok in Hb as (p & _ & Hb). apply bind_Ok in Hb as (k' & _ & Hb).
  destruct (table_of _ _ !! k'); [|by injection Hb as <-].
  apply bind_Ok in Hb as (b' & _ & Hb). apply bind_Ok in Hb as (r' & _ & [= <-]). apply elem_of_app. by left.
Qed.

Lemma filed_found d r name d' rs : filed (key d) (tables d) r -> name = r_key r \/ r_correlation r = Some name ->
  deletion_target_records (r_context r) name d = (d', Ok rs) -> d' = d /\ r ∈ rs.
Proof.
  intros (Hu & (row & p & Hrow & Hp & Hr) & Hidx) Hname.
  destruct (Hidx name Hname) as (irow & Hirow & Hip). unfold deletion_target_records.
  pose proof (index_key_in_range (r_context r) name (storage_key r)) as Hrange.
  destruct (prefix_range _) as [start stop]. intros [= <- Hf]. split; [done|].
  assert (Hin : (index_key (r_context r) name (storage_key r), irow)
    ∈ rows_between start stop (table_of (tables d) MESSAGE_DELETION_TARGETS)).
  { apply list_elem_of_filter. split; [done|]. by apply elem_of_btree_entries. }
  apply list_elem_of_split in Hin as (l1 & l2 & Hl). rewrite Hl, try_fold_app in Hf.
  apply bind_Ok in Hf as (acc & _ & Hf). cbn [try_fold] in Hf. apply bind_Ok in Hf as (acc' & Hacc & Hf).
  eapply targets_subset; [exact Hf|]. unfold target_record in Hacc. cbn [snd] in Hacc.
  rewrite Hip in Hacc. cbn [mbind result_bind] in Hacc. rewrite Hu in Hacc. cbn [ok_or mbind result_bind] in Hacc.
  rewrite Hrow, Hp in Hacc. cbn [mbind result_bind] in Hacc. rewrite Hr in Hacc. injection Hacc as <-.
  apply elem_of_app. right. by left.
Qed.

Lemma strongest_Some rs r : r ∈ rs -> is_Some (strongest rs).
Proof.
  intros Hr. unfold strongest.
  assert (Hsome : forall l (o : option DeletionRecord), is_Some o -> is_Some (foldl (fun best r => match best with
            | None => Some r
            | Some b => if Erasure.rank_leb (guard_rank b) (guard_rank r) then Some r else Some b end) o l)).
  { induction l as [|x l IH]; intros o [b ->]; [by eexists|]. cbn [foldl]. apply IH. destruct (Erasure.rank_leb _ _); by eexists. }
  destruct rs as [|x l]; [by apply elem_of_nil in Hr|]. cbn [foldl]. apply Hsome. by eexists.
Qed.

(** The user of this installation, as the guard reads it. *)
Definition owner_is (d : Draft) (user : string) : Prop := (deletion_owner d).2 = Ok user.

Lemma filed_matches d r target corr owner d' o : filed (key d) (tables d) r ->
  matches r target corr = true -> r_scope r = ForEveryone \/ r_owner r = owner ->
  matching_deletion (r_context r) target corr owner d = (d', Ok o) -> d' = d /\ is_Some o.
Proof.
  intros Hf Hm Hs. unfold matching_deletion. intros Hmd.
  apply m_bind_Ok in Hmd as (d1 & own & Hown & Hmd). apply m_bind_Ok in Hmd as (d2 & more & Hmore & Hmd).
  injection Hmd as <- <-.
  assert (d1 = d) as ->.
  { unfold deletion_target_records in Hown. destruct (prefix_range _). by injection Hown as <- _. }
  assert (d2 = d) as ->.
  { destruct corr as [alias|]; [|by injection Hmore as <- _].
    destruct (String.eqb alias target); [by injection Hmore as <- _|].
    unfold deletion_target_records in Hmore. destruct (prefix_range _). by injection Hmore as <- _. }
  split; [done|]. eapply strongest_Some, list_elem_of_filter. split; [split; [exact Hm|exact Hs]|].
  apply elem_of_app. unfold matches in Hm.
  rewrite orb_true_iff, andb_true_iff, orb_true_iff, String.eqb_eq, !bool_decide_eq_true in Hm.
  destruct Hm as [Hk|[_ [Hc|Ha]]].
  - left. eapply filed_found; [done|by left|exact Hown].
  - left. eapply filed_found; [done|by right|exact Hown].
  - destruct corr as [alias|]; [|done]. rewrite orb_true_iff, String.eqb_eq, bool_decide_eq_true in Ha.
    assert (Hname : alias = r_key r \/ r_correlation r = Some alias) by (destruct Ha; auto).
    destruct (String.eqb_spec alias target) as [->|_].
    + left. by eapply filed_found.
    + right. by eapply filed_found.
Qed.

Lemma decrypt_encrypt k i p b : encrypt k i p = Ok b -> decrypt k b = Ok p.
Proof using aes_laws.
  unfold encrypt, decrypt. intros He.
  eapply (decrypt_encrypt_blob aes_encrypt aes_decrypt os_rng aes_roundtrip os_rng_length). exact He.
Qed.

Lemma t_put_Ok t k p d d' : t_put t k p d = (d', Ok tt) ->
  key d' = key d /\ exists row, decrypt (key d) row = Ok p /\ tables d' = update_row (tables d) t k (Some row).
Proof using aes_laws.
  unfold t_put, m_bind, t_encrypt. destruct (encrypt _ _ _) as [b|e] eqn:He; [|done].
  intros [= <-]. split; [done|]. exists b. split; [by eapply decrypt_encrypt|done].
Qed.

Lemma row_target_same t v v' :
  (forall k, k <> "history_evidence" -> get k v' = get k v) -> row_target t v' = row_target t v.
Proof.
  intros Hget. unfold Rows.row_target, row_correlation. cbn [pointer].
  by rewrite (Hget "conversation_id"), (Hget "message"), (Hget "attachment_manifest") by done.
Qed.

Lemma retain_value t b v existing b1 : retain_history_evidence b existing = Ok b1 ->
  value_from_slice b = Ok v -> exists v1, value_from_slice b1 = Ok v1 /\ row_target t v1 = row_target t v.
Proof using value_laws.
  unfold retain_history_evidence. intros Hr Hv.
  destruct (non_null _) as [e|]; [|injection Hr as <-; by exists v].
  apply bind_Ok in Hr as (v0 & Hv0%map_err_Ok & Hr). rewrite Hv in Hv0. injection Hv0 as <-.
  apply bind_Ok in Hr as (m & Hm%ok_or_Ok & Hr).
  destruct (held _); [injection Hr as <-; by exists v|]. apply map_err_Ok, value_roundtrip in Hr.
  eexists. split; [exact Hr|]. apply row_target_same. intros k Hk. destruct v; try discriminate Hm.
  injection Hm as ->. unfold get. cbn. by rewrite lookup_insert_ne.
Qed.

Lemma erase_known d d' t b v target corr r p : filed (key d) (tables d) r ->
  value_from_slice b = Ok v -> row_target t v = Some (r_context r, target, corr) ->
  matches r target corr = true -> r_scope r = ForEveryone \/ owner_is d (r_owner r) ->
  erase_known_target t b d = (d', Ok p) ->
  key d' = key d /\ exists v', value_from_slice p = Ok v' /\ content_free v'.
Proof using marker_object value_laws.
  intros Hf Hv Ht Hm Hs. unfold Rows.erase_known_target. rewrite Hv, Ht. intros He.
  apply m_bind_Ok in He as (d1 & owner & Ho & He).
  assert (d1 = d /\ (deletion_owner d).2 = Ok owner) as [-> Howner].
  { rewrite Ho. split; [|done]. apply m_bind_Ok in Ho as (d2 & o & [= -> _] & [= -> _]). done. }
  apply m_bind_Ok in He as (d2 & o & Hmd & He).
  eapply filed_matches in Hmd as [-> [r' ->]]; [|exact Hf|exact Hm|].
  2: { destruct Hs as [|Hs]; [by left|right]. unfold owner_is in Hs. congruence. }
  apply m_bind_Ok in He as (d3 & [] & Hq & He). apply frame_files in Hq as [Hk _].
  apply m_bind_Ok in He as (d4 & v' & [= <- Hv'] & [= <- Hp]). apply map_err_Ok, value_roundtrip in Hp.
  split; [done|]. exists v'. split; [done|]. by eapply erase_content_free.
Qed.

Lemma write_row_fresh_aux t k blob d d' b v target corr r existing :
  filed (key d) (tables d) r -> decrypt (key d) blob = Ok b -> value_from_slice b = Ok v ->
  row_target t v = Some (r_context r, target, corr) -> matches r target corr = true ->
  r_scope r = ForEveryone \/ owner_is d (r_owner r) ->
  (p <~ t_decrypt blob;; p <~ m_lift (retain_history_evidence p existing);;
   p <~ erase_known_target t p;; t_put (messages t) k p) d = (d', Ok tt) ->
  exists row p v', table_of (tables d') (messages t) !! k = Some row /\ key d' = key d /\
    decrypt (key d) row = Ok p /\ value_from_slice p = Ok v' /\ content_free v'.
Proof using marker_object value_laws aes_laws.
  intros Hf Hb Hv Ht Hm Hs Hw. apply m_bind_Ok in Hw as (d1 & b' & [= <- Hb'] & Hw).
  rewrite Hb in Hb'. injection Hb' as <-. apply m_bind_Ok in Hw as (d2 & b1 & [= <- Hr] & Hw).
  eapply retain_value in Hr as (v1 & Hv1 & Ht1); [|exact Hv]. rewrite Ht in Ht1.
  apply m_bind_Ok in Hw as (d2 & p & He & Hput).
  eapply erase_known in He as [Hk (v' & Hv' & Hfree)]; [|done..].
  apply t_put_Ok in Hput as [Hk' (row & Hrow & Hdb)]. rewrite Hk in *.
  exists row, p, v'. rewrite Hdb, table_of_update, decide_True by done. by rewrite lookup_partial_alter_eq.
Qed.

Lemma write_row_known t k blob d d' b v target corr r :
  filed (key d) (tables d) r -> decrypt (key d) blob = Ok b -> value_from_slice b = Ok v ->
  row_target t v = Some (r_context r, target, corr) -> matches r target corr = true ->
  r_scope r = ForEveryone \/ owner_is d (r_owner r) -> write_history_row t k blob d = (d', Ok tt) ->
  (exists row, sealed (key d) (tables d) (messages t) k row) \/
  exists row p v', table_of (tables d') (messages t) !! k = Some row /\ key d' = key d /\
    decrypt (key d) row = Ok p /\ value_from_slice p = Ok v' /\ content_free v'.
Proof using marker_object value_laws aes_laws.
  intros Hf Hb Hv Ht Hm Hs. unfold Rows.write_history_row. intros Hw.
  apply m_bind_Ok in Hw as (d1 & old & [= <- Hold] & Hw). cbv zeta in Hw.
  destruct (old ≫= fun p => res_ok (value_from_slice p)) as [ev|] eqn:Hev.
  - destruct (erased_value ev) eqn:Herased.
    { left. destruct (table_of (tables d) (messages t) !! k) as [row|] eqn:Hrow; [|by injection Hold as <-].
      apply bind_Ok in Hold as (p & Hp & [= <-]). cbn in Hev.
      destruct (value_from_slice p) as [v0|] eqn:Hv0; [|done]. injection Hev as <-. exists row. split; [done|]. by exists p, v0. }
    right. revert Hw. generalize (Some ev). clear ev Hev Herased Hold old. intros existing Hw.
    by eapply write_row_fresh_aux.
  - right. by eapply write_row_fresh_aux.
Qed.

(** What the guard reads before a write begins. *)
Definition draft_of (s : Store.Persistence) : Draft := {| key := dek s; tables := db s; draws := rng s |}.

Lemma owner_is_same d d' user : key d' = key d -> tables d' = tables d -> owner_is d user -> owner_is d' user.
Proof.
  unfold owner_is, deletion_owner, m_bind, t_read. intros -> ->.
  by destruct (match table_of _ _ !! _ with Some _ => _ | None => _ end).
Qed.

(** C18. A deletion that is known erases every later copy: once a deletion
    record and its index are on disk, appending any message that the record
    names, by its own key or by the name the user's other devices know it by,
    stores a row without text, file, call or delivery state that carries the
    deletion; the only other outcome is that the row had been erased before. *)
Theorem late_copy_erased t id sent mid b s s' v target corr r :
  filed (dek s) (db s) r -> value_from_slice b = Ok v ->
  row_target t v = Some (r_context r, target, corr) -> matches r target corr = true ->
  r_scope r = ForEveryone \/ owner_is (draft_of s) (r_owner r) ->
  append_history_message sha256 hex_decode t id sent mid b s = (s', Ok tt) ->
  let k := history_message_key id sent mid in
  (exists row, row_sealed s (messages t) k row) \/
  exists row p v', table_of (db s') (messages t) !! k = Some row /\ decrypt (dek s') row = Ok p /\
    value_from_slice p = Ok v' /\ content_free v'.
Proof using marker_object value_laws aes_laws.
  intros Hf Hv Ht Hm Hs Ha. cbn zeta. unfold append_history_message in Ha.
  apply m_bind_Ok in Ha as (s1 & blob & [= <- Hblob] & Ha). apply decrypt_encrypt in Hblob.
  apply transact_cases in Ha as [Hk [[_ [=]]|(d & [] & Hw & Hdb & _)]]. cbn [drawn dek db rng] in *.
  eapply write_row_known in Hw; [|exact Hf|exact Hblob|exact Hv|exact Ht|exact Hm|].
  2: { destruct Hs as [|Hs]; [by left|right]. by eapply owner_is_same; [..|exact Hs]. }
  destruct Hw as [|(row & p & v' & Hrow & Hkd & Hp & Hv' & Hfree)]; [by left|right].
  exists row, p, v'. cbn [key] in *. rewrite Hdb, Hk. done.
Qed.

(** ** The store of deletions, as the conversations use it *)

Hypothesis record_roundtrip : forall r b, record_to_vec r = Ok b -> record_from_slice b = Ok r.

Definition saved_records (K : bytes) (tables : gmap string (gmap string bytes)) : gmap string DeletionRecord :=
  omap (fun row => p ← res_ok (decrypt K row); res_ok (record_from_slice p)) (table_of tables MESSAGE_DELETIONS).

(** The digest at the end of an acceptance row's key. *)
Fixpoint after_last (c : Ascii.ascii) (k : string) : string :=
  match k with
  | EmptyString => EmptyString
  | String d k' => if Store.contains c k' then after_last c k' else if bool_decide (c = d) then k' else k
  end.
Definition receipt_rows (tables : gmap string (gmap string bytes)) : gset string :=
  set_map (after_last (Ascii.ascii_of_N 1)) (dom (table_of tables DELETION_ACCEPTANCE)).

Lemma after_last_app c p k : Store.contains c k = false -> after_last c (p +:+ String c k) = k.
Proof.
  intros Hk. induction p as [|d p IH].
  - rewrite append_nil. cbn [after_last]. by rewrite Hk, bool_decide_eq_true_2.
  - rewrite append_cons. cbn [after_last].
    assert (Hc : Store.contains c (p +:+ String c k) = true).
    { clear. induction p as [|d p IH].
      - rewrite append_nil. cbn [Store.contains]. by rewrite bool_decide_eq_true_2.
      - rewrite append_cons. cbn [Store.contains]. rewrite IH. apply orb_true_r. }
    by rewrite Hc.
Qed.

Lemma hex_no_one b : Store.contains (Ascii.ascii_of_N 1) (hex_string b) = false.
Proof.
  assert (Hd : forall n, (n < 16)%N -> bool_decide (Ascii.ascii_of_N 1 = hex_digit n) = false).
  { intros n Hn. apply bool_decide_eq_false_2. intros He. apply (f_equal byte_at) in He. unfold hex_digit in He.
    destruct (n <? 10)%N; rewrite !byte_at_of_N in He by lia; lia. }
  induction b as [|x b IH]; [done|]. cbn [hex_string Store.contains].
  pose proof (Byte.to_N_bounded x).
  rewrite IH, !Hd; [done|apply N.mod_lt; lia|apply N.Div0.div_lt_upper_bound; lia].
Qed.

Lemma saved_frame {A} S (op : tx A) d d' r : frame S op -> (forall k, ~ S MESSAGE_DELETIONS k) ->
  op d = (d', r) -> saved_records (key d') (tables d') = saved_records (key d) (tables d).
Proof.
  intros Hf HS [Hk Ht]%Hf. unfold saved_records. rewrite Hk. f_equal. apply map_eq. intros k. by apply Ht.
Qed.

Lemma merge_saved r d d' : merge_deletion_row r d = (d', Ok tt) ->
  key d' = key d /\ saved_records (key d') (tables d') = Erasure.merge_one (saved_records (key d) (tables d)) r.
Proof using record_roundtrip aes_laws.
  unfold merge_deletion_row. intros Hm.
  apply m_bind_Ok in Hm as (d1 & old & [= <- Hold] & Hm).
  apply m_bind_Ok in Hm as (d1 & rec & [= <- Hrec] & Hm).
  apply m_bind_Ok in Hm as (d1 & b & [= <- Hb%map_err_Ok] & Hm).
  apply m_bind_Ok in Hm as (d1 & blob & [= <- Hblob%decrypt_encrypt] & Hm).
  apply m_bind_Ok in Hm as (d2 & [] & [= <-] & Hm).
  assert (Hidx : frame (in_table MESSAGE_DELETION_TARGETS) (index_deletion rec)).
  { unfold index_deletion. framed. apply frame_each. intros x _. by apply frame_update. }
  pose proof Hm as Hm'. apply Hidx in Hm' as [Hk _]. cbn [key] in Hk. split; [done|].
  rewrite (saved_frame _ _ _ _ _ Hidx ltac:(by intros k [=]) Hm). unfold saved_records. cbn [key tables].
  change (<[MESSAGE_DELETIONS:=_]> (tables d))
    with (update_row (tables d) MESSAGE_DELETIONS (storage_key r) (Some blob)).
  rewrite table_of_update, decide_True by done. unfold Erasure.merge_one.
  apply map_eq. intros k. rewrite lookup_omap.
  destruct (decide (k = storage_key r)) as [->|Hne].
  - rewrite lookup_partial_alter_eq, lookup_insert_eq. cbn. rewrite Hblob. cbn.
    rewrite (record_roundtrip _ _ Hb). cbn. f_equal. rewrite lookup_omap.
    destruct (table_of (tables d) MESSAGE_DELETIONS !! storage_key r) as [row|]; cbn.
    + apply bind_Ok in Hold as (p & Hp & [= <-]). rewrite Hp. cbn.
      apply bind_Ok in Hrec as (cur & Hcur%map_err_Ok & [= <-]). by rewrite Hcur.
    + injection Hold as <-. by injection Hrec as <-.
  - by rewrite lookup_partial_alter_ne, lookup_insert_ne, lookup_omap by done.
Qed.

(** Acceptance rows are only added. *)
Definition receipts_grow {A} (op : tx A) : Prop :=
  forall d d' r, op d = (d', r) -> receipt_rows (tables d) ⊆ receipt_rows (tables d').

Lemma frame_receipts {A} S (op : tx A) : frame S op -> (forall k, ~ S DELETION_ACCEPTANCE k) -> receipts_grow op.
Proof.
  intros Hf HS d d' r [_ Ht]%Hf. unfold receipt_rows.
  replace (table_of (tables d') DELETION_ACCEPTANCE) with (table_of (tables d) DELETION_ACCEPTANCE); [done|].
  apply map_eq. intros k. symmetry. by apply Ht.
Qed.

Lemma acceptance_rows r d d' : save_deletion_acceptance sha256 r d = (d', Ok tt) ->
  key d' = key d /\ receipt_rows (tables d) ⊆ receipt_rows (tables d') /\
  (Erasure.is_receipt r = true -> forall h, Erasure.receipt_digest sha256 r = Ok h -> h ∈ receipt_rows (tables d')) /\
  saved_records (key d') (tables d') = saved_records (key d) (tables d).
Proof using aes_laws.
  intros Hs. assert (Hframe : frame (in_table DELETION_ACCEPTANCE) (save_deletion_acceptance sha256 r)).
  { unfold save_deletion_acceptance. framed. by apply frame_put. }
  assert (Hsaved : saved_records (key d') (tables d') = saved_records (key d) (tables d))
    by (eapply saved_frame; [exact Hframe|by intros k [=]|exact Hs]).
  revert Hs. unfold save_deletion_acceptance, Erasure.is_receipt, Erasure.receipt_digest.
  destruct (r_ack r) as [ack|]; [|intros [= <-]; by rewrite andb_false_r].
  destruct (r_request r) as [q|].
  2: { intros [= <-]. split; [done|]. split; [done|]. split; [|done]. intros _ h [=]. }
  destruct (is_confirmed r); cbn [negb]; [|by intros [= <-]].
  intros Hs. apply m_bind_Ok in Hs as (d1 & h & [= <- Hh%map_err_Ok] & Hs).
  apply m_bind_Ok in Hs as (d1 & b & [= <- Hb] & Hs). apply t_put_Ok in Hs as [Hk (row & _ & Hdb)].
  assert (Hnew : table_of (tables d') DELETION_ACCEPTANCE
    = <[ r_context r +:+ one +:+ h := row ]> (table_of (tables d) DELETION_ACCEPTANCE)).
  { rewrite Hdb, table_of_update, decide_True by done. done. }
  unfold receipt_rows. rewrite Hnew, dom_insert_L, set_map_union_L, set_map_singleton_L.
  split; [done|]. split; [apply union_subseteq_r|]. split; [|done].
  intros _ h' Hh'. cbn in Hh'. rewrite Hh in Hh'. injection Hh' as <-.
  apply elem_of_union_l, elem_of_singleton. symmetry.
  change (one +:+ h) with (String (Ascii.ascii_of_N 1) h). apply after_last_app.
  unfold request_hash in Hh. apply bind_Ok in Hh as (i & _ & [= <-]). apply hex_no_one.
Qed.

Lemma merge_each rs (acc : bool) d d' :
  each (fun r => merge_deletion_row r;;; if acc then save_deletion_acceptance sha256 r else m_ret tt) rs d
  = (d', Ok tt) ->
  key d' = key d /\ saved_records (key d') (tables d') = Erasure.merge_all rs (saved_records (key d) (tables d)) /\
  receipt_rows (tables d) ⊆ receipt_rows (tables d') /\
  (acc = true -> forall r h, r ∈ rs -> Erasure.is_receipt r = true ->
     Erasure.receipt_digest sha256 r = Ok h -> h ∈ receipt_rows (tables d')).
Proof using record_roundtrip aes_laws.
  revert d. induction rs as [|r rs IH]; intros d He.
  { injection He as <-. split; [done|]. split; [done|]. split; [done|]. by intros _ r h ?%elem_of_nil. }
  cbn [each] in He. apply m_bind_Ok in He as (d1 & [] & Hr & He).
  apply m_bind_Ok in Hr as (d0 & [] & Hm & Ha).
  assert (Hgrow : receipt_rows (tables d) ⊆ receipt_rows (tables d0)).
  { eapply (frame_receipts (fun t _ => t = MESSAGE_DELETIONS \/ t = MESSAGE_DELETION_TARGETS)); [| |exact Hm].
    - unfold merge_deletion_row, index_deletion. framed.
    - by intros k [|]. }
  apply merge_saved in Hm as [Hk0 Hs0].
  assert (Hacc : key d1 = key d0 /\ receipt_rows (tables d0) ⊆ receipt_rows (tables d1) /\
    (acc = true -> Erasure.is_receipt r = true -> forall h, Erasure.receipt_digest sha256 r = Ok h ->
       h ∈ receipt_rows (tables d1)) /\ saved_records (key d1) (tables d1) = saved_records (key d0) (tables d0)).
  { destruct acc; [|by injection Ha as <-]. apply acceptance_rows in Ha as (? & ? & ? & ?). auto. }
  destruct Hacc as (Hk1 & Hg1 & Hin & Hs1). apply IH in He as (Hk & Hs & Hg & Hall).
  split; [congruence|]. split; [by rewrite Hs, Hs1, Hs0|]. split; [by do 2 (etrans; [eassumption|])|].
  intros Hacc r' h [->|Hr']%elem_of_cons Hrec Hd; [|by eapply Hall]. apply Hg. by eapply Hin.
Qed.

Lemma frame_erased_rows t l m :
  frame (fun t' _ => t' = messages t \/ t' = ATTACHMENT_GC \/ t' = OUTBOUND_ATTEMPTS)
    (commit_erased_rows sha256 hex_decode t l m).
Proof.
  revert m. induction l as [|[[k b] a] l IH]; intros m; cbn [commit_erased_rows]; [apply frame_ret|].
  apply frame_bind; [|intros o; apply IH]. unfold commit_erased_row.
  apply frame_bind; [eapply frame_weaken; [|apply frame_erase]; intros ? ? ->; by right; left|].
  framed.
Qed.

Context {M : Type}.
Variable stored_to_vec : Erasure.StoredMessage M -> result string bytes.

(** The interface the deletion protocol is proved against, over the rows of one
    kind of conversation. *)
Definition rows_store (t : HistoryTables) : Erasure.DeletionStore Store.Persistence M := {|
  Erasure.ds_cell := persistence_cell aes_encrypt aes_decrypt os_rng;
  Erasure.accepted_deletions s ctx := map_err Erasure.persistence_text (accepted_deletions ctx s);
  Erasure.deletion_records s ctx := map_err Erasure.persistence_text (deletion_records ctx s);
  Erasure.commit_message_deletions s rs stored cancelled files acc :=
    let '(s', r) := commit_message_deletions sha256 hex_decode stored_to_vec t rs stored cancelled files acc s in
    (s', map_err Erasure.persistence_text r);
  Erasure.saved s := saved_records (dek s) (db s);
  Erasure.accepted_saved s := receipt_rows (db s);
|}.

Lemma commit_cases t rs stored cancelled files (acc : bool) s s' r : message_table (messages t) ->
  commit_message_deletions sha256 hex_decode stored_to_vec t rs stored cancelled files acc s = (s', r) ->
  (is_ok r = false /\ saved_records (dek s') (db s') = saved_records (dek s) (db s) /\
   receipt_rows (db s') = receipt_rows (db s)) \/
  saved_records (dek s') (db s') = Erasure.merge_all rs (saved_records (dek s) (db s)) /\
  receipt_rows (db s) ⊆ receipt_rows (db s') /\
  (acc = true -> forall x h, x ∈ rs -> Erasure.is_receipt x = true ->
     Erasure.receipt_digest sha256 x = Ok h -> h ∈ receipt_rows (db s')).
Proof using record_roundtrip aes_laws.
  intros Ht. unfold commit_message_deletions, m_bind at 1, m_lift.
  destruct (try_fold _ _ _) as [l|e]; [|by intros [= <- <-]; left].
  intros Htr. apply transact_cases in Htr as [Hk [[Hdb Hr]|(d & v & Hop & Hdb & _)]].
  { left. by rewrite Hk, Hdb. }
  right. apply m_bind_Ok in Hop as (d1 & [] & Hgc & Hop). apply m_bind_Ok in Hop as (d2 & [] & Hm & Hop).
  assert (Hf1 : frame (in_table ATTACHMENT_GC) (each enqueue_attachment_gc files))
    by (apply frame_each; intros x _; apply frame_gc).
  pose proof (frame_erased_rows t l ∅) as Hf2.
  assert (Hmt : MESSAGE_DELETIONS <> messages t /\ DELETION_ACCEPTANCE <> messages t)
    by (destruct Ht as [->|[->| ->]]; done).
  destruct Hmt as [Hmt1 Hmt2].
  assert (Hs1 : saved_records (key d1) (tables d1) = saved_records (dek s) (db s))
    by (eapply (saved_frame _ _ _ _ _ Hf1) in Hgc; [exact Hgc|by intros k [=]]).
  assert (Hg1 : receipt_rows (db s) ⊆ receipt_rows (tables d1))
    by (eapply (frame_receipts _ _ Hf1) in Hgc; [exact Hgc|by intros k [=]]).
  assert (Hs2 : saved_records (key d) (tables d) = saved_records (key d2) (tables d2)).
  { eapply (saved_frame _ _ _ _ _ Hf2); [|exact Hop]. by intros k [He|[He|He]]. }
  assert (Hg2 : receipt_rows (tables d2) ⊆ receipt_rows (tables d)).
  { eapply (frame_receipts _ _ Hf2); [|exact Hop]. by intros k [He|[He|He]]. }
  assert (Hkd : key d = dek s).
  { apply Hf2 in Hop as [-> _]. apply merge_each in Hm as [-> _]. by apply Hf1 in Hgc as [-> _]. }
  apply merge_each in Hm as (_ & Hs & Hg & Hall). rewrite Hk, Hdb.
  rewrite Hs1 in Hs. rewrite Hs, Hkd in Hs2. split; [exact Hs2|]. split; [by do 2 (etrans; [eassumption|])|].
  intros Hacc x h Hx Hrec Hh. apply Hg2. by eapply Hall.
Qed.


End Guards.

(** ** The rows of one session

    Transcripts of one record and a codec for shallow documents; nothing is
    encrypted. *)

#[local] Existing Instances Devices.toy_scheme Erasure.group_deletable.

#[local] Instance plain_aes : Aes := {| aes_encrypt := plain_encrypt; aes_decrypt := plain_decrypt; os_rng := zero_rng |}.
#[local] Instance plain_aes_laws : AesLaws.
Proof. split; [apply plain_roundtrip|apply zero_rng_length]. Qed.

(** A deletion for everyone of the message "t" of the session "x". *)
Definition known_record : DeletionRecord :=
  {| r_context := "dm:x"; r_key := "t"; r_correlation := None; r_scope := ForEveryone; r_owner := "a";
     r_local_only := false; r_status := DPending; r_administrator := None; r_request := None; r_ack := None |}.

#[local] Instance row_json : DeletionJson := {|
  origin_to_vec _ := Ok []; request_to_vec _ := Ok []; ack_to_vec _ := Ok []; frame_to_vec _ := Ok [];
  proof_to_vec _ := Ok []; proof_from_str _ := Err "unknown"; delegation_to_vec _ := Ok [];
  record_to_vec r := if decide (r = known_record) then Ok (str "known") else Err "unknown";
  records_to_vec _ := Ok [];
|}.
#[local] Instance row_json' : Erasure.ErasureJson := {|
  Erasure.json_to_vec _ := Ok []; Erasure.manifest_to_vec _ := Ok []; Erasure.message_to_vec _ := Ok [];
  Erasure.message_from_slice _ := Err "malformed"; Erasure.content_to_vec := Devices.toy_content;
  Erasure.roster_to_vec := Devices.toy_roster_bytes; Erasure.identity_to_vec _ := Ok [];
  Erasure.identity_from_slice _ := Err "malformed";
  Erasure.b64_encode := Fragments.toy_encode; Erasure.b64_decode := Fragments.toy_decode;
|}.
#[local] Instance row_rows : RowJson := {|
  rj_value := shallow_json 4;
  origin_from_value _ := Err "malformed"; descriptor_from_value _ := Err "malformed"; descriptor_from_slice _ := Err "malformed"; descriptor_to_vec _ := Ok [];
  manifest_from_value _ := Err "malformed"; marker_to_value _ := Ok (VBool true); marker_from_value _ := Err "malformed";
  record_from_slice b := if decide (b = str "known") then Ok known_record else Err "malformed";
  ack_row_to_vec _ := Ok []; ack_from_slice _ := Err "malformed";
|}.

Lemma row_marker_object m v : marker_to_value m = Ok v -> v <> VNull.
Proof. by intros [= <-]. Qed.
Lemma row_record_roundtrip r b : record_to_vec r = Ok b -> record_from_slice b = Ok r.
Proof. cbn. case_decide as Hr; intros [= <-]. by rewrite Hr. Qed.

Definition sealed_blob (p : bytes) : bytes := zero_rng 0 ++ p.
Definition row_of (v : Value) : bytes := default [] (res_ok (value_to_vec v)).
Definition message_of (md : list (string * Value)) : Value :=
  VObject {[ "conversation_id" := VString "x";
             "message" := VObject {[ "body" := VString "secret"; "metadata" := VObject (list_to_map md) ]} ]}.
Definition fresh_message : Value := message_of [("deletion_key", VString "t")].
Definition erased_message : Value := message_of [("deletion", VBool true)].

(** The record is filed; the message has not arrived. *)
Definition known_rows (rest : gmap string (gmap string bytes)) : Store.Persistence :=
  {| db := <[MESSAGE_DELETIONS := {[storage_key known_record := sealed_blob (str "known")]}]>
           (<[MESSAGE_DELETION_TARGETS := {[index_key "dm:x" "t" (storage_key known_record)
                                            := sealed_blob (str (storage_key known_record))]}]> rest);
     dek := []; rng := 0; outcomes := []; read_fault := None |}.

Definition m_key : string := history_message_key "x" 1 "m".
Definition erased_store : Store.Persistence :=
  known_rows {[ MESSAGES := {[ m_key := sealed_blob (row_of erased_message) ]} ]}.
Definition late_sends : list late_write :=
  [LateAppend DM_HISTORY "x" 1 "m" (row_of fresh_message);
   LateSend DM_HISTORY "x" 1 "m" (row_of fresh_message) (Some (row_of fresh_message));
   LateSettled "private_dm" "x" "m"].

Lemma sealed_rows_stay_witness :
  row_sealed erased_store MESSAGES m_key (sealed_blob (row_of erased_message)) /\
  table_of (db (run_late Fragments.toy_sha hex_bytes late_sends erased_store)) MESSAGES !! m_key
    = Some (sealed_blob (row_of erased_message)).
Proof.
  assert (Hs : row_sealed erased_store MESSAGES m_key (sealed_blob (row_of erased_message))).
  { split; [vm_compute; reflexivity|]. exists (row_of erased_message), erased_message.
    split; [vm_compute; reflexivity|]. split; vm_compute; reflexivity. }
  split; [exact Hs|]. apply sealed_rows_stay; [by left|exact Hs].
Defined.

Definition late_append := append_history_message Fragments.toy_sha hex_bytes DM_HISTORY "x" 1 "m" (row_of fresh_message).
Definition after_append : Store.Persistence := (late_append (known_rows ∅)).1.

Lemma late_copy_erased_witness :
  late_append (known_rows ∅) = (after_append, Ok tt) /\
  ((exists row, row_sealed (known_rows ∅) MESSAGES m_key row) \/
   exists row p v, table_of (db after_append) MESSAGES !! m_key = Some row /\ decrypt (dek after_append) row = Ok p /\
     value_from_slice p = Ok v /\ content_free v).
Proof.
  assert (Hok : late_append (known_rows ∅) = (after_append, Ok tt)).
  { unfold after_append. assert ((late_append (known_rows ∅)).2 = Ok tt) by (vm_compute; reflexivity).
    destruct (late_append (known_rows ∅)) as [s r]. cbn in *. by subst r. }
  split; [exact Hok|].
  refine (late_copy_erased Fragments.toy_sha hex_bytes (value_laws := shallow_json_laws 4) row_marker_object DM_HISTORY "x" 1 "m"
    (row_of fresh_message) (known_rows ∅) after_append fresh_message "t" _ known_record _ _ _ _ _ Hok).
  - split; [vm_compute; reflexivity|]. split.
    + exists (sealed_blob (str "known")), (str "known"). split; [vm_compute; reflexivity|].
      split; vm_compute; reflexivity.
    + intros name [->|[=]]. exists (sealed_blob (str (storage_key known_record))).
      split; vm_compute; reflexivity.
  - vm_compute. reflexivity.
  - vm_compute. reflexivity.
  - vm_compute. reflexivity.
  - by left.
Defined.


End Rows.
