(* ===== verification/OrgRoster.v ===== *)
(** * OrgRoster: the signed document an organization is ([org_roster.rs],
      [org_envelope.rs], [org_signing.rs])

    An organization is a JSON document its key signed: a version and the
    members with their roles.  Members check the signature and the version;
    their own messages travel in envelopes signed under their peer id, which is
    their node's key.  Ed25519, hexadecimal decoding and [serde_json] are
    parameters. *)
From S2P Require Import Prelude Values Devices.

Module OrgRoster.
Import Values Devices.

#[local] Open Scope mosh_scope.
#[local] Open Scope N_scope.
#[local] Set Default Proof Using "Type".

Record RosterMember := { moss_peer_id : string; name : string; role : string }.
#[export] Instance RosterMember_eq_dec : EqDecision RosterMember.
Proof. solve_decision. Defined.

Record Roster := { org_pubkey : string; org_name : string; version : N; members : list RosterMember }.

Inductive RosterError :=
| Json (e : string)
| Field (name : string)
| Signature
| WrongOrg
| Rollback (stored received : N).

(** [serde_json] on documents and on the member list. *)
Class RosterJson := {
  rj_values :: ValueJson;
  members_from_value : Value -> result string (list RosterMember);
}.

Section Rosters.
Context {scheme : Ed25519} {json : RosterJson}.
Variable hex_decode : string -> result string bytes.

Definition canonical_bytes (doc : Value) : result RosterError bytes := map_err Json (value_to_vec doc).

(** The document with its signature, and its bytes. *)
Definition sign_roster (doc : Value) (seed : bytes) : result RosterError (Value * bytes) :=
  obj ← ok_or (as_object doc) (Field "document");
  let unsigned := delete "sig" obj in
  input ← canonical_bytes (VObject unsigned);
  let signed := VObject (<[ "sig" := VString (hex_string (sign seed input)) ]> unsigned) in
  b ← canonical_bytes signed;
  Ok (signed, b).

Definition decode_key32 (hex64 : string) : result RosterError bytes :=
  b ← map_err (fun _ => Field "hex") (hex_decode hex64);
  _ ← guard_or (length b =? 32)%nat (Field "key length");
  Ok b.

(** [iter().all(|m| seen.insert(..))]. *)
Fixpoint distinct (seen : gset string) (ms : list RosterMember) : bool :=
  match ms with
  | [] => true
  | m :: ms => if bool_decide (moss_peer_id m ∈ seen) then false
               else distinct ({[ moss_peer_id m ]} ∪ seen) ms
  end.

Definition newer (stored : option N) (v : N) : result RosterError unit :=
  match stored with
  | Some s => if v <=? s then Err (Rollback s v) else Ok tt
  | None => Ok tt
  end.

Definition verify (b : bytes) (expected : string) (stored : option N) : result RosterError Roster :=
  doc ← map_err Json (value_from_slice b);
  obj ← ok_or (as_object doc) (Field "document");
  sig_hex ← ok_or (obj !! "sig" ≫= as_str) (Field "sig");
  let obj := delete "sig" obj in
  org ← ok_or (obj !! "org_pubkey" ≫= as_str) (Field "org_pubkey");
  _ ← guard_or (String.eqb org expected) WrongOrg;
  v ← ok_or (obj !! "version" ≫= as_u64) (Field "version");
  _ ← newer stored v;
  key ← decode_key32 org;
  _ ← guard_or (key_from_bytes key) (Field "org_pubkey");
  sig ← map_err (fun _ => Field "sig") (hex_decode sig_hex);
  _ ← guard_or (signature_from_slice sig) (Field "sig");
  input ← canonical_bytes (VObject obj);
  _ ← guard_or (verify_strict key sig input) Signature;
  label ← ok_or (obj !! "org_name" ≫= as_str) (Field "org_name");
  ms ← ok_or (obj !! "members") (Field "members");
  ms ← map_err Json (members_from_value ms);
  _ ← guard_or (distinct ∅ ms) (Field "members: duplicate moss_peer_id");
  Ok {| org_pubkey := org; org_name := label; version := v; members := ms |}.

Record RosterDiff := { added : list RosterMember; removed : list RosterMember }.

Definition ids (ms : list RosterMember) : gset string := list_to_set (map moss_peer_id ms).

Definition diff (old : option Roster) (new : Roster) : RosterDiff :=
  let old_ids := match old with Some r => ids (members r) | None => ∅ end in
  {| added := filter (fun m => moss_peer_id m ∉ old_ids) (members new);
     removed := match old with
                | Some r => filter (fun m => moss_peer_id m ∉ ids (members new)) (members r)
                | None => []
                end |}.

End Rosters.

(** ** Envelopes ([org_envelope.rs]) *)

Definition DOMAIN : bytes := String.list_byte_of_string "mosh-org-v1".

Record OrgContext := { c_org : string; c_mesh : string; c_kind : string }.
Record OrgSigned := { e_payload : bytes; peer_id : string; sig : bytes }.
Inductive EnvelopeError := BadPeerId | BadSignature.

(** [u64::to_le_bytes]. *)
Fixpoint le_bytes (k : nat) (n : N) : bytes :=
  match k with
  | O => []
  | S k => default x00 (Byte.of_N (n mod 256)) :: le_bytes k (n / 256)
  end.

Definition part (p : bytes) : bytes := le_bytes 8 (N.of_nat (length p)) ++ p.

Definition str_bytes (s : string) : bytes := String.list_byte_of_string s.

Definition signing_input (c : OrgContext) (p : bytes) : bytes :=
  DOMAIN ++ part (str_bytes (c_org c)) ++ part (str_bytes (c_mesh c)) ++ part (str_bytes (c_kind c)) ++ part p.

Section Envelopes.
Context {scheme : Ed25519}.
Variable hex_decode : string -> result string bytes.

Definition seal (seed : bytes) (c : OrgContext) (p : bytes) : OrgSigned :=
  {| e_payload := p; peer_id := hex_string (verifying_key seed); sig := sign seed (signing_input c p) |}.

Definition open (e : OrgSigned) (c : OrgContext) : result EnvelopeError unit :=
  key ← map_err (fun _ => BadPeerId) (hex_decode (peer_id e));
  _ ← guard_or (length key =? 32)%nat BadPeerId;
  _ ← guard_or (key_from_bytes key) BadPeerId;
  _ ← guard_or (signature_from_slice (sig e)) BadSignature;
  guard_or (verify_strict key (sig e) (signing_input c (e_payload e))) BadSignature.

(** ** The node's identity ([org_signing.rs]) *)

Definition IDENTITY_LEN : nat := 129.

(** The seed of the signing key in a stored identity. *)
Definition signing_key_from_identity (blob : bytes) : result string bytes :=
  _ ← guard_or (length blob =? IDENTITY_LEN)%nat "length";
  _ ← guard_or (bool_decide (head blob = Some x01)) "version";
  let seed := take 32 (drop 1 blob) in
  _ ← guard_or (bool_decide (verifying_key seed = take 32 (drop 33 blob))) "pubkey mismatch";
  Ok seed.

Definition peer_id_hex (seed : bytes) : string := hex_string (verifying_key seed).

End Envelopes.

(** ** Rosters are authentic *)

Lemma distinct_iff seen ms :
  distinct seen ms = true <->
  NoDup (map moss_peer_id ms) /\ forall m, m ∈ ms -> moss_peer_id m ∉ seen.
Proof.
  revert seen. induction ms as [|m ms IH]; intros seen; cbn [distinct map].
  { split; [|done]. intros _. split; [constructor|by intros m ?%elem_of_nil]. }
  destruct (bool_decide_reflect (moss_peer_id m ∈ seen)) as [Hin|Hnot].
  { split; [done|]. intros [_ Hall]. destruct (Hall m); [by left|done]. }
  rewrite IH, NoDup_cons. split.
  - intros [Hnd Hall]. split; [split; [|done]|].
    + intros (m' & Hm' & Hin)%list_elem_of_fmap. apply Hall in Hin. set_solver.
    + intros m' [->|Hin]%elem_of_cons; [done|]. apply Hall in Hin. set_solver.
  - intros [[Hm Hnd] Hall]. split; [done|]. intros m' Hin.
    rewrite elem_of_union, elem_of_singleton. intros [Heq|Hs].
    + apply Hm. rewrite <-Heq. by apply list_elem_of_fmap_2.
    + apply (Hall m'); [by right|done].
Qed.

Section Authentic.
Context {scheme : Ed25519} {json : RosterJson}.
Variable hex_decode : string -> result string bytes.

(** What a document must be for [verify] to take it, field by field. *)
Record authentic (b : bytes) (org : string) (stored : option N) (r : Roster) : Prop := {
  au_doc : exists obj sig_hex key sig input ms,
    value_from_slice b = Ok (VObject obj) /\ obj !! "sig" = Some (VString sig_hex) /\
    hex_decode org = Ok key /\ length key = 32%nat /\ key_from_bytes key = true /\
    hex_decode sig_hex = Ok sig /\ signature_from_slice sig = true /\
    value_to_vec (VObject (delete "sig" obj)) = Ok input /\ verify_strict key sig input = true /\
    obj !! "org_pubkey" = Some (VString org) /\ (obj !! "version" ≫= as_u64) = Some (version r) /\
    obj !! "org_name" = Some (VString (org_name r)) /\ obj !! "members" = Some ms /\
    members_from_value ms = Ok (members r);
  au_org : org_pubkey r = org;
  au_newer : match stored with Some s => s < version r | None => True end;
  au_distinct : NoDup (map moss_peer_id (members r));
}.

(** The signature of the organization is enough. *)
Lemma authentic_verifies b org stored r : authentic b org stored r -> verify hex_decode b org stored = Ok r.
Proof.
  unfold verify, canonical_bytes, decode_key32.
  intros [(obj & sg & key & sb & i & ms & H1 & H2 & H3 & H4 & H5 & H6 & H7 & H8 & H9 & H10 & H11 & H12 & H13 & H14)
    <- Hnew Hd].
  rewrite H1. cbn [map_err mbind result_bind as_object ok_or]. rewrite H2. cbn [mbind option_bind as_str ok_or result_bind].
  rewrite !lookup_delete_ne by done. rewrite H10. cbn [mbind option_bind as_str ok_or result_bind].
  rewrite String.eqb_refl. cbn [guard_or mbind result_bind]. rewrite H11. cbn [ok_or mbind result_bind].
  assert (Hn : newer stored (version r) = Ok tt).
  { unfold newer. destruct stored as [s|]; [|done]. by rewrite (proj2 (N.leb_gt _ _)). }
  rewrite Hn. cbn [mbind result_bind]. rewrite H3. cbn [map_err mbind result_bind]. rewrite H4, Nat.eqb_refl.
  cbn [guard_or mbind result_bind]. rewrite H5. cbn [guard_or mbind result_bind]. rewrite H6.
  cbn [map_err mbind result_bind]. rewrite H7. cbn [guard_or mbind result_bind]. rewrite H8.
  cbn [map_err mbind result_bind]. rewrite H9. cbn [guard_or mbind result_bind]. rewrite H12.
  cbn [as_str mbind option_bind ok_or result_bind]. rewrite H13. cbn [ok_or mbind result_bind]. rewrite H14.
  cbn [map_err mbind result_bind].
  rewrite (proj2 (distinct_iff ∅ (members r))) by (split; [done|]; intros m _; apply not_elem_of_empty).
  cbn. by destruct r.
Qed.

(** C40. A roster is taken exactly when the organization signed it and it is
    new: [verify] accepts a document as a roster if and only if its bytes hold
    an object whose [sig] the organization's key made over everything else in
    it, for this organization, newer than the stored version, with no peer
    twice, and the roster is what the signed fields say. *)
Theorem verify_iff b org stored r :
  verify hex_decode b org stored = Ok r <-> authentic b org stored r.
Proof.
  split; [|apply authentic_verifies].
  unfold verify, canonical_bytes, decode_key32. intros Hv. apply bind_Ok in Hv as (doc & Hdoc%map_err_Ok & Hv). apply bind_Ok in Hv as (obj & Hobj%ok_or_Ok & Hv).
  apply bind_Ok in Hv as (sg & Hsig%ok_or_Ok%as_str_Some & Hv). cbv zeta in Hv.
  apply bind_Ok in Hv as (o & Ho%ok_or_Ok%as_str_Some & Hv).
  apply bind_Ok in Hv as ([] & ->%guard_or_Ok%String.eqb_eq & Hv).
  apply bind_Ok in Hv as (v & Hver%ok_or_Ok & Hv). apply bind_Ok in Hv as ([] & Hnew & Hv).
  apply bind_Ok in Hv as (key & Hkey & Hv). apply bind_Ok in Hkey as (k & Hk%map_err_Ok & Hkey).
  apply bind_Ok in Hkey as ([] & Hlen%guard_or_Ok%Nat.eqb_eq & [= ->]).
  apply bind_Ok in Hv as ([] & Hgood%guard_or_Ok & Hv). apply bind_Ok in Hv as (sb & Hsb%map_err_Ok & Hv).
  apply bind_Ok in Hv as ([] & Hslice%guard_or_Ok & Hv). apply bind_Ok in Hv as (i & Hi%map_err_Ok & Hv).
  apply bind_Ok in Hv as ([] & Hstrict%guard_or_Ok & Hv).
  apply bind_Ok in Hv as (l & Hl%ok_or_Ok%as_str_Some & Hv). apply bind_Ok in Hv as (ms & Hms%ok_or_Ok & Hv).
  apply bind_Ok in Hv as (l' & Hl'%map_err_Ok & Hv).
  apply bind_Ok in Hv as ([] & [Hd _]%guard_or_Ok%distinct_iff & [= <-]).
  destruct doc; try discriminate Hobj. injection Hobj as ->.
  rewrite lookup_delete_ne in * by done.
  split; cbn; [|done| |done].
  + by exists obj, sg, key, sb, i, ms.
  + destruct stored as [s|]; [|done]. unfold newer in Hnew.
    destruct (N.leb_spec v s); [done|lia].
Qed.

End Authentic.

(** ** What is signed is taken *)

Section Signed.
Context {scheme : Ed25519} {laws : Ed25519Laws} {json : RosterJson}.
Variable hex_decode : string -> result string bytes.
Hypothesis hex_decode_string : forall b, hex_decode (hex_string b) = Ok b.
Hypothesis value_roundtrip : forall v b, value_to_vec v = Ok b -> value_from_slice b = Ok v.

(** What the administrator signs, every member takes: signing a document
    that names the organization, a version newer than the member's and
    distinct members gives bytes that verify as that very roster, and that
    verify again as the stored copy of a later run. Whatever other fields the
    document has, and whatever signature it carried before, do not matter. *)
Theorem signed_roster_verifies seed obj v label mv ms stored signed b :
  sign_roster (VObject obj) seed = Ok (signed, b) ->
  obj !! "org_pubkey" = Some (VString (hex_string (verifying_key seed))) ->
  (obj !! "version" ≫= as_u64) = Some v -> obj !! "org_name" = Some (VString label) ->
  obj !! "members" = Some mv -> members_from_value mv = Ok ms -> NoDup (map moss_peer_id ms) ->
  match stored with Some s => s < v | None => True end ->
  let r := {| org_pubkey := hex_string (verifying_key seed); org_name := label; version := v; members := ms |} in
  verify hex_decode b (hex_string (verifying_key seed)) stored = Ok r /\
  verify hex_decode b (hex_string (verifying_key seed)) None = Ok r.
Proof using Type*.
  unfold sign_roster. cbn [as_object ok_or mbind result_bind]. intros Hs Horg Hv Hl Hm Hms Hnd Hnew.
  apply bind_Ok in Hs as (input & Hi%map_err_Ok & Hs). apply bind_Ok in Hs as (b' & Hb%map_err_Ok & [= _ ->]).
  apply value_roundtrip in Hb. cbn zeta.
  enough (Hau : forall st, match st with Some s => s < v | None => True end ->
    verify hex_decode b (hex_string (verifying_key seed)) st
    = Ok {| org_pubkey := hex_string (verifying_key seed); org_name := label; version := v; members := ms |})
    by (split; by apply Hau).
  intros st Hst. apply authentic_verifies. split; cbn [members version org_name]; [|done..].
  set (unsigned := delete "sig" obj) in *.
  exists (<[ "sig" := VString (hex_string (sign seed input)) ]> unsigned), (hex_string (sign seed input)),
    (verifying_key seed), (sign seed input), input, mv.
  rewrite delete_insert_id by apply lookup_delete_eq.
  rewrite lookup_insert_eq, !lookup_insert_ne by done. unfold unsigned. rewrite !lookup_delete_ne by done.
  rewrite !hex_decode_string, key_length, key_decodes, sign_slice, sign_verifies. done.
Qed.

End Signed.

(** ** Membership changes *)

Lemma elem_of_ids p ms : p ∈ ids ms <-> exists m, m ∈ ms /\ moss_peer_id m = p.
Proof.
  unfold ids. rewrite elem_of_list_to_set, list_elem_of_fmap. split; intros (m & ? & ?); exists m; auto.
Qed.

(** The difference of two rosters is exact: taking away the removed peers
    and adding the added ones turns the old membership into the new, nothing
    is both, nobody is added who was there or removed who was not, and a
    rename or a change of role is no difference. *)
Theorem diff_exact old new :
  let d := diff old new in
  let before := match old with Some r => ids (members r) | None => ∅ end in
  ids (members new) = (before ∖ ids (removed d)) ∪ ids (added d) /\
  ids (removed d) ⊆ before /\ ids (added d) ## before /\ ids (removed d) ## ids (members new) /\
  (before = ids (members new) <-> added d = [] /\ removed d = []).
Proof.
  cbn zeta. set (before := match old with Some r => ids (members r) | None => ∅ end).
  assert (Hadd : forall p, p ∈ ids (added (diff old new)) <-> p ∈ ids (members new) /\ p ∉ before).
  { intros p. rewrite !elem_of_ids. cbn [diff added]. fold before. split.
    - intros (m & [? ?]%list_elem_of_filter & <-). eauto.
    - intros [(m & Hm & <-) Hn]. exists m. split; [by apply list_elem_of_filter|done]. }
  assert (Hrem : forall p, p ∈ ids (removed (diff old new)) <-> p ∈ before /\ p ∉ ids (members new)).
  { intros p. unfold before. destruct old as [r|]; cbn [diff removed].
    - rewrite elem_of_ids, (elem_of_ids p (members r)). split.
      + intros (m & [? ?]%list_elem_of_filter & <-). eauto.
      + intros [(m & Hm & <-) Hn]. exists m. split; [by apply list_elem_of_filter|done].
    - unfold ids at 1. cbn. rewrite !elem_of_empty. tauto. }
  assert (Hnil : forall l, l = [] <-> ids l = ∅).
  { intros l. split; [by intros ->|]. intros He. destruct l as [|m l]; [done|].
    destruct (not_elem_of_empty (C := gset string) (moss_peer_id m)). rewrite <-He. apply elem_of_ids.
    exists m. split; [by left|done]. }
  rewrite (Hnil (added _)), (Hnil (removed _)).
  clearbody before. clear Hnil.
  split; [|split; [|split; [|split; [|split]]]].
  - apply set_eq. intros p. rewrite elem_of_union, elem_of_difference, Hadd, Hrem.
    destruct (decide (p ∈ before)), (decide (p ∈ ids (members new))); tauto.
  - intros p Hp%Hrem. tauto.
  - intros p Hp%Hadd Hb. tauto.
  - intros p Hp%Hrem Hb. tauto.
  - intros ->. split; apply set_eq; intros p; [rewrite Hadd|rewrite Hrem]; rewrite elem_of_empty; tauto.
  - intros [Ha Hr]. apply set_eq. intros p. specialize (Hadd p). specialize (Hrem p).
    rewrite Ha, elem_of_empty in Hadd. rewrite Hr, elem_of_empty in Hrem.
    destruct (decide (p ∈ before)), (decide (p ∈ ids (members new))); tauto.
Qed.

(** ** Envelopes *)

Lemma le_bytes_length k n : length (le_bytes k n) = k.
Proof. revert n. induction k as [|k IH]; intros n; [done|]. cbn. by rewrite IH. Qed.

Lemma byte_of_N_inj a b : a < 256 -> b < 256 ->
  default x00 (Byte.of_N a) = default x00 (Byte.of_N b) -> a = b.
Proof.
  intros Ha Hb Heq. destruct (Byte.of_N a) as [x|] eqn:Hx; [|apply Byte.of_N_None_iff in Hx; lia].
  destruct (Byte.of_N b) as [y|] eqn:Hy; [|apply Byte.of_N_None_iff in Hy; lia]. cbn in Heq. subst y.
  apply Byte.to_of_N in Hx, Hy. congruence.
Qed.

Lemma le_bytes_inj k a b : a < 256 ^ N.of_nat k -> b < 256 ^ N.of_nat k -> le_bytes k a = le_bytes k b -> a = b.
Proof.
  revert a b. induction k as [|k IH]; intros a b Ha Hb; cbn [le_bytes]; [cbn in *; lia|].
  intros [= Hlow Hhigh]. rewrite Nat2N.inj_succ, N.pow_succ_r' in Ha, Hb.
  apply byte_of_N_inj in Hlow; [|apply N.mod_lt; lia..].
  apply IH in Hhigh; [|apply N.Div0.div_lt_upper_bound; lia..].
  rewrite (N.div_mod a 256), (N.div_mod b 256) by lia. congruence.
Qed.

Lemma part_inj p q r s : N.of_nat (length p) <= u64_max -> N.of_nat (length q) <= u64_max ->
  part p ++ r = part q ++ s -> p = q /\ r = s.
Proof.
  intros Hp Hq Heq. unfold part in Heq. rewrite <-!app_assoc in Heq.
  apply app_inj_1 in Heq as [Hlen Heq]; [|by rewrite !le_bytes_length].
  apply le_bytes_inj in Hlen; [|unfold u64_max in *; cbn; lia..].
  apply app_inj_1 in Heq; [done|lia].
Qed.

Lemma str_bytes_inj s t : str_bytes s = str_bytes t -> s = t.
Proof.
  unfold str_bytes. intros Heq. rewrite <-(String.string_of_list_byte_of_string s), Heq.
  apply String.string_of_list_byte_of_string.
Qed.

Definition short (c : OrgContext) : Prop :=
  str_len (c_org c) <= u64_max /\ str_len (c_mesh c) <= u64_max /\ str_len (c_kind c) <= u64_max.

Lemma str_bytes_length s : N.of_nat (length (str_bytes s)) = str_len s.
Proof.
  unfold str_bytes, str_len, String.list_byte_of_string. rewrite length_map.
  induction s as [|a s IH]; [done|]. cbn [String.list_ascii_of_string length String.length]. lia.
Qed.

(** An envelope says where it belongs: what is signed determines the
    organization, the mesh, the channel and the payload, so that a signature
    given in one place is never one for another place or another message. *)
Theorem signing_input_injective c c' p p' :
  short c -> short c' -> N.of_nat (length p) <= u64_max -> N.of_nat (length p') <= u64_max ->
  signing_input c p = signing_input c' p' -> c = c' /\ p = p'.
Proof.
  intros (H1 & H2 & H3) (H1' & H2' & H3') Hp Hp' Heq. unfold signing_input in Heq.
  apply app_inv_head in Heq.
  apply part_inj in Heq as [E1%str_bytes_inj Heq]; [|by rewrite str_bytes_length..].
  apply part_inj in Heq as [E2%str_bytes_inj Heq]; [|by rewrite str_bytes_length..].
  apply part_inj in Heq as [E3%str_bytes_inj Heq]; [|by rewrite str_bytes_length..].
  rewrite <-(app_nil_r (part p)), <-(app_nil_r (part p')) in Heq.
  apply part_inj in Heq as [-> _]; [|done..]. split; [|done]. destruct c, c'; cbn in *. congruence.
Qed.

Lemma sealed_opens `{Ed25519Laws} hex_decode seed c p :
  (forall b, hex_decode (hex_string b) = Ok b) -> open hex_decode (seal seed c p) c = Ok tt.
Proof.
  intros Hx. unfold open, seal. cbn [peer_id sig e_payload]. rewrite Hx. cbn [map_err mbind result_bind].
  rewrite key_length, Nat.eqb_refl. cbn [guard_or mbind result_bind].
  by rewrite key_decodes, sign_slice, sign_verifies.
Qed.

(** ** A concrete organization *)

(** Documents without nested values, as JSON for the examples. *)
Definition to_flat (v : Value) : option (string + Z) :=
  match v with VString s => Some (inl s) | VNumber n => Some (inr n) | _ => None end.
Definition of_flat (x : string + Z) : Value := match x with inl s => VString s | inr n => VNumber n end.

Definition flat_to_vec (v : Value) : result string bytes :=
  match v with
  | VObject m => let flat := omap to_flat m in
      if bool_decide (dom flat = dom m) then codec_to_vec flat else Err "nested"
  | _ => Err "not an object"
  end.
Definition flat_from_slice (b : bytes) : result string Value :=
  flat ← codec_from_slice b; Ok (VObject (of_flat <$> (flat : gmap string (string + Z)))).

Lemma flat_roundtrip v b : flat_to_vec v = Ok b -> flat_from_slice b = Ok v.
Proof.
  unfold flat_to_vec, flat_from_slice. destruct v as [| | | | |m]; try done.
  destruct (bool_decide_reflect (dom (omap to_flat m) = dom m)) as [Hdom|]; [|done].
  intros Hb. rewrite (codec_roundtrip _ _ Hb). cbn. do 2 f_equal. apply map_eq. intros k.
  rewrite lookup_fmap, lookup_omap. destruct (m !! k) as [v|] eqn:Hk; [|done]. cbn.
  assert (Hin : k ∈ dom (omap to_flat m)) by (rewrite Hdom; by eapply elem_of_dom_2).
  apply elem_of_dom in Hin as [x Hx]. rewrite lookup_omap, Hk in Hx. cbn in Hx. rewrite Hx. cbn.
  destruct v; cbn in Hx; try done; by injection Hx as <-.
Qed.

#[export] Instance flat_json : RosterJson := {|
  rj_values := {| value_from_slice := flat_from_slice; value_to_vec := flat_to_vec |};
  members_from_value v := match v with
    | VString s => Ok [{| moss_peer_id := s; name := s; role := "admin" |}]
    | _ => Err "members" end;
|}.

Definition org_seed : bytes := [x07].
Definition org_key : string := hex_string (verifying_key org_seed).
Definition acme : gmap string Value :=
  {[ "org_pubkey" := VString org_key; "org_name" := VString "acme"; "version" := VNumber 3;
     "members" := VString "alice"; "successor" := VString "none" ]}.

Lemma signed_roster_verifies_witness :
  exists signed b, sign_roster (VObject acme) org_seed = Ok (signed, b) /\
    verify hex_bytes b org_key (Some 2)
    = Ok {| org_pubkey := org_key; org_name := "acme"; version := 3;
            members := [{| moss_peer_id := "alice"; name := "alice"; role := "admin" |}] |}.
Proof.
  destruct (sign_roster (VObject acme) org_seed) as [[signed b]|e] eqn:Hs; [|vm_compute in Hs; discriminate Hs].
  exists signed, b. split; [reflexivity|].
  refine (proj1 (signed_roster_verifies hex_bytes hex_bytes_string flat_roundtrip org_seed acme 3 "acme"
    (VString "alice") [{| moss_peer_id := "alice"; name := "alice"; role := "admin" |}] (Some 2) signed b
    Hs _ _ _ _ _ _ _)); try (vm_compute; reflexivity).
  apply NoDup_singleton.
Defined.

Lemma signing_input_injective_witness :
  let c := {| c_org := "aa11"; c_mesh := "org/acme-mesh"; c_kind := "org-control" |} in
  short c /\ signing_input c [x01] = signing_input c [x01] /\ (c = c /\ [x01] = [x01]).
Proof.
  cbn zeta. split; [vm_compute; repeat split; discriminate|]. split; [reflexivity|].
  apply signing_input_injective; try reflexivity; vm_compute; repeat split; discriminate.
Defined.

End OrgRoster.
