(* ===== verification/ReadMarks.v ===== *)
(** * ReadMarks: what the user has seen ([conversation/read_marks.rs],
      [persistence/read_marks.rs])

    A mark is a floor in time and a count: messages sent before the floor are
    history, of the others the first [seen] in send order are read.  Marks are
    kept in memory and in the row store, which may refuse a read or a write.
    The store is any [RowStore], the messages any [ConversationMessage]. *)
From S2P Require Import Prelude Store Messages Erasure Rows.

Module ReadMarks.
Import Store Messages Erasure.

#[local] Open Scope mosh_scope.
#[local] Set Default Proof Using "Type".

(** ** The marks *)

Definition READ_MARKS : string := "read_marks".
Definition read_mark_key (t : Rows.HistoryTables) (id : string) : string := Rows.label t +:+ ":" +:+ id.

Record ReadMark := { floor_ms : N; seen : N }.
#[export] Instance ReadMark_eq_dec : EqDecision ReadMark.
Proof. solve_decision. Defined.

Record UnreadState := { count : N; first_unread_message_id : option string }.

Section Marks.
Context {M : Type} {msg : ConversationMessage M} {deletable : DeletableMessage M}.

(** The latest time among the messages that carry one. *)
Definition newest (log : list M) : option N :=
  foldr (fun m best => match cm_sent_at_ms m, best with
                       | Some t, Some b => Some (N.max t b)
                       | Some t, None => Some t
                       | None, _ => best
                       end) None log.

(** [sent + 1] wraps around in a release build. *)
Definition starting_after (now : N) (log : list M) : ReadMark :=
  {| floor_ms := match newest log with Some sent => wrapping_add64 sent 1 | None => now end; seen := 0 |}.

Definition is_incoming (mark : ReadMark) (own_author : string) (m : M) : bool :=
  let own := bool_decide ((cm_metadata m ≫= is_own) = Some true) || String.eqb (cm_author m) own_author in
  negb own && negb (cm_is_service m) && bool_decide (cm_call_id m = None)
  && (floor_ms mark <=? default (floor_ms mark) (cm_sent_at_ms m))%N.

Definition send_order : option N * option string -> option N * option string -> Prop :=
  lex_le (option_le N.le) (option_le String.le).
Definition send_key (m : M) : option N * option string := (cm_sent_at_ms m, cm_message_id m).

#[local] Instance send_order_dec : RelDecision send_order := _.
#[local] Instance send_order_po : PartialOrder send_order := _.
#[local] Instance send_order_total : Total send_order := _.

Definition incoming (mark : ReadMark) (log : list M) (own_author : string) : list M :=
  sort_by_key send_order send_key (filter (fun m => is_incoming mark own_author m = true) log).

Definition mark_state (mark : ReadMark) (log : list M) (own_author : string) : UnreadState :=
  let incoming := incoming mark log own_author in
  let seen := N.min (seen mark) (N.of_nat (length incoming)) in
  {| count := as_u32 (N.of_nat (length incoming) - seen);
     first_unread_message_id := (incoming !! N.to_nat seen) ≫= cm_message_id |}.

(** ** The marks of one conversation kind *)

Record ReadMarks := { kind_tables : Rows.HistoryTables; marks : gmap string ReadMark }.
Definition new (tables : Rows.HistoryTables) : ReadMarks := {| kind_tables := tables; marks := ∅ |}.
Definition set_marks (marks : gmap string ReadMark) (r : ReadMarks) : ReadMarks :=
  {| kind_tables := kind_tables r; marks := marks |}.

Context {St : Type} {rows : RowStore St}.
(** [serde_json] of a mark. *)
Variable mark_to_vec : ReadMark -> result string bytes.
Variable mark_from_slice : bytes -> result string ReadMark.

Definition get_read_mark (tables : Rows.HistoryTables) (id : string) (s : St) : result PersistenceError (option bytes) :=
  rs_get s READ_MARKS (read_mark_key tables id).
Definition put_read_mark (tables : Rows.HistoryTables) (id : string) (mark : bytes) (s : St)
  : St * result PersistenceError unit :=
  rs_put s READ_MARKS (read_mark_key tables id) mark.

(** A failed read or decoding is one error, after it was logged. *)
Definition load (tables : Rows.HistoryTables) (store : St) (id : string) : result unit (option ReadMark) :=
  match get_read_mark tables id store with
  | Err _ => Err tt
  | Ok None => Ok None
  | Ok (Some bytes) => match mark_from_slice bytes with Ok mark => Ok (Some mark) | Err _ => Err tt end
  end.

(** What the methods change: the marks in memory and the store. *)
Definition World : Type := ReadMarks * option St.

Definition save (id : string) (mark : ReadMark) (w : World) : World :=
  let r := set_marks (<[ id := mark ]> (marks w.1)) w.1 in
  match w.2 with
  | None => (r, None)
  | Some store =>
      match mark_to_vec mark with
      | Ok bytes => (r, Some (put_read_mark (kind_tables r) id bytes store).1)
      | Err _ => (r, Some store)
      end
  end.

(** [ReadMarks::mark]: the mark to count with. *)
Definition mark_of (now : N) (id : string) (log : list M) (w : World) : World * ReadMark :=
  match marks w.1 !! id with
  | Some mark => (w, mark)
  | None =>
      match w.2 with
      | Some store =>
          match load (kind_tables w.1) store id with
          | Ok (Some mark) => ((set_marks (<[ id := mark ]> (marks w.1)) w.1, w.2), mark)
          | Ok None => let mark := starting_after now log in (save id mark w, mark)
          | Err _ => (w, starting_after now log)
          end
      | None => let mark := starting_after now log in (save id mark w, mark)
      end
  end.

Definition state (now : N) (id : string) (log : list M) (own_author : string) (w : World) : World * UnreadState :=
  let '(w', mark) := mark_of now id log w in (w', mark_state mark log own_author).
Definition prime (now : N) (id : string) (log : list M) (w : World) : World := (mark_of now id log w).1.

Definition mark_read (now : N) (id : string) (log : list M) (own_author : string) (w : World) : World :=
  let '(w', mark) := mark_of now id log w in
  let n := as_u32 (N.of_nat (length (incoming mark log own_author))) in
  if (n =? seen mark)%N then w' else save id {| floor_ms := floor_ms mark; seen := n |} w'.

Definition forget (id : string) (w : World) : World := (set_marks (delete id (marks w.1)) w.1, w.2).

(** ** Counting *)

Lemma incoming_perm mark log own : incoming mark log own ≡ₚ filter (fun m => is_incoming mark own m = true) log.
Proof. apply sort_by_key_perm. Qed.

Lemma incoming_length mark log own :
  length (incoming mark log own) = length (filter (fun m => is_incoming mark own m = true) log).
Proof. by rewrite incoming_perm. Qed.

Lemma incoming_app_length mark log more own : length (incoming mark (log ++ more) own)
  = length (incoming mark log own) + length (incoming mark more own).
Proof. by rewrite !incoming_length, filter_app, length_app. Qed.

(** Counting keeps the count right whatever order messages arrive in: two
    logs that hold the same messages have the same unread count and the same
    divider, under every mark. *)
Theorem unread_order_free mark log log' own : log ≡ₚ log' -> mark_state mark log own = mark_state mark log' own.
Proof.
  intros Hp. unfold mark_state.
  assert (Hk : map send_key (incoming mark log own) = map send_key (incoming mark log' own)).
  { apply sort_by_key_keys; [apply _..|]. by apply filter_Permutation. }
  assert (Hl : length (incoming mark log own) = length (incoming mark log' own)).
  { apply (f_equal length) in Hk. by rewrite !length_map in Hk. }
  rewrite Hl. f_equal. generalize (N.to_nat (N.min (seen mark) (N.of_nat (length (incoming mark log' own))))). intros i.
  apply (f_equal (fun l => l !! i)) in Hk. rewrite !list_lookup_fmap in Hk.
  destruct (incoming mark log own !! i), (incoming mark log' own !! i); try done. cbn in *. by injection Hk.
Qed.

Lemma mark_of_state now id log w w' mark : mark_of now id log w = (w', mark) ->
  w' = w /\ marks w.1 !! id = None /\ (exists store, w.2 = Some store /\ load (kind_tables w.1) store id = Err tt) /\
    mark = starting_after now log \/
  marks w'.1 !! id = Some mark.
Proof.
  unfold mark_of. destruct (marks w.1 !! id) as [m|] eqn:Hm; [intros [= <- <-]; by right|].
  assert (Hsave : marks (save id (starting_after now log) w).1 !! id = Some (starting_after now log)).
  { unfold save. destruct w.2; [destruct (mark_to_vec _)|]; apply lookup_insert_eq. }
  destruct w.2 as [store|] eqn:Hs; [|intros [= <- <-]; by right].
  destruct (load (kind_tables w.1) store id) as [[m|]|[]] eqn:Hl; intros [= <- <-].
  - right. apply lookup_insert_eq.
  - by right.
  - left. split; [done|]. split; [done|]. split; [|done]. by exists store.
Qed.

Lemma mark_of_again now id log w mark : marks w.1 !! id = Some mark -> mark_of now id log w = (w, mark).
Proof. unfold mark_of. by intros ->. Qed.

Lemma save_known id mark w : marks (save id mark w).1 !! id = Some mark.
Proof. unfold save. destruct w.2; [destruct (mark_to_vec _)|]; apply lookup_insert_eq. Qed.

(** The store can say what it holds for a conversation, or memory knows. *)
Definition known (id : string) (w : World) : Prop :=
  is_Some (marks w.1 !! id) \/ forall store, w.2 = Some store -> is_ok (load (kind_tables w.1) store id) = true.

Lemma as_u32_small n : (n < 4294967296)%N -> as_u32 n = n.
Proof. apply N.mod_small. Qed.

(** Reading a conversation settles it and only what comes later counts:
    after the user has it on screen nothing is unread, and whatever arrives
    afterwards, in whatever order it is filed among the rest, the count is the
    number of incoming messages among it, as long as the floor was reachable. *)
Theorem read_then_new now id log own w : known id w -> (N.of_nat (length log) < 4294967296)%N ->
  exists mark, marks (mark_read now id log own w).1 !! id = Some mark /\
  forall now' more log', log' ≡ₚ log ++ more -> (N.of_nat (length log') < 4294967296)%N ->
    let unread := (state now' id log' own (mark_read now id log own w)).2 in
    count unread = N.of_nat (length (filter (fun m => is_incoming mark own m = true) more)) /\
    (count unread = 0%N -> first_unread_message_id unread = None).
Proof.
  intros Hknown Hlen. unfold mark_read. destruct (mark_of now id log w) as [w' mark] eqn:Hm.
  assert (Hk : marks w'.1 !! id = Some mark).
  { apply mark_of_state in Hm as [(-> & Hno & (store & Hs & Hl) & _)|Hk]; [|done].
    destruct Hknown as [[? Hk]|Hk]; [by rewrite Hno in Hk|]. specialize (Hk _ Hs). by rewrite Hl in Hk. }
  clear Hm.
  assert (Hin : (N.of_nat (length (incoming mark log own)) < 4294967296)%N).
  { rewrite incoming_length. pose proof (length_filter (fun m => is_incoming mark own m = true) log). lia. }
  rewrite (as_u32_small _ Hin).
  set (mark' := {| floor_ms := floor_ms mark; seen := N.of_nat (length (incoming mark log own)) |}).
  assert (Hend : exists w'', (if (N.of_nat (length (incoming mark log own)) =? seen mark)%N then w'
                             else save id mark' w') = w'' /\ marks w''.1 !! id = Some mark').
  { destruct (N.eqb_spec (N.of_nat (length (incoming mark log own))) (seen mark)) as [He|Hne].
    - exists w'. split; [done|]. rewrite Hk. subst mark'. rewrite He. by destruct mark.
    - eexists. split; [done|]. apply save_known. }
  destruct Hend as (w'' & -> & Hk''). exists mark'. split; [exact Hk''|]. intros now' more log' Hp Hlen'. cbn zeta.
  unfold state. rewrite (mark_of_again _ _ _ _ _ Hk''). cbn [snd].
  rewrite (unread_order_free mark' log' (log ++ more) own Hp).
  unfold mark_state. rewrite incoming_app_length.
  change (incoming mark' log own) with (incoming mark log own). cbn [seen mark'].
  rewrite (incoming_length mark' more).
  assert (Hmore : (N.of_nat (length (filter (fun m => is_incoming mark' own m = true) more)) < 4294967296)%N).
  { pose proof (length_filter (fun m => is_incoming mark' own m = true) more).
    rewrite Hp, length_app in Hlen'. lia. }
  rewrite N.min_l by lia.
  replace (N.of_nat (length (incoming mark log own) + length (filter (fun m => is_incoming mark' own m = true) more))
           - N.of_nat (length (incoming mark log own)))%N
    with (N.of_nat (length (filter (fun m => is_incoming mark' own m = true) more))) by lia.
  cbn [count first_unread_message_id]. rewrite (as_u32_small _ Hmore). split; [done|]. intros H0.
  rewrite lookup_ge_None_2; [done|]. rewrite incoming_app_length, incoming_length with (log := more).
  change (incoming mark' log own) with (incoming mark log own). lia.
Qed.

(** Erasing a text keeps it countable: neither the count nor the divider moves
    when a message that is no service line loses its content. *)
Lemma hidden_still_counts mark l1 m m' l2 own :
  cm_sent_at_ms m' = cm_sent_at_ms m -> cm_message_id m' = cm_message_id m -> cm_author m' = cm_author m ->
  cm_metadata m' ≫= is_own = cm_metadata m ≫= is_own ->
  cm_is_service m' = cm_is_service m -> cm_call_id m' = cm_call_id m ->
  mark_state mark (l1 ++ m' :: l2) own = mark_state mark (l1 ++ m :: l2) own.
Proof.
  intros Hs Hi Ha Hmd Hsv Hc. rewrite <-!(unread_order_free mark (_ :: l1 ++ l2) (l1 ++ _ :: l2) own) by apply Permutation_middle.
  assert (Hin : is_incoming mark own m' = is_incoming mark own m) by (unfold is_incoming; by rewrite Hs, Ha, Hmd, Hsv, Hc).
  assert (Hk : map send_key (incoming mark (m' :: l1 ++ l2) own) = map send_key (incoming mark (m :: l1 ++ l2) own)).
  { unfold incoming. rewrite !filter_cons. rewrite Hin. destruct (decide _); [|done].
    apply (StronglySorted_unique send_order); [apply sort_by_key_sorted; apply _..|].
    rewrite !sort_by_key_perm. cbn [map]. unfold send_key at 1 3. by rewrite Hs, Hi. }
  assert (Hl : length (incoming mark (m' :: l1 ++ l2) own) = length (incoming mark (m :: l1 ++ l2) own)).
  { apply (f_equal length) in Hk. by rewrite !length_map in Hk. }
  unfold mark_state. rewrite Hl. f_equal.
  generalize (N.to_nat (N.min (seen mark) (N.of_nat (length (incoming mark (m :: l1 ++ l2) own))))). intros i.
  apply (f_equal (fun l => l !! i)) in Hk. rewrite !list_lookup_fmap in Hk.
  destruct (incoming mark (m' :: l1 ++ l2) own !! i), (incoming mark (m :: l1 ++ l2) own !! i); try done. cbn in *. by injection Hk.
Qed.

(** ** Floors *)

Lemma newest_bound log m t : m ∈ log -> cm_sent_at_ms m = Some t -> exists n, newest log = Some n /\ (t <= n)%N.
Proof.
  induction log as [|x log IH]; [by intros ?%elem_of_nil|]. intros [<-|Hin]%elem_of_cons Ht; cbn [newest foldr].
  - rewrite Ht. fold (newest log). destruct (newest log) as [b|]; eexists; (split; [done|lia]).
  - destruct (IH Hin Ht) as (n & Hn & Hle). fold (newest log). rewrite Hn.
    destruct (cm_sent_at_ms x); eexists; (split; [done|lia]).
Qed.

(** Timed messages below the largest time. *)
Definition timed (log : list M) : Prop := Forall (fun m => exists t, cm_sent_at_ms m = Some t /\ (t < u64_max)%N) log.

Lemma newest_timed log n : timed log -> newest log = Some n -> (n < u64_max)%N.
Proof.
  revert n. induction log as [|x log IH]; intros n; [done|]. intros [(t & Ht & Hlt) Hl]%Forall_cons. cbn [newest foldr].
  rewrite Ht. fold (newest log). destruct (newest log) as [b|]; [|by intros [= <-]].
  intros [= <-]. specialize (IH b Hl eq_refl). lia.
Qed.

Lemma backlog_empty now log own log' n : newest log = Some n -> (n < u64_max)%N ->
  Forall (fun m => exists t, cm_sent_at_ms m = Some t /\ (t <= n)%N) log' ->
  incoming (starting_after now log) log' own = [].
Proof.
  intros Hn Hlt Hl. apply nil_length_inv. rewrite incoming_length. unfold starting_after. rewrite Hn.
  rewrite wrapping_add64_small by (unfold u64_max in *; lia).
  induction Hl as [|m log' (t & Ht & Hle) _ IH]; [done|].
  rewrite filter_cons_False; [exact IH|]. unfold is_incoming. cbn [floor_ms]. rewrite Ht. cbn [from_option].
  unfold Datatypes.id. destruct (N.leb_spec (n + 1) t); [lia|]. by rewrite andb_false_r.
Qed.

Lemma own_backlog_empty now log own : timed log -> incoming (starting_after now log) log own = [].
Proof.
  intros Ht. destruct (newest log) as [n|] eqn:Hn.
  - apply (backlog_empty _ _ _ _ n Hn); [by eapply newest_timed|]. unfold timed in Ht. rewrite Forall_forall in *.
    intros m Hm. destruct (Ht m Hm) as (t & Hs & _). exists t. split; [done|].
    destruct (newest_bound log m t Hm Hs) as (n' & Hn' & Hle). rewrite Hn in Hn'. by injection Hn' as ->.
  - destruct log as [|m log]; [done|]. apply Forall_cons in Ht as [(t & Hs & _) _].
    destruct (newest_bound (m :: log) m t) as (? & Hn' & _); [by left|done|]. by rewrite Hn in Hn'.
Qed.

(** A store that cannot be read keeps its row: while a conversation's mark
    is unknown because the read or the decoding failed, asking for the unread
    state, priming and (as long as the messages carry times) marking the
    conversation read change neither the disk nor the memory, so the next good
    read finds the old mark. *)
Theorem fault_keeps_disk now id log own w store :
  w.2 = Some store -> marks w.1 !! id = None -> load (kind_tables w.1) store id = Err tt ->
  (state now id log own w).1 = w /\ prime now id log w = w /\ (timed log -> mark_read now id log own w = w).
Proof.
  intros Hs Hm Hl. unfold state, prime, mark_read, mark_of. rewrite Hm, Hs, Hl. split; [done|]. split; [done|].
  intros Ht. by rewrite own_backlog_empty.
Qed.

(** A conversation is taken in as read: when there is no mark yet, the one
    that priming creates counts nothing of what the conversation holds, nor
    anything recovered later that was sent before its newest message. *)
Theorem backlog_is_read now id log own w n log' now' :
  marks w.1 !! id = None -> (forall store, w.2 = Some store -> load (kind_tables w.1) store id = Ok None) ->
  newest log = Some n -> (n < u64_max)%N ->
  Forall (fun m => exists t, cm_sent_at_ms m = Some t /\ (t <= n)%N) log' ->
  (state now' id log' own (prime now id log w)).2 = {| count := 0; first_unread_message_id := None |}.
Proof.
  intros Hm Hl Hn Hlt Hlog. unfold prime, state.
  assert (Hp : mark_of now id log w = (save id (starting_after now log) w, starting_after now log)).
  { unfold mark_of. rewrite Hm. destruct w.2 as [store|]; [|done]. by rewrite (Hl store eq_refl). }
  rewrite Hp. cbn [fst]. rewrite (mark_of_again _ _ _ _ _ (save_known _ _ _)). cbn [snd].
  unfold mark_state. rewrite (backlog_empty _ _ _ _ _ Hn Hlt Hlog). reflexivity.
Qed.

(** ** A restart *)

Inductive action :=
| Unread (now : N) (id : string) (log : list M) (own : string)
| Viewed (now : N) (id : string) (log : list M) (own : string)
| Left (id : string).
Definition act (a : action) (w : World) : World :=
  match a with
  | Unread now id log own => (state now id log own w).1
  | Viewed now id log own => mark_read now id log own w
  | Left id => forget id w
  end.
Definition run (l : list action) (w : World) : World := foldl (fun w a => act a w) w l.

Context {row_laws : RowStoreLaws St}.
Hypothesis mark_roundtrip : forall m b, mark_to_vec m = Ok b -> mark_from_slice b = Ok m.
(** A store that refuses nothing. *)
Variable healthy : St -> Prop.
Hypothesis healthy_put : forall s t k b, healthy s -> exists s', rs_put s t k b = (s', Ok tt) /\ healthy s'.
Hypothesis healthy_get : forall s t k, healthy s -> is_ok (rs_get s t k) = true.
Hypothesis mark_to_vec_total : forall m, is_ok (mark_to_vec m) = true.

(** What memory knows is what the disk says. *)
Definition in_sync (w : World) : Prop :=
  exists store, w.2 = Some store /\ healthy store /\
  forall id m, marks w.1 !! id = Some m -> load (kind_tables w.1) store id = Ok (Some m).

Lemma read_mark_key_inj t i j : read_mark_key t i = read_mark_key t j -> i = j.
Proof. unfold read_mark_key. intros H. by apply (inj (String.append _)), (inj (String.append _)) in H. Qed.

Lemma save_sync id m w : in_sync w -> in_sync (save id m w).
Proof using row_laws mark_roundtrip healthy_put healthy_get mark_to_vec_total.
  intros (store & Hs & Hh & Hm). unfold save. rewrite Hs.
  destruct (mark_to_vec m) as [b|e] eqn:Hb; [|by specialize (mark_to_vec_total m); rewrite Hb in mark_to_vec_total].
  unfold put_read_mark. destruct (healthy_put store READ_MARKS (read_mark_key (kind_tables w.1) id) b Hh) as (s' & Hp & Hh').
  cbn [set_marks kind_tables]. rewrite Hp. exists s'. split; [done|]. split; [done|]. cbn [fst marks set_marks kind_tables].
  intros id' m' Hid. unfold load, get_read_mark.
  destruct (decide (id' = id)) as [->|Hne].
  - rewrite lookup_insert_eq in Hid. injection Hid as <-.
    pose proof (healthy_get s' READ_MARKS (read_mark_key (kind_tables w.1) id) Hh') as Hg.
    destruct (rs_get s' _ _) as [o|] eqn:Ho; [|done]. rewrite (rs_put_get _ _ _ _ _ _ Hp Ho).
    by rewrite (mark_roundtrip _ _ Hb).
  - rewrite lookup_insert_ne in Hid by done. apply Hm in Hid. unfold load, get_read_mark in Hid.
    rewrite (rs_put_get_ne _ _ _ _ _ _ _ _ Hp); [exact Hid|]. intros [= He%read_mark_key_inj]. done.
Qed.

Lemma mark_of_sync now id log w : in_sync w -> in_sync (mark_of now id log w).1.
Proof using row_laws mark_roundtrip healthy_put healthy_get mark_to_vec_total.
  intros Hw. unfold mark_of. destruct (marks w.1 !! id) as [m|] eqn:Hm; [done|].
  pose proof Hw as (store & Hs & Hh & Hall). rewrite Hs.
  destruct (load (kind_tables w.1) store id) as [[m|]|] eqn:Hl; [|by apply save_sync|done].
  exists store. split; [done|]. split; [done|]. cbn [fst marks set_marks kind_tables]. intros id' m'.
  destruct (decide (id' = id)) as [->|Hne]; [rewrite lookup_insert_eq; by intros [= <-]|].
  rewrite lookup_insert_ne by done. apply Hall.
Qed.

Lemma act_sync a w : in_sync w -> in_sync (act a w).
Proof using row_laws mark_roundtrip healthy_put healthy_get mark_to_vec_total.
  intros Hw. destruct a as [now id log own|now id log own|id]; cbn [act].
  - unfold state. pose proof (mark_of_sync now id log w Hw). by destruct (mark_of now id log w).
  - unfold mark_read. pose proof (mark_of_sync now id log w Hw). destruct (mark_of now id log w) as [w' m].
    case_match; [done|]. by apply save_sync.
  - destruct Hw as (store & Hs & Hh & Hm). exists store. split; [done|]. split; [done|]. cbn. intros id' m.
    rewrite lookup_delete_Some. intros [_ Hid]. by apply Hm.
Qed.

Lemma act_tables a w : kind_tables (act a w).1 = kind_tables w.1.
Proof.
  assert (Hsave : forall id m w, kind_tables (save id m w).1 = kind_tables w.1)
    by (intros id m w0; unfold save; destruct w0.2; [destruct (mark_to_vec _)|]; done).
  assert (Hmark : forall now id log, kind_tables (mark_of now id log w).1.1 = kind_tables w.1).
  { intros now id log. unfold mark_of. repeat case_match; try done; apply Hsave. }
  destruct a as [now id log own|now id log own|id]; cbn [act]; [| |done].
  - unfold state. specialize (Hmark now id log). by destruct (mark_of now id log w).
  - unfold mark_read. specialize (Hmark now id log). destruct (mark_of now id log w) as [w' m]. cbn in Hmark.
    case_match; [done|]. by rewrite Hsave.
Qed.

(** Unread counts survive a restart: after any sequence of views, queries
    and departures over a store that refuses nothing, a process that starts
    with empty memory on the same store answers every unread question about a
    conversation it had a mark for as the old process would have. *)
Theorem unread_survives_restart t s l id now now' log own : healthy s ->
  let w := run l (new t, Some s) in
  is_Some (marks w.1 !! id) ->
  (state now id log own (new t, w.2)).2 = (state now' id log own w).2.
Proof using row_laws mark_roundtrip healthy_put healthy_get mark_to_vec_total.
  intros Hs. cbn zeta.
  assert (Hrun : in_sync (run l (new t, Some s)) /\ kind_tables (run l (new t, Some s)).1 = t).
  { unfold run. assert (H0 : in_sync (new t, Some s) /\ kind_tables (new t, Some s).1 = t)
      by (split; [exists s; split; [done|split; [done|]]|]; done).
    revert H0. generalize (new t, Some s). induction l as [|a l IH]; intros w [Hw Ht]; [done|].
    cbn [foldl]. apply IH. split; [by apply act_sync|by rewrite act_tables]. }
  destruct Hrun as [(store & Hst & _ & Hm) Ht]. revert Hst Hm Ht. generalize (run l (new t, Some s)). intros w Hst Hm Ht [m Hid].
  unfold state. rewrite (mark_of_again _ _ _ _ _ Hid). unfold mark_of. cbn [fst snd new marks kind_tables].
  rewrite lookup_empty, Hst, <-Ht, (Hm _ _ Hid). done.
Qed.

End Marks.

(** ** Witnesses *)

#[export] Instance memory_rows : RowStore (gmap (string * string) bytes) := {|
  rs_get s t k := Ok (s !! (t, k)); rs_put s t k b := (<[ (t, k) := b ]> s, Ok tt);
|}.
#[export] Instance memory_rows_laws : RowStoreLaws (gmap (string * string) bytes).
Proof.
  split; cbn.
  - intros s s' t k b o [= <-] [= <-]. by rewrite lookup_insert_eq.
  - intros s s' t k t' k' b r [= <- _] Hne. by rewrite lookup_insert_ne by congruence.
Qed.

Definition toy_mark_to_vec (m : ReadMark) : result string bytes := codec_to_vec (floor_ms m, seen m).
Definition toy_mark_from_slice (b : bytes) : result string ReadMark :=
  p ← codec_from_slice b; Ok {| floor_ms := p.1; seen := p.2 |}.
Lemma toy_mark_roundtrip m b : toy_mark_to_vec m = Ok b -> toy_mark_from_slice b = Ok m.
Proof. unfold toy_mark_from_slice. intros ->%codec_roundtrip. by destruct m. Qed.

#[local] Existing Instances group_message group_deletable.
Definition at_time (t : N) (m : GroupMessage) : GroupMessage := cm_set_sent_at_ms t m.
Definition two_texts : list GroupMessage := [at_time 7 (Messages.text "b" "ho"); at_time 5 (Messages.text "a" "hi")].
Definition late_texts : list GroupMessage := [at_time 9 (Messages.text "d" "!"); at_time 8 (Messages.text "c" "?")].

Lemma unread_order_free_witness :
  two_texts ≡ₚ rev two_texts /\
  mark_state {| floor_ms := 0; seen := 1 |} two_texts "me" = mark_state {| floor_ms := 0; seen := 1 |} (rev two_texts) "me".
Proof.
  assert (H : two_texts ≡ₚ rev two_texts) by apply Permutation_swap.
  split; [exact H|]. apply (unread_order_free _ _ _ _ H).
Defined.

Definition empty_marks : @World (gmap (string * string) bytes) := (new Rows.GROUP_HISTORY, None).
Definition viewed : @World (gmap (string * string) bytes) :=
  mark_read toy_mark_to_vec toy_mark_from_slice 1 "g" two_texts "me" empty_marks.

Lemma read_then_new_witness :
  count (state toy_mark_to_vec toy_mark_from_slice 1 "g" (two_texts ++ late_texts) "me" viewed).2 = 2%N.
Proof.
  destruct (read_then_new toy_mark_to_vec toy_mark_from_slice 1 "g" two_texts "me" empty_marks
    (or_intror (fun store (H : None = Some store) => match H with end)) ltac:(reflexivity)) as (mark & Hm & Hall).
  destruct (Hall 1%N late_texts (two_texts ++ late_texts) (Permutation_refl _) ltac:(reflexivity)) as [Hc _].
  unfold viewed. rewrite Hc. vm_compute in Hm. injection Hm as <-. reflexivity.
Defined.

(** A mark whose row no longer decodes. *)
Definition torn_store : gmap (string * string) bytes := {[ (READ_MARKS, "group:g") := [] ]}.
Lemma fault_keeps_disk_witness :
  timed two_texts /\
  mark_read toy_mark_to_vec (fun _ => Err "torn") 1 "g" two_texts "me" (new Rows.GROUP_HISTORY, Some torn_store)
    = (new Rows.GROUP_HISTORY, Some torn_store).
Proof.
  assert (Ht : timed two_texts) by (repeat constructor; eexists; (split; [reflexivity|reflexivity])).
  split; [exact Ht|].
  refine (proj2 (proj2 (fault_keeps_disk toy_mark_to_vec (fun _ => Err "torn") 1 "g" two_texts "me"
    (new Rows.GROUP_HISTORY, Some torn_store) torn_store eq_refl eq_refl _)) Ht).
  vm_compute. reflexivity.
Defined.

Lemma backlog_is_read_witness :
  (state toy_mark_to_vec toy_mark_from_slice 1 "g" two_texts "me"
     (prime toy_mark_to_vec toy_mark_from_slice 1 "g" two_texts empty_marks)).2
  = {| count := 0; first_unread_message_id := None |}.
Proof.
  apply (backlog_is_read toy_mark_to_vec toy_mark_from_slice 1 "g" two_texts "me" empty_marks 7); [done|done|done|done|].
  repeat constructor; eexists; (split; [reflexivity|done]).
Defined.

Lemma unread_survives_restart_witness :
  let w := run toy_mark_to_vec toy_mark_from_slice [Viewed 1 "g" two_texts "me"]
             (new Rows.GROUP_HISTORY, Some (∅ : gmap (string * string) bytes)) in
  (state toy_mark_to_vec toy_mark_from_slice 1 "g" late_texts "me" (new Rows.GROUP_HISTORY, w.2)).2
  = (state toy_mark_to_vec toy_mark_from_slice 2 "g" late_texts "me" w).2.
Proof.
  apply (unread_survives_restart toy_mark_to_vec toy_mark_from_slice toy_mark_roundtrip (fun _ => True)); try done.
  intros s t k b _. by eexists.
Defined.

(** A service line of someone else is never unread, but once the user hides it
    it is no service line any more and counts. *)
Definition renamed : GroupMessage :=
  {| metadata := None; from_device := "d"; from_fingerprint := "fp"; body := ""; message_id := Some "n";
     sent_at_ms := Some 9%N; attachment := None; g_delivery := no_delivery; name_change := Some "club" |}.
Example hidden_line_counts :
  count (mark_state {| floor_ms := 8; seen := 0 |} [renamed] "me") = 0%N /\
  count (mark_state {| floor_ms := 8; seen := 0 |}
           [cm_erase_content (cm_set_metadata (cm_metadata (Messages.tombstone "n")) renamed)] "me") = 1%N.
Proof. split; vm_compute; reflexivity. Qed.

End ReadMarks.
