(* ===== verification/Ledger.v ===== *)
(** * Ledger: typed rows of the background table
      ([persistence/background_delivery.rs])

    Notifications, call buttons and user transfers share one table of encrypted
    JSON rows, told apart by the prefix of the key.  What a range of keys
    decodes to is a finite map ([typed]); the lemmas say what reading and
    writing do to it. *)
From S2P Require Import Prelude Store Rows.

Module Ledger.
Import Store Rows.

#[local] Open Scope mosh_scope.
#[local] Set Default Proof Using "Type".

Definition BACKGROUND_DELIVERY : string := "background_delivery".

(** [serde_json] for one type of row. *)
Class RowCodec (T : Type) := {
  row_to_vec : T -> result string bytes;
  row_from_slice : bytes -> result string T;
}.
Class RowCodecLaws (T : Type) `{RowCodec T} : Prop := {
  row_roundtrip v b : row_to_vec v = Ok b -> row_from_slice b = Ok v;
}.

Lemma res_ok_Some {E A} (r : result E A) a : res_ok r = Some a -> r = Ok a.
Proof. by destruct r; intros [= <-]. Qed.

Section Ledger.
Context {aes : Aes} {T : Type} {codec : RowCodec T}.

Definition encode (v : T) : result PersistenceError bytes := map_err Json (row_to_vec v).
Definition decode (b : bytes) : result PersistenceError T := map_err Json (row_from_slice b).
Definition decoded (K row : bytes) : result PersistenceError T := p ← decrypt K row; decode p.

Definition background_tx_row (k : string) : tx (option T) := fun d =>
  (d, match table_of (tables d) BACKGROUND_DELIVERY !! k with
      | Some row => v ← decoded (key d) row; Ok (Some v)
      | None => Ok None
      end).

(** [rows.range(start..stop)], each row decoded. *)
Definition decode_all (K : bytes) (l : list (string * bytes)) : result PersistenceError (list (string * T)) :=
  try_fold (fun acc kv => v ← decoded K kv.2; Ok (acc ++ [(kv.1, v)])) [] l.
Definition rows_in (start stop : string) (t : gmap string (gmap string bytes)) : list (string * bytes) :=
  rows_between start stop (table_of t BACKGROUND_DELIVERY).
Definition t_range (start stop : string) : tx (list (string * T)) := fun d =>
  (d, decode_all (key d) (rows_in start stop (tables d))).

Definition t_store (k : string) (v : T) : tx unit := p <~ m_lift (encode v);; t_put BACKGROUND_DELIVERY k p.
Definition t_drop (k : string) : tx unit := t_update BACKGROUND_DELIVERY k None.

(** What the rows between two keys say. *)
Definition typed (start stop : string) (K : bytes) (t : gmap string (gmap string bytes)) : gmap string T :=
  omap (fun row => res_ok (decoded K row))
    (filter (fun kv => in_range start stop kv.1 = true) (table_of t BACKGROUND_DELIVERY)).
Definition typed_in (start stop : string) (d : Draft) : gmap string T := typed start stop (key d) (tables d).

Lemma typed_lookup start stop K t k v : typed start stop K t !! k = Some v <->
  in_range start stop k = true /\ exists row, table_of t BACKGROUND_DELIVERY !! k = Some row /\ decoded K row = Ok v.
Proof.
  unfold typed. rewrite lookup_omap, bind_Some. setoid_rewrite map_lookup_filter_Some. split.
  - intros (row & [Hr Hk] & Hd%res_ok_Some). by eauto.
  - intros (Hk & row & Hr & Hd). exists row. split; [done|]. by rewrite Hd.
Qed.

Lemma typed_update start stop K t k b k' v : typed start stop K (update_row t BACKGROUND_DELIVERY k b) !! k' = Some v <->
  in_range start stop k' = true /\
  if decide (k' = k) then exists row, b = Some row /\ decoded K row = Ok v else typed start stop K t !! k' = Some v.
Proof.
  assert (Ht : table_of (update_row t BACKGROUND_DELIVERY k b) BACKGROUND_DELIVERY
               = partial_alter (fun _ => b) k (table_of t BACKGROUND_DELIVERY)) by by rewrite table_of_update, decide_True.
  rewrite !typed_lookup, Ht. destruct (decide (k' = k)) as [->|Hne].
  - by rewrite lookup_partial_alter_eq.
  - rewrite lookup_partial_alter_ne, typed_lookup by done. split; [intros [H1 H2]; by repeat split|by intros (_ & H1 & H2)].
Qed.

Lemma decode_all_Ok K l out : decode_all K l = Ok out ->
  out.*1 = l.*1 /\ forall k v, (k, v) ∈ out <-> exists row, (k, row) ∈ l /\ decoded K row = Ok v.
Proof.
  unfold decode_all. assert (Hgen : forall acc, try_fold (fun acc kv => v ← decoded K kv.2; Ok (acc ++ [(kv.1, v)])) acc l = Ok out ->
    exists more, out = acc ++ more /\ more.*1 = l.*1 /\
    forall k v, (k, v) ∈ more <-> exists row, (k, row) ∈ l /\ decoded K row = Ok v).
  { induction l as [|[k0 row0] l IH]; intros acc; cbn.
    - intros [= <-]. exists []. rewrite app_nil_r. split; [done|]. split; [done|]. intros k v.
      split; [by intros ?%elem_of_nil|by intros (? & ?%elem_of_nil & _)].
    - destruct (decoded K row0) as [v0|] eqn:Hd; cbn; [|done]. intros (more & -> & Hf & Hm)%IH.
      exists ((k0, v0) :: more). rewrite <-app_assoc. split; [done|]. split; [cbn; by rewrite Hf|]. intros k v.
      rewrite elem_of_cons, Hm. setoid_rewrite elem_of_cons. split.
      + intros [[= -> ->]|(row & Hr & Hv)]; [by eauto|by eauto].
      + intros (row & [[= -> ->]|Hr] & Hv); [left; congruence|right; by eauto]. }
  intros (more & -> & Hm)%Hgen. done.
Qed.

Lemma rows_in_lookup start stop t k row : (k, row) ∈ rows_in start stop t <->
  in_range start stop k = true /\ table_of t BACKGROUND_DELIVERY !! k = Some row.
Proof. unfold rows_in, rows_between. by rewrite list_elem_of_filter, elem_of_btree_entries. Qed.

Lemma rows_in_NoDup start stop t : NoDup (rows_in start stop t).*1.
Proof.
  apply NoDup_fmap_fst.
  - intros k r1 r2 [_ H1]%rows_in_lookup [_ H2]%rows_in_lookup. congruence.
  - apply NoDup_filter, btree_entries_NoDup; apply _.
Qed.

Lemma decode_all_typed start stop K t l : decode_all K (rows_in start stop t) = Ok l ->
  NoDup l.*1 /\ forall k v, (k, v) ∈ l <-> typed start stop K t !! k = Some v.
Proof.
  intros (Hf & Hl)%decode_all_Ok. split; [rewrite Hf; apply rows_in_NoDup|]. intros k v. rewrite Hl, typed_lookup.
  setoid_rewrite rows_in_lookup. naive_solver.
Qed.

Lemma decode_all_map start stop K t l : decode_all K (rows_in start stop t) = Ok l ->
  list_to_map l = typed start stop K t.
Proof.
  intros [Hnd Hl]%decode_all_typed. apply map_eq. intros k. apply option_eq. intros v.
  by rewrite <-elem_of_list_to_map, Hl.
Qed.

Lemma background_tx_row_Ok k d d' o : background_tx_row k d = (d', Ok o) -> d' = d /\
  match o with
  | Some v => exists row, table_of (tables d) BACKGROUND_DELIVERY !! k = Some row /\ decoded (key d) row = Ok v
  | None => table_of (tables d) BACKGROUND_DELIVERY !! k = None
  end.
Proof.
  intros [= <- Ho]. split; [done|]. destruct (_ !! k) as [row|] eqn:Hr; [|by injection Ho as <-].
  apply bind_Ok in Ho as (v & Hv & [= <-]). by eauto.
Qed.

Context {aes_laws : AesLaws} {codec_laws : RowCodecLaws T}.

Lemma t_store_Ok k v d d' : t_store k v d = (d', Ok tt) ->
  key d' = key d /\ exists row, decoded (key d) row = Ok v /\ tables d' = update_row (tables d) BACKGROUND_DELIVERY k (Some row).
Proof using aes_laws codec_laws.
  unfold t_store. intros (d1 & p & [= <- Hp%map_err_Ok] & (Hk & row & Hd & Ht)%t_put_Ok)%m_bind_Ok.
  split; [done|]. exists row. split; [|done]. unfold decoded. rewrite Hd. cbn. unfold decode.
  by rewrite (row_roundtrip _ _ Hp).
Qed.

Lemma typed_store start stop k v d d' : t_store k v d = (d', Ok tt) ->
  key d' = key d /\
  typed_in start stop d' = (if in_range start stop k then <[ k := v ]> (typed_in start stop d) else typed_in start stop d).
Proof using aes_laws codec_laws.
  intros (Hk & row & Hd & Ht)%t_store_Ok. split; [done|]. unfold typed_in. rewrite Hk, Ht.
  apply map_eq. intros k'. apply option_eq. intros v'. rewrite typed_update.
  destruct (decide (k' = k)) as [->|Hne].
  - destruct (in_range start stop k) eqn:Hr.
    + rewrite lookup_insert_eq. split; [intros (_ & ? & [= <-] & ?); congruence|intros [= <-]; by eauto].
    + split; [by intros [? _]|]. intros [Hv _]%typed_lookup. by rewrite Hr in Hv.
  - assert (He : (if in_range start stop k then <[ k := v ]> (typed start stop (key d) (tables d))
                  else typed start stop (key d) (tables d)) !! k' = typed start stop (key d) (tables d) !! k')
      by (destruct (in_range start stop k); [by rewrite lookup_insert_ne|done]).
    rewrite He. split; [by intros [_ ?]|]. intros Hv. split; [by apply typed_lookup in Hv as [? _]|done].
Qed.

Lemma typed_drop start stop k d d' r : t_drop k d = (d', r) ->
  key d' = key d /\ r = Ok tt /\ typed_in start stop d' = delete k (typed_in start stop d).
Proof.
  intros [= <- <-]. split; [done|]. split; [done|]. unfold typed_in. cbn [key tables]. apply map_eq. intros k'.
  apply option_eq. intros v'. change (<[BACKGROUND_DELIVERY:=delete k _]> (tables d)) with (update_row (tables d) BACKGROUND_DELIVERY k None).
  rewrite typed_update. destruct (decide (k' = k)) as [->|Hne].
  - rewrite lookup_delete_eq. split; [by intros (_ & ? & [=] & _)|done].
  - rewrite lookup_delete_ne by done. split; [by intros [_ ?]|]. intros Hv. split; [by apply typed_lookup in Hv as [? _]|done].
Qed.

(** A step that leaves the range alone leaves its rows alone. *)
Lemma typed_frame {A} S (op : tx A) start stop d d' r : frame S op ->
  (forall k, in_range start stop k = true -> ~ S BACKGROUND_DELIVERY k) -> op d = (d', r) ->
  typed_in start stop d' = typed_in start stop d.
Proof.
  intros Hf HS [Hk Ht]%Hf. unfold typed_in. apply map_eq. intros k. apply option_eq. intros v.
  rewrite !typed_lookup, Hk. split; intros (Hr & row & Hrow & Hd); (split; [done|]); exists row; split; try done.
  - by rewrite <-Ht by by apply HS.
  - by rewrite Ht by by apply HS.
Qed.

End Ledger.

(** Randomness is drawn inside a transaction and is not given back. *)
Definition t_random (random : nat -> nat -> bytes) (n : nat) : tx bytes := fun d =>
  ({| key := key d; tables := tables d; draws := S (draws d) |}, Ok (random n (draws d))).

Section Frames.
Context {aes : Aes} {T : Type} {codec : RowCodec T}.
Lemma frame_random S random n : frame S (t_random random n).
Proof. by intros d d' r [= <- _]. Qed.
Lemma frame_tx_row S k : frame S (background_tx_row (T := T) k).
Proof. by intros d d' r [= <- _]. Qed.
Lemma frame_store (S : string -> string -> Prop) k (v : T) : S BACKGROUND_DELIVERY k -> frame S (t_store k v).
Proof. intros HS. apply frame_bind; [apply frame_lift|]. intros p. by apply frame_put. Qed.
End Frames.
#[export] Hint Resolve frame_random frame_tx_row frame_store : frame.

(** Draws only go up. *)
Definition rising {A} (op : tx A) : Prop := forall d d' r, op d = (d', r) -> draws d <= draws d' /\ key d' = key d.

Create HintDb rising.
Section Draws.
Context {aes : Aes} {T : Type} {codec : RowCodec T}.
Lemma rising_ret {A} (a : A) : rising (m_ret a).
Proof. by intros d d' r [= <- _]. Qed.
Lemma rising_lift {A} (r : result PersistenceError A) : rising (m_lift r).
Proof. by intros d d' r' [= <- _]. Qed.
Lemma rising_bind {A B} (op : tx A) (f : A -> tx B) : rising op -> (forall a, rising (f a)) -> rising (m_bind op f).
Proof.
  intros Hop Hf d d' r. unfold m_bind. destruct (op d) as [d1 [a|e]] eqn:Ho.
  - intros Hr. apply Hop in Ho as [Ho Hk]. apply Hf in Hr as [Hr Hk']. split; [lia|congruence].
  - intros [= <- _]. by eapply Hop.
Qed.
Lemma rising_random random n : rising (t_random random n).
Proof. intros d d' r [= <- _]. cbn. split; [lia|done]. Qed.
Lemma rising_update t k b : rising (t_update t k b).
Proof. intros d d' r [= <- _]. done. Qed.
Lemma rising_prefix t p : rising (t_delete_prefix t p).
Proof. intros d d' r [= <- _]. done. Qed.
Lemma rising_put t k p : rising (t_put t k p).
Proof.
  apply rising_bind; [|intros; apply rising_update]. intros d d' r [= <- _]. cbn. split; [lia|done].
Qed.
Lemma rising_range (start stop : string) : rising (t_range (T := T) start stop).
Proof. by intros d d' r [= <- _]. Qed.
Lemma rising_row k : rising (background_tx_row (T := T) k).
Proof. by intros d d' r [= <- _]. Qed.
Lemma rising_each {A} (f : A -> tx unit) l : (forall x, rising (f x)) -> rising (each f l).
Proof. intros Hf. induction l; [apply rising_ret|]. by apply rising_bind. Qed.
Lemma rising_store k (v : T) : rising (t_store k v).
Proof. apply rising_bind; [apply rising_lift|]. intros p. apply rising_put. Qed.
Lemma rising_drop k : rising (t_drop k).
Proof. apply rising_update. Qed.
End Draws.
#[export] Hint Resolve rising_ret rising_lift rising_bind rising_random rising_update rising_prefix rising_put rising_range
  rising_row rising_each rising_store rising_drop : rising.
Ltac rises := intros; repeat match goal with
  | |- rising (match ?x with _ => _ end) => destruct x
  | |- rising (if ?x then _ else _) => destruct x
  | |- rising (m_bind _ _) => apply rising_bind; [|intros]
  end; eauto with rising.

(** A transaction leaves the rows as they were, or as its operation made them. *)
Lemma transact_split {A} (op : tx A) s s' r : rising op -> transact op s = (s', r) ->
  dek s' = dek s /\ rng s <= rng s' /\
  ((db s' = db s /\ is_ok r = false) \/
   exists d v, op {| key := dek s; tables := db s; draws := rng s |} = (d, Ok v) /\ key d = dek s /\
     db s' = tables d /\ rng s' = draws d /\ (r = Ok v \/ is_ok r = false)).
Proof.
  intros Hrise. unfold transact. destruct (op _) as [d ro] eqn:Ho. pose proof (Hrise _ _ _ Ho) as [Hd Hk].
  cbn [draws key] in Hd, Hk. unfold write. cbn [db dek rng outcomes read_fault].
  destruct ro as [v|e]; cbn [mbind result_bind].
  - destruct (head (outcomes s)) as [[]|]; intros [= <- <-]; cbn [db dek rng]; (split; [done|]); (split; [done|]).
    1, 3, 4: right; exists d, v; split; [done|]; split; [done|]; split; [done|]; split; [done|]; auto.
    left. done.
  - intros [= <- <-]. cbn [db dek rng]. split; [done|]. split; [done|]. by left.
Qed.

(** Dropping rows, and writing rows of another range. *)
Section Elsewhere.
Context {aes : Aes} {T : Type} {codec : RowCodec T}.

Lemma each_fmap {A B} (f : B -> tx unit) (g : A -> B) l : each f (g <$> l) = each (fun x => f (g x)) l.
Proof. induction l as [|x l IH]; [done|]. cbn [fmap list_fmap each]. by rewrite IH. Qed.

Lemma drops_Ok ks d d' r : each t_drop ks d = (d', r) ->
  r = Ok tt /\ key d' = key d /\ draws d' = draws d /\
  forall start stop k, typed_in (T := T) start stop d' !! k = if decide (k ∈ ks) then None else typed_in start stop d !! k.
Proof.
  revert d. induction ks as [|k0 ks IH]; intros d.
  { intros [= <- <-]. split; [done|]. split; [done|]. split; [done|]. intros. rewrite decide_False; [done|apply not_elem_of_nil]. }
  cbn [each]. unfold m_bind. destruct (t_drop k0 d) as [d1 r1] eqn:Hd.
  assert (draws d1 = draws d) as Hdr by by injection Hd as <- _.
  assert (key d1 = key d /\ r1 = Ok tt) as [Hk1 ->] by by injection Hd as <- <-.
  intros (-> & Hk & Hn & Ht)%IH. split; [done|]. split; [congruence|]. split; [congruence|]. intros start stop k. rewrite Ht.
  destruct (typed_drop start stop k0 d d1 _ Hd) as (_ & _ & ->).
  destruct (decide (k ∈ ks)) as [Hin|Hin]; [by rewrite decide_True by by right|].
  destruct (decide (k = k0)) as [->|Hne]; [rewrite lookup_delete_eq, decide_True by left; done|].
  rewrite lookup_delete_ne, decide_False; [done| |done]. by intros [?|?]%elem_of_cons.
Qed.

(** A row of another range. *)
Lemma drop_elsewhere start stop k d d' r : in_range start stop k = false -> t_drop k d = (d', r) ->
  typed_in (T := T) start stop d' = typed_in start stop d.
Proof.
  intros Hk. apply (typed_frame (fun t k' => k' = k)); [by apply frame_update|]. intros k' Hk' ->. by rewrite Hk in Hk'.
Qed.
Lemma store_elsewhere {T'} {codec' : RowCodec T'} start stop k (v : T') d d' r : in_range start stop k = false ->
  t_store k v d = (d', r) -> typed_in (T := T) start stop d' = typed_in start stop d.
Proof.
  intros Hk. apply (typed_frame (fun t k' => k' = k)); [by apply frame_store|]. intros k' Hk' ->. by rewrite Hk in Hk'.
Qed.
(** Another table. *)
Lemma table_elsewhere {A} tb (op : tx A) start stop d d' r : frame (in_table tb) op -> tb <> BACKGROUND_DELIVERY ->
  op d = (d', r) -> typed_in (T := T) start stop d' = typed_in start stop d.
Proof. intros Hf Hne. apply (typed_frame (in_table tb)); [done|]. intros k _ Hk. by apply Hne. Qed.
End Elsewhere.

(** A prefix that ends in a slash, and the end of its range. *)
Lemma slash_in_range p s : in_range (p +:+ "/") (p +:+ "0") (p +:+ "/" +:+ s) = true.
Proof.
  unfold in_range. rewrite !leb_app. change ("/" +:+ s) with (String slash s).
  assert (H1 : String.leb "/" (String slash s) = true) by (rewrite leb_cons; by destruct s).
  assert (H2 : String.leb (String slash s) "0" = true) by by rewrite leb_cons.
  rewrite H1, H2. apply negb_true_iff, String.eqb_neq. intros He. by apply (inj (String.append _)) in He.
Qed.

(** Between a prefix with one byte and the prefix with the next byte is exactly
    what starts with the first. *)
Lemma range_iff a b p k : byte_at b = (byte_at a + 1)%N ->
  in_range (p +:+ String a "") (p +:+ String b "") k = true <-> exists s, k = p +:+ String a s.
Proof.
  intros Hab. split.
  - revert k. induction p as [|c p IH]; intros k.
    + unfold in_range. change ("" +:+ String a "") with (String a "").
      change ("" +:+ String b "") with (String b ""). destruct k as [|c k]; [done|]. rewrite !leb_cons.
      intros [H1 [H2 H3]%andb_true_iff]%andb_true_iff.
      apply orb_true_iff in H1, H2. rewrite !andb_true_iff, !N.eqb_eq, !N.ltb_lt in H1, H2.
      assert (Hc : byte_at c = byte_at a \/ byte_at c = byte_at b) by lia. destruct Hc as [Hc|Hc].
      * exists k. f_equal. unfold byte_at in Hc. by rewrite <-(Ascii.ascii_N_embedding c), Hc, Ascii.ascii_N_embedding.
      * destruct H2 as [H2|[_ H2]]; [lia|]. assert (k = "") as -> by by destruct k.
        exfalso. apply negb_true_iff, String.eqb_neq in H3. apply H3. f_equal. unfold byte_at in Hc.
        by rewrite <-(Ascii.ascii_N_embedding c), Hc, Ascii.ascii_N_embedding.
    + unfold in_range in *. destruct k as [|d k]; [done|]. rewrite !append_cons, !leb_cons.
      intros [H1 [H2 H3]%andb_true_iff]%andb_true_iff.
      assert (Hc : byte_at c = byte_at d /\ String.leb (p +:+ String a "") k = true /\ String.leb k (p +:+ String b "") = true).
      { rewrite orb_true_iff, andb_true_iff, N.eqb_eq, N.ltb_lt in H1, H2.
        destruct H1 as [H1|[H1 H1']], H2 as [H2|[H2 H2']]; try lia. by repeat split. }
      destruct Hc as (Hc & Hs & Ht). assert (d = c) as ->.
      { unfold byte_at in Hc. by rewrite <-(Ascii.ascii_N_embedding d), <-Hc, Ascii.ascii_N_embedding. }
      destruct (IH k) as [s ->].
      * rewrite Hs, Ht. cbn. apply negb_true_iff, String.eqb_neq. intros ->. apply negb_true_iff, String.eqb_neq in H3. done.
      * exists s. by rewrite append_cons.
  - intros [s ->]. unfold in_range. rewrite !leb_app, !leb_cons.
    rewrite N.eqb_refl, N.ltb_irrefl. replace (byte_at a <? byte_at b)%N with true by (symmetry; apply N.ltb_lt; lia).
    cbn. destruct s; (apply negb_true_iff, String.eqb_neq; intros He; apply (inj (String.append _)) in He; injection He as ->; lia).
Qed.
Lemma slash_range_iff p k : in_range (p +:+ "/") (p +:+ "0") k = true <-> exists s, k = p +:+ "/" +:+ s.
Proof. by apply (range_iff slash (Ascii.ascii_of_N 48)). Qed.

End Ledger.
