(* ===== verification/CallButtons.v ===== *)
(** * CallButtons: the buttons of call notifications
      ([persistence/background_calls.rs] and its modules)

    While the app is in the background, each call has a row with its state and
    one-time tokens for the buttons that make sense in that state.  A token
    performs its action once, in the state it was shown for, and never again,
    whatever is stored, refused or retried in between. *)
From S2P Require Import Prelude Store Fragments Rows Ledger.

Module CallButtons.
Import Store Rows Ledger.

#[local] Open Scope mosh_scope.
#[local] Set Default Proof Using "Type".

(** ** Data *)

Inductive BridgeConversationKind := Dm | Channel | Group.
#[export] Instance BridgeConversationKind_eq_dec : EqDecision BridgeConversationKind.
Proof. solve_decision. Defined.
Record BridgeConversationRef := { kind : BridgeConversationKind; ref_id : string }.
#[export] Instance BridgeConversationRef_eq_dec : EqDecision BridgeConversationRef.
Proof. solve_decision. Defined.

Inductive BackgroundCallPhase := Incoming | Outgoing | Accepting | Active | Ended.
#[export] Instance BackgroundCallPhase_eq_dec : EqDecision BackgroundCallPhase.
Proof. solve_decision. Defined.
Inductive BackgroundCallAction := Answer | Decline | Hangup.

Record BackgroundCallState := {
  session_id : string; call_id : string; phase : BackgroundCallPhase; expires_at_ms : N;
  sender : string; binding : string;
}.
#[export] Instance BackgroundCallState_eq_dec : EqDecision BackgroundCallState.
Proof. solve_decision. Defined.

Record CallRecord := {
  c_id : string; owner : string; c_revision : N; c_acknowledged : bool; state : BackgroundCallState;
  answer : option string; decline : option string; hangup : option string;
}.

Record BackgroundCallNotification := {
  n_phase : BackgroundCallPhase; n_call_id : string; n_expires_at_ms : N;
  answer_capability : option string; decline_capability : option string; hangup_capability : option string;
}.
Record BackgroundNotification := {
  n_id : string; n_revision : N; n_target : BridgeConversationRef; n_occurrence_id : string;
  n_sent_at_ms : N; n_message_count : N; n_sender : option string; n_text : option string;
  n_call : option BackgroundCallNotification;
}.

Definition lower_hex (n : N) (s : string) : bool :=
  (str_len s =? n)%N
  && forallb (fun b => ((48 <=? b) && (b <=? 57) || (97 <=? b) && (b <=? 102))%N)
       (map Byte.to_N (String.list_byte_of_string s)).

Section Calls.
Context {aes : Aes} {call_codec : RowCodec CallRecord}.
Variable sha256 : bytes -> bytes.
(** [rand::random]: so many bytes at each draw. *)
Variable random : nat -> nat -> bytes.

(** ** Records *)

Definition capability : tx string := b <~ t_random random 32;; m_ret (hex_string b).
Definition when (b : bool) (t : tx string) : tx (option string) :=
  if b then c <~ t;; m_ret (Some c) else m_ret None.

Definition shows_hangup (p : BackgroundCallPhase) : bool :=
  match p with Outgoing | Accepting | Active => true | _ => false end.

Definition replace (new_owner : string) (st : BackgroundCallState) (r : CallRecord) : tx CallRecord :=
  rev <~ m_lift (ok_or (checked_add64 (c_revision r) 1) (Json "call revision exhausted"));;
  a <~ when (bool_decide (phase st = Incoming)) capability;;
  d <~ when (bool_decide (phase st = Incoming)) capability;;
  h <~ when (shows_hangup (phase st)) capability;;
  m_ret {| c_id := c_id r; owner := new_owner; c_revision := rev; c_acknowledged := false; state := st;
           answer := a; decline := d; hangup := h |}.

Definition notification (r : CallRecord) : BackgroundNotification :=
  {| n_id := c_id r; n_revision := c_revision r;
     n_target := {| kind := Dm; ref_id := session_id (state r) |};
     n_occurrence_id := call_id (state r); n_sent_at_ms := 0; n_message_count := 0;
     n_sender := Some (sender (state r)); n_text := None;
     n_call := Some {| n_phase := phase (state r); n_call_id := call_id (state r);
       n_expires_at_ms := expires_at_ms (state r); answer_capability := answer r;
       decline_capability := decline r; hangup_capability := hangup r |} |}.

Definition nul : string := String (Ascii.ascii_of_N 0) EmptyString.
Definition call_key (st : BackgroundCallState) : string :=
  "call" +:+ "/" +:+ hex_string (sha256 (String.list_byte_of_string (session_id st +:+ nul +:+ call_id st))).
Definition CALLS_START : string := "call" +:+ "/".
Definition CALLS_END : string := "call" +:+ "0".

(** ** The rows *)

Definition call_records : tx (gmap string CallRecord) :=
  l <~ t_range CALLS_START CALLS_END;; m_ret (list_to_map l).

(** A call that is over and was seen needs no row. *)
Definition settled (r : CallRecord) : bool := c_acknowledged r && bool_decide (phase (state r) = Ended).
Definition write_call_record (kv : string * CallRecord) : tx unit :=
  if settled kv.2 then t_drop kv.1 else t_store kv.1 kv.2.
Definition write_call_records (records : gmap string CallRecord) : tx unit :=
  each write_call_record (btree_entries String.le records).

Definition fresh_record (i : string) (st : BackgroundCallState) : CallRecord :=
  {| c_id := i; owner := ""; c_revision := 0; c_acknowledged := false; state := st;
     answer := None; decline := None; hangup := None |}.

(** The entry of a call that is there. *)
Definition entry (st : BackgroundCallState) (records : gmap string CallRecord) : tx CallRecord :=
  match records !! call_key st with
  | Some r => m_ret r
  | None => b <~ t_random random 16;; m_ret (fresh_record ("background-call-" +:+ hex_string b) st)
  end.

Fixpoint sync_current (own : string) (current : list BackgroundCallState) (records : gmap string CallRecord) (changed : bool)
  : tx (gmap string CallRecord * bool) :=
  match current with
  | [] => m_ret (records, changed)
  | st :: current =>
      r <~ entry st records;;
      if bool_decide (owner r <> own \/ state r <> st)
      then r <~ replace own st r;; sync_current own current (<[ call_key st := r ]> records) true
      else sync_current own current (<[ call_key st := r ]> records) changed
  end.

Definition ended (st : BackgroundCallState) : BackgroundCallState :=
  {| session_id := session_id st; call_id := call_id st; phase := Ended; expires_at_ms := 0;
     sender := sender st; binding := binding st |}.

Fixpoint end_stale (own : string) (live : gset string) (l : list (string * CallRecord))
    (records : gmap string CallRecord) (changed : bool) : tx (gmap string CallRecord * bool) :=
  match l with
  | [] => m_ret (records, changed)
  | (k, r) :: l =>
      if bool_decide (k ∉ live /\ phase (state r) <> Ended)
      then r <~ replace own (ended (state r)) r;; end_stale own live l (<[ k := r ]> records) true
      else end_stale own live l records changed
  end.

Definition sync_tx (own : string) (current : list BackgroundCallState) : tx bool :=
  records <~ call_records;;
  p <~ sync_current own current records false;;
  let live := list_to_set (map call_key current) : gset string in
  q <~ end_stale own live (btree_entries String.le p.1) p.1 p.2;;
  (if q.2 then write_call_records q.1 else m_ret tt);;;
  m_ret q.2.

Definition sync_background_calls (own : string) (current : list BackgroundCallState)
  : method Store.Persistence PersistenceError unit :=
  _ <~ transact (sync_tx own current);; m_ret tt.

(** ** Reading and acknowledging *)

Fixpoint first_pending (K : bytes) (limit : nat) (l : list (string * bytes)) (acc : list BackgroundNotification)
  : result PersistenceError (list BackgroundNotification) :=
  match l with
  | [] => Ok acc
  | kv :: l =>
      r ← decoded K kv.2;
      let acc := if c_acknowledged r then acc else acc ++ [notification r] in
      if bool_decide (length acc = limit) then Ok acc else first_pending K limit l acc
  end.

Definition pending_call_notifications (limit : nat) (s : Store.Persistence)
  : result PersistenceError (list BackgroundNotification) :=
  d ← begin_read s;
  first_pending (dek s) limit (rows_in CALLS_START CALLS_END d) [].

Definition with_ack (r : CallRecord) : CallRecord :=
  {| c_id := c_id r; owner := owner r; c_revision := c_revision r; c_acknowledged := true; state := state r;
     answer := answer r; decline := decline r; hangup := hangup r |}.
Definition ack_if (i : string) (rev : N) (r : CallRecord) : CallRecord :=
  if String.eqb (c_id r) i && (c_revision r =? rev)%N then with_ack r else r.

Definition ack_call_notification (i : string) (rev : N) : method Store.Persistence PersistenceError unit :=
  transact (records <~ call_records;; write_call_records (ack_if i rev <$> records)).

(** ** Buttons *)

Fixpoint find_capability (K : bytes) (c own : string) (l : list (string * bytes))
  : result PersistenceError (option BackgroundCallState) :=
  match l with
  | [] => Ok None
  | kv :: l =>
      r ← decoded K kv.2;
      if String.eqb (owner r) own && bool_decide (Some c ∈ [answer r; decline r; hangup r])
      then Ok (Some (state r)) else find_capability K c own l
  end.

Definition background_call_for_capability (c own : string) (s : Store.Persistence)
  : result PersistenceError (option BackgroundCallState) :=
  if negb (str_len c =? 64)%N then Ok None
  else d ← begin_read s; find_capability (dek s) c own (rows_in CALLS_START CALLS_END d).

Definition button (c : string) (r : CallRecord) : option BackgroundCallAction :=
  if bool_decide (answer r = Some c) then Some Answer
  else if bool_decide (decline r = Some c) then Some Decline
  else if bool_decide (hangup r = Some c) then Some Hangup
  else None.

Definition take_tx (c own : string) (current : BackgroundCallState) (now : N) : tx (option BackgroundCallAction) :=
  row <~ background_tx_row (call_key current);;
  match row with
  | None => m_ret None
  | Some r =>
      if bool_decide (owner r <> own \/ state r <> current)
         || (negb (expires_at_ms (state r) =? 0)%N && (expires_at_ms (state r) <=? now)%N)
      then m_ret None
      else
        match button c r with
        | None => m_ret None
        | Some action =>
            r <~ replace own current r;; t_store (call_key current) r;;; m_ret (Some action)
        end
  end.

Definition take_background_call_action (c own : string) (current : BackgroundCallState) (now : N)
  : method Store.Persistence PersistenceError (option BackgroundCallAction) :=
  if negb (lower_hex 64 c) then m_ret None else transact (take_tx c own current now).

(** ** Draws only go up *)

Lemma rising_replace own st r : rising (replace own st r).
Proof. unfold replace, when, capability. rises. Qed.
#[local] Hint Resolve rising_replace : rising.
Lemma rising_write records : rising (write_call_records records).
Proof. apply rising_each. intros kv. unfold write_call_record, t_drop. rises. Qed.
Lemma rising_records : rising call_records.
Proof. unfold call_records. rises. Qed.
#[local] Hint Resolve rising_write rising_records : rising.
Lemma rising_sync own current : rising (sync_tx own current).
Proof.
  unfold sync_tx. apply rising_bind; [rises|]. intros records. apply rising_bind.
  { generalize false. revert records. induction current as [|st l IH]; intros records b; cbn [sync_current]; [rises|].
    unfold entry. rises. }
  intros [r1 b1]. cbn zeta. apply rising_bind; [|rises]. cbn [fst snd].
  assert (Hend : forall l live rs b, rising (end_stale own live l rs b)).
  { induction l as [|[k r] l IH]; intros live rs b; cbn [end_stale]; rises. }
  apply Hend.
Qed.
Lemma rising_take c own current now : rising (take_tx c own current now).
Proof. unfold take_tx. rises. Qed.

(** ** The tokens in the rows *)

Definition tokens (r : CallRecord) : list string := omap Datatypes.id [answer r; decline r; hangup r].
Definition cap (i : nat) : string := hex_string (random 32 i).

(** The buttons fit the phase. *)
Definition buttons_fit (r : CallRecord) : Prop :=
  (is_Some (answer r) \/ is_Some (decline r) -> phase (state r) = Incoming) /\
  (is_Some (hangup r) -> shows_hangup (phase (state r)) = true).

(** Every token was drawn, no two buttons share one, and those of [gone] are
    in no row. *)
Record tokens_ok (gone : gset string) (n : nat) (R : gmap string CallRecord) : Prop := {
  t_drawn k r c : R !! k = Some r -> c ∈ tokens r -> exists i, i < n /\ c = cap i;
  t_apart k k' r r' c : R !! k = Some r -> R !! k' = Some r' -> c ∈ tokens r -> c ∈ tokens r' -> k = k';
  t_own k r : R !! k = Some r -> NoDup (tokens r) /\ buttons_fit r;
  t_gone c : c ∈ gone -> (exists i, i < n /\ c = cap i) /\ forall k r, R !! k = Some r -> c ∉ tokens r;
}.

Lemma tokens_ok_mono gone n n' R : n <= n' -> tokens_ok gone n R -> tokens_ok gone n' R.
Proof.
  intros Hn [Hd Ha Ho Hg]. split; [|done|done|].
  - intros k r c Hr Hc. destruct (Hd k r c Hr Hc) as (i & Hi & ->). exists i. split; [lia|done].
  - intros c Hc. destruct (Hg c Hc) as [(i & Hi & ->) Hno]. split; [|done]. exists i. split; [lia|done].
Qed.

(** Rows may go, or change without new tokens. *)
Lemma tokens_ok_sub gone n R R' : tokens_ok gone n R ->
  (forall k r, R' !! k = Some r -> exists r0, R !! k = Some r0 /\ tokens r = tokens r0 /\ (buttons_fit r0 -> buttons_fit r)) ->
  tokens_ok gone n R'.
Proof.
  intros [Hd Ha Ho Hg] Hsub. split.
  - intros k r c (r0 & Hr & -> & _)%Hsub. eauto.
  - intros k k' r r' c (r0 & Hr & -> & _)%Hsub (r1 & Hr' & -> & _)%Hsub. eauto.
  - intros k r (r0 & Hr & -> & Hb)%Hsub. destruct (Ho _ _ Hr). eauto.
  - intros c Hc. destruct (Hg c Hc) as [Hi Hno]. split; [done|]. intros k r (r0 & Hr & -> & _)%Hsub. eauto.
Qed.

Hypothesis cap_inj : forall i j, cap i = cap j -> i = j.

(** A row gets tokens drawn later. *)
Lemma tokens_ok_insert gone n n' R k r : n <= n' -> tokens_ok gone n R ->
  (forall c, c ∈ tokens r -> exists i, n <= i < n' /\ c = cap i) -> NoDup (tokens r) -> buttons_fit r ->
  tokens_ok gone n' (<[ k := r ]> R).
Proof using cap_inj.
  intros Hn HR Hfresh Hnd Hfit. pose proof (tokens_ok_mono _ _ _ _ Hn HR) as [Hd Ha Ho Hg].
  assert (Hclash : forall k' r' c, R !! k' = Some r' -> c ∈ tokens r' -> c ∉ tokens r).
  { intros k' r' c Hr' Hc Hc'. destruct (t_drawn _ _ _ HR _ _ _ Hr' Hc) as (i & Hi & ->).
    destruct (Hfresh _ Hc') as (j & Hj & He%cap_inj). lia. }
  split.
  - intros k' r' c [[-> <-]|[_ Hr]]%lookup_insert_Some Hc; [|by eauto].
    destruct (Hfresh c Hc) as (i & Hi & ->). exists i. split; [lia|done].
  - intros k1 k2 r1 r2 c [[-> <-]|[_ H1]]%lookup_insert_Some [[-> <-]|[_ H2]]%lookup_insert_Some Hc1 Hc2; [done| | |by eauto].
    + by destruct (Hclash _ _ _ H2 Hc2).
    + by destruct (Hclash _ _ _ H1 Hc1).
  - intros k' r' [[-> <-]|[_ Hr]]%lookup_insert_Some; [done|by eauto].
  - intros c Hc. destruct (Hg c Hc) as [Hi Hno]. split; [done|].
    intros k' r' [[-> <-]|[_ Hr]]%lookup_insert_Some; [|by eauto]. intros Hc'.
    destruct (t_gone _ _ _ HR c Hc) as [(i & Hi' & ->) _]. destruct (Hfresh _ Hc') as (j & Hj & He%cap_inj). lia.
Qed.

Lemma capability_Ok d d' c : capability d = (d', Ok c) ->
  c = cap (draws d) /\ key d' = key d /\ tables d' = tables d /\ draws d' = S (draws d).
Proof. by intros [= <- <-]. Qed.

Lemma when_Ok b d d' o : when b capability d = (d', Ok o) ->
  key d' = key d /\ tables d' = tables d /\ draws d <= draws d' /\ (is_Some o -> b = true) /\
  forall c, o = Some c -> c = cap (draws d) /\ draws d' = S (draws d).
Proof.
  unfold when. destruct b.
  - intros (d1 & c & (Hc & Hk & Ht & Hd)%capability_Ok & [= <- <-])%m_bind_Ok. rewrite Hd.
    split; [done|]. split; [done|]. split; [lia|]. split; [done|]. by intros c' [= <-].
  - intros [= <- <-]. split; [done|]. split; [done|]. split; [done|]. split; [by intros []|done].
Qed.

Lemma replace_Ok own st r d d' r' : replace own st r d = (d', Ok r') ->
  (key d' = key d /\ tables d' = tables d /\ draws d <= draws d') /\
  (owner r' = own /\ state r' = st /\ c_acknowledged r' = false /\ c_revision r' = c_revision r + 1)%N /\
  (forall c, c ∈ tokens r' -> exists i, draws d <= i < draws d' /\ c = cap i) /\ NoDup (tokens r') /\ buttons_fit r'.
Proof using cap_inj.
  unfold replace. intros (d1 & rev & [= <- Hrev%ok_or_Ok] & Hr)%m_bind_Ok.
  apply m_bind_Ok in Hr as (d2 & a & (Hk2 & Ht2 & Hd2 & Ha & Hca)%when_Ok & Hr).
  apply m_bind_Ok in Hr as (d3 & de & (Hk3 & Ht3 & Hd3 & Hde & Hcde)%when_Ok & Hr).
  apply m_bind_Ok in Hr as (d4 & h & (Hk4 & Ht4 & Hd4 & Hh & Hch)%when_Ok & [= <- <-]).
  unfold tokens, buttons_fit. cbn [owner state c_acknowledged c_revision answer decline hangup].
  split; [split; [congruence|split; [congruence|lia]]|].
  split; [split; [done|split; [done|split; [done|]]]|].
  { unfold checked_add64 in Hrev. case_match; [|done]. by injection Hrev as <-. }
  assert (Hfit : (is_Some a \/ is_Some de -> phase st = Incoming) /\ (is_Some h -> shows_hangup (phase st) = true)).
  { split; [|done]. intros [Hs|Hs]; [apply Ha in Hs|apply Hde in Hs]; by apply bool_decide_eq_true in Hs. }
  split; [|split; [|done]].
  - intros c. destruct a as [a|], de as [de|], h as [h|]; cbn; rewrite ?elem_of_cons, ?elem_of_nil;
      repeat match goal with H : forall c, Some ?x = Some c -> _ |- _ => destruct (H x eq_refl) as [-> ?]; clear H end;
      intros Hc; destruct_or?; subst; try done; eexists; (split; [|reflexivity]); lia.
  - destruct a as [a|], de as [de|], h as [h|]; cbn; [|..];
      repeat match goal with H : forall c, Some ?x = Some c -> _ |- _ => destruct (H x eq_refl) as [-> ?]; clear H end;
      repeat constructor; rewrite ?elem_of_cons, ?elem_of_nil; intros Hc; destruct_or?; try done; apply cap_inj in Hc; lia.
Qed.

(** ** What the steps do to the rows *)

Definition calls (d : Draft) : gmap string CallRecord := typed_in CALLS_START CALLS_END d.
Definition in_calls (k : string) : Prop := in_range CALLS_START CALLS_END k = true.

Lemma call_key_in_calls st : in_calls (call_key st).
Proof. apply slash_in_range. Qed.
Lemma calls_in_calls d k r : calls d !! k = Some r -> in_calls k.
Proof. by intros [? _]%typed_lookup. Qed.
Lemma calls_same d d' : key d' = key d -> tables d' = tables d -> calls d' = calls d.
Proof. unfold calls, typed_in. by intros -> ->. Qed.

Lemma call_records_Ok d d' R : call_records d = (d', Ok R) -> d' = d /\ R = calls d.
Proof.
  unfold call_records. intros (d1 & l & [= <- Hl] & [= <- <-])%m_bind_Ok. split; [done|]. by apply decode_all_map.
Qed.

Context {aes_laws : AesLaws} {codec_laws : RowCodecLaws CallRecord}.

Lemma write_each_Ok l d d' : each write_call_record l d = (d', Ok tt) -> NoDup l.*1 -> (forall k r, (k, r) ∈ l -> in_calls k) ->
  (forall k r, (k, r) ∈ l -> calls d' !! k = if settled r then None else Some r) /\
  (forall k, k ∉ l.*1 -> calls d' !! k = calls d !! k).
Proof using aes_laws codec_laws.
  revert d. induction l as [|[k0 r0] l IH]; intros d; cbn [each].
  - intros [= <-] _ _. split; [by intros ? ? ?%elem_of_nil|done].
  - intros (d1 & [] & Hw & Hl)%m_bind_Ok [Hk0 Hnd]%NoDup_cons Hin.
    destruct (IH _ Hl Hnd) as [H1 H2]; [intros k r Hkr; by apply (Hin k r); right|].
    assert (Hr0 : in_calls k0) by by apply (Hin k0 r0); left.
    assert (Hstep : calls d1 = if settled r0 then delete k0 (calls d) else <[ k0 := r0 ]> (calls d)).
    { unfold write_call_record in Hw. cbn [fst snd] in Hw. unfold calls. destruct (settled r0).
      - by eapply typed_drop in Hw as (_ & _ & ->).
      - apply (typed_store CALLS_START CALLS_END) in Hw as [_ ->]. by rewrite Hr0. }
    split.
    + intros k r [[= -> ->]|Hkr]%elem_of_cons; [|by apply H1].
      rewrite H2, Hstep by done. destruct (settled r0); [apply lookup_delete_eq|apply lookup_insert_eq].
    + intros k [Hne Hk]%not_elem_of_cons. rewrite H2, Hstep by done. cbn in Hne.
      destruct (settled r0); [by rewrite lookup_delete_ne|by rewrite lookup_insert_ne].
Qed.

Lemma entries_NoDup (R : gmap string CallRecord) : NoDup (btree_entries String.le R).*1.
Proof.
  apply NoDup_fmap_fst; [|apply btree_entries_NoDup; apply _].
  intros k r r' H%elem_of_btree_entries H'%elem_of_btree_entries. congruence.
Qed.

Lemma write_Ok R d d' : write_call_records R d = (d', Ok tt) -> (forall k r, R !! k = Some r -> in_calls k) ->
  (forall k, is_Some (calls d !! k) -> is_Some (R !! k)) ->
  calls d' = filter (fun kv => settled kv.2 = false) R.
Proof using aes_laws codec_laws.
  intros Hw Hin Hdom. apply write_each_Ok in Hw as [H1 H2]; [|apply entries_NoDup|].
  2: { intros k r Hk%elem_of_btree_entries. by eapply Hin. }
  apply map_eq. intros k. apply option_eq. intros r. rewrite map_lookup_filter_Some. cbn.
  destruct (R !! k) as [r0|] eqn:Hk.
  - rewrite (H1 k r0) by by apply elem_of_btree_entries.
    destruct (settled r0) eqn:Hs; split; try done; [intros [[= ->] ?]; congruence|intros [= ->]; done|by intros [[= ->] _]].
  - rewrite H2.
    + split; [|by intros [[=] _]]. intros Hr. destruct (Hdom k) as [? ?]; [by eexists|congruence].
    + intros ([k' r'] & -> & Hin')%list_elem_of_fmap. apply elem_of_btree_entries in Hin'. cbn in Hk. congruence.
Qed.

Lemma entry_Ok st R d d' r : entry st R d = (d', Ok r) ->
  key d' = key d /\ tables d' = tables d /\ draws d <= draws d' /\
  (R !! call_key st = Some r \/ R !! call_key st = None /\ tokens r = [] /\ owner r = "" /\ buttons_fit r).
Proof.
  unfold entry. destruct (R !! call_key st) as [r0|] eqn:Hr.
  - intros [= <- <-]. by eauto.
  - intros (d1 & b & [= <- <-] & [= <- <-])%m_bind_Ok. cbn [key tables draws]. split; [done|]. split; [done|].
    split; [lia|]. right. split; [done|]. split; [done|]. split; [done|]. split; [by intros [[? [=]]|[? [=]]]|by intros [? [=]]].
Qed.

Record synced (own : string) (d d' : Draft) (current : list BackgroundCallState) (R R' : gmap string CallRecord) (b b' : bool) : Prop := {
  y_draft : key d' = key d /\ tables d' = tables d /\ draws d <= draws d';
  y_tokens gone : tokens_ok gone (draws d) R -> tokens_ok gone (draws d') R';
  y_dom k : is_Some (R !! k) -> is_Some (R' !! k);
  y_other k : k ∉ map call_key current -> R' !! k = R !! k;
  y_calls : NoDup (map call_key current) -> forall st, st ∈ current ->
    exists r, R' !! call_key st = Some r /\ owner r = own /\ state r = st;
  y_still : own <> "" -> b' = false -> R' = R /\ b = false;
}.

Lemma sync_current_Ok own current R b d d' R' b' : sync_current own current R b d = (d', Ok (R', b')) ->
  synced own d d' current R R' b b'.
Proof using cap_inj.
  revert R b d. induction current as [|st l IH]; intros R b d; cbn [sync_current].
  - intros [= <- <- <-]. split; try done. by intros _ st ?%elem_of_nil.
  - intros (d1 & r & (Hk1 & Ht1 & Hd1 & Hr)%entry_Ok & Hrest)%m_bind_Ok.
    assert (Hgo : exists d2 r2 b2, sync_current own l (<[ call_key st := r2 ]> R) b2 d2 = (d', Ok (R', b')) /\
      owner r2 = own /\ state r2 = st /\ key d2 = key d /\ tables d2 = tables d /\ draws d <= draws d2 /\
      (forall gone, tokens_ok gone (draws d) R -> tokens_ok gone (draws d2) (<[ call_key st := r2 ]> R)) /\
      (own <> "" -> b2 = false -> b = false /\ R !! call_key st = Some r2)).
    { revert Hrest. case_bool_decide as Hc.
      - intros (d2 & r2 & ((Hk & Ht & Hd) & (Ho & Hs & _) & Hf & Hnd & Hfit)%replace_Ok & Hl)%m_bind_Ok.
        exists d2, r2, true. split; [done|]. split; [done|]. split; [done|]. split; [congruence|]. split; [congruence|].
        split; [lia|]. split; [|done]. intros gone HR. eapply tokens_ok_insert; [|exact HR| |done|done]; [lia|].
        intros c Hc'. destruct (Hf c Hc') as (i & Hi & ->). exists i. split; [lia|done].
      - intros Hl. assert (owner r = own /\ state r = st) as [Ho Hs] by (split; apply dec_stable; tauto).
        exists d1, r, b. do 5 (split; [done|]). split; [done|]. destruct Hr as [Hr|(Hr & Htok & Ho' & Hfit)].
        + split; [|done]. intros gone HR. rewrite insert_id by done. by apply (tokens_ok_mono _ _ _ _ Hd1).
        + split; [|intros Hne; by rewrite <-Ho, Ho' in Hne]. intros gone HR.
          eapply tokens_ok_insert; [exact Hd1|exact HR| | |done]; rewrite Htok; [by intros c ?%elem_of_nil|constructor]. }
    clear Hr Hrest Hk1 Ht1 Hd1. destruct Hgo as (d2 & r2 & b2 & Hl & Ho & Hs & Hk2 & Ht2 & Hd2 & Htok & Hstill).
    apply IH in Hl as [(Hk & Ht & Hd) Hyt Hydom Hyo Hyc Hys]. split.
    + split; [congruence|]. split; [congruence|lia].
    + auto.
    + intros k Hk'. apply Hydom. destruct (decide (k = call_key st)) as [->|]; [rewrite lookup_insert_eq; by eexists|].
      by rewrite lookup_insert_ne.
    + intros k. cbn [map]. intros [Hne Hk']%not_elem_of_cons. rewrite Hyo by done. by rewrite lookup_insert_ne.
    + cbn [map]. intros [Hx Hnd]%NoDup_cons st' [->|Hin]%elem_of_cons; [|by apply Hyc].
      exists r2. rewrite Hyo by done. by rewrite lookup_insert_eq.
    + intros Hne Hb'. destruct (Hys Hne Hb') as [-> Hb2]. destruct (Hstill Hne Hb2) as [-> Hr2]. by rewrite insert_id.
Qed.

Lemma end_stale_Ok own live l R b d d' R' b' : end_stale own live l R b d = (d', Ok (R', b')) ->
  NoDup l.*1 -> (forall k r, (k, r) ∈ l -> R !! k = Some r) ->
  (key d' = key d /\ tables d' = tables d /\ draws d <= draws d') /\
  (forall gone, tokens_ok gone (draws d) R -> tokens_ok gone (draws d') R') /\
  (forall k, is_Some (R !! k) -> is_Some (R' !! k)) /\
  (forall k, (exists r, (k, r) ∈ l /\ k ∉ live /\ phase (state r) <> Ended /\
                exists r', R' !! k = Some r' /\ phase (state r') = Ended /\ owner r' = own) \/
             R' !! k = R !! k /\ forall r, (k, r) ∈ l -> k ∈ live \/ phase (state r) = Ended) /\
  (b' = false -> R' = R /\ b = false).
Proof using cap_inj.
  revert R b d. induction l as [|[k0 r0] l IH]; intros R b d; cbn [end_stale].
  - intros [= <- <- <-] _ _. repeat (split; [done|]). split; [|done]. intros k. right. split; [done|].
    by intros r ?%elem_of_nil.
  - case_bool_decide as Hc.
    + intros (d1 & r1 & ((Hk & Ht & Hd) & (Ho & Hs & _) & Hf & Hnd1 & Hfit)%replace_Ok & Hl)%m_bind_Ok [Hk0 Hnd]%NoDup_cons Hin.
      apply IH in Hl as ((Hk' & Ht' & Hd') & Htok & Hdom & Hcase & Hstill); [|done|].
      2: { intros k r Hkr. rewrite lookup_insert_ne; [by apply Hin; right|]. intros ->. apply Hk0.
           apply list_elem_of_fmap. by exists (k, r). }
      split; [split; [congruence|split; [congruence|lia]]|]. split; [|split; [|split]].
      * intros gone HR. apply Htok. by eapply tokens_ok_insert; [..|exact Hnd1|exact Hfit].
      * intros k Hk1. apply Hdom. destruct (decide (k = k0)) as [->|]; [rewrite lookup_insert_eq; by eexists|].
        by rewrite lookup_insert_ne.
      * intros k. destruct (Hcase k) as [(r & Hr & Hrest)|[He Hall]].
        -- left. exists r. split; [by right|done].
        -- destruct (decide (k = k0)) as [->|Hne].
           ++ left. exists r0. split; [by left|]. destruct Hc as [Hc1 Hc2]. split; [done|]. split; [done|].
              exists r1. rewrite He, lookup_insert_eq. split; [done|]. by rewrite Hs.
           ++ right. rewrite He, lookup_insert_ne by done. split; [done|].
              intros r [[= -> _]|Hr]%elem_of_cons; [done|by apply Hall].
      * intros Hb'. by destruct (Hstill Hb').
    + intros Hl [Hk0 Hnd]%NoDup_cons Hin. apply IH in Hl as (Hdr & Htok & Hdom & Hcase & Hstill); [|done|].
      2: { intros k r Hkr. apply Hin. by right. }
      split; [done|]. split; [done|]. split; [done|]. split; [|done]. intros k.
      destruct (Hcase k) as [(r & Hr & Hrest)|[He Hall]]; [left; exists r; split; [by right|done]|].
      right. split; [done|]. intros r [[= -> ->]|Hr]%elem_of_cons; [|by apply Hall].
      destruct (decide (k0 ∈ live)); [by left|right]. apply dec_stable. tauto.
Qed.

Lemma sync_tx_Ok own current d d' ch : sync_tx own current d = (d', Ok ch) ->
  (forall gone, tokens_ok gone (draws d) (calls d) -> tokens_ok gone (draws d') (calls d')) /\
  (own <> "" -> NoDup (map call_key current) ->
    (forall st, st ∈ current -> phase st <> Ended ->
       exists r, calls d' !! call_key st = Some r /\ owner r = own /\ state r = st) /\
    (forall k r, calls d' !! k = Some r -> k ∉ map call_key current -> phase (state r) = Ended)).
Proof using cap_inj aes_laws codec_laws.
  unfold sync_tx. intros (d0 & R & [-> ->]%call_records_Ok & H)%m_bind_Ok.
  apply m_bind_Ok in H as (d1 & [R1 b1] & Hcur%sync_current_Ok & H). cbn zeta in H. cbn [fst snd] in H.
  apply m_bind_Ok in H as (d2 & [R2 b2] & Hend & H). cbn [fst snd] in H.
  apply m_bind_Ok in H as (d3 & [] & Hw & [= <- <-]).
  apply end_stale_Ok in Hend as ((Hk2 & Ht2 & Hd2) & Htok2 & Hdom2 & Hcase & Hstill);
    [|apply entries_NoDup|by intros k r Hkr%elem_of_btree_entries].
  destruct Hcur as [(Hk1 & Ht1 & Hd1) Htok1 Hdom1 Hother Hcalls Hst].
  assert (Hsame : calls d2 = calls d) by (apply calls_same; congruence).
  assert (Hlive : forall k, k ∈ (list_to_set (map call_key current) : gset string) <-> k ∈ map call_key current)
    by (intros k; apply elem_of_list_to_set).
  destruct b2.
  - pose proof (rising_write R2 d2 d3 _ Hw) as [Hd3 _]. apply write_Ok in Hw.
    + rewrite Hw. split.
      * intros gone Hg. apply (tokens_ok_mono _ _ _ _ Hd3). apply (tokens_ok_sub _ _ R2); [by apply Htok2, Htok1|].
        intros k r [Hr _]%map_lookup_filter_Some. exists r. done.
      * intros Hne Hnd. split.
        -- intros st Hin Hph. destruct (Hcalls Hnd st Hin) as (r & Hr & Ho & Hs). exists r. split; [|done].
           apply map_lookup_filter_Some. cbn. destruct (Hcase (call_key st)) as [(r0 & _ & Hno & _)|[He _]].
           ++ destruct Hno. by apply Hlive, list_elem_of_fmap_2.
           ++ rewrite He. split; [done|]. unfold settled. rewrite Hs. rewrite bool_decide_eq_false_2 by done.
              apply andb_false_r.
        -- intros k r [Hr _]%map_lookup_filter_Some Hk. destruct (Hcase k) as [(r0 & _ & _ & _ & r' & Hr' & Hph & _)|[He Hall]].
           ++ rewrite Hr in Hr'. by injection Hr' as <-.
           ++ rewrite He in Hr. destruct (Hall r) as [Hin|]; [by apply elem_of_btree_entries| |done]. by apply Hlive in Hin.
    + intros k r Hr. destruct (decide (k ∈ map call_key current)) as [(st & -> & _)%list_elem_of_fmap|Hk];
        [apply call_key_in_calls|].
      assert (is_Some (R1 !! k)) as [r1 Hr1].
      { destruct (Hcase k) as [(r0 & Hr0%elem_of_btree_entries & _)|[He _]]; [by eexists|]. rewrite <-He. by eexists. }
      rewrite Hother in Hr1 by done. by eapply calls_in_calls.
    + intros k. rewrite Hsame. intros Hk. by apply Hdom2, Hdom1.
  - injection Hw as <-. rewrite Hsame. destruct (Hstill eq_refl) as [-> ->]. split.
    + intros gone Hg. assert (draws d <= draws d2) as Hle by lia. by apply (tokens_ok_mono _ _ _ _ Hle).
    + intros Hne Hnd. destruct (Hst Hne eq_refl) as [-> _]. split.
      * intros st Hin _. by apply Hcalls.
      * intros k r Hr Hk. destruct (Hcase k) as [(r0 & Hr0%elem_of_btree_entries & Hno & Hph & r' & He & Hend & _)|[_ Hall]].
        -- rewrite Hr in He. by injection He as <-.
        -- destruct (Hall r) as [Hin|]; [by apply elem_of_btree_entries| |done]. by apply Hlive in Hin.
Qed.

Lemma take_tx_Ok c own current now d d' o : take_tx c own current now d = (d', Ok o) ->
  (forall gone, tokens_ok gone (draws d) (calls d) -> tokens_ok gone (draws d') (calls d')) /\
  forall a, o = Some a ->
    (exists r, calls d !! call_key current = Some r /\ owner r = own /\ state r = current /\
       (expires_at_ms current = 0 \/ now < expires_at_ms current)%N /\ button c r = Some a) /\
    (forall gone, tokens_ok gone (draws d) (calls d) -> tokens_ok ({[ c ]} ∪ gone) (draws d') (calls d')).
Proof using cap_inj aes_laws codec_laws.
  unfold take_tx. intros (d1 & row & (-> & Hrow)%background_tx_row_Ok & H)%m_bind_Ok.
  destruct row as [r|]; [|by injection H as <- <-]. destruct Hrow as (blob & Hblob & Hdec).
  assert (Hr : calls d !! call_key current = Some r).
  { apply typed_lookup. split; [apply call_key_in_calls|]. by eauto. }
  destruct (_ || _) eqn:Hcheck; [by injection H as <- <-|]. destruct (button c r) as [a|] eqn:Hb; [|by injection H as <- <-].
  apply orb_false_iff in Hcheck as [Hcheck Hexp]. apply bool_decide_eq_false in Hcheck.
  assert (owner r = own /\ state r = current) as [Ho Hs] by (split; apply dec_stable; tauto).
  apply m_bind_Ok in H as (d2 & r' & ((Hk & Ht & Hd) & _ & Hf & Hnd & Hfit)%replace_Ok & H).
  apply m_bind_Ok in H as (d3 & [] & Hst & [= <- <-]).
  pose proof (rising_store _ _ _ _ _ Hst) as [Hd3 _]. eapply (typed_store CALLS_START CALLS_END) in Hst as [_ Hst].
  rewrite (call_key_in_calls current) in Hst. fold (calls d3) in Hst. fold (calls d2) in Hst. rewrite (calls_same _ _ Hk Ht) in Hst.
  assert (Htok : forall gone, tokens_ok gone (draws d) (calls d) -> tokens_ok gone (draws d3) (calls d3)).
  { intros gone Hg. rewrite Hst. apply (tokens_ok_mono _ _ _ _ Hd3). by eapply tokens_ok_insert. }
  split; [exact Htok|]. intros a' [= <-]. split.
  - exists r. split; [done|]. split; [done|]. split; [done|]. split; [|done]. rewrite Hs in Hexp.
    apply andb_false_iff in Hexp as [He|He]; [left|right].
    + by apply negb_false_iff, N.eqb_eq in He.
    + by apply N.leb_gt in He.
  - intros gone Hg. pose proof (Htok gone Hg) as [H1 H2 H3 H4]. split; [done..|].
    intros c' [->%elem_of_singleton|Hc']%elem_of_union; [|by apply H4].
    assert (Hin : c ∈ tokens r).
    { unfold button in Hb. unfold tokens. repeat case_bool_decide; try done;
        match goal with H : _ = Some c |- _ => rewrite H end; destruct (answer r), (decline r); cbn;
        rewrite ?elem_of_cons; auto. }
    destruct (t_drawn _ _ _ Hg _ _ _ Hr Hin) as (i & Hi & Hci). split; [exists i; split; [lia|done]|].
    intros k r1 Hr1 Hc1. rewrite Hst in Hr1. apply lookup_insert_Some in Hr1 as [[<- <-]|[Hne Hr1]].
    + destruct (Hf c Hc1) as (j & Hj & He). rewrite Hci in He. apply cap_inj in He. lia.
    + by apply Hne, (t_apart _ _ _ Hg _ _ _ _ c Hr Hr1).
Qed.

Lemma ack_tx_Ok i rev d d' u : (records <~ call_records;; write_call_records (ack_if i rev <$> records)) d = (d', Ok u) ->
  forall gone, tokens_ok gone (draws d) (calls d) -> tokens_ok gone (draws d') (calls d').
Proof using cap_inj aes_laws codec_laws.
  intros (d1 & R & [-> ->]%call_records_Ok & Hw)%m_bind_Ok gone Hg. destruct u.
  pose proof (rising_write _ _ _ _ Hw) as [Hd _]. apply write_Ok in Hw.
  - rewrite Hw. apply (tokens_ok_mono _ _ _ _ Hd). apply (tokens_ok_sub _ _ (calls d)); [done|].
    intros k r [(r0 & <- & Hr)%lookup_fmap_Some _]%map_lookup_filter_Some. exists r0.
    unfold ack_if. by destruct (_ && _).
  - intros k r (r0 & _ & Hr)%lookup_fmap_Some. by eapply calls_in_calls.
  - intros k. by rewrite lookup_fmap, fmap_is_Some.
Qed.

(** ** The life of a token *)

Definition ledger (s : Store.Persistence) : gmap string CallRecord := typed CALLS_START CALLS_END (dek s) (db s).

Lemma transact_tokens {A} (op : tx A) s s' r gone : rising op ->
  (forall d d' v, op d = (d', Ok v) -> tokens_ok gone (draws d) (calls d) -> tokens_ok gone (draws d') (calls d')) ->
  transact op s = (s', r) -> tokens_ok gone (rng s) (ledger s) -> tokens_ok gone (rng s') (ledger s').
Proof.
  intros Hrise Hop (Hk & Hn & Hc)%transact_split Hg; [|done]. unfold ledger. rewrite Hk.
  destruct Hc as [[-> _]|(d & v & Ho & Hkd & -> & -> & _)]; [by apply (tokens_ok_mono _ _ _ _ Hn)|].
  rewrite <-Hkd. by apply (Hop _ _ _ Ho).
Qed.

(** Everything that happens to the store: the buttons' own operations, and
    whatever leaves the rows of the calls and the key as they are. *)
Inductive button_step (s : Store.Persistence) : Store.Persistence -> Prop :=
| step_sync own current : button_step s (sync_background_calls own current s).1
| step_ack i rev : button_step s (ack_call_notification i rev s).1
| step_take c own current now : button_step s (take_background_call_action c own current now s).1
| step_other s' : dek s' = dek s -> rng s <= rng s' -> ledger s' = ledger s -> button_step s s'.

Lemma step_tokens gone s s' : button_step s s' -> tokens_ok gone (rng s) (ledger s) -> tokens_ok gone (rng s') (ledger s').
Proof using cap_inj aes_laws codec_laws.
  intros [own current|i rev|c own current now|s2 Hk Hn Hl] Hg.
  - unfold sync_background_calls, m_bind. destruct (transact _ s) as [s1 r] eqn:Htr.
    assert (Hs1 : tokens_ok gone (rng s1) (ledger s1)).
    { eapply transact_tokens; [apply rising_sync| |exact Htr|exact Hg]. intros d d' v [H _]%sync_tx_Ok. apply H. }
    by destruct r.
  - unfold ack_call_notification. destruct (transact _ s) as [s1 r] eqn:Htr.
    eapply transact_tokens; [| |exact Htr|exact Hg]; [rises|]. intros d d' v H. by eapply ack_tx_Ok.
  - unfold take_background_call_action. destruct (negb _); [done|]. destruct (transact _ s) as [s1 r] eqn:Htr.
    eapply transact_tokens; [apply rising_take| |exact Htr|exact Hg]. intros d d' v [H _]%take_tx_Ok. apply H.
  - rewrite Hl. by apply (tokens_ok_mono _ _ _ _ Hn).
Qed.

Lemma steps_tokens gone s s' : rtc button_step s s' -> tokens_ok gone (rng s) (ledger s) -> tokens_ok gone (rng s') (ledger s').
Proof using cap_inj aes_laws codec_laws. induction 1; [done|]. eauto using step_tokens. Qed.

Definition allowed (a : BackgroundCallAction) (p : BackgroundCallPhase) : Prop :=
  match a with Answer | Decline => p = Incoming | Hangup => shows_hangup p = true end.

Lemma take_Ok c own current now s s' a : take_background_call_action c own current now s = (s', Ok (Some a)) ->
  (exists r, ledger s !! call_key current = Some r /\ owner r = own /\ state r = current /\
     (expires_at_ms current = 0 \/ now < expires_at_ms current)%N /\ button c r = Some a) /\
  (forall gone, tokens_ok gone (rng s) (ledger s) -> tokens_ok ({[ c ]} ∪ gone) (rng s') (ledger s')).
Proof using cap_inj aes_laws codec_laws.
  unfold take_background_call_action. destruct (negb _); [by intros [=]|].
  intros (Hk & Hn & Hc)%transact_split; [|apply rising_take].
  destruct Hc as [[_ [=]]|(d & o & Ho & Hkd & Hdb & Hrng & [[= <-]|[=]])]. apply take_tx_Ok in Ho as [_ Ho].
  destruct (Ho a eq_refl) as [Hr Hg]. split; [exact Hr|]. intros gone. specialize (Hg gone).
  unfold ledger. rewrite Hk, Hdb, Hrng. unfold calls, typed_in in Hg. rewrite Hkd in Hg. exact Hg.
Qed.

(** C23. A button of a call notification works once and only where it was
    shown: starting from a store without calls, whatever was synchronised,
    acknowledged, refused or half-committed before, a token that performs an
    action does so for the call, the owner and the exact state it was issued
    for, before that state expired and with an action that fits its phase; and
    from then on, whatever happens, no use of that token performs anything. *)
Theorem capability_once c own current now s0 s s' a : ledger s0 = ∅ -> rtc button_step s0 s ->
  take_background_call_action c own current now s = (s', Ok (Some a)) ->
  (exists r, ledger s !! call_key current = Some r /\ owner r = own /\ state r = current /\ button c r = Some a) /\
  (expires_at_ms current = 0 \/ now < expires_at_ms current)%N /\ allowed a (phase current) /\
  forall s2 own' current' now' a', rtc button_step s' s2 ->
    (take_background_call_action c own' current' now' s2).2 <> Ok (Some a').
Proof using cap_inj aes_laws codec_laws.
  intros H0 Hsteps Htake.
  assert (Hs : tokens_ok ∅ (rng s) (ledger s)).
  { eapply steps_tokens; [exact Hsteps|]. rewrite H0. split; try (by intros ? ? ? [=]); try (by intros ? ? [=]).
    - by intros k k' r r' c' [=].
    - intros c' Hc'. by apply elem_of_empty in Hc'. }
  apply take_Ok in Htake as [(r & Hr & Ho & Hst & Hexp & Hb) Hgone]. split; [by exists r|]. split; [done|].
  destruct (t_own _ _ _ Hs _ _ Hr) as [_ [Hin Hhang]]. split.
  - subst current. unfold button in Hb. repeat case_bool_decide; try done; injection Hb as <-; cbn.
    + apply Hin. left. by eexists.
    + apply Hin. right. by eexists.
    + apply Hhang. by eexists.
  - intros s2 own' current' now' a' Hsteps2 Htake2. apply Hgone in Hs. eapply steps_tokens in Hs; [|exact Hsteps2].
    destruct (take_background_call_action c own' current' now' s2) as [s3 o] eqn:He. cbn in Htake2. subst o.
    apply take_Ok in He as [(r2 & Hr2 & _ & _ & _ & Hb2) _].
    apply (proj2 (t_gone _ _ _ Hs c ltac:(by apply elem_of_union_l, elem_of_singleton)) _ _ Hr2).
    unfold button in Hb2. unfold tokens. repeat case_bool_decide; try done;
      match goal with H : _ = Some c |- _ => rewrite H end; destruct (answer r2), (decline r2); cbn; rewrite ?elem_of_cons; auto.
Qed.

(** Synchronising makes the rows say what the runtime says: after it
    succeeded, every call that is not over has a row of this owner in its
    present state, and every row of another call is over, so no stale ring
    stays on the screen. *)
Theorem sync_exact own current s s' : sync_background_calls own current s = (s', Ok tt) -> own <> "" ->
  NoDup (map call_key current) ->
  (forall st, st ∈ current -> phase st <> Ended ->
     exists r, ledger s' !! call_key st = Some r /\ owner r = own /\ state r = st) /\
  (forall k r, ledger s' !! k = Some r -> k ∉ map call_key current -> phase (state r) = Ended).
Proof using cap_inj aes_laws codec_laws.
  unfold sync_background_calls. intros (s1 & ch & Htr & [= <-])%m_bind_Ok Hne Hnd.
  apply transact_split in Htr as (Hk & _ & Hc); [|apply rising_sync].
  destruct Hc as [[_ [=]]|(d & v & Ho & Hkd & Hdb & _ & _)]. apply sync_tx_Ok in Ho as [_ Ho].
  unfold ledger. rewrite Hk, Hdb, <-Hkd. by apply Ho.
Qed.

End Calls.

(** ** Witnesses *)

#[local] Existing Instances Rows.plain_aes Rows.plain_aes_laws.

Definition phase_code (p : BackgroundCallPhase) : N :=
  match p with Incoming => 0 | Outgoing => 1 | Accepting => 2 | Active => 3 | Ended => 4 end.
Definition code_phase (n : N) : BackgroundCallPhase :=
  match n with 0 => Incoming | 1 => Outgoing | 2 => Accepting | 3 => Active | _ => Ended end%N.
Definition call_tuple (r : CallRecord) :=
  (c_id r, owner r, c_revision r, c_acknowledged r,
   (session_id (state r), call_id (state r), phase_code (phase (state r)), expires_at_ms (state r),
    sender (state r), binding (state r)), (answer r, decline r, hangup r)).
Definition tuple_call (t : string * string * N * bool * (string * string * N * N * string * string)
                          * (option string * option string * option string)) : CallRecord :=
  let '(i, o, rev, ack, (s, c, p, e, f, b), (a, d, h)) := t in
  {| c_id := i; owner := o; c_revision := rev; c_acknowledged := ack;
     state := {| session_id := s; call_id := c; phase := code_phase p; expires_at_ms := e; sender := f; binding := b |};
     answer := a; decline := d; hangup := h |}.
#[local] Instance toy_calls : RowCodec CallRecord := {|
  row_to_vec r := codec_to_vec (call_tuple r); row_from_slice b := tuple_call <$> codec_from_slice b;
|}.
#[local] Instance toy_calls_laws : RowCodecLaws CallRecord.
Proof.
  split. intros [i o rev ack [s c p e f b] a d h] v Hv. cbn in *. rewrite (codec_roundtrip _ _ Hv). cbn. by destruct p.
Qed.

(** Numbers that never repeat. *)
Definition toy_random (n i : nat) : bytes :=
  match Byte.of_nat i with Some b => replicate (pred n) x00 ++ [b] | None => replicate (n + i) x00 end.

Lemma toy_hex_inj n i j : 0 < n -> hex_string (toy_random n i) = hex_string (toy_random n j) -> i = j.
Proof.
  unfold toy_random. intros Hn H%hex_string_inj.
  destruct (Byte.of_nat i) as [b|] eqn:Hi, (Byte.of_nat j) as [b'|] eqn:Hj.
  - apply (inj (replicate (pred n) x00 ++.)) in H. injection H as <-. apply Byte.to_of_nat_iff in Hi, Hj. congruence.
  - apply (f_equal length) in H. rewrite length_app, !length_replicate in H. cbn in H.
    apply Byte.of_nat_None_iff in Hj. lia.
  - apply (f_equal length) in H. rewrite length_app, !length_replicate in H. cbn in H.
    apply Byte.of_nat_None_iff in Hi. lia.
  - apply (f_equal length) in H. rewrite !length_replicate in H. lia.
Qed.
Lemma toy_cap_inj i j : cap toy_random i = cap toy_random j -> i = j.
Proof. apply (toy_hex_inj 32). lia. Qed.

Definition ring : BackgroundCallState :=
  {| session_id := "s"; call_id := "c"; phase := Incoming; expires_at_ms := 9; sender := "bob"; binding := "" |}.
Definition ring_sync := sync_background_calls Fragments.toy_sha toy_random "me" [ring].
Definition ring_take := take_background_call_action Fragments.toy_sha toy_random (cap toy_random 1) "me" ring 5.
Definition ringing : Store.Persistence := (ring_sync (new_store [])).1.
Definition answered : Store.Persistence := (ring_take ringing).1.

Lemma capability_once_witness :
  ring_take ringing = (answered, Ok (Some Answer)) /\ (ring_take answered).2 <> Ok (Some Answer).
Proof.
  assert (Ht : ring_take ringing = (answered, Ok (Some Answer))).
  { unfold answered. assert (H : (ring_take ringing).2 = Ok (Some Answer)) by (vm_compute; reflexivity).
    destruct (ring_take ringing). cbn in *. by subst. }
  split; [exact Ht|].
  refine (proj2 (proj2 (proj2 (capability_once Fragments.toy_sha toy_random toy_cap_inj
    (cap toy_random 1) "me" ring 5 (new_store []) ringing answered Answer _ _ Ht))) answered "me" ring 5%N Answer (rtc_refl _ _)).
  - reflexivity.
  - apply rtc_once, (step_sync Fragments.toy_sha toy_random).
Defined.

Lemma sync_exact_witness :
  ring_sync (new_store []) = (ringing, Ok tt) /\
  exists r, ledger ringing !! call_key Fragments.toy_sha ring = Some r /\ owner r = "me" /\ state r = ring.
Proof.
  assert (Hs : ring_sync (new_store []) = (ringing, Ok tt)).
  { unfold ringing. assert (H : (ring_sync (new_store [])).2 = Ok tt) by (vm_compute; reflexivity).
    destruct (ring_sync (new_store [])). cbn in *. by subst. }
  split; [exact Hs|].
  apply (proj1 (sync_exact Fragments.toy_sha toy_random toy_cap_inj "me" [ring] (new_store []) ringing Hs ltac:(done)
    (NoDup_singleton _)) ring); [by left|done].
Defined.

End CallButtons.
