(* ===== verification/UserTransfers.v ===== *)
(** * UserTransfers: uploads and downloads the user asked for
      ([persistence/user_transfers.rs] and its modules)

    An upload or a download is admitted once, on disk, before anything moves,
    and survives restarts: its record, the chunks of it that were already
    authenticated, and a bounded index of what the operating system should be
    shown.  The records, the index and the chunks are typed rows of the
    background table.  Telling the platform that the table changed
    ([background_delivery_changed]) is not modelled. *)
From S2P Require Import Prelude Store Attachments Slots Fragments Deletion Rows ReadMarks Ledger CallButtons.

Module UserTransfers.
Import Store Rows Ledger.

#[local] Open Scope mosh_scope.
#[local] Set Default Proof Using "Type".

#[local] Existing Instances CallButtons.BridgeConversationRef_eq_dec CallButtons.BridgeConversationKind_eq_dec.

(** ** Data ([types.rs]) *)

Abbreviation Ref := CallButtons.BridgeConversationRef.
Abbreviation Manifest := Attachments.AttachmentManifest.
Abbreviation ChunkFrame := Attachments.ChunkFrame.

Inductive UserTransferDirection := Upload | Download.
#[export] Instance UserTransferDirection_eq_dec : EqDecision UserTransferDirection.
Proof. solve_decision. Defined.
Inductive UserTransferState :=
| Prepared | WaitingReceiver | WaitingExecution | Running | Paused | Complete | Failed | Cancelled.
#[export] Instance UserTransferState_eq_dec : EqDecision UserTransferState.
Proof. solve_decision. Defined.

Record UserTransfer := {
  t_id : string; target : Ref; t_attachment_id : option string; direction : UserTransferDirection;
  t_state : UserTransferState; completed_bytes : N; total_bytes : N; revision : N;
}.
Record Receiver := { expires_ms : N; r_complete : bool }.
Record TransferRecord := { view : UserTransfer; manifest : option Manifest; receivers : gmap string Receiver }.
(** [current.rs]: an entry of the index. *)
Record Current := { c_view : UserTransfer; updated_ms : N }.

Definition with_state (st : UserTransferState) (done : N) (v : UserTransfer) : UserTransfer :=
  {| t_id := t_id v; target := target v; t_attachment_id := t_attachment_id v; direction := direction v;
     t_state := st; completed_bytes := done; total_bytes := total_bytes v; revision := revision v |}.
Definition with_revision (rev : N) (v : UserTransfer) : UserTransfer :=
  {| t_id := t_id v; target := target v; t_attachment_id := t_attachment_id v; direction := direction v;
     t_state := t_state v; completed_bytes := completed_bytes v; total_bytes := total_bytes v; revision := rev |}.
Definition with_attachment (a : string) (v : UserTransfer) : UserTransfer :=
  {| t_id := t_id v; target := target v; t_attachment_id := Some a; direction := direction v;
     t_state := t_state v; completed_bytes := completed_bytes v; total_bytes := total_bytes v; revision := revision v |}.
Definition with_view (v : UserTransfer) (r : TransferRecord) : TransferRecord :=
  {| view := v; manifest := manifest r; receivers := receivers r |}.
Definition with_receivers (rs : gmap string Receiver) (r : TransferRecord) : TransferRecord :=
  {| view := view r; manifest := manifest r; receivers := rs |}.

(** ** Keys *)

Definition PREFIX : string := "transfer" +:+ "/".
Definition PREFIX_END : string := "transfer" +:+ "0".
Definition CURRENT : string := "transfer-current" +:+ "/".
Definition CURRENT_END : string := "transfer-current" +:+ "0".
Definition CHUNKS : string := "transfer-chunk" +:+ "/".

Definition invalid {A} (m : string) : result PersistenceError A := Err (Json m).

(** [key]. *)
Definition row_key (id : string) : result PersistenceError string :=
  match strip_prefix "transfer-" id with
  | None => invalid "invalid transfer identity"
  | Some suffix =>
      if negb (CallButtons.lower_hex 32 suffix) then invalid "invalid transfer identity" else Ok (PREFIX +:+ suffix)
  end.

(** [{index:016x}] of a [u64]. *)
Fixpoint hex_fixed (w : nat) (n : N) : string :=
  match w with O => "" | S w => hex_fixed w (n / 16) +:+ String (hex_digit (n mod 16)) "" end.

Definition chunk_start (id : string) : string := (CHUNKS +:+ id) +:+ "/".
Definition chunk_end (id : string) : string := (CHUNKS +:+ id) +:+ "0".
Definition chunk_key (id : string) (index : N) : result PersistenceError string :=
  _ ← row_key id; Ok (chunk_start id +:+ hex_fixed 16 index).

Definition quiescent (st : UserTransferState) : bool :=
  match st with Running | WaitingExecution | Paused => false | _ => true end.

Definition revision_exhausted : PersistenceError := Json "transfer revision exhausted".

Section UserTransfers.
Context {aes : Aes} {record_codec : RowCodec TransferRecord} {current_codec : RowCodec Current} {chunk_codec : RowCodec ChunkFrame}.
(** [rand::random]: so many bytes at each draw. *)
Variable random : nat -> nat -> bytes.

(** ** The index ([current.rs]) *)

(** Entries the index may give up, oldest first. *)
Definition quiet_entry (own : string) (kv : string * Current) : option (N * string) :=
  if quiescent (t_state (c_view kv.2)) && negb (String.eqb (t_id (c_view kv.2)) own)
  then Some (updated_ms kv.2, kv.1) else None.
Definition oldest (l : list (N * string)) : list (N * string) := sort_by_key (lex_le N.le String.le) id l.

Definition write_current_transfer (now : N) (v : UserTransfer) : tx unit :=
  t_store (CURRENT +:+ t_id v) {| c_view := v; updated_ms := now |};;;
  if negb (quiescent (t_state v)) then m_ret tt
  else
    rows <~ t_range CURRENT CURRENT_END;;
    let quiet := omap (quiet_entry (t_id v)) rows in
    each (fun e => t_drop e.2) (take (length quiet - 63) (oldest quiet)).

Definition remove_current_transfer (id : string) : tx unit := t_drop (CURRENT +:+ id).

(** Rows of one type, read outside a transaction. *)
Definition read_range {T} {codec : RowCodec T} (start stop : string) (s : Store.Persistence) : result PersistenceError (list T) :=
  d ← begin_read s;
  l ← decode_all (dek s) (rows_in start stop d);
  Ok (map snd l).

Definition current_user_transfers (s : Store.Persistence) : result PersistenceError (list UserTransfer) :=
  l ← read_range (T := Current) CURRENT CURRENT_END s; Ok (map c_view l).

(** ** Admissions ([user_transfers.rs]) *)

Definition same_transfer (tgt : Ref) (dir : UserTransferDirection) (attachment : string) (r : TransferRecord) : bool :=
  bool_decide (target (view r) = tgt) && bool_decide (direction (view r) = dir)
  && bool_decide (t_attachment_id (view r) = Some attachment).
Fixpoint first_transfer (K : bytes) (p : TransferRecord -> bool) (l : list (string * bytes))
  : result PersistenceError (option TransferRecord) :=
  match l with
  | [] => Ok None
  | kv :: l => r ← decoded K kv.2; if p r then Ok (Some r) else first_transfer K p l
  end.
Definition matching_user_transfer (tgt : Ref) (dir : UserTransferDirection) (attachment : option string)
  : tx (option TransferRecord) := fun d =>
  match attachment with
  | None => (d, Ok None)
  | Some a => (d, first_transfer (key d) (same_transfer tgt dir a) (rows_in PREFIX PREFIX_END (tables d)))
  end.

Definition new_name : tx string := b <~ t_random random 16;; m_ret ("transfer-" +:+ hex_string b).
Definition fresh_transfer (id : string) (tgt : Ref) (dir : UserTransferDirection) (attachment : option string) (total : N)
  : TransferRecord :=
  {| view := {| t_id := id; target := tgt; t_attachment_id := attachment; direction := dir; t_state := Prepared;
                completed_bytes := 0; total_bytes := total; revision := 0 |};
     manifest := None; receivers := ∅ |}.

(** The next revision of a record, stored with its entry of the index. *)
Definition store_next (k : string) (now : N) (r : TransferRecord) : tx UserTransfer :=
  rev <~ m_lift (ok_or (checked_add64 (revision (view r)) 1) revision_exhausted);;
  let r := with_view (with_revision rev (view r)) r in
  t_store k r;;; write_current_transfer now (view r);;; m_ret (view r).

Definition prepare_tx (tgt : Ref) (dir : UserTransferDirection) (attachment : option string) (total now : N)
  : tx UserTransfer :=
  existing <~ matching_user_transfer tgt dir attachment;;
  if bool_decide (dir = Upload) && bool_decide (is_Some attachment) && bool_decide (existing = None)
  then m_lift (invalid "upload has no local Send admission")
  else
    r <~ match existing with
         | Some r => m_ret r
         | None => id <~ new_name;; m_ret (fresh_transfer id tgt dir attachment total)
         end;;
    if negb (total_bytes (view r) =? total)%N then m_lift (invalid "transfer size changed")
    else
      k <~ m_lift (row_key (t_id (view r)));;
      store_next k now (with_view (with_state Prepared (completed_bytes (view r)) (view r)) r).

Definition admissible (tgt : Ref) (dir : UserTransferDirection) (attachment : option string) (total : N) : bool :=
  negb (String.eqb (CallButtons.ref_id tgt) "") && (str_len (CallButtons.ref_id tgt) <=? 512)%N
  && (0 <? total)%N && (total <=? Attachments.MAX_ATTACHMENT_SIZE)%N
  && match dir, attachment with Download, (None | Some "") => false | _, _ => true end.

Definition prepare_user_transfer (tgt : Ref) (dir : UserTransferDirection) (attachment : option string) (total now : N)
  : method Store.Persistence PersistenceError UserTransfer := fun s =>
  if negb (admissible tgt dir attachment total) then (s, invalid "invalid user attachment admission")
  else transact (prepare_tx tgt dir attachment total now) s.

Definition user_transfer (id : string) (s : Store.Persistence) : result PersistenceError (option TransferRecord) :=
  k ← row_key id;
  o ← p_get BACKGROUND_DELIVERY k s;
  match o with None => Ok None | Some b => r ← decode b; Ok (Some r) end.
Definition user_transfers (s : Store.Persistence) : result PersistenceError (list UserTransfer) :=
  l ← read_range (T := TransferRecord) PREFIX PREFIX_END s; Ok (map view l).

(** ** Changing one record *)

Definition update_tx (k : string) (now : N) (update : TransferRecord -> result PersistenceError TransferRecord) : tx unit :=
  row <~ background_tx_row k;;
  r <~ m_lift (ok_or row (Json "unknown user attachment admission"));;
  previous <~ m_lift (encode r);;
  r <~ m_lift (update r);;
  b <~ m_lift (encode r);;
  if bool_decide (b = previous) then m_ret tt else store_next k now r;;; m_ret tt.
Definition update_user_transfer (id : string) (now : N) (update : TransferRecord -> result PersistenceError TransferRecord)
  : method Store.Persistence PersistenceError unit :=
  k <~ m_lift (row_key id);; transact (update_tx k now update).

Definition differs {A} `{EqDecision A} (o : option A) (a : A) : bool :=
  match o with Some v => negb (bool_decide (v = a)) | None => false end.

Definition bind (tgt : Ref) (m : Manifest) (r : TransferRecord) : result PersistenceError TransferRecord :=
  if negb (bool_decide (target (view r) = tgt)) || negb (total_bytes (view r) =? Attachments.total_size m)%N
     || differs (t_attachment_id (view r)) (Attachments.attachment_id m)
     || differs (Attachments.content_hash <$> manifest r) (Attachments.content_hash m)
  then invalid "attachment admission binding mismatch"
  else
    let v := with_attachment (Attachments.attachment_id m) (view r) in
    let st := if bool_decide (direction v = Upload) then WaitingReceiver else WaitingExecution in
    Ok {| view := with_state st (completed_bytes v) v; manifest := Some m; receivers := receivers r |}.
Definition bind_user_transfer (id : string) (tgt : Ref) (m : Manifest) (now : N)
  : method Store.Persistence PersistenceError unit := update_user_transfer id now (bind tgt m).

Definition set_state (st : UserTransferState) (r : TransferRecord) : result PersistenceError TransferRecord :=
  let done := if bool_decide (st = Complete) then total_bytes (view r) else completed_bytes (view r) in
  Ok (with_view (with_state st done (view r)) r).
Definition set_user_transfer_state (id : string) (st : UserTransferState) (now : N)
  : method Store.Persistence PersistenceError unit := update_user_transfer id now (set_state st).

Definition not_admitted (r : TransferRecord) : bool :=
  negb (bool_decide (direction (view r) = Upload)) || bool_decide (t_state (view r) = Cancelled).
Definition fresh_at (now : N) (x : Receiver) : bool := (now <=? expires_ms x)%N.

(** A receiver asked for the upload, or says that it has all of it. *)
Definition remember_receiver (k : string) (expires : N) (complete : bool) (now : N) (r : TransferRecord)
  : result PersistenceError TransferRecord :=
  if not_admitted r then invalid "upload is not admitted"
  else if complete then
    match receivers r !! k with
    | None => invalid "unknown receiver request"
    | Some x =>
        if (expires_ms x <? now)%N then invalid "receiver request expired"
        else
          let rs := <[ k := {| expires_ms := expires_ms x; r_complete := true |} ]> (receivers r) in
          let r := with_receivers rs r in
          if bool_decide (map_Forall (fun _ x => fresh_at now x = true -> r_complete x = true) rs)
          then Ok (with_view (with_state Complete (total_bytes (view r)) (view r)) r) else Ok r
    end
  else
    let rs := filter (fun kv => fresh_at now kv.2 = true) (receivers r) in
    if (64 <=? size rs)%nat && bool_decide (rs !! k = None) then invalid "too many simultaneous transfer receivers"
    else Ok (with_receivers (<[ k := {| expires_ms := expires; r_complete := false |} ]> rs) r).
(** The clock is read for the receivers, and again for the index. *)
Definition remember_user_transfer_receiver (id receiver token : string) (expires : N) (complete : bool) (now now' : N)
  : method Store.Persistence PersistenceError unit :=
  update_user_transfer id now' (remember_receiver (receiver +:+ "/" +:+ token) expires complete now).

Definition upload_progress (n : N) (complete : bool) (r : TransferRecord) : result PersistenceError TransferRecord :=
  if not_admitted r then invalid "upload is not admitted"
  else Ok (with_view (with_state (if complete then Complete else Running) (N.min n (total_bytes (view r))) (view r)) r).
Definition record_user_upload_progress (id : string) (n : N) (complete : bool) (now : N)
  : method Store.Persistence PersistenceError unit := update_user_transfer id now (upload_progress n complete).

(** ** Checkpoints ([checkpoints.rs]) *)

(** What one chunk adds; release builds wrap. *)
Definition chunk_len (m : Manifest) (i : N) : N :=
  N.min (Attachments.chunk_size m)
        (wrapping_sub64 (Attachments.total_size m) (wrapping_mul64 i (Attachments.chunk_size m))).

Definition unbound {A} : result PersistenceError A := invalid "invalid user transfer chunk binding".

Fixpoint save_frames (id : string) (m : Manifest) (frames : list ChunkFrame) (added : N) : tx N :=
  match frames with
  | [] => m_ret added
  | f :: frames =>
      if negb (String.eqb (Attachments.attachment_id m) (Attachments.cf_attachment_id f))
         || (Attachments.chunk_count m <=? Attachments.chunk_index f)%N
      then m_lift unbound
      else
        k <~ m_lift (chunk_key id (Attachments.chunk_index f));;
        row <~ background_tx_row (T := ChunkFrame) k;;
        match row with
        | Some _ => save_frames id m frames added
        | None => t_store k f;;; save_frames id m frames (wrapping_add64 added (chunk_len m (Attachments.chunk_index f)))
        end
  end.

Definition save_tx (id k : string) (frames : list ChunkFrame) (now : N) : tx unit :=
  row <~ background_tx_row k;;
  r <~ m_lift (ok_or row (Json "unknown user transfer checkpoint"));;
  m <~ m_lift (ok_or (manifest r) (Json "unbound user transfer"));;
  if negb (bool_decide (direction (view r) = Download)) || bool_decide (t_state (view r) = Cancelled)
     || bool_decide (t_state (view r) = Complete)
  then m_lift unbound
  else
    added <~ save_frames id m frames 0;;
    if (added =? 0)%N then m_ret tt
    else
      let done := N.min (saturating_add64 (completed_bytes (view r)) added) (total_bytes (view r)) in
      store_next k now (with_view (with_state (t_state (view r)) done (view r)) r);;; m_ret tt.
Definition save_user_transfer_chunks (id : string) (frames : list ChunkFrame) (now : N)
  : method Store.Persistence PersistenceError unit :=
  k <~ m_lift (row_key id);; transact (save_tx id k frames now).

Definition user_transfer_chunks (id : string) (s : Store.Persistence) : result PersistenceError (list ChunkFrame) :=
  _ ← row_key id; read_range (T := ChunkFrame) (chunk_start id) (chunk_end id) s.

(** ** Removal *)

(** Rows of the table between two keys, whatever they say. *)
Definition drop_range (start stop : string) : tx unit := fun d =>
  each t_drop (rows_in start stop (tables d)).*1 d.

Definition remove_tx (id k : string) : tx unit :=
  drop_range (chunk_start id) (chunk_end id);;; t_drop k;;; remove_current_transfer id.
Definition remove_user_transfer (id : string) : method Store.Persistence PersistenceError unit :=
  k <~ m_lift (row_key id);; transact (remove_tx id k).

Definition bridge_kind (t : HistoryTables) : CallButtons.BridgeConversationKind :=
  if String.eqb (outbound_scope t) "private_dm" then CallButtons.Dm
  else if String.eqb (outbound_scope t) "private_group" then CallButtons.Group else CallButtons.Channel.

Definition belongs (t : HistoryTables) (id : string) (r : TransferRecord) : bool :=
  bool_decide (CallButtons.kind (target (view r)) = bridge_kind t) && String.eqb (CallButtons.ref_id (target (view r))) id.
Definition remove_found (id : string) : tx unit :=
  k <~ m_lift (row_key id);; t_drop k;;; remove_current_transfer id;;; drop_range (chunk_start id) (chunk_end id).
Definition delete_conversation_transfers (t : HistoryTables) (id : string) : tx unit :=
  rows <~ t_range (T := TransferRecord) PREFIX PREFIX_END;;
  each remove_found (map (fun kv => t_id (view kv.2)) (filter (fun kv => belongs t id kv.2 = true) rows)).

(** The index, repaired at start-up for rows of older versions. *)
Definition restore_current_transfer_index (now : string -> N) : method Store.Persistence PersistenceError unit :=
  present <~ (fun s => (s, current_user_transfers s));;
  all <~ (fun s => (s, user_transfers s));;
  let missing := filter (fun v => quiescent (t_state v) = false /\ t_id v ∉ map t_id present) all in
  if bool_decide (missing = []) then m_ret tt
  else transact (each (fun v => write_current_transfer (now (t_id v)) v) missing).

(** ** Deleting a conversation ([history.rs]) *)

Definition CONVERSATION_RECOVERY : string := "conversation_recovery".
Definition CONVERSATION_OCCURRENCES : string := "conversation_occurrences".

Definition delete_tx (t : HistoryTables) (id : string) : tx unit :=
  delete_conversation_transfers t id;;;
  t_update (conversations t) id None;;;
  t_update ReadMarks.READ_MARKS (ReadMarks.read_mark_key t id) None;;;
  match snapshots t with Some snapshot => t_update snapshot id None | None => m_ret tt end;;;
  t_delete_prefix (messages t) id;;;
  t_delete_prefix CONVERSATION_RECOVERY (kind_of (outbound_scope t) +:+ ":" +:+ id);;;
  t_delete_prefix CONVERSATION_OCCURRENCES (label t +:+ ":" +:+ id);;;
  t_delete_prefix OUTBOUND_ATTEMPTS (outbound_attempt_prefix (outbound_scope t) id).
Definition delete_conversation (t : HistoryTables) (id : string) : method Store.Persistence PersistenceError unit :=
  transact (delete_tx t id).

(** ** Keys do not meet *)

Lemma row_key_Ok id k : row_key id = Ok k -> exists suffix, id = "transfer-" +:+ suffix /\ k = PREFIX +:+ suffix /\
  String.length suffix = 32.
Proof.
  unfold row_key. destruct (strip_prefix "transfer-" id) as [suffix|] eqn:Hs; [|done].
  destruct (CallButtons.lower_hex 32 suffix) eqn:Hh; [|done]. intros [= <-]. exists suffix.
  apply strip_prefix_Some in Hs. split; [done|]. split; [done|]. unfold CallButtons.lower_hex in Hh.
  apply andb_true_iff in Hh as [Hl%N.eqb_eq _]. unfold str_len in Hl. lia.
Qed.
Lemma transfer_key_inj i j k : row_key i = Ok k -> row_key j = Ok k -> i = j.
Proof.
  intros (s & -> & -> & _)%row_key_Ok (s' & -> & Hk & _)%row_key_Ok. apply (inj (String.append _)) in Hk. congruence.
Qed.
Lemma row_key_length id k : row_key id = Ok k -> String.length id = 41.
Proof. intros (s & -> & _ & Hl)%row_key_Ok. change (9 + String.length s = 41). by rewrite Hl. Qed.

Lemma record_in k id : row_key id = Ok k -> in_range PREFIX PREFIX_END k = true.
Proof. intros (s & _ & -> & _)%row_key_Ok. apply slash_range_iff. by exists s. Qed.
Lemma current_in id : in_range CURRENT CURRENT_END (CURRENT +:+ id) = true.
Proof. apply slash_range_iff. by exists id. Qed.

Lemma record_not_current k id : row_key id = Ok k -> in_range CURRENT CURRENT_END k = false.
Proof. intros (s & _ & -> & _)%row_key_Ok. apply not_true_iff_false. intros [x Hx]%slash_range_iff. discriminate Hx. Qed.
Lemma record_not_chunk k id j : row_key id = Ok k -> in_range (chunk_start j) (chunk_end j) k = false.
Proof. intros (s & _ & -> & _)%row_key_Ok. apply not_true_iff_false. intros [x Hx]%slash_range_iff. discriminate Hx. Qed.
Lemma current_not_record id : in_range PREFIX PREFIX_END (CURRENT +:+ id) = false.
Proof. apply not_true_iff_false. intros [x Hx]%slash_range_iff. discriminate Hx. Qed.
Lemma current_not_chunk id j : in_range (chunk_start j) (chunk_end j) (CURRENT +:+ id) = false.
Proof. apply not_true_iff_false. intros [x Hx]%slash_range_iff. discriminate Hx. Qed.
Lemma current_only k : in_range CURRENT CURRENT_END k = true ->
  in_range PREFIX PREFIX_END k = false /\ forall j, in_range (chunk_start j) (chunk_end j) k = false.
Proof.
  intros [x ->]%slash_range_iff. change ("transfer-current" +:+ "/" +:+ x) with (CURRENT +:+ x).
  split; [apply current_not_record|intros j; apply current_not_chunk].
Qed.
Lemma chunk_not_record id x : in_range PREFIX PREFIX_END (chunk_start id +:+ x) = false.
Proof. apply not_true_iff_false. intros [y Hy]%slash_range_iff. discriminate Hy. Qed.
Lemma chunk_not_current id x : in_range CURRENT CURRENT_END (chunk_start id +:+ x) = false.
Proof. apply not_true_iff_false. intros [y Hy]%slash_range_iff. discriminate Hy. Qed.
Lemma chunk_in id x : in_range (chunk_start id) (chunk_end id) (chunk_start id +:+ x) = true.
Proof. apply slash_range_iff. exists x. unfold chunk_start. by rewrite append_assoc. Qed.

Lemma append_inj_length (a b x y : string) : String.length a = String.length b -> a +:+ x = b +:+ y -> a = b.
Proof.
  revert b. induction a as [|c a IH]; intros [|c' b]; [done..|]. intros [= Hl]. rewrite !append_cons. intros [= -> He].
  f_equal. by apply IH.
Qed.
Lemma chunk_apart i j k k' x : row_key i = Ok k -> row_key j = Ok k' ->
  in_range (chunk_start j) (chunk_end j) (chunk_start i +:+ x) = true -> i = j.
Proof.
  intros Hi%row_key_length Hj%row_key_length [y Hy]%slash_range_iff. unfold chunk_start in Hy. rewrite !append_assoc in Hy.
  apply (inj (String.append _)) in Hy. apply append_inj_length in Hy; [done|]. by rewrite Hi, Hj.
Qed.
(** A key in the range of one transfer's chunks is in no other range. *)
Lemma chunk_only i k x : row_key i = Ok k -> in_range (chunk_start i) (chunk_end i) x = true ->
  in_range PREFIX PREFIX_END x = false /\ in_range CURRENT CURRENT_END x = false /\
  forall j k', row_key j = Ok k' -> i <> j -> in_range (chunk_start j) (chunk_end j) x = false.
Proof.
  intros Hi [y ->]%slash_range_iff. replace ((CHUNKS +:+ i) +:+ "/" +:+ y) with (chunk_start i +:+ y)
    by (unfold chunk_start; by rewrite append_assoc).
  split; [apply chunk_not_record|]. split; [apply chunk_not_current|]. intros j k' Hj Hne.
  apply not_true_iff_false. intros Hr. by apply Hne, (chunk_apart i j k k' y).
Qed.

Lemma hex_fixed_length w n : String.length (hex_fixed w n) = w.
Proof. revert n. induction w as [|w IH]; intros n; [done|]. cbn [hex_fixed]. rewrite append_length, IH. cbn. lia. Qed.
Lemma hex_digit_inj a b : (a < 16)%N -> (b < 16)%N -> hex_digit a = hex_digit b -> a = b.
Proof.
  intros Ha Hb. unfold hex_digit. do 2 case_match; intros He%(f_equal byte_at); revert He; unfold byte_at;
    repeat match goal with H : (_ <? _)%N = true |- _ => apply N.ltb_lt in H | H : (_ <? _)%N = false |- _ => apply N.ltb_ge in H end;
    rewrite !Ascii.N_ascii_embedding by lia; lia.
Qed.
Lemma append_inj_tail (x y : string) c d : x +:+ String c "" = y +:+ String d "" -> x = y /\ c = d.
Proof.
  revert y. induction x as [|a x IH]; intros [|b y]; cbn.
  - by intros [= ->].
  - intros [= -> He]. by destruct y.
  - intros [= -> He]. by destruct x.
  - intros [= -> He]. apply IH in He as [-> ->]. done.
Qed.
Lemma hex_fixed_inj w a b : (a < 16 ^ N.of_nat w)%N -> (b < 16 ^ N.of_nat w)%N -> hex_fixed w a = hex_fixed w b -> a = b.
Proof.
  revert a b. induction w as [|w IH]; intros a b Ha Hb; [cbn in *; lia|]. cbn [hex_fixed]. intros [Hw Hd]%append_inj_tail.
  apply hex_digit_inj in Hd; [|apply N.mod_lt; lia..].
  assert (Hpow : (16 ^ N.of_nat (S w) = 16 * 16 ^ N.of_nat w)%N) by (rewrite Nat2N.inj_succ, N.pow_succ_r'; done).
  rewrite Hpow in Ha, Hb. apply IH in Hw; [|apply N.Div0.div_lt_upper_bound; lia..].
  rewrite (N.div_mod a 16), (N.div_mod b 16) by lia. congruence.
Qed.
Lemma chunk_key_Ok id i key : chunk_key id i = Ok key -> exists k, row_key id = Ok k /\ key = chunk_start id +:+ hex_fixed 16 i.
Proof. unfold chunk_key. intros (k & Hk & [= <-])%bind_Ok. by exists k. Qed.
Lemma chunk_key_inj id i j key : is_u64 i -> is_u64 j -> chunk_key id i = Ok key -> chunk_key id j = Ok key -> i = j.
Proof.
  intros Hi Hj (k & _ & ->)%chunk_key_Ok (k' & _ & He)%chunk_key_Ok. apply (inj (String.append _)) in He.
  assert (Hpow : (16 ^ N.of_nat 16 = 18446744073709551616)%N) by (vm_compute; reflexivity).
  unfold is_u64, u64_max in *. apply (hex_fixed_inj 16) in He; [done|lia..].
Qed.

(** ** What the rows say *)

Definition recs (d : Draft) : gmap string TransferRecord := typed_in PREFIX PREFIX_END d.
Definition index (d : Draft) : gmap string Current := typed_in CURRENT CURRENT_END d.
Definition chunks (id : string) (d : Draft) : gmap string ChunkFrame := typed_in (chunk_start id) (chunk_end id) d.

(** What an operation that does not concern the table leaves. *)
Record untouched (d d' : Draft) : Prop := {
  un_key : key d' = key d;
  un_draws : draws d <= draws d';
  un_recs : recs d' = recs d;
  un_index : index d' = index d;
  un_chunks id : chunks id d' = chunks id d;
}.
#[local] Instance untouched_pre : PreOrder untouched.
Proof. split; [by split|]. intros d1 d2 d3 [? ? ? ? H1] [? ? ? ? H2]. split; [congruence|lia|congruence..|]. intros id. by rewrite H2, H1. Qed.

Lemma untouched_table {A} tb (op : tx A) d d' r : frame (in_table tb) op -> rising op -> tb <> BACKGROUND_DELIVERY ->
  op d = (d', r) -> untouched d d'.
Proof.
  intros Hf Hr Hne Hop. destruct (Hr _ _ _ Hop) as [Hn Hk]. split; [done|done|..]; intros; by eapply table_elsewhere.
Qed.

Context {aes_laws : AesLaws} {record_laws : RowCodecLaws TransferRecord} {current_laws : RowCodecLaws Current}
  {chunk_laws : RowCodecLaws ChunkFrame}.
#[local] Set Default Proof Using "Type*".

Lemma store_record id k r d d' : row_key id = Ok k -> t_store k r d = (d', Ok tt) ->
  key d' = key d /\ draws d <= draws d' /\ recs d' = <[ k := r ]> (recs d) /\ index d' = index d /\
  forall j, chunks j d' = chunks j d.
Proof.
  intros Hk Hs. destruct (rising_store k r _ _ _ Hs) as [Hn _].
  pose proof (typed_store PREFIX PREFIX_END _ _ _ _ Hs) as [Hkey Hr]. rewrite (record_in _ _ Hk) in Hr.
  split; [done|]. split; [done|]. split; [done|]. split; [|intros j]; (eapply (store_elsewhere (T' := TransferRecord)); [|exact Hs]).
  - by eapply record_not_current.
  - by eapply record_not_chunk.
Qed.
Lemma store_current id c d d' : t_store (CURRENT +:+ id) c d = (d', Ok tt) ->
  key d' = key d /\ draws d <= draws d' /\ recs d' = recs d /\ index d' = <[ CURRENT +:+ id := c ]> (index d) /\
  forall j, chunks j d' = chunks j d.
Proof.
  intros Hs. destruct (rising_store _ c _ _ _ Hs) as [Hn _].
  pose proof (typed_store CURRENT CURRENT_END _ _ _ _ Hs) as [Hkey Hr]. rewrite (current_in id) in Hr.
  split; [done|]. split; [done|]. split; [|split; [done|intros j]]; (eapply (store_elsewhere (T' := Current)); [|exact Hs]).
  - apply current_not_record.
  - apply current_not_chunk.
Qed.
Lemma store_chunk id k i f d d' x : row_key id = Ok k -> chunk_key id i = Ok x -> t_store x f d = (d', Ok tt) ->
  key d' = key d /\ draws d <= draws d' /\ recs d' = recs d /\ index d' = index d /\
  chunks id d' = <[ x := f ]> (chunks id d) /\
  forall j k', row_key j = Ok k' -> j <> id -> chunks j d' = chunks j d.
Proof.
  intros Hk (k0 & _ & ->)%chunk_key_Ok Hs. destruct (rising_store _ f _ _ _ Hs) as [Hn _].
  destruct (chunk_only id k _ Hk (chunk_in id (hex_fixed 16 i))) as (Hr & Hc & Ho).
  pose proof (typed_store (chunk_start id) (chunk_end id) _ _ _ _ Hs) as [Hkey Hch]. rewrite chunk_in in Hch.
  split; [done|]. split; [done|]. split; [by eapply (store_elsewhere (T' := ChunkFrame))|]. split; [by eapply (store_elsewhere (T' := ChunkFrame))|].
  split; [done|]. intros j k' Hj Hne. eapply (store_elsewhere (T' := ChunkFrame)); [|exact Hs]. by eapply Ho.
Qed.

(** ** The bounded index *)

Definition index_keyed (d : Draft) : Prop := forall k c, index d !! k = Some c -> k = CURRENT +:+ t_id (c_view c).
Definition quiet_rows (m : gmap string Current) : gmap string Current :=
  filter (fun kv => quiescent (t_state (c_view kv.2)) = true) m.

Lemma size_cover {A} (m : gmap string A) (l : list string) : (forall k, is_Some (m !! k) -> k ∈ l) -> size m <= length l.
Proof.
  intros Hl. rewrite <-size_dom. apply submseteq_length, NoDup_submseteq; [apply NoDup_elements|].
  intros k Hk%elem_of_elements%elem_of_dom. by apply Hl.
Qed.

Record indexed (now : N) (v : UserTransfer) (d d' : Draft) : Prop := {
  ix_key : key d' = key d;
  ix_draws : draws d <= draws d';
  ix_recs : recs d' = recs d;
  ix_chunks id : chunks id d' = chunks id d;
  ix_own : index d' !! (CURRENT +:+ t_id v) = Some {| c_view := v; updated_ms := now |};
  ix_old k c : k <> CURRENT +:+ t_id v -> index d' !! k = Some c -> index d !! k = Some c;
  ix_live k c : k <> CURRENT +:+ t_id v -> index d !! k = Some c -> quiescent (t_state (c_view c)) = false ->
    index d' !! k = Some c;
  ix_quiet : size (quiet_rows (index d)) <= 64 -> size (quiet_rows (index d')) <= 64;
}.

Lemma omap_quiet own (rows : list (string * Current)) x : x ∈ omap (quiet_entry own) rows <->
  exists c, (x.2, c) ∈ rows /\ updated_ms c = x.1 /\ quiescent (t_state (c_view c)) = true /\ t_id (c_view c) <> own.
Proof.
  rewrite list_elem_of_omap. unfold quiet_entry. split.
  - intros ([k c] & Hin & He). cbn in He. destruct (quiescent _) eqn:Hq; cbn in He; [|done].
    destruct (String.eqb_spec (t_id (c_view c)) own) as [?|Hne]; cbn in He; [done|]. injection He as <-. by exists c.
  - destruct x as [t k]. cbn. intros (c & Hin & <- & Hq & Hne%String.eqb_neq). exists (k, c). cbn. by rewrite Hq, Hne.
Qed.

Lemma write_current_Ok now v d d' : index_keyed d -> write_current_transfer now v d = (d', Ok tt) -> indexed now v d d'.
Proof.
  intros Hkeyed. unfold write_current_transfer. intros (d1 & [] & (Hk1 & Hn1 & Hr1 & Hi1 & Hc1)%store_current & Hrest)%m_bind_Ok.
  destruct (quiescent (t_state v)) eqn:Hq; cbn [negb] in Hrest.
  2: { injection Hrest as <-. split; try done.
       - rewrite Hi1. apply lookup_insert_eq.
       - intros k c Hne. by rewrite Hi1, lookup_insert_ne.
       - intros k c Hne Hc _. by rewrite Hi1, lookup_insert_ne.
       - intros Hsz. etrans; [|exact Hsz]. rewrite <-!size_dom. apply subseteq_size. intros k.
         unfold quiet_rows. rewrite !elem_of_dom, Hi1. intros [c [Hc Hcq]%map_lookup_filter_Some]. cbn in Hcq.
         apply lookup_insert_Some in Hc as [[<- <-]|[Hne Hc]]; [cbn in Hcq; congruence|].
         exists c. by apply map_lookup_filter_Some. }
  apply m_bind_Ok in Hrest as (d2 & rows & Hrange & Hdrop). injection Hrange as <- Hrows. cbn zeta in Hdrop.
  set (quiet := omap (quiet_entry (t_id v)) rows) in *. set (gone := take (length quiet - 63) (oldest quiet)) in *.
  rewrite <-(each_fmap t_drop snd gone) in Hdrop. set (ks := snd <$> gone) in *.
  pose proof (decode_all_typed _ _ _ _ _ Hrows) as [Hnd Hin].
  assert (Hgone : forall k, k ∈ ks -> exists c, index d1 !! k = Some c /\ quiescent (t_state (c_view c)) = true /\ t_id (c_view c) <> t_id v).
  { intros k ([u k'] & -> & Hx)%list_elem_of_fmap. unfold gone in Hx. apply elem_of_take in Hx as (j & Hx & _).
    apply list_elem_of_lookup_2 in Hx. unfold oldest in Hx. rewrite sort_by_key_perm in Hx.
    apply omap_quiet in Hx as (c & Hc & _ & Hcq & Hne). exists c. split; [by apply Hin|done]. }
  assert (Hown : CURRENT +:+ t_id v ∉ ks).
  { intros (c & Hc & _ & Hne)%Hgone. rewrite Hi1, lookup_insert_eq in Hc. by injection Hc as <-. }
  pose proof (drops_Ok (T := Current) _ _ _ _ Hdrop) as (_ & Hk2 & Hn2 & Ht2).
  pose proof (drops_Ok (T := TransferRecord) _ _ _ _ Hdrop) as (_ & _ & _ & Htr).
  pose proof (drops_Ok (T := ChunkFrame) _ _ _ _ Hdrop) as (_ & _ & _ & Htc).
  assert (Hrange : forall k, k ∈ ks -> in_range CURRENT CURRENT_END k = true)
    by (intros k (c & [Hr _]%typed_lookup & _)%Hgone; exact Hr).
  split.
  - congruence.
  - lia.
  - rewrite <-Hr1. apply map_eq. intros k. unfold recs. rewrite Htr. case_decide as Hks; [|done].
    destruct (typed_in PREFIX PREFIX_END d1 !! k) as [r|] eqn:Hr; [|done]. exfalso.
    apply Hrange, current_only in Hks as [Hks _]. apply typed_lookup in Hr as [Hr _]. congruence.
  - intros id. rewrite <-Hc1. apply map_eq. intros k. unfold chunks. rewrite Htc. case_decide as Hks; [|done].
    destruct (typed_in (chunk_start id) (chunk_end id) d1 !! k) as [r|] eqn:Hr; [|done]. exfalso.
    apply Hrange, current_only in Hks as [_ Hks]. apply typed_lookup in Hr as [Hr _]. by rewrite Hks in Hr.
  - unfold index. rewrite Ht2, decide_False by done. fold (index d1). rewrite Hi1. apply lookup_insert_eq.
  - intros k c Hne. unfold index at 1. rewrite Ht2. case_decide; [done|]. fold (index d1). by rewrite Hi1, lookup_insert_ne.
  - intros k c Hne Hc Hl. unfold index. rewrite Ht2. fold (index d1). rewrite decide_False.
    + by rewrite Hi1, lookup_insert_ne.
    + intros (c' & Hc' & Hcq & _)%Hgone. rewrite Hi1, lookup_insert_ne in Hc' by done. congruence.
  - intros _. etrans; [apply (size_cover _ ((CURRENT +:+ t_id v) :: (drop (length quiet - 63) (oldest quiet)).*2))|].
    + intros k [c [Hc Hcq]%map_lookup_filter_Some]. cbn in Hcq. unfold index in Hc. rewrite Ht2 in Hc. case_decide as Hks; [done|].
      destruct (decide (k = CURRENT +:+ t_id v)) as [->|Hne]; [by left|right].
      assert (Hq' : (updated_ms c, k) ∈ oldest quiet).
      { unfold oldest. rewrite sort_by_key_perm. apply omap_quiet. exists c. cbn. split; [by apply Hin|]. split; [done|]. split; [done|].
        intros He. apply Hne. rewrite <-He. apply Hkeyed. fold (index d1) in Hc. by rewrite Hi1, lookup_insert_ne in Hc. }
      rewrite <-(take_drop (length quiet - 63) (oldest quiet)) in Hq'. apply elem_of_app in Hq' as [Hq'|Hq'].
      * destruct Hks. apply list_elem_of_fmap. by exists (updated_ms c, k).
      * apply list_elem_of_fmap. by exists (updated_ms c, k).
    + cbn. rewrite length_fmap, length_drop. unfold oldest. rewrite sort_by_key_perm. lia.
Qed.

(** ** The state of the table *)

Definition name (i : nat) : string := "transfer-" +:+ hex_string (random 16 i).

(** One record: bounded, complete where it must be, bound to one file. *)
Record rec_ok (r : TransferRecord) : Prop := {
  ro_target : CallButtons.ref_id (target (view r)) <> "" /\ (str_len (CallButtons.ref_id (target (view r))) <= 512)%N;
  ro_total : (0 < total_bytes (view r) <= Attachments.MAX_ATTACHMENT_SIZE)%N;
  ro_done : (completed_bytes (view r) <= total_bytes (view r))%N;
  ro_bound m : manifest r = Some m -> t_attachment_id (view r) = Some (Attachments.attachment_id m) /\
    Attachments.total_size m = total_bytes (view r);
  ro_down : direction (view r) = Download -> (exists a, t_attachment_id (view r) = Some a /\ a <> "") /\ receivers r = ∅;
  ro_receivers : size (receivers r) <= 64;
}.

(** What never changes about a record, short of its state and progress. *)
Record grows (r r' : TransferRecord) : Prop := {
  gr_id : t_id (view r') = t_id (view r);
  gr_target : target (view r') = target (view r);
  gr_direction : direction (view r') = direction (view r);
  gr_total : total_bytes (view r') = total_bytes (view r);
  gr_attachment a : t_attachment_id (view r) = Some a -> t_attachment_id (view r') = Some a;
  gr_manifest m : manifest r = Some m -> exists m', manifest r' = Some m' /\
    Attachments.attachment_id m' = Attachments.attachment_id m /\ Attachments.content_hash m' = Attachments.content_hash m;
}.
#[local] Instance grows_pre : PreOrder grows.
Proof.
  split; [split; eauto|]. intros r1 r2 r3 [? ? ? ? Ha1 Hm1] [? ? ? ? Ha2 Hm2]. split; try congruence; [auto|].
  intros m (m2 & Hm & ? & ?)%Hm1. apply Hm2 in Hm as (m3 & Hm & ? & ?). exists m3. split; [done|]. split; congruence.
Qed.

(** A revision names one content. *)
Definition descends (r r' : TransferRecord) : Prop := grows r r' /\ (r' = r \/ (revision (view r) < revision (view r'))%N).
#[local] Instance descends_pre : PreOrder descends.
Proof.
  split; [split; [done|by left]|]. intros r1 r2 r3 [H1 Hr1] [H2 Hr2]. split; [by etrans|].
  destruct Hr1 as [->|Hr1], Hr2 as [->|Hr2]; [by left|by right..|right; lia].
Qed.

Record book_sound (d : Draft) : Prop := {
  bk_rec k r : recs d !! k = Some r -> rec_ok r /\ row_key (t_id (view r)) = Ok k /\
    exists i, i < draws d /\ t_id (view r) = name i;
  bk_index k c : index d !! k = Some c -> k = CURRENT +:+ t_id (c_view c) /\
    exists k' r, row_key (t_id (c_view c)) = Ok k' /\ recs d !! k' = Some r /\ view r = c_view c;
  bk_quiet : size (quiet_rows (index d)) <= 64;
  bk_chunks id k x f : row_key id = Ok k -> chunks id d !! x = Some f ->
    chunk_key id (Attachments.chunk_index f) = Ok x /\
    exists r m, recs d !! k = Some r /\ direction (view r) = Download /\ manifest r = Some m /\
      Attachments.attachment_id m = Attachments.cf_attachment_id f;
}.
(** Whatever runs or waits to run is shown. *)
Definition live_shown (d : Draft) : Prop := forall k r, recs d !! k = Some r -> quiescent (t_state (view r)) = false ->
  is_Some (index d !! (CURRENT +:+ t_id (view r))).
Definition book_ok (d : Draft) : Prop := book_sound d /\ live_shown d.

(** From one table to a later one: records descend or go, and none that is gone
    comes back under its name. *)
Definition passes (d d' : Draft) : Prop := draws d <= draws d' /\
  forall i k, i < draws d -> row_key (name i) = Ok k ->
    match recs d !! k with
    | None => recs d' !! k = None
    | Some r => recs d' !! k = None \/ exists r', recs d' !! k = Some r' /\ descends r r'
    end.
#[local] Instance passes_pre : PreOrder passes.
Proof.
  split.
  - intros d. split; [done|]. intros i k _ _. destruct (recs d !! k) as [r|]; [right; by exists r|done].
  - intros d1 d2 d3 [Hn1 H1] [Hn2 H2]. split; [lia|]. intros i k Hi Hk. specialize (H1 i k Hi Hk).
    assert (i < draws d2) as Hi2 by lia. specialize (H2 i k Hi2 Hk). destruct (recs d1 !! k) as [r|].
    + destruct H1 as [H1|(r2 & H1 & Hd1)]; rewrite H1 in H2; [by left|].
      destruct H2 as [H2|(r3 & H2 & Hd2)]; [by left|right]. exists r3. split; [done|]. by etrans.
    + by rewrite H1 in H2.
Qed.

Lemma untouched_ok d d' : untouched d d' -> book_ok d -> book_ok d' /\ passes d d'.
Proof.
  intros [Hk Hn Hr Hi Hc] [[H1 H2 H3 H4] Hl]. split; [split; [split|]|].
  - intros k r. rewrite Hr. intros (Ho & Hk' & i & Hi' & Hna)%H1. split; [done|]. split; [done|]. exists i. split; [lia|done].
  - intros k c. rewrite Hi, Hr. apply H2.
  - by rewrite Hi.
  - intros id k x f. rewrite Hc, Hr. apply H4.
  - intros k r. rewrite Hr, Hi. apply Hl.
  - split; [done|]. intros i k _ _. rewrite Hr. destruct (recs d !! k) as [r|]; [right; by exists r|done].
Qed.

Lemma book_keyed d : book_sound d -> index_keyed d.
Proof. intros [_ H _ _] k c (-> & _)%H. done. Qed.

(** The entry of the index follows a record that was changed, or appeared. *)
Lemma record_written now k r d d1 d' : book_ok d -> row_key (t_id (view r)) = Ok k -> rec_ok r ->
  (exists i, i < draws d /\ t_id (view r) = name i) ->
  match recs d !! k with Some r0 => descends r0 r | None => True end ->
  draws d <= draws d1 -> recs d1 = <[ k := r ]> (recs d) -> index d1 = index d -> (forall id, chunks id d1 = chunks id d) ->
  indexed now (view r) d1 d' -> book_ok d'.
Proof.
  intros [[H1 H2 H3 H4] Hl] Hk Hok (i & Hi & Hname) Hdesc Hn Hr1 Hi1 Hc1 [_ Hn' Hr' Hc' Hown Hold Hlive Hquiet].
  assert (Hkey : forall c, CURRENT +:+ t_id c = CURRENT +:+ t_id (view r) -> t_id c = t_id (view r))
    by (intros c He; by apply (inj (String.append _)) in He).
  split; [split|].
  - intros k' r'. rewrite Hr', Hr1. intros [[<- <-]|[_ (Ho & Hrk & j & Hj & Hna)%H1]]%lookup_insert_Some.
    + split; [done|]. split; [done|]. exists i. split; [lia|done].
    + split; [done|]. split; [done|]. exists j. split; [lia|done].
  - intros k' c Hc. destruct (decide (k' = CURRENT +:+ t_id (view r))) as [->|Hne].
    { rewrite Hown in Hc. injection Hc as <-. cbn. split; [done|]. exists k, r. rewrite Hr', Hr1, lookup_insert_eq. done. }
    apply Hold in Hc; [|done]. rewrite Hi1 in Hc. apply H2 in Hc as (-> & k2 & r2 & Hk2 & Hr2 & Hv). split; [done|].
    exists k2, r2. split; [done|]. rewrite Hr', Hr1, lookup_insert_ne; [done|]. intros <-. apply Hne.
    by rewrite (transfer_key_inj _ _ _ Hk2 Hk).
  - apply Hquiet. by rewrite Hi1.
  - intros id k' x f Hid. rewrite Hc', Hc1. intros Hx. destruct (H4 id k' x f Hid Hx) as (Hcx & r2 & m & Hr2 & Hd & Hm & Ha).
    split; [done|]. rewrite Hr', Hr1. destruct (decide (k' = k)) as [->|Hne].
    + rewrite lookup_insert_eq. rewrite Hr2 in Hdesc. destruct Hdesc as [[_ _ Hdir _ _ Hman] _].
      destruct (Hman _ Hm) as (m' & Hm' & Ha' & _). exists r, m'. split; [done|]. split; [congruence|]. split; [done|congruence].
    + rewrite lookup_insert_ne by done. by exists r2, m.
  - intros k' r'. rewrite Hr', Hr1. intros [[<- <-]|[Hne Hr2]]%lookup_insert_Some Hq; [by eexists|].
    destruct (Hl _ _ Hr2 Hq) as [c Hc]. exists c.
    destruct (H2 _ _ Hc) as (He & k2 & r2 & Hk2 & Hr2' & Hv). apply Hlive; [|by rewrite Hi1|].
    + intros He'%Hkey. apply Hne. destruct (H1 _ _ Hr2) as (_ & Hk' & _). rewrite He' in Hk'. congruence.
    + apply (inj (String.append _)) in He. destruct (H1 _ _ Hr2) as (_ & Hk' & _). rewrite <-He in Hk2. rewrite Hk' in Hk2.
      injection Hk2 as <-. rewrite Hr2 in Hr2'. injection Hr2' as <-. by rewrite <-Hv.
Qed.

(** A record and its entry go, with all its chunks. *)
Lemma record_gone k id d d' : row_key id = Ok k -> draws d <= draws d' -> recs d' = delete k (recs d) ->
  index d' = delete (CURRENT +:+ id) (index d) -> chunks id d' = ∅ ->
  (forall j k', row_key j = Ok k' -> j <> id -> chunks j d' = chunks j d) -> book_ok d -> book_ok d' /\ passes d d'.
Proof.
  intros Hk Hn Hr Hi Hc Hcs [[H1 H2 H3 H4] Hl]. split; [split; [split|]|].
  - intros k' r. rewrite Hr. intros [_ (Ho & Hk' & i & Hi' & Hna)%H1]%lookup_delete_Some.
    split; [done|]. split; [done|]. exists i. split; [lia|done].
  - intros k' c. rewrite Hi. intros [Hne (-> & k2 & r & Hk2 & Hr2 & Hv)%H2]%lookup_delete_Some. split; [done|].
    exists k2, r. split; [done|]. split; [|done]. rewrite Hr. apply lookup_delete_Some. split; [|done].
    intros <-. apply Hne. by rewrite (transfer_key_inj _ _ _ Hk2 Hk).
  - etrans; [|exact H3]. rewrite <-!size_dom. apply subseteq_size. intros k'. unfold quiet_rows. rewrite !elem_of_dom, Hi.
    intros [c [[_ Hc']%lookup_delete_Some Hq]%map_lookup_filter_Some]. exists c. by apply map_lookup_filter_Some.
  - intros j k' x f Hj Hx. destruct (decide (j = id)) as [->|Hne]; [by rewrite Hc in Hx|].
    rewrite (Hcs j k' Hj Hne) in Hx. destruct (H4 j k' x f Hj Hx) as (Hcx & r & m & Hr2 & Hd & Hm & Ha).
    split; [done|]. exists r, m. split; [|done]. rewrite Hr. apply lookup_delete_Some. split; [|done].
    intros <-. by apply Hne, (transfer_key_inj _ _ k).
  - intros k' r. rewrite Hr. intros [Hne Hr2]%lookup_delete_Some Hq. destruct (Hl _ _ Hr2 Hq) as [c Hc2]. exists c.
    rewrite Hi, lookup_delete_ne; [done|]. intros He%(inj (String.append _)). apply Hne.
    destruct (H1 _ _ Hr2) as (_ & Hk' & _). rewrite <-He in Hk'. congruence.
  - split; [done|]. intros i k' _ _. rewrite Hr. destruct (decide (k' = k)) as [->|Hne].
    + rewrite lookup_delete_eq. destruct (recs d !! k); [by left|done].
    + rewrite lookup_delete_ne by done. destruct (recs d !! k') as [r|]; [right; by exists r|done].
Qed.

(** ** Operations on one record *)

Definition bumped (r : TransferRecord) : TransferRecord := with_view (with_revision (revision (view r) + 1) (view r)) r.

Lemma bumped_ok r : rec_ok r -> rec_ok (bumped r).
Proof. by intros []. Qed.
Lemma bumped_descends r0 r : grows r0 r -> revision (view r) = revision (view r0) -> descends r0 (bumped r).
Proof. intros [] Hr. split; [by split|]. right. cbn. lia. Qed.

Lemma passes_insert k r d d' : draws d <= draws d' -> recs d' = <[ k := r ]> (recs d) ->
  match recs d !! k with
  | Some r0 => descends r0 r
  | None => forall i, i < draws d -> row_key (name i) <> Ok k
  end -> passes d d'.
Proof.
  intros Hn Hr Hk. split; [done|]. intros i k' Hi Hk'. rewrite Hr. destruct (decide (k' = k)) as [->|Hne].
  - rewrite lookup_insert_eq. destruct (recs d !! k) as [r0|]; [right; by exists r|]. by destruct (Hk i Hi).
  - rewrite lookup_insert_ne by done. destruct (recs d !! k') as [r0|]; [right; by exists r0|done].
Qed.

Lemma store_next_Ok k now r d d' v : store_next k now r d = (d', Ok v) -> book_ok d -> row_key (t_id (view r)) = Ok k -> rec_ok r ->
  (exists i, i < draws d /\ t_id (view r) = name i) ->
  match recs d !! k with Some r0 => grows r0 r /\ revision (view r) = revision (view r0) | None => True end ->
  book_ok d' /\ v = view (bumped r) /\ key d' = key d /\ draws d <= draws d' /\ recs d' = <[ k := bumped r ]> (recs d) /\
  forall j, chunks j d' = chunks j d.
Proof.
  intros Hop Hb Hk Hok Hname Hold. unfold store_next in Hop. apply m_bind_Ok in Hop as (d0 & rev & [= <- Hrev%ok_or_Ok] & Hop).
  assert (rev = revision (view r) + 1)%N as ->.
  { unfold checked_add64 in Hrev. destruct (_ <=? _)%N; [|done]. by injection Hrev as <-. }
  apply m_bind_Ok in Hop as (d1 & [] & (Hk1 & Hn1 & Hr1 & Hi1 & Hc1)%(store_record (t_id (view r))) & Hop); [|done].
  apply m_bind_Ok in Hop as (d2 & [] & Hw & [= <- <-]). fold (bumped r) in Hr1, Hw |- *.
  apply write_current_Ok in Hw.
  2: { intros k' c. rewrite Hi1. by apply (book_keyed _ (proj1 Hb)). }
  assert (Hb' : book_ok d2).
  { eapply (record_written now k (bumped r) d d1); [done|done|by apply bumped_ok|done| |done..].
    destruct (recs d !! k) as [r0|]; [|done]. destruct Hold. by apply bumped_descends. }
  destruct Hw as [Hk2 Hn2 Hr2 Hc2 _ _ _ _]. split; [done|]. split; [done|]. split; [congruence|]. split; [lia|].
  split; [congruence|]. intros j. by rewrite Hc2.
Qed.

Definition sound (update : TransferRecord -> result PersistenceError TransferRecord) : Prop :=
  forall r r', rec_ok r -> update r = Ok r' -> rec_ok r' /\ grows r r' /\ revision (view r') = revision (view r).

Lemma row_found k id d d' row : row_key id = Ok k -> background_tx_row k d = (d', Ok row) -> d' = d /\ row = recs d !! k.
Proof.
  intros Hk (-> & Hrow)%background_tx_row_Ok. split; [done|]. symmetry. destruct row as [r|].
  - destruct Hrow as (b & Hb & Hd). apply typed_lookup. split; [by eapply record_in|]. by exists b.
  - apply eq_None_not_Some. intros [r (_ & b & Hb & _)%typed_lookup]. congruence.
Qed.

Lemma update_Ok id k now update d d' : sound update -> row_key id = Ok k -> update_tx k now update d = (d', Ok tt) ->
  book_ok d -> book_ok d' /\ passes d d'.
Proof.
  intros Hs Hk Hop Hb. unfold update_tx in Hop. apply m_bind_Ok in Hop as (d1 & row & [-> Hrow]%(row_found _ id) & Hop); [|done].
  apply m_bind_Ok in Hop as (d1 & r & [= <- Hr%ok_or_Ok] & Hop). rewrite Hr in Hrow. symmetry in Hrow. clear row Hr.
  apply m_bind_Ok in Hop as (d1 & prev & [= <- Hprev] & Hop). apply m_bind_Ok in Hop as (d1 & r' & [= <- Hu] & Hop).
  apply m_bind_Ok in Hop as (d1 & b & [= <- Henc] & Hop).
  case_bool_decide; [by injection Hop as <-|]. apply m_bind_Ok in Hop as (d1 & v & Hst & [= <-]).
  destruct (bk_rec _ (proj1 Hb) _ _ Hrow) as (Hok & Hk' & i & Hi & Hname).
  destruct (Hs _ _ Hok Hu) as (Hok' & Hg & Hrev). pose proof (gr_id _ _ Hg) as Hid.
  apply store_next_Ok in Hst as (Hb' & _ & _ & Hn & Hr & _); [| |by rewrite Hid|done| |].
  - split; [done|]. eapply passes_insert; [done|exact Hr|]. rewrite Hrow. by apply bumped_descends.
  - done.
  - exists i. by rewrite Hid.
  - by rewrite Hrow.
Qed.

Lemma bind_sound tgt m : sound (bind tgt m).
Proof.
  intros r r' Hok. unfold bind. destruct (negb (bool_decide (target (view r) = tgt))) eqn:Ht; [done|].
  destruct (negb (total_bytes (view r) =? Attachments.total_size m)%N) eqn:Hn; [done|]. apply negb_false_iff, N.eqb_eq in Hn.
  cbn [orb]. destruct (differs (t_attachment_id (view r)) _) eqn:Ha; [done|]. destruct (differs (_ <$> manifest r) _) eqn:Hc; [done|].
  cbn [orb]. intros [= <-]. destruct Hok as [H1 H2 H3 H4 H5 H6].
  assert (Hatt : forall a, t_attachment_id (view r) = Some a -> a = Attachments.attachment_id m).
  { intros a Ha'. rewrite Ha' in Ha. cbn in Ha. by apply negb_false_iff, bool_decide_eq_true in Ha. }
  split; [split|split; [split|]]; cbn; try done.
  - by intros m' [= <-].
  - intros Hd. destruct (H5 Hd) as [(a & Ha' & Hne) He]. split; [|done]. exists a. split; [by rewrite <-(Hatt a Ha')|done].
  - intros a Ha'. by rewrite <-(Hatt a Ha').
  - intros m0 Hm0. exists m. split; [done|]. split.
    + destruct (H4 _ Hm0) as [Ha' _]. by rewrite (Hatt _ Ha').
    + rewrite Hm0 in Hc. cbn in Hc. apply negb_false_iff, bool_decide_eq_true in Hc. done.
Qed.
Lemma set_state_sound st : sound (set_state st).
Proof.
  intros r r' [H1 H2 H3 H4 H5 H6] [= <-]. split; [split|split; [split|]]; cbn; try done; [|by eauto].
  case_bool_decide; [lia|done].
Qed.
Lemma progress_sound n complete : sound (upload_progress n complete).
Proof.
  intros r r' [H1 H2 H3 H4 H5 H6]. unfold upload_progress. destruct (not_admitted r); [done|]. intros [= <-].
  split; [split|split; [split|]]; cbn; try done; [lia|by eauto].
Qed.
Lemma receivers_sound rs st done r : rec_ok r -> direction (view r) = Upload -> size rs <= 64 -> (done <= total_bytes (view r))%N ->
  let r' := with_view (with_state st done (view r)) (with_receivers rs r) in
  rec_ok r' /\ grows r r' /\ revision (view r') = revision (view r).
Proof.
  intros [H1 H2 H3 H4 H5 H6] Hd Hsz Hdone. split; [split|split; [split|]]; cbn; try done; [congruence|by eauto].
Qed.
Lemma with_state_id r : with_view (with_state (t_state (view r)) (completed_bytes (view r)) (view r)) r = r.
Proof. by destruct r as [[]]. Qed.
Lemma remember_sound k expires complete now : sound (remember_receiver k expires complete now).
Proof.
  intros r r' Hok. unfold remember_receiver. destruct (not_admitted r) eqn:Hna; [done|].
  assert (Hd : direction (view r) = Upload).
  { unfold not_admitted in Hna. apply orb_false_iff in Hna as [Hna _]. by apply negb_false_iff, bool_decide_eq_true in Hna. }
  destruct complete.
  - destruct (receivers r !! k) as [x|] eqn:Hx; [|done]. destruct (_ <? _)%N; [done|].
    assert (Hsz : size (<[ k := {| expires_ms := expires_ms x; r_complete := true |} ]> (receivers r)) <= 64).
    { rewrite map_size_insert_Some by by eexists. apply Hok. }
    case_bool_decide; intros [= <-].
    + by apply receivers_sound.
    + rewrite <-(with_state_id (with_receivers _ r)).
      apply (receivers_sound _ (t_state (view r)) (completed_bytes (view r)) r); try done. apply Hok.
  - destruct (_ && _) eqn:Hfull; [done|]. intros [= <-]. rewrite <-(with_state_id (with_receivers _ r)).
    apply (receivers_sound _ (t_state (view r)) (completed_bytes (view r)) r); try done; [|apply Hok]. set (rs := filter _ (receivers r)) in *.
    assert (Hle : size rs <= 64).
    { etrans; [|apply Hok]. rewrite <-!size_dom. apply subseteq_size. intros k'. unfold rs.
      rewrite !elem_of_dom. intros [x [Hx _]%map_lookup_filter_Some]. by eexists. }
    destruct (rs !! k) as [x|] eqn:Hk.
    + by rewrite map_size_insert_Some by by eexists.
    + rewrite map_size_insert_None by done. apply andb_false_iff in Hfull as [Hf|Hf].
      * apply Nat.leb_gt in Hf. lia.
      * by apply bool_decide_eq_false in Hf.
Qed.

(** ** Admitting *)

Lemma first_transfer_Ok K p l r : first_transfer K p l = Ok (Some r) -> p r = true /\ exists k row, (k, row) ∈ l /\ decoded K row = Ok r.
Proof.
  induction l as [|[k row] l IH]; cbn [first_transfer]; [done|]. intros (r0 & Hr0 & He)%bind_Ok. cbn in Hr0.
  destruct (p r0) eqn:Hp.
  - injection He as <-. split; [done|]. exists k, row. split; [by left|done].
  - destruct (IH He) as (Hp' & k' & row' & Hin & Hd). split; [done|]. exists k', row'. split; [by right|done].
Qed.
Lemma matching_Ok tgt dir a d d' o : matching_user_transfer tgt dir a d = (d', Ok o) -> d' = d /\
  forall r, o = Some r -> target (view r) = tgt /\ direction (view r) = dir /\ t_attachment_id (view r) = a /\
    exists k, recs d !! k = Some r.
Proof.
  unfold matching_user_transfer. destruct a as [a|]; [|by intros [= <- <-]]. intros [= <- Ho]. split; [done|].
  intros r ->. apply first_transfer_Ok in Ho as [Hp (k & row & Hin & Hd)]. unfold same_transfer in Hp.
  apply andb_true_iff in Hp as [[Ht Hdir]%andb_true_iff Ha]. apply bool_decide_eq_true in Ht, Hdir, Ha.
  split; [done|]. split; [done|]. split; [done|]. exists k. apply rows_in_lookup in Hin as [Hr Hrow].
  apply typed_lookup. split; [done|]. by exists row.
Qed.

Hypothesis name_inj : forall i j, name i = name j -> i = j.

Lemma fresh_ok id tgt dir a total : admissible tgt dir a total = true ->
  rec_ok (fresh_transfer id tgt dir a total).
Proof.
  unfold admissible. rewrite !andb_true_iff, negb_true_iff, String.eqb_neq, !N.leb_le, N.ltb_lt.
  intros [[[[H1 H2] H3] H4] H5]. split; cbn; [done|lia|lia|done| |by vm_compute; lia].
  intros ->. split; [|done]. destruct a as [[|c a]|]; [done| |done]. by exists (String c a).
Qed.

Lemma prepare_book tgt dir a total now d d' v : admissible tgt dir a total = true -> prepare_tx tgt dir a total now d = (d', Ok v) ->
  book_ok d -> book_ok d' /\ passes d d'.
Proof.
  intros Hadm Hop Hb. unfold prepare_tx in Hop. apply m_bind_Ok in Hop as (d1 & ex & [-> Hex]%matching_Ok & Hop).
  destruct (_ && _); [done|]. apply m_bind_Ok in Hop as (d1 & r & Hnew & Hop).
  destruct (negb _) eqn:Htot; [done|]. apply negb_false_iff, N.eqb_eq in Htot.
  apply m_bind_Ok in Hop as (d2 & k & [= <- Hk] & Hst).
  set (r1 := with_view (with_state Prepared (completed_bytes (view r)) (view r)) r) in *.
  assert (Hprep : rec_ok r -> rec_ok r1 /\ grows r r1 /\ revision (view r1) = revision (view r)).
  { intros [H1 H2 H3 H4 H5 H6]. split; [split|split; [split|]]; cbn; try done; by eauto. }
  destruct ex as [r0|].
  - injection Hnew as <- <-. destruct (Hex r0 eq_refl) as (_ & _ & _ & k0 & Hr0).
    destruct (bk_rec _ (proj1 Hb) _ _ Hr0) as (Hok & Hk0 & Hname). assert (k0 = k) as -> by congruence.
    destruct (Hprep Hok) as (Hok1 & Hg & Hrev).
    apply store_next_Ok in Hst as (Hb' & _ & _ & Hn & Hr & _); [|done|done|done|done|by rewrite Hr0].
    split; [done|]. eapply passes_insert; [done|exact Hr|]. rewrite Hr0. by apply bumped_descends.
  - apply m_bind_Ok in Hnew as (d2 & id & Hid & [= <- <-]). unfold new_name in Hid.
    apply m_bind_Ok in Hid as (d3 & b & [= <- <-] & [= <- <-]). fold (name (draws d)) in *.
    set (d1 := {| key := key d; tables := tables d; draws := S (draws d) |}) in *.
    assert (Hu : untouched d d1) by (split; cbn; try done; lia).
    destruct (untouched_ok _ _ Hu Hb) as [Hb1 Hp1].
    assert (Hno : recs d1 !! k = None).
    { destruct (recs d1 !! k) as [r0|] eqn:Hr0; [exfalso|done]. assert (Hr0' : recs d !! k = Some r0) by exact Hr0.
      apply (bk_rec _ (proj1 Hb)) in Hr0' as (_ & Hk0 & i & Hi & Hname). cbn in Hk.
      pose proof (transfer_key_inj _ _ _ Hk0 Hk) as He. rewrite Hname in He. apply name_inj in He. lia. }
    destruct (Hprep (fresh_ok _ _ _ _ _ Hadm)) as (Hok1 & _ & _).
    apply store_next_Ok in Hst as (Hb' & _ & _ & Hn & Hr & _); [|done|done|done| |by rewrite Hno].
    2: { exists (draws d). cbn. split; [lia|done]. }
    split; [done|]. eapply passes_insert; [cbn in Hn; lia|exact Hr|]. change (recs d1) with (recs d) in Hno. rewrite Hno.
    intros i Hi Hki. cbn in Hk. pose proof (transfer_key_inj _ _ _ Hki Hk) as He. apply name_inj in He. lia.
Qed.

(** ** Saving chunks *)

Definition indexed_by (id : string) (f : ChunkFrame) : string * ChunkFrame :=
  (chunk_start id +:+ hex_fixed 16 (Attachments.chunk_index f), f).
Definition gained (m : Manifest) (added : N) (new : list ChunkFrame) : N :=
  foldl (fun n f => wrapping_add64 n (chunk_len m (Attachments.chunk_index f))) added new.

(** The frames that were not there yet, in the order they came. *)
Record saved (id : string) (m : Manifest) (frames new : list ChunkFrame) (C C' : gmap string ChunkFrame) : Prop := {
  sv_bound f : f ∈ frames -> Attachments.cf_attachment_id f = Attachments.attachment_id m /\
    (Attachments.chunk_index f < Attachments.chunk_count m)%N;
  sv_new : new `sublist_of` frames;
  sv_fresh : NoDup (indexed_by id <$> new).*1 /\ forall f, f ∈ new -> C !! (indexed_by id f).1 = None;
  sv_rows : C' = list_to_map (indexed_by id <$> new) ∪ C;
  sv_all f : f ∈ frames -> is_Some (C' !! (indexed_by id f).1);
}.

Lemma save_frames_Ok id k m frames added n d d' : row_key id = Ok k -> save_frames id m frames added d = (d', Ok n) ->
  key d' = key d /\ draws d <= draws d' /\ recs d' = recs d /\ index d' = index d /\
  (forall j k', row_key j = Ok k' -> j <> id -> chunks j d' = chunks j d) /\
  exists new, saved id m frames new (chunks id d) (chunks id d') /\ n = gained m added new.
Proof.
  intros Hk. revert added d. induction frames as [|f frames IH]; intros added d; cbn [save_frames].
  { intros [= <- <-]. do 5 (split; [done|]). exists []. split; [|done]. split; try done.
    - by intros f Hf%not_elem_of_nil.
    - split; [constructor|]. by intros f Hf%not_elem_of_nil.
    - cbn. by rewrite map_empty_union.
    - by intros f Hf%not_elem_of_nil. }
  destruct (negb _ || _) eqn:Hb; [done|]. apply orb_false_iff in Hb as [Ha%negb_false_iff%String.eqb_eq Hc%N.leb_gt].
  intros Hop. apply m_bind_Ok in Hop as (d1 & x & [= <- Hx] & Hop).
  pose proof Hx as (k0 & _ & Hxe)%chunk_key_Ok.
  apply m_bind_Ok in Hop as (d1 & row & (-> & Hrow)%background_tx_row_Ok & Hop).
  assert (Hlook : row = chunks id d !! x).
  { symmetry. destruct row as [f0|].
    - destruct Hrow as (b & Hb & Hd). apply typed_lookup. rewrite Hxe, chunk_in. split; [done|]. rewrite <-Hxe. by exists b.
    - apply eq_None_not_Some. intros [f0 (_ & b & Hb & _)%typed_lookup]. congruence. }
  assert (Hkey : (indexed_by id f).1 = x) by by rewrite Hxe.
  destruct row as [f0|].
  - apply IH in Hop as (? & ? & ? & ? & ? & new & [H1 H2 H3 H4 H5] & ->). do 5 (split; [done|]). exists new. split; [|done].
    split; try done; [|by apply sublist_cons| ].
    + intros g [->|Hg]%elem_of_cons; [by split|by apply H1].
    + intros g [->|Hg]%elem_of_cons; [|by apply H5]. rewrite Hkey, H4. apply lookup_union_is_Some. right. by rewrite <-Hlook.
  - apply m_bind_Ok in Hop as (d1 & [] & (Hk1 & Hn1 & Hr1 & Hi1 & Hc1 & Ho1)%(store_chunk id k (Attachments.chunk_index f)) & Hop);
      [|done..].
    apply IH in Hop as (Hk2 & Hn2 & Hr2 & Hi2 & Ho2 & new & [H1 H2 [H3 H3'] H4 H5] & ->).
    split; [congruence|]. split; [lia|]. split; [congruence|]. split; [congruence|].
    split; [intros j k' Hj Hne; by rewrite (Ho2 j k'), (Ho1 j k')|]. exists (f :: new). split; [|done].
    assert (Hnew : forall g, g ∈ new -> (indexed_by id g).1 <> x).
    { intros g Hg He. specialize (H3' g Hg). by rewrite Hc1, He, lookup_insert_eq in H3'. }
    split.
    + intros g [->|Hg]%elem_of_cons; [by split|by apply H1].
    + by apply sublist_skip.
    + split.
      * rewrite !fmap_cons. apply NoDup_cons. split; [|done]. rewrite Hkey. intros (p & Hp & (g & -> & Hg)%list_elem_of_fmap)%list_elem_of_fmap.
        by apply (Hnew g).
      * intros g [->|Hg]%elem_of_cons; [by rewrite Hkey|]. specialize (H3' g Hg). rewrite Hc1, lookup_insert_ne in H3'; [done|].
        intros He. by apply (Hnew g Hg).
    + rewrite H4, Hc1. rewrite fmap_cons. destruct (indexed_by id f) as [x' f'] eqn:Hif. cbn in Hkey. subst x'.
      assert (f' = f) as -> by by injection Hif as _ <-. cbn [list_to_map foldr]. rewrite <-insert_union_l, <-insert_union_r; [done|].
      apply not_elem_of_list_to_map_1. intros (p & Hp & (g & -> & Hg)%list_elem_of_fmap)%list_elem_of_fmap.
      by apply (Hnew g).
    + intros g [->|Hg]%elem_of_cons; [|by apply H5]. rewrite Hkey, H4. apply lookup_union_is_Some. right. rewrite Hc1, lookup_insert_eq. by eexists.
Qed.

Lemma frames_kept id k r m frames added n d d' : book_ok d -> recs d !! k = Some r -> row_key id = Ok k ->
  direction (view r) = Download -> manifest r = Some m -> save_frames id m frames added d = (d', Ok n) ->
  book_ok d' /\ passes d d'.
Proof.
  intros [[H1 H2 H3 H4] Hl] Hr Hk Hd Hm (_ & Hn & Hr' & Hi' & Ho & new & Hs & _)%(save_frames_Ok _ k); [|done].
  split; [split; [split|]|].
  - intros k' r'. rewrite Hr'. intros (Hok & Hk' & i & Hi & Hna)%H1. split; [done|]. split; [done|]. exists i. split; [lia|done].
  - intros k' c. rewrite Hi', Hr'. apply H2.
  - by rewrite Hi'.
  - intros j k' x f Hj Hx. rewrite Hr'. destruct (decide (j = id)) as [->|Hne]; [|rewrite (Ho j k') in Hx by done; by eapply H4].
    assert (k' = k) as -> by congruence. rewrite (sv_rows _ _ _ _ _ _ Hs) in Hx.
    apply lookup_union_Some_raw in Hx as [Hx|[_ Hx]]; [|by eapply H4].
    apply elem_of_list_to_map_2, list_elem_of_fmap in Hx as (g & He & Hg). injection He as -> ->.
    split; [unfold chunk_key; by rewrite Hk|]. exists r, m. split; [done|]. split; [done|]. split; [done|].
    destruct (sv_bound _ _ _ _ _ _ Hs g) as [-> _]; [|done]. by eapply elem_of_sublist, (sv_new _ _ _ _ _ _ Hs).
  - intros k' r'. rewrite Hr', Hi'. apply Hl.
  - split; [done|]. intros i k' _ _. rewrite Hr'. destruct (recs d !! k'); [right; by eexists|done].
Qed.

(** What a checkpoint adds to its record. *)
Definition checkpointed (n : N) (r : TransferRecord) : TransferRecord :=
  bumped (with_view (with_state (t_state (view r)) (N.min (saturating_add64 (completed_bytes (view r)) n) (total_bytes (view r)))
                       (view r)) r).

Record checkpoint (id k : string) (frames : list ChunkFrame) (d d' : Draft) (r : TransferRecord) (m : Manifest)
    (new : list ChunkFrame) : Prop := {
  cp_record : recs d !! k = Some r;
  cp_manifest : manifest r = Some m;
  cp_running : direction (view r) = Download /\ t_state (view r) <> Cancelled /\ t_state (view r) <> Complete;
  cp_saved : saved id m frames new (chunks id d) (chunks id d');
  cp_recs : recs d' = if (gained m 0 new =? 0)%N then recs d else <[ k := checkpointed (gained m 0 new) r ]> (recs d);
  cp_others j k' : row_key j = Ok k' -> j <> id -> chunks j d' = chunks j d;
}.

Lemma save_Ok id k frames now d d' : row_key id = Ok k -> save_tx id k frames now d = (d', Ok tt) -> book_ok d ->
  book_ok d' /\ passes d d' /\ exists r m new, checkpoint id k frames d d' r m new.
Proof.
  intros Hk Hop Hb. unfold save_tx in Hop. apply m_bind_Ok in Hop as (d1 & row & [-> Hrow]%(row_found _ id) & Hop); [|done].
  apply m_bind_Ok in Hop as (d1 & r & [= <- Hr%ok_or_Ok] & Hop). rewrite Hr in Hrow. symmetry in Hrow. clear row Hr.
  apply m_bind_Ok in Hop as (d1 & m & [= <- Hm%ok_or_Ok] & Hop).
  destruct (_ || _) eqn:Hbad; [done|]. apply orb_false_iff in Hbad as [[Hdir Hca]%orb_false_iff Hco].
  apply negb_false_iff, bool_decide_eq_true in Hdir. apply bool_decide_eq_false in Hca, Hco.
  apply m_bind_Ok in Hop as (d1 & n & Hf & Hop).
  destruct (frames_kept _ _ _ _ _ _ _ _ _ Hb Hrow Hk Hdir Hm Hf) as [Hb1 Hp1].
  apply (save_frames_Ok _ k) in Hf as (_ & Hn1 & Hr1 & _ & Ho1 & new & Hs & ->); [|done].
  destruct (gained m 0 new =? 0)%N eqn:Hz.
  - injection Hop as <-. split; [done|]. split; [done|]. exists r, m, new. split; try done. by rewrite Hz.
  - apply m_bind_Ok in Hop as (d2 & v & Hst & [= <-]).
    destruct (bk_rec _ (proj1 Hb) _ _ Hrow) as ([H1 H2 H3 H4 H5 H6] & Hk' & i & Hi & Hname).
    assert (Hk1 : row_key (t_id (view r)) = Ok k) by congruence.
    apply store_next_Ok in Hst as (Hb2 & _ & _ & Hn2 & Hr2 & Hc2); [|done|done| | |].
    + split; [done|]. split.
      * etrans; [exact Hp1|]. eapply passes_insert; [done|exact Hr2|]. rewrite Hr1, Hrow. apply bumped_descends; [|done].
        split; cbn; try done; by eauto.
      * exists r, m, new. split; try done.
        -- by rewrite Hc2.
        -- by rewrite Hz, Hr2, Hr1.
        -- intros j k' Hj Hne. by rewrite Hc2, (Ho1 j k').
    + split; cbn; try done. lia.
    + exists i. split; [lia|done].
    + rewrite Hr1, Hrow. split; [|done]. split; cbn; try done; by eauto.
Qed.

(** ** Removing *)

Lemma drop_range_Ok id k d d' u : row_key id = Ok k -> drop_range (chunk_start id) (chunk_end id) d = (d', u) ->
  u = Ok tt /\ key d' = key d /\ draws d' = draws d /\ recs d' = recs d /\ index d' = index d /\ chunks id d' = ∅ /\
  forall j k', row_key j = Ok k' -> j <> id -> chunks j d' = chunks j d.
Proof.
  intros Hk Hop. unfold drop_range in Hop. set (ks := (rows_in _ _ _).*1) in Hop.
  assert (Hks : forall x, x ∈ ks <-> in_range (chunk_start id) (chunk_end id) x = true /\
    is_Some (table_of (tables d) BACKGROUND_DELIVERY !! x)).
  { intros x. unfold ks. rewrite list_elem_of_fmap. split.
    - intros ([y row] & -> & [Hr Hrow]%rows_in_lookup). split; [done|by eexists].
    - intros [Hr [row Hrow]]. exists (x, row). split; [done|]. by apply rows_in_lookup. }
  destruct (drops_Ok (T := TransferRecord) _ _ _ _ Hop) as (-> & Hkey & Hn & Hr).
  pose proof (drops_Ok (T := Current) _ _ _ _ Hop) as (_ & _ & _ & Hi). pose proof (drops_Ok (T := ChunkFrame) _ _ _ _ Hop) as (_ & _ & _ & Hc).
  split; [done|]. split; [done|]. split; [done|]. split; [|split; [|split]].
  - apply map_eq. intros x. unfold recs. rewrite Hr. case_decide as Hx; [|done]. apply Hks in Hx as [Hx _].
    destruct (chunk_only _ _ _ Hk Hx) as (Hno & _). symmetry. apply eq_None_not_Some. intros [y [Hy _]%typed_lookup]. congruence.
  - apply map_eq. intros x. unfold index. rewrite Hi. case_decide as Hx; [|done]. apply Hks in Hx as [Hx _].
    destruct (chunk_only _ _ _ Hk Hx) as (_ & Hno & _). symmetry. apply eq_None_not_Some. intros [y [Hy _]%typed_lookup]. congruence.
  - apply map_empty. intros x. unfold chunks. rewrite Hc. case_decide as Hx; [done|]. apply eq_None_not_Some.
    intros [y (Hy & row & Hrow & _)%typed_lookup]. apply Hx, Hks. split; [done|by eexists].
  - intros j k' Hj Hne. apply map_eq. intros x. unfold chunks. rewrite Hc. case_decide as Hx; [|done]. apply Hks in Hx as [Hx _].
    destruct (chunk_only _ _ _ Hk Hx) as (_ & _ & Hno). symmetry. apply eq_None_not_Some.
    intros [y [Hy _]%typed_lookup]. by rewrite (Hno j k' Hj (not_eq_sym Hne)) in Hy.
Qed.

Lemma drop_record id k d d' u : row_key id = Ok k -> t_drop k d = (d', u) ->
  u = Ok tt /\ draws d' = draws d /\ recs d' = delete k (recs d) /\ index d' = index d /\ forall j, chunks j d' = chunks j d.
Proof.
  intros Hk Hd. pose proof (typed_drop (T := TransferRecord) PREFIX PREFIX_END _ _ _ _ Hd) as (_ & -> & Hr). assert (draws d' = draws d) by by injection Hd as <-.
  split; [done|]. split; [done|]. split; [done|]. split; [|intros j]; (eapply drop_elsewhere; [|exact Hd]).
  - by eapply record_not_current.
  - by eapply record_not_chunk.
Qed.
Lemma drop_current id d d' u : remove_current_transfer id d = (d', u) ->
  u = Ok tt /\ draws d' = draws d /\ recs d' = recs d /\ index d' = delete (CURRENT +:+ id) (index d) /\
  forall j, chunks j d' = chunks j d.
Proof.
  intros Hd. pose proof (typed_drop (T := Current) CURRENT CURRENT_END _ _ _ _ Hd) as (_ & -> & Hr). assert (draws d' = draws d) by by injection Hd as <-.
  split; [done|]. split; [done|]. split; [|split; [done|intros j]]; (eapply drop_elsewhere; [|exact Hd]).
  - apply current_not_record.
  - apply current_not_chunk.
Qed.

Record removed (id k : string) (d d' : Draft) : Prop := {
  rm_draws : draws d' = draws d;
  rm_recs : recs d' = delete k (recs d);
  rm_index : index d' = delete (CURRENT +:+ id) (index d);
  rm_chunks : chunks id d' = ∅;
  rm_others j k' : row_key j = Ok k' -> j <> id -> chunks j d' = chunks j d;
}.
Lemma removed_ok id k d d' : row_key id = Ok k -> removed id k d d' -> book_ok d -> book_ok d' /\ passes d d'.
Proof. intros Hk [Hn Hr Hi Hc Ho]. apply (record_gone k id); try done. lia. Qed.

Lemma remove_Ok id k d d' u : row_key id = Ok k -> remove_tx id k d = (d', Ok u) -> removed id k d d'.
Proof.
  intros Hk Hop. unfold remove_tx in Hop.
  apply m_bind_Ok in Hop as (d1 & u1 & (_ & _ & Hn1 & Hr1 & Hi1 & Hc1 & Ho1)%(drop_range_Ok _ k) & Hop); [|done].
  apply m_bind_Ok in Hop as (d2 & u2 & (_ & Hn2 & Hr2 & Hi2 & Hc2)%(drop_record id) & (_ & Hn3 & Hr3 & Hi3 & Hc3)%drop_current); [|done].
  split; [congruence..| |]; [by rewrite Hc3, Hc2|]. intros j k' Hj Hne. by rewrite Hc3, Hc2, (Ho1 j k').
Qed.
Lemma remove_found_Ok id d d' u : remove_found id d = (d', Ok u) -> exists k, row_key id = Ok k /\ removed id k d d'.
Proof.
  intros Hop. unfold remove_found in Hop. apply m_bind_Ok in Hop as (d0 & k & [= <- Hk] & Hop). exists k. split; [done|].
  apply m_bind_Ok in Hop as (d1 & u1 & (_ & Hn1 & Hr1 & Hi1 & Hc1)%(drop_record id) & Hop); [|done].
  apply m_bind_Ok in Hop as (d2 & u2 & (_ & Hn2 & Hr2 & Hi2 & Hc2)%drop_current & (_ & _ & Hn3 & Hr3 & Hi3 & Hc3 & Ho3)%(drop_range_Ok _ k)); [|done].
  split; [congruence..|done|]. intros j k' Hj Hne. by rewrite (Ho3 j k'), Hc2, Hc1.
Qed.

Lemma remove_all_Ok ids d d' : each remove_found ids d = (d', Ok tt) -> book_ok d ->
  book_ok d' /\ passes d d' /\ forall k r, recs d' !! k = Some r <-> recs d !! k = Some r /\ t_id (view r) ∉ ids.
Proof.
  revert d. induction ids as [|id ids IH]; intros d; cbn [each].
  { intros [= <-] Hb. split; [done|]. split; [done|]. intros k r. split; [|by intros []]. intros Hr. split; [done|apply not_elem_of_nil]. }
  intros Hop Hb. apply m_bind_Ok in Hop as (d1 & u1 & (k0 & Hk0 & Hrm)%remove_found_Ok & Hop).
  destruct (removed_ok _ _ _ _ Hk0 Hrm Hb) as [Hb1 Hp1]. apply IH in Hop as (Hb' & Hp' & Hr'); [|done].
  split; [done|]. split; [by etrans|]. intros k r. rewrite Hr', (rm_recs _ _ _ _ Hrm), lookup_delete_Some, not_elem_of_cons.
  split.
  - intros [[Hne Hr] Hno]. split; [done|]. split; [|done]. intros He.
    destruct (bk_rec _ (proj1 Hb) _ _ Hr) as (_ & Hk & _). congruence.
  - intros (Hr & Hne & Hno). split; [|done]. split; [|done]. intros ->.
    destruct (bk_rec _ (proj1 Hb) _ _ Hr) as (_ & Hk & _). by apply Hne, (transfer_key_inj _ _ k).
Qed.

Lemma delete_transfers_Ok t id d d' : delete_conversation_transfers t id d = (d', Ok tt) -> book_ok d ->
  book_ok d' /\ passes d d' /\ recs d' = filter (fun kv => belongs t id kv.2 = false) (recs d).
Proof.
  intros Hop Hb. unfold delete_conversation_transfers in Hop. apply m_bind_Ok in Hop as (d1 & rows & [= <- Hrows] & Hop).
  pose proof (decode_all_typed _ _ _ _ _ Hrows) as [_ Hin]. apply remove_all_Ok in Hop as (Hb' & Hp & Hr); [|done].
  split; [done|]. split; [done|]. apply map_eq. intros k. apply option_eq. intros r. rewrite Hr, map_lookup_filter_Some. cbn.
  split; (intros [Hkr Hx]; split; [done|]; revert Hx).
  - intros Hno. destruct (belongs t id r) eqn:Hbel; [|done]. destruct Hno. apply list_elem_of_fmap. exists (k, r). split; [done|].
    apply list_elem_of_filter. split; [done|]. by apply Hin.
  - intros Hbel ([k2 r2] & He & [Hbel2 Hin2%Hin]%list_elem_of_filter)%list_elem_of_fmap. cbn in He, Hbel2.
    destruct (bk_rec _ (proj1 Hb) _ _ Hkr) as (_ & Hk & _). destruct (bk_rec _ (proj1 Hb) _ _ Hin2) as (_ & Hk2 & _).
    assert (k2 = k) as -> by congruence. assert (Some r2 = Some r) as [= ->] by (rewrite <-Hkr; symmetry; exact Hin2). congruence.
Qed.

(** ** The index at start-up *)

Definition shown (d : Draft) (v : UserTransfer) : Prop := is_Some (index d !! (CURRENT +:+ t_id v)).

Lemma write_view now k r d d' : book_sound d -> recs d !! k = Some r -> write_current_transfer now (view r) d = (d', Ok tt) ->
  book_sound d' /\ recs d' = recs d /\ draws d <= draws d' /\ shown d' (view r) /\
  forall k' r', recs d !! k' = Some r' -> quiescent (t_state (view r')) = false -> shown d (view r') -> shown d' (view r').
Proof.
  intros Hb Hr Hw. pose proof (book_keyed _ Hb) as Hkey. apply write_current_Ok in Hw as [_ Hn Hr' Hc' Hown Hold Hlive Hquiet]; [|done].
  destruct Hb as [H1 H2 H3 H4]. split; [split|].
  - intros k' r'. rewrite Hr'. intros (Ho & Hk & i & Hi & Hna)%H1. split; [done|]. split; [done|]. exists i. split; [lia|done].
  - intros k' c Hc. rewrite Hr'. destruct (decide (k' = CURRENT +:+ t_id (view r))) as [->|Hne]; [|by apply H2, Hold].
    rewrite Hown in Hc. injection Hc as <-. cbn. split; [done|]. exists k, r. by destruct (H1 _ _ Hr) as (_ & Hk & _).
  - by apply Hquiet.
  - intros id k' x f Hid. rewrite Hc', Hr'. by apply H4.
  - split; [done|]. split; [done|]. split; [by eexists|]. intros k' r' Hr2 Hq [c Hc]. unfold shown.
    destruct (decide (CURRENT +:+ t_id (view r') = CURRENT +:+ t_id (view r))) as [->|Hne]; [by eexists|].
    exists c. apply Hlive; [done|done|]. destruct (H2 _ _ Hc) as (He & k2 & r2 & Hk2 & Hr3 & Hv).
    apply (inj (String.append _)) in He. destruct (H1 _ _ Hr2) as (_ & Hk' & _). rewrite <-He, Hk' in Hk2. injection Hk2 as <-.
    rewrite Hr2 in Hr3. injection Hr3 as <-. by rewrite <-Hv.
Qed.

Lemma write_views_Ok now l d d' : each (fun v => write_current_transfer (now (t_id v)) v) l d = (d', Ok tt) -> book_sound d ->
  (forall v, v ∈ l -> quiescent (t_state v) = false /\ exists k r, recs d !! k = Some r /\ view r = v) ->
  book_sound d' /\ recs d' = recs d /\ draws d <= draws d' /\ (forall v, v ∈ l -> shown d' v) /\
  forall k' r', recs d !! k' = Some r' -> quiescent (t_state (view r')) = false -> shown d (view r') -> shown d' (view r').
Proof.
  revert d. induction l as [|v l IH]; intros d; cbn [each].
  { intros [= <-] Hb _. split; [done|]. split; [done|]. split; [done|]. split; [by intros v Hv%not_elem_of_nil|done]. }
  intros Hop Hb Hl. apply m_bind_Ok in Hop as (d1 & [] & Hw & Hop).
  destruct (Hl v) as (Hq & k & r & Hr & <-); [by left|]. destruct (write_view _ _ _ _ _ Hb Hr Hw) as (Hb1 & Hr1 & Hn1 & Hs1 & Hk1).
  apply IH in Hop as (Hb' & Hr' & Hn' & Hs' & Hk'); [|done|intros v Hv; rewrite Hr1; apply Hl; by right].
  split; [done|]. split; [congruence|]. split; [lia|]. split.
  - intros v [->|Hv]%elem_of_cons; [|by apply Hs']. eapply Hk'; [by rewrite Hr1|done..].
  - intros k' r' Hr2 Hq2 Hs2. eapply Hk'; [by rewrite Hr1|done|]. by eapply Hk1.
Qed.

Lemma read_range_Ok {T} {codec : RowCodec T} start stop s l : read_range (T := T) start stop s = Ok l ->
  exists rows, l = map snd rows /\ NoDup rows.*1 /\ forall k v, (k, v) ∈ rows <-> typed_in start stop (draft_of s) !! k = Some v.
Proof.
  unfold read_range. intros (d & Hd & (rows & Hrows & [= <-])%bind_Ok)%bind_Ok. exists rows. split; [done|].
  unfold begin_read in Hd. destruct (read_fault s); [done|]. injection Hd as <-.
  by apply decode_all_typed in Hrows.
Qed.

(** ** Deleting a conversation *)

Lemma prefix_frame tb p : frame (in_table tb) (t_delete_prefix tb p).
Proof.
  intros d d' r [= <- _]. split; [done|]. intros t k Hne. cbn [tables]. unfold delete_prefix. destruct (prefix_range p).
  unfold table_of. rewrite lookup_insert_ne; [done|]. intros ->. by apply Hne.
Qed.

Definition conversation_kind (t : HistoryTables) : Prop := t = DM_HISTORY \/ t = GROUP_HISTORY \/ t = CHANNEL_HISTORY.
Definition under (p k : string) : Prop := exists x, k = p +:+ Deletion.one +:+ x.

(** The rows of one conversation outside the background table. *)
Definition of_conversation (t : HistoryTables) (id : string) (tb k : string) : Prop :=
  tb = conversations t /\ k = id \/ tb = ReadMarks.READ_MARKS /\ k = ReadMarks.read_mark_key t id \/
  snapshots t = Some tb /\ k = id \/ tb = messages t /\ under id k \/
  tb = CONVERSATION_RECOVERY /\ under (kind_of (outbound_scope t) +:+ ":" +:+ id) k \/
  tb = CONVERSATION_OCCURRENCES /\ under (label t +:+ ":" +:+ id) k \/
  tb = OUTBOUND_ATTEMPTS /\ under (outbound_attempt_prefix (outbound_scope t) id) k.

(** Removing the rows [S] of a draft, and nothing else. *)
Record rows_gone (S : string -> string -> Prop) (d d' : Draft) : Prop := {
  rg_gone t k : S t k -> table_of (tables d') t !! k = None;
  rg_kept t k : ~ S t k -> table_of (tables d') t !! k = table_of (tables d) t !! k;
  rg_or t k : table_of (tables d') t !! k = table_of (tables d) t !! k \/ table_of (tables d') t !! k = None;
}.
Lemma rows_gone_trans S S' d d1 d' : rows_gone S d d1 -> rows_gone S' d1 d' -> rows_gone (fun t k => S t k \/ S' t k) d d'.
Proof.
  intros [Hg Hk Ho] [Hg' Hk' Ho']. split; intros t k.
  - intros [HS|HS]; [|by apply Hg']. destruct (Ho' t k) as [->|]; [by apply Hg|done].
  - intros Hn. rewrite Hk' by tauto. apply Hk. tauto.
  - destruct (Ho' t k) as [->|]; [apply Ho|by right].
Qed.
Lemma update_gone tb k d d' r : t_update tb k None d = (d', r) -> rows_gone (fun t k' => t = tb /\ k' = k) d d'.
Proof.
  intros [= <- _]. split; intros t k'; cbn [tables]; change (<[tb:=delete k _]> (tables d)) with (update_row (tables d) tb k None);
    rewrite table_of_update.
  - intros [-> ->]. rewrite decide_True by done. apply lookup_partial_alter_eq.
  - intros Hn. case_decide as Ht; [subst t|done]. rewrite lookup_partial_alter_ne; [done|]. intros ->. by apply Hn.
  - case_decide as Ht; [subst t|by left]. destruct (decide (k' = k)) as [->|Hne];
      [right; apply lookup_partial_alter_eq|left; by rewrite lookup_partial_alter_ne].
Qed.
Lemma under_range p k : let '(start, stop) := prefix_range p in in_range start stop k = true <-> under p k.
Proof. unfold prefix_range. by apply (range_iff (Ascii.ascii_of_N 1) (Ascii.ascii_of_N 2)). Qed.
Lemma prefix_gone tb p d d' r : t_delete_prefix tb p d = (d', r) -> rows_gone (fun t k => t = tb /\ under p k) d d'.
Proof.
  intros [= <- _]. pose proof (under_range p) as Hr. unfold delete_prefix. revert Hr. destruct (prefix_range p) as [start stop]. intros Hr.
  split; intros t k; cbn [tables]; unfold table_of.
  - intros [-> Hu]. rewrite lookup_insert_eq. cbn. apply eq_None_not_Some. intros [b [_ Hb]%map_lookup_filter_Some]. cbn in Hb.
    apply Hr in Hu. congruence.
  - intros Hn. destruct (decide (t = tb)) as [->|Hne]; [|by rewrite lookup_insert_ne]. rewrite lookup_insert_eq. cbn.
    apply option_eq. intros b. rewrite map_lookup_filter_Some. cbn. split; [by intros []|]. intros Hb. split; [done|].
    apply not_true_iff_false. intros Hin. apply Hn. split; [done|]. by apply Hr.
  - destruct (decide (t = tb)) as [->|Hne]; [|left; by rewrite lookup_insert_ne]. rewrite lookup_insert_eq. cbn.
    destruct (in_range start stop k) eqn:Hin.
    + right. apply eq_None_not_Some. intros [b [_ Hb]%map_lookup_filter_Some]. cbn in Hb. congruence.
    + left. apply option_eq. intros b. rewrite map_lookup_filter_Some. cbn. tauto.
Qed.

Lemma typed_rows {T} {codec : RowCodec T} start stop d d' : key d' = key d ->
  (forall k, table_of (tables d') BACKGROUND_DELIVERY !! k = table_of (tables d) BACKGROUND_DELIVERY !! k) ->
  typed_in start stop d' = typed_in (T := T) start stop d.
Proof.
  intros Hk Hr. unfold typed_in. rewrite Hk. apply map_eq. intros k. apply option_eq. intros v. rewrite !typed_lookup.
  by setoid_rewrite Hr.
Qed.
Lemma gone_untouched S d d' : rows_gone S d d' -> key d' = key d -> draws d <= draws d' ->
  (forall k, ~ S BACKGROUND_DELIVERY k) -> untouched d d'.
Proof.
  intros [_ Hg _] Hk Hn HS. split; [done|done|..]; intros; apply typed_rows; try done; intros; by apply Hg.
Qed.

Lemma gone_weaken S S' d d' : (forall t k, S t k <-> S' t k) -> rows_gone S d d' -> rows_gone S' d d'.
Proof.
  intros Heq [H1 H2 H3]. split; [intros t k Hs; by apply H1, Heq|intros t k Hs; apply H2; by rewrite Heq|done].
Qed.

(** The tail of the deletion: the rows of the other tables. *)
Definition drop_rows (t : HistoryTables) (id : string) : tx unit :=
  t_update (conversations t) id None;;;
  t_update ReadMarks.READ_MARKS (ReadMarks.read_mark_key t id) None;;;
  match snapshots t with Some snapshot => t_update snapshot id None | None => m_ret tt end;;;
  t_delete_prefix (messages t) id;;;
  t_delete_prefix CONVERSATION_RECOVERY (kind_of (outbound_scope t) +:+ ":" +:+ id);;;
  t_delete_prefix CONVERSATION_OCCURRENCES (label t +:+ ":" +:+ id);;;
  t_delete_prefix OUTBOUND_ATTEMPTS (outbound_attempt_prefix (outbound_scope t) id).

Lemma drop_rows_Ok t id d d' u : drop_rows t id d = (d', Ok u) -> rows_gone (of_conversation t id) d d'.
Proof.
  unfold drop_rows. intros (d1 & u1 & H1%update_gone & Hop)%m_bind_Ok. apply m_bind_Ok in Hop as (d2 & u2 & H2%update_gone & Hop).
  apply m_bind_Ok in Hop as (d3 & u3 & H3 & Hop).
  assert (H3' : rows_gone (fun t' k => snapshots t = Some t' /\ k = id) d2 d3).
  { destruct (snapshots t) as [tb|].
    - apply update_gone in H3. eapply gone_weaken; [|exact H3]. intros t' k. cbn. naive_solver.
    - injection H3 as <-. split; [by intros ? ? []|done|by left]. }
  apply m_bind_Ok in Hop as (d4 & u4 & H4%prefix_gone & Hop). apply m_bind_Ok in Hop as (d5 & u5 & H5%prefix_gone & Hop).
  apply m_bind_Ok in Hop as (d6 & u6 & H6%prefix_gone & H7%prefix_gone).
  pose proof (rows_gone_trans _ _ _ _ _ H5 (rows_gone_trans _ _ _ _ _ H6 H7)) as H.
  pose proof (rows_gone_trans _ _ _ _ _ H3' (rows_gone_trans _ _ _ _ _ H4 H)) as H'.
  eapply gone_weaken; [|exact (rows_gone_trans _ _ _ _ _ H1 (rows_gone_trans _ _ _ _ _ H2 H'))].
  intros t' k. unfold of_conversation. tauto.
Qed.

Lemma of_conversation_elsewhere t id k : conversation_kind t -> ~ of_conversation t id BACKGROUND_DELIVERY k.
Proof. intros [->|[->| ->]]; unfold of_conversation; intros Hc; destruct_or?; destruct_and?; discriminate. Qed.

Lemma rising_current now v : rising (write_current_transfer now v).
Proof. unfold write_current_transfer. rises. Qed.
#[local] Hint Resolve rising_current : rising.
Lemma rising_next k now r : rising (store_next k now r).
Proof. unfold store_next. rises. Qed.
#[local] Hint Resolve rising_next : rising.
Lemma rising_matching tgt dir a : rising (matching_user_transfer tgt dir a).
Proof. intros d d' r. unfold matching_user_transfer. by destruct a; intros [= <- _]. Qed.
#[local] Hint Resolve rising_matching : rising.
Lemma rising_prepare tgt dir a total now : rising (prepare_tx tgt dir a total now).
Proof. unfold prepare_tx, new_name. rises. Qed.
Lemma rising_update_tx k now u : rising (update_tx k now u).
Proof. unfold update_tx. rises. Qed.
Lemma rising_save id k frames now : rising (save_tx id k frames now).
Proof.
  unfold save_tx. rises. assert (Hf : forall m l n, rising (save_frames id m l n)); [|apply Hf].
  intros m l. induction l as [|f l IH]; intros n; cbn [save_frames]; rises.
Qed.
Lemma rising_drop_range start stop : rising (drop_range start stop).
Proof. intros d d' r. unfold drop_range. apply rising_each. apply rising_drop. Qed.
#[local] Hint Resolve rising_drop_range : rising.
Lemma rising_remove id k : rising (remove_tx id k).
Proof. unfold remove_tx, remove_current_transfer. rises. Qed.
Lemma rising_delete_transfers t id : rising (delete_conversation_transfers t id).
Proof.
  unfold delete_conversation_transfers, remove_found, remove_current_transfer. rises.
Qed.
Lemma rising_drop_rows t id : rising (drop_rows t id).
Proof. unfold drop_rows. rises. Qed.

(** Outside the background table, removing the transfers changes nothing. *)
Lemma frame_delete_transfers t id : frame (in_table BACKGROUND_DELIVERY) (delete_conversation_transfers t id).
Proof.
  assert (Hd : forall k, frame (in_table BACKGROUND_DELIVERY) (t_drop k)) by (intros k; by apply frame_update).
  unfold delete_conversation_transfers. apply frame_bind; [by intros d d' r [= <- _]|]. intros rows. apply frame_each. intros i _.
  unfold remove_found. apply frame_bind; [apply frame_lift|]. intros k. apply frame_bind; [apply Hd|]. intros _.
  apply frame_bind; [apply Hd|]. intros _ d d' r. unfold drop_range. apply frame_each. intros k' _. apply Hd.
Qed.

Lemma delete_Ok t id d d' u : conversation_kind t -> delete_tx t id d = (d', Ok u) -> book_ok d ->
  book_ok d' /\ passes d d' /\ recs d' = filter (fun kv => belongs t id kv.2 = false) (recs d) /\
  forall tb k, tb <> BACKGROUND_DELIVERY ->
    (of_conversation t id tb k -> table_of (tables d') tb !! k = None) /\
    (~ of_conversation t id tb k -> table_of (tables d') tb !! k = table_of (tables d) tb !! k).
Proof.
  intros Hkind Hop Hb. unfold delete_tx in Hop. apply m_bind_Ok in Hop as (d1 & [] & Ht & Hop).
  pose proof (frame_delete_transfers _ _ _ _ _ Ht) as [_ Hf]. apply delete_transfers_Ok in Ht as (Hb1 & Hp1 & Hr1); [|done].
  fold (drop_rows t id) in Hop. destruct (rising_drop_rows _ _ _ _ _ Hop) as [Hn Hk]. apply drop_rows_Ok in Hop.
  pose proof (gone_untouched _ _ _ Hop Hk Hn (fun k => of_conversation_elsewhere t id k Hkind)) as Hu.
  destruct (untouched_ok _ _ Hu Hb1) as [Hb2 Hp2]. split; [done|]. split; [by etrans|].
  split; [rewrite <-Hr1; apply Hu|]. intros tb k Hne. split; [apply Hop|]. intros Hno.
  rewrite (rg_kept _ _ _ Hop) by done. by apply Hf.
Qed.

(** ** The life of the table *)

Lemma same_untouched s s' : dek s' = dek s -> db s' = db s -> rng s <= rng s' -> untouched (draft_of s) (draft_of s').
Proof. intros Hk Hd Hn. unfold draft_of. rewrite Hk, Hd. by split. Qed.

Definition good {A} (op : tx A) : Prop := rising op /\
  forall d d' v, op d = (d', Ok v) -> book_ok d -> book_ok d' /\ passes d d'.

Lemma transact_good {A} (op : tx A) s s' r : good op -> transact op s = (s', r) -> book_ok (draft_of s) ->
  book_ok (draft_of s') /\ passes (draft_of s) (draft_of s').
Proof.
  intros [Hrise Hop] (Hk & Hn & Hc)%transact_split Hb; [|done]. destruct Hc as [[Hdb _]|(d & v & Ho & Hkd & Hdb & Hr & _)].
  - apply untouched_ok; [by apply same_untouched|done].
  - assert (draft_of s' = d) as -> by (destruct d; cbn in *; unfold draft_of; congruence). by apply (Hop _ _ _ Ho).
Qed.

(** Everything that happens to the store: the table's own operations, and
    whatever leaves its rows and the key as they are. *)
Inductive transfer_step (s : Store.Persistence) : Store.Persistence -> Prop :=
| step_prepare tgt dir a total now : transfer_step s (prepare_user_transfer tgt dir a total now s).1
| step_bind id tgt m now : transfer_step s (bind_user_transfer id tgt m now s).1
| step_state id st now : transfer_step s (set_user_transfer_state id st now s).1
| step_receiver id receiver token expires complete now now' :
    transfer_step s (remember_user_transfer_receiver id receiver token expires complete now now' s).1
| step_progress id n complete now : transfer_step s (record_user_upload_progress id n complete now s).1
| step_chunks id frames now : transfer_step s (save_user_transfer_chunks id frames now s).1
| step_remove id : transfer_step s (remove_user_transfer id s).1
| step_restore now : transfer_step s (restore_current_transfer_index now s).1
| step_delete t id : conversation_kind t -> transfer_step s (delete_conversation t id s).1
| step_other s' : untouched (draft_of s) (draft_of s') -> transfer_step s s'.

Lemma keyed_good {A} id (op : string -> tx A) s : (forall k, row_key id = Ok k -> good (op k)) -> book_ok (draft_of s) ->
  let s' := ((k <~ m_lift (row_key id);; transact (op k)) s).1 in
  book_ok (draft_of s') /\ passes (draft_of s) (draft_of s').
Proof.
  intros Hg Hb. unfold m_bind, m_lift. destruct (row_key id) as [k|e] eqn:Hk; [|by split].
  destruct (transact (op k) s) as [s' r] eqn:Ht. by eapply transact_good; [apply Hg|exact Ht|].
Qed.
Lemma update_good id now u s : sound u -> book_ok (draft_of s) ->
  let s' := (update_user_transfer id now u s).1 in book_ok (draft_of s') /\ passes (draft_of s) (draft_of s').
Proof.
  intros Hs. apply keyed_good. intros k Hk. split; [apply rising_update_tx|]. intros d d' [] Ho. by apply (update_Ok id k now u).
Qed.

Lemma step_good s s' : transfer_step s s' -> book_ok (draft_of s) -> book_ok (draft_of s') /\ passes (draft_of s) (draft_of s').
Proof.
  intros [tgt dir a total now|id tgt m now|id st now|id receiver token expires complete now now'|id n complete now|id frames now
    |id|now|t id Hkind|s2 Hu] Hb.
  - unfold prepare_user_transfer. destruct (negb _) eqn:Hadm; [by split|]. apply negb_false_iff in Hadm.
    destruct (transact _ s) as [s2 r] eqn:Ht. eapply transact_good; [split|exact Ht|done]; [apply rising_prepare|].
    intros d d' v Ho. by eapply prepare_book.
  - by apply update_good; [apply bind_sound|].
  - by apply update_good; [apply set_state_sound|].
  - by apply update_good; [apply remember_sound|].
  - by apply update_good; [apply progress_sound|].
  - apply keyed_good; [|done]. intros k Hk. split; [apply rising_save|]. intros d d' [] Ho Hb'.
    by destruct (save_Ok _ _ _ _ _ _ Hk Ho Hb') as (? & ? & _).
  - apply keyed_good; [|done]. intros k Hk. split; [apply rising_remove|]. intros d d' v Ho. by eapply removed_ok, remove_Ok.
  - unfold restore_current_transfer_index, m_bind. destruct (current_user_transfers s) as [present|]; [|by split].
    destruct (user_transfers s) as [all|] eqn:Hall; [|by split]. case_bool_decide; [by split|].
    destruct (transact _ s) as [s2 r] eqn:Ht. apply transact_split in Ht as (Hk & Hn & Hc); [|apply rising_each; intros v; apply rising_current].
    destruct Hc as [[Hdb _]|(d & [] & Ho & Hkd & Hdb & Hr & _)]; cbn [fst]; [apply untouched_ok; [by apply same_untouched|done]|].
    assert (draft_of s2 = d) as -> by (destruct d; cbn in *; unfold draft_of; congruence).
    destruct (write_views_Ok _ _ _ _ Ho (proj1 Hb)) as (Hb' & Hr' & Hn' & _ & Hkeep).
    { intros v [[Hq _] Hv]%list_elem_of_filter. split; [done|]. unfold user_transfers in Hall.
      apply bind_Ok in Hall as (l & (rows & -> & _ & Hin)%read_range_Ok & [= <-]).
      apply list_elem_of_fmap in Hv as (r0 & -> & ([k r1] & -> & Hkr)%list_elem_of_fmap). exists k, r1. split; [by apply Hin|done]. }
    split; [split; [done|]|].
    + intros k r0. rewrite Hr'. intros Hk0 Hq. eapply Hkeep; [exact Hk0|done|]. by apply (proj2 Hb k r0).
    + split; [done|]. intros i k _ _. rewrite Hr'. fold (draft_of s). destruct (recs (draft_of s) !! k); [right; by eexists|done].
  - unfold delete_conversation. destruct (transact _ s) as [s2 r] eqn:Ht. eapply transact_good; [split|exact Ht|done].
    + apply rising_bind; [apply rising_delete_transfers|]. intros _. apply rising_drop_rows.
    + intros d d' v Ho Hb'. by destruct (delete_Ok _ _ _ _ _ Hkind Ho Hb') as (? & ? & _).
  - by apply untouched_ok.
Qed.

Lemma steps_good s s' : rtc transfer_step s s' -> book_ok (draft_of s) -> book_ok (draft_of s') /\ passes (draft_of s) (draft_of s').
Proof.
  induction 1 as [|s1 s2 s3 Hs _ IH]; intros Hb; [done|]. destruct (step_good _ _ Hs Hb) as [Hb2 Hp2].
  destruct (IH Hb2) as [Hb3 Hp3]. split; [done|]. by etrans.
Qed.

Definition nothing_admitted (s : Store.Persistence) : Prop := table_of (db s) BACKGROUND_DELIVERY = ∅.
Lemma nothing_ok s : nothing_admitted s -> book_ok (draft_of s).
Proof.
  intros Hs. assert (He : forall T (codec : RowCodec T) start stop, typed_in (T := T) start stop (draft_of s) = ∅).
  { intros. apply map_empty. intros k. apply eq_None_not_Some. intros [v (_ & row & Hr & _)%typed_lookup].
    unfold nothing_admitted in Hs. cbn [draft_of tables] in Hr. by rewrite Hs in Hr. }
  split; [split|].
  - intros k r. unfold recs. by rewrite He.
  - intros k c. unfold index. by rewrite He.
  - unfold index. rewrite He. by vm_compute; lia.
  - intros id k x f _. unfold chunks. by rewrite He.
  - intros k r. unfold recs. by rewrite He.
Qed.
Lemma reached_ok s0 s : nothing_admitted s0 -> rtc transfer_step s0 s -> book_ok (draft_of s).
Proof. intros Hs Hr. apply (steps_good s0 s Hr), nothing_ok, Hs. Qed.

Lemma user_transfer_Ok id s o : user_transfer id s = Ok o -> exists k, row_key id = Ok k /\ recs (draft_of s) !! k = o.
Proof.
  unfold user_transfer. intros (k & Hk & (b & Hb & Ho)%bind_Ok)%bind_Ok. exists k. split; [done|].
  unfold p_get, Store.get in Hb. apply bind_Ok in Hb as (t & Ht & Hb). unfold begin_read in Ht. destruct (read_fault s); [done|].
  injection Ht as <-. destruct (table_of (db s) BACKGROUND_DELIVERY !! k) as [row|] eqn:Hrow.
  - destruct (decrypt_blob _ _ _) as [p|] eqn:Hp; [|done]. injection Hb as <-. apply bind_Ok in Ho as (r & Hr & [= <-]).
    apply typed_lookup. split; [by eapply record_in|]. exists row. split; [done|]. unfold decoded, decrypt. cbn [key draft_of]. by rewrite Hp.
  - injection Hb as <-. injection Ho as <-. apply eq_None_not_Some. intros [r (_ & row & Hrow' & _)%typed_lookup].
    cbn [draft_of tables] in Hrow'. congruence.
Qed.

(** An entry that is not there hides its transfer, nothing more. *)
Lemma hidden_sound id s : book_sound (draft_of s) -> book_sound (draft_of (transact (remove_current_transfer id) s).1).
Proof.
  destruct (transact _ s) as [s' r] eqn:Ht. cbn [fst]. intros [H1 H2 H3 H4].
  apply transact_split in Ht as (Hk & Hn & Hc); [|apply rising_drop].
  destruct Hc as [[Hdb _]|(d & u & Ho & Hkd & Hdb & Hr & _)].
  - destruct (same_untouched s s' Hk Hdb Hn) as [_ Hn' Hr' Hi' Hc']. split; [|intros k c; rewrite Hi', Hr'; apply H2|by rewrite Hi'|].
    + intros k r'. rewrite Hr'. intros (Ho & Hk' & i & Hi & Hna)%H1. split; [done|]. split; [done|]. exists i. split; [lia|done].
    + intros j k x f. rewrite Hc', Hr'. apply H4.
  - assert (draft_of s' = d) as -> by (destruct d; cbn in *; unfold draft_of; congruence).
    apply drop_current in Ho as (_ & Hd & Hrecs & Hi & Hch). split.
    + intros k r'. rewrite Hrecs, Hd. apply H1.
    + intros k c. rewrite Hi, Hrecs. intros [_ Hc]%lookup_delete_Some. by apply H2.
    + etrans; [|exact H3]. rewrite <-!size_dom. apply subseteq_size. intros k. unfold quiet_rows. rewrite !elem_of_dom, Hi.
      intros [c [[_ Hc]%lookup_delete_Some Hq]%map_lookup_filter_Some]. exists c. by apply map_lookup_filter_Some.
    + intros j k x f. rewrite Hch, Hrecs. apply H4.
Qed.

(** ** Theorems *)


(** A transfer keeps its identity: from any reachable store to any later one, a
    transfer that is still there has the target, the direction, the size, the
    attachment and the content hash it had, and one revision never stands for two
    contents; and one that is gone never comes back under its name. *)
Theorem transfer_identity id s0 s1 s2 r o : nothing_admitted s0 -> rtc transfer_step s0 s1 ->
  user_transfer id s1 = Ok (Some r) -> rtc transfer_step s1 s2 -> user_transfer id s2 = Ok o ->
  match o with
  | Some r2 => grows r r2 /\ (r2 = r \/ (revision (view r) < revision (view r2))%N)
  | None => forall s3 o3, rtc transfer_step s2 s3 -> user_transfer id s3 = Ok o3 -> o3 = None
  end.
Proof.
  intros H0 H1 (k & Hk & Hr)%user_transfer_Ok H12 (k' & Hk' & Ho)%user_transfer_Ok. rewrite Hk in Hk'. injection Hk' as <-.
  destruct (reached_ok _ _ H0 H1) as [Hb Hl]. destruct (bk_rec _ Hb _ _ Hr) as (_ & Hid & i & Hi & Hname).
  destruct (steps_good _ _ H12 (conj Hb Hl)) as [Hb2 [Hn Hp]]. pose proof (transfer_key_inj _ _ _ Hid Hk) as He.
  assert (Hik : row_key (name i) = Ok k) by by rewrite <-Hname. specialize (Hp i k Hi Hik). rewrite Hr in Hp.
  destruct Hp as [Hp|(r2 & Hp & Hd)]; rewrite Hp in Ho; subst o; [|exact Hd].
  intros s3 o3 H23 (k3 & Hk3 & Ho3)%user_transfer_Ok. rewrite Hk in Hk3. injection Hk3 as <-.
  destruct (steps_good _ _ H23 Hb2) as [_ [_ Hp3]]. assert (i < draws (draft_of s2)) as Hi2 by lia.
  specialize (Hp3 i k Hi2 Hik). rewrite Hp in Hp3. by rewrite Hp3 in Ho3.
Qed.

(** Checkpoints are exact: saving chunks either leaves the database as it was
    and reports an error, or is for a running download whose file is known; then
    every chunk given is of that file and within it, a chunk saved before stays
    as it was, every other one is saved once, nothing else of the table
    changes, and the progress grows by what was new, up to the size, with one
    new revision, or nothing changes when nothing was new. *)
Theorem checkpoint_exact id frames now s0 s s' res : nothing_admitted s0 -> rtc transfer_step s0 s ->
  save_user_transfer_chunks id frames now s = (s', res) ->
  db s' = db s /\ is_ok res = false \/
  exists k r m new, row_key id = Ok k /\ checkpoint id k frames (draft_of s) (draft_of s') r m new.
Proof.
  intros H0 Hr Hop. pose proof (reached_ok _ _ H0 Hr) as Hb. unfold save_user_transfer_chunks, m_bind, m_lift in Hop.
  destruct (row_key id) as [k|e] eqn:Hk; [|injection Hop as <- <-; by left].
  apply transact_split in Hop as (Hkey & Hn & Hc); [|apply rising_save]. destruct Hc as [Hc|(d & [] & Ho & Hkd & Hdb & Hrng & _)]; [by left|right].
  assert (draft_of s' = d) as -> by (destruct d; cbn in *; unfold draft_of; congruence).
  destruct (save_Ok _ _ _ _ _ _ Hk Ho Hb) as (_ & _ & r & m & new & Hcp). by exists k, r, m, new.
Qed.

(** Deleting a conversation deletes that conversation: when it succeeds, none of
    its rows is left in any table, no transfer of it is left, and every row and
    every transfer of anything else is as it was. *)
Theorem conversation_deleted t id s0 s s' : conversation_kind t -> nothing_admitted s0 -> rtc transfer_step s0 s ->
  delete_conversation t id s = (s', Ok tt) ->
  recs (draft_of s') = filter (fun kv => belongs t id kv.2 = false) (recs (draft_of s)) /\
  forall tb k, tb <> BACKGROUND_DELIVERY ->
    (of_conversation t id tb k -> table_of (db s') tb !! k = None) /\
    (~ of_conversation t id tb k -> table_of (db s') tb !! k = table_of (db s) tb !! k).
Proof.
  intros Hkind H0 Hr Hop. pose proof (reached_ok _ _ H0 Hr) as Hb. apply transact_split in Hop as (Hkey & Hn & Hc).
  2: { apply rising_bind; [apply rising_delete_transfers|]. intros _. apply rising_drop_rows. }
  destruct Hc as [[_ [=]]|(d & [] & Ho & Hkd & Hdb & Hrng & _)].
  assert (draft_of s' = d) as <- by (destruct d; cbn in *; unfold draft_of; congruence).
  destruct (delete_Ok _ _ _ _ _ Hkind Ho Hb) as (_ & _ & Hrecs & Hrows). done.
Qed.

(** Start-up repairs the index of a store that an older version wrote: after it
    succeeded, whatever runs, waits or is paused is shown. *)
Theorem restore_repairs now s s' : book_sound (draft_of s) -> restore_current_transfer_index now s = (s', Ok tt) ->
  book_ok (draft_of s').
Proof.
  intros Hb. unfold restore_current_transfer_index, m_bind. destruct (current_user_transfers s) as [present|] eqn:Hpres; [|done].
  destruct (user_transfers s) as [all|] eqn:Hall; [|done].
  unfold user_transfers in Hall. apply bind_Ok in Hall as (l & (rows & -> & _ & Hin)%read_range_Ok & [= <-]).
  unfold current_user_transfers in Hpres. apply bind_Ok in Hpres as (l & (cs & -> & _ & Hcs)%read_range_Ok & [= <-]).
  set (missing := filter _ _).
  assert (Hlive : forall k r, recs (draft_of s) !! k = Some r -> quiescent (t_state (view r)) = false ->
    shown (draft_of s) (view r) \/ view r ∈ missing).
  { intros k r Hk Hq. destruct (decide (t_id (view r) ∈ map t_id (map c_view (map snd cs)))) as [Hp|Hp].
    - left. apply list_elem_of_fmap in Hp as (v & Hv & (c & -> & ([k' c'] & -> & Hc%Hcs)%list_elem_of_fmap)%list_elem_of_fmap).
      cbn in Hv. exists c'. destruct (bk_index _ Hb _ _ Hc) as [-> _]. by rewrite Hv.
    - right. apply list_elem_of_filter. split; [done|]. apply list_elem_of_fmap. exists r. split; [done|].
      apply list_elem_of_fmap. exists (k, r). split; [done|]. by apply Hin. }
  case_bool_decide as Hm.
  { intros [= <-]. split; [done|]. intros k r Hk Hq. destruct (Hlive k r Hk Hq) as [?|Hv]; [done|]. rewrite Hm in Hv. by apply not_elem_of_nil in Hv. }
  intros Ht. apply transact_split in Ht as (Hk & Hn & Hc); [|apply rising_each; intros v; apply rising_current].
  destruct Hc as [[_ [=]]|(d & [] & Ho & Hkd & Hdb & Hr & _)].
  assert (draft_of s' = d) as -> by (destruct d; cbn in *; unfold draft_of; congruence).
  destruct (write_views_Ok _ _ _ _ Ho Hb) as (Hb' & Hr' & _ & Hs' & Hkeep).
  { intros v [[Hq _] Hv]%list_elem_of_filter. split; [done|].
    apply list_elem_of_fmap in Hv as (r0 & -> & ([k r1] & -> & Hkr)%list_elem_of_fmap). exists k, r1. split; [by apply Hin|done]. }
  split; [done|]. intros k r. rewrite Hr'. intros Hk0 Hq. destruct (Hlive k r Hk0 Hq) as [Hsh|Hv]; [by eapply Hkeep|by apply Hs'].
Qed.

End UserTransfers.

(** ** A download over a restart *)

#[local] Existing Instances Rows.plain_aes Rows.plain_aes_laws.

Definition code_kind (k : CallButtons.BridgeConversationKind) : N :=
  match k with CallButtons.Dm => 0 | CallButtons.Channel => 1 | CallButtons.Group => 2 end.
Definition kind_code (n : N) : CallButtons.BridgeConversationKind :=
  match n with 0 => CallButtons.Dm | 1 => CallButtons.Channel | _ => CallButtons.Group end%N.
Definition code_state (st : UserTransferState) : N :=
  match st with Prepared => 0 | WaitingReceiver => 1 | WaitingExecution => 2 | Running => 3 | Paused => 4
              | Complete => 5 | Failed => 6 | Cancelled => 7 end.
Definition state_code (n : N) : UserTransferState :=
  match n with 0 => Prepared | 1 => WaitingReceiver | 2 => WaitingExecution | 3 => Running | 4 => Paused
             | 5 => Complete | 6 => Failed | _ => Cancelled end%N.
Definition view_tuple (v : UserTransfer) :=
  (t_id v, code_kind (CallButtons.kind (target v)), CallButtons.ref_id (target v), t_attachment_id v,
   bool_decide (direction v = Upload), code_state (t_state v), (completed_bytes v, total_bytes v, revision v)).
Definition tuple_view (t : string * N * string * option string * bool * N * (N * N * N)) : UserTransfer :=
  let '(i, k, c, a, up, st, (n, total, rev)) := t in
  {| t_id := i; target := {| CallButtons.kind := kind_code k; CallButtons.ref_id := c |}; t_attachment_id := a;
     direction := if up then Upload else Download; t_state := state_code st; completed_bytes := n; total_bytes := total;
     revision := rev |}.
Lemma tuple_view_id v : tuple_view (view_tuple v) = v.
Proof. by destruct v as [i [[] c] a [] [] n total rev]. Qed.
#[local] Arguments view_tuple : simpl never.
#[local] Arguments tuple_view : simpl never.
Definition manifest_tuple (m : Manifest) :=
  (Attachments.attachment_id m, Attachments.content_hash m, Attachments.file_name m, Attachments.mime m, Attachments.total_size m,
   Attachments.chunk_size m, Attachments.chunk_count m,
   (Attachments.key_b64 m, Attachments.nonce_prefix_b64 m, Attachments.m_thumbnail_b64 m, Attachments.from_fingerprint m)).
Definition tuple_manifest (t : string * string * string * string * N * N * N * (string * string * option string * string)) : Manifest :=
  let '(a, h, n, mi, total, size, count, (k, p, th, f)) := t in
  {| Attachments.m_origin := None; Attachments.attachment_id := a; Attachments.content_hash := h; Attachments.file_name := n;
     Attachments.mime := mi; Attachments.total_size := total; Attachments.chunk_size := size; Attachments.chunk_count := count;
     Attachments.key_b64 := k; Attachments.nonce_prefix_b64 := p; Attachments.m_thumbnail_b64 := th; Attachments.m_voice := None;
     Attachments.from_fingerprint := f |}.

(** Enough of the format for files without a voice note or a signed origin. *)
Definition plain_manifest (m : Manifest) : bool :=
  match Attachments.m_origin m, Attachments.m_voice m with None, None => true | _, _ => false end.
#[local] Instance toy_records : RowCodec TransferRecord := {|
  row_to_vec r := if bool_decide (receivers r = ∅) && match manifest r with Some m => plain_manifest m | None => true end
                  then codec_to_vec (view_tuple (view r), manifest_tuple <$> manifest r) else Err "not shown";
  row_from_slice b := p ← codec_from_slice b;
                      Ok {| view := tuple_view p.1; manifest := tuple_manifest <$> p.2; receivers := ∅ |};
|}.
#[local] Instance toy_records_laws : RowCodecLaws TransferRecord.
Proof.
  split. intros [v m rs] b Hb. cbn in Hb. case_bool_decide as Hrs; [|done]. cbn in Hb. destruct (match m with Some _ => _ | None => _ end) eqn:Hm; [|done].
  cbn [row_from_slice toy_records]. rewrite (codec_roundtrip _ _ Hb). cbn. rewrite tuple_view_id. f_equal. f_equal; [|done].
  destruct m as [[o a h n mi total size count k p th vo f]|]; [|done]. unfold plain_manifest in Hm. cbn in Hm. by destruct o, vo.
Qed.
#[local] Instance toy_currents : RowCodec Current := {|
  row_to_vec c := codec_to_vec (view_tuple (c_view c), updated_ms c);
  row_from_slice b := p ← codec_from_slice b; Ok {| c_view := tuple_view p.1; updated_ms := p.2 |};
|}.
#[local] Instance toy_currents_laws : RowCodecLaws Current.
Proof. split. intros [v u] b Hb. cbn in *. rewrite (codec_roundtrip _ _ Hb). cbn. by rewrite tuple_view_id. Qed.
#[local] Instance toy_chunks : RowCodec ChunkFrame := {|
  row_to_vec f := codec_to_vec (Attachments.cf_attachment_id f, Attachments.chunk_index f, Attachments.ciphertext_b64 f);
  row_from_slice b := p ← codec_from_slice b;
    Ok {| Attachments.cf_attachment_id := p.1.1; Attachments.chunk_index := p.1.2; Attachments.ciphertext_b64 := p.2 |};
|}.
#[local] Instance toy_chunks_laws : RowCodecLaws ChunkFrame.
Proof. split. intros [a i c] b Hb. cbn in *. by rewrite (codec_roundtrip _ _ Hb). Qed.

Lemma toy_name_inj i j : name CallButtons.toy_random i = name CallButtons.toy_random j -> i = j.
Proof. unfold name. intros H%(inj (String.append _)). apply (CallButtons.toy_hex_inj 16); [lia|done]. Qed.

Definition chat : Ref := {| CallButtons.kind := CallButtons.Dm; CallButtons.ref_id := "x" |}.
Definition film : Manifest := tuple_manifest ("f", "h", "film", "video", 10, 4, 3, ("", "", None, "bob"))%N.
Definition piece (i : N) : ChunkFrame :=
  {| Attachments.cf_attachment_id := "f"; Attachments.chunk_index := i; Attachments.ciphertext_b64 := "c" |}.
Definition film_id : string := name CallButtons.toy_random 0.

Definition admitted (script : list tx_outcome) : Store.Persistence :=
  (prepare_user_transfer CallButtons.toy_random chat Download (Some "f") 10 1 (new_store script)).1.
Definition bound (script : list tx_outcome) : Store.Persistence := (bind_user_transfer film_id chat film 2 (admitted script)).1.
Definition two_pieces := save_user_transfer_chunks film_id [piece 2; piece 0; piece 2] 3 (bound []).

Lemma bound_reached script : rtc (transfer_step CallButtons.toy_random) (new_store script) (bound script).
Proof. eapply rtc_l; [apply (step_prepare _ _ chat Download (Some "f") 10 1)|]. apply rtc_once, step_bind. Qed.


(** The record read back. *)
Definition film_record (s : Store.Persistence) : option TransferRecord := default None (res_ok (user_transfer film_id s)).

Lemma transfer_identity_witness : exists r r2, user_transfer film_id (bound []) = Ok (Some r) /\
  user_transfer film_id two_pieces.1 = Ok (Some r2) /\ completed_bytes (view r2) = 6%N /\
  (r2 = r \/ (revision (view r) < revision (view r2))%N).
Proof.
  destruct (film_record (bound [])) as [r|] eqn:Hr; [|vm_compute in Hr; discriminate].
  destruct (film_record two_pieces.1) as [r2|] eqn:Hr2; [|vm_compute in Hr2; discriminate].
  exists r, r2. assert (H1 : user_transfer film_id (bound []) = Ok (Some r)) by (rewrite <-Hr; vm_compute; reflexivity).
  assert (H2 : user_transfer film_id two_pieces.1 = Ok (Some r2)) by (rewrite <-Hr2; vm_compute; reflexivity).
  split; [done|]. split; [done|]. split; [by vm_compute in Hr2; injection Hr2 as <-|].
  refine (proj2 (transfer_identity CallButtons.toy_random toy_name_inj film_id (new_store []) (bound []) two_pieces.1 r (Some r2)
    eq_refl (bound_reached []) H1 _ H2)).
  apply rtc_once, step_chunks.
Defined.

(** Two new chunks of three given, saved once each. *)
Lemma checkpoint_exact_witness : res_ok two_pieces.2 = Some tt /\ exists k r m new, row_key film_id = Ok k /\
  checkpoint film_id k [piece 2; piece 0; piece 2] (draft_of (bound [])) (draft_of two_pieces.1) r m new.
Proof.
  assert (Hok : two_pieces = (two_pieces.1, Ok tt)) by (apply surjective_pairing_eq; vm_compute; reflexivity).
  split; [vm_compute; reflexivity|].
  unfold two_pieces in Hok at 1. destruct (checkpoint_exact CallButtons.toy_random toy_name_inj film_id _ 3 (new_store []) (bound []) two_pieces.1 (Ok tt)
    eq_refl (bound_reached []) Hok) as [[_ [=]]|H]. exact H.
Defined.

Definition forgotten := delete_conversation DM_HISTORY "x" two_pieces.1.
Lemma conversation_deleted_witness : res_ok forgotten.2 = Some tt /\ film_record forgotten.1 = None /\
  recs (draft_of forgotten.1) = filter (fun kv => belongs DM_HISTORY "x" kv.2 = false) (recs (draft_of two_pieces.1)).
Proof.
  assert (Hok : forgotten = (forgotten.1, Ok tt)) by (apply surjective_pairing_eq; vm_compute; reflexivity).
  split; [vm_compute; reflexivity|]. split; [vm_compute; reflexivity|]. unfold forgotten in Hok at 1.
  refine (proj1 (conversation_deleted CallButtons.toy_random toy_name_inj DM_HISTORY "x" (new_store []) two_pieces.1 forgotten.1
    (or_introl eq_refl) eq_refl _ Hok)).
  eapply rtc_r; [apply bound_reached|]. apply step_chunks.
Defined.

(** The index of an older version: the record runs, and nothing is shown. *)
Definition unshown : Store.Persistence := (transact (remove_current_transfer film_id) (bound [])).1.
Definition repaired := restore_current_transfer_index (fun _ => 9%N) unshown.
Lemma restore_repairs_witness : current_user_transfers unshown = Ok [] /\ book_ok CallButtons.toy_random (draft_of repaired.1).
Proof.
  assert (Hok : repaired = (repaired.1, Ok tt)) by (apply surjective_pairing_eq; vm_compute; reflexivity).
  split; [vm_compute; reflexivity|].
  unfold repaired in Hok at 1. refine (restore_repairs CallButtons.toy_random toy_name_inj (fun _ => 9%N) unshown repaired.1 _ Hok).
  apply (hidden_sound CallButtons.toy_random toy_name_inj).
  exact (proj1 (reached_ok CallButtons.toy_random toy_name_inj (new_store []) (bound []) eq_refl (bound_reached []))).
Defined.

End UserTransfers.
