(* ===== verification/Files.v ===== *)
(** * Files: the cached files of attachments
      ([attachment_store.rs], [attachment_store/cleanup.rs],
      [persistence/attachment_refs.rs])

    Every attachment lives under the hash of its content, in a file with the
    sender's name.  A file is written beside its place and renamed, a lease
    keeps it while a transfer knows it, and it is removed only when no lease
    and no stored message refers to it.  A path is the directory's hash and the
    file's name, below the store's root ([""] for the root itself); the names
    ["."] and [".."] mean directories, taken to exist, on which every call that
    moves or removes a file fails.  Each file system call may fail, a write
    after a part of it ([faults]); one store is used by one thread at a time
    (the lock around the leases). *)
From S2P Require Import Prelude Values Store Attachments Deletion Erasure Rows.

Module Files.
Import Store Values Rows.
Import (hints) Deletion.
Abbreviation str := Deletion.str.

#[local] Open Scope mosh_scope.
#[local] Set Default Proof Using "Type".

Definition MAX_FILE_NAME_LEN : nat := 200.
Definition Path : Type := string * string.

Inductive AttachmentStoreError := Io (e : string) | HashMismatch (expected actual : string) | InvalidHash (v : string).

(** ** The file system *)

Record fault := { f_error : string; f_kept : nat }.
Record AttachmentStore := { disk : gmap Path bytes; leases : gmap Path N; faults : list (option fault) }.
Abbreviation fs := (method AttachmentStore AttachmentStoreError).

Definition set_disk (d : gmap Path bytes) (w : AttachmentStore) : AttachmentStore :=
  {| disk := d; leases := leases w; faults := faults w |}.
Definition set_leases (l : gmap Path N) (w : AttachmentStore) : AttachmentStore :=
  {| disk := disk w; leases := l; faults := faults w |}.

(** One call: [done] when it succeeds, [torn] when it fails. *)
Definition call (done : gmap Path bytes -> gmap Path bytes) (torn : nat -> gmap Path bytes -> gmap Path bytes) : fs unit := fun w =>
  let w' := {| disk := disk w; leases := leases w; faults := tail (faults w) |} in
  match head (faults w) with
  | Some (Some f) => (set_disk (torn (f_kept f) (disk w)) w', Err (Io (f_error f)))
  | _ => (set_disk (done (disk w)) w', Ok tt)
  end.
Definition kept_all (n : nat) (d : gmap Path bytes) : gmap Path bytes := d.
Definition appended (p : Path) (b : bytes) (d : gmap Path bytes) : gmap Path bytes := <[ p := default [] (d !! p) ++ b ]> d.

Definition create_dir_all : fs unit := call (fun d => d) kept_all.
Definition file_create (p : Path) : fs unit := call <[ p := [] ]> kept_all.
Definition write_all (p : Path) (b : bytes) : fs unit := call (appended p b) (fun n => appended p (take n b)).
Definition sync_all : fs unit := call (fun d => d) kept_all.
Definition names_directory (p : Path) : bool := String.eqb p.2 "." || String.eqb p.2 "..".
Definition on_file (p : Path) (m : fs unit) : fs unit :=
  if names_directory p then m_lift (Err (Io "is a directory")) else m.
Definition rename (p q : Path) : fs unit :=
  on_file q (call (fun d => match d !! p with Some b => <[ q := b ]> (delete p d) | None => d end) kept_all).
Definition remove_file (p : Path) : fs unit := on_file p (call (delete p) kept_all).

(** ** Names and paths *)

Definition is_ascii_hexdigit (c : N) : bool :=
  ((48 <=? c) && (c <=? 57) || (65 <=? c) && (c <=? 70) || (97 <=? c) && (c <=? 102))%N.
Definition validate_hash (h : string) : result AttachmentStoreError unit :=
  guard_or ((str_len h =? 64)%N && forallb is_ascii_hexdigit (chars h)) (InvalidHash h).

(** Path separators and control characters. *)
Definition unsafe_char (c : N) : bool := (c =? 47)%N || (c =? 92)%N || (c =? 58)%N || is_control c.
Definition dot : N := 46.
Definition cleaned (raw : string) : list N := map (fun c => if unsafe_char c then 95%N else c) (chars raw).
Definition trimmed (raw : string) : list N :=
  trim_matches is_whitespace (trim_matches (N.eqb dot) (trim_matches is_whitespace (cleaned raw))).
Definition sanitize_file_name (raw : string) : string :=
  match take MAX_FILE_NAME_LEN (trimmed raw) with [] => "file" | bounded => of_chars bounded end.

Definition to_ascii_lowercase (s : string) : string :=
  String.string_of_list_ascii (map (fun a => if ((65 <=? byte_at a) && (byte_at a <=? 90))%N
                                             then Ascii.ascii_of_N (byte_at a + 32) else a) (String.list_ascii_of_string s)).

Definition path_for (hash name : string) : result AttachmentStoreError Path :=
  _ ← validate_hash hash; Ok (hash, sanitize_file_name name).
(** [file_name] of a path that ends in [.] is its directory's, of one that ends
    in [..] none, and the parent of either is the store's root. *)
Definition temp_path_for (p : Path) : Path :=
  if String.eqb p.2 "." then ("", p.1 +:+ ".partial")
  else if String.eqb p.2 ".." then ("", ".partial")
  else (p.1, p.2 +:+ ".partial").

Section Files.
Variable sha256 : bytes -> bytes.
Definition file_hash (b : bytes) : string := hex_string (sha256 b).

Definition exists_file (hash name : string) (w : AttachmentStore) : result AttachmentStoreError bool :=
  p ← path_for hash name; Ok (bool_decide (is_Some (disk w !! p))).

(** ** Writing *)

Definition write_atomic (p : Path) (b : bytes) : fs unit :=
  let temp := temp_path_for p in
  file_create temp;;; write_all temp b;;; sync_all;;; rename temp p.

Definition write_blob (hash name : string) (b : bytes) : fs Path :=
  if negb (String.eqb (file_hash b) (to_ascii_lowercase hash))
  then m_lift (Err (HashMismatch hash (file_hash b)))
  else
    p <~ m_lift (path_for hash name);;
    create_dir_all;;;
    write_atomic p b;;;
    m_ret p.

Definition file_open (p : Path) : fs bytes := fun w =>
  match call (fun d => d) kept_all w with
  | (w', Err e) => (w', Err e)
  | (w', Ok _) => (w', ok_or (disk w !! p) (Io "not found"))
  end.
Definition read_blob (hash name : string) : fs bytes :=
  p <~ m_lift (path_for hash name);; b <~ file_open p;; call (fun d => d) kept_all;;; m_ret b.

(** *** Piece by piece *)

Record AttachmentWriter := { expected_hash : string; final_path : Path; temp_path : Path; hashed : bytes }.
Definition open_writer (hash name : string) : fs AttachmentWriter :=
  p <~ m_lift (path_for hash name);;
  create_dir_all;;;
  file_create (temp_path_for p);;;
  m_ret {| expected_hash := to_ascii_lowercase hash; final_path := p; temp_path := temp_path_for p; hashed := [] |}.
(** The writer after the chunk; after an error its hash is as before. *)
Definition write_chunk (b : bytes) (f : AttachmentWriter) : fs AttachmentWriter :=
  write_all (temp_path f) b;;;
  m_ret {| expected_hash := expected_hash f; final_path := final_path f; temp_path := temp_path f; hashed := hashed f ++ b |}.
Definition finalize (f : AttachmentWriter) : fs Path :=
  sync_all;;;
  (if negb (String.eqb (file_hash (hashed f)) (expected_hash f))
   then (fun w => ((remove_file (temp_path f) w).1, Err (HashMismatch (expected_hash f) (file_hash (hashed f)))))
   else rename (temp_path f) (final_path f);;; m_ret (final_path f)).
Definition abort (f : AttachmentWriter) : fs unit := fun w =>
  if bool_decide (is_Some (disk w !! temp_path f)) then remove_file (temp_path f) w else (w, Ok tt).

End Files.

(** ** Leases ([cleanup.rs]) *)

Definition retain (hash name : string) : fs unit :=
  p <~ m_lift (path_for hash name);;
  (fun w => (set_leases (<[ p := (default 0 (leases w !! p) + 1)%N ]> (leases w)) w, Ok tt)).
Definition release (hash name : string) (w : AttachmentStore) : AttachmentStore :=
  match path_for hash name with
  | Err _ => w
  | Ok p =>
      match leases w !! p with
      | None => w
      | Some n => if (n - 1 =? 0)%N then set_leases (delete p (leases w)) w else set_leases (<[ p := (n - 1)%N ]> (leases w)) w
      end
  end.

Definition display_error (e : AttachmentStoreError) : string :=
  match e with
  | Io e => "attachment store io: " +:+ e
  | HashMismatch e a => "attachment hash mismatch: expected " +:+ e +:+ ", got " +:+ a
  | InvalidHash v => "invalid attachment hash: " +:+ v
  end.

(** Removing what is not there is fine. *)
Definition remove_if_unused (hash name : string) (referenced : unit -> result string bool) : method AttachmentStore string bool := fun w =>
  match path_for hash name with
  | Err e => (w, Err (display_error e))
  | Ok p =>
      if bool_decide (is_Some (leases w !! p)) then (w, Ok false)
      else match referenced tt with
           | Err e => (w, Err e)
           | Ok true => (w, Ok false)
           | Ok false =>
               if bool_decide (disk w !! p = None) && negb (names_directory p) then (w, Ok true)
               else match remove_file p w with
                    | (w', Ok _) => (w', Ok true)
                    | (w', Err e) => (w', Err (match e with Io e => e | e => display_error e end))
                    end
           end
  end.

(** ** Stored references ([attachment_refs.rs]) *)

Section References.
Context {aes : Aes} {json : ValueJson}.

Definition refers (hash name : string) (v : Value) : bool :=
  bool_decide (get "content_hash" v ≫= as_str = Some hash)
  && match get "file_name" v ≫= as_str with
     | Some stored => String.eqb (sanitize_file_name stored) (sanitize_file_name name)
     | None => false
     end.
Definition refers_at (hash name : string) (o : option Value) : bool :=
  match o with Some v => refers hash name v | None => false end.

Definition parse (b : bytes) : result PersistenceError Value := map_err Json (value_from_slice b).
Definition message_refers (hash name : string) (b : bytes) : result PersistenceError bool :=
  row ← parse b;
  Ok (refers_at hash name (pointer ["message"; "attachment"] row) || refers_at hash name (get "preview_manifest" row)).
Definition attempt_refers (hash name : string) (b : bytes) : result PersistenceError bool :=
  row ← parse b;
  match get "message_json" row ≫= as_str with
  | Some m => message ← parse (String.list_byte_of_string m); Ok (refers_at hash name (get "attachment" message))
  | None => Ok false
  end.

(** The loop over the rows of a table, left at the first hit. *)
Fixpoint any_row (f : bytes -> result PersistenceError bool) (l : list (string * bytes)) : result PersistenceError bool :=
  match l with
  | [] => Ok false
  | kv :: l => hit ← f kv.2; if (hit : bool) then Ok true else any_row f l
  end.
Fixpoint any_table (f : bytes -> result PersistenceError bool) (ts : list string) (s : Store.Persistence) : result PersistenceError bool :=
  match ts with
  | [] => Ok false
  | t :: ts => l ← p_list_rows t s; hit ← any_row f l; if (hit : bool) then Ok true else any_table f ts s
  end.
Definition attachment_referenced (hash name : string) (s : Store.Persistence) : result PersistenceError bool :=
  hit ← any_table (message_refers hash name) [MESSAGES; GROUP_MESSAGES; CHANNEL_MESSAGES] s;
  if (hit : bool) then Ok true else any_table (attempt_refers hash name) [OUTBOUND_ATTEMPTS] s.

End References.
(** ** What one call does *)

Lemma call_cases done torn w w' r : call done torn w = (w', r) ->
  leases w' = leases w /\
  (r = Ok tt /\ disk w' = done (disk w) \/ exists e n, r = Err (Io e) /\ disk w' = torn n (disk w)).
Proof.
  unfold call. destruct (head (faults w)) as [[f|]|]; intros [= <- <-]; (split; [done|]); eauto 6.
Qed.

Lemma on_file_cases p done w w' r : on_file p (call done kept_all) w = (w', r) ->
  leases w' = leases w /\
  (r = Ok tt /\ disk w' = done (disk w) /\ names_directory p = false \/ exists e, r = Err (Io e) /\ disk w' = disk w).
Proof.
  unfold on_file. destruct (names_directory p); [intros [= <- <-]; eauto 6|].
  intros [Hl [[-> ->]|(e & n & -> & ->)]]%call_cases; eauto 6.
Qed.

(** Where two stores agree. *)
Definition same_but (a b : Path) (w w' : AttachmentStore) : Prop :=
  leases w' = leases w /\ forall q, q <> a -> q <> b -> disk w' !! q = disk w !! q.

#[local] Instance same_but_preorder a b : PreOrder (same_but a b).
Proof.
  split; [by intros w|]. intros w1 w2 w3 [Hl H] [Hl' H']. split; [congruence|]. intros q Ha Hb. by rewrite H', H.
Qed.

Lemma temp_path_ne p : temp_path_for p <> p.
Proof.
  destruct p as [h n]. unfold temp_path_for. cbn [fst snd].
  destruct (String.eqb_spec n ".") as [->|]; [by intros [= <-]|].
  destruct (String.eqb_spec n "..") as [->|]; [by intros [= <-]|].
  intros [= He]. apply (f_equal String.length) in He. rewrite append_length in He. cbn in He. lia.
Qed.


(** A write either puts exactly these bytes at the path, or leaves what the
    path held; only the file beside it may change as well. *)
Lemma write_atomic_spec p b w w' r : write_atomic p b w = (w', r) ->
  same_but p (temp_path_for p) w w' /\
  match r with
  | Ok _ => disk w' !! p = Some b /\ names_directory p = false
  | Err _ => disk w' !! p = disk w !! p
  end.
Proof.
  pose proof (temp_path_ne p) as Hne. set (t := temp_path_for p) in *.
  unfold write_atomic, m_bind. fold t. intros H.
  destruct (file_create t w) as [w1 r1] eqn:E1. apply call_cases in E1 as [L1 [[-> D1]|(e & n & -> & D1)]];
    [|injection H as <- <-; by repeat split; intros; rewrite ?D1].
  destruct (write_all t b w1) as [w2 r2] eqn:E2. unfold write_all in E2.
  assert (K1 : forall q, q <> t -> disk w1 !! q = disk w !! q) by (intros; by rewrite D1, lookup_insert_ne).
  apply call_cases in E2 as [L2 HE2].
  assert (K2 : forall q, q <> t -> disk w2 !! q = disk w !! q)
    by (destruct HE2 as [[_ D]|(? & ? & _ & D)]; intros; rewrite D; unfold appended; rewrite lookup_insert_ne by done; auto).
  destruct HE2 as [[-> D2]|(e & n & -> & D2)]; [|injection H as <- <-; repeat split; [congruence|auto|auto]].
  assert (B2 : disk w2 !! t = Some b) by (rewrite D2, D1; unfold appended; by rewrite !lookup_insert_eq).
  destruct (sync_all w2) as [w3 r3] eqn:E3. apply call_cases in E3 as [L3 [[-> D3]|(e & n & -> & D3)]];
    [|injection H as <- <-; repeat split; [congruence|intros; rewrite D3; unfold kept_all; auto|rewrite D3; unfold kept_all; auto]].
  apply on_file_cases in H as [L4 [(-> & D4 & Hd)|(e & -> & D4)]].
  - rewrite D3, B2 in D4. split; [|by rewrite D4, lookup_insert_eq]. split; [congruence|].
    intros q Hp Ht. rewrite D4, lookup_insert_ne, lookup_delete_ne by done. auto.
  - rewrite D3 in D4. split; [split; [congruence|intros; rewrite D4; auto]|rewrite D4; auto].
Qed.

Lemma path_for_Ok h n p : path_for h n = Ok p -> validate_hash h = Ok tt /\ p = (h, sanitize_file_name n).
Proof. unfold path_for. destruct (validate_hash h) as [[]|]; [|done]. by intros [= <-]. Qed.


(** ** Names *)

Lemma cleaned_safe raw c : Forall is_char (chars raw) -> c ∈ cleaned raw -> unsafe_char c = false /\ is_char c.
Proof.
  intros Hc (c0 & -> & H0)%list_elem_of_fmap. rewrite Forall_forall in Hc. destruct (unsafe_char c0) eqn:Hu; [|by auto].
  done.
Qed.

(** A peer's file name becomes one component of a path: whatever it said, the
    name used on disk is neither empty nor longer than 200 characters, and holds
    no separator, no drive colon and no control character. *)
Theorem names_contained raw (Hraw : Forall is_char (chars raw)) :
  sanitize_file_name raw <> "" /\ length (chars (sanitize_file_name raw)) <= MAX_FILE_NAME_LEN /\
  Forall (fun c => unsafe_char c = false) (chars (sanitize_file_name raw)).
Proof.
  assert (Hin : forall c, c ∈ take MAX_FILE_NAME_LEN (trimmed raw) -> unsafe_char c = false /\ is_char c).
  { intros c (k & Hk & _)%elem_of_take. apply list_elem_of_lookup_2 in Hk.
    apply (cleaned_safe raw); [done|]. by do 3 eapply trim_matches_elem. }
  pose proof (length_take (trimmed raw) MAX_FILE_NAME_LEN) as Hlen. unfold sanitize_file_name.
  destruct (take MAX_FILE_NAME_LEN (trimmed raw)) as [|c l]; [split; [done|]; split; [vm_compute; lia|by repeat constructor]|].
  assert (Hch : chars (of_chars (c :: l)) = c :: l) by (apply chars_of_chars, Forall_forall; intros x Hx; by apply Hin).
  split; [intros He; by rewrite He in Hch|]. rewrite Hch. split; [lia|]. apply Forall_forall. intros x Hx. by apply Hin.
Qed.

(** The name may still be the one of a directory. *)
Example a_name_escapes : sanitize_file_name ". .. ." = "..".
Proof. reflexivity. Qed.

(** ** Content addressing *)

(** The names of files in the making. *)
Definition partial (p : Path) : Prop := exists s, p.2 = s +:+ ".partial".

Lemma temp_partial p : partial (temp_path_for p).
Proof.
  unfold temp_path_for, partial. repeat case_match; cbn; [by eexists|by exists ""|by eexists].
Qed.

Section Content.
Variable sha256 : bytes -> bytes.
Abbreviation write_blob := (write_blob sha256).
Abbreviation finalize := (finalize sha256).

(** Every finished file has the content its directory names. *)
Definition addressed (w : AttachmentStore) : Prop :=
  forall p b, disk w !! p = Some b -> ~ partial p -> file_hash sha256 b = to_ascii_lowercase p.1.

Lemma write_blob_spec h n b w w' r : write_blob h n b w = (w', r) ->
  match r with
  | Ok p => path_for h n = Ok p /\ file_hash sha256 b = to_ascii_lowercase h /\ disk w' !! p = Some b /\
            same_but p (temp_path_for p) w w'
  | Err _ => leases w' = leases w /\ forall q, (forall p, path_for h n = Ok p -> q <> temp_path_for p) -> disk w' !! q = disk w !! q
  end.
Proof.
  unfold Files.write_blob. destruct (String.eqb_spec (file_hash sha256 b) (to_ascii_lowercase h)) as [Hh|];
    [cbn [negb]|by intros [= <- <-]].
  unfold m_bind, m_lift. destruct (path_for h n) as [p|e] eqn:Hp; [|by intros [= <- <-]].
  destruct (create_dir_all w) as [w1 r1] eqn:E1. apply call_cases in E1 as [L1 [[-> D1]|(e & k & -> & D1)]];
    [|intros [= <- <-]; split; [done|]; intros; by rewrite D1].
  destruct (write_atomic p b w1) as [w2 r2] eqn:E2. apply write_atomic_spec in E2 as [[L2 K2] H2].
  destruct r2 as [[]|e]; intros [= <- <-].
  - destruct H2 as [H2 _]. repeat split; [done..|congruence|]. intros q Hq Ht. by rewrite K2, D1.
  - split; [congruence|]. intros q Hq. destruct (decide (q = p)) as [->|Hqp]; [by rewrite H2, D1|].
    rewrite K2, D1; [done..|]. by apply Hq.
Qed.

(** *** A file written piece by piece *)

Fixpoint write_chunks (chunks : list bytes) (f : AttachmentWriter) : fs AttachmentWriter :=
  match chunks with [] => m_ret f | b :: chunks => f <~ write_chunk b f;; write_chunks chunks f end.
Definition stream_blob (h n : string) (chunks : list bytes) : fs Path :=
  f <~ open_writer h n;; f <~ write_chunks chunks f;; finalize f.

(** Finished files and leases are as they were. *)
Definition same_final (w w' : AttachmentStore) : Prop :=
  leases w' = leases w /\ forall q, ~ partial q -> disk w' !! q = disk w !! q.
#[local] Instance same_final_preorder : PreOrder same_final.
Proof. split; [by intros w|]. intros w1 w2 w3 [Hl H] [Hl' H']. split; [congruence|]. intros q Hq. by rewrite H', H. Qed.

(** A writer between two calls. *)
Definition writing (h n : string) (f : AttachmentWriter) (w : AttachmentStore) : Prop :=
  path_for h n = Ok (final_path f) /\ temp_path f = temp_path_for (final_path f) /\
  expected_hash f = to_ascii_lowercase h /\ disk w !! temp_path f = Some (hashed f).

Lemma same_final_temp p v w w' : leases w' = leases w -> disk w' = <[ temp_path_for p := v ]> (disk w) -> same_final w w'.
Proof.
  intros Hl Hd. split; [done|]. intros q Hq. rewrite Hd, lookup_insert_ne; [done|]. intros <-. apply Hq, temp_partial.
Qed.

Lemma open_writer_spec h n w w' r : open_writer h n w = (w', r) ->
  same_final w w' /\ forall f, r = Ok f -> writing h n f w' /\ hashed f = [].
Proof.
  unfold open_writer, m_bind, m_lift. destruct (path_for h n) as [p|e] eqn:Hp; [|by intros [= <- <-]].
  destruct (create_dir_all w) as [w1 r1] eqn:E1. apply call_cases in E1 as [L1 [[-> D1]|(e & k & -> & D1)]];
    [|intros [= <- <-]; split; [by split; [|rewrite D1]|done]].
  destruct (file_create (temp_path_for p) w1) as [w2 r2] eqn:E2. apply call_cases in E2 as [L2 [[-> D2]|(e & k & -> & D2)]];
    intros [= <- <-]; rewrite D1 in D2.
  - split; [by apply (same_final_temp p []); [congruence|]|]. intros f [= <-]. split; [|done].
    repeat split; cbn; [done|]. by rewrite D2, lookup_insert_eq.
  - split; [|done]. split; [congruence|]. by rewrite D2.
Qed.

Lemma write_chunk_spec h n b f w w' r : writing h n f w -> write_chunk b f w = (w', r) ->
  same_final w w' /\ forall f', r = Ok f' -> writing h n f' w' /\ hashed f' = hashed f ++ b.
Proof.
  intros (Hp & Ht & He & Hd). unfold write_chunk, m_bind. destruct (write_all (temp_path f) b w) as [w1 r1] eqn:E1.
  apply call_cases in E1 as [L1 [[-> D1]|(e & k & -> & D1)]]; intros [= <- <-]; unfold appended in D1;
    rewrite Hd in D1; cbn in D1.
  - split; [by eapply (same_final_temp (final_path f)); [|rewrite <- Ht]|]. intros f' [= <-]. split; [|done].
    repeat split; cbn; [done..|]. by rewrite D1, lookup_insert_eq.
  - split; [|done]. by eapply (same_final_temp (final_path f)); [|rewrite <- Ht].
Qed.

Lemma write_chunks_spec h n chunks f w w' r : writing h n f w -> write_chunks chunks f w = (w', r) ->
  same_final w w' /\ forall f', r = Ok f' -> writing h n f' w' /\ hashed f' = hashed f ++ concat chunks.
Proof.
  revert f w. induction chunks as [|b chunks IH]; intros f w Hw; cbn.
  { intros [= <- <-]. split; [done|]. intros f' [= <-]. by rewrite app_nil_r. }
  unfold m_bind. destruct (write_chunk b f w) as [w1 [f1|e]] eqn:E1; pose proof (write_chunk_spec _ _ _ _ _ _ _ Hw E1) as [Hs Hf].
  - destruct (Hf _ eq_refl) as [Hw1 Hh1]. intros [Hs' Hf']%(IH f1); [|done]. split; [by etrans|].
    intros f' Hr. destruct (Hf' _ Hr) as [? ->]. by rewrite Hh1, app_assoc.
  - by intros [= <- <-].
Qed.

Lemma finalize_spec h n f w w' r : writing h n f w -> finalize f w = (w', r) ->
  match r with
  | Ok p => p = final_path f /\ file_hash sha256 (hashed f) = to_ascii_lowercase h /\ disk w' !! p = Some (hashed f) /\
            leases w' = leases w /\ forall q, q <> p -> ~ partial q -> disk w' !! q = disk w !! q
  | Err _ => same_final w w'
  end.
Proof.
  intros (Hp & Ht & He & Hd). pose proof (temp_path_ne (final_path f)) as Hne. pose proof (temp_partial (final_path f)) as Hpt.
  rewrite <- Ht in Hne, Hpt. unfold Files.finalize, m_bind.
  destruct (sync_all w) as [w1 r1] eqn:E1. apply call_cases in E1 as [L1 [[-> D1]|(e & k & -> & D1)]];
    [|intros [= <- <-]; split; [done|by rewrite D1]].
  destruct (String.eqb_spec (file_hash sha256 (hashed f)) (expected_hash f)) as [Hh|]; cbn [negb].
  - destruct (rename (temp_path f) (final_path f) w1) as [w2 r2] eqn:E2.
    apply on_file_cases in E2 as [L2 [(-> & D2 & _)|(e & -> & D2)]]; intros [= <- <-].
    + rewrite D1, Hd in D2. split; [done|]. split; [congruence|]. rewrite D2, lookup_insert_eq. split; [done|].
      split; [congruence|]. intros q Hq Hnp. rewrite lookup_insert_ne, lookup_delete_ne; [done|by intros <-|done].
    + split; [congruence|]. by rewrite D2, D1.
  - destruct (remove_file (temp_path f) w1) as [w2 r2] eqn:E2.
    apply on_file_cases in E2 as [L2 [(-> & D2 & _)|(e' & -> & D2)]]; intros [= <- <-];
      (split; [cbn; congruence|]); intros q Hq; cbn; rewrite D2, D1; [|done].
    rewrite lookup_delete_ne; [done|by intros <-].
Qed.

Lemma stream_blob_spec h n chunks w w' r : stream_blob h n chunks w = (w', r) ->
  match r with
  | Ok p => path_for h n = Ok p /\ file_hash sha256 (concat chunks) = to_ascii_lowercase h /\
            disk w' !! p = Some (concat chunks) /\
            leases w' = leases w /\ forall q, q <> p -> ~ partial q -> disk w' !! q = disk w !! q
  | Err _ => same_final w w'
  end.
Proof.
  unfold stream_blob, m_bind. destruct (open_writer h n w) as [w1 [f|e]] eqn:E1;
    apply open_writer_spec in E1 as [Hs1 Hf1]; [|by intros [= <- <-]].
  destruct (Hf1 _ eq_refl) as [Hw1 Hh1]. destruct (write_chunks chunks f w1) as [w2 [f2|e]] eqn:E2;
    pose proof (write_chunks_spec _ _ _ _ _ _ _ Hw1 E2) as [Hs2 Hf2]; [|intros [= <- <-]; by etrans].
  destruct (Hf2 _ eq_refl) as [Hw2 Hh2]. rewrite Hh1 in Hh2. cbn in Hh2. assert (Hs : same_final w w2) by by etrans.
  intros E3. pose proof (finalize_spec _ _ _ _ _ _ Hw2 E3) as H3. destruct r as [p|e]; [|by etrans].
  destruct H3 as (-> & Hh & Hd & Hl & Ho). destruct Hs as [Hsl Hso]. rewrite <- Hh2. destruct Hw2 as [Hp _].
  split; [done|]. split; [done|]. split; [done|]. split; [congruence|]. intros q Hq Hnp. by rewrite Ho, Hso.
Qed.

(** ** Removal *)

Lemma remove_if_unused_spec h n refd w w' r : remove_if_unused h n refd w = (w', r) ->
  leases w' = leases w /\
  (disk w' = disk w \/
   exists p, path_for h n = Ok p /\ leases w !! p = None /\ refd tt = Ok false /\ disk w' = delete p (disk w) /\ r = Ok true).
Proof.
  unfold remove_if_unused. destruct (path_for h n) as [p|e]; [|intros [= <- <-]; by auto].
  case_bool_decide as Hl; [intros [= <- <-]; by auto|]. destruct (refd tt) as [[]|e]; [intros [= <- <-]; by auto| |intros [= <- <-]; by auto].
  case_bool_decide as Hd; cbn [andb]; [destruct (negb _); [intros [= <- <-]; by auto|]|];
    destruct (remove_file p w) as [w1 r1] eqn:E1; apply on_file_cases in E1 as [L1 [(-> & D1 & _)|(e & -> & D1)]];
    intros [= <- <-]; (split; [done|]); [right|by left|right|by left]; exists p; repeat split; auto;
    destruct (leases w !! p); [by destruct Hl|done|by destruct Hl|done].
Qed.

(** What the rest of the program does to the files of attachments. *)
Inductive file_step : AttachmentStore -> AttachmentStore -> Prop :=
| Wrote h n b w : file_step w (write_blob h n b w).1
| Streamed h n chunks w : file_step w (stream_blob h n chunks w).1
| Retained h n w : file_step w (retain h n w).1
| Released h n w : file_step w (release h n w)
| Collected h n refd w : file_step w (remove_if_unused h n refd w).1.

Lemma addressed_change w w' : addressed w ->
  (forall p b, disk w' !! p = Some b -> ~ partial p -> disk w !! p = Some b \/ file_hash sha256 b = to_ascii_lowercase p.1) ->
  addressed w'.
Proof. intros Ha H p b Hp Hn. destruct (H p b Hp Hn) as [Hb|Hb]; [by apply Ha|done]. Qed.

Lemma path_dir h n p : path_for h n = Ok p -> p.1 = h.
Proof. by intros [_ ->]%path_for_Ok. Qed.

Lemma file_step_addressed w w' : file_step w w' -> addressed w -> addressed w'.
Proof.
  destruct 1 as [h n b w|h n chunks w|h n w|h n w|h n refd w]; intros Ha; apply (addressed_change w); try done; intros p b' Hp Hnp.
  - destruct (write_blob h n b w) as [w' r] eqn:E. apply write_blob_spec in E. cbn in Hp. destruct r as [p0|e].
    + destruct E as (Hpath & Hh & Hd & _ & Ho). destruct (decide (p = p0)) as [->|Hne].
      * right. rewrite Hd in Hp. injection Hp as <-. by rewrite (path_dir _ _ _ Hpath).
      * left. rewrite <- Hp. symmetry. apply Ho; [done|]. intros ->. apply Hnp, temp_partial.
    + left. rewrite <- Hp. symmetry. apply E. intros p0 _ ->. apply Hnp, temp_partial.
  - destruct (stream_blob h n chunks w) as [w' r] eqn:E. apply stream_blob_spec in E. cbn in Hp. destruct r as [p0|e].
    + destruct E as (Hpath & Hh & Hd & _ & Ho). destruct (decide (p = p0)) as [->|Hne].
      * right. rewrite Hd in Hp. injection Hp as <-. by rewrite (path_dir _ _ _ Hpath).
      * left. rewrite <- Hp. symmetry. by apply Ho.
    + left. rewrite <- Hp. symmetry. by apply E.
  - left. unfold retain, m_bind, m_lift in Hp. by destruct (path_for h n).
  - left. unfold release in Hp. by repeat case_match.
  - left. destruct (remove_if_unused h n refd w) as [w' r] eqn:E.
    apply remove_if_unused_spec in E as [_ [E|(p0 & _ & _ & _ & E & _)]]; cbn in Hp; rewrite E in Hp; [done|].
    by apply lookup_delete_Some in Hp as [_ ?].
Qed.

(** Content addressing: whatever was written, written piece by piece, leased or
    removed since the store was empty, and whichever file system calls failed
    half way, a finished file holds exactly the bytes whose hash its directory
    names. *)
Theorem content_addressed w0 w p b (H0 : disk w0 = ∅) (Hr : rtc file_step w0 w)
  (Hp : disk w !! p = Some b) (Hn : ~ partial p) : file_hash sha256 b = to_ascii_lowercase p.1.
Proof.
  assert (Ha : addressed w0) by (intros q c; by rewrite H0, lookup_empty). clear H0. revert Ha.
  induction Hr as [w|w1 w2 w3 Hs _ IH]; intros Ha; [by apply Ha|]. apply IH; [done|]. by eapply file_step_addressed.
Qed.

(** ** Two ways to the same file *)

Lemma call_healthy done torn w : faults w = [] -> call done torn w = (set_disk (done (disk w)) w, Ok tt).
Proof. intros Hf. unfold call. rewrite Hf. destruct w as [d l f]. cbn in *. by subst. Qed.

Lemma on_file_healthy p done w : faults w = [] ->
  on_file p (call done kept_all) w =
    if names_directory p then (w, Err (Io "is a directory")) else (set_disk (done (disk w)) w, Ok tt).
Proof. intros Hf. unfold on_file. destruct (names_directory p); [done|]. by apply call_healthy. Qed.

Lemma write_chunks_healthy chunks f w : faults w = [] -> disk w !! temp_path f = Some (hashed f) ->
  write_chunks chunks f w =
    (set_disk (<[ temp_path f := hashed f ++ concat chunks ]> (disk w)) w,
     Ok {| expected_hash := expected_hash f; final_path := final_path f; temp_path := temp_path f;
           hashed := hashed f ++ concat chunks |}).
Proof.
  revert f w. induction chunks as [|b chunks IH]; intros f w Hf Hd; cbn [write_chunks concat].
  { rewrite app_nil_r. rewrite insert_id by done. by destruct w, f. }
  unfold m_bind, write_chunk, m_bind, write_all. rewrite call_healthy by done. cbn [m_ret]. unfold m_ret.
  rewrite IH; cbn; [|done|unfold appended; rewrite Hd; apply lookup_insert_eq].
  unfold appended, set_disk. cbn. rewrite insert_insert_eq, <- app_assoc. done.
Qed.

(** The store after a write of a file that no call refused. *)
Definition written (p : Path) (b : bytes) (w : AttachmentStore) : AttachmentStore * result AttachmentStoreError Path :=
  if names_directory p
  then (set_disk (<[ temp_path_for p := b ]> (disk w)) w, Err (Io "is a directory"))
  else (set_disk (<[ p := b ]> (delete (temp_path_for p) (disk w))) w, Ok p).

Lemma set_disk_set d d' w : set_disk d (set_disk d' w) = set_disk d w.
Proof. done. Qed.
Lemma set_disk_id w : set_disk (disk w) w = w.
Proof. by destruct w. Qed.

Lemma write_blob_healthy h n p b w : faults w = [] -> path_for h n = Ok p ->
  file_hash sha256 b = to_ascii_lowercase h -> write_blob h n b w = written p b w.
Proof.
  intros Hf Hp Hh. unfold Files.write_blob, m_bind, m_lift, m_ret. rewrite Hh, String.eqb_refl, Hp. cbn [negb].
  unfold create_dir_all. rewrite call_healthy by done. rewrite set_disk_id.
  unfold write_atomic, m_bind, file_create, write_all, sync_all, rename.
  do 3 rewrite call_healthy by done. rewrite on_file_healthy by done. unfold written, appended.
  cbn [disk set_disk]. rewrite lookup_insert_eq. cbn [default app]. rewrite insert_insert_eq.
  destruct (names_directory p); [done|]. rewrite lookup_insert_eq, delete_insert_eq. done.
Qed.

Lemma stream_blob_healthy h n p chunks w : faults w = [] -> path_for h n = Ok p ->
  file_hash sha256 (concat chunks) = to_ascii_lowercase h -> stream_blob h n chunks w = written p (concat chunks) w.
Proof.
  intros Hf Hp Hh. unfold stream_blob, open_writer, m_bind, m_lift, m_ret. rewrite Hp.
  unfold create_dir_all, file_create. do 2 rewrite call_healthy by done. rewrite set_disk_id.
  rewrite write_chunks_healthy; [|done|cbn; by rewrite lookup_insert_eq].
  cbn [disk set_disk hashed expected_hash temp_path final_path app]. unfold Files.finalize, m_bind, m_ret, sync_all.
  rewrite call_healthy by done. cbn [hashed expected_hash temp_path final_path]. rewrite Hh, String.eqb_refl. cbn [negb].
  unfold rename. rewrite on_file_healthy by done. unfold written. cbn [disk set_disk]. rewrite insert_insert_eq.
  destruct (names_directory p); [done|]. rewrite lookup_insert_eq, delete_insert_eq. done.
Qed.

(** When no file system call fails, writing a file piece by piece and writing
    it at once agree: both succeed and leave the same files and leases, or both
    refuse and no finished file changed. *)
Theorem streaming_agrees h n chunks w (Hf : faults w = []) :
  match write_blob h n (concat chunks) w with
  | (w', Ok p) => stream_blob h n chunks w = (w', Ok p)
  | (_, Err _) => is_ok (stream_blob h n chunks w).2 = false /\ same_final w (stream_blob h n chunks w).1
  end.
Proof.
  destruct (stream_blob h n chunks w) as [ws rs] eqn:Es. pose proof (stream_blob_spec _ _ _ _ _ _ Es) as Hs.
  destruct (write_blob h n (concat chunks) w) as [w' r] eqn:Ew. pose proof (write_blob_spec _ _ _ _ _ _ Ew) as Hw.
  destruct r as [p|e].
  - destruct Hw as (Hp & Hh & _). erewrite stream_blob_healthy in Es by done. erewrite write_blob_healthy in Ew by done. congruence.
  - destruct rs as [p|e']; [|done]. destruct Hs as (Hp & Hh & _).
    erewrite stream_blob_healthy in Es by done. erewrite write_blob_healthy in Ew by done. congruence.
Qed.

End Content.


(** ** Who refers to a file *)

Section Referenced.
Context {aes : Aes} {json : ValueJson}.

(** A stored descriptor or manifest whose file is kept at the path. *)
Definition points_at (p : Path) (v : Value) : Prop :=
  exists h n, get "content_hash" v ≫= as_str = Some h /\ get "file_name" v ≫= as_str = Some n /\ path_for h n = Ok p.
Definition some_points (p : Path) (o : option Value) : Prop := exists v, o = Some v /\ points_at p v.
Definition message_points (p : Path) (b : bytes) : Prop :=
  exists row, parse b = Ok row /\
    (some_points p (pointer ["message"; "attachment"] row) \/ some_points p (get "preview_manifest" row)).
Definition attempt_points (p : Path) (b : bytes) : Prop :=
  exists row m message, parse b = Ok row /\ get "message_json" row ≫= as_str = Some m /\
    parse (String.list_byte_of_string m) = Ok message /\ some_points p (get "attachment" message).
Definition row_points (p : Path) (t : string) : bytes -> Prop :=
  if String.eqb t OUTBOUND_ATTEMPTS then attempt_points p else message_points p.
Definition referring_tables : list string := [MESSAGES; GROUP_MESSAGES; CHANNEL_MESSAGES; OUTBOUND_ATTEMPTS].
(** A row of this store refers to the file. *)
Definition stored_reference (p : Path) (s : Store.Persistence) : Prop :=
  exists t l kv, t ∈ referring_tables /\ p_list_rows t s = Ok l /\ kv ∈ l /\ row_points p t kv.2.

Lemma refers_iff h n p v : path_for h n = Ok p -> refers h n v = true <-> points_at p v.
Proof.
  intros [Hv ->]%path_for_Ok. unfold refers, points_at. rewrite andb_true_iff, bool_decide_eq_true. split.
  - intros [Hh Hn]. destruct (get "file_name" v ≫= as_str) as [n'|] eqn:En; [|done]. apply String.eqb_eq in Hn.
    exists h, n'. split; [done|]. split; [done|]. unfold path_for. by rewrite Hv, Hn.
  - intros (h' & n' & Hh & Hn & [_ [= <- He]]%path_for_Ok). split; [done|]. rewrite Hn, He. by apply String.eqb_refl.
Qed.
Lemma refers_at_iff h n p o : path_for h n = Ok p -> refers_at h n o = true <-> some_points p o.
Proof.
  intros Hp. unfold some_points, refers_at. destruct o as [v|]; [|split; [done|by intros (v & ? & _)]].
  rewrite refers_iff by done. split; [eauto|by intros (? & [= <-] & ?)].
Qed.

Lemma message_refers_iff h n p b hit : path_for h n = Ok p -> message_refers h n b = Ok hit -> hit = true <-> message_points p b.
Proof.
  intros Hp Hr. unfold message_refers in Hr. apply bind_Ok in Hr as (row & Hrow & [= <-]). unfold message_points.
  rewrite orb_true_iff, !refers_at_iff by done. split; [eauto|]. intros (row' & Hr' & H).
  rewrite Hrow in Hr'. by injection Hr' as <-.
Qed.
Lemma attempt_refers_iff h n p b hit : path_for h n = Ok p -> attempt_refers h n b = Ok hit -> hit = true <-> attempt_points p b.
Proof.
  intros Hp Hr. unfold attempt_refers in Hr. apply bind_Ok in Hr as (row & Hrow & Hr). unfold attempt_points.
  destruct (get "message_json" row ≫= as_str) as [m|] eqn:Em.
  - apply bind_Ok in Hr as (message & Hm & [= <-]). rewrite refers_at_iff by done. split; [eauto 8|].
    intros (row' & m' & message' & Hr' & Hm' & Hp' & H). rewrite Hrow in Hr'. injection Hr' as <-.
    rewrite Em in Hm'. injection Hm' as <-. rewrite Hm in Hp'. by injection Hp' as <-.
  - injection Hr as <-. split; [done|]. intros (row' & m' & ? & Hr' & Hm' & _). rewrite Hrow in Hr'. injection Hr' as <-. by rewrite Em in Hm'.
Qed.

Lemma any_row_spec f (P : bytes -> Prop) l hit :
  (forall b h, f b = Ok h -> h = true <-> P b) -> any_row f l = Ok hit -> hit = true <-> exists kv, kv ∈ l /\ P kv.2.
Proof.
  intros Hf. revert hit. induction l as [|kv l IH]; cbn; intros hit.
  { intros [= <-]. split; [done|]. by intros (? & ?%not_elem_of_nil & _). }
  intros (h & Hh & Hr)%bind_Ok. apply Hf in Hh. destruct h.
  - injection Hr as <-. split; [|done]. intros _. exists kv. split; [by left|by apply Hh].
  - rewrite (IH _ Hr). split; [intros (kv' & ? & ?); exists kv'; split; [by right|done]|].
    intros (kv' & [->|Hin]%elem_of_cons & HP); [by apply Hh in HP|eauto].
Qed.
Lemma any_table_spec f (P : string -> bytes -> Prop) ts s hit :
  (forall t b h, t ∈ ts -> f b = Ok h -> h = true <-> P t b) -> any_table f ts s = Ok hit ->
  hit = true <-> exists t l kv, t ∈ ts /\ p_list_rows t s = Ok l /\ kv ∈ l /\ P t kv.2.
Proof.
  intros Hf. revert hit. induction ts as [|t ts IH]; cbn; intros hit.
  { intros [= <-]. split; [done|]. by intros (? & ? & ? & ?%not_elem_of_nil & _). }
  intros (l & Hl & (h & Hh & Hr)%bind_Ok)%bind_Ok. apply (any_row_spec _ (P t)) in Hh; [|by intros; apply Hf; [left|]].
  destruct h.
  - injection Hr as <-. split; [|done]. intros _. destruct (proj1 Hh eq_refl) as (kv & ? & ?).
    exists t, l, kv. split; [by left|done].
  - rewrite (IH (fun t' b h' Hin => Hf t' b h' (list_elem_of_further _ _ _ Hin)) _ Hr). split.
    + intros (t' & l' & kv & ? & ?). exists t', l', kv. split; [by right|done].
    + intros (t' & l' & kv & [->|Hin]%elem_of_cons & Hl' & Hkv & HP); [|eauto 8].
      exfalso. rewrite Hl in Hl'. injection Hl' as <-. assert (false = true) by (apply Hh; eauto). done.
Qed.

(** The scan of the history answers exactly whether a stored message, preview or
    unsent message has its file at this path; it may stop at the first hit, and
    a row it cannot read before that is an error. *)
Lemma referenced_exact h n p s hit : path_for h n = Ok p -> attachment_referenced h n s = Ok hit ->
  hit = true <-> stored_reference p s.
Proof.
  intros Hp Hr. unfold attachment_referenced in Hr. apply bind_Ok in Hr as (h1 & H1 & Hr).
  apply (any_table_spec _ (row_points p)) in H1.
  2:{ intros t b hh Ht. unfold row_points. replace (String.eqb t OUTBOUND_ATTEMPTS) with false; [by apply message_refers_iff|].
      symmetry. apply String.eqb_neq. intros ->. revert Ht. apply (bool_decide_eq_false_1 (OUTBOUND_ATTEMPTS ∈ _)). by vm_compute. }
  unfold stored_reference, referring_tables. destruct h1.
  - injection Hr as <-. split; [|done]. intros _. destruct (proj1 H1 eq_refl) as (t & l & kv & Ht & H).
    exists t, l, kv. split; [|done]. set_solver.
  - apply (any_table_spec _ (row_points p)) in Hr.
    2:{ intros t b hh ->%list_elem_of_singleton. by apply attempt_refers_iff. }
    rewrite Hr. split; intros (t & l & kv & Ht & H).
    + exists t, l, kv. split; [|done]. set_solver.
    + change [MESSAGES; GROUP_MESSAGES; CHANNEL_MESSAGES; OUTBOUND_ATTEMPTS]
        with ([MESSAGES; GROUP_MESSAGES; CHANNEL_MESSAGES] ++ [OUTBOUND_ATTEMPTS]) in Ht.
      apply elem_of_app in Ht as [Ht|Ht]; [|by exists t, l, kv].
      assert (false = true) by (apply H1; by exists t, l, kv). done.
Qed.

(** Clean-up never takes a file somebody needs: a removal that is asked to
    consult the history touches at most one file, and only when no transfer
    holds a lease on it and no stored message, preview or unsent message has
    its file there; leases are never touched. *)
Theorem collected_unused h n s w w' r
  (Hc : remove_if_unused h n (fun _ => map_err Erasure.persistence_text (attachment_referenced h n s)) w = (w', r)) :
  leases w' = leases w /\
  (disk w' = disk w \/
   exists p, path_for h n = Ok p /\ disk w' = delete p (disk w) /\ r = Ok true /\ leases w !! p = None /\
             ~ stored_reference p s).
Proof.
  apply remove_if_unused_spec in Hc as [Hl [Hd|(p & Hp & Hn & Hr & Hd & ->)]]; (split; [done|]); [by left|right].
  exists p. repeat split; try done. apply map_err_Ok in Hr. rewrite <- (referenced_exact _ _ _ _ _ Hp Hr). done.
Qed.

End Referenced.

(** ** A store in use *)

#[local] Existing Instances Rows.plain_aes Rows.row_json Rows.row_rows Rows.rj_value.

(** A transcript hash of the width of SHA-256. *)
Definition wide_sha (b : bytes) : bytes := take 32 (b ++ replicate 32 x00).
Definition note : bytes := str "a voice note".
Definition note_hash : string := file_hash wide_sha note.
Definition note_path : Path := (note_hash, "note.ogg").
Definition empty_store (fs : list (option fault)) : AttachmentStore := {| disk := ∅; leases := ∅; faults := fs |}.
Definition noted (fs : list (option fault)) : AttachmentStore :=
  (write_blob wide_sha note_hash "note.ogg" note (empty_store fs)).1.

Lemma names_contained_witness : Forall is_char (chars "../../evil.exe") /\ sanitize_file_name "../../evil.exe" = "_.._evil.exe" /\
  Forall (fun c => unsafe_char c = false) (chars (sanitize_file_name "../../evil.exe")).
Proof.
  assert (Hc : Forall is_char (chars "../../evil.exe")).
  { let l := eval vm_compute in (chars "../../evil.exe") in change (chars "../../evil.exe") with l.
    repeat (constructor; [reflexivity|]). constructor. }
  split; [exact Hc|]. split; [vm_compute; reflexivity|]. apply (names_contained "../../evil.exe" Hc).
Defined.

(** The first write is torn after five bytes, the second succeeds. *)
Definition torn_then_noted : AttachmentStore :=
  (write_blob wide_sha note_hash "note.ogg" note (noted [None; None; Some {| f_error := "disk full"; f_kept := 5 |}])).1.

Lemma content_addressed_witness :
  disk (noted [None; None; Some {| f_error := "disk full"; f_kept := 5 |}]) !! note_path = None /\
  disk torn_then_noted !! note_path = Some note /\ file_hash wide_sha note = to_ascii_lowercase note_path.1.
Proof.
  assert (Hd : disk torn_then_noted !! note_path = Some note) by (vm_compute; reflexivity).
  split; [vm_compute; reflexivity|]. split; [exact Hd|].
  refine (content_addressed wide_sha (empty_store _) torn_then_noted note_path note eq_refl _ Hd _).
  - eapply rtc_l; [apply (Wrote wide_sha note_hash "note.ogg" note)|]. apply rtc_once, Wrote.
  - intros [[|c s] Hs]; [done|]. apply (f_equal String.length) in Hs. cbn in Hs. rewrite append_length in Hs. cbn in Hs. lia.
Defined.

Lemma streaming_agrees_witness :
  stream_blob wide_sha note_hash "note.ogg" [str "a voice"; str " note"] (empty_store []) = (noted [], Ok note_path).
Proof.
  pose proof (streaming_agrees wide_sha note_hash "note.ogg" [str "a voice"; str " note"] (empty_store []) eq_refl) as H.
  assert (Hw : write_blob wide_sha note_hash "note.ogg" (concat [str "a voice"; str " note"]) (empty_store []) = (noted [], Ok note_path))
    by (vm_compute; reflexivity).
  rewrite Hw in H. exact H.
Defined.

(** A message whose file is the note, in the history of a private chat. *)
Definition note_message : Value :=
  VObject {[ "message" := VObject {[ "attachment" := VObject (list_to_map
    [("content_hash", VString note_hash); ("file_name", VString "note.ogg")]) ]} ]}.
Definition history_with (rows : gmap string bytes) : Store.Persistence :=
  {| db := {[ MESSAGES := rows ]}; dek := []; rng := 0; outcomes := []; read_fault := None |}.
Definition collect (s : Store.Persistence) : AttachmentStore * result string bool :=
  remove_if_unused note_hash "note.ogg" (fun _ => map_err Erasure.persistence_text (attachment_referenced note_hash "note.ogg" s)) (noted []).

(** While the message is there the note is kept; afterwards it goes. *)
Lemma collected_unused_witness :
  (collect (history_with {[ "x" := sealed_blob (row_of note_message) ]})).2 = Ok false /\
  (collect (history_with ∅)).2 = Ok true /\ ~ stored_reference note_path (history_with ∅).
Proof.
  assert (Hok : collect (history_with ∅) = ((collect (history_with ∅)).1, Ok true)) by (apply surjective_pairing_eq; vm_compute; reflexivity).
  split; [vm_compute; reflexivity|]. split; [vm_compute; reflexivity|].
  destruct (collected_unused note_hash "note.ogg" (history_with ∅) (noted []) _ _ Hok) as [_ [Hd|(p & Hp & _ & _ & _ & Hn)]].
  - exfalso. apply (f_equal (lookup note_path)) in Hd. vm_compute in Hd. discriminate Hd.
  - replace note_path with p; [exact Hn|]. vm_compute in Hp. injection Hp as <-. vm_compute. reflexivity.
Defined.

End Files.
