(* ===== verification/Background.v ===== *)
(** * Background: alerts for messages that arrive while the app is away
      ([persistence/background_delivery.rs], [background_delivery_read.rs],
      [conversation/history_background.rs])

    A message row and the alert it raises are one transaction.  Each
    conversation has one summary row with a revision, a count and the recent
    occurrences; what is shown is read from the message row itself. *)
From S2P Require Import Prelude Values Store Devices Messages Fragments Deletion Erasure Rows Ledger CallButtons.

Module Background.
Import Devices Deletion Erasure Store Values Messages Rows Ledger CallButtons.

#[local] Open Scope mosh_scope.
#[local] Set Default Proof Using "Type".

Definition CONTROL : string := "control-v1".
Definition RECENT_OCCURRENCES : nat := 64.
Definition MESSAGES_START : string := "message" +:+ "/".
Definition MESSAGES_END : string := "message" +:+ "0".

Record BackgroundMessageAdmission := {
  m_tables : HistoryTables; m_conversation_id : string; m_occurrence_id : string; m_message_id : string;
  m_sent_at_ms : N;
}.
Record Control := { waiting_enabled : bool; interactive : bool }.
Record Summary := {
  b_id : string; b_revision : N; b_target : BridgeConversationRef; b_occurrence_id : string; b_sent_at_ms : N;
  b_message_id : string; b_message_count : N; b_acknowledged : bool; recent_occurrences : list string;
}.

(** Only an incoming, visible message of a known kind raises an alert. *)
Definition message {M} {msg : ConversationMessage M} {deletable : DeletableMessage M} (t : HistoryTables)
    (conv : string) (sent : N) (mid : string) (m : M) : option BackgroundMessageAdmission :=
  md ← cm_metadata m;
  if negb (bool_decide (outbound_scope t ∈ ["private_dm"; "private_group"; "channel"]))
     || bool_decide (is_own md <> Some false) || cm_is_service m || bool_decide (is_Some (deletion md))
  then None
  else
    let occurrence := match origin md with Some o => author o +:+ "/" +:+ id o | None => mid end in
    Some {| m_tables := t; m_conversation_id := conv; m_occurrence_id := occurrence; m_message_id := mid;
            m_sent_at_ms := sent |}.

(** [Summary::new] and [Summary::admit]. *)
Definition target_kind (scope : string) : BridgeConversationKind :=
  if String.eqb scope "private_dm" then Dm else if String.eqb scope "private_group" then Group else Channel.
Definition new_summary (i : string) (m : BackgroundMessageAdmission) : Summary :=
  {| b_id := i; b_revision := 0;
     b_target := {| kind := target_kind (outbound_scope (m_tables m)); ref_id := m_conversation_id m |};
     b_occurrence_id := m_occurrence_id m; b_sent_at_ms := m_sent_at_ms m; b_message_id := m_message_id m;
     b_message_count := 0; b_acknowledged := true; recent_occurrences := [] |}.
Definition admit_summary (m : BackgroundMessageAdmission) (s : Summary) : result PersistenceError Summary :=
  revision ← ok_or (checked_add64 (b_revision s) 1) (Json "background revision exhausted");
  let recent := recent_occurrences s ++ [m_occurrence_id m] in
  Ok {| b_id := b_id s; b_revision := revision; b_target := b_target s; b_occurrence_id := m_occurrence_id m;
        b_sent_at_ms := m_sent_at_ms m; b_message_id := m_message_id m;
        b_message_count := if b_acknowledged s then 1 else saturating_add32 (b_message_count s) 1;
        b_acknowledged := false;
        recent_occurrences := if (RECENT_OCCURRENCES <? length recent)%nat then tail recent else recent |}.

Section Background.
Context {aes : Aes} {scheme : Ed25519} {json : DeletionJson} {json' : ErasureJson} {rows : RowJson}.
Context {control_codec : RowCodec Control} {summary_codec : RowCodec Summary} {call_codec : RowCodec CallRecord}.
Variable sha256 : bytes -> bytes.
Variable hex_decode : string -> result string bytes.
Variable random : nat -> nat -> bytes.

Definition saved_background_intent (s : Store.Persistence) : result PersistenceError (option bool) :=
  row ← p_get BACKGROUND_DELIVERY CONTROL s;
  match row with
  | Some b => c ← decode (T := Control) b; Ok (Some (waiting_enabled c))
  | None => Ok None
  end.
Definition save_background_intent (interactive waiting_enabled : bool) : method Store.Persistence PersistenceError unit :=
  b <~ m_lift (encode {| waiting_enabled := waiting_enabled; interactive := interactive |});;
  fun s => put aes_encrypt os_rng s BACKGROUND_DELIVERY CONTROL b.

Definition summary_key (m : BackgroundMessageAdmission) : string :=
  "message" +:+ "/" +:+ outbound_scope (m_tables m) +:+ "/" +:+ m_conversation_id m.
Definition row_key (m : BackgroundMessageAdmission) : string :=
  history_message_key (m_conversation_id m) (m_sent_at_ms m) (m_message_id m).

Definition row_exists (t k : string) : tx bool := fun d => (d, Ok (bool_decide (is_Some (table_of (tables d) t !! k)))).

Definition queue_background_message (m : BackgroundMessageAdmission) : tx bool :=
  control <~ background_tx_row (T := Control) CONTROL;;
  if match control with None => true | Some c => interactive c end then m_ret false
  else
    known <~ row_exists (messages (m_tables m)) (row_key m);;
    if known then m_ret false
    else
      old <~ background_tx_row (T := Summary) (summary_key m);;
      summary <~ (match old with
                  | Some s => m_ret s
                  | None => b <~ t_random random 16;; m_ret (new_summary ("background-" +:+ hex_string b) m)
                  end);;
      if bool_decide (m_occurrence_id m ∈ recent_occurrences summary) then m_ret false
      else
        summary <~ m_lift (admit_summary m summary);;
        t_store (summary_key m) summary;;;
        m_ret true.

Definition append_tx (t : HistoryTables) (k : string) (blob : bytes) (m : option BackgroundMessageAdmission) : tx bool :=
  changed <~ (match m with Some m => queue_background_message m | None => m_ret false end);;
  write_history_row sha256 hex_decode t k blob;;;
  m_ret changed.

Definition append_history_message_with_background (t : HistoryTables) (conv : string) (sent : N) (mid : string)
    (b : bytes) (m : option BackgroundMessageAdmission) : method Store.Persistence PersistenceError unit :=
  blob <~ p_encrypt b;;
  _ <~ transact (append_tx t (history_message_key conv sent mid) blob m);;
  m_ret tt.

(** ** What is shown *)

Definition kind_tables (k : BridgeConversationKind) : HistoryTables :=
  match k with Dm => DM_HISTORY | Group => GROUP_HISTORY | Channel => CHANNEL_HISTORY end.
Definition bounded (v : option string) (length : nat) : option string :=
  (fun v => of_chars (take length (chars v))) <$> v.

Definition summary_row_key (s : Summary) : string :=
  history_message_key (ref_id (b_target s)) (b_sent_at_ms s) (b_message_id s).

Definition background_notification (K : bytes) (d : gmap string (gmap string bytes)) (s : Summary)
  : result PersistenceError (option BackgroundNotification) :=
  match table_of d (messages (kind_tables (kind (b_target s)))) !! summary_row_key s with
  | None => Ok None
  | Some row =>
      p ← decrypt K row;
      v ← ok_json (value_from_slice p);
      if held (pointer ["message"; "metadata"; "deletion"] v) then Ok None
      else
        let text := pointer ["message"; "body"] v ≫= as_str in
        let sender := match pointer ["message"; "from_device"] v with
                      | Some x => Some x
                      | None => pointer ["message"; "from_fingerprint"] v
                      end ≫= as_str in
        Ok (Some {| n_id := b_id s; n_revision := b_revision s; n_target := b_target s;
                    n_occurrence_id := b_occurrence_id s; n_sent_at_ms := b_sent_at_ms s;
                    n_message_count := b_message_count s; n_sender := bounded sender 256;
                    n_text := bounded text 8192; n_call := None |})
  end.

Fixpoint collect (K : bytes) (d : gmap string (gmap string bytes)) (limit : nat) (l : list (string * bytes))
    (acc : list BackgroundNotification) : result PersistenceError (list BackgroundNotification) :=
  match l with
  | [] => Ok acc
  | kv :: l =>
      s ← decoded (T := Summary) K kv.2;
      shown ← (if b_acknowledged s then Ok None else background_notification K d s);
      let acc := match shown with Some n => acc ++ [n] | None => acc end in
      if bool_decide (length acc = limit) then Ok acc else collect K d limit l acc
  end.

Definition pending_background_notifications (limit : N) (s : Store.Persistence)
  : result PersistenceError (list BackgroundNotification) :=
  let limit := N.to_nat (N.min limit 16) in
  if bool_decide (limit = 0) then Ok []
  else
    d ← begin_read s;
    pending ← pending_call_notifications limit s;
    if bool_decide (length pending = limit) then Ok pending
    else collect (dek s) d limit (rows_in MESSAGES_START MESSAGES_END d) pending.

Definition ack_summary (s : Summary) : Summary :=
  {| b_id := b_id s; b_revision := b_revision s; b_target := b_target s; b_occurrence_id := b_occurrence_id s;
     b_sent_at_ms := b_sent_at_ms s; b_message_id := b_message_id s; b_message_count := b_message_count s;
     b_acknowledged := true; recent_occurrences := recent_occurrences s |}.

(** The first summary with the name and the revision; later rows are not read. *)
Fixpoint find_summary (K : bytes) (i : string) (rev : N) (l : list (string * bytes))
  : result PersistenceError (option (string * Summary)) :=
  match l with
  | [] => Ok None
  | kv :: l =>
      s ← decoded (T := Summary) K kv.2;
      if String.eqb (b_id s) i && (b_revision s =? rev)%N then Ok (Some (kv.1, s)) else find_summary K i rev l
  end.

Definition ack_tx (i : string) (rev : N) : tx unit :=
  found <~ (fun d => (d, find_summary (key d) i rev (rows_in MESSAGES_START MESSAGES_END (tables d))));;
  match found with
  | Some (k, s) => t_store k (ack_summary s)
  | None => m_ret tt
  end.

Definition ack_background_notification (i : string) (rev : N) : method Store.Persistence PersistenceError unit :=
  if String.eqb i "" || (128 <? str_len i)%N then m_lift (Err (Json "invalid background notification id"))
  else if starts_with "background-call-" i then ack_call_notification i rev
  else transact (ack_tx i rev).

(** ** One alert for one message *)

Definition table_row (s : Store.Persistence) (t k : string) : option bytes := table_of (db s) t !! k.
Definition append_one (m : BackgroundMessageAdmission) (b : bytes) : method Store.Persistence PersistenceError unit :=
  append_history_message_with_background (m_tables m) (m_conversation_id m) (m_sent_at_ms m) (m_message_id m) b (Some m).

(** What an admission may touch: its summary, its row, files to remove. *)
Definition touched (m : BackgroundMessageAdmission) (t k : string) : Prop :=
  t = BACKGROUND_DELIVERY /\ k = summary_key m \/ row_or_files (messages (m_tables m)) (row_key m) t k.

Lemma frame_queue m : frame (fun t k => t = BACKGROUND_DELIVERY /\ k = summary_key m) (queue_background_message m).
Proof. unfold queue_background_message, row_exists. framed; first [by apply frame_store|by intros ? ? ? [= <- _]]. Qed.

Lemma frame_append m blob : frame (touched m) (append_tx (m_tables m) (row_key m) blob (Some m)).
Proof.
  unfold append_tx. apply frame_bind; [|intros changed; apply frame_bind; [|intros; apply frame_ret]].
  - eapply frame_weaken; [|apply frame_queue]. by left.
  - eapply frame_weaken; [|apply frame_write_row]. by right.
Qed.

Lemma write_row_present t k blob d d' : write_history_row sha256 hex_decode t k blob d = (d', Ok tt) ->
  is_Some (table_of (tables d') (messages t) !! k).
Proof.
  unfold write_history_row. intros (d1 & old & Hold & Hw)%m_bind_Ok.
  assert (d1 = d) as -> by by injection Hold. destruct (match _ with Some v => erased_value v | None => false end) eqn:He.
  - injection Hw as <-. unfold t_read in Hold. destruct (_ !! k) as [row|]; [by eexists|].
    by injection Hold as <-.
  - apply m_bind_Ok in Hw as (d2 & p & _ & Hw). apply m_bind_Ok in Hw as (d3 & p' & _ & Hw).
    apply m_bind_Ok in Hw as (d4 & p'' & _ & Hw). unfold t_put in Hw. apply m_bind_Ok in Hw as (d5 & b & _ & Hw).
    assert (Ht : tables d' = update_row (tables d5) (messages t) k (Some b)) by by injection Hw as <-.
    rewrite Ht, table_of_update, decide_True, lookup_partial_alter_eq by done. by eexists.
Qed.

Definition known_table (m : BackgroundMessageAdmission) : Prop := message_table (messages (m_tables m)).
Definition has_row (s : Store.Persistence) (m : BackgroundMessageAdmission) : Prop :=
  is_Some (table_row s (messages (m_tables m)) (row_key m)).

Lemma append_cases m b s s' r : append_one m b s = (s', r) ->
  dek s' = dek s /\
  ((db s' = db s /\ is_ok r = false) \/
   exists d ch blob, append_tx (m_tables m) (row_key m) blob (Some m)
       {| key := dek s; tables := db s; draws := S (rng s) |} = (d, Ok ch) /\
     db s' = tables d /\ (r = Ok tt \/ is_ok r = false)).
Proof.
  unfold append_one, append_history_message_with_background, m_bind at 1, p_encrypt.
  destruct (encrypt _ _ _) as [blob|e]; [|intros [= <- <-]; split; [done|by left]].
  unfold m_bind. destruct (transact _ _) as [s1 r1] eqn:Htr. apply transact_cases in Htr as [Hk Hc].
  cbn [drawn dek db rng] in *. intros Heq. assert (s' = s1) as -> by by destruct r1; injection Heq.
  split; [done|]. destruct Hc as [[Hdb Hno]|(d & ch & Hop & Hdb & Hr)].
  - left. split; [done|]. by destruct r1; injection Heq as <-.
  - right. exists d, ch, blob. split; [exact Hop|]. split; [done|]. destruct r1; injection Heq as <-; auto.
Qed.

Lemma message_table_other t : message_table t -> t <> BACKGROUND_DELIVERY /\ t <> ATTACHMENT_GC.
Proof. by intros [->|[->| ->]]. Qed.

Lemma append_present m b s s' : append_one m b s = (s', Ok tt) -> has_row s' m.
Proof.
  intros [_ [[_ [=]]|(d & ch & blob & Hop & Hdb & _)]]%append_cases. unfold has_row, table_row. rewrite Hdb.
  unfold append_tx in Hop. apply m_bind_Ok in Hop as (d1 & c1 & _ & Hop). apply m_bind_Ok in Hop as (d2 & [] & Hw & [= <- _]).
  by eapply write_row_present.
Qed.

Lemma append_keeps m b s m0 : known_table m0 -> has_row s m0 -> has_row (append_one m b s).1 m0.
Proof.
  intros Ht Hs. destruct (append_one m b s) as [s' r] eqn:Ha. cbn [fst]. unfold has_row, table_row in *.
  apply append_cases in Ha as [_ [[-> _]|(d & ch & blob & Hop & -> & _)]]; [done|].
  destruct (message_table_other _ Ht) as [Hb Hg].
  destruct (decide (messages (m_tables m0) = messages (m_tables m) /\ row_key m0 = row_key m)) as [[-> ->]|Hne].
  - unfold append_tx in Hop. apply m_bind_Ok in Hop as (d1 & c1 & _ & Hop).
    apply m_bind_Ok in Hop as (d2 & [] & Hw & [= <- _]). by eapply write_row_present.
  - apply frame_append in Hop as [_ Hf]. rewrite Hf; [done|]. unfold touched, row_or_files. naive_solver.
Qed.

Definition run_appends (l : list (BackgroundMessageAdmission * bytes)) (s : Store.Persistence) : Store.Persistence :=
  foldl (fun s mb => (append_one mb.1 mb.2 s).1) s l.

Lemma alert_run_keeps l s m : known_table m -> has_row s m -> has_row (run_appends l s) m.
Proof.
  revert s. induction l as [|[m' b] l IH]; intros s Ht Hs; [done|]. cbn [run_appends foldl fst snd]. apply IH; [done|].
  by apply append_keeps.
Qed.

Lemma queue_known m d d' r : is_Some (table_of (tables d) (messages (m_tables m)) !! row_key m) ->
  queue_background_message m d = (d', r) -> d' = d.
Proof.
  intros Hs. unfold queue_background_message, m_bind, background_tx_row, row_exists.
  destruct (match _ !! CONTROL with Some row => _ | None => _ end) as [c|e]; [|by intros [= <- _]].
  destruct (match c with None => true | Some c => interactive c end); [by intros [= <- _]|].
  rewrite bool_decide_eq_true_2 by done. by intros [= <- _].
Qed.

(** A message raises its alert once: after a row was stored, with its alert
    or without, storing the same message again, after any other messages and
    whatever the database answers, leaves every alert of the background table
    as it was. *)
Theorem alert_once m b b' l s s1 : known_table m -> append_one m b s = (s1, Ok tt) ->
  let s2 := run_appends l s1 in
  table_of (db (append_one m b' s2).1) BACKGROUND_DELIVERY = table_of (db s2) BACKGROUND_DELIVERY.
Proof.
  intros Ht Ha%append_present s2. assert (Hs : has_row s2 m) by by apply alert_run_keeps. clearbody s2. clear Ha s1.
  destruct (append_one m b' s2) as [s3 r] eqn:Hap. cbn [fst].
  apply append_cases in Hap as [_ [[-> _]|(d & ch & blob & Hop & -> & _)]]; [done|].
  unfold append_tx in Hop. apply m_bind_Ok in Hop as (d1 & c1 & Hq%queue_known & Hop); [|exact Hs]. subst d1.
  apply m_bind_Ok in Hop as (d2 & [] & Hw & [= <- _]). apply frame_write_row in Hw as [_ Hf].
  apply map_eq. intros k. rewrite Hf; [done|]. destruct (message_table_other _ Ht) as [Hb _].
  intros [[=]|[He _]]. done.
Qed.

(** ** Counting alerts *)

Context {aes_laws : AesLaws} {control_laws : RowCodecLaws Control} {summary_laws : RowCodecLaws Summary}.

(** The app is away: alerts are being raised. *)
Definition listening (s : Store.Persistence) : Prop :=
  exists row c, table_row s BACKGROUND_DELIVERY CONTROL = Some row /\ decoded (dek s) row = Ok c /\ interactive c = false.

(** The summary of a conversation after these messages, in order. *)
Definition summary_of (l : list BackgroundMessageAdmission) (sm : Summary) : Prop :=
  exists m, last l = Some m /\ b_revision sm = N.of_nat (length l) /\ b_message_count sm = N.min (N.of_nat (length l)) u32_max /\
  b_acknowledged sm = false /\ b_occurrence_id sm = m_occurrence_id m /\ b_sent_at_ms sm = m_sent_at_ms m /\
  b_message_id sm = m_message_id m /\
  recent_occurrences sm = drop (length l - RECENT_OCCURRENCES) (map m_occurrence_id l).

Definition counted (k : string) (l : list BackgroundMessageAdmission) (s : Store.Persistence) : Prop :=
  match l with
  | [] => table_row s BACKGROUND_DELIVERY k = None
  | _ => exists row sm, table_row s BACKGROUND_DELIVERY k = Some row /\ decoded (dek s) row = Ok sm /\ summary_of l sm
  end.

Lemma admit_first i m sm : admit_summary m (new_summary i m) = Ok sm -> summary_of [m] sm.
Proof. intros [= <-]. by exists m. Qed.

Lemma admit_next l m sm0 sm : summary_of l sm0 -> admit_summary m sm0 = Ok sm -> summary_of (l ++ [m]) sm.
Proof.
  intros (m0 & Hl & Hr & Hc & Ha & _ & _ & _ & Hrec) (rev & Hrev%ok_or_Ok & [= <-])%bind_Ok. exists m.
  unfold checked_add64 in Hrev. case_match; [|done]. injection Hrev as <-.
  cbn [b_revision b_message_count b_acknowledged b_occurrence_id b_sent_at_ms b_message_id recent_occurrences].
  rewrite last_snoc, length_app, map_app, Ha, Hc, Hr, Hrec. cbn [length map]. split; [done|]. split; [lia|].
  split; [unfold saturating_add32; lia|]. repeat (split; [done|]).
  rewrite length_app, length_drop, length_map. cbn [length]. unfold RECENT_OCCURRENCES.
  assert (Hlen : 1 <= length l) by (destruct l; [done|cbn; lia]).
  rewrite <-(drop_app_le (map m_occurrence_id l)) by (rewrite length_map; lia).
  destruct (Nat.ltb_spec 64 (length l - (length l - 64) + 1)).
  - assert (Htl : forall x : list string, tail x = drop 1 x) by by intros []. rewrite Htl, drop_drop. f_equal. lia.
  - f_equal. lia.
Qed.

Lemma control_key m : summary_key m <> CONTROL.
Proof. by intros [=]. Qed.

(** One new message of a listening store. *)
Lemma append_counted m b l s s' : append_one m b s = (s', Ok tt) -> known_table m -> listening s ->
  counted (summary_key m) l s -> (forall x, x ∈ l -> m_occurrence_id x <> m_occurrence_id m) -> ~ has_row s m ->
  listening s' /\ counted (summary_key m) (l ++ [m]) s'.
Proof using aes_laws control_laws summary_laws.
  intros (Hk & [[_ [=]]|(d & ch & blob & Hop & Hdb & _)])%append_cases Ht Hl Hc Hnew Hrow.
  pose proof Hop as [_ Hf]%frame_append. destruct (message_table_other _ Ht) as [Hb Hg]. split.
  { destruct Hl as (row & c & Hr & Hd & Hi). exists row, c. unfold table_row in *. rewrite Hdb, Hk, Hf; [done|].
    intros [[_ He]|[[=]|[He _]]]; [by apply (control_key m)|done]. }
  unfold append_tx in Hop. apply m_bind_Ok in Hop as (d1 & c1 & Hq & Hop).
  apply m_bind_Ok in Hop as (d2 & [] & Hw & [= <- _]). apply frame_write_row in Hw as [Hkw Hfw].
  assert (Hsum : table_row s' BACKGROUND_DELIVERY (summary_key m) = table_of (tables d1) BACKGROUND_DELIVERY !! summary_key m).
  { unfold table_row. rewrite Hdb, Hfw; [done|]. intros [[=]|[He _]]. done. }
  unfold queue_background_message in Hq. apply m_bind_Ok in Hq as (d3 & control & (-> & Hctl)%background_tx_row_Ok & Hq).
  destruct Hl as (row & c & Hr & Hd & Hi). unfold table_row in Hr.
  destruct control as [c'|]; [|cbn [tables] in Hctl; by rewrite Hr in Hctl].
  destruct Hctl as (row' & Hr' & Hd'). cbn [tables key] in Hr', Hd'. rewrite Hr in Hr'. injection Hr' as <-.
  rewrite Hd in Hd'. injection Hd' as <-. rewrite Hi in Hq.
  apply m_bind_Ok in Hq as (d4 & known & [= <- <-] & Hq). rewrite bool_decide_eq_false_2 in Hq by exact Hrow.
  apply m_bind_Ok in Hq as (d5 & old & (-> & Hold)%background_tx_row_Ok & Hq). cbn [tables key] in Hold.
  apply m_bind_Ok in Hq as (d6 & sm0 & Hsm0 & Hq).
  assert (Hget : key d6 = dek s /\ (l = [] /\ (exists i, sm0 = new_summary i m) \/ summary_of l sm0)).
  { destruct old as [sm|].
    - injection Hsm0 as <- <-. split; [done|]. destruct Hold as (row' & Hr' & Hd').
      destruct l as [|x l]; cbn [counted] in Hc; unfold table_row in Hc; [by rewrite Hr' in Hc|].
      destruct Hc as (row2 & sm2 & Hr2 & Hd2 & Hs2). rewrite Hr' in Hr2. injection Hr2 as <-.
      rewrite Hd' in Hd2. injection Hd2 as <-. by right.
    - apply m_bind_Ok in Hsm0 as (d7 & bs & [= <- <-] & [= <- <-]). split; [done|]. left.
      destruct l as [|x l]; [by eauto|]. cbn [counted] in Hc. destruct Hc as (row2 & ? & Hr2 & _). unfold table_row in Hr2.
      by rewrite Hold in Hr2. }
  destruct Hget as [Hk6 Hget].
  assert (Hfresh : m_occurrence_id m ∉ recent_occurrences sm0).
  { destruct Hget as [[-> [i ->]]|(x & _ & _ & _ & _ & _ & _ & _ & ->)]; [by apply not_elem_of_nil|].
    intros Hin. apply (subseteq_drop) in Hin. apply list_elem_of_fmap in Hin as (y & He & Hy). by apply (Hnew y). }
  rewrite bool_decide_eq_false_2 in Hq by exact Hfresh.
  apply m_bind_Ok in Hq as (d8 & sm & [= <- Hadm] & Hq). apply m_bind_Ok in Hq as (d9 & [] & Hst & [= <- <-]).
  apply t_store_Ok in Hst as (_ & row' & Hdec & Htab). rewrite Hk6 in Hdec.
  assert (Hfinal : summary_of (l ++ [m]) sm).
  { destruct Hget as [[-> [i ->]]|Hs]; [by eapply admit_first|by eapply admit_next]. }
  assert (Hcons : exists x l', l ++ [m] = x :: l') by (destruct l; cbn; eauto). destruct Hcons as (x & l' & Hcons).
  unfold counted. rewrite Hcons, <-Hcons. exists row', sm. rewrite Hsum, Htab, Hk. split; [|done].
  by rewrite table_of_update, decide_True, lookup_partial_alter_eq.
Qed.

Definition all_stored (l : list (BackgroundMessageAdmission * bytes)) (s : Store.Persistence) : Prop :=
  forall l1 m b l2, l = l1 ++ (m, b) :: l2 -> is_ok (append_one m b (run_appends l1 s)).2 = true.

(** The count of an alert is the number of messages behind it: when the app
    is away and new messages of one conversation are stored, none of them seen
    before, its summary counts them all (up to the largest u32), has one
    revision for each, names the last one and remembers the last 64
    occurrences. *)
Theorem alerts_counted l m0 s : l <> [] -> (forall m b, (m, b) ∈ l -> known_table m /\ summary_key m = summary_key m0) ->
  NoDup (map (fun mb => m_occurrence_id mb.1) l) ->
  NoDup (map (fun mb => (messages (m_tables mb.1), row_key mb.1)) l) ->
  (forall m b, (m, b) ∈ l -> ~ has_row s m) -> listening s ->
  table_row s BACKGROUND_DELIVERY (summary_key m0) = None -> all_stored l s ->
  exists row sm, table_row (run_appends l s) BACKGROUND_DELIVERY (summary_key m0) = Some row /\
    decoded (dek (run_appends l s)) row = Ok sm /\ summary_of (map fst l) sm.
Proof using aes_laws control_laws summary_laws.
  intros Hne Hk Hocc Hrows Hnew Hl Hnone Hall.
  assert (Hinv : forall l2 l1, l = l1 ++ l2 -> listening (run_appends l1 s) /\ counted (summary_key m0) (map fst l1) (run_appends l1 s) /\
    (forall m b, (m, b) ∈ l2 -> ~ has_row (run_appends l1 s) m)).
  { intros l2 l1. revert l2. induction l1 as [|[m b] l1 IH] using rev_ind; intros l2 Hl2.
    { split; [done|]. split; [done|]. intros m b Hm. apply (Hnew m b). by rewrite Hl2. }
    rewrite <-app_assoc in Hl2. destruct (IH ((m, b) :: l2) Hl2) as (Hl1 & Hc & Hno).
    assert (Hin : (m, b) ∈ l) by (rewrite Hl2; apply elem_of_app; right; by left).
    destruct (Hk m b Hin) as [Ht Hkey]. specialize (Hall l1 m b l2 Hl2).
    unfold run_appends. rewrite foldl_app. cbn [foldl fst snd]. fold (run_appends l1 s).
    destruct (append_one m b (run_appends l1 s)) as [s' r] eqn:Ha. cbn [fst snd] in *. destruct r as [[]|]; [|done].
    destruct (append_counted m b (map fst l1) _ _ Ha Ht Hl1) as [Hl1' Hc'].
    - by rewrite Hkey.
    - intros x ([x' bx] & -> & Hx)%list_elem_of_fmap He. rewrite Hl2, map_app in Hocc.
      apply NoDup_app in Hocc as (_ & Hd & _). apply (Hd (m_occurrence_id x')).
      + apply list_elem_of_fmap. by exists (x', bx).
      + cbn [map fst] in *. rewrite He. by left.
    - apply (Hno m b). by left.
    - split; [done|]. rewrite map_app. cbn [map fst]. rewrite <-Hkey. split; [done|].
      intros m2 b2 Hm2 Hrow2. apply (Hno m2 b2); [by right|].
      apply append_cases in Ha as [_ [[_ [=]]|(d & ch & blob & Hop & Hdb & _)]]. apply frame_append in Hop as [_ Hf].
      unfold has_row, table_row in *. rewrite Hdb, Hf in Hrow2; [done|].
      assert (Hin2 : (m2, b2) ∈ l) by (rewrite Hl2; apply elem_of_app; right; by right).
      destruct (message_table_other _ (proj1 (Hk m2 b2 Hin2))) as [Hb2 Hg2].
      intros [[He _]|[He|He]]; [done|done|]. rewrite Hl2, map_app in Hrows.
      apply NoDup_app in Hrows as (_ & _ & Hnd). cbn [map] in Hnd. apply NoDup_cons in Hnd as [Hnd _]. apply Hnd.
      apply list_elem_of_fmap. exists (m2, b2). cbn. destruct He as [-> ->]. done. }
  destruct (Hinv [] l ltac:(by rewrite app_nil_r)) as (_ & Hc & _).
  destruct l as [|x l]; [done|]. exact Hc.
Qed.

(** ** Acknowledging *)

Definition summaries (s : Store.Persistence) : gmap string Summary := typed MESSAGES_START MESSAGES_END (dek s) (db s).
Definition is_shown (i : string) (rev : N) (sm : Summary) : bool := String.eqb (b_id sm) i && (b_revision sm =? rev)%N.

Lemma find_summary_Ok K i rev l o : find_summary K i rev l = Ok o ->
  match o with
  | Some (k, sm) => exists row, (k, row) ∈ l /\ decoded K row = Ok sm /\ is_shown i rev sm = true
  | None => forall k row, (k, row) ∈ l -> exists sm, decoded K row = Ok sm /\ is_shown i rev sm = false
  end.
Proof.
  induction l as [|[k0 row0] l IH]; cbn [find_summary fst snd].
  - intros [= <-] k row Hk. by apply elem_of_nil in Hk.
  - intros (sm & Hd & H)%bind_Ok. fold (is_shown i rev sm) in H. destruct (is_shown i rev sm) eqn:Hs.
    + injection H as <-. exists row0. split; [by left|done].
    + apply IH in H. destruct o as [[k sm']|].
      * destruct H as (row & Hin & Hrest). exists row. split; [by right|done].
      * intros k row [[= -> ->]|Hin]%elem_of_cons; [by eauto|by eapply H].
Qed.

(** Acknowledging names what was shown: an acknowledgement of an alert and a
    revision settles the summary with that name exactly when it is still at that
    revision, so a message that arrived after the alert was shown keeps its
    alert; every other summary stays as it was. *)
Theorem ack_exact i rev s s' : ack_background_notification i rev s = (s', Ok tt) ->
  starts_with "background-call-" i = false ->
  (forall k k' sm sm', summaries s !! k = Some sm -> summaries s !! k' = Some sm' -> b_id sm = b_id sm' -> k = k') ->
  summaries s' = (fun sm => if is_shown i rev sm then ack_summary sm else sm) <$> summaries s.
Proof using aes_laws summary_laws.
  unfold ack_background_notification. destruct (_ || _); [by intros [=]|]. intros Ha Hcall Hone. rewrite Hcall in Ha.
  apply transact_cases in Ha as [Hk [[_ [=]]|(d & u & Hop & Hdb & _)]]. unfold ack_tx in Hop.
  apply m_bind_Ok in Hop as (d1 & found & [= <- Hf%find_summary_Ok] & Hop). cbn [key tables] in Hf.
  apply map_eq. intros k. rewrite lookup_fmap. destruct found as [[k0 sm0]|].
  - destruct Hf as (row & Hin%rows_in_lookup & Hdec & Hshown). destruct u.
    assert (H0 : summaries s !! k0 = Some sm0) by (apply typed_lookup; split; [apply Hin|exists row; split; [apply Hin|exact Hdec]]).
    apply (typed_store MESSAGES_START MESSAGES_END) in Hop as [Hkd Hop]. rewrite (proj1 Hin) in Hop.
    assert (Hs' : summaries s' = typed_in MESSAGES_START MESSAGES_END d)
      by (unfold summaries, typed_in; rewrite Hk, Hdb, Hkd; done).
    rewrite Hs', Hop. unfold typed_in. cbn [key tables]. fold (summaries s).
    destruct (decide (k = k0)) as [->|Hne]; [rewrite lookup_insert_eq, H0; cbn; by rewrite Hshown|].
    rewrite lookup_insert_ne by done. destruct (summaries s !! k) as [sm|] eqn:Hsm; [|done]. cbn.
    destruct (is_shown i rev sm) eqn:Hs; [|done]. exfalso. apply Hne. eapply Hone; [exact Hsm|exact H0|].
    unfold is_shown in *. apply andb_true_iff in Hs as [->%String.eqb_eq _], Hshown as [->%String.eqb_eq _]. done.
  - injection Hop as <- _. unfold summaries. rewrite Hk, Hdb. cbn [tables]. fold (summaries s).
    destruct (summaries s !! k) as [sm|] eqn:Hsm; [|done]. cbn. unfold summaries in Hsm.
    apply typed_lookup in Hsm as (Hr & row & Hrow & Hd). destruct (Hf k row) as (sm' & Hd' & Hs).
    { by apply rows_in_lookup. }
    rewrite Hd in Hd'. injection Hd' as <-. by rewrite Hs.
Qed.

(** ** What is shown is there *)

(** The alert shows the message row its summary names, and that row was not
    erased. *)
Definition backed (s : Store.Persistence) (n : BackgroundNotification) : Prop :=
  exists k sm row p v, summaries s !! k = Some sm /\ b_acknowledged sm = false /\
    n_id n = b_id sm /\ n_revision n = b_revision sm /\ n_message_count n = b_message_count sm /\
    table_row s (messages (kind_tables (kind (n_target n))))
      (history_message_key (ref_id (n_target n)) (n_sent_at_ms n) (b_message_id sm)) = Some row /\
    decrypt (dek s) row = Ok p /\ value_from_slice p = Ok v /\ erased_value v = false /\
    n_text n = bounded (pointer ["message"; "body"] v ≫= as_str) 8192.

Lemma first_pending_calls K limit l acc out : first_pending K limit l acc = Ok out -> length acc < limit ->
  (forall n, n ∈ acc -> is_Some (n_call n)) -> length out <= limit /\ forall n, n ∈ out -> is_Some (n_call n).
Proof.
  revert acc. induction l as [|kv l IH]; intros acc; cbn [first_pending]; [intros [= <-]; split; [lia|done]|].
  intros (r & _ & H)%bind_Ok Hlen Hacc. cbn zeta in H.
  assert (Hnext : length (if c_acknowledged r then acc else acc ++ [notification r]) <= limit /\
    forall n, n ∈ (if c_acknowledged r then acc else acc ++ [notification r]) -> is_Some (n_call n)).
  { destruct (c_acknowledged r); [split; [lia|done]|]. rewrite length_app. cbn. split; [lia|].
    intros n [Hn| ->%list_elem_of_singleton]%elem_of_app; [by apply Hacc|by eexists]. }
  destruct Hnext as [Hl Hn]. case_bool_decide; [by injection H as <-|]. apply IH in H; [done|lia|done].
Qed.

Lemma notification_backed s k sm n : summaries s !! k = Some sm -> b_acknowledged sm = false ->
  background_notification (dek s) (db s) sm = Ok (Some n) -> backed s n.
Proof.
  intros Hk Ha. unfold background_notification. destruct (_ !! summary_row_key sm) as [row|] eqn:Hrow; [|done].
  intros (p & Hp & (v & Hv%map_err_Ok & H)%bind_Ok)%bind_Ok. destruct (held _) eqn:He; [done|]. injection H as <-.
  exists k, sm, row, p, v. done.
Qed.

Lemma collect_backed s limit l acc out : collect (dek s) (db s) limit l acc = Ok out ->
  (forall k row, (k, row) ∈ l -> (k, row) ∈ rows_in MESSAGES_START MESSAGES_END (db s)) -> length acc < limit ->
  (forall n, n ∈ acc -> is_Some (n_call n) \/ backed s n) ->
  length out <= limit /\ forall n, n ∈ out -> is_Some (n_call n) \/ backed s n.
Proof.
  revert acc. induction l as [|[k row] l IH]; intros acc; cbn [collect fst snd]; [intros [= <-]; split; [lia|done]|].
  intros (sm & Hd & (shown & Hs & H)%bind_Ok)%bind_Ok Hin Hlen Hacc. cbn zeta in H.
  assert (Hnext : length (match shown with Some n => acc ++ [n] | None => acc end) <= limit /\
    forall n, n ∈ (match shown with Some n => acc ++ [n] | None => acc end) -> is_Some (n_call n) \/ backed s n).
  { destruct shown as [n|]; [|split; [lia|done]]. rewrite length_app. cbn. split; [lia|].
    intros n' [Hn| ->%list_elem_of_singleton]%elem_of_app; [by apply Hacc|right].
    destruct (b_acknowledged sm) eqn:Ha; [done|]. eapply (notification_backed s k sm); [|done|exact Hs].
    apply typed_lookup. destruct (proj1 (rows_in_lookup _ _ _ _ _) (Hin k row ltac:(by left))) as [Hr Hrow]. eauto. }
  destruct Hnext as [Hl Hn]. case_bool_decide; [by injection H as <-|].
  apply IH in H; [done| |lia|done]. intros k' row' Hk'. apply Hin. by right.
Qed.

(** What is shown exists: at most sixteen alerts are shown, none more than
    was asked for; every alert that is not a call belongs to an unacknowledged
    summary and shows the text of the row it names, shortened, and that row was
    not erased. *)
Theorem pending_sound limit s l : pending_background_notifications limit s = Ok l ->
  length l <= N.to_nat (N.min limit 16) /\ forall n, n ∈ l -> n_call n = None -> backed s n.
Proof.
  unfold pending_background_notifications. case_bool_decide as H0; [intros [= <-]; rewrite H0; split; [done|]; by intros n ?%elem_of_nil|].
  intros (d & Hd & H)%bind_Ok. unfold begin_read in Hd. destruct (read_fault s) eqn:Hf; [done|]. injection Hd as <-.
  apply bind_Ok in H as (pending & Hp & H). unfold pending_call_notifications, begin_read in Hp. rewrite Hf in Hp. cbn in Hp.
  apply first_pending_calls in Hp as [Hlen Hcalls]; [|cbn; lia|by intros n ?%elem_of_nil].
  assert (Hgoal : length l <= N.to_nat (N.min limit 16) /\ forall n, n ∈ l -> is_Some (n_call n) \/ backed s n).
  { case_bool_decide; [injection H as <-; split; [done|]; intros n Hn; left; by apply Hcalls|].
    eapply collect_backed; [exact H|done|lia|]. intros n Hn. left. by apply Hcalls. }
  destruct Hgoal as [Hl Hall]. split; [done|]. intros n Hn Hnone. destruct (Hall n Hn) as [[c Hc]|]; [|done].
  by rewrite Hnone in Hc.
Qed.

End Background.

(** ** Witnesses *)

#[local] Existing Instances Rows.plain_aes Rows.plain_aes_laws Rows.row_json Rows.row_json' Rows.row_rows
  Devices.toy_scheme CallButtons.toy_calls.

#[local] Instance toy_control : RowCodec Control := {|
  row_to_vec c := codec_to_vec (waiting_enabled c, interactive c);
  row_from_slice b := (fun p => {| waiting_enabled := p.1; interactive := p.2 |}) <$> codec_from_slice b;
|}.
#[local] Instance toy_control_laws : RowCodecLaws Control.
Proof. split. intros [w i] b H. cbn in *. by rewrite (codec_roundtrip _ _ H). Qed.

Definition kind_code (k : BridgeConversationKind) : N := match k with Dm => 0 | Channel => 1 | Group => 2 end.
Definition code_kind (n : N) : BridgeConversationKind := match n with 0 => Dm | 1 => Channel | _ => Group end%N.
#[local] Instance toy_summary : RowCodec Summary := {|
  row_to_vec s := codec_to_vec (b_id s, b_revision s, (kind_code (kind (b_target s)), ref_id (b_target s)),
    (b_occurrence_id s, b_sent_at_ms s, b_message_id s), (b_message_count s, b_acknowledged s), recent_occurrences s);
  row_from_slice b :=
    (fun t : string * N * (N * string) * (string * N * string) * (N * bool) * list string =>
       let '(i, r, (k, j), (o, t, m), (c, a), l) := t in
       {| b_id := i; b_revision := r; b_target := {| kind := code_kind k; ref_id := j |}; b_occurrence_id := o;
          b_sent_at_ms := t; b_message_id := m; b_message_count := c; b_acknowledged := a; recent_occurrences := l |})
    <$> codec_from_slice b;
|}.
#[local] Instance toy_summary_laws : RowCodecLaws Summary.
Proof.
  split. intros [i r [k j] o t m c a l] b H. cbn in *. rewrite (codec_roundtrip _ _ H). cbn. by destruct k.
Qed.

(** The app went away; nothing has arrived. *)
Definition away : Store.Persistence :=
  {| db := {[ BACKGROUND_DELIVERY := {[ CONTROL :=
         sealed_blob (default [] (res_ok (row_to_vec {| waiting_enabled := true; interactive := false |}))) ]} ]};
     dek := []; rng := 0; outcomes := []; read_fault := None |}.
Definition text_from (occurrence mid : string) (t : N) : BackgroundMessageAdmission :=
  {| m_tables := DM_HISTORY; m_conversation_id := "x"; m_occurrence_id := occurrence; m_message_id := mid; m_sent_at_ms := t |}.
Definition two_messages : list (BackgroundMessageAdmission * bytes) :=
  [(text_from "bob/1" "m" 1, row_of fresh_message); (text_from "bob/2" "n" 2, row_of fresh_message)].
Lemma two_messages_in m b : (m, b) ∈ two_messages -> m = text_from "bob/1" "m" 1 \/ m = text_from "bob/2" "n" 2.
Proof.
  intros [H|[H|H]%elem_of_cons]%elem_of_cons; [left|right|by apply elem_of_nil in H]; by apply (f_equal fst) in H.
Qed.
Definition toy_append := append_one Fragments.toy_sha hex_bytes CallButtons.toy_random.
Definition toy_run := run_appends Fragments.toy_sha hex_bytes CallButtons.toy_random.
Definition one_arrived : Store.Persistence := (toy_append (text_from "bob/1" "m" 1) (row_of fresh_message) away).1.
Definition both_arrived : Store.Persistence := toy_run two_messages away.

Lemma append_ok (r : Store.Persistence * result PersistenceError unit) : r.2 = Ok tt -> r = (r.1, Ok tt).
Proof. destruct r. by intros [= ->]. Qed.

Lemma alert_once_witness :
  table_of (db (toy_append (text_from "bob/1" "m" 1) [] one_arrived).1) BACKGROUND_DELIVERY
  = table_of (db one_arrived) BACKGROUND_DELIVERY.
Proof.
  apply (alert_once Fragments.toy_sha hex_bytes CallButtons.toy_random (text_from "bob/1" "m" 1) (row_of fresh_message) [] []
    away one_arrived); [by left|].
  apply append_ok. vm_compute. reflexivity.
Defined.

Lemma alerts_counted_witness :
  exists row sm, table_row both_arrived BACKGROUND_DELIVERY (summary_key (text_from "bob/1" "m" 1)) = Some row /\
    decoded (dek both_arrived) row = Ok sm /\ b_message_count sm = 2%N.
Proof.
  destruct (alerts_counted Fragments.toy_sha hex_bytes CallButtons.toy_random two_messages (text_from "bob/1" "m" 1) away)
    as (row & sm & Hrow & Hd & (m & _ & _ & Hc & _)).
  - done.
  - intros m b Hin. apply two_messages_in in Hin as [-> | ->]; (split; [by left|reflexivity]).
  - vm_compute. repeat constructor; rewrite ?elem_of_cons, ?elem_of_nil; naive_solver.
  - vm_compute. repeat constructor; rewrite ?elem_of_cons, ?elem_of_nil; naive_solver.
  - intros m b Hin [x Hx]. apply two_messages_in in Hin as [-> | ->]; discriminate Hx.
  - exists (sealed_blob (default [] (res_ok (row_to_vec {| waiting_enabled := true; interactive := false |})))),
      {| waiting_enabled := true; interactive := false |}.
    split; [reflexivity|]. split; [vm_compute; reflexivity|reflexivity].
  - reflexivity.
  - intros [|x [|y l1]] m b l2 He.
    + assert (He1 := f_equal head He). apply (inj Some) in He1. assert (m = text_from "bob/1" "m" 1) as -> by exact (eq_sym (f_equal fst He1)).
      assert (b = row_of fresh_message) as -> by exact (eq_sym (f_equal snd He1)). vm_compute. reflexivity.
    + assert (He1 := f_equal head He). assert (He2 := f_equal (head ∘ tail) He). apply (inj Some) in He1, He2. subst x.
      assert (m = text_from "bob/2" "n" 2) as -> by exact (eq_sym (f_equal fst He2)).
      assert (b = row_of fresh_message) as -> by exact (eq_sym (f_equal snd He2)). vm_compute. reflexivity.
    + apply (f_equal length) in He. rewrite length_app in He. cbn in He. lia.
  - exists row, sm. split; [exact Hrow|]. split; [exact Hd|exact Hc].
Defined.

Lemma pending_sound_witness : exists l, pending_background_notifications 4 both_arrived = Ok l /\
  forall n, n ∈ l -> n_call n = None -> backed both_arrived n.
Proof.
  assert (H : is_ok (pending_background_notifications 4 both_arrived) = true) by (vm_compute; reflexivity).
  destruct (pending_background_notifications 4 both_arrived) as [l|e] eqn:Hp; [|discriminate H].
  exists l. split; [reflexivity|]. exact (proj2 (pending_sound 4 both_arrived l Hp)).
Defined.

Definition seen_id : string := "background-" +:+ hex_string (CallButtons.toy_random 16 1).
Definition after_ack : Store.Persistence := (ack_background_notification seen_id 1 both_arrived).1.

Lemma one_entry {V} (m : gmap string V) k0 v0 k k' v v' : map_to_list m = [(k0, v0)] ->
  m !! k = Some v -> m !! k' = Some v' -> k = k'.
Proof.
  intros Hm H%elem_of_map_to_list H'%elem_of_map_to_list. rewrite Hm in H, H'.
  apply list_elem_of_singleton in H, H'. congruence.
Qed.

(** The alert was shown at revision 1; the second message keeps it. *)
Lemma ack_exact_witness :
  summaries after_ack = (fun sm => if is_shown seen_id 1 sm then ack_summary sm else sm) <$> summaries both_arrived.
Proof.
  apply (ack_exact seen_id 1 both_arrived after_ack).
  - apply append_ok. vm_compute. reflexivity.
  - reflexivity.
  - intros k k' sm sm' H H' _. revert H H'. eapply one_entry. vm_compute. reflexivity.
Defined.

End Background.
