(* ===== verification/History.v ===== *)
(** * History: the history a conversation keeps on disk
      ([conversation/history.rs], the records of [conversation/recovery.rs])

    The three kinds of conversation list what was saved, read one back, append
    what is new and write where a send got to; the tables arrive as data.  What
    a kind's attachment transfer does with a file that comes back is the class
    [TransferHistory]. *)
From S2P Require Import Prelude Values Store Devices Messages Attachments Slots Fragments.
From S2P Require Import Deletion Erasure Rows Ledger CallButtons Background.

Module History.
Import Devices Deletion Erasure Store Values Messages Rows Slots Ledger.

#[local] Open Scope mosh_scope.
#[local] Set Default Proof Using "Type".

(** ** Rows ([recovery.rs], [history.rs]) *)

Inductive HistoryClassification := OriginalOrigin | LegacyUnsigned.
Inductive GroupAcceptanceBasis := LiveAuthenticated | LocalPublication | InheritedImport | Legacy.
#[export] Instance GroupAcceptanceBasis_eq_dec : EqDecision GroupAcceptanceBasis.
Proof. solve_decision. Defined.

Record GroupHistoryReferences := {
  original_sender_proof_hash : string;
  content_proof_hash : option string;
  acceptance_evidence_hash : string;
  first_evidence_hash : option string;
  predecessor_hash : option string;
  basis : GroupAcceptanceBasis;
}.
Record HistoryEvidence := {
  holder_key : string;
  legacy_original_id_absent : bool;
  classification : HistoryClassification;
  group : option GroupHistoryReferences;
}.

(** One message as it sits in the store. *)
Record StoredMessage (M : Type) := {
  h_conversation_id : string;
  h_sent_at_ms : N;
  h_message_id : string;
  h_message : M;
  attachment_manifest : option Attachments.AttachmentManifest;
  preview_manifest : option Attachments.AttachmentManifest;
  history_evidence : option HistoryEvidence;
}.
Arguments h_conversation_id {M}. Arguments h_sent_at_ms {M}. Arguments h_message_id {M}.
Arguments h_message {M}. Arguments attachment_manifest {M}. Arguments preview_manifest {M}.
Arguments history_evidence {M}.

(** [serde_json] of the rows. *)
Class HistoryJson (M : Type) := {
  stored_to_vec : StoredMessage M -> result string bytes;
  stored_from_slice : bytes -> result string (StoredMessage M);
  attempt_to_vec : OutboundAttemptRecord -> result string bytes;
  attempt_from_slice : bytes -> result string OutboundAttemptRecord;
  message_from_str : string -> result string M;
}.

Record AttachmentOffer := {
  manifest : Attachments.AttachmentManifest;
  offered_preview : option Attachments.AttachmentManifest;
}.

(** A conversation's transfer, as far as its history asks it. *)
Class TransferHistory (T : Type) := {
  transfer_ops :: TransferOps T;
  restore_stored : AttachmentDescriptor -> AttachmentDirection -> option Attachments.AttachmentManifest -> T -> T;
  restore_preview : AttachmentOffer -> AttachmentDirection -> T -> T;
}.

Definition INTERRUPTED_SEND : string := "app closed before the send completed".

(** [History]: the tables of the kind, and how much of each conversation is
    already written. *)
Record History := { kind : HistoryTables; persisted_counts : gmap string nat }.

Definition new (t : HistoryTables) : History := {| kind := t; persisted_counts := ∅ |}.
Definition set_count (id : string) (n : nat) (h : History) : History :=
  {| kind := kind h; persisted_counts := <[ id := n ]> (persisted_counts h) |}.
(** [acknowledge] is [set_count]; [forget] starts over. *)
Definition acknowledge (id : string) (count : nat) (h : History) : History := set_count id count h.
Definition forget (id : string) (h : History) : History :=
  {| kind := kind h; persisted_counts := delete id (persisted_counts h) |}.
Definition written (id : string) (h : History) : nat := default 0 (persisted_counts h !! id).

Section Conversations.
Context {M : Type} {msg : ConversationMessage M} {deletable : DeletableMessage M}.
Context {T : Type} {transfers : TransferHistory T} {codec : HistoryJson M}.
Context {aes : Aes}.

Notation MessageLog := (@Messages.MessageLog M).

(** ** Reading it back *)

(** [stored_conversations]: a row that does not parse is skipped. *)
Definition stored_conversations {R} (from_slice : bytes -> result string R) (h : History) (s : Store.Persistence) : list R :=
  match list_conversations (kind h) s with
  | Ok rows => omap (fun row => res_ok (from_slice row)) rows
  | Err _ => []
  end.

(** What [fill_in] does for a message stored before ids were carried on it. *)
Definition fill_in (mid : string) (sent : N) (m : M) : M :=
  let m := match cm_message_id m with Some _ => m | None => cm_set_message_id mid m end in
  match cm_sent_at_ms m with Some _ => m | None => cm_set_sent_at_ms sent m end.

(** Where the rows land. *)
Record Restore := {
  into_log : MessageLog;
  into_attempts : gmap string OutboundAttemptRecord;
  into_transfer : T;
}.

Definition restore_attachment (m : M) (local_author : string) (t : T)
    (manifest preview : option Attachments.AttachmentManifest) : T :=
  match cm_attachment m with
  | None => t
  | Some descriptor =>
      let direction := if String.eqb (cm_author m) local_author then Outgoing else Incoming in
      let t := restore_stored descriptor direction manifest t in
      match manifest with
      | Some manifest => restore_preview {| manifest := manifest; offered_preview := preview |} direction t
      | None => t
      end
  end.

(** An imported message's preview is kept only when a group accepted it other
    than by inheritance. *)
Definition trusted_preview (st : StoredMessage M) : option Attachments.AttachmentManifest :=
  if match history_evidence st with
     | None => true
     | Some e => match group e with Some g => negb (bool_decide (basis g = InheritedImport)) | None => false end
     end
  then preview_manifest st else None.

Definition replay_message (local_author : string) (into : Restore) (row : bytes) : Restore :=
  match stored_from_slice row with
  | Err _ => into
  | Ok st =>
      let m := fill_in (h_message_id st) (h_sent_at_ms st) (h_message st) in
      {| into_log := upsert m (into_log into); into_attempts := into_attempts into;
         into_transfer := restore_attachment m local_author (into_transfer into) (attachment_manifest st)
                            (trusted_preview st) |}
  end.

(** Nobody is left to settle a send that was still under way. *)
Definition interrupted (a : OutboundAttemptRecord) : OutboundAttemptRecord :=
  if bool_decide (a_delivery_status a = Pending) then with_status Failed (Some INTERRUPTED_SEND) a else a.

Definition replay_attempt (into : Restore) (row : bytes) : Restore :=
  match attempt_from_slice row with
  | Err _ => into
  | Ok a =>
      let a := interrupted a in
      match message_from_str (message_json a) with
      | Err _ => into
      | Ok m =>
          let m := fill_in (a_message_id a) (a_sent_at_ms a) m in
          let m := cm_set_delivery (delivery_meta (a_delivery_status a) (a_delivery_error a) (a_retry_count a)) m in
          {| into_log := upsert m (into_log into);
             into_attempts := <[ a_message_id a := a ]> (into_attempts into);
             into_transfer := into_transfer into |}
      end
  end.

Definition orphaned (log : MessageLog) (attempts : gmap string OutboundAttemptRecord) : list string :=
  omap (fun m => if bool_decide (cm_delivery_status m = Some Pending)
                 then match cm_message_id m with
                      | Some i => if bool_decide (is_Some (attempts !! i)) then None else Some i
                      | None => None
                      end
                 else None) (Messages.messages log).
Definition orphan_meta : MessageDeliveryMeta :=
  {| delivery_status := Some Failed; delivery_error := Some INTERRUPTED_SEND; retryable := Some false; retry_count := None |}.
Definition settle_orphaned_sends (log : MessageLog) (attempts : gmap string OutboundAttemptRecord) : MessageLog :=
  foldl (fun log i => (find_mut i (cm_set_delivery orphan_meta) log).1) log (orphaned log attempts).

Definition replay (id local_author : string) (s : Store.Persistence) (into : Restore) (h : History) : Restore * History :=
  let into := match list_history_messages (kind h) id s with
              | Ok rows => foldl (replay_message local_author) into rows
              | Err _ => into
              end in
  let into := match list_outbound_attempts (outbound_scope (kind h)) id s with
              | Ok rows => foldl replay_attempt into rows
              | Err _ => into
              end in
  let log := settle_orphaned_sends (into_log into) (into_attempts into) in
  ({| into_log := log; into_attempts := into_attempts into; into_transfer := into_transfer into |},
   set_count id (length (Messages.messages log)) h).

(** ** What a restart finds *)

Context {msg_laws : ConversationMessageLaws M}.
#[local] Set Default Proof Using "Type*".

Definition idents (log : MessageLog) : list (option string) := map cm_message_id (Messages.messages log).
Definition distinct (log : MessageLog) : Prop :=
  Forall is_Some (idents log) /\ NoDup (idents log).

Lemma fill_in_id mid sent m : is_Some (cm_message_id (fill_in mid sent m)).
Proof.
  unfold fill_in. destruct (cm_message_id m) as [i|] eqn:Hi.
  - destruct (cm_sent_at_ms m); [by rewrite Hi|]. by rewrite set_sent_id, Hi.
  - destruct (cm_sent_at_ms _); [by rewrite set_id_id|]. by rewrite set_sent_id, set_id_id.
Qed.

Lemma update_first_unique i (f : M -> M) (l : list M) : NoDup (map cm_message_id l) ->
  update_first (has_id i) f l = map (fun m => if has_id i m then f m else m) l.
Proof.
  induction l as [|m l IH]; [done|]. cbn. intros [Hm Hl]%NoDup_cons. destruct (has_id i m) eqn:He; [|by rewrite IH].
  f_equal. unfold has_id in He. apply bool_decide_eq_true in He.
  rewrite <-(map_id l) at 1. apply map_ext_in. intros x Hx. destruct (has_id i x) eqn:Hxi; [|done].
  exfalso. apply Hm. unfold has_id in Hxi. apply bool_decide_eq_true in Hxi. rewrite He, <-Hxi.
  by apply list_elem_of_In, in_map.
Qed.

(** What [upsert] leaves in a log with distinct ids. *)
Lemma upsert_distinct m log : is_Some (cm_message_id m) -> distinct log -> distinct (upsert m log).
Proof.
  intros [i Hi] [Hs Hn]. unfold distinct, idents, upsert. rewrite Hi. destruct (existsb _ _) eqn:He; cbn [Messages.messages].
  - assert (Hid : map cm_message_id (update_first (has_id i) (fun old => if is_tombstone old then old else m)
                    (Messages.messages log)) = idents log).
    { rewrite update_first_unique by done. unfold idents. rewrite map_map. apply map_ext. intros x.
      destruct (has_id i x) eqn:Hx; [|done]. apply bool_decide_eq_true in Hx. destruct (is_tombstone x); [done|].
      by rewrite Hi, Hx. }
    by rewrite Hid.
  - rewrite map_app. split; [by apply Forall_app_2; [|repeat constructor; rewrite Hi]|].
    apply NoDup_app. split; [done|]. split; [|apply NoDup_singleton]. cbn. rewrite Hi.
    intros x Hx ->%list_elem_of_singleton. apply list_elem_of_In, in_map_iff in Hx as (y & Hy & Hin).
    assert (Ht : existsb (has_id i) (Messages.messages log) = true).
    { apply existsb_exists. exists y. split; [done|]. by apply bool_decide_eq_true. }
    by rewrite Ht in He.
Qed.

Lemma elem_of_upsert m x log i : cm_message_id m = Some i -> distinct log -> x ∈ Messages.messages (upsert m log) ->
  x = m \/ x ∈ Messages.messages log /\ (cm_message_id x = Some i -> is_tombstone x = true).
Proof.
  intros Hi [_ Hn] Hx. unfold upsert in Hx. rewrite Hi in Hx. destruct (existsb _ _) eqn:He; cbn [Messages.messages] in Hx.
  - rewrite update_first_unique in Hx by done. apply list_elem_of_In, in_map_iff in Hx as (y & <- & Hy%list_elem_of_In).
    destruct (has_id i y) eqn:Hyi.
    + destruct (is_tombstone y) eqn:Ht; [right|by left]. by split.
    + right. split; [done|]. intros Hc. unfold has_id in Hyi. by apply bool_decide_eq_false in Hyi.
  - apply elem_of_app in Hx as [Hx| ->%list_elem_of_singleton]; [right|by left]. split; [done|]. intros Hc.
    assert (Ht : existsb (has_id i) (Messages.messages log) = true).
    { apply existsb_exists. exists x. split; [by apply list_elem_of_In|]. by apply bool_decide_eq_true. }
    by rewrite Ht in He.
Qed.

(** A message in memory agrees with the send behind it. *)
Definition agrees (into : Restore) : Prop :=
  distinct (into_log into) /\
  map_Forall (fun _ a => a_delivery_status a <> Pending) (into_attempts into) /\
  forall m i a, m ∈ Messages.messages (into_log into) -> is_tombstone m = false -> cm_message_id m = Some i ->
    into_attempts into !! i = Some a -> cm_delivery_status m = Some (a_delivery_status a).

(** The message of an attempt's row is the message the attempt names. *)
Definition names_message (a : OutboundAttemptRecord) : Prop :=
  forall m i, message_from_str (message_json a) = Ok m -> cm_message_id m = Some i -> i = a_message_id a.

Lemma interrupted_settled a : a_delivery_status (interrupted a) <> Pending.
Proof. unfold interrupted. by case_bool_decide. Qed.

Lemma replay_message_agrees author into row : into_attempts into = ∅ -> agrees into ->
  into_attempts (replay_message author into row) = ∅ /\ agrees (replay_message author into row).
Proof.
  intros Ha (Hd & Hp & Hm). unfold replay_message. destruct (stored_from_slice row) as [st|]; [|done].
  split; [done|]. split; cbn [into_log into_attempts].
  - apply upsert_distinct; [apply fill_in_id|done].
  - rewrite Ha. split; [apply map_Forall_empty|]. by intros m i a _ _ _ [=].
Qed.

Lemma replay_attempt_agrees into row : agrees into ->
  (forall a, attempt_from_slice row = Ok a -> names_message a) -> agrees (replay_attempt into row).
Proof.
  intros (Hd & Hp & Hm) Hnames. unfold replay_attempt. destruct (attempt_from_slice row) as [a0|] eqn:Ha; [|done].
  pose proof (interrupted_settled a0) as Hset. specialize (Hnames a0 eq_refl). unfold names_message in Hnames.
  assert (Hj : message_json (interrupted a0) = message_json a0) by (unfold interrupted; by case_bool_decide).
  assert (Hi0 : a_message_id (interrupted a0) = a_message_id a0) by (unfold interrupted; by case_bool_decide).
  rewrite Hj, Hi0. revert Hset. generalize (interrupted a0). intros a Hset. clear Hj Hi0.
  destruct (message_from_str (message_json a0)) as [m0|] eqn:Hm0; [|done].
  set (m := cm_set_delivery _ _).
  assert (Hmid : cm_message_id m = Some (a_message_id a0)).
  { unfold m. rewrite set_delivery_id. unfold fill_in. destruct (cm_message_id m0) as [i|] eqn:Hi.
    - rewrite <-(Hnames m0 i) by done. destruct (cm_sent_at_ms m0); [done|]. by rewrite set_sent_id.
    - destruct (cm_sent_at_ms _); [by rewrite set_id_id|]. by rewrite set_sent_id, set_id_id. }
  split; [|split]; cbn [into_log into_attempts].
  - apply upsert_distinct; [by rewrite Hmid|done].
  - by apply map_Forall_insert_2.
  - intros x i a' Hx Ht Hxi Hatt. apply (elem_of_upsert _ _ _ _ Hmid Hd) in Hx as [->|[Hx Htomb]].
    + rewrite Hmid in Hxi. injection Hxi as <-. rewrite lookup_insert_eq in Hatt. injection Hatt as <-.
      unfold m. by rewrite set_delivery_status.
    + destruct (decide (i = a_message_id a0)) as [->|Hne]; [by rewrite Htomb in Ht|].
      rewrite lookup_insert_ne in Hatt by done. by eapply Hm.
Qed.

Definition is_orphan (attempts : gmap string OutboundAttemptRecord) (m : M) : bool :=
  bool_decide (cm_delivery_status m = Some Pending) &&
  match cm_message_id m with Some i => bool_decide (attempts !! i = None) | None => false end.

Lemma settle_ids (f : M -> M) (ks : list string) log :
  (forall m, cm_message_id (f m) = cm_message_id m) -> NoDup ks -> NoDup (idents log) ->
  Messages.messages (foldl (fun log i => (find_mut i f log).1) log ks)
  = map (fun m => if bool_decide (cm_message_id m ∈ Some <$> ks) then f m else m) (Messages.messages log).
Proof.
  intros Hf. revert log. induction ks as [|i ks IH]; intros log Hks Hn.
  - cbn. rewrite <-(map_id (Messages.messages log)) at 1. apply map_ext. intros m. by rewrite bool_decide_false by apply not_elem_of_nil.
  - apply NoDup_cons in Hks as [Hi Hks]. cbn [foldl].
    assert (Hone : Messages.messages (find_mut i f log).1 = map (fun m => if has_id i m then f m else m) (Messages.messages log))
      by by apply update_first_unique.
    rewrite IH; [|done|].
    + rewrite Hone, map_map. apply map_ext. intros m. unfold has_id. rewrite fmap_cons.
      destruct (decide (cm_message_id m = Some i)) as [He|Hne].
      * rewrite (bool_decide_true (_ = _)) by done. rewrite Hf, (bool_decide_true (_ ∈ Some i :: _)) by (rewrite He; by left).
        rewrite bool_decide_false; [done|]. rewrite He. by intros (j & [= ->] & Hj)%list_elem_of_fmap.
      * rewrite (bool_decide_false (_ = _)) by done.
        erewrite (bool_decide_ext (_ ∈ Some <$> ks)); [done|]. rewrite elem_of_cons. naive_solver.
    + unfold idents. rewrite Hone, map_map. erewrite map_ext; [exact Hn|]. intros m. cbn. by destruct (has_id i m).
Qed.

Lemma settle_map log attempts : distinct log ->
  Messages.messages (settle_orphaned_sends log attempts)
  = map (fun m => if is_orphan attempts m then cm_set_delivery orphan_meta m else m) (Messages.messages log).
Proof.
  intros [_ Hn]. unfold settle_orphaned_sends. rewrite settle_ids; [|intros; apply set_delivery_id| |done].
  - apply map_ext_in. intros m Hm%list_elem_of_In. unfold is_orphan.
    assert (Hiff : cm_message_id m ∈ Some <$> orphaned log attempts <->
      cm_delivery_status m = Some Pending /\ exists i, cm_message_id m = Some i /\ attempts !! i = None).
    { unfold orphaned. rewrite list_elem_of_fmap. split.
      - intros (i & Hi & (x & Hx & Hxo)%list_elem_of_omap).
        case_bool_decide as Hpend; [|done]. destruct (cm_message_id x) as [j|] eqn:Hj; [|done].
        case_bool_decide as Ha; [done|]. injection Hxo as <-.
        assert (x = m) as ->.
        { unfold idents in Hn. apply list_elem_of_lookup in Hm as [a Ha'], Hx as [b Hb'].
          assert (a = b) as ->; [|congruence]. eapply (NoDup_lookup (cm_message_id <$> Messages.messages log)); [exact Hn|..];
            rewrite list_lookup_fmap; [rewrite Ha'; cbn; by rewrite Hi|rewrite Hb'; cbn; by rewrite Hj]. }
        split; [done|]. exists j. split; [done|]. by apply eq_None_not_Some.
      - intros (Hp & i & Hi & Ha). exists i. split; [done|]. apply list_elem_of_omap. exists m. split; [done|].
        rewrite bool_decide_true, Hi, bool_decide_false by (done || by rewrite Ha; intros [? ?]). done. }
    destruct (cm_message_id m) as [i|] eqn:Hi; [|rewrite bool_decide_false, andb_false_r; [done|]; rewrite Hiff; naive_solver].
    rewrite <-bool_decide_and. erewrite bool_decide_ext; [done|]. rewrite Hiff. naive_solver.
  - unfold orphaned. clear -Hn. unfold idents in Hn. induction (Messages.messages log) as [|m l IH]; [constructor|].
    cbn in Hn. apply NoDup_cons in Hn as [Hm Hl]. cbn. case_bool_decide as Hp; [|by apply IH].
    destruct (cm_message_id m) as [i|] eqn:Hi; [|by apply IH]. case_bool_decide as Ha; [by apply IH|].
    constructor; [|by apply IH]. intros (x & Hx & Hxo)%list_elem_of_omap. case_bool_decide; [|done].
    destruct (cm_message_id x) as [j|] eqn:Hj; [|done]. case_bool_decide; [done|]. injection Hxo as ->.
    apply Hm. rewrite <-Hj. by apply list_elem_of_In, in_map, list_elem_of_In.
Qed.


(** ** Writing it down *)

Context {scheme : Ed25519} {json : DeletionJson} {json' : ErasureJson} {rows : RowJson}.
Context {control_codec : RowCodec Background.Control} {summary_codec : RowCodec Background.Summary}.
Variable sha256 : bytes -> bytes.
Variable hex_decode : string -> result string bytes.
Variable random : nat -> nat -> bytes.

Definition World : Type := History * Store.Persistence.
Definition on_store {A} (m : method Store.Persistence PersistenceError A) : method World PersistenceError A :=
  fun w => let '(s, r) := m w.2 in ((w.1, s), r).

Definition stored_row (id : string) (sent : N) (mid : string) (m : M) (offer : option AttachmentOffer)
  : result PersistenceError bytes :=
  map_err Json (stored_to_vec
    {| h_conversation_id := id; h_sent_at_ms := sent; h_message_id := mid; h_message := m;
       attachment_manifest := manifest <$> offer; preview_manifest := offer ≫= offered_preview;
       history_evidence := None |}).

Definition append (id : string) (sent : N) (mid : string) (m : M) (offer : option AttachmentOffer)
  : method World PersistenceError unit := fun w =>
  let background := Background.message (kind w.1) id sent mid m in
  (row <~ m_lift (stored_row id sent mid m offer);;
   on_store (Background.append_history_message_with_background sha256 hex_decode random (kind w.1) id sent mid row
               background)) w.

(** The id and the time a message is filed under; [now] is the clock. *)
Definition filed_sent (now : N) (m : M) : N := default now (cm_sent_at_ms m).
Definition filed_id (now : N) (index : nat) (m : M) : string :=
  default (format_u64 1 (filed_sent now m) +:+ String dash (format_u64 6 (N.of_nat index))) (cm_message_id m).

Definition offer_for (transfer : option T) (m : M) : option AttachmentOffer :=
  t ← transfer; a ← cm_attachment m;
  manifest ← manifest_for t (Messages.attachment_id a);
  Some {| manifest := manifest; offered_preview := previews t !! Messages.attachment_id a |}.

(** The loop of [write_tail]; the clock may be read once per message. *)
Fixpoint write_messages (id : string) (transfer : option T) (now : nat -> N) (index : nat) (l : list M)
  : method World PersistenceError unit :=
  match l with
  | [] => m_ret tt
  | m :: l =>
      let sent := filed_sent (now index) m in
      let mid := filed_id (now index) index m in
      append id sent mid (fill_in mid sent m) (offer_for transfer m);;;
      (fun w => ((set_count id (S index) w.1, w.2), Ok tt));;;
      write_messages id transfer now (S index) l
  end.

Definition write_tail (id : string) (log : MessageLog) (transfer : option T) (now : nat -> N)
  : method World PersistenceError bool := fun w =>
  let start := written id w.1 in
  if (length (Messages.messages log) <=? start)%nat then (w, Ok false)
  else (write_messages id transfer now start (drop start (Messages.messages log));;; m_ret true) w.

Definition write_send (id mid : string) (log : MessageLog) (attempts : gmap string OutboundAttemptRecord) (now : N)
  : method World PersistenceError bool := fun w =>
  match find (has_id mid) (Messages.messages log) with
  | None => (w, Ok false)
  | Some m =>
      let sent := filed_sent now m in
      (row <~ m_lift (stored_row id sent mid m None);;
       attempt <~ m_lift (match attempts !! mid with
                          | Some a => b ← map_err Json (attempt_to_vec a); Ok (Some b)
                          | None => Ok None
                          end);;
       on_store (commit_send sha256 hex_decode (kind w.1) id sent mid row attempt);;;
       m_ret true) w
  end.

Definition write_record {R} (to_vec : R -> result string bytes) (id : string) (record : R)
  : method World PersistenceError unit := fun w =>
  (b <~ m_lift (map_err Json (to_vec record));;
   on_store (put_conversation (kind w.1) id b)) w.



(** ** A tail on disk *)

Abbreviation append_row := (Background.append_history_message_with_background sha256 hex_decode random).
Abbreviation append_tx := (Background.append_tx sha256 hex_decode random).

Lemma append_row_cases t id sent mid b bg s s' r : append_row t id sent mid b bg s = (s', r) ->
  dek s' = dek s /\
  ((db s' = db s /\ is_ok r = false) \/
   exists d ch blob, encrypt (dek s) (rng s) b = Ok blob /\
     append_tx t (history_message_key id sent mid) blob bg
       {| key := dek s; tables := db s; draws := S (rng s) |} = (d, Ok ch) /\
     db s' = tables d /\ (r = Ok tt \/ is_ok r = false)).
Proof.
  unfold Background.append_history_message_with_background, m_bind at 1, p_encrypt.
  destruct (encrypt _ _ _) as [blob|e]; [|intros [= <- <-]; split; [done|by left]].
  unfold m_bind. destruct (transact _ _) as [s1 r1] eqn:Htr. apply transact_cases in Htr as [Hk Hc].
  cbn [drawn dek db rng] in *. intros Heq. assert (s' = s1) as -> by by destruct r1; injection Heq.
  split; [done|]. destruct Hc as [[Hdb Hno]|(d & ch & Hop & Hdb & Hr)].
  - left. split; [done|]. by destruct r1; injection Heq as <-.
  - right. exists d, ch, blob. split; [done|]. split; [exact Hop|]. split; [done|]. destruct r1; injection Heq as <-; auto.
Qed.

(** The queue of alerts never touches a message row. *)
Lemma frame_alert (bg : option Background.BackgroundMessageAdmission) :
  frame (in_table BACKGROUND_DELIVERY)
    (match bg with Some m => Background.queue_background_message random m | None => m_ret false end).
Proof.
  destruct bg as [m|]; [|apply frame_ret]. eapply frame_weaken; [|apply Background.frame_queue]. by intros t k [-> _].
Qed.

Definition message_row (t : HistoryTables) (id : string) (sent : N) (mid : string) (s : Store.Persistence) : option bytes :=
  table_of (db s) (messages t) !! history_message_key id sent mid.

Lemma append_row_present t id sent mid b bg s s' : append_row t id sent mid b bg s = (s', Ok tt) ->
  is_Some (message_row t id sent mid s').
Proof.
  intros [_ [[_ [=]]|(d & ch & blob & _ & Hop & Hdb & _)]]%append_row_cases. unfold message_row. rewrite Hdb.
  unfold Background.append_tx in Hop. apply m_bind_Ok in Hop as (d1 & c1 & _ & Hop).
  apply m_bind_Ok in Hop as (d2 & [] & Hw & [= <- _]). by eapply Background.write_row_present.
Qed.

(** Rows of messages stay, whatever else is written. *)
Lemma append_row_keeps t id sent mid b bg s s' r t' k : message_table t' ->
  append_row t id sent mid b bg s = (s', r) -> is_Some (table_of (db s) t' !! k) ->
  is_Some (table_of (db s') t' !! k).
Proof.
  intros Ht [_ [[-> _]|(d & ch & blob & _ & Hop & -> & _)]]%append_row_cases Hk; [done|].
  destruct (Background.message_table_other _ Ht) as [Hb Hg].
  unfold Background.append_tx in Hop. apply m_bind_Ok in Hop as (d1 & c1 & Hq%frame_alert & Hop).
  destruct Hq as [_ Hq]. cbn [tables] in Hq.
  apply m_bind_Ok in Hop as (d2 & [] & Hw & [= <- _]).
  destruct (decide (t' = messages t /\ k = history_message_key id sent mid)) as [[-> ->]|Hne].
  - by eapply Background.write_row_present.
  - apply frame_write_row in Hw as [_ Hf]. rewrite Hf; [rewrite Hq; [done|]|].
    + unfold in_table. done.
    + intros [He|He]; [done|by apply Hne].
Qed.

(** Where the message number [index] of a log is filed. *)
Definition filed (t : HistoryTables) (id : string) (now : nat -> N) (s : Store.Persistence) (index : nat) (m : M) : Prop :=
  is_Some (message_row t id (filed_sent (now index) m) (filed_id (now index) index m) s).

Lemma on_store_Ok {A} (m : method Store.Persistence PersistenceError A) w w' r :
  on_store m w = (w', r) -> w'.1 = w.1 /\ m w.2 = (w'.2, r).
Proof. unfold on_store. destruct (m w.2) as [s r0]. by intros [= <- <-]. Qed.

Lemma append_row_of id sent mid m offer w w' r : append id sent mid m offer w = (w', r) ->
  w'.1 = w.1 /\
  (w' = w /\ is_ok r = false \/
   exists row, stored_row id sent mid m offer = Ok row /\
     append_row (kind w.1) id sent mid row (Background.message (kind w.1) id sent mid m) w.2 = (w'.2, r)).
Proof.
  unfold append, m_bind, m_lift. destruct (stored_row _ _ _ _ _) as [row|e]; [|intros [= <- <-]; split; [done|by left]].
  intros [Hw Hs]%on_store_Ok. split; [done|]. right. by exists row.
Qed.

Lemma append_keeps_row id sent mid m offer w w' r t' k : message_table t' ->
  append id sent mid m offer w = (w', r) -> is_Some (table_of (db w.2) t' !! k) ->
  is_Some (table_of (db w'.2) t' !! k).
Proof.
  intros Ht [_ [[-> _]|(row & _ & Ha)]]%append_row_of Hk; [done|]. by eapply append_row_keeps.
Qed.

Lemma written_set id n h id' : written id' (set_count id n h) = if decide (id = id') then n else written id' h.
Proof. unfold written, set_count. cbn. rewrite lookup_insert. by case_decide. Qed.

(** The loop stops at the first row that is refused, and knows where. *)
Lemma write_messages_spec id transfer now l index w w' r : message_table (messages (kind w.1)) ->
  written id w.1 <= index ->
  write_messages id transfer now index l w = (w', r) ->
  kind w'.1 = kind w.1 /\ (forall id', id' <> id -> written id' w'.1 = written id' w.1) /\
  (forall k, is_Some (table_of (db w.2) (messages (kind w.1)) !! k) -> is_Some (table_of (db w'.2) (messages (kind w.1)) !! k)) /\
  exists n, n <= length l /\ written id w'.1 = (if decide (n = 0) then written id w.1 else index + n) /\
    (r = Ok tt /\ n = length l \/ is_ok r = false /\ n < length l) /\
    forall j m, j < n -> l !! j = Some m -> filed (kind w.1) id now w'.2 (index + j) m.
Proof.
  revert index w. induction l as [|m l IH]; intros index w Ht Hle.
  { cbn. intros [= <- <-]. split; [done|]. split; [done|]. split; [done|]. exists 0. split; [done|]. split; [done|].
    split; [by left|]. lia. }
  cbn [write_messages]. set (sent := filed_sent (now index) m). set (mid := filed_id (now index) index m).
  unfold m_bind at 1. destruct (append id sent mid _ _ w) as [w1 [[]|e]] eqn:Ha.
  2:{ intros [= <- <-]. pose proof Ha as [Hk _]%append_row_of. split; [by rewrite Hk|]. split; [by rewrite Hk|].
      split; [intros k; by eapply append_keeps_row|]. exists 0. split; [lia|]. rewrite Hk. split; [done|].
      split; [right; split; [done|cbn; lia]|]. lia. }
  unfold m_bind at 1. intros Hloop. pose proof Ha as [Hk1 Hc]%append_row_of.
  destruct Hc as [[_ [=]]|(row & _ & Hap)]. apply append_row_present in Hap.
  apply IH in Hloop as (Hk & Hother & Hrows & n & Hn & Hw & Hr & Hfiled).
  2:{ cbn. by rewrite Hk1. }
  2:{ cbn [fst]. rewrite written_set, decide_True by done. lia. }
  cbn [fst snd] in *. change (kind (set_count id (S index) w1.1)) with (kind w1.1) in *. rewrite Hk1 in *.
  split; [done|]. split; [|split].
  - intros id' Hne. rewrite Hother by done. rewrite written_set. by rewrite decide_False.
  - intros k Hks. apply Hrows. by eapply append_keeps_row.
  - exists (S n). split; [cbn; lia|]. rewrite decide_False by lia. split.
    + rewrite Hw. case_decide; [|lia]. rewrite written_set, decide_True by done. lia.
    + split; [destruct Hr as [[-> ->]|[Hr Hlt]]; [by left|right; split; [done|cbn; lia]]|].
      intros [|j] x Hj Hx; cbn in Hx.
      * injection Hx as <-. rewrite Nat.add_0_r. unfold filed, message_row. by apply Hrows.
      * replace (index + S j) with (S index + j) by lia. apply Hfiled; [lia|done].
Qed.

(** The count never runs ahead of the disk: appending a conversation's tail
    keeps every message row there was, files every message up to the new count
    and nothing past the first refused row counts; it answers that something
    was written exactly when there was a tail, and then all of it is down. *)
Theorem tail_counted id log transfer now w w' r : message_table (messages (kind w.1)) ->
  write_tail id log transfer now w = (w', r) ->
  (forall k, is_Some (table_of (db w.2) (messages (kind w.1)) !! k) -> is_Some (table_of (db w'.2) (messages (kind w.1)) !! k)) /\
  (forall id', id' <> id -> written id' w'.1 = written id' w.1) /\
  written id w.1 <= written id w'.1 /\
  (forall i m, written id w.1 <= i < written id w'.1 -> Messages.messages log !! i = Some m ->
     filed (kind w.1) id now w'.2 i m) /\
  match r with
  | Ok true => written id w.1 < length (Messages.messages log) /\ written id w'.1 = length (Messages.messages log)
  | Ok false => w' = w /\ length (Messages.messages log) <= written id w.1
  | Err _ => written id w'.1 < length (Messages.messages log)
  end.
Proof.
  intros Ht. unfold write_tail. destruct (Nat.leb_spec (length (Messages.messages log)) (written id w.1)) as [Hle|Hlt].
  { intros [= <- <-]. split; [done|]. split; [done|]. split; [done|]. split; [lia|]. done. }
  unfold m_bind. destruct (write_messages _ _ _ _ _ w) as [w1 r1] eqn:Hw.
  apply write_messages_spec in Hw as (Hk & Hother & Hrows & n & Hn & Hcount & Hr & Hfiled); [|done|done].
  rewrite length_drop in Hn, Hr. intros Heq. assert (w1 = w') as <- by by destruct r1; injection Heq.
  split; [done|]. split; [done|]. split; [case_decide; lia|]. split.
  - intros i m Hi Hm. rewrite Hcount in Hi. case_decide as Hz; [lia|].
    replace i with (written id w.1 + (i - written id w.1)) by lia. apply Hfiled; [lia|].
    rewrite lookup_drop. by replace (written id w.1 + (i - written id w.1)) with i by lia.
  - destruct Hr as [[-> ->]|[Hr Hlt']].
    + injection Heq as <-. rewrite Hcount, decide_False by lia. lia.
    + destruct r1; [done|]. injection Heq as <-. rewrite Hcount. case_decide; lia.
Qed.


(** ** Back from disk *)

Context {aes_laws : AesLaws}.
Lemma frame_outbound t id mid attempt : frame (in_table OUTBOUND_ATTEMPTS) (write_outbound_row t id mid attempt).
Proof. unfold write_outbound_row, cancelled_attempt. framed; try by apply frame_update. by apply frame_put. Qed.

(** The attempt's row after a send was committed: gone when there is no attempt
    or it was cancelled by a deletion, and the attempt otherwise. *)
Definition attempt_filed (t : HistoryTables) (id mid : string) (attempt : option bytes) (s : Store.Persistence) : Prop :=
  match attempt, table_of (db s) OUTBOUND_ATTEMPTS !! outbound_attempt_key (outbound_scope t) id mid with
  | _, None => True
  | Some b, Some row => decrypt (dek s) row = Ok b
  | None, Some _ => False
  end.
Definition rows_stay (s s' : Store.Persistence) : Prop :=
  forall t k, message_table t -> is_Some (table_of (db s) t !! k) -> is_Some (table_of (db s') t !! k).

#[export] Instance rows_stay_pre : PreOrder rows_stay.
Proof. split; [by intros s t k|]. intros s1 s2 s3 H1 H2 t k Ht Hk. apply H2; [done|]. by apply H1. Qed.

Lemma outbound_filed t id mid attempt d d' : write_outbound_row t id mid attempt d = (d', Ok tt) ->
  match attempt, table_of (tables d') OUTBOUND_ATTEMPTS !! outbound_attempt_key (outbound_scope t) id mid with
  | _, None => True
  | Some b, Some row => decrypt (key d') row = Ok b
  | None, Some _ => False
  end.
Proof.
  unfold write_outbound_row. intros (d1 & c & Hc & Hw)%m_bind_Ok. cbv zeta in Hw.
  set (k := outbound_attempt_key _ _ _) in *.
  assert (Hgone : t_update OUTBOUND_ATTEMPTS k None d1 = (d', Ok tt) -> table_of (tables d') OUTBOUND_ATTEMPTS !! k = None).
  { intros Hu. assert (Ht : tables d' = update_row (tables d1) OUTBOUND_ATTEMPTS k None) by by injection Hu as <-.
    rewrite Ht, table_of_update, decide_True by done. apply lookup_partial_alter_eq. }
  destruct attempt as [b|].
  - destruct c.
    + by rewrite Hgone.
    + apply t_put_Ok in Hw as (Hk & row & Hrow & ->). rewrite table_of_update, decide_True, lookup_partial_alter_eq by done.
      by rewrite Hk.
  - by rewrite Hgone.
Qed.

(** The message and its send are one fact: both rows are written or neither. *)
Lemma commit_send_cases t id sent mid message attempt s s' r :
  commit_send sha256 hex_decode t id sent mid message attempt s = (s', r) ->
  rows_stay s s' /\
  (db s' = db s /\ is_ok r = false \/
   (message_table (messages t) -> is_Some (message_row t id sent mid s')) /\ attempt_filed t id mid attempt s' /\
   (r = Ok tt \/ is_ok r = false)).
Proof.
  unfold commit_send, m_bind at 1, p_encrypt. destruct (encrypt _ _ _) as [blob|e].
  2:{ intros [= <- <-]. split; [by intros t' k|by left]. }
  intros Htr. apply transact_cases in Htr as [Hdek Hc]. cbn [drawn dek db rng] in *.
  destruct Hc as [[Hdb Hr]|(d & [] & Hop & Hdb & Hr)]; [split; [intros t' k; by rewrite Hdb|by left]|].
  apply m_bind_Ok in Hop as (d1 & [] & Hw & Ho). pose proof Ho as [Hk Hfo]%frame_outbound.
  pose proof (outbound_filed _ _ _ _ _ _ Ho) as Hat. pose proof Hw as [Hk1 Hfw]%frame_write_row.
  pose proof (Background.write_row_present _ _ _ _ _ _ _ Hw) as Hrow. cbn [key tables] in *.
  assert (Hmt : forall t', message_table t' -> t' <> OUTBOUND_ATTEMPTS) by (intros t' [->|[->| ->]]; done).
  split; [|right; split; [|split; [|done]]].
  - intros t' k Ht' Hp. rewrite Hdb, Hfo by (unfold in_table; by apply Hmt).
    destruct (decide (t' = messages t /\ k = history_message_key id sent mid)) as [[-> ->]|Hne]; [done|].
    rewrite Hfw; [done|]. intros [He|He]; [|by apply Hne]. by destruct Ht' as [->|[->| ->]].
  - intros Ht. unfold message_row. rewrite Hdb, Hfo; [done|]. unfold in_table. by apply Hmt.
  - unfold attempt_filed. rewrite Hdb. rewrite Hk, Hk1 in Hat. rewrite Hdek. exact Hat.
Qed.

Lemma write_send_cases id mid log attempts now w w' r : write_send id mid log attempts now w = (w', r) ->
  rows_stay w.2 w'.2 /\
  match r with
  | Ok true => exists m, find (has_id mid) (Messages.messages log) = Some m /\
      (message_table (messages (kind w.1)) -> is_Some (message_row (kind w.1) id (filed_sent now m) mid w'.2)) /\
      exists b, (match attempts !! mid with Some a => Some <$> res_ok (attempt_to_vec a) | None => Some None end) = Some b /\
        attempt_filed (kind w.1) id mid b w'.2
  | Ok false => find (has_id mid) (Messages.messages log) = None /\ w' = w
  | Err _ => True
  end.
Proof.
  unfold write_send. destruct (find _ _) as [m|]; [|intros [= <- <-]; by split].
  unfold m_bind, m_lift. destruct (stored_row _ _ _ _ _) as [row|]; [|intros [= <- <-]; by split].
  destruct (match attempts !! mid with Some a => _ | None => _ end) as [o|] eqn:Ho; [|intros [= <- <-]; by split].
  destruct (on_store _ w) as [w1 r1] eqn:Hc. apply on_store_Ok in Hc as [_ Hc]. apply commit_send_cases in Hc as [Hst Hc].
  destruct r1 as [[]|e]; [|intros [= <- <-]; by split]. intros [= <- <-]. split; [done|].
  destruct Hc as [[_ [=]]|(Hrow & Hat & _)]. exists m. split; [done|]. split; [done|]. exists o. split; [|done].
  destruct (attempts !! mid) as [a|]; [|by injection Ho as <-]. destruct (attempt_to_vec a); [|done]. by injection Ho as <-.
Qed.

Lemma write_messages_stay id transfer now l index w w' r :
  write_messages id transfer now index l w = (w', r) -> rows_stay w.2 w'.2.
Proof.
  revert index w. induction l as [|m l IH]; intros index w; [by intros [= <- _] t k|]. cbn [write_messages].
  unfold m_bind at 1. destruct (append _ _ _ _ _ w) as [w1 [[]|e]] eqn:Ha.
  - intros Hl t k Htk Hk. eapply (IH (S index)); [exact Hl|exact Htk|]. exact (append_keeps_row _ _ _ _ _ _ _ _ t k Htk Ha Hk).
  - intros [= <- _] t k Htk Hk. exact (append_keeps_row _ _ _ _ _ _ _ _ t k Htk Ha Hk).
Qed.

Hypothesis stored_roundtrip : forall (st : StoredMessage M) b, stored_to_vec st = Ok b -> stored_from_slice b = Ok st.

(** No deletion is known to the store. *)
Definition quiet (tables : gmap string (gmap string bytes)) : Prop :=
  forall k, is_Some (table_of tables MESSAGE_DELETION_TARGETS !! k) -> k = READY.

Lemma ready_out scope id name :
  let '(start, stop) := prefix_range ((kind_of scope +:+ ":" +:+ id) +:+ one +:+ name) in in_range start stop READY = false.
Proof.
  unfold prefix_range, in_range, READY, kind_of. cbn zeta.
  destruct (String.eqb scope "private_dm"); [|destruct (String.eqb scope "private_group")];
    cbn [append]; rewrite !append_cons, leb_cons; reflexivity.
Qed.

Lemma quiet_records d scope id name : quiet (tables d) ->
  deletion_target_records (kind_of scope +:+ ":" +:+ id) name d = (d, Ok []).
Proof.
  intros Hq. unfold deletion_target_records. pose proof (ready_out scope id name) as Hr.
  destruct (prefix_range _) as [start stop].
  assert (Hnil : rows_between start stop (table_of (tables d) MESSAGE_DELETION_TARGETS) = []).
  { unfold rows_between. apply elem_of_nil_inv. intros [k v] [Hin Hk]%list_elem_of_filter. cbn in Hin.
    apply elem_of_btree_entries in Hk. assert (k = READY) as -> by (apply Hq; by rewrite Hk). by rewrite Hin in Hr. }
  by rewrite Hnil.
Qed.

Lemma quiet_erase d d' t b b' : quiet (tables d) -> erase_known_target sha256 hex_decode t b d = (d', Ok b') ->
  d' = d /\ b' = b.
Proof.
  intros Hq. unfold erase_known_target. destruct (value_from_slice b) as [v|]; [|by intros [= <- <-]].
  destruct (row_target _ _ t v) as [[[ctx target] correlation]|] eqn:Ht; [|by intros [= <- <-]].
  unfold row_target in Ht. apply bind_Some in Ht as (id & _ & Ht). apply bind_Some in Ht as (tg & _ & [= <- -> <-]).
  intros (d1 & owner & Ho & H)%m_bind_Ok. assert (d1 = d) as ->.
  { unfold deletion_owner in Ho. apply m_bind_Ok in Ho as (d2 & p & Hp & Hm). unfold t_read in Hp. injection Hp as <- _.
    by injection Hm as <- _. }
  apply m_bind_Ok in H as (d2 & rec & Hm & H).
  assert (d2 = d /\ rec = None) as [-> ->].
  { unfold matching_deletion in Hm. apply m_bind_Ok in Hm as (d3 & own & Hown & Hm). rewrite quiet_records in Hown by done.
    injection Hown as <- <-. apply m_bind_Ok in Hm as (d4 & more & Hmore & Hm).
    assert (d4 = d /\ more = []) as [-> ->].
    { destruct (row_correlation _ _ _ v) as [alias|]; [|by injection Hmore]. destruct (String.eqb _ _); [by injection Hmore|].
      rewrite quiet_records in Hmore by done. by injection Hmore. }
    by injection Hm as <- <-. }
  by injection H as <- <-.
Qed.

(** A row that is new to a quiet store goes down as it is. *)
Lemma write_row_quiet t k blob p d d' : quiet (tables d) -> table_of (tables d) (messages t) !! k = None ->
  decrypt (key d) blob = Ok p -> write_history_row sha256 hex_decode t k blob d = (d', Ok tt) ->
  exists row, decrypt (key d) row = Ok p /\ tables d' = update_row (tables d) (messages t) k (Some row).
Proof.
  intros Hq Hno Hp. unfold write_history_row. intros (d1 & old & Hold & Hw)%m_bind_Ok.
  assert (d1 = d /\ old = None) as [-> ->] by (unfold t_read in Hold; rewrite Hno in Hold; by injection Hold).
  cbn in Hw. rewrite Hp in Hw. apply m_bind_Ok in Hw as (d4 & p3 & Her & Hw). apply quiet_erase in Her as [-> ->]; [|done].
  apply t_put_Ok in Hw as (_ & row & Hd & Ht). by exists row.
Qed.

(** The row of a message of this log. *)
Definition kept (id : string) (m : M) (st : StoredMessage M) : Prop :=
  h_message st = m /\ h_conversation_id st = id.
Definition holds_row (K : bytes) (row : option bytes) (st : StoredMessage M) : Prop :=
  exists r p, row = Some r /\ decrypt K r = Ok p /\ stored_from_slice p = Ok st.

Lemma transact_fault {A} (op : method Draft PersistenceError A) s s' r : transact op s = (s', r) -> read_fault s' = read_fault s.
Proof. unfold transact. destruct (op _) as [d r0]. by intros (_ & _ & -> & _)%write_cases. Qed.

Lemma append_row_fault t id sent mid b bg s s' r : append_row t id sent mid b bg s = (s', r) -> read_fault s' = read_fault s.
Proof.
  unfold Background.append_history_message_with_background, m_bind at 1, p_encrypt.
  destruct (encrypt _ _ _) as [blob|e]; [|by intros [= <- _]]. unfold m_bind.
  destruct (transact _ _) as [s1 r1] eqn:Htr. apply transact_fault in Htr. destruct r1; by intros [= <- _].
Qed.

(** A message that is new to a quiet store. *)
Lemma append_fresh id sent mid m offer w w' : message_table (messages (kind w.1)) -> quiet (db w.2) ->
  message_row (kind w.1) id sent mid w.2 = None -> append id sent mid m offer w = (w', Ok tt) ->
  w'.1 = w.1 /\ dek w'.2 = dek w.2 /\ read_fault w'.2 = read_fault w.2 /\ quiet (db w'.2) /\
  table_of (db w'.2) OUTBOUND_ATTEMPTS = table_of (db w.2) OUTBOUND_ATTEMPTS /\
  exists row st, table_of (db w'.2) (messages (kind w.1))
      = <[ history_message_key id sent mid := row ]> (table_of (db w.2) (messages (kind w.1))) /\
    holds_row (dek w.2) (Some row) st /\ kept id m st.
Proof.
  intros Ht Hq Hno Happ. pose proof Happ as [Hk Hc]%append_row_of. split; [done|].
  destruct Hc as [[_ [=]]|(b & Hb & Ha)]. pose proof (append_row_fault _ _ _ _ _ _ _ _ _ Ha) as Hfault.
  apply append_row_cases in Ha as [Hdek [[_ [=]]|(d & ch & blob & Henc & Hop & Hdb & _)]].
  rewrite Hdb. unfold Background.append_tx in Hop. apply m_bind_Ok in Hop as (d1 & c1 & Hqu & Hop).
  apply m_bind_Ok in Hop as (d2 & [] & Hw & [= <- _]). apply frame_alert in Hqu as [Hk1 Hqu]. cbn [key tables] in *.
  destruct (Background.message_table_other _ Ht) as [Hnb Hng].
  assert (Hq1 : forall t, t <> BACKGROUND_DELIVERY -> table_of (tables d1) t = table_of (db w.2) t).
  { intros t Hne. apply map_eq. intros k. by apply Hqu. }
  assert (Hmt : messages (kind w.1) <> MESSAGE_DELETION_TARGETS /\ messages (kind w.1) <> OUTBOUND_ATTEMPTS)
    by (destruct Ht as [->|[->| ->]]; done).
  apply (write_row_quiet _ _ _ b) in Hw as (row & Hrow & Htab).
  - split; [done|]. split; [done|]. rewrite Htab. unfold quiet. rewrite !table_of_update, !decide_False by apply Hmt.
    rewrite !Hq1 by done. split; [done|]. split; [done|]. rewrite decide_True by done.
    unfold stored_row in Hb. apply map_err_Ok in Hb. eexists row, _. split; [done|]. split.
    + exists row, b. rewrite <-Hk1. split; [done|]. split; [exact Hrow|]. by apply stored_roundtrip.
    + by split.
  - unfold quiet. by rewrite Hq1.
  - by rewrite Hq1.
  - rewrite Hk1. eapply decrypt_encrypt. exact Henc.
Qed.


(** Messages as the log stamps them. *)
Definition dated (m : M) : Prop := exists i t, cm_message_id m = Some i /\ cm_sent_at_ms m = Some t /\ is_u64 t.
Definition row_key (id : string) (m : M) : string :=
  history_message_key id (default 0%N (cm_sent_at_ms m)) (default "" (cm_message_id m)).
(** [m] was sent before [m'], or at the same time under a smaller id. *)
Definition earlier (m m' : M) : Prop :=
  lex_le N.le String.le (default 0%N (cm_sent_at_ms m), default "" (cm_message_id m))
    (default 0%N (cm_sent_at_ms m'), default "" (cm_message_id m')).

Lemma leb_app_same a b x y : String.length a = String.length b ->
  String.leb (a +:+ x) (b +:+ y) = if String.eqb a b then String.leb x y else String.leb a b.
Proof.
  revert b. induction a as [|c a IH]; intros [|c' b] Hl; try done. cbn [String.length] in Hl.
  rewrite !append_cons, !leb_cons, IH by lia. cbn [String.eqb]. destruct (Ascii.eqb_spec c c') as [->|Hne].
  - rewrite N.ltb_irrefl, N.eqb_refl. cbn. by destruct (String.eqb a b).
  - destruct (N.eqb_spec (byte_at c) (byte_at c')) as [He|Hn]; [|done].
    exfalso. apply Hne. apply (f_equal Ascii.ascii_of_N) in He. unfold byte_at in He. by rewrite !Ascii.ascii_N_embedding in He.
Qed.

Lemma row_key_leb id t i t' i' : is_u64 t -> is_u64 t' ->
  String.leb (history_message_key id t i) (history_message_key id t' i')
  = if (t =? t')%N then String.leb i i' else (t <=? t')%N.
Proof.
  intros Ht Ht'. unfold history_message_key. rewrite !leb_app, !format_u64_20 by done.
  rewrite leb_app_same by by rewrite !dec_string_length. rewrite leb_app.
  rewrite dec_string_leb by by apply u64_lt_pow20.
  destruct (String.eqb_spec (dec_string 20 t) (dec_string 20 t')) as [He|Hne].
  - rewrite <-!format_u64_20 in He by done. apply format_u64_inj in He as ->; [|done..]. by rewrite N.eqb_refl.
  - rewrite (proj2 (N.eqb_neq t t')); [done|]. by intros ->.
Qed.

Lemma row_key_earlier id m m' : dated m -> dated m' -> String.le (row_key id m) (row_key id m') -> earlier m m'.
Proof.
  intros (i & t & Hi & Ht & Hu) (i' & t' & Hi' & Ht' & Hu'). unfold row_key, earlier, String.le.
  rewrite Hi, Ht, Hi', Ht'. cbn [from_option]. unfold Datatypes.id. rewrite row_key_leb by done. unfold lex_le. cbn [fst snd].
  destruct (N.eqb_spec t t') as [->|Hne]; [done|]. intros Hle%Is_true_true%N.leb_le. done.
Qed.

Lemma row_key_inj id m m' : dated m -> dated m' -> row_key id m = row_key id m' -> cm_message_id m = cm_message_id m'.
Proof.
  intros Hm Hm' He. assert (Hle : earlier m m' /\ earlier m' m) by (split; apply (row_key_earlier id); by rewrite ?He).
  destruct Hle as [Hle Hge]. pose proof (anti_symm (lex_le N.le String.le) _ _ Hle Hge) as Heq.
  destruct Hm as (i & t & Hi & _), Hm' as (i' & t' & Hi' & _). rewrite Hi, Hi' in *. by injection Heq as _ ->.
Qed.

Lemma fill_in_dated mid sent m : dated m -> fill_in mid sent m = m.
Proof. intros (i & t & Hi & Ht & _). unfold fill_in. by rewrite Hi, Ht. Qed.

(** A log with distinct ids on a quiet store that holds none of them: every
    row goes down as its message, and no other row of the table moves. *)
Lemma write_messages_fresh id transfer now l index w w' : message_table (messages (kind w.1)) -> quiet (db w.2) ->
  Forall dated l -> NoDup (map cm_message_id l) ->
  (forall m, m ∈ l -> table_of (db w.2) (messages (kind w.1)) !! row_key id m = None) ->
  write_messages id transfer now index l w = (w', Ok tt) ->
  kind w'.1 = kind w.1 /\ dek w'.2 = dek w.2 /\ read_fault w'.2 = read_fault w.2 /\
  table_of (db w'.2) OUTBOUND_ATTEMPTS = table_of (db w.2) OUTBOUND_ATTEMPTS /\
  (forall k, (forall m, m ∈ l -> k <> row_key id m) ->
     table_of (db w'.2) (messages (kind w.1)) !! k = table_of (db w.2) (messages (kind w.1)) !! k) /\
  forall m, m ∈ l -> exists st, holds_row (dek w.2) (table_of (db w'.2) (messages (kind w.1)) !! row_key id m) st /\ kept id m st.
Proof.
  revert index w. induction l as [|m l IH]; intros index w Ht Hq Hd Hn Hno.
  { intros [= <-]. do 5 (split; [done|]). by intros m Hm%elem_of_nil. }
  apply Forall_cons in Hd as [Hdm Hd]. cbn [map] in Hn. apply NoDup_cons in Hn as [Hm Hn].
  cbn [write_messages]. set (sent := filed_sent (now index) m). set (mid := filed_id (now index) index m).
  assert (Hkey : history_message_key id sent mid = row_key id m).
  { destruct Hdm as (i & t & Hi & Htm & _). unfold sent, mid, row_key, filed_id, filed_sent. by rewrite Hi, Htm. }
  rewrite fill_in_dated by done. intros (w1 & [] & Ha & Hl)%m_bind_Ok.
  apply append_fresh in Ha as (Hk1 & Hdek1 & Hf1 & Hq1 & Hout1 & row & st & Htab1 & Hrow1 & Hkept1); [|done|done|].
  2:{ unfold message_row. rewrite Hkey. apply Hno. by left. }
  rewrite Hkey in Htab1. apply m_bind_Ok in Hl as (w2 & [] & [= <-] & Hl).
  apply IH in Hl as (Hk & Hdek & Hf & Hout & Hsame & Hrows).
  - cbn [fst snd] in *. change (kind (set_count id (S index) w1.1)) with (kind w1.1) in *. rewrite Hk1 in *.
    split; [done|]. split; [by rewrite Hdek|]. split; [by rewrite Hf|]. split; [by rewrite Hout|]. split.
    + intros k Hkn. rewrite Hsame by (intros x Hx; apply Hkn; by right). rewrite Htab1.
      rewrite lookup_insert_ne; [done|]. intros Heq. apply (Hkn m); [by left|done].
    + intros x [->|Hx]%elem_of_cons.
      * exists st. split; [|done]. rewrite Hsame, Htab1, lookup_insert_eq; [done|].
        intros y Hy Heq. apply Hm. rewrite Forall_forall in Hd. apply row_key_inj in Heq; [|done|by apply Hd].
        rewrite Heq. by apply list_elem_of_In, in_map, list_elem_of_In.
      * rewrite <-Hdek1. by apply Hrows.
  - cbn. by rewrite Hk1.
  - done.
  - done.
  - done.
  - intros x Hx. cbn [fst snd]. change (kind (set_count id (S index) w1.1)) with (kind w1.1). rewrite Hk1, Htab1.
    rewrite lookup_insert_ne; [apply Hno; by right|]. intros Heq. apply Hm. rewrite Forall_forall in Hd.
    apply row_key_inj in Heq; [|done|by apply Hd]. rewrite Heq. by apply list_elem_of_In, in_map, list_elem_of_In.
Qed.


(** An entry of the message table that holds a message of the log. *)
Definition entry_of (K : bytes) (id : string) (log : list M) (kv : string * bytes) (m : M) : Prop :=
  m ∈ log /\ kv.1 = row_key id m /\ exists st, holds_row K (Some kv.2) st /\ h_message st = m.

Lemma list_entries K id log (E : list (string * bytes)) (L : list M) acc : Forall2 (entry_of K id log) E L ->
  exists rws, try_fold (fun acc '(k, v) => p ← decrypt K v; Ok (acc ++ [p])) acc E = Ok (acc ++ rws) /\
    Forall2 (fun row m => exists st, stored_from_slice row = Ok st /\ h_message st = m) rws L.
Proof.
  intros HF. revert acc. induction HF as [|[k v] m E L (_ & _ & st & (r & p & [= <-] & Hp & Hst) & Hm) _ IH]; intros acc.
  - exists []. rewrite app_nil_r. by split; [|constructor].
  - destruct (IH (acc ++ [p])) as (rws & Hr & HF'). exists (p :: rws). cbn [try_fold]. cbn [snd] in Hp. rewrite Hp.
    cbn [mbind result_bind]. rewrite Hr, <-app_assoc. split; [done|]. constructor; [by exists st|done].
Qed.

Lemma replay_rows author rws L into : Forall2 (fun row m => exists st, stored_from_slice row = Ok st /\ h_message st = m) rws L ->
  Forall dated L -> NoDup (idents (into_log into) ++ map cm_message_id L) ->
  Messages.messages (into_log (foldl (replay_message author) into rws)) = Messages.messages (into_log into) ++ L /\
  into_attempts (foldl (replay_message author) into rws) = into_attempts into.
Proof.
  intros HF. revert into. induction HF as [|row m rws L (st & Hst & Hm) _ IH]; intros into Hd Hn.
  { by rewrite app_nil_r. }
  apply Forall_cons in Hd as [Hdm Hd]. cbn [foldl]. cbn [map] in Hn. pose proof Hdm as (i & t & Hi & _).
  assert (Hup : Messages.messages (into_log (replay_message author into row)) = Messages.messages (into_log into) ++ [m]).
  { unfold replay_message. rewrite Hst, Hm, fill_in_dated by done. cbn [into_log]. unfold upsert. rewrite Hi. cbn [Messages.messages].
    destruct (existsb _ _) eqn:He; [|done]. exfalso. apply existsb_exists in He as (x & Hx & Hxi%bool_decide_eq_true).
    apply NoDup_app in Hn as (_ & Hdis & _). apply (Hdis (cm_message_id x)).
    - unfold idents. by apply list_elem_of_In, in_map.
    - rewrite Hxi, Hi. by left. }
  assert (Hatt : into_attempts (replay_message author into row) = into_attempts into)
    by (unfold replay_message; by rewrite Hst).
  destruct (IH (replay_message author into row)) as [Hlog Ha]; [done| |].
  - unfold idents. by rewrite Hup, map_app, <-app_assoc.
  - rewrite Hlog, Hup, Ha, Hatt, <-app_assoc. done.
Qed.

Lemma entries_Forall2 {A B} (P : A -> B -> Prop) (E : list A) : (forall x, x ∈ E -> exists y, P x y) -> exists L, Forall2 P E L.
Proof.
  induction E as [|x E IH]; intros HE; [by exists []|]. destruct (HE x) as [y Hy]; [by left|].
  destruct IH as [L HL]; [intros z Hz; apply HE; by right|]. exists (y :: L). by constructor.
Qed.

Lemma Forall2_keys K id log E L : Forall2 (entry_of K id log) E L -> map (row_key id) L = E.*1.
Proof. induction 1 as [|kv m E L (_ & Hk & _) _ IH]; [done|]. cbn. by rewrite IH, Hk. Qed.

Lemma keys_earlier id L : Forall dated L -> StronglySorted String.le (map (row_key id) L) -> StronglySorted earlier L.
Proof.
  induction L as [|m L IH]; intros Hd Hs; [constructor|]. apply Forall_cons in Hd as [Hm Hd]. cbn in Hs.
  apply StronglySorted_inv in Hs as [Hs Hall]. constructor; [by apply IH|]. rewrite Forall_forall in Hd. rewrite Forall_forall in Hall. apply Forall_forall.
  intros x Hx. apply (row_key_earlier id); [done|by apply Hd|]. apply Hall. by apply list_elem_of_In, in_map, list_elem_of_In.
Qed.

Lemma same_message log m m' : NoDup (map cm_message_id log) -> m ∈ log -> m' ∈ log ->
  cm_message_id m = cm_message_id m' -> m = m'.
Proof.
  intros Hn [a Ha]%list_elem_of_lookup [b Hb]%list_elem_of_lookup He. assert (a = b) as ->; [|congruence].
  eapply (NoDup_lookup (cm_message_id <$> log)); [exact Hn|rewrite list_lookup_fmap, Ha; done|].
  rewrite list_lookup_fmap, Hb. cbn. by rewrite He.
Qed.

Lemma sorted_weaken {A} (R R' : A -> A -> Prop) l : (forall x y, R x y -> R' x y) -> StronglySorted R l -> StronglySorted R' l.
Proof. intros HR. induction 1 as [|x l _ IH Hx]; constructor; [done|]. eapply Forall_impl; [exact Hx|apply HR]. Qed.

Definition settled (m : M) : M :=
  if bool_decide (cm_delivery_status m = Some Pending) then cm_set_delivery orphan_meta m else m.

(** The rows of a message table that belong to a conversation. *)
Definition in_rows (t id : string) (s : Store.Persistence) (k : string) (v : bytes) : Prop :=
  (let '(start, stop) := prefix_range id in in_range start stop k = true) /\ table_of (db s) t !! k = Some v.
Definition no_rows (t id : string) (s : Store.Persistence) : Prop := forall k v, ~ in_rows t id s k v.

Lemma row_key_in_range id m : let '(start, stop) := prefix_range id in in_range start stop (row_key id m) = true.
Proof. exact (prefix_in_range id (format_u64 20 (default 0%N (cm_sent_at_ms m)) +:+ one +:+ default "" (cm_message_id m))). Qed.

(** The rows of a conversation are these messages. *)
Definition rows_are (t id : string) (log : list M) (s : Store.Persistence) : Prop :=
  (forall k v, in_rows t id s k v -> exists m, m ∈ log /\ k = row_key id m) /\
  forall m, m ∈ log -> exists st, holds_row (dek s) (table_of (db s) t !! row_key id m) st /\ kept id m st.

Lemma tail_saved id log transfer now h s w b : message_table (messages (kind h)) -> written id h = 0 ->
  Forall dated (Messages.messages log) -> NoDup (idents log) -> quiet (db s) -> no_rows (messages (kind h)) id s ->
  write_tail id log transfer now (h, s) = (w, Ok b) ->
  read_fault w.2 = read_fault s /\ table_of (db w.2) OUTBOUND_ATTEMPTS = table_of (db s) OUTBOUND_ATTEMPTS /\
  rows_are (messages (kind h)) id (Messages.messages log) w.2.
Proof.
  intros Ht Hw0 Hd Hn Hq Hno. unfold write_tail. cbn [fst]. rewrite Hw0.
  destruct (Nat.leb_spec (length (Messages.messages log)) 0) as [Hle|Hlt].
  - intros [= <- <-]. do 2 (split; [done|]). destruct (Messages.messages log); [|cbn in Hle; lia].
    split; [by intros k v ?%Hno|by intros m ?%elem_of_nil].
  - rewrite drop_0. intros (w1 & [] & Hm & [= <- _])%m_bind_Ok.
    apply write_messages_fresh in Hm as (_ & Hk & Hf & Ho & Hsame & Hrows); [|done..|].
    + do 2 (split; [done|]). split; [|by rewrite Hk].
      intros k v [Hr Hkv]. destruct (decide (Exists (fun m => k = row_key id m) (Messages.messages log))) as [Hex|Hnex].
      * apply Exists_exists in Hex as (m & Hm & ->). by exists m.
      * exfalso. cbn [fst snd] in Hsame. rewrite Hsame in Hkv; [by apply (Hno k v)|].
        intros m Hm ->. apply Hnex, Exists_exists. by exists m.
    + cbn [fst snd]. intros m Hin. pose proof (row_key_in_range id m) as Hr. apply eq_None_not_Some. intros [v Hv].
      by apply (Hno (row_key id m) v).
Qed.

(** They are listed as the messages, by key. *)
Lemma listed t id log s : Forall dated log -> NoDup (map cm_message_id log) -> rows_are (messages t) id log s ->
  read_fault s = None ->
  exists rws L, list_history_messages t id s = Ok rws /\
    Forall2 (fun row m => exists st, stored_from_slice row = Ok st /\ h_message st = m) rws L /\
    L ≡ₚ log /\ StronglySorted earlier L.
Proof.
  intros Hd Hn [Hrange Hrows] Hf. unfold list_history_messages, p_range_prefix, range_prefix, begin_read. rewrite Hf.
  cbn [mbind result_bind]. unfold in_rows in Hrange. pose proof (row_key_in_range id) as Hin.
  destruct (prefix_range id) as [start stop].
  set (E := filter _ (btree_entries String.le (table_of (db s) (messages t)))).
  assert (HE : forall k v, (k, v) ∈ E <-> in_range start stop k = true /\ table_of (db s) (messages t) !! k = Some v).
  { intros k v. unfold E. by rewrite list_elem_of_filter, elem_of_btree_entries. }
  assert (Hkeys : NoDup E.*1) by (apply NoDup_fmap_fst; [intros k v1 v2 [_ H1]%HE [_ H2]%HE; congruence|
    unfold E; apply NoDup_filter, btree_entries_NoDup; apply _]).
  assert (Hsorted : StronglySorted String.le E.*1).
  { apply StronglySorted_proj. unfold E. apply StronglySorted_filter.
    eapply sorted_weaken; [|apply btree_entries_sorted; apply _]. by intros ? ? [? _]. }
  destruct (entries_Forall2 (entry_of (dek s) id log) E) as [L HL].
  { intros [k v] Hkv%HE. destruct (Hrange k v Hkv) as (m & Hm & ->). exists m. destruct (Hrows m Hm) as (st & Hst & Hkept & _).
    destruct Hkv as [_ Hkv]. rewrite Hkv in Hst. by repeat (split; [done|]); exists st. }
  pose proof (Forall2_keys _ _ _ _ _ HL) as HLk.
  assert (HLin : forall m, m ∈ L -> m ∈ log).
  { intros m Hm. apply list_elem_of_lookup in Hm as [j Hj].
    destruct (Forall2_lookup_r _ _ _ _ _ HL Hj) as (kv & _ & Hmm & _). exact Hmm. }
  rewrite Forall_forall in Hd. destruct (list_entries (dek s) id log E L [] HL) as (rws & Hrws & HF). exists rws, L.
  split; [exact Hrws|]. split; [exact HF|]. split.
  - apply NoDup_Permutation; [apply (NoDup_fmap_1 (row_key id)); change (row_key id <$> L) with (map (row_key id) L);
      by rewrite HLk|by eapply NoDup_fmap_1|]. intros m. split; [apply HLin|]. intros Hm.
    destruct (Hrows m Hm) as (st & (row & p & Hrow & _) & _).
    assert (HmE : row_key id m ∈ map (row_key id) L).
    { rewrite HLk. apply list_elem_of_fmap. exists (row_key id m, row). split; [done|]. apply HE. split; [apply Hin|done]. }
    apply list_elem_of_In, in_map_iff in HmE as (m' & Hkm & Hm'%list_elem_of_In). assert (m' = m) as <-; [|done].
    eapply same_message; [exact Hn|by apply HLin|done|]. apply (row_key_inj id); [apply Hd; by apply HLin|by apply Hd|done].
  - apply (keys_earlier id); [apply Forall_forall; intros m Hm; by apply Hd, HLin|by rewrite HLk].
Qed.

(** C16. What is written is what comes back: a conversation whose messages are all
    stamped and distinct, saved for the first time to a store that knows no
    deletion, is read back after a restart as the same messages, each once, in
    sending order, except that a send that was under way has failed. *)
Theorem restart_keeps_messages id author log transfer now h s w b t h0 into h1 :
  message_table (messages (kind h)) -> kind h0 = kind h -> written id h = 0 ->
  Forall dated (Messages.messages log) -> NoDup (idents log) -> quiet (db s) ->
  no_rows (messages (kind h)) id s -> no_rows OUTBOUND_ATTEMPTS (outbound_attempt_prefix (outbound_scope (kind h)) id) s ->
  read_fault s = None ->
  write_tail id log transfer now (h, s) = (w, Ok b) ->
  replay id author w.2 {| into_log := default_log; into_attempts := ∅; into_transfer := t |} h0 = (into, h1) ->
  into_attempts into = ∅ /\
  exists L, L ≡ₚ Messages.messages log /\ StronglySorted earlier L /\ Messages.messages (into_log into) = map settled L.
Proof.
  intros Ht Hk0 Hw0 Hd Hn Hq Hno Hnoatt Hrf (Hrf' & Hout & Hsaved)%tail_saved Hr; [|done..]. rewrite Hrf in Hrf'.
  destruct (listed _ _ _ _ Hd Hn Hsaved Hrf') as (rws & L & Hrws & HF & Hperm & Hsorted).
  assert (HdL : Forall dated L) by by rewrite Hperm. assert (HnL : NoDup (map cm_message_id L)) by by rewrite Hperm.
  unfold replay in Hr. rewrite Hk0, Hrws in Hr.
  destruct (replay_rows author rws L {| into_log := default_log; into_attempts := ∅; into_transfer := t |} HF HdL HnL) as [Hlog Hatt].
  set (i1 := foldl _ _ rws) in *. cbn [into_log into_attempts Messages.messages default_log app] in Hlog, Hatt.
  assert (Hnone : list_outbound_attempts (outbound_scope (kind h)) id w.2 = Ok []).
  { unfold list_outbound_attempts, p_range_prefix, range_prefix, begin_read. rewrite Hrf'. cbn [mbind result_bind].
    unfold no_rows, in_rows in Hnoatt. destruct (prefix_range (outbound_attempt_prefix _ id)) as [start stop].
    rewrite Hout, (elem_of_nil_inv (filter _ _)); [done|]. intros [k v] [Hk Hv]%list_elem_of_filter.
    apply elem_of_btree_entries in Hv. by apply (Hnoatt k v). }
  rewrite Hnone in Hr. cbn [foldl] in Hr. injection Hr as <- _. cbn [into_log into_attempts]. split; [exact Hatt|].
  exists L. split; [exact Hperm|]. split; [exact Hsorted|]. rewrite Forall_forall in HdL. rewrite settle_map, Hlog, Hatt.
  - apply map_ext_in. intros m Hm%list_elem_of_In. unfold is_orphan, settled.
    destruct (HdL m Hm) as (i & tm & Hi & _). by rewrite Hi, lookup_empty, (bool_decide_true (None = None)), andb_true_r.
  - unfold distinct, idents. rewrite Hlog. split; [|done].
    apply Forall_forall. intros o Ho. apply list_elem_of_In, in_map_iff in Ho as (m & <- & Hm%list_elem_of_In).
    destruct (HdL m Hm) as (i & tm & Hi & _). by rewrite Hi.
Qed.

End Conversations.

(** ** A conversation of three memos

    One was sent, one is on its way, of the third only the row is left. *)
#[local] Existing Instances Rows.plain_aes Rows.plain_aes_laws Rows.row_json Rows.row_json' Rows.row_rows Devices.toy_scheme.
#[local] Existing Instances Background.toy_control Background.toy_summary.

Record Memo := { memo_id : option string; memo_sent : option N; memo_status : option MessageDeliveryStatus }.
#[export] Instance Memo_eq_dec : EqDecision Memo.
Proof. solve_decision. Defined.

#[export] Instance memo_message : ConversationMessage Memo := {|
  cm_metadata _ := None; cm_set_metadata _ m := m; cm_erase_content m := m; cm_message_id := memo_id;
  cm_set_message_id i m := {| memo_id := Some i; memo_sent := memo_sent m; memo_status := memo_status m |};
  cm_sent_at_ms := memo_sent;
  cm_set_sent_at_ms t m := {| memo_id := memo_id m; memo_sent := Some t; memo_status := memo_status m |};
  cm_body _ := EmptyString; cm_author _ := "me";
  cm_set_delivery d m := {| memo_id := memo_id m; memo_sent := memo_sent m; memo_status := delivery_status d |};
  cm_delivery_status := memo_status;
|}.
#[export] Instance memo_laws : ConversationMessageLaws Memo.
Proof. by split. Qed.
#[export] Instance memo_deletable : DeletableMessage Memo :=
  {| cm_attachment _ := None; cm_call_id _ := None; cm_is_service _ := false |}.
#[local] Instance no_files : TransferOps unit := {| manifest_for _ _ := None; previews _ := ∅; Erasure.forget _ t := t |}.
#[export] Instance no_history : TransferHistory unit :=
  {| restore_stored _ _ _ t := t; restore_preview _ _ t := t |}.

Definition memo (i : string) (t : N) (st : MessageDeliveryStatus) : Memo :=
  {| memo_id := Some i; memo_sent := Some t; memo_status := Some st |}.
Definition sending : OutboundAttemptRecord :=
  {| ever_published := Some false; conversation_id := "x"; a_message_id := "b"; a_sent_at_ms := 2; ciphertext_bytes := 1;
     message_json := "b"; publish_payload_b64 := ""; a_delivery_status := Pending; a_delivery_error := None;
     a_retry_count := 0; auto_resends := 0; last_send_ms := 2 |}.
Definition memos : list (Memo * bytes) :=
  [(memo "a" 1 Sent, str "A"); (memo "b" 2 Pending, str "B"); (memo "c" 3 Pending, str "C")].

(** The codec knows these three, filed under their own names. *)
Definition stored_memo (m : Memo) : StoredMessage Memo :=
  {| h_conversation_id := "x"; h_sent_at_ms := default 0%N (memo_sent m); h_message_id := default "" (memo_id m);
     h_message := m; attachment_manifest := None; preview_manifest := None; history_evidence := None |}.
Definition is_stored_memo (st : StoredMessage Memo) : bool :=
  match st with
  | {| h_conversation_id := c; h_sent_at_ms := t; h_message_id := i; h_message := m;
       attachment_manifest := None; preview_manifest := None; history_evidence := None |} =>
      bool_decide (c = "x" /\ t = default 0%N (memo_sent m) /\ i = default "" (memo_id m))
  | _ => false
  end.
#[export] Instance memo_json : HistoryJson Memo := {|
  stored_to_vec st := if is_stored_memo st
                      then match find (fun mb => bool_decide (mb.1 = h_message st)) memos with
                           | Some mb => Ok mb.2 | None => Err "unknown" end
                      else Err "unknown";
  stored_from_slice b := match find (fun mb => bool_decide (mb.2 = b)) memos with
                         | Some mb => Ok (stored_memo mb.1) | None => Err "unknown" end;
  attempt_to_vec _ := Ok (str "S");
  attempt_from_slice b := if bool_decide (b = str "S") then Ok sending else Err "unknown";
  message_from_str s := if String.eqb s "b" then Ok (memo "b" 2 Pending) else Err "unknown";
|}.

Lemma is_stored_memo_eq st : is_stored_memo st = true -> st = stored_memo (h_message st).
Proof.
  destruct st as [c t i m [|] [|] [|]]; cbn; try done. intros (-> & -> & ->)%bool_decide_eq_true. done.
Qed.

Lemma memo_roundtrip (st : StoredMessage Memo) b : stored_to_vec st = Ok b -> stored_from_slice b = Ok st.
Proof.
  cbn. destruct (is_stored_memo st) eqn:Hst; [|done]. apply is_stored_memo_eq in Hst. rewrite Hst. cbn [stored_memo h_message].
  clear Hst. generalize (h_message st). clear st. intros m.
  destruct (decide (memo "a" 1 Sent = m)) as [<-|Ha]; [by intros [= <-]|].
  destruct (decide (memo "b" 2 Pending = m)) as [<-|Hb]; [by intros [= <-]|].
  destruct (decide (memo "c" 3 Pending = m)) as [<-|Hc]; [by intros [= <-]|].
  rewrite !bool_decide_false by done. done.
Qed.

Definition memo_log : Messages.MessageLog := {| Messages.messages := map fst memos; ids := 0; erased_ids := ∅; revision := 0 |}.
Definition clean : Store.Persistence :=
  {| db := ∅; dek := []; rng := 0; outcomes := []; read_fault := None |}.
Definition no_clock (i : nat) : N := 0.
Definition memos_down := write_tail (T := unit) Fragments.toy_sha hex_bytes CallButtons.toy_random "x" memo_log None no_clock
  (new DM_HISTORY, clean).
Definition send_down := write_send Fragments.toy_sha hex_bytes "x" "b" memo_log {[ "b" := sending ]} 0 memos_down.1.
Definition empty_session : Restore (M := Memo) (T := unit) :=
  {| into_log := default_log; into_attempts := ∅; into_transfer := tt |}.
Definition restarted := replay "x" "me" send_down.1.2 empty_session (new DM_HISTORY).

Lemma tail_counted_witness : written "x" memos_down.1.1 = 3 /\
  (forall i m, 0 <= i < 3 -> map fst memos !! i = Some m -> filed DM_HISTORY "x" no_clock memos_down.1.2 i m).
Proof.
  assert (H : memos_down = (memos_down.1, Ok true)) by (vm_compute; reflexivity).
  split; [vm_compute; reflexivity|]. intros i m Hi Hm.
  apply (tail_counted Fragments.toy_sha hex_bytes CallButtons.toy_random "x" memo_log None no_clock (new DM_HISTORY, clean)
    memos_down.1 (Ok true)); [by left|exact H| |exact Hm].
  cbn. replace (written "x" memos_down.1.1) with 3 by (vm_compute; reflexivity). exact Hi.
Defined.


Lemma restart_keeps_messages_witness : exists L, L ≡ₚ map fst memos /\ StronglySorted earlier L /\
  Messages.messages (into_log (replay "x" "me" memos_down.1.2 empty_session (new DM_HISTORY)).1) = map settled L.
Proof.
  assert (Hw : memos_down = (memos_down.1, Ok true)) by (vm_compute; reflexivity).
  destruct (replay "x" "me" memos_down.1.2 empty_session (new DM_HISTORY)) as [into h1] eqn:Hr.
  refine (proj2 (restart_keeps_messages Fragments.toy_sha hex_bytes CallButtons.toy_random memo_roundtrip "x" "me" memo_log None
    no_clock (new DM_HISTORY) clean memos_down.1 true tt (new DM_HISTORY) into h1 _ _ _ _ _ _ _ _ _ Hw Hr)).
  - by left.
  - reflexivity.
  - reflexivity.
  - repeat constructor; eexists _, _; repeat split; vm_compute; discriminate.
  - apply (bool_decide_eq_true_1 (NoDup (idents memo_log))). vm_compute. reflexivity.
  - intros k [v Hv]. discriminate Hv.
  - intros k v [_ Hv]. discriminate Hv.
  - intros k v [_ Hv]. discriminate Hv.
  - reflexivity.
Defined.

End History.
