(* ===== verification/Runtime.v ===== *)
(** * Runtime: the shell every conversation runtime is
      ([conversation/runtime.rs], [conversation/runtime_writes.rs])

    A table of conversations by id, and the writes that keep them on disk.  A
    kind of conversation is met through the class [ConversationSession]; the
    history is History's, the read marks ReadMarks'.  A write that was refused
    stays pending until it is accepted.  A [HashMap]'s iteration order is an
    argument. *)
From S2P Require Import Prelude Values Store Devices Messages Attachments Slots Fragments Deletion.
From S2P Require Import Erasure Rows ReadMarks Ledger CallButtons Background History.

Module Runtime.
Import Devices Deletion Erasure Store Values Messages Rows Ledger History.

#[local] Open Scope mosh_scope.
#[local] Set Default Proof Using "Type".

(** What the shell needs from one conversation, whatever kind it is.  A store
    handle is there or not. *)
Class ConversationSession (S M T R : Type) := {
  attach_persistence : bool -> S -> S;
  session_id : S -> string;
  session_log : S -> @Messages.MessageLog M;
  own_author : S -> string;
  session_transfer : S -> option T;
  transfer_mut : (T -> T) -> S -> S;
  session_attempts : S -> gmap string OutboundAttemptRecord;
  write_send_override : S -> string -> method Store.Persistence PersistenceError bool;
  session_record : S -> R;
  write_extra : S -> method Store.Persistence PersistenceError unit;
  record_is_final : S -> bool;
  record_changed : S -> bool;
  record_written : S -> S;
}.

(** Saying that the record was written forgets the change that was saved. *)
Class ConversationSessionLaws (S M T R : Type) `{ConversationSession S M T R} : Prop := {
  record_written_log s : session_log (record_written s) = session_log s;
  record_written_final s : record_is_final (record_written s) = record_is_final s;
  record_written_changed s : record_changed (record_written s) = false;
}.

Record StateWrite := { extra : bool; with_record : bool; finalize : bool }.
Record PendingWrites := { sends : gmap (string * string) bool; state : gmap string StateWrite }.
Definition no_writes : PendingWrites := {| sends := ∅; state := ∅ |}.

Definition forget_pending (id : string) (p : PendingWrites) : PendingWrites :=
  {| sends := filter (fun kv => kv.1.1 <> id) (sends p); state := delete id (state p) |}.

Definition request_state (id : string) (ex rec fin : bool) (p : PendingWrites) : PendingWrites :=
  if ex || rec then
    let old := default {| extra := false; with_record := false; finalize := false |} (state p !! id) in
    {| sends := sends p;
       state := <[ id := {| extra := extra old || ex; with_record := with_record old || rec;
                            finalize := finalize old || fin |} ]> (state p) |}
  else p.

Section Runtime.
Context {S M T R : Type} {msg : ConversationMessage M} {deletable : DeletableMessage M}.
Context {transfers : TransferHistory T} {codec : HistoryJson M} {session : ConversationSession S M T R}.
Context {aes : Aes} {scheme : Ed25519} {json : DeletionJson} {json' : ErasureJson} {rows : RowJson}.
Context {control_codec : RowCodec Background.Control} {summary_codec : RowCodec Background.Summary}.
Variable sha256 : bytes -> bytes.
Variable hex_decode : string -> result string bytes.
Variable random : nat -> nat -> bytes.
Variable record_to_vec : R -> result string bytes.

Record ConversationRuntime := {
  history : History;
  final_records : gset string;
  sessions : gmap string S;
  pending : PendingWrites;
  read_marks : ReadMarks.ReadMarks;
}.

Definition new (t : HistoryTables) : ConversationRuntime :=
  {| history := History.new t; final_records := ∅; sessions := ∅; pending := no_writes; read_marks := ReadMarks.new t |}.

Definition set_history (h : History) (rt : ConversationRuntime) : ConversationRuntime :=
  {| history := h; final_records := final_records rt; sessions := sessions rt; pending := pending rt;
     read_marks := read_marks rt |}.
Definition set_final (f : gset string) (rt : ConversationRuntime) : ConversationRuntime :=
  {| history := history rt; final_records := f; sessions := sessions rt; pending := pending rt;
     read_marks := read_marks rt |}.
Definition set_sessions (ss : gmap string S) (rt : ConversationRuntime) : ConversationRuntime :=
  {| history := history rt; final_records := final_records rt; sessions := ss; pending := pending rt;
     read_marks := read_marks rt |}.
Definition set_pending (p : PendingWrites) (rt : ConversationRuntime) : ConversationRuntime :=
  {| history := history rt; final_records := final_records rt; sessions := sessions rt; pending := p;
     read_marks := read_marks rt |}.
Definition set_marks (m : ReadMarks.ReadMarks) (rt : ConversationRuntime) : ConversationRuntime :=
  {| history := history rt; final_records := final_records rt; sessions := sessions rt; pending := pending rt;
     read_marks := m |}.

(** ** The table *)

(** The runtime and the store behind its handle. *)
Definition Shell : Type := ConversationRuntime * option Store.Persistence.

Definition remove (id : string) (rt : ConversationRuntime) : ConversationRuntime * option S :=
  (set_sessions (delete id (sessions rt)) rt, sessions rt !! id).

Definition stored_records {A} (from_slice : bytes -> result string A) (w : Shell) : list A :=
  match w.2 with Some s => stored_conversations from_slice (history w.1) s | None => [] end.

Definition rt_replay (id author : string) (into : Restore (M := M) (T := T)) (w : Shell) : Shell * Restore (M := M) (T := T) :=
  match w.2 with
  | None => (w, into)
  | Some s => let '(into, h) := replay id author s into (history w.1) in ((set_history h w.1, w.2), into)
  end.

Definition mark_record_final (id : string) (rt : ConversationRuntime) : ConversationRuntime :=
  set_final ({[ id ]} ∪ final_records rt) rt.

Definition acknowledge_history (id : string) (rt : ConversationRuntime) : ConversationRuntime :=
  match sessions rt !! id with
  | Some s => set_history (acknowledge id (length (Messages.messages (session_log s))) (history rt)) rt
  | None => rt
  end.

(** ** Writes *)

(** With a store at hand. *)
Definition Writer : Type := ConversationRuntime * Store.Persistence.
Notation writes := (method Writer PersistenceError).

Definition with_store {A} (m : method Store.Persistence PersistenceError A) : writes A := fun w =>
  let '(s, r) := m w.2 in ((w.1, s), r).
Definition with_history {A} (m : method History.World PersistenceError A) : writes A := fun w =>
  let '((h, s), r) := m (history w.1, w.2) in ((set_history h w.1, s), r).
Definition modify (f : ConversationRuntime -> ConversationRuntime) : writes unit := fun w => ((f w.1, w.2), Ok tt).

Definition drop_state (id : string) (rt : ConversationRuntime) : ConversationRuntime :=
  set_pending {| sends := sends (pending rt); state := delete id (state (pending rt)) |} rt.
Definition clear_extra (id : string) (rt : ConversationRuntime) : ConversationRuntime :=
  set_pending {| sends := sends (pending rt);
                 state := alter (fun p => {| extra := false; with_record := with_record p; finalize := finalize p |}) id
                            (state (pending rt)) |} rt.
Definition finalized (id : string) (rt : ConversationRuntime) : ConversationRuntime :=
  set_final ({[ id ]} ∪ final_records rt) (set_sessions (alter record_written id (sessions rt)) rt).

Definition flush_state (id : string) : writes unit := fun w =>
  match state (pending w.1) !! id with
  | None => (w, Ok tt)
  | Some p =>
      match sessions w.1 !! id with
      | None => ((drop_state id w.1, w.2), Ok tt)
      | Some s =>
          ((if extra p then with_store (write_extra s);;; modify (clear_extra id) else m_ret tt);;;
           (if with_record p
            then with_history (write_record record_to_vec id (session_record s));;;
                 (if finalize p then modify (finalized id) else m_ret tt)
            else m_ret tt);;;
           modify (drop_state id)) w
      end
  end.

Definition record_due (id : string) (s : S) (rt : ConversationRuntime) : bool :=
  record_is_final s && (negb (bool_decide (id ∈ final_records rt)) || record_changed s).
Definition request (id : string) (ex rec fin : bool) : writes unit :=
  modify (fun rt => set_pending (request_state id ex rec fin (pending rt)) rt).

Definition rt_write_send (id mid : string) (deep : bool) (now : N) : writes unit := fun w =>
  match sessions w.1 !! id with
  | None => (w, Ok tt)
  | Some s =>
      (over <~ with_store (write_send_override s mid);;
       down <~ (if over then m_ret true
                else with_history (write_send sha256 hex_decode id mid (session_log s) (session_attempts s) now));;
       if negb down then m_ret tt
       else (fun w => (let due := record_due id s w.1 in request id (deep || due) due due;;; flush_state id) w)) w
  end.

(** Only called on an open conversation: [sessions[id]] would panic. *)
Definition persist_session_tail (id : string) (now : nat -> N) : writes unit := fun w =>
  match sessions w.1 !! id with
  | None => (w, Ok tt)
  | Some s =>
      (changed <~ with_history (write_tail sha256 hex_decode random id (session_log s) (session_transfer s) now);;
       (fun w => (let due := record_due id s w.1 in request id (changed || due) due due;;; flush_state id) w)) w
  end.

Definition set_send (k : string * string) (o : option bool) (rt : ConversationRuntime) : ConversationRuntime :=
  set_pending {| sends := partial_alter (fun _ => o) k (sends (pending rt)); state := state (pending rt) |} rt.

Definition persist_send (id mid : string) (deep : bool) (now : N) : writes unit := fun w =>
  let deep := default false (sends (pending w.1) !! (id, mid)) || deep in
  (modify (set_send (id, mid) (Some deep));;;
   rt_write_send id mid deep now;;;
   modify (set_send (id, mid) None)) w.

Definition persist_record (id : string) (final_now : bool) : writes unit :=
  request id final_now true final_now;;; flush_state id.

(** The store's copy of a send before it can be queued; nothing in memory
    moves. *)
Definition persist_admission (id mid : string) (now : N) : writes unit := fun w =>
  match sessions w.1 !! id with
  | None => (w, Ok tt)
  | Some s => let '((_, st), r) := write_send sha256 hex_decode id mid (session_log s) (session_attempts s) now
                                     (history w.1, w.2) in
              ((w.1, st), match r with Ok _ => Ok tt | Err e => Err e end)
  end.

(** The two loops of [persist_tail]: what was refused, and the first error. *)
Definition Refusals : Type := gset string * option PersistenceError.
Definition refuse (id : string) (e : PersistenceError) (f : Refusals) : Refusals :=
  ({[ id ]} ∪ f.1, Some (default e f.2)).
Definition note (e : PersistenceError) (f : Refusals) : Refusals := (f.1, Some (default e f.2)).

Fixpoint persist_sends (now : string * string -> N) (l : list (string * string * bool)) (f : Refusals) (w : Writer)
  : Writer * Refusals :=
  match l with
  | [] => (w, f)
  | (id, mid, deep) :: l =>
      match persist_send id mid deep (now (id, mid)) w with
      | (w, Err e) => persist_sends now l (refuse id e f) w
      | (w, Ok _) => persist_sends now l f w
      end
  end.
Fixpoint persist_tails (now : string -> nat -> N) (ids : list string) (f : Refusals) (w : Writer) : Writer * Refusals :=
  match ids with
  | [] => (w, f)
  | id :: ids =>
      if bool_decide (id ∈ f.1) then persist_tails now ids f w
      else match persist_session_tail id (now id) w with
           | (w, Err e) => persist_tails now ids (note e f) w
           | (w, Ok _) => persist_tails now ids f w
           end
  end.

(** [persist_tail]; [l] and [ids] list the pending sends and the open
    conversations in the order the maps give them. *)
Definition persist_tail (send_now : string * string -> N) (tail_now : string -> nat -> N)
    (l : list (string * string * bool)) (ids : list string) : writes unit := fun w =>
  let '(w, f) := persist_sends send_now l (∅, None) w in
  let '(w, f) := persist_tails tail_now ids f w in
  (w, match f.2 with None => Ok tt | Some e => Err e end).

(** A method that needs a store does nothing without one. *)
Definition when_stored (m : writes unit) (w : Shell) : Shell * result PersistenceError unit :=
  match w.2 with
  | None => (w, Ok tt)
  | Some s => let '((rt, s), r) := m (w.1, s) in ((rt, Some s), r)
  end.


(** ** What a write may move

    A write of the conversation [id] goes through these changes of the runtime;
    a relation that covers them covers the write, however it ends. *)
Record store_ok (ok : Store.Persistence -> Store.Persistence -> Prop) : Prop := {
  so_pre :: PreOrder ok;
  so_extra s st st' r : write_extra s st = (st', r) -> ok st st';
  so_override s mid st st' r : write_send_override s mid st = (st', r) -> ok st st';
  so_record id (b : R) hw hw' r : write_record record_to_vec id b hw = (hw', r) -> ok hw.2 hw'.2;
  so_send id mid log att now hw hw' r :
    write_send sha256 hex_decode id mid log att now hw = (hw', r) -> ok hw.2 hw'.2;
  so_tail id log transfer now hw hw' r :
    write_tail sha256 hex_decode random id log transfer now hw = (hw', r) -> ok hw.2 hw'.2;
}.
Record covers (id : string) (ok : Store.Persistence -> Store.Persistence -> Prop) (Rel : Writer -> Writer -> Prop) : Prop := {
  cv_pre :: PreOrder Rel;
  cv_ok : store_ok ok;
  cv_store w s : ok w.2 s -> Rel w (w.1, s);
  cv_drop w : Rel w (drop_state id w.1, w.2);
  cv_clear w : Rel w (clear_extra id w.1, w.2);
  cv_final w : Rel w (finalized id w.1, w.2);
  cv_request w ex rec fin : Rel w (set_pending (request_state id ex rec fin (pending w.1)) w.1, w.2);
}.
Definition within (Rel : Writer -> Writer -> Prop) {A} (m : writes A) : Prop := forall w w' r, m w = (w', r) -> Rel w w'.

Lemma write_send_history id mid log att now hw hw' r :
  write_send sha256 hex_decode id mid log att now hw = (hw', r) -> hw'.1 = hw.1.
Proof.
  unfold write_send. destruct (find _ _) as [m|]; [|by intros [= <- _]]. unfold m_bind, m_lift.
  destruct (stored_row _ _ _ _ _) as [row|]; [|by intros [= <- _]].
  destruct (match att !! mid with Some a => _ | None => _ end) as [o|]; [|by intros [= <- _]].
  destruct (on_store _ hw) as [hw1 [|]] eqn:Ho; apply on_store_Ok in Ho as [Hh _]; by intros [= <- _].
Qed.
Lemma write_record_history id (b : R) hw hw' r : write_record record_to_vec id b hw = (hw', r) -> hw'.1 = hw.1.
Proof.
  unfold write_record, m_bind, m_lift. destruct (map_err _ _); [|by intros [= <- _]]. by intros [-> _]%on_store_Ok.
Qed.

Context {msg_laws : ConversationMessageLaws M}.
#[local] Set Default Proof Using "Type*".

Lemma write_messages_other id transfer now index l hw hw' r :
  write_messages sha256 hex_decode random id transfer now index l hw = (hw', r) ->
  forall id', id' <> id -> written id' hw'.1 = written id' hw.1.
Proof.
  revert index hw. induction l as [|m l IH]; intros index hw; [by intros [= <- _]|]. cbn [write_messages].
  unfold m_bind at 1. destruct (append _ _ _ _ _ _ _ _ _) as [hw1 [[]|e]] eqn:Ha; apply append_row_of in Ha as [Hh _].
  2:{ intros [= <- _] id' _. by rewrite Hh. }
  unfold m_bind. intros Hl id' Hne. eapply IH in Hl; [|exact Hne]. rewrite Hl. cbn [fst]. rewrite written_set, decide_False by done.
  by rewrite Hh.
Qed.

Lemma write_tail_other id log transfer now hw hw' r : write_tail sha256 hex_decode random id log transfer now hw = (hw', r) ->
  forall id', id' <> id -> written id' hw'.1 = written id' hw.1.
Proof.
  unfold write_tail. destruct (_ <=? _)%nat; [by intros [= <- _]|]. unfold m_bind.
  destruct (write_messages _ _ _ _ _ _ _ _ hw) as [hw1 r1] eqn:Hw. intros Hr.
  assert (hw1 = hw') as -> by by destruct r1; injection Hr. by apply (write_messages_other _ _ _ _ _ _ _ _ Hw).
Qed.

Section Within.
Context {id : string} {ok : Store.Persistence -> Store.Persistence -> Prop} {Rel : Writer -> Writer -> Prop}.
Context (Hc : covers id ok Rel).

Lemma within_bind {A B} (m : writes A) (f : A -> writes B) : within Rel m -> (forall a, within Rel (f a)) -> within Rel (m_bind m f).
Proof.
  pose proof (cv_pre _ _ _ Hc). intros Hm Hf w w' r. unfold m_bind. destruct (m w) as [w1 [a|e]] eqn:Hw.
  - intros Hr. etrans; [by eapply Hm|by eapply Hf].
  - intros [= <- _]. by eapply Hm.
Qed.
Lemma within_ret {A} (a : A) : within Rel (m_ret a).
Proof. pose proof (cv_pre _ _ _ Hc). by intros w w' r [= <- _]. Qed.
Lemma within_store {A} (m : method Store.Persistence PersistenceError A) :
  (forall st st' r, m st = (st', r) -> ok st st') -> within Rel (with_store m).
Proof. intros Hm w w' r. unfold with_store. destruct (m w.2) as [s r0] eqn:Hw. intros [= <- _]. apply (cv_store _ _ _ Hc). by eapply Hm. Qed.
(** A method of the history that leaves the counts alone. *)
Lemma within_history {A} (m : method History.World PersistenceError A) :
  (forall hw hw' r, m hw = (hw', r) -> hw'.1 = hw.1 /\ ok hw.2 hw'.2) -> within Rel (with_history m).
Proof.
  intros Hm w w' r. unfold with_history. destruct (m (history w.1, w.2)) as [[h s] r0] eqn:Hw. intros [= <- _].
  apply Hm in Hw as [Hh Hs]. cbn in *. subst h. replace (set_history (history w.1) w.1) with (w.1) by by destruct (w.1).
  by apply (cv_store _ _ _ Hc).
Qed.
Lemma within_modify f : (forall w, Rel w (f w.1, w.2)) -> within Rel (modify f).
Proof. intros Hf w w' r [= <- _]. apply Hf. Qed.

#[local] Hint Resolve within_bind within_ret : core.

Lemma within_flush : within Rel (flush_state id).
Proof.
  intros w w' r. unfold flush_state. destruct (state (pending w.1) !! id) as [p|]; [|apply (within_ret tt)].
  destruct (sessions w.1 !! id) as [s|]; [|apply (within_modify (drop_state id)), (cv_drop _ _ _ Hc)].
  apply within_bind; [|intros _; apply within_bind; [|intros _; apply within_modify, (cv_drop _ _ _ Hc)]].
  - destruct (extra p); [|auto]. apply within_bind; [|intros _; apply within_modify, (cv_clear _ _ _ Hc)].
    apply within_store. apply (so_extra _ (cv_ok _ _ _ Hc)).
  - destruct (with_record p); [|auto]. apply within_bind.
    + apply within_history. intros hw hw' r' Hw. split; [by eapply write_record_history|by eapply (so_record _ (cv_ok _ _ _ Hc))].
    + intros _. destruct (finalize p); [apply within_modify, (cv_final _ _ _ Hc)|auto].
Qed.

Lemma within_due ex s : within Rel (fun w => (let due := record_due id s w.1 in request id (ex || due) due due;;; flush_state id) w).
Proof.
  intros w w' r. apply within_bind; [apply within_modify; intros; apply (cv_request _ _ _ Hc)|intros _; apply within_flush].
Qed.

Lemma within_write_send mid deep now : within Rel (rt_write_send id mid deep now).
Proof.
  intros w w' r. unfold rt_write_send. destruct (sessions w.1 !! id) as [s|]; [|apply (within_ret tt)].
  apply within_bind; [apply within_store, (so_override _ (cv_ok _ _ _ Hc))|]. intros over.
  apply within_bind; [|intros down; destruct (negb down); [auto|apply within_due]]. destruct over; [auto|].
  apply within_history. intros hw hw' r' Hw. split; [by eapply write_send_history|by eapply (so_send _ (cv_ok _ _ _ Hc))].
Qed.

Lemma within_send mid deep now : (forall w o, Rel w (set_send (id, mid) o w.1, w.2)) -> within Rel (persist_send id mid deep now).
Proof.
  intros Hs w w' r. unfold persist_send. apply within_bind; [apply within_modify; intros; apply Hs|intros _].
  apply within_bind; [apply within_write_send|intros _; apply within_modify; intros; apply Hs].
Qed.

Lemma within_record final_now : within Rel (persist_record id final_now).
Proof.
  apply within_bind; [apply within_modify; intros; apply (cv_request _ _ _ Hc)|intros _; apply within_flush].
Qed.

(** A tail moves the count of its conversation, too. *)
Lemma within_tail now : (forall w h, (forall id', id' <> id -> written id' h = written id' (history w.1)) -> Rel w (set_history h w.1, w.2)) ->
  within Rel (persist_session_tail id now).
Proof.
  pose proof (cv_pre _ _ _ Hc). intros Hh w w' r. unfold persist_session_tail.
  destruct (sessions w.1 !! id) as [s|]; [|apply (within_ret tt)].
  apply within_bind; [|intros changed; apply within_due]. intros w1 w1' r1. unfold with_history.
  destruct (write_tail _ _ _ _ _ _ _ _) as [[h st] r0] eqn:Hw. intros [= <- _].
  etrans; [apply (Hh w1 h)|apply (cv_store _ _ _ Hc)].
  - intros id' Hne. by rewrite (write_tail_other _ _ _ _ _ _ _ Hw).
  - by apply (so_tail _ (cv_ok _ _ _ Hc)) in Hw.
Qed.
End Within.

(** The other conversations: what the runtime remembers of each. *)
Definition same (id : string) (w w' : Writer) : Prop :=
  sessions w'.1 !! id = sessions w.1 !! id /\ written id (history w'.1) = written id (history w.1) /\
  state (pending w'.1) !! id = state (pending w.1) !! id /\
  (id ∈ final_records w'.1 <-> id ∈ final_records w.1) /\
  forall mid, sends (pending w'.1) !! (id, mid) = sends (pending w.1) !! (id, mid).

#[local] Instance same_pre id : PreOrder (same id).
Proof.
  split; [by intros w|]. intros w1 w2 w3 (H1 & H2 & H3 & H4 & H5) (G1 & G2 & G3 & G4 & G5). split; [congruence|].
  split; [congruence|]. split; [congruence|]. split; [by rewrite G4, H4|]. intros mid. by rewrite G5, H5.
Qed.

Definition any_store (st st' : Store.Persistence) : Prop := True.
Lemma any_store_ok : store_ok any_store.
Proof. by split. Qed.

Definition others_same (id : string) (w w' : Writer) : Prop := forall id', id' <> id -> same id' w w'.

Lemma others_same_covers id : covers id any_store (others_same id).
Proof.
  split; [|apply any_store_ok|..].
  - split; [by intros w id' _|]. intros w1 w2 w3 H1 H2 id' Hne. etrans; [by apply H1|by apply H2].
  - by intros w s _ id' _.
  - intros w id' Hne. repeat split; try done. cbn. by rewrite lookup_delete_ne.
  - intros w id' Hne. repeat split; try done. cbn. by rewrite lookup_alter_ne.
  - intros w id' Hne. split; [cbn; by rewrite lookup_alter_ne|]. repeat split; try done.
    + cbn. rewrite elem_of_union, elem_of_singleton. by intros [->|Hin].
    + cbn. rewrite elem_of_union. by right.
  - intros w ex rec fin id' Hne. unfold request_state. destruct (ex || rec); [|by repeat split].
    repeat split; try done. cbn. by rewrite lookup_insert_ne.
Qed.
Lemma others_same_history id w h : (forall id', id' <> id -> written id' h = written id' (history w.1)) ->
  others_same id w (set_history h w.1, w.2).
Proof. intros Hh id' Hne. repeat split; try done. by apply Hh. Qed.

Lemma others_same_send id mid w o : others_same id w (set_send (id, mid) o w.1, w.2).
Proof.
  intros id' Hne. repeat split; try done. intros mid'. cbn. rewrite lookup_partial_alter_ne; [done|]. by intros [= ->].
Qed.

(** The open conversations, and what they say. *)
Definition alike (w w' : Writer) : Prop :=
  forall id, match sessions w.1 !! id with
             | None => sessions w'.1 !! id = None
             | Some s => exists s', sessions w'.1 !! id = Some s' /\ session_log s' = session_log s
             end.

#[local] Instance alike_pre : PreOrder alike.
Proof.
  split.
  - intros w id. destruct (sessions w.1 !! id) as [s|]; [by exists s|done].
  - intros w1 w2 w3 H1 H2 id. specialize (H1 id). specialize (H2 id). destruct (sessions w1.1 !! id) as [s|].
    + destruct H1 as (s' & Hs & Hl). rewrite Hs in H2. destruct H2 as (s'' & Hs' & Hl'). exists s''. split; [done|congruence].
    + by rewrite H1 in H2.
Qed.
Lemma alike_same (w w' : Writer) : sessions w'.1 = sessions w.1 -> alike w w'.
Proof. intros He id. rewrite He. destruct (sessions w.1 !! id) as [s|]; [by exists s|done]. Qed.

Context {session_laws : ConversationSessionLaws S M T R}.
#[local] Set Default Proof Using "Type*".

Lemma alike_covers id : covers id any_store alike.
Proof.
  split; try (intros; by apply alike_same); [apply _|apply any_store_ok|]. intros w i. cbn. rewrite lookup_alter.
  case_decide as He; [subst i|by destruct (sessions w.1 !! i) as [s|]; [exists s|]].
  destruct (sessions w.1 !! id) as [s|]; [|done]. exists (record_written s). split; [done|]. apply record_written_log.
Qed.

(** The pending sends, which only a send moves. *)
Definition sends_same (w w' : Writer) : Prop := sends (pending w'.1) = sends (pending w.1).
Lemma sends_same_covers id : covers id any_store sends_same.
Proof.
  split; try done; [split; [done|]; intros w1 w2 w3; unfold sends_same; congruence|].
  intros w ex rec fin. unfold sends_same, request_state. cbn. by destruct (ex || rec).
Qed.

(** ** When a conversation is down *)

(** Everything the conversation has is saved: its log, its state and, once it
    is worth saving, its record. *)
Definition down (id : string) (w : Writer) : Prop :=
  match sessions w.1 !! id with
  | None => True
  | Some s =>
      length (Messages.messages (session_log s)) <= written id (history w.1) /\
      state (pending w.1) !! id = None /\
      (record_is_final s = true -> id ∈ final_records w.1 /\ record_changed s = false)
  end.

Lemma down_same id w w' : same id w w' -> down id w -> down id w'.
Proof.
  intros (Hs & Hw & Hp & Hf & _). unfold down. rewrite Hs, Hw, Hp. destruct (sessions w.1 !! id); [|done].
  by rewrite Hf.
Qed.

Lemma with_store_Ok {A} (m : method Store.Persistence PersistenceError A) w w' r : with_store m w = (w', r) -> w'.1 = w.1.
Proof. unfold with_store. destruct (m w.2) as [s r0]. by intros [= <- _]. Qed.

Lemma record_history id (b : R) w w' r : with_history (write_record record_to_vec id b) w = (w', r) -> w'.1 = w.1.
Proof.
  unfold with_history. destruct (write_record _ _ _ _) as [[h s] r0] eqn:Hw. intros [= <- _].
  apply write_record_history in Hw. cbn in Hw. subst h. by destruct (w.1).
Qed.

(** A pending write that is accepted leaves nothing pending; when it finalized
    the record, the record is the one the session has now. *)
Lemma flush_Ok id w w' s : flush_state id w = (w', Ok tt) -> sessions w.1 !! id = Some s ->
  state (pending w'.1) !! id = None /\ history w'.1 = history w.1 /\
  match state (pending w.1) !! id with
  | Some {| with_record := true; finalize := true |} =>
      sessions w'.1 !! id = Some (record_written s) /\ id ∈ final_records w'.1
  | _ => sessions w'.1 !! id = Some s /\ final_records w'.1 = final_records w.1
  end.
Proof.
  intros Hf Hs. unfold flush_state in Hf. destruct (state (pending w.1) !! id) as [[ex rec fin]|] eqn:Hp; [|by injection Hf as <-].
  rewrite Hs in Hf. cbn [extra with_record finalize] in Hf.
  apply m_bind_Ok in Hf as (w1 & [] & H1 & Hf). apply m_bind_Ok in Hf as (w2 & [] & H2 & [= <-]).
  assert (E1 : sessions w1.1 = sessions w.1 /\ history w1.1 = history w.1 /\ final_records w1.1 = final_records w.1).
  { destruct ex; [|by injection H1 as <-]. apply m_bind_Ok in H1 as (w3 & [] & H3%with_store_Ok & [= <-]). cbn. by rewrite H3. }
  destruct E1 as (Es & Eh & Ef). split; [cbn; by rewrite lookup_delete_eq|]. destruct rec.
  - apply m_bind_Ok in H2 as (w3 & [] & H3%record_history & H2). destruct fin; injection H2 as <-; cbn; rewrite H3.
    + split; [done|]. rewrite Es, lookup_alter, decide_True, Hs by done. split; [done|]. apply elem_of_union. left. by apply elem_of_singleton.
    + by rewrite Es.
  - injection H2 as <-. cbn. rewrite Es, Eh, Ef. by destruct fin.
Qed.

(** Asking for what is due, and getting it. *)
Lemma requested_down id ex s w w' : sessions w.1 !! id = Some s ->
  (let due := record_due id s w.1 in request id (ex || due) due due;;; flush_state id) w = (w', Ok tt) ->
  length (Messages.messages (session_log s)) <= written id (history w.1) -> down id w'.
Proof.
  intros Hs Hr Hlen. cbv zeta in Hr. apply m_bind_Ok in Hr as (w1 & [] & [= <-] & Hf).
  apply (flush_Ok _ _ _ s) in Hf as (Hp & Hh & Hc); [|done]. unfold down. cbn [fst] in *. rewrite Hp, Hh.
  cbn [set_pending history sessions final_records pending] in *. unfold record_due, request_state in Hc.
  destruct (record_is_final s && (negb (bool_decide (id ∈ final_records w.1)) || record_changed s)) eqn:Hdue.
  - rewrite orb_true_r in Hc. cbn in Hc. rewrite lookup_insert_eq, !orb_true_r in Hc. destruct Hc as [-> Hfin].
    rewrite record_written_log, record_written_changed. done.
  - assert (Hcur : record_is_final s = true -> id ∈ final_records w.1 /\ record_changed s = false).
    { intros Hfin. rewrite Hfin in Hdue. cbn in Hdue. apply orb_false_iff in Hdue as [Hd%negb_false_iff Hch]. split; [|done].
      by apply bool_decide_eq_true in Hd. }
    set (o := state _ !! id) in Hc. clearbody o.
    destruct o as [[e [] []]|]; destruct Hc as [-> Hfin]; rewrite ?record_written_log, ?record_written_changed; rewrite ?Hfin; auto.
Qed.

Lemma write_messages_count id transfer now index l hw hw' :
  write_messages sha256 hex_decode random id transfer now index l hw = (hw', Ok tt) ->
  written id hw'.1 = if decide (l = []) then written id hw.1 else index + length l.
Proof.
  revert index hw. induction l as [|m l IH]; intros index hw; [by intros [= <-]|]. cbn [write_messages].
  intros (hw1 & [] & _ & Hl)%m_bind_Ok. apply m_bind_Ok in Hl as (hw2 & [] & [= <-] & Hl). apply IH in Hl. rewrite Hl.
  rewrite (decide_False (P := m :: l = [])) by done. cbn [fst length]. case_decide as Hnil; [subst l|lia]. rewrite written_set, decide_True by done.
  cbn. lia.
Qed.

Lemma tail_count id log transfer now hw hw' b : write_tail sha256 hex_decode random id log transfer now hw = (hw', Ok b) ->
  length (Messages.messages log) <= written id hw'.1.
Proof.
  unfold write_tail. destruct (Nat.leb_spec (length (Messages.messages log)) (written id hw.1)) as [Hle|Hlt]; [by intros [= <- _]|].
  intros (hw1 & [] & Hw & [= <- _])%m_bind_Ok. apply write_messages_count in Hw. rewrite Hw.
  rewrite length_drop. case_decide as Hnil; [|lia]. apply (f_equal length) in Hnil. rewrite length_drop in Hnil. cbn in Hnil. lia.
Qed.

Lemma tail_down id now w w' : persist_session_tail id now w = (w', Ok tt) -> down id w'.
Proof.
  unfold persist_session_tail. destruct (sessions w.1 !! id) as [s|] eqn:Hs.
  2:{ intros [= <-]. unfold down. by rewrite Hs. }
  intros (w1 & changed & Hw & Hr)%m_bind_Ok. unfold with_history in Hw.
  destruct (write_tail _ _ _ _ _ _ _ _) as [[h st] r] eqn:Ht. injection Hw as <- ->.
  apply tail_count in Ht. exact (requested_down id changed s (set_history h w.1, st) w' Hs Hr Ht).
Qed.

(** ** Nothing counts before it is on disk *)

(** What a kind writes beside the history keeps the rows of messages. *)
Class SessionStoreLaws : Prop := {
  extra_stay s st st' r : write_extra s st = (st', r) -> rows_stay st st';
  override_stay s mid st st' r : write_send_override s mid st = (st', r) -> rows_stay st st';
}.
Context {store_laws : SessionStoreLaws} {aes_laws : AesLaws}.
#[local] Set Default Proof Using "All".

Lemma put_stay t id b st st' r : put_conversation t id b st = (st', r) -> rows_stay st st'.
Proof.
  unfold put_conversation. intros Hp t' k Ht Hk.
  apply (put_cases _ aes_decrypt _ aes_roundtrip os_rng_length) in Hp as (_ & _ & [[-> _]|(blob & _ & -> & _)]); [done|].
  rewrite table_of_update. case_decide as He; [subst t'|done]. destruct (decide (k = id)) as [->|Hne].
  - rewrite lookup_partial_alter_eq. by eexists.
  - by rewrite lookup_partial_alter_ne.
Qed.

Lemma rows_stay_ok : store_ok rows_stay.
Proof.
  split; [apply _|apply extra_stay|apply override_stay|..].
  - intros id b hw hw' r Hw. unfold write_record, m_bind, m_lift in Hw. destruct (map_err _ _) as [c|]; [|by injection Hw as <- _].
    apply on_store_Ok in Hw as [_ Hw]. by eapply put_stay.
  - intros id mid log att now hw hw' r Hw. by apply write_send_cases in Hw as [? _].
  - intros id log tr now hw hw' r Hw. unfold write_tail in Hw. destruct (_ <=? _)%nat; [by injection Hw as <- _|].
    unfold m_bind in Hw. destruct (write_messages _ _ _ _ _ _ _ _ hw) as [hw1 r1] eqn:Hm.
    apply (write_messages_stay (aes_laws := aes_laws) sha256 hex_decode random) in Hm.
    destruct r1; by injection Hw as <- _.
Qed.

(** What no write but a tail's moves. *)
Definition steady (w w' : Writer) : Prop :=
  history w'.1 = history w.1 /\ alike w w' /\ rows_stay w.2 w'.2.
#[local] Instance steady_pre : PreOrder steady.
Proof.
  split; [by intros w|]. intros w1 w2 w3 (H1 & H2 & H3) (G1 & G2 & G3). split; [congruence|]. split; by etrans.
Qed.
Lemma steady_covers id : covers id rows_stay steady.
Proof.
  pose proof (cv_final _ _ _ (alike_covers id)) as Hfin.
  split; [apply _|apply rows_stay_ok|..]; try (intros w; repeat split; try done; by apply alike_same).
Qed.

(** The first [n] messages of a log are on disk, under their own keys. *)
Definition backed (h : History) (id : string) (n : nat) (log : @Messages.MessageLog M) (st : Store.Persistence) : Prop :=
  forall i m, i < n -> Messages.messages log !! i = Some m -> is_Some (table_of (db st) (messages (kind h)) !! row_key id m).
Definition counted (w : Writer) : Prop :=
  message_table (messages (kind (history w.1))) /\
  forall id s, sessions w.1 !! id = Some s ->
    Forall dated (Messages.messages (session_log s)) /\
    backed (history w.1) id (written id (history w.1)) (session_log s) w.2.

Lemma steady_counted w w' : steady w w' -> counted w -> counted w'.
Proof.
  intros (Hh & Hal & Hst) [Ht Hc]. unfold counted. rewrite Hh. split; [done|]. intros id s' Hs'. specialize (Hal id).
  destruct (sessions w.1 !! id) as [s|] eqn:Hs; [|by rewrite Hal in Hs'].
  destruct Hal as (s'' & Hs'' & Hl). rewrite Hs'' in Hs'. injection Hs' as ->. rewrite Hl. destruct (Hc id s Hs) as [Hd Hb].
  split; [done|]. intros i m Hi Hm. apply Hst; [done|]. by eapply Hb.
Qed.

Lemma write_messages_kind id transfer now index l hw hw' r :
  write_messages sha256 hex_decode random id transfer now index l hw = (hw', r) -> kind hw'.1 = kind hw.1.
Proof.
  revert index hw. induction l as [|m l IH]; intros index hw; [by intros [= <- _]|]. cbn [write_messages].
  unfold m_bind at 1. destruct (append _ _ _ _ _ _ _ _ _) as [hw1 [[]|e]] eqn:Ha; apply append_row_of in Ha as [Hh _].
  - unfold m_bind. intros Hl%IH. rewrite Hl. cbn. by rewrite Hh.
  - intros [= <- _]. by rewrite Hh.
Qed.

Lemma dated_filed h id now st i m : dated m -> filed (kind h) id now st i m ->
  is_Some (table_of (db st) (messages (kind h)) !! row_key id m).
Proof.
  intros (x & t & Hx & Ht & _). unfold filed, message_row, filed_id, filed_sent, row_key. by rewrite Hx, Ht.
Qed.

Lemma written_tail id log transfer now h st h' st' r : message_table (messages (kind h)) ->
  Forall dated (Messages.messages log) -> backed h id (written id h) log st ->
  write_tail sha256 hex_decode random id log transfer now (h, st) = ((h', st'), r) ->
  kind h' = kind h /\ rows_stay st st' /\ (forall id', id' <> id -> written id' h' = written id' h) /\
  backed h' id (written id h') log st'.
Proof.
  intros Ht Hd Hb Hw. pose proof (so_tail _ rows_stay_ok _ _ _ _ _ _ _ Hw) as Hst.
  assert (Hk : kind h' = kind h).
  { unfold write_tail in Hw. destruct (_ <=? _)%nat; [by injection Hw as <- _|].
    unfold m_bind in Hw. destruct (write_messages _ _ _ _ _ _ _ _ _) as [hw1 r1] eqn:Hm. apply write_messages_kind in Hm.
    destruct r1; by injection Hw as -> _. }
  apply (tail_counted sha256 hex_decode random) in Hw as (_ & Hother & Hle & Hnew & _); [|done].
  split; [done|]. split; [done|]. split; [done|]. intros i m Hi Hm. cbn [fst snd] in *. rewrite Hk.
  destruct (decide (i < written id h)) as [Hlt|Hge]; [apply Hst; [done|by eapply Hb]|].
  rewrite Forall_forall in Hd. eapply (dated_filed h id now st' i); [apply Hd; by eapply list_elem_of_lookup_2|]. apply Hnew; [lia|done].
Qed.

Lemma counted_tail id now w w' r : persist_session_tail id now w = (w', r) -> counted w -> counted w'.
Proof.
  unfold persist_session_tail. destruct (sessions w.1 !! id) as [s|] eqn:Hs; [|by intros [= <- _]].
  unfold m_bind at 1, with_history. destruct (write_tail _ _ _ _ _ _ _ (history w.1, w.2)) as [[h st] r1] eqn:Hw.
  intros Hr [Ht Hc]. destruct (Hc id s Hs) as [Hd Hb].
  destruct (written_tail _ _ _ _ _ _ _ _ _ Ht Hd Hb Hw) as (Hk & Hst & Hother & Hnew).
  assert (Hmid : counted (set_history h w.1, st)).
  { split; [by cbn; rewrite Hk|]. intros id' s' Hs'. cbn [fst snd set_history history sessions] in *.
    destruct (Hc id' s' Hs') as [Hd' Hb']. split; [done|]. destruct (decide (id' = id)) as [->|Hne].
    - rewrite Hs in Hs'. by injection Hs' as <-.
    - intros i m Hi Hm. rewrite Hother in Hi by done. rewrite Hk. apply Hst; [done|]. by eapply Hb'. }
  destruct r1 as [changed|e]; [|by injection Hr as <- _]. eapply steady_counted; [|exact Hmid].
  by eapply (within_due (steady_covers id)).
Qed.

Lemma counted_send id mid deep now w w' r : persist_send id mid deep now w = (w', r) -> counted w -> counted w'.
Proof.
  intros Hp. apply steady_counted. eapply (within_send (steady_covers id)); [|exact Hp].
  intros w0 o. split; [done|]. split; [by apply alike_same|done].
Qed.

Lemma counted_sends now l f w : counted w -> counted (persist_sends now l f w).1.
Proof.
  revert f w. induction l as [|[[id mid] deep] l IH]; intros f w Hc; [done|]. cbn [persist_sends].
  destruct (persist_send id mid deep (now (id, mid)) w) as [w1 [[]|e]] eqn:Hs; apply IH; by eapply counted_send.
Qed.
Lemma counted_tails now ids f w : counted w -> counted (persist_tails now ids f w).1.
Proof.
  revert f w. induction ids as [|id ids IH]; intros f w Hc; [done|]. cbn [persist_tails]. case_bool_decide; [by apply IH|].
  destruct (persist_session_tail id (now id) w) as [w1 [[]|e]] eqn:Hs; apply IH; by eapply counted_tail.
Qed.

(** What happens to a runtime and the store behind it: its own writes, each
    with any outcome, and what the kind and the rest of the program do between
    them. *)
Inductive life : Writer -> Writer -> Prop :=
| Passed now now' l ids w : life w (persist_tail now now' l ids w).1
| SentOne id mid deep now w : life w (persist_send id mid deep now w).1
| Recorded id final_now w : life w (persist_record id final_now w).1
| Admitted_ id mid now w : life w (persist_admission id mid now w).1
| MarkedFinal id w : life w (mark_record_final id w.1, w.2)
| Removed id w : life w ((remove id w.1).1, w.2)
| Forgotten id w : life w (set_history (History.forget id (history w.1)) w.1, w.2)
(** a conversation is opened with no more counted than is on disk *)
| Opened id s w : Forall dated (Messages.messages (session_log s)) ->
    backed (history w.1) id (written id (history w.1)) (session_log s) w.2 ->
    life w (set_sessions (<[ id := s ]> (sessions w.1)) w.1, w.2)
(** the log grows and messages change, but those that count keep their place *)
| Spoke id s s' w : sessions w.1 !! id = Some s -> Forall dated (Messages.messages (session_log s')) ->
    (forall i m', i < written id (history w.1) -> Messages.messages (session_log s') !! i = Some m' ->
       exists m, Messages.messages (session_log s) !! i = Some m /\ row_key id m' = row_key id m) ->
    life w (set_sessions (<[ id := s' ]> (sessions w.1)) w.1, w.2)
(** an import saved the whole log *)
| Imported id st w : rows_stay w.2 st ->
    (forall s, sessions w.1 !! id = Some s -> backed (history w.1) id (length (Messages.messages (session_log s))) (session_log s) st) ->
    life w (acknowledge_history id w.1, st)
(** other components write to the store *)
| Stored st w : rows_stay w.2 st -> life w (w.1, st).

Lemma counted_history w h st : counted w -> kind h = kind (history w.1) -> rows_stay w.2 st ->
  (forall id s, sessions w.1 !! id = Some s -> written id h <= written id (history w.1) \/ backed h id (written id h) (session_log s) st) ->
  counted (set_history h w.1, st).
Proof.
  intros [Ht Hc] Hk Hst Hw. split; [cbn; by rewrite Hk|]. intros id s Hs. cbn [fst snd set_history history sessions] in *.
  destruct (Hc id s Hs) as [Hd Hb]. split; [done|]. destruct (Hw id s Hs) as [Hle|?]; [|done].
  intros i m Hi Hm. rewrite Hk. apply Hst; [done|]. apply (Hb i m); [lia|done].
Qed.

Lemma counted_open id s w : Forall dated (Messages.messages (session_log s)) ->
  backed (history w.1) id (written id (history w.1)) (session_log s) w.2 -> counted w ->
  counted (set_sessions (<[ id := s ]> (sessions w.1)) w.1, w.2).
Proof.
  intros Hd Hb [Ht Hc]. split; [done|]. intros id' s'. cbn [fst snd set_sessions history sessions].
  rewrite lookup_insert. case_decide as He; [subst id'; by intros [= <-]|]. apply Hc.
Qed.

Lemma life_counted w w' : life w w' -> counted w -> counted w'.
Proof.
  destruct 1 as [now now' l ids w|id mid deep now w|id fin w|id mid now w|id w|id w|id w|id s w Hd Hb
    |id s s' w Hs Hd Hb|id st w Hst Hb|st w Hst]; intros Hc.
  - unfold persist_tail. destruct (persist_sends now l (∅, None) w) as [w1 f1] eqn:Hs.
    destruct (persist_tails now' ids f1 w1) as [w2 f2] eqn:Hp. cbn [fst].
    apply (f_equal fst) in Hs, Hp. cbn in Hs, Hp. subst w1 w2. by apply counted_tails, counted_sends.
  - destruct (persist_send id mid deep now w) as [w1 r] eqn:Hs. by eapply counted_send.
  - destruct (persist_record id fin w) as [w1 r] eqn:Hr. eapply steady_counted; [|exact Hc].
    by eapply (within_record (steady_covers id)).
  - eapply steady_counted; [|exact Hc]. unfold persist_admission. destruct (sessions w.1 !! id) as [s|]; [|done].
    destruct (write_send _ _ _ _ _ _ _ _) as [[h st] r] eqn:Hw. apply (so_send _ rows_stay_ok) in Hw.
    split; [done|]. split; [by apply alike_same|done].
  - eapply steady_counted; [|exact Hc]. split; [done|]. split; [by apply alike_same|done].
  - destruct Hc as [Ht Hc]. split; [done|]. intros i s. cbn [remove fst snd set_sessions sessions].
    rewrite lookup_delete. case_decide; [done|]. apply Hc.
  - apply counted_history; [done|done|done|]. intros i s Hs. left. unfold written. cbn. rewrite lookup_delete.
    case_decide; [cbn; lia|done].
  - by apply counted_open.
  - destruct Hc as [Ht Hc]. apply counted_open; [done| |by split]. intros i m' Hi Hm'. destruct (Hb i m' Hi Hm') as (m & Hm & ->).
    by apply (proj2 (Hc id s Hs) i m).
  - unfold acknowledge_history. destruct (sessions w.1 !! id) as [s|] eqn:Hs.
    + apply counted_history; [done|done|done|]. intros i s' Hs'. unfold acknowledge. rewrite written_set.
      case_decide as He; [subst i|by left]. right. rewrite Hs in Hs'. injection Hs' as <-. by apply Hb.
    + eapply steady_counted; [|exact Hc]. split; [done|]. split; [by apply alike_same|done].
  - eapply steady_counted; [|exact Hc]. split; [done|]. split; [by apply alike_same|done].
Qed.


(** A refused send is kept: when a send is not accepted it stays pending, with
    the wish to save the conversation's state if it was ever expressed; when it
    is accepted nothing is pending any more, and unless the kind settled it in
    its own way, the message's row and the attempt's row, or its absence, went
    down in one transaction.  Other sends do not move. *)
Theorem refused_send_kept id mid deep now w w' r : message_table (messages (kind (history w.1))) ->
  persist_send id mid deep now w = (w', r) ->
  (forall k, k <> (id, mid) -> sends (pending w'.1) !! k = sends (pending w.1) !! k) /\
  match r with
  | Err _ => sends (pending w'.1) !! (id, mid) = Some (default false (sends (pending w.1) !! (id, mid)) || deep)
  | Ok _ =>
      sends (pending w'.1) !! (id, mid) = None /\
      forall s m, sessions w.1 !! id = Some s -> find (has_id mid) (Messages.messages (session_log s)) = Some m ->
        (forall st, write_send_override s mid st = (st, Ok false)) ->
        exists st b, is_Some (message_row (kind (history w.1)) id (filed_sent now m) mid st) /\
          match session_attempts s !! mid with Some a => Some <$> res_ok (attempt_to_vec a) | None => Some None end = Some b /\
          attempt_filed (kind (history w.1)) id mid b st /\ rows_stay st w'.2
  end.
Proof.
  intros Ht Hp. set (flag := default false (sends (pending w.1) !! (id, mid)) || deep).
  unfold persist_send in Hp. fold flag in Hp. unfold m_bind, modify in Hp. cbn [fst snd] in Hp.
  set (w0 := (set_send (id, mid) (Some flag) w.1, w.2)) in Hp.
  destruct (rt_write_send id mid flag now w0) as [w1 [[]|e]] eqn:Hw; injection Hp as <- <-;
    pose proof (within_write_send (sends_same_covers id) mid flag now _ _ _ Hw) as Hs; unfold sends_same in Hs.
  - split; [intros k Hk; cbn; by rewrite lookup_partial_alter_ne, Hs; [cbn; rewrite lookup_partial_alter_ne|]|].
    split; [cbn; apply lookup_partial_alter_eq|]. intros s m Hses Hm Hover. unfold rt_write_send in Hw.
    change (sessions w0.1) with (sessions w.1) in Hw. rewrite Hses in Hw.
    apply m_bind_Ok in Hw as (w2 & over & Ho & Hw). unfold with_store in Ho. rewrite Hover in Ho. injection Ho as <- <-.
    apply m_bind_Ok in Hw as (w3 & dwn & Hd & Hw). unfold with_history in Hd.
    destruct (write_send _ _ _ _ _ _ _ _) as [[h st] r0] eqn:Hws. injection Hd as <- ->.
    apply (write_send_cases (aes_laws := aes_laws) sha256 hex_decode) in Hws as [_ Hws]. destruct dwn; [|destruct Hws as [Hno _]; by rewrite Hm in Hno].
    destruct Hws as (m' & Hm' & Hrow & b & Hb & Hat). rewrite Hm in Hm'. injection Hm' as <-. cbn [fst snd] in *.
    exists st, b. split; [by apply Hrow|]. split; [done|]. split; [done|].
    cbn [negb] in Hw. apply (within_due (steady_covers id) flag s) in Hw as (_ & _ & Hst). exact Hst.
  - split; [intros k Hk; rewrite Hs; cbn; by rewrite lookup_partial_alter_ne|]. rewrite Hs. cbn. apply lookup_partial_alter_eq.
Qed.

(** ** A pass over everything *)
#[local] Set Default Proof Using "All".

(** ** A pass over everything *)

Definition other_sends (k : string * string) (w w' : Writer) : Prop :=
  forall k', k' <> k -> sends (pending w'.1) !! k' = sends (pending w.1) !! k'.
Lemma other_sends_covers id k : covers id any_store (other_sends k).
Proof.
  split; try done.
  - split; [done|]. intros w1 w2 w3 H1 H2 k' Hne. by rewrite H2, H1.
  - intros w ex rec fin k' _. unfold request_state. cbn. by destruct (ex || rec).
Qed.

Variable send_now : string * string -> N.
Variable tail_now : string -> nat -> N.

(** A write of this conversation was itself refused. *)
Definition send_refused (l : list (string * string * bool)) (w : Writer) (id : string) : Prop :=
  exists w1 mid deep, (id, mid, deep) ∈ l /\ alike w w1 /\
    is_ok (persist_send id mid deep (send_now (id, mid)) w1).2 = false.
Definition tail_refused (w : Writer) (id : string) : Prop :=
  exists w1, alike w w1 /\ is_ok (persist_session_tail id (tail_now id) w1).2 = false.

Lemma persist_send_alike id mid deep now w w' r : persist_send id mid deep now w = (w', r) ->
  alike w w' /\ other_sends (id, mid) w w' /\ (r = Ok tt -> sends (pending w'.1) !! (id, mid) = None).
Proof.
  intros Hp. split; [eapply (within_send (alike_covers id)); [|exact Hp]; intros; by apply alike_same|]. split.
  - eapply (within_send (other_sends_covers id (id, mid))); [|exact Hp]. intros w0 o k' Hne. cbn. by rewrite lookup_partial_alter_ne.
  - intros ->. unfold persist_send in Hp. apply m_bind_Ok in Hp as (w1 & [] & _ & Hp).
    apply m_bind_Ok in Hp as (w2 & [] & _ & [= <-]). cbn. apply lookup_partial_alter_eq.
Qed.

Lemma persist_sends_spec l f w w' f' : NoDup l.*1 -> persist_sends send_now l f w = (w', f') ->
  alike w w' /\ f.1 ⊆ f'.1 /\ (is_Some f.2 -> is_Some f'.2) /\
  (forall id, id ∈ f'.1 -> id ∈ f.1 \/ is_Some f'.2 /\ send_refused l w id) /\
  (forall k, k ∉ l.*1 -> sends (pending w'.1) !! k = sends (pending w.1) !! k) /\
  forall k deep, (k, deep) ∈ l -> k.1 ∉ f'.1 -> sends (pending w'.1) !! k = None.
Proof.
  revert f w. induction l as [|[[id mid] deep] l IH]; intros f w Hn.
  { intros [= <- <-]. split; [done|]. split; [done|]. split; [done|]. split; [by left|]. split; [done|].
    by intros k deep Hk%elem_of_nil. }
  rewrite fmap_cons in Hn. cbn [fst] in Hn. apply NoDup_cons in Hn as [Hk Hn]. cbn [persist_sends].
  destruct (persist_send id mid deep (send_now (id, mid)) w) as [w1 r] eqn:Hs.
  pose proof Hs as (Ha & Ho & Hnone)%persist_send_alike.
  intros Hl. assert (Hgo : exists f1, persist_sends send_now l f1 w1 = (w', f') /\ f.1 ⊆ f1.1 /\ (is_Some f.2 -> is_Some f1.2) /\
    (forall i, i ∈ f1.1 -> i ∈ f.1 \/ is_Some f1.2 /\ i = id /\ is_ok r = false) /\ (id ∉ f1.1 -> r = Ok tt)).
  { destruct r as [[]|e]; [exists f; split; [done|]; split; [done|]; by auto|]. exists (refuse id e f). split; [done|]. split; [apply union_subseteq_r|].
    split; [by eexists|]. unfold refuse. cbn [fst snd]. split.
    - intros i [->%elem_of_singleton|Hi]%elem_of_union; [right|by left]. by split; [eexists|].
    - intros Hno. exfalso. apply Hno, elem_of_union. left. by apply elem_of_singleton. }
  destruct Hgo as (f1 & (Hal & Hsub & Hsome & Href & Hout & Hin)%IH & Hf1 & Hs1 & Hr1 & Hok); [|done].
  split; [by etrans|]. split; [by etrans|]. split; [auto|]. split; [|split].
  - intros i [Hi|[Hi (w2 & m & d & Hm & Hal' & Hr)]]%Href.
    + destruct (Hr1 i Hi) as [?|(Hi1 & -> & Hr)]; [by left|right]. split; [by apply Hsome|]. exists w, mid, deep.
      split; [by left|]. split; [done|]. by rewrite Hs.
    + right. split; [done|]. exists w2, m, d. split; [by right|]. split; [by etrans|done].
  - intros k Hno. rewrite fmap_cons in Hno. apply not_elem_of_cons in Hno as [Hne Hno]. rewrite Hout by done. by apply Ho.
  - intros k d [[= -> ->]|Hkd]%elem_of_cons Hno; [|by eapply Hin].
    rewrite Hout by done. apply Hnone, Hok. cbn in Hno. intros Hi. by apply Hno, Hsub.
Qed.

Lemma persist_tails_spec ids f w w' f' : NoDup ids -> persist_tails tail_now ids f w = (w', f') ->
  alike w w' /\ sends_same w w' /\ (is_Some f.2 -> is_Some f'.2) /\ (forall id, id ∉ ids -> same id w w') /\
  forall id, id ∈ ids -> id ∉ f.1 -> down id w' \/ is_Some f'.2 /\ tail_refused w id.
Proof.
  revert f w. induction ids as [|id ids IH]; intros f w Hn.
  { intros [= <- <-]. split; [done|]. split; [done|]. split; [done|]. split; [done|]. by intros id Hid%elem_of_nil. }
  apply NoDup_cons in Hn as [Hid Hn]. cbn [persist_tails]. case_bool_decide as Hf.
  { intros (Hal & Hse & Hso & Hout & Hin)%IH; [|done]. split; [done|]. split; [done|]. split; [done|].
    split; [intros i [_ Hi]%not_elem_of_cons; by apply Hout|]. intros i [->|Hi]%elem_of_cons Hno; [done|by apply Hin]. }
  destruct (persist_session_tail id (tail_now id) w) as [w1 r] eqn:Ht.
  pose proof (within_tail (alike_covers id) _ (fun w h _ => alike_same _ _ eq_refl) _ _ _ Ht) as Ha.
  pose proof (within_tail (sends_same_covers id) _ (fun w h _ => eq_refl) _ _ _ Ht) as Hs.
  pose proof (within_tail (others_same_covers id) _ (others_same_history id) _ _ _ Ht) as Ho.
  intros Hl. assert (Hgo : exists f1, persist_tails tail_now ids f1 w1 = (w', f') /\ f1.1 = f.1 /\ (is_Some f.2 -> is_Some f1.2) /\
    (r = Ok tt \/ is_ok r = false /\ is_Some f1.2)).
  { destruct r as [[]|e]; [exists f; auto|]. exists (note e f). split; [done|]. split; [done|]. split; [by eexists|].
    right. by split; [|eexists]. }
  destruct Hgo as (f1 & (Hal & Hse & Hso & Hout & Hin)%IH & Hf1 & Hs1 & Hr); [|done].
  split; [by etrans|]. split; [unfold sends_same in *; congruence|]. split; [auto|]. split.
  - intros i [Hne Hi]%not_elem_of_cons. etrans; [by apply Ho|by apply Hout].
  - intros i [->|Hi]%elem_of_cons Hno.
    + destruct Hr as [->|[Hr Hsome]]; [left|right].
      * eapply down_same; [by apply Hout|]. by apply (tail_down _ _ _ _ Ht).
      * split; [by apply Hso|]. exists w. split; [done|]. by rewrite Ht.
    + rewrite <-Hf1 in Hno. destruct (Hin i Hi Hno) as [?|(Hsome & w2 & Hal2 & Hr2)]; [by left|right].
      split; [done|]. exists w2. split; [by etrans|done].
Qed.

(** One refusal does not stop the rest: after a pass over everything, in
    whatever order the maps are walked, every open conversation is down and has
    no send pending, unless the database refused a write of that very
    conversation, and then the pass reports an error; when it reports none,
    everything is down. *)
Theorem refusal_isolated l ids w w' r : l ≡ₚ map_to_list (sends (pending w.1)) -> ids ≡ₚ elements (dom (sessions w.1)) ->
  persist_tail send_now tail_now l ids w = (w', r) ->
  forall id s, sessions w.1 !! id = Some s ->
    (exists s', sessions w'.1 !! id = Some s' /\ session_log s' = session_log s) /\
    (down id w' /\ (forall mid, sends (pending w'.1) !! (id, mid) = None) \/
     r <> Ok tt /\ (send_refused l w id \/ tail_refused w id)).
Proof.
  intros Hl Hids Hp id s Hs. unfold persist_tail in Hp.
  destruct (persist_sends send_now l (∅, None) w) as [w1 f1] eqn:Hsends.
  destruct (persist_tails tail_now ids f1 w1) as [w2 f2] eqn:Htails. injection Hp as <- <-.
  apply persist_sends_spec in Hsends as (Hal1 & _ & _ & Href & Hout & Hin); [|rewrite Hl; apply NoDup_fst_map_to_list].
  apply persist_tails_spec in Htails as (Hal2 & Hse & Hso & _ & Hdown); [|rewrite Hids; apply NoDup_elements].
  assert (Hal : alike w w2) by by etrans. split; [specialize (Hal id); by rewrite Hs in Hal|].
  assert (Hid : id ∈ ids) by (rewrite Hids, elem_of_elements; by eapply elem_of_dom_2).
  assert (Herr : is_Some f2.2 -> match f2.2 with Some e => Err e | None => Ok tt end <> Ok tt) by by intros [e ->].
  destruct (decide (id ∈ f1.1)) as [Hf|Hf].
  { right. destruct (Href id Hf) as [Hno|[Hsome Hr]]; [by apply elem_of_empty in Hno|]. auto. }
  destruct (Hdown id Hid Hf) as [Hd|[Hsome (w3 & Hal3 & Hr)]]; [left|right].
  - split; [done|]. intros mid. rewrite Hse. destruct (sends (pending w.1) !! (id, mid)) as [deep|] eqn:Hm.
    + apply (Hin _ deep); [|done]. rewrite Hl. by apply elem_of_map_to_list.
    + rewrite Hout; [done|]. rewrite Hl. intros ([k d] & He & Hk%elem_of_map_to_list)%list_elem_of_fmap.
      cbn in He. subst k. by rewrite Hk in Hm.
  - split; [auto|]. right. exists w3. split; [etrans; [exact Hal1|exact Hal3]|done].
Qed.

End Runtime.

(** ** Opening, viewing and leaving *)

Section Table.
Context {S M T R : Type} {msg : ConversationMessage M} {deletable : DeletableMessage M}.
Context {session : ConversationSession S M T R} {aes : Aes}.
Variable mark_to_vec : ReadMarks.ReadMark -> result string bytes.
Variable mark_from_slice : bytes -> result string ReadMarks.ReadMark.
(** The transfer takes hold of the store ([Transfer::attach_execution]). *)
Variable attach_execution : HistoryTables -> string -> T -> T.

#[local] Instance marks_store : RowStore Store.Persistence := persistence_store aes_encrypt aes_decrypt os_rng.

(** A method of the read marks. *)
Definition on_marks {A} (f : ReadMarks.World (St := Store.Persistence) -> ReadMarks.World (St := Store.Persistence) * A)
    (w : Shell (S := S)) : Shell (S := S) * A :=
  let '((m, s), a) := f (read_marks w.1, w.2) in ((set_marks m w.1, s), a).

Definition insert (now : N) (id : string) (s : S) (w : Shell (S := S)) : Shell (S := S) :=
  let s := attach_persistence (bool_decide (is_Some w.2)) s in
  let s := match w.2 with Some _ => transfer_mut (attach_execution (kind (history w.1)) id) s | None => s end in
  let w := (on_marks (fun m => (ReadMarks.prime mark_to_vec mark_from_slice now id (Messages.messages (session_log s)) m, tt)) w).1 in
  (set_sessions (<[ id := s ]> (sessions w.1)) w.1, w.2).

Definition unread (now : N) (id : string) (w : Shell (S := S)) : Shell (S := S) * option ReadMarks.UnreadState :=
  match sessions w.1 !! id with
  | None => (w, None)
  | Some s =>
      let '(w, u) := on_marks (ReadMarks.state mark_to_vec mark_from_slice now id (Messages.messages (session_log s)) (own_author s)) w in
      (w, Some u)
  end.

Definition rt_mark_read (now : N) (id : string) (w : Shell (S := S)) : Shell (S := S) :=
  match sessions w.1 !! id with
  | None => w
  | Some s => (on_marks (fun m => (ReadMarks.mark_read mark_to_vec mark_from_slice now id (Messages.messages (session_log s))
                                     (own_author s) m, tt)) w).1
  end.

Definition rt_forget (id : string) (w : Shell (S := S)) : Shell (S := S) :=
  let w := (on_marks (fun m => (ReadMarks.forget id m, tt)) w).1 in
  let rt := set_history (History.forget id (history w.1)) w.1 in
  let rt := set_final (final_records rt ∖ {[ id ]}) rt in
  (set_pending (forget_pending id (pending rt)) rt, w.2).

End Table.

(** ** Two conversations, one of them refused *)

#[local] Existing Instances Rows.plain_aes Rows.plain_aes_laws Rows.row_json Rows.row_json' Rows.row_rows Devices.toy_scheme.
#[local] Existing Instances Background.toy_control Background.toy_summary.

Record Chat := { chat_log : @Messages.MessageLog Memo; chat_attempts : gmap string OutboundAttemptRecord }.
#[local] Instance chat_session : ConversationSession Chat Memo unit string := {|
  attach_persistence _ s := s; session_id _ := "x"; session_log := chat_log; own_author _ := "me"; session_transfer _ := None;
  transfer_mut _ s := s; session_attempts := chat_attempts; write_send_override _ _ := m_ret false; session_record _ := "chat";
  write_extra _ := m_ret tt; record_is_final _ := true; record_changed _ := false; record_written s := s |}.
#[local] Instance chat_laws : ConversationSessionLaws Chat Memo unit string.
Proof. by split. Qed.
#[local] Instance chat_store_laws : SessionStoreLaws (session := chat_session).
Proof. split; [intros s st st' r [= <- _]|intros s mid st st' r [= <- _]]; reflexivity. Qed.

Definition record_bytes (r : string) : result string bytes := Ok (str r).
Definition full : Chat := {| chat_log := memo_log; chat_attempts := {[ "b" := sending ]} |}.
Definition empty : Chat := {| chat_log := default_log; chat_attempts := ∅ |}.
Definition two_chats (script : list tx_outcome) : Writer (S := Chat) :=
  (set_sessions (<[ "x" := full ]> {[ "y" := empty ]}) (new DM_HISTORY), new_store script).
Definition pass (w : Writer (S := Chat)) := persist_tail (session := chat_session) Fragments.toy_sha hex_bytes
  CallButtons.toy_random record_bytes (fun _ => 0%N) (fun _ => no_clock) [] ["x"; "y"] w.

(** The database refuses the first write, which is one of "x". *)
Lemma refusal_isolated_witness :
  (pass (two_chats [Refused "full"])).2 = Err (Db "full") /\ written "x" (history (pass (two_chats [Refused "full"])).1.1) = 0 /\
  exists s, sessions (pass (two_chats [Refused "full"])).1.1 !! "y" = Some s /\ session_log (R := string) (T := unit) s = default_log.
Proof.
  split; [vm_compute; reflexivity|]. split; [vm_compute; reflexivity|].
  assert (Hp : pass (two_chats [Refused "full"]) = ((pass (two_chats [Refused "full"])).1, (pass (two_chats [Refused "full"])).2))
    by exact (surjective_pairing _).
  refine (proj1 (refusal_isolated Fragments.toy_sha hex_bytes CallButtons.toy_random record_bytes (fun _ => 0%N) (fun _ => no_clock)
    [] ["x"; "y"] (two_chats [Refused "full"]) _ _ _ _ Hp "y" empty _)).
  - vm_compute. reflexivity.
  - apply (bool_decide_eq_true_1 (_ ≡ₚ _)). vm_compute. reflexivity.
  - vm_compute. reflexivity.
Defined.

Definition kept_send := persist_send (session := chat_session) Fragments.toy_sha hex_bytes record_bytes "x" "b" true 0
  (two_chats [Refused "full"]).
Lemma refused_send_kept_witness : is_ok kept_send.2 = false /\ sends (pending kept_send.1.1) !! ("x", "b") = Some true.
Proof.
  assert (Hp : kept_send = (kept_send.1, Err (Db "full"))) by (vm_compute; reflexivity).
  split; [vm_compute; reflexivity|].
  refine (proj2 (refused_send_kept Fragments.toy_sha hex_bytes CallButtons.toy_random record_bytes "x" "b" true 0
    (two_chats [Refused "full"]) kept_send.1 (Err (Db "full")) _ Hp)).
  by left.
Defined.


End Runtime.
