(* ===== verification/Transfer.v ===== *)
(** * Transfer: an attachment's bytes on their way out and in
      ([conversation/transfer.rs] and its modules, [preview_scheduler.rs],
      [previews.rs], [attachment_runtime/execution.rs])

    One conversation's owner of attachments puts together the transfers in
    memory (Attachments), the slots the user sees (Slots), the cached files
    and their leases (Files), the admissions and checkpoints on disk
    (UserTransfers), and the small previews that travel beside a photo.  Here
    is everything but answering a peer's requests, which is in Serving.

    The file store and the database are shared with other conversations; they
    stand in the [World] beside the transfer.  What the platform allows and
    the clocks ([Env]) are read once per call.  A [HashMap] is walked in the
    order of [map_to_list]; signing, and the log, are not modelled. *)
From S2P Require Import Prelude Values Store Devices Messages Attachments Slots Fragments Deletion Erasure Rows Ledger CallButtons.
From S2P Require Import UserTransfers History Files.

Module Transfer.
Import Store Deletion Erasure Rows Ledger.

Import (hints) UserTransfers Slots Attachments CallButtons.

#[local] Open Scope mosh_scope.
#[local] Set Default Proof Using "Type".

Abbreviation Manifest := Attachments.AttachmentManifest.
Abbreviation Descriptor := Messages.AttachmentDescriptor.
Abbreviation ChunkFrame := Attachments.ChunkFrame.
Abbreviation Direction := Slots.AttachmentDirection.
Abbreviation Offer := History.AttachmentOffer.
Abbreviation Ref := CallButtons.BridgeConversationRef.

(** ** Requests between devices ([attachment_runtime/execution.rs]) *)

Inductive RequestPhase := Request | Complete | Ack.
#[export] Instance RequestPhase_eq_dec : EqDecision RequestPhase.
Proof. solve_decision. Defined.
Record RequestExecution := {
  token : string; phase : RequestPhase; receiver : string; x_expires_ms : N; proof : option Messages.MessageOrigin;
}.
(** The wire's [ChunkRequest]: the indices that Attachments serves, and the proof. *)
Record ChunkRequest := { chunk : Attachments.ChunkRequest; execution : option RequestExecution }.
Definition rq_attachment (q : ChunkRequest) : string := Attachments.cr_attachment_id (chunk q).
Definition rq_indices (q : ChunkRequest) : list N := Attachments.chunk_indices (chunk q).

(** ** Data ([transfer.rs], [transfer_execution.rs], [transfer_serving.rs]) *)

Inductive TransferError := Bytes (e : string) | Slot (e : Slots.SlotError).

Definition runtime_text (e : Attachments.AttachmentRuntimeError) : string :=
  match e with
  | Attachments.TooLarge size => "attachment of " +:+ format_u64 1 size +:+ " bytes exceeds the 52428800-byte limit"
  | Attachments.Empty => "attachment is empty"
  | Attachments.Crypto e => "attachment crypto: " +:+ e
  | Attachments.UnknownTransfer i => "unknown attachment transfer: " +:+ i
  | Attachments.DuplicateTransfer i => "attachment transfer already registered: " +:+ i
  | Attachments.ManifestMismatch d => "attachment manifest invalid: " +:+ d
  | Attachments.Codec e => "attachment codec: " +:+ e
  end.
Definition slot_text (e : Slots.SlotError) : string :=
  match e with
  | Slots.SlotMissing i => "attachment not found: " +:+ i
  | Slots.NotIncoming => "cannot download an outgoing attachment"
  | Slots.SlotTransfer e => runtime_text e
  end.
Definition transfer_text (e : TransferError) : string := match e with Bytes e => e | Slot e => slot_text e end.

(** A file sealed and saved, before its manifest is on the wire. *)
Inductive Outgoing := Prepared (manifest : Manifest) (descriptor : Descriptor) (stored_path : string) (preview : option Outgoing).
Definition o_manifest (o : Outgoing) : Manifest := let '(Prepared m _ _ _) := o in m.
Definition o_descriptor (o : Outgoing) : Descriptor := let '(Prepared _ d _ _) := o in d.
Definition o_preview (o : Outgoing) : option Outgoing := let '(Prepared _ _ _ p) := o in p.

Record Admission := { a_id : string; a_direction : UserTransfers.UserTransferDirection; a_state : UserTransfers.UserTransferState }.
Record Pending := { p_request : ChunkRequest; expires : N }.
Record Serving := {
  pending : gmap (string * string * string) Pending;
  tokens : gmap string string;
  receipts : gmap string (ChunkRequest * N * N);
  replies : list ChunkRequest;
  served : gmap string (gset N);
}.
Record Execution := {
  e_target : Ref; admissions : gmap string Admission; e_error : option string; serving : Serving;
  checkpoints : gmap string (list ChunkFrame);
}.
Record Transfer := {
  t_execution : option Execution;
  runtime : Attachments.AttachmentRuntime;
  slots : gmap string Slots.AttachmentSlot;
  restored_outgoing : gmap string Manifest;
  held_leases : gmap string (string * string);
  gc_after : option string;
  previews : gmap string Manifest;
  pending_previews : list string;
  preview_retry_after : gmap string N;
}.

(** The transfer, the shared files and the shared database. *)
Record World := { own : Transfer; files : Files.AttachmentStore; base : Store.Persistence }.
Abbreviation tw := (method World TransferError).

(** What the platform says during one call. *)
Record Env := {
  managed_execution : bool; automatic_downloads_allowed : bool; transfer_granted : string -> bool;
  now_ms : N; now : N; drawn_token : string -> string;
}.

Definition no_serving : Serving := {| pending := ∅; tokens := ∅; receipts := ∅; replies := []; served := ∅ |}.
Definition new_transfer : Transfer :=
  {| t_execution := None; runtime := Attachments.new_runtime; slots := ∅; restored_outgoing := ∅; held_leases := ∅;
     gc_after := None; previews := ∅; pending_previews := []; preview_retry_after := ∅ |}.

(** *** Assignments *)

Definition set_error (e : option string) (c : Execution) : Execution :=
  {| e_target := e_target c; admissions := admissions c; e_error := e; serving := serving c; checkpoints := checkpoints c |}.
Definition set_admissions (a : gmap string Admission) (c : Execution) : Execution :=
  {| e_target := e_target c; admissions := a; e_error := e_error c; serving := serving c; checkpoints := checkpoints c |}.
Definition set_serving (s : Serving) (c : Execution) : Execution :=
  {| e_target := e_target c; admissions := admissions c; e_error := e_error c; serving := s; checkpoints := checkpoints c |}.
Definition set_checkpoints (m : gmap string (list ChunkFrame)) (c : Execution) : Execution :=
  {| e_target := e_target c; admissions := admissions c; e_error := e_error c; serving := serving c; checkpoints := m |}.

Definition set_execution (e : option Execution) (t : Transfer) : Transfer :=
  {| t_execution := e; runtime := runtime t; slots := slots t; restored_outgoing := restored_outgoing t;
     held_leases := held_leases t; gc_after := gc_after t; previews := previews t;
     pending_previews := pending_previews t; preview_retry_after := preview_retry_after t |}.
Definition set_table (ss : gmap string Slots.AttachmentSlot) (r : Attachments.AttachmentRuntime) (t : Transfer) : Transfer :=
  {| t_execution := t_execution t; runtime := r; slots := ss; restored_outgoing := restored_outgoing t;
     held_leases := held_leases t; gc_after := gc_after t; previews := previews t;
     pending_previews := pending_previews t; preview_retry_after := preview_retry_after t |}.
Definition set_restored (m : gmap string Manifest) (t : Transfer) : Transfer :=
  {| t_execution := t_execution t; runtime := runtime t; slots := slots t; restored_outgoing := m;
     held_leases := held_leases t; gc_after := gc_after t; previews := previews t;
     pending_previews := pending_previews t; preview_retry_after := preview_retry_after t |}.
Definition set_held (l : gmap string (string * string)) (t : Transfer) : Transfer :=
  {| t_execution := t_execution t; runtime := runtime t; slots := slots t; restored_outgoing := restored_outgoing t;
     held_leases := l; gc_after := gc_after t; previews := previews t;
     pending_previews := pending_previews t; preview_retry_after := preview_retry_after t |}.
Definition set_gc_after (k : option string) (t : Transfer) : Transfer :=
  {| t_execution := t_execution t; runtime := runtime t; slots := slots t; restored_outgoing := restored_outgoing t;
     held_leases := held_leases t; gc_after := k; previews := previews t;
     pending_previews := pending_previews t; preview_retry_after := preview_retry_after t |}.
Definition set_previews (ps : gmap string Manifest) (waiting : list string) (retry : gmap string N) (t : Transfer) : Transfer :=
  {| t_execution := t_execution t; runtime := runtime t; slots := slots t; restored_outgoing := restored_outgoing t;
     held_leases := held_leases t; gc_after := gc_after t; previews := ps;
     pending_previews := waiting; preview_retry_after := retry |}.

Definition upd (f : Transfer -> Transfer) (w : World) : World := {| own := f (own w); files := files w; base := base w |}.
Definition set_files (f : Files.AttachmentStore) (w : World) : World := {| own := own w; files := f; base := base w |}.
Definition set_base (b : Store.Persistence) (w : World) : World := {| own := own w; files := files w; base := b |}.
Definition upd_slots (f : gmap string Slots.AttachmentSlot -> gmap string Slots.AttachmentSlot) : World -> World :=
  upd (fun t => set_table (f (slots t)) (runtime t) t).
Definition upd_runtime (f : Attachments.AttachmentRuntime -> Attachments.AttachmentRuntime) : World -> World :=
  upd (fun t => set_table (slots t) (f (runtime t)) t).
Definition upd_execution (f : Execution -> Execution) : World -> World := upd (fun t => set_execution (f <$> t_execution t) t).

(** *** Calls on the parts *)

Definition on_files {A} (m : Files.fs A) : tw A := fun w =>
  let '(f, r) := m (files w) in (set_files f w, map_err (fun e => Bytes (Files.display_error e)) r).
Definition on_base {A} (m : method Store.Persistence PersistenceError A) : tw A := fun w =>
  let '(b, r) := m (base w) in (set_base b w, map_err (fun e => Bytes (Erasure.persistence_text e)) r).
Definition on_runtime {A} (m : method Attachments.AttachmentRuntime Attachments.AttachmentRuntimeError A) : tw A := fun w =>
  let '(r, o) := m (runtime (own w)) in (upd_runtime (fun _ => r) w, map_err (fun e => Bytes (runtime_text e)) o).
Definition on_table {A} (m : method Slots.Table Slots.SlotError A) : tw A := fun w =>
  let '(ss, r, o) := m (slots (own w), runtime (own w)) in (upd (set_table ss r) w, map_err Slot o).

(** ** Previews ([previews.rs]) *)

Definition MAX_MINIATURE_BASE64 : N := 2048.
Definition MAX_PREVIEW_BYTES : N := 131072.
Definition PREVIEW_FILE_NAME : string := "preview.jpg".
Definition preview_id (parent : string) : string := parent +:+ "/preview".
Definition preview_context (context parent : string) : string := context +:+ "/preview/" +:+ parent.
Definition jpeg_magic : bytes := [xff; xd8; xff].
Definition is_jpeg (b : bytes) : bool := bool_decide (take 3 b = jpeg_magic).

Definition validate_preview_bytes (b : bytes) : result TransferError unit :=
  guard_or (negb ((MAX_PREVIEW_BYTES <? N.of_nat (length b))%N || negb (is_jpeg b))) (Bytes "invalid or oversized JPEG preview").

Definition offer_of (o : Outgoing) : Offer :=
  {| History.manifest := o_manifest o; History.offered_preview := o_manifest <$> o_preview o |}.

Definition invalid_preview (b64_decode : string -> result string bytes) (m preview : Manifest) : result string bool :=
  let miniature := default "" (Attachments.m_thumbnail_b64 m) in
  jpeg ← map_err (fun _ => "invalid miniature base64") (b64_decode miniature);
  Ok (negb (Erasure.starts_with "image/" (Attachments.mime m) || Erasure.starts_with "video/" (Attachments.mime m))
      || String.eqb miniature ""
      || (MAX_MINIATURE_BASE64 <? str_len miniature)%N
      || negb (is_jpeg jpeg)
      || negb (String.eqb (Attachments.attachment_id preview) (preview_id (Attachments.attachment_id m)))
      || negb (String.eqb (Attachments.file_name preview) PREVIEW_FILE_NAME)
      || negb (String.eqb (Attachments.mime preview) "image/jpeg")
      || (Attachments.total_size preview =? 0)%N
      || (MAX_PREVIEW_BYTES <? Attachments.total_size preview)%N
      || negb (Attachments.chunk_size preview =? Attachments.CHUNK_SIZE)%N
      || negb (Attachments.chunk_count preview =? div_ceil (Attachments.total_size preview) Attachments.CHUNK_SIZE)%N
      || negb (String.eqb (Attachments.from_fingerprint preview) (Attachments.from_fingerprint m))
      || bool_decide (is_Some (Attachments.m_thumbnail_b64 preview))
      || bool_decide (is_Some (Attachments.m_voice preview))).

(** ** What this device may do ([transfer_execution.rs], [preview_transfer.rs]) *)

Definition is_preview (i : string) (t : Transfer) : bool :=
  match Erasure.strip_suffix "/preview" i with Some parent => bool_decide (is_Some (previews t !! parent)) | None => false end.
Definition visible_attachment_id (i : string) (t : Transfer) : string :=
  match Erasure.strip_suffix "/preview" i with
  | Some parent => if bool_decide (is_Some (previews t !! parent)) then parent else i
  | None => i
  end.
Definition holds (i : string) (t : Transfer) : bool := Slots.contains i (slots t).
Definition manifest_for (i : string) (t : Transfer) : option Manifest :=
  match restored_outgoing t !! i with Some m => Some m | None => Attachments.manifest_of (runtime t) i end.
Definition download_manifest (i : string) (t : Transfer) : option Manifest :=
  if Slots.incoming i (slots t) then manifest_for i t else None.
Definition preview_manifest_for (parent : string) (t : Transfer) : option Manifest := previews t !! parent.
Definition erasure_descriptors (a : Descriptor) (t : Transfer) : list Descriptor :=
  a :: match previews t !! Messages.attachment_id a with Some p => [Erasure.descriptor_of p] | None => [] end.

(** Only Android hands out grants; elsewhere none is. *)
Definition execution_allowed (env : Env) (i : string) (t : Transfer) : bool :=
  if negb (managed_execution env) || automatic_downloads_allowed env then true
  else match t_execution t with
       | None => false
       | Some c =>
           if bool_decide (is_Some (e_error c)) then false
           else match admissions c !! default i (Erasure.strip_suffix "/preview" i) with
                | None => false
                | Some a => transfer_granted env (a_id a)
                end
       end.
Definition may_download (env : Env) (i : string) (t : Transfer) : bool :=
  if is_preview i t then automatic_downloads_allowed env else execution_allowed env i t.

Section Transfers.
Context {aes : Aes} {rows : RowJson} {scheme : Devices.Ed25519} {json : DeletionJson} {json' : ErasureJson}.
Context {record_codec : RowCodec UserTransfers.TransferRecord} {current_codec : RowCodec UserTransfers.Current}
        {chunk_codec : RowCodec ChunkFrame}.
Variable chunk_encrypt chunk_decrypt : bytes -> bytes -> bytes -> result string bytes.
Variable sha256 : bytes -> bytes.
Variable hex_decode : string -> result string bytes.
Variable request_to_vec : ChunkRequest -> result string bytes.
(** The file's full path as shown to the user. *)
Variable path_text : Files.Path -> string.

Abbreviation validated := (Deletion.origin_verify sha256 hex_decode).
Abbreviation write_blob := (Files.write_blob sha256).
Abbreviation user_transfer := (UserTransfers.user_transfer).

(** *** Offers *)

Definition validate_preview (o : Offer) : result string unit :=
  match History.offered_preview o with
  | None => Ok tt
  | Some preview =>
      bad ← invalid_preview b64_decode (History.manifest o) preview;
      guard_or (negb bad) "invalid attachment preview descriptor"
  end.

Definition verify_manifest (origin : Messages.MessageOrigin) (ctx : string) (m : Manifest) : result string unit :=
  b ← Erasure.manifest_bytes m; validated origin ctx (Attachments.attachment_id m) b.
Definition verify_manifest_from_signer (origin : Messages.MessageOrigin) (ctx : string) (m : Manifest) (signer : bytes) : result string unit :=
  b ← Erasure.manifest_bytes m; Deletion.verify_from_signer sha256 hex_decode origin ctx (Attachments.attachment_id m) b signer.

Definition verify_offer (ctx : string) (signer : option bytes) (o : Offer) : result string unit :=
  _ ← validate_preview o;
  let m := History.manifest o in
  _ ← match Attachments.m_origin m, signer with
      | Some origin, Some signer => verify_manifest_from_signer origin ctx m signer
      | Some origin, None => verify_manifest origin ctx m
      | None, _ => Ok tt
      end;
  match History.offered_preview o with
  | None => Ok tt
  | Some preview =>
      parent ← ok_or (Attachments.m_origin m) "unsigned preview parent";
      origin ← ok_or (Attachments.m_origin preview) "unsigned attachment preview";
      _ ← verify_manifest origin (preview_context ctx (Messages.id parent)) preview;
      guard_or (String.eqb (Messages.author origin) (Messages.author parent)) "attachment preview signer mismatch"
  end.

(** *** Leases ([transfer_cleanup.rs]) *)

Definition retain_lease (d : Descriptor) : tw bool := fun w =>
  if bool_decide (is_Some (held_leases (own w) !! Messages.attachment_id d)) then (w, Ok false)
  else
    (on_files (Files.retain (Messages.d_content_hash d) (Messages.file_name d));;;
     (fun w => (upd (fun t => set_held (<[ Messages.attachment_id d := (Messages.d_content_hash d, Messages.file_name d) ]>
                                         (held_leases t)) t) w, Ok true))) w.
Definition release_lease (i : string) (w : World) : World :=
  match held_leases (own w) !! i with
  | None => w
  | Some (h, n) => set_files (Files.release h n (files w)) (upd (fun t => set_held (delete i (held_leases t)) t) w)
  end.
Definition with_lease {A} (d : Descriptor) (operation : tw A) : tw A := fun w =>
  match retain_lease d w with
  | (w, Err e) => (w, Err e)
  | (w, Ok retained) =>
      match operation w with
      | (w, Ok a) => (w, Ok a)
      | (w, Err e) => (if (retained : bool) then release_lease (Messages.attachment_id d) w else w, Err e)
      end
  end.
(** [Drop]. *)
Definition drop_transfer (w : World) : World :=
  set_files (foldr (fun kv f => Files.release kv.2.1 kv.2.2 f) (files w) (map_to_list (held_leases (own w)))) w.

Definition clean_erased (a : Descriptor) (store : option Store.Persistence) (w : World) : World * result string bool :=
  let '(f, r) := Files.remove_if_unused (Messages.d_content_hash a) (Messages.file_name a)
    (fun _ => match store with
              | None => Ok false
              | Some s => map_err Erasure.persistence_text
                            (Files.attachment_referenced (Messages.d_content_hash a) (Messages.file_name a) s)
              end) (files w) in
  (set_files f w, r).

Fixpoint collect_rows (records : list (string * Descriptor)) (w : World) : World :=
  match records with
  | [] => w
  | (key, a) :: records =>
      let w := upd (set_gc_after (Some key)) w in
      match clean_erased a (Some (base w)) w with
      | (w, Ok true) => collect_rows records (on_base (complete_attachment_gc key) w).1
      | (w, _) => collect_rows records w
      end
  end.
Definition collect_erased_cache (w : World) : World :=
  match attachment_gc (gc_after (own w)) (base w) with
  | Err _ => w
  | Ok records =>
      let w := if bool_decide (records = []) then upd (set_gc_after None) w else w in
      collect_rows records w
  end.

(** *** Forgetting *)

Definition forget_execution (i : string) (w : World) : World :=
  match t_execution (own w) ≫= fun c => admissions c !! i with
  | None => w
  | Some a =>
      let w := upd_execution (fun c => set_admissions (delete i (admissions c)) c) w in
      match on_base (UserTransfers.remove_user_transfer (a_id a)) w with
      | (w, Ok _) => w
      | (w, Err e) => upd_execution (set_error (Some (transfer_text e))) w
      end
  end.

Definition drop_preview (parent id : string) (t : Transfer) : Transfer :=
  set_previews (delete parent (previews t)) (filter (fun j => j <> id) (pending_previews t)) (delete id (preview_retry_after t)) t.
(** A preview is an attachment of its own; the fuel is the number of previews. *)
Fixpoint forget_within (fuel : nat) (i : string) (w : World) : World :=
  let w := forget_execution i w in
  let w := match previews (own w) !! i, fuel with
           | Some p, S fuel =>
               forget_within fuel (Attachments.attachment_id p) (upd (drop_preview i (Attachments.attachment_id p)) w)
           | _, _ => w
           end in
  let w := upd_runtime (Attachments.forget i) w in
  let w := upd (fun t => set_restored (delete i (restored_outgoing t)) t) w in
  release_lease i (upd_slots (Slots.forget_slot i) w).
Definition forget (i : string) (w : World) : World := forget_within (size (previews (own w))) i w.

(** *** Sending *)

Definition update_origin (m : Manifest) (r : Attachments.AttachmentRuntime) : Attachments.AttachmentRuntime :=
  let set (t : Attachments.OutgoingTransfer) :=
    let old := Attachments.o_manifest t in
    {| Attachments.o_manifest :=
         {| Attachments.m_origin := Attachments.m_origin m; Attachments.attachment_id := Attachments.attachment_id old;
            Attachments.content_hash := Attachments.content_hash old; Attachments.file_name := Attachments.file_name old;
            Attachments.mime := Attachments.mime old; Attachments.total_size := Attachments.total_size old;
            Attachments.chunk_size := Attachments.chunk_size old; Attachments.chunk_count := Attachments.chunk_count old;
            Attachments.key_b64 := Attachments.key_b64 old; Attachments.nonce_prefix_b64 := Attachments.nonce_prefix_b64 old;
            Attachments.m_thumbnail_b64 := Attachments.m_thumbnail_b64 old; Attachments.m_voice := Attachments.m_voice old;
            Attachments.from_fingerprint := Attachments.from_fingerprint old |};
       Attachments.plaintext := Attachments.plaintext t; Attachments.o_key := Attachments.o_key t;
       Attachments.o_nonce_prefix := Attachments.o_nonce_prefix t; Attachments.served_chunks := Attachments.served_chunks t;
       Attachments.o_state := Attachments.o_state t |} in
  {| Attachments.outgoing := alter set (Attachments.attachment_id m) (Attachments.outgoing r);
     Attachments.incoming := Attachments.incoming r |}.

(** [secret]: the key and the nonce prefix drawn for this file. *)
Definition prepare_outgoing (secret : bytes * bytes) (o : Attachments.OutgoingAttachment) : tw Outgoing :=
  m <~ on_runtime (Attachments.prepare_outgoing sha256 b64_encode secret.1 secret.2 o);;
  fun w =>
    let d := Erasure.descriptor_of m in
    match with_lease d (on_files (write_blob (Attachments.content_hash m) (Attachments.file_name m) (Attachments.oa_bytes o))) w with
    | (w, Ok p) => (w, Ok (Prepared m d (path_text p) None))
    | (w, Err e) => (upd_runtime (Attachments.forget (Attachments.attachment_id m)) w, Err e)
    end.

Definition add_preview (parent : string) (m : Manifest) (t : Transfer) : Transfer :=
  set_previews (<[ parent := m ]> (previews t)) (pending_previews t) (preview_retry_after t) t.
Fixpoint record_sent (o : Outgoing) (w : World) : World :=
  match o with
  | Prepared m d path preview =>
      let w := upd_runtime (update_origin m) w in
      let w := match preview with
               | Some p => record_sent p (upd (add_preview (Attachments.attachment_id m) (o_manifest p)) w)
               | None => w
               end in
      upd_slots (Slots.record_sent d path) w
  end.
Definition record_published {A E} (o : Outgoing) (publication : result E A) : method World E (Descriptor * A) := fun w =>
  match publication with
  | Ok value => (record_sent o w, Ok (o_descriptor o, value))
  | Err e =>
      let w := match o_preview o with Some p => forget (Attachments.attachment_id (o_manifest p)) w | None => w end in
      (forget (Attachments.attachment_id (o_manifest o)) w, Err e)
  end.

(** ** Offering a file with its preview ([preview_transfer.rs]) *)

Definition preview_attachment (m : Manifest) (b : bytes) : Attachments.OutgoingAttachment :=
  {| Attachments.oa_attachment_id := preview_id (Attachments.attachment_id m); Attachments.oa_file_name := PREVIEW_FILE_NAME;
     Attachments.oa_mime := "image/jpeg"; Attachments.oa_from_fingerprint := Attachments.from_fingerprint m;
     Attachments.oa_bytes := b; Attachments.oa_thumbnail_b64 := None; Attachments.oa_voice := None |}.
Definition with_preview (p : Outgoing) (o : Outgoing) : Outgoing :=
  let '(Prepared m d path _) := o in Prepared m d path (Some p).
Definition attach_preview (secret : bytes * bytes) (preview : option bytes) (o : Outgoing) : tw Outgoing := fun w =>
  match preview with
  | None => (w, Ok o)
  | Some b =>
      match prepare_outgoing secret (preview_attachment (o_manifest o) b) w with
      | (w, Ok p) => (w, Ok (with_preview p o))
      | (w, Err e) => (forget (Attachments.attachment_id (o_manifest o)) w, Err e)
      end
  end.
Definition check_offer (o : Outgoing) : tw Outgoing := fun w =>
  match validate_preview (offer_of o) with
  | Ok _ => (w, Ok o)
  | Err e =>
      let w := forget (Attachments.attachment_id (o_manifest o)) w in
      (match o_preview o with Some p => forget (Attachments.attachment_id (o_manifest p)) w | None => w end, Err (Bytes e))
  end.
Definition prepare_offer (secret secret' : bytes * bytes) (o : Attachments.OutgoingAttachment) (preview : option bytes) : tw Outgoing :=
  m_lift (match preview with Some b => validate_preview_bytes b | None => Ok tt end);;;
  prepared <~ prepare_outgoing secret o;;
  prepared <~ attach_preview secret' preview prepared;;
  check_offer prepared.

(** *** Taking an offer in *)

Definition accept_manifest (m : Manifest) : tw (option Descriptor) := fun w =>
  if holds (Attachments.attachment_id m) (own w) then (w, Ok None)
  else
    let d := Erasure.descriptor_of m in
    (with_lease d (on_runtime (Attachments.register_incoming b64_decode m));;;
     (fun w => (upd_slots (Slots.offer d) w, Ok (Some d)))) w.

(** The whole file read once: its length and its hash must be the descriptor's. *)
Definition cached_valid (d : Descriptor) (w : World) : World * bool :=
  match Files.path_for (Messages.d_content_hash d) (Messages.file_name d) with
  | Err _ => (w, false)
  | Ok p =>
      match (b <~ Files.file_open p;; Files.call (fun d => d) Files.kept_all;;; m_ret b) (files w) with
      | (f, Err _) => (set_files f w, false)
      | (f, Ok b) =>
          if negb (N.of_nat (length b) =? Messages.total_size d)%N then (set_files f w, false)
          else match Files.call (fun d => d) Files.kept_all f with
               | (f, Err _) => (set_files f w, false)
               | (f, Ok _) => (set_files f w, String.eqb (Files.file_hash sha256 b) (Messages.d_content_hash d))
               end
      end
  end.

Definition restore_cached (d : Descriptor) (dir : Direction) (w : World) : World :=
  let w := (retain_lease d w).1 in
  let '(w, valid) := cached_valid d w in
  if negb valid then w
  else match Files.path_for (Messages.d_content_hash d) (Messages.file_name d) with
       | Err _ => w
       | Ok p => upd_slots (Slots.restore d dir (path_text p)) w
       end.
Definition matches (d : Descriptor) (m : Manifest) : bool :=
  String.eqb (Attachments.attachment_id m) (Messages.attachment_id d)
  && String.eqb (Attachments.content_hash m) (Messages.d_content_hash d)
  && String.eqb (Attachments.file_name m) (Messages.file_name d)
  && String.eqb (Attachments.mime m) (Messages.mime d) && (Attachments.total_size m =? Messages.total_size d)%N.
Definition restore_stored (d : Descriptor) (dir : Direction) (manifest : option Manifest) (w : World) : World :=
  if holds (Messages.attachment_id d) (own w) then w
  else
    let manifest := m ← manifest; if matches d m then Some m else None in
    let w := restore_cached d dir w in
    if holds (Messages.attachment_id d) (own w) then
      match dir, manifest with
      | Slots.Outgoing, Some m =>
          upd (fun t => set_restored (<[ Messages.attachment_id d := m ]> (restored_outgoing t)) t) w
      | _, _ => w
      end
    else match dir, manifest with
         | Slots.Incoming, Some m => (accept_manifest m w).1
         | _, _ => w
         end.

Definition install_preview (parent : string) (m : Manifest) (dir : Direction) : tw unit := fun w =>
  if bool_decide (is_Some (previews (own w) !! parent)) then (w, Ok tt)
  else
    let d := Erasure.descriptor_of m in
    let '(w, cached) := cached_valid d w in
    let installed (w : World) :=
      upd (fun t => let t := if cached then t
                             else set_previews (previews t) (Attachments.attachment_id m :: pending_previews t) (preview_retry_after t) t in
                    add_preview parent m t) w in
    if (cached : bool) then (installed (restore_stored d dir (Some m) w), Ok tt)
    else match dir with
         | Slots.Outgoing => (w, Ok tt)
         | Slots.Incoming =>
             match accept_manifest m w with
             | (w, Err e) => (w, Err e)
             | (w, Ok _) => (installed w, Ok tt)
             end
         end.

Definition accept_offer (o : Offer) : tw (option Descriptor) := fun w =>
  match validate_preview o with
  | Err e => (w, Err (Bytes e))
  | Ok _ =>
      let parent := Attachments.attachment_id (History.manifest o) in
      match accept_manifest (History.manifest o) w with
      | (w, Ok (Some d)) =>
          match History.offered_preview o with
          | None => (w, Ok (Some d))
          | Some preview =>
              match install_preview parent preview Slots.Incoming w with
              | (w, Ok _) => (w, Ok (Some d))
              | (w, Err e) => (forget parent w, Err e)
              end
          end
      | other => other
      end
  end.
Definition restore_preview (o : Offer) (dir : Direction) (w : World) : World :=
  match Attachments.m_origin (History.manifest o) with
  | None => w
  | Some origin =>
      match verify_offer (Messages.conversation origin) None o, History.offered_preview o with
      | Ok _, Some preview =>
          let parent := Attachments.attachment_id (History.manifest o) in
          match install_preview parent preview dir w with
          | (w, Ok _) =>
              if bool_decide (is_Some (previews (own w) !! parent)) && negb (holds parent (own w))
              then upd_slots (Slots.restore_metadata (Erasure.descriptor_of (History.manifest o)) dir) w else w
          | (w, Err _) => w
          end
      | _, _ => w
      end
  end.
Definition preview_path (parent : string) (w : World) : option string :=
  m ← previews (own w) !! parent;
  d ← Slots.cached_descriptor (Attachments.attachment_id m) (slots (own w));
  p ← res_ok (Files.path_for (Messages.d_content_hash d) (Messages.file_name d));
  if bool_decide (is_Some (Files.disk (files w) !! p)) then Some (path_text p) else None.

(** ** Admissions ([transfer_execution.rs]) *)

Definition read_base {A} (f : Store.Persistence -> result PersistenceError A) : tw A := fun w =>
  (w, map_err (fun e => Bytes (Erasure.persistence_text e)) (f (base w))).
Definition admission_of (i : string) (t : Transfer) : option Admission := c ← t_execution t; admissions c !! i.

Definition require_download_admission (env : Env) (i : string) (w : World) : result TransferError unit :=
  if is_preview i (own w) || negb (managed_execution env) then Ok tt
  else
    c ← ok_or (t_execution (own w)) (Bytes "transfer storage unavailable");
    _ ← match e_error c with Some e => Err (Bytes e) | None => Ok tt end;
    a ← ok_or (admissions c !! i) (Bytes "user transfer admission missing");
    o ← map_err (fun e => Bytes (Erasure.persistence_text e)) (user_transfer (a_id a) (base w));
    r ← ok_or o (Bytes "user transfer admission missing");
    guard_or (bool_decide (UserTransfers.direction (UserTransfers.view r) = UserTransfers.Download)
              && negb (bool_decide (UserTransfers.t_state (UserTransfers.view r) = UserTransfers.Cancelled)))
      (Bytes "download admission is not active").

Definition bind_user_admission (env : Env) (id : option string) (m : Manifest) : tw unit := fun w =>
  match id, t_execution (own w) with
  | None, _ => (w, Ok tt)
  | Some _, None => (w, Err (Bytes "transfer storage unavailable"))
  | Some id, Some c =>
      (on_base (UserTransfers.bind_user_transfer id (e_target c) m (now_ms env));;;
       o <~ read_base (user_transfer id);;
       r <~ m_lift (ok_or o (Bytes "transfer admission missing"));;
       (fun w => (upd_execution (fun c => set_admissions (<[ Attachments.attachment_id m :=
            {| a_id := id; a_direction := UserTransfers.direction (UserTransfers.view r);
               a_state := UserTransfers.t_state (UserTransfers.view r) |} ]> (admissions c)) (set_error None c)) w, Ok tt))) w
  end.
Definition bind_download_admission (env : Env) (i id : string) : tw unit := fun w =>
  match manifest_for i (own w) with
  | None => (w, Err (Bytes "unknown attachment manifest"))
  | Some m =>
      (bind_user_admission env (Some id) m;;;
       (fun w => (if Slots.incoming i (slots (own w)) then w
                  else upd_runtime (Attachments.resume_outgoing i) (upd_slots (Slots.resume_sent i) w), Ok tt))) w
  end.
Definition cancel_execution (env : Env) (i : string) : tw unit := fun w =>
  match admission_of i (own w) with
  | None => (w, Ok tt)
  | Some a => on_base (UserTransfers.set_user_transfer_state (a_id a) UserTransfers.Cancelled (now_ms env)) w
  end.

Definition start_download (env : Env) (i : string) : tw unit := fun w =>
  match require_download_admission env i w with
  | Err e => (w, Err e)
  | Ok _ => on_table (Slots.start_download i) w
  end.

(** ** Checkpoints ([transfer_checkpoint.rs]) *)

Fixpoint flush_batches (env : Env) (batches : list (string * list ChunkFrame)) : tw unit := fun w =>
  match batches with
  | [] => (w, Ok tt)
  | (i, frames) :: batches =>
      match admission_of i (own w) with
      | None => flush_batches env batches w
      | Some a =>
          match on_base (UserTransfers.save_user_transfer_chunks (a_id a) frames (now_ms env)) w with
          | (w, Ok _) => flush_batches env batches w
          | (w, Err e) =>
              let w := upd_runtime (Attachments.fail_incoming i) (upd_slots (Slots.fail i) w) in
              (upd_execution (set_error (Some (transfer_text e))) w, Err e)
          end
      end
  end.
(** The batches leave memory before any is saved. *)
Definition flush_checkpoints (env : Env) : tw unit := fun w =>
  match t_execution (own w) with
  | None => (w, Ok tt)
  | Some c => flush_batches env (map_to_list (checkpoints c)) (upd_execution (set_checkpoints ∅) w)
  end.
Definition checkpoint_frame (env : Env) (f : ChunkFrame) : tw unit := fun w =>
  let i := Attachments.cf_attachment_id f in
  match t_execution (own w), admission_of i (own w) with
  | Some c, Some _ =>
      let batch := default [] (checkpoints c !! i) ++ [f] in
      let w := upd_execution (set_checkpoints (<[ i := batch ]> (checkpoints c))) w in
      if (64 <=? length batch)%nat then flush_checkpoints env w else (w, Ok tt)
  | _, _ => (w, Ok tt)
  end.

Definition cancel (env : Env) (i : string) : tw unit :=
  flush_checkpoints env;;; cancel_execution env i;;; on_table (Slots.cancel i).

Definition ingest_chunk (f : ChunkFrame) : tw Attachments.ChunkOutcome :=
  on_runtime (Attachments.ingest_chunk chunk_decrypt sha256 b64_decode f).

(** A saved frame taken in again; the file is written when it was the last. *)
Fixpoint replay_frames (m : Manifest) (i : string) (frames : list ChunkFrame) : tw unit := 
  match frames with
  | [] => m_ret tt
  | f :: frames =>
      outcome <~ ingest_chunk f;;
      match outcome with
      | Attachments.CompleteO _ h b =>
          p <~ on_files (write_blob h (Attachments.file_name m) b);;
          (fun w => (upd_slots (Slots.complete_download i (path_text p)) w, Ok tt))
      | _ => m_ret tt
      end;;;
      replay_frames m i frames
  end.
Definition restore_record (env : Env) (id i : string) (m : Manifest) : tw unit :=
  o <~ read_base (user_transfer id);;
  saved <~ m_lift (ok_or o (Bytes "transfer checkpoint missing"));;
  (if match UserTransfers.manifest saved with
      | None => true
      | Some old => negb (String.eqb (Attachments.content_hash old) (Attachments.content_hash m))
                    || negb (String.eqb (Attachments.attachment_id old) i)
      end
   then m_lift (Err (Bytes "transfer checkpoint binding mismatch"))
   else
     frames <~ read_base (UserTransfers.user_transfer_chunks id);;
     on_table (Slots.start_download i);;;
     replay_frames m i frames;;;
     (fun w =>
        let st := if bool_decide (is_Some (Slots.cached_descriptor i (slots (own w))))
                  then UserTransfers.Complete else UserTransfers.Paused in
        on_base (UserTransfers.set_user_transfer_state id st (now_ms env)) w)).
Fixpoint restore_records (env : Env) (records : list UserTransfers.UserTransfer) (w : World) : World :=
  match records with
  | [] => w
  | r :: records =>
      match UserTransfers.t_attachment_id r with
      | None => restore_records env records w
      | Some i =>
          if bool_decide (UserTransfers.t_state r = UserTransfers.Cancelled)
             || bool_decide (is_Some (Slots.cached_descriptor i (slots (own w))))
          then restore_records env records w
          else match manifest_for i (own w) with
               | None => restore_records env records w
               | Some m =>
                   match restore_record env (UserTransfers.t_id r) i m w with
                   | (w, Ok _) => restore_records env records w
                   | (w, Err e) =>
                       restore_records env records
                         (upd_execution (set_error (Some (transfer_text e))) (upd_slots (Slots.fail i) w))
                   end
               end
      end
  end.
Definition restore_execution_checkpoints (env : Env) (w : World) : World :=
  match t_execution (own w) with
  | None => w
  | Some c =>
      match UserTransfers.user_transfers (base w) with
      | Err e => upd_execution (set_error (Some (Erasure.persistence_text e))) w
      | Ok records =>
          restore_records env (filter (fun r => UserTransfers.target r = e_target c /\
                                                UserTransfers.direction r = UserTransfers.Download) records) w
      end
  end.

Definition conversation_kind (t : HistoryTables) : option CallButtons.BridgeConversationKind :=
  if String.eqb (outbound_scope t) "private_dm" then Some CallButtons.Dm
  else if String.eqb (outbound_scope t) "private_group" then Some CallButtons.Group
  else if String.eqb (outbound_scope t) "channel" then Some CallButtons.Channel else None.
Definition admit_record (c : Execution) (r : UserTransfers.UserTransfer) : Execution :=
  match UserTransfers.t_attachment_id r with
  | None => c
  | Some i => set_admissions (<[ i := {| a_id := UserTransfers.t_id r; a_direction := UserTransfers.direction r;
                                         a_state := UserTransfers.t_state r |} ]> (admissions c)) c
  end.
Definition attach_execution (env : Env) (t : HistoryTables) (id : string) (w : World) : World :=
  match conversation_kind t with
  | None => w
  | Some kind =>
      let c := {| e_target := {| CallButtons.kind := kind; CallButtons.ref_id := id |}; admissions := ∅; e_error := None;
                  serving := no_serving; checkpoints := ∅ |} in
      let c := match UserTransfers.user_transfers (base w) with
               | Err e => set_error (Some (Erasure.persistence_text e)) c
               | Ok records => foldl admit_record c (filter (fun r => UserTransfers.target r = e_target c) records)
               end in
      restore_execution_checkpoints env (upd (set_execution (Some c)) w)
  end.

(** ** Chunks arriving ([transfer.rs], [preview_scheduler.rs]) *)

Definition PREVIEW_RETRY_DELAY : N := 5000000000.
Definition retry_preview (env : Env) (i : string) (w : World) : World :=
  if is_preview i (own w) && bool_decide (preview_retry_after (own w) !! i = None) then
    let w := match Attachments.manifest_of (runtime (own w)) i with
             | None => w
             | Some m => upd_runtime (fun r => (Attachments.register_incoming b64_decode m (Attachments.forget i r)).1) w
             end in
    upd (fun t => set_previews (previews t) (pending_previews t ++ [i])
                    (<[ i := now env + PREVIEW_RETRY_DELAY ]> (preview_retry_after t))%N t) w
  else w.

Definition set_receipts (m : gmap string (ChunkRequest * N * N)) (s : Serving) : Serving :=
  {| pending := pending s; tokens := tokens s; receipts := m; replies := replies s; served := served s |}.
Definition completion (i tok : string) : ChunkRequest :=
  {| chunk := {| Attachments.cr_attachment_id := i; Attachments.chunk_indices := [] |};
     execution := Some {| token := tok; phase := Complete; receiver := ""; proof := None; x_expires_ms := 0 |} |}.
Definition queue_completion (env : Env) (i : string) (w : World) : World :=
  if is_preview i (own w) then w
  else match t_execution (own w) with
       | None => w
       | Some c =>
           match tokens (serving c) !! i with
           | None => w
           | Some tok =>
               upd_execution (set_serving (set_receipts (<[ i := (completion i tok, now env, 0%N) ]> (receipts (serving c)))
                                             (serving c))) w
           end
       end.

(** Once the last chunk is in: the file is written, and the sender told. *)
Definition finish_download (env : Env) (i h name : string) (b : bytes) : tw unit := fun w =>
  match on_files (write_blob h name b) w with
  | (w, Ok p) => (queue_completion env i (upd_slots (Slots.complete_download i (path_text p)) w), Ok tt)
  | (w, Err e) =>
      let w := upd_slots (Slots.fail i) w in
      if is_preview i (own w) then (retry_preview env i w, Ok tt)
      else (upd_runtime (Attachments.fail_incoming i) w, Err e)
  end.
Definition ingest (env : Env) (f : ChunkFrame) : tw unit := fun w =>
  let i := Attachments.cf_attachment_id f in
  if negb (Slots.expects_chunks i (slots (own w))) || negb (may_download env i (own w)) then (w, Ok tt)
  else
    let name := Slots.file_name i (slots (own w)) in
    match ingest_chunk f w with
    | (w, Ok (Attachments.CompleteO _ h b)) =>
        (checkpoint_frame env f;;; flush_checkpoints env;;; finish_download env i h name b) w
    | (w, Ok (Attachments.Progress _)) => checkpoint_frame env f w
    | (w, Ok _) => (w, Ok tt)
    | (w, Err _) => (retry_preview env i (upd_slots (Slots.fail i) w), Ok tt)
    end.

(** ** Asking for chunks *)

Definition MAX_ACTIVE_PREVIEWS : nat := 4.
Definition active_preview (t : Transfer) (v : Slots.AttachmentView) : bool :=
  is_preview (Slots.v_attachment_id v) t && bool_decide (Slots.v_state v = Slots.Downloading).
Definition active_previews (t : Transfer) : nat :=
  length (filter (fun v => active_preview t v = true) (Slots.views (runtime t) (slots t))).
Definition set_pending (l : list string) (t : Transfer) : Transfer := set_previews (previews t) l (preview_retry_after t) t.
Fixpoint schedule_loop (env : Env) (waiting available : nat) (w : World) : World :=
  match waiting, pending_previews (own w) with
  | S waiting, i :: rest =>
      let w := upd (set_pending rest) w in
      if negb (is_preview i (own w)) then schedule_loop env waiting available w
      else if (available =? 0)%nat
              || match preview_retry_after (own w) !! i with Some time => (now env <? time)%N | None => false end
      then schedule_loop env waiting available (upd (set_pending (rest ++ [i])) w)
      else match start_download env i w with
           | (w, Ok _) =>
               schedule_loop env waiting (available - 1)
                 (upd (fun t => set_previews (previews t) (pending_previews t) (delete i (preview_retry_after t)) t) w)
           | (w, Err _) => schedule_loop env waiting available w
           end
  | _, _ => w
  end.
Definition schedule_previews (env : Env) (w : World) : World :=
  if negb (automatic_downloads_allowed env) then w
  else schedule_loop env (length (pending_previews (own w))) (MAX_ACTIVE_PREVIEWS - active_previews (own w)) w.

Definition request_priority (t : Transfer) (i : string) : N :=
  if match Attachments.manifest_of (runtime t) i with Some m => bool_decide (is_Some (Attachments.m_voice m)) | None => false end
  then 0
  else if is_preview i t then 1 else 2.

Fixpoint request_loop (env : Env) (awaiting : list string) (w : World) : World * list ChunkRequest :=
  match awaiting with
  | [] => (w, [])
  | i :: rest =>
      let available := Attachments.available_request_slots_at (now env) (runtime (own w)) in
      let budget := div_ceil available (N.of_nat (length awaiting)) in
      let '(r, o) := Attachments.next_chunk_request_with_budget_at i (now env) budget (runtime (own w)) in
      let '(w, l) := request_loop env rest (upd_runtime (fun _ => r) w) in
      (w, match o with Some q => {| chunk := q; execution := None |} :: l | None => l end)
  end.

(** [transfer_serving.rs] *)
Definition request_token (env : Env) (c : Execution) (i : string) : string :=
  match admissions c !! i ≫= fun a => strip_prefix "transfer-" (a_id a) with Some tok => tok | None => drawn_token env i end.
Definition decorated (tok : string) (q : ChunkRequest) : ChunkRequest :=
  {| chunk := chunk q;
     execution := Some {| token := tok; phase := Request; receiver := ""; proof := None; x_expires_ms := 0 |} |}.
Fixpoint decorate_each (env : Env) (c : Execution) (toks : gmap string string) (l : list ChunkRequest)
  : gmap string string * list ChunkRequest :=
  match l with
  | [] => (toks, [])
  | q :: l =>
      let tok := default (request_token env c (rq_attachment q)) (toks !! rq_attachment q) in
      let '(toks, l) := decorate_each env c (<[ rq_attachment q := tok ]> toks) l in
      (toks, decorated tok q :: l)
  end.
Definition RECEIPT_ATTEMPTS : N := 6.
Definition receipt_due (env : Env) (x : ChunkRequest * N * N) : bool := (x.2 <? RECEIPT_ATTEMPTS)%N && (x.1.2 <=? now env)%N.
Definition receipt_sent (env : Env) (x : ChunkRequest * N * N) : ChunkRequest * N * N :=
  if receipt_due env x then (x.1.1, now env + 10000000000, x.2 + 1)%N else x.
Definition decorate_requests (env : Env) (l : list ChunkRequest) (w : World) : World * list ChunkRequest :=
  match t_execution (own w) with
  | None => (w, l)
  | Some c =>
      let s := serving c in
      let '(toks, l) := decorate_each env c (tokens s) l in
      let due := omap (fun kv => if receipt_due env kv.2 then Some kv.2.1.1 else None) (map_to_list (receipts s)) in
      (upd_execution (set_serving {| pending := pending s; tokens := toks; receipts := receipt_sent env <$> receipts s;
                                     replies := []; served := served s |}) w,
       l ++ replies s ++ due)
  end.

Definition next_requests (env : Env) (w : World) : World * list ChunkRequest :=
  match flush_checkpoints env w with
  | (w, Err _) => (w, [])
  | (w, Ok _) =>
      let w := schedule_previews env w in
      let awaiting := filter (fun i => may_download env i (own w) = true) (Slots.awaiting_chunks (slots (own w))) in
      let '(w, l) := request_loop env (sort_by_key N.le (request_priority (own w)) awaiting) w in
      decorate_requests env l w
  end.

(** ** What the user sees, and playback ([transfer_restore.rs]) *)

Definition shown (env : Env) (w : World) (v : Slots.AttachmentView) : Slots.AttachmentView :=
  let i := Slots.v_attachment_id v in
  {| Slots.v_attachment_id := i; Slots.v_direction := Slots.v_direction v;
     Slots.v_state := if bool_decide (Slots.v_state v = Slots.Downloading) && negb (may_download env i (own w))
                      then Slots.Paused else Slots.v_state v;
     Slots.v_completed_chunks := Slots.v_completed_chunks v; Slots.v_chunk_count := Slots.v_chunk_count v;
     Slots.v_local_path := Slots.v_local_path v; Slots.preview_path := preview_path i w |}.
Definition views (env : Env) (w : World) : list Slots.AttachmentView :=
  map (shown env w) (filter (fun v => is_preview (Slots.v_attachment_id v) (own w) = false)
                       (Slots.views (runtime (own w)) (slots (own w)))).

(** From the finished file: open, its length, seek and read. *)
Definition cached_range (d : Descriptor) (start stop : N) (w : World) : World * Attachments.StreamRange :=
  match Files.path_for (Messages.d_content_hash d) (Messages.file_name d) with
  | Err _ => (w, Attachments.UnknownS)
  | Ok p =>
      match (b <~ Files.file_open p;; Files.call (fun d => d) Files.kept_all;;; m_ret b) (files w) with
      | (f, Err _) => (set_files f w, Attachments.UnknownS)
      | (f, Ok b) =>
          let total := Messages.total_size d in
          if negb (N.of_nat (length b) =? total)%N then (set_files f w, Attachments.UnknownS)
          else
            let start := N.min start total in
            let stop := N.max (N.min stop total) start in
            match (Files.call (fun d => d) Files.kept_all;;; Files.call (fun d => d) Files.kept_all) f with
            | (f, Err _) => (set_files f w, Attachments.UnknownS)
            | (f, Ok _) =>
                (set_files f w, Attachments.Ready (take (N.to_nat (stop - start)) (drop (N.to_nat start) b)) total (Messages.mime d))
            end
      end
  end.
Definition stream_range (env : Env) (i : string) (start stop : N) (w : World) : World * Attachments.StreamRange :=
  if managed_execution env && bool_decide (Slots.cached_descriptor i (slots (own w)) = None)
     && (negb (Slots.expects_chunks i (slots (own w))) || negb (may_download env i (own w)))
  then (w, Attachments.UnknownS)
  else
    let w := (on_table (Slots.start_download i) w).1 in
    let '(r, range) := Attachments.stream_range i start stop (runtime (own w)) in
    let w := upd_runtime (fun _ => r) w in
    match range, Slots.cached_descriptor i (slots (own w)) with
    | Attachments.UnknownS, Some d => cached_range d start stop w
    | range, _ => (w, range)
    end.

End Transfers.

(** ** What an operation may do to the shared parts *)

Definition pending_key (q : ChunkRequest) : option (string * string * string) :=
  x ← execution q; Some (rq_attachment q, receiver x, token x).
(** What is kept for other devices is bounded, and every entry has the metadata
    that later calls unwrap. *)
Record serving_ok (s : Serving) : Prop := {
  pending_bounded : size (pending s) <= 64;
  pending_keyed : map_Forall (fun k p => pending_key (p_request p) = Some k) (pending s);
  receipts_bounded : map_Forall (fun _ x => is_Some (execution x.1.1) /\ (x.2 <= RECEIPT_ATTEMPTS)%N) (receipts s);
  replies_bounded : length (replies s) <= 64;
}.
Definition served_well (t : Transfer) : Prop := forall c, t_execution t = Some c -> serving_ok (serving c).

Lemma no_serving_ok : serving_ok no_serving.
Proof. split; cbn; [rewrite map_size_empty; lia|apply map_Forall_empty|apply map_Forall_empty|lia]. Qed.
Lemma served_well_some e t : (forall c, e = Some c -> serving_ok (serving c)) -> served_well (set_execution e t).
Proof. done. Qed.

Section Steps.
Context {aes : Aes} {rows : RowJson} {scheme : Devices.Ed25519} {json : DeletionJson} {json' : ErasureJson}.
Context {record_codec : RowCodec UserTransfers.TransferRecord} {current_codec : RowCodec UserTransfers.Current}
        {chunk_codec : RowCodec ChunkFrame}.
Variable sha256 : bytes -> bytes.
(** Whether the operation may remove files nobody needs. *)
Variable cleaning : Prop.

(** Every change of a cached file, of a lease, or of the leases a conversation
    holds is one of these; the rest of a transfer changes as it likes, but for
    the bounds on what is kept for other devices. *)
Inductive step : World -> World -> Prop :=
| Kept t w : held_leases t = held_leases (own w) -> (served_well (own w) -> served_well t) -> step w {| own := t; files := files w; base := base w |}
| Based b w : step w (set_base b w)
| Looked f w : Files.disk f = Files.disk (files w) -> Files.leases f = Files.leases (files w) -> step w (set_files f w)
| Saved h n b w : step w (set_files (Files.write_blob sha256 h n b (files w)).1 w)
| Leased d w : step w (retain_lease d w).1
| Freed i w : step w (release_lease i w)
| Cleaned a store w : cleaning -> store = None \/ store = Some (base w) -> step w (clean_erased a store w).1.

Definition stepped {B} (m : World -> World * B) : Prop := forall w, rtc step w (m w).1.
Definition moved (f : World -> World) : Prop := forall w, rtc step w (f w).

Lemma then_stepped {B} (m : World -> World * B) w w1 : rtc step w w1 -> stepped m -> rtc step w (m w1).1.
Proof. intros H Hm. by etrans. Qed.
Lemma then_moved (f : World -> World) w w1 : rtc step w w1 -> moved f -> rtc step w (f w1).
Proof. intros H Hm. by etrans. Qed.
Lemma then_upd f w w1 : rtc step w w1 -> (forall t, held_leases (f t) = held_leases t) ->
  (forall t, served_well t -> served_well (f t)) -> rtc step w (upd f w1).
Proof. intros H Hf Hs. etrans; [done|]. apply rtc_once. apply Kept; [apply Hf|apply Hs]. Qed.
Lemma then_looked f w w1 : rtc step w w1 -> Files.disk f = Files.disk (files w1) -> Files.leases f = Files.leases (files w1) ->
  rtc step w (set_files f w1).
Proof. intros H Hd Hl. etrans; [done|]. by apply rtc_once, Looked. Qed.

Lemma moved_slots f : moved (upd_slots f).
Proof. intros w. by apply then_upd. Qed.
Lemma moved_runtime f : moved (upd_runtime f).
Proof. intros w. by apply then_upd. Qed.
Lemma moved_execution f : (forall c, serving_ok (serving c) -> serving_ok (serving (f c))) -> moved (upd_execution f).
Proof.
  intros Hf w. apply then_upd; [done..|]. intros t Ht c. cbn. destruct (t_execution t) as [c0|] eqn:Hc; [|done].
  intros [= <-]. by apply Hf, Ht.
Qed.
Lemma then_execution f c w w1 : rtc step w w1 -> t_execution (own w1) = Some c ->
  (serving_ok (serving c) -> serving_ok (serving (f c))) -> rtc step w (upd_execution f w1).
Proof.
  intros H Hc Hf. etrans; [done|]. apply rtc_once, Kept; [done|]. intros Hs c'. cbn. rewrite Hc. intros [= <-]. by apply Hf, Hs.
Qed.
Lemma moved_release i : moved (release_lease i).
Proof. intros w. apply rtc_once, Freed. Qed.

Lemma stepped_bind {E A B} (m : method World E A) (f : A -> method World E B) : stepped m -> (forall a, stepped (f a)) -> stepped (m_bind m f).
Proof.
  intros Hm Hf w. pose proof (Hm w) as H. unfold m_bind. destruct (m w) as [w1 [a|e]]; [|done]. by apply then_stepped.
Qed.
Lemma stepped_lift {E A} (r : result E A) : stepped (m_lift (S := World) r).
Proof. intros w. apply rtc_refl. Qed.
Lemma stepped_ret {E A} (a : A) : stepped (m_ret (S := World) (E := E) a).
Proof. intros w. apply rtc_refl. Qed.
Lemma stepped_base {A} (m : method Store.Persistence PersistenceError A) : stepped (on_base m).
Proof. intros w. unfold on_base. destruct (m (base w)) as [b r]. apply rtc_once, Based. Qed.
Lemma stepped_read {A} (f : Store.Persistence -> result PersistenceError A) : stepped (read_base f).
Proof. intros w. apply rtc_refl. Qed.
Lemma stepped_runtime {A} (m : method Attachments.AttachmentRuntime Attachments.AttachmentRuntimeError A) : stepped (on_runtime m).
Proof. intros w. unfold on_runtime. destruct (m (runtime (own w))) as [r o]. apply moved_runtime. Qed.
Lemma stepped_table {A} (m : method Slots.Table Slots.SlotError A) : stepped (on_table m).
Proof. intros w. unfold on_table. destruct (m _) as [[ss r] o]. cbn [fst]. by apply then_upd. Qed.
Lemma stepped_write h n b : stepped (on_files (Files.write_blob sha256 h n b)).
Proof.
  intros w. unfold on_files. pose proof (Saved h n b w) as H. destruct (Files.write_blob sha256 h n b (files w)) as [f r].
  by apply rtc_once.
Qed.
Lemma stepped_retain d : stepped (retain_lease d).
Proof. intros w. apply rtc_once, Leased. Qed.

End Steps.

Create HintDb steps.
#[export] Hint Resolve then_stepped then_moved then_upd then_looked rtc_refl stepped_bind stepped_lift stepped_ret stepped_base
  stepped_read stepped_runtime stepped_table stepped_write stepped_retain moved_slots moved_runtime
  moved_execution moved_release : steps.

(** Follow the branches of an operation, keeping what was reached. *)
Ltac reached w := eauto 12 with steps.
Ltac branch w :=
  match goal with
  | |- rtc ?R _ ?X =>
      match X with
      | context [match ?x with _ => _ end] =>
          lazymatch x with context [match _ with _ => _ end] => fail | _ => idtac end;
          lazymatch type of x with
          | (World * _)%type =>
              let H := fresh "Hs" in
              assert (H : rtc R w x.1) by reached w; destruct x as [? ?] eqn:?; cbn [fst] in H
          | _ => destruct x eqn:?
          end
      end
  end.
Ltac branch_any :=
  match goal with |- rtc _ _ ?X => match X with context [match ?x with _ => _ end] => destruct x eqn:? end end.
Ltac branches := 
  let w := fresh "w" in intros w; repeat (cbv zeta; first [branch w | branch_any]); cbn [fst snd]; try solve [reached w].
(** Reading leaves the files and the leases. *)
Lemma reads_call f : Files.disk (Files.call (fun d => d) Files.kept_all f).1 = Files.disk f /\
  Files.leases (Files.call (fun d => d) Files.kept_all f).1 = Files.leases f.
Proof. unfold Files.call. by destruct (head (Files.faults f)) as [[]|]. Qed.
Lemma reads_open_read p f :
  let f' := ((b <~ Files.file_open p;; Files.call (fun d => d) Files.kept_all;;; m_ret b) f).1 in
  Files.disk f' = Files.disk f /\ Files.leases f' = Files.leases f.
Proof.
  unfold Files.file_open, m_bind, m_ret. pose proof (reads_call f) as [Hd Hl].
  destruct (Files.call _ _ f) as [f1 [u|e]]; cbn in *; [|done]. destruct (Files.disk f !! p) as [b|]; cbn; [|done].
  pose proof (reads_call f1) as [Hd' Hl']. destruct (Files.call _ _ f1) as [f2 [u'|e]]; cbn in *; by rewrite Hd', Hl'.
Qed.
Lemma reads_two f :
  let f' := ((Files.call (fun d => d) Files.kept_all;;; Files.call (fun d => d) Files.kept_all) f).1 in
  Files.disk f' = Files.disk f /\ Files.leases f' = Files.leases f.
Proof.
  unfold m_bind. pose proof (reads_call f) as [Hd Hl]. destruct (Files.call _ _ f) as [f1 [u|e]]; cbn in *; [|done].
  pose proof (reads_call f1) as [Hd' Hl']. by rewrite Hd', Hl'.
Qed.

Section Walks.
Context {aes : Aes} {rows : RowJson} {scheme : Devices.Ed25519} {json : DeletionJson} {json' : ErasureJson}.
Context {record_codec : RowCodec UserTransfers.TransferRecord} {current_codec : RowCodec UserTransfers.Current}
        {chunk_codec : RowCodec ChunkFrame}.
Variable chunk_decrypt : bytes -> bytes -> bytes -> result string bytes.
Variable sha256 : bytes -> bytes.
Variable hex_decode : string -> result string bytes.
Variable path_text : Files.Path -> string.
Variable cleaning : Prop.
Abbreviation stepped := (stepped sha256 cleaning).
Abbreviation moved := (moved sha256 cleaning).

Lemma stepped_with_lease {A} d (m : tw A) : stepped m -> stepped (with_lease d m).
Proof. intros Hm. unfold with_lease. branches. Qed.

Lemma moved_collect (Hc : cleaning) records : moved (collect_rows records).
Proof.
  induction records as [|[k a] records IH]; intros w; cbn [collect_rows]; [reached w|]. cbv zeta.
  set (w1 := upd _ w). assert (H1 : rtc (step sha256 cleaning) w w1) by reached w.
  assert (H2 : rtc (step sha256 cleaning) w (clean_erased a (Some (base w1)) w1).1)
    by (etrans; [exact H1|apply rtc_once, Cleaned; [done|by right]]).
  destruct (clean_erased _ _ w1) as [w2 [[]|e]]; cbn in H2; reached w.
Qed.
Lemma moved_collect_erased (Hc : cleaning) : moved collect_erased_cache.
Proof. unfold collect_erased_cache. pose proof (moved_collect Hc). branches. Qed.
#[local] Hint Resolve stepped_with_lease : steps.

Lemma moved_forget_execution i : moved (forget_execution i).
Proof. unfold forget_execution. branches. Qed.
#[local] Hint Resolve moved_forget_execution : steps.
Lemma moved_forget_within fuel i : moved (forget_within fuel i).
Proof. revert i. induction fuel as [|fuel IH]; intros i; cbn [forget_within]; branches. Qed.
Lemma moved_forget i : moved (forget i).
Proof. intros w. apply moved_forget_within. Qed.
#[local] Hint Resolve moved_forget : steps.

Lemma stepped_prepare secret o : stepped (prepare_outgoing sha256 path_text secret o).
Proof. unfold prepare_outgoing. apply stepped_bind; [apply stepped_runtime|]. intros m. branches. Qed.
#[local] Hint Resolve stepped_prepare : steps.
Lemma moved_record_sent : forall o, moved (record_sent o).
Proof.
  fix IH 1. intros [m d path [p|]] w; cbn [record_sent]; [|reached w]. apply then_moved; [|apply moved_slots].
  apply then_moved; [reached w|apply IH].
Qed.
#[local] Hint Resolve moved_record_sent : steps.
Lemma stepped_published {A E} o (publication : result E A) : stepped (record_published o publication).
Proof. unfold record_published. branches. Qed.
Lemma stepped_attach secret preview o : stepped (attach_preview sha256 path_text secret preview o).
Proof. unfold attach_preview. branches. Qed.
Lemma stepped_check o : stepped (check_offer o).
Proof. unfold check_offer. branches. Qed.
#[local] Hint Resolve stepped_published stepped_attach stepped_check : steps.
Lemma stepped_offer secret secret' o preview : stepped (prepare_offer sha256 path_text secret secret' o preview).
Proof. unfold prepare_offer. apply stepped_bind; [apply stepped_lift|]. eauto 12 with steps. Qed.

Lemma stepped_accept m : stepped (accept_manifest m).
Proof. unfold accept_manifest, m_bind. branches. Qed.
#[local] Hint Resolve stepped_accept : steps.
Lemma stepped_cached d : stepped (cached_valid sha256 d).
Proof.
  intros w. unfold cached_valid. destruct (Files.path_for _ _) as [p|]; [|reached w].
  pose proof (reads_open_read p (files w)) as [Hd Hl].
  destruct ((b <~ Files.file_open p;; Files.call (fun d => d) Files.kept_all;;; m_ret b) (files w)) as [f [b|e]];
    [|by apply then_looked].
  destruct (negb _); [by apply then_looked|]. pose proof (reads_call f) as [Hd' Hl'].
  destruct (Files.call _ _ f) as [f' [u|e]]; cbn in *; apply then_looked; congruence || reached w.
Qed.
#[local] Hint Resolve stepped_cached : steps.
Lemma moved_restore_cached d dir : moved (restore_cached sha256 path_text d dir).
Proof. unfold restore_cached. branches. Qed.
#[local] Hint Resolve moved_restore_cached : steps.
Lemma moved_restore_stored d dir m : moved (restore_stored sha256 path_text d dir m).
Proof. unfold restore_stored. branches. Qed.
#[local] Hint Resolve moved_restore_stored : steps.
Lemma stepped_install parent m dir : stepped (install_preview sha256 path_text parent m dir).
Proof. unfold install_preview. branches. Qed.
#[local] Hint Resolve stepped_install : steps.
Lemma stepped_accept_offer o : stepped (accept_offer sha256 path_text o).
Proof. unfold accept_offer. branches. Qed.
Lemma moved_restore_preview o dir : moved (restore_preview sha256 hex_decode path_text o dir).
Proof. unfold restore_preview. branches. Qed.

Lemma stepped_flush_batches env batches : stepped (flush_batches env batches).
Proof. induction batches as [|[i frames] batches IH]; cbn [flush_batches]; branches. Qed.
#[local] Hint Resolve stepped_flush_batches : steps.
Lemma stepped_flush env : stepped (flush_checkpoints env).
Proof. unfold flush_checkpoints. branches. Qed.
#[local] Hint Resolve stepped_flush : steps.
Lemma stepped_checkpoint env f : stepped (checkpoint_frame env f).
Proof. unfold checkpoint_frame. branches. Qed.
#[local] Hint Resolve stepped_checkpoint : steps.
Lemma stepped_bind_admission env id m : stepped (bind_user_admission env id m).
Proof. unfold bind_user_admission, m_bind, m_lift. branches. Qed.
#[local] Hint Resolve stepped_bind_admission : steps.
Lemma stepped_bind_download env i id : stepped (bind_download_admission env i id).
Proof. unfold bind_download_admission, m_bind. branches. Qed.
Lemma stepped_cancel_execution env i : stepped (cancel_execution env i).
Proof. unfold cancel_execution. branches. Qed.
Lemma stepped_cancel env i : stepped (cancel env i).
Proof. unfold cancel. apply stepped_bind; [reached w|]. intros _. apply stepped_bind; eauto using stepped_cancel_execution with steps. Qed.
Lemma stepped_start env i : stepped (start_download env i).
Proof. unfold start_download. branches. Qed.
#[local] Hint Resolve stepped_start : steps.

Lemma stepped_ingest_chunk f : stepped (ingest_chunk chunk_decrypt sha256 f).
Proof. apply stepped_runtime. Qed.
#[local] Hint Resolve stepped_ingest_chunk : steps.
Lemma stepped_replay m i frames : stepped (replay_frames chunk_decrypt sha256 path_text m i frames).
Proof. induction frames as [|f frames IH]; cbn [replay_frames]; unfold m_bind, m_ret; branches. Qed.
#[local] Hint Resolve stepped_replay : steps.
Lemma stepped_restore_record env id i m : stepped (restore_record chunk_decrypt sha256 path_text env id i m).
Proof. unfold restore_record, m_bind, m_lift. branches. Qed.
#[local] Hint Resolve stepped_restore_record : steps.
Lemma moved_restore_records env records : moved (restore_records chunk_decrypt sha256 path_text env records).
Proof. induction records as [|r records IH]; cbn [restore_records]; branches. Qed.
#[local] Hint Resolve moved_restore_records : steps.
Lemma moved_restore_checkpoints env : moved (restore_execution_checkpoints chunk_decrypt sha256 path_text env).
Proof. unfold restore_execution_checkpoints. branches. Qed.
#[local] Hint Resolve moved_restore_checkpoints : steps.
Lemma admit_records_serving c l : serving (foldl admit_record c l) = serving c.
Proof.
  revert c. induction l as [|r l IH]; intros c; [done|]. cbn. rewrite IH. unfold admit_record.
  by destruct (UserTransfers.t_attachment_id r).
Qed.
Lemma moved_attach env t id : moved (attach_execution chunk_decrypt sha256 path_text env t id).
Proof.
  unfold attach_execution. destruct (conversation_kind t); [|intros w; reached w]. intros w. cbv zeta.
  apply then_moved; [|apply moved_restore_checkpoints]. apply then_upd; [reached w|done|]. intros t' _ c [= <-].
  destruct (UserTransfers.user_transfers (base w)); rewrite ?admit_records_serving; apply no_serving_ok.
Qed.

Lemma moved_retry env i : moved (retry_preview env i).
Proof. unfold retry_preview. branches. Qed.
Lemma moved_queue env i : moved (queue_completion env i).
Proof.
  intros w. unfold queue_completion. destruct (is_preview _ _); [reached w|].
  destruct (t_execution (own w)) as [c|] eqn:Hc; [|reached w]. destruct (tokens _ !! _) as [tok|]; [|reached w].
  eapply then_execution; [apply rtc_refl|exact Hc|]. intros [H1 H2 H3 H4]. split; cbn; try done.
  apply map_Forall_insert_2; [|done]. by split; [|vm_compute].
Qed.
#[local] Hint Resolve moved_retry moved_queue : steps.
Lemma stepped_finish env i h name b : stepped (finish_download sha256 path_text env i h name b).
Proof. unfold finish_download. branches. Qed.
#[local] Hint Resolve stepped_finish : steps.
Lemma stepped_ingest env f : stepped (ingest chunk_decrypt sha256 path_text env f).
Proof. unfold ingest, m_bind. branches. Qed.

Lemma moved_schedule_loop env waiting available : moved (schedule_loop env waiting available).
Proof. revert available. induction waiting as [|n IH]; intros available; cbn [schedule_loop]; branches. Qed.
#[local] Hint Resolve moved_schedule_loop : steps.
Lemma moved_schedule env : moved (schedule_previews env).
Proof. unfold schedule_previews. branches. Qed.
Lemma stepped_request_loop env l : stepped (request_loop env l).
Proof. induction l as [|i l IH]; cbn [request_loop]; branches. Qed.
Lemma stepped_decorate env l : stepped (decorate_requests env l).
Proof.
  intros w. unfold decorate_requests. destruct (t_execution (own w)) as [c|] eqn:Hc; [|reached w].
  destruct (decorate_each _ _ _ _) as [toks l1]. cbn [fst]. eapply then_execution; [apply rtc_refl|exact Hc|].
  intros [H1 H2 H3 H4]. split; cbn; [done|done| |lia]. intros i x. rewrite lookup_fmap.
  destruct (receipts (serving c) !! i) as [y|] eqn:Hy; [|done]. intros [= <-]. destruct (H3 _ _ Hy) as [Hx Ha].
  unfold receipt_sent, receipt_due. destruct (N.ltb_spec y.2 RECEIPT_ATTEMPTS); cbn; [|done].
  destruct (_ <=? _)%N; cbn; [|done]. split; [done|lia].
Qed.
#[local] Hint Resolve moved_schedule stepped_request_loop stepped_decorate : steps.
Lemma stepped_next_requests env : stepped (next_requests env).
Proof. unfold next_requests. branches. Qed.
Lemma stepped_cached_range d start stop : stepped (cached_range d start stop).
Proof.
  intros w. unfold cached_range. destruct (Files.path_for _ _) as [p|]; [|reached w].
  pose proof (reads_open_read p (files w)) as [Hd Hl].
  destruct ((b <~ Files.file_open p;; Files.call (fun d => d) Files.kept_all;;; m_ret b) (files w)) as [f [b|e]];
    [|by apply then_looked].
  destruct (negb _); [by apply then_looked|]. pose proof (reads_two f) as [Hd' Hl'].
  destruct ((Files.call _ _;;; Files.call _ _) f) as [f' [u|e]]; cbn in *; apply then_looked; congruence || reached w.
Qed.
#[local] Hint Resolve stepped_cached_range : steps.
Lemma stepped_stream env i start stop : stepped (stream_range env i start stop).
Proof. unfold stream_range. branches. Qed.

End Walks.

(** ** Invariants of the shared parts *)

Section Shared.
Context {aes : Aes} {rows : RowJson}.
Variable sha256 : bytes -> bytes.
Variable cleaning : Prop.

Lemma retain_lease_cases d w : retain_lease d w = (w, Ok false) /\ is_Some (held_leases (own w) !! Messages.attachment_id d) \/
  (exists e, retain_lease d w = (w, Err e)) \/
  exists p, held_leases (own w) !! Messages.attachment_id d = None /\
    Files.path_for (Messages.d_content_hash d) (Messages.file_name d) = Ok p /\
    retain_lease d w =
      ({| own := set_held (<[ Messages.attachment_id d := (Messages.d_content_hash d, Messages.file_name d) ]> (held_leases (own w))) (own w);
          files := Files.set_leases (<[ p := (default 0 (Files.leases (files w) !! p) + 1)%N ]> (Files.leases (files w))) (files w);
          base := base w |}, Ok true).
Proof.
  unfold retain_lease. case_bool_decide as Hh; [by left|right]. unfold m_bind, on_files, Files.retain, m_bind, m_lift.
  destruct (Files.path_for _ _) as [p|e]; cbn.
  - right. exists p. split; [by apply eq_None_not_Some|]. done.
  - left. exists (Bytes (Files.display_error e)). by destruct w.
Qed.

(** *** Finished files *)

Lemma step_file_step w w' : step sha256 cleaning w w' ->
  Files.file_step sha256 (files w) (files w') \/ Files.disk (files w') = Files.disk (files w).
Proof.
  destruct 1 as [t w Ht|b w|f w Hd Hl|h n b w|d w|i w|a store w Hc Hs]; try (right; done).
  - left. apply Files.Wrote.
  - right. by destruct (retain_lease_cases d w) as [[-> _]|[[e ->]|(p & _ & _ & ->)]].
  - right. unfold release_lease. destruct (held_leases (own w) !! i) as [[h n]|]; [|done]. cbn. unfold Files.release.
    by repeat case_match.
  - left. unfold clean_erased. destruct (Files.remove_if_unused _ _ _ (files w)) as [f r] eqn:E.
    change f with (f, r).1. rewrite <- E. apply Files.Collected.
Qed.

Lemma step_addressed w w' : step sha256 cleaning w w' -> Files.addressed sha256 (files w) -> Files.addressed sha256 (files w').
Proof.
  intros [H|H]%step_file_step Ha; [by eapply Files.file_step_addressed|]. intros p b Hp. rewrite H in Hp. by apply Ha.
Qed.

(** *** Leases *)

Definition lease_at (p : Files.Path) (x : string * string) : bool :=
  match Files.path_for x.1 x.2 with Ok q => bool_decide (q = p) | Err _ => false end.
(** How many of its attachments this conversation keeps at a path. *)
Definition own_count (p : Files.Path) (t : Transfer) : N :=
  N.of_nat (size (filter (fun kv => lease_at p kv.2 = true) (held_leases t))).
(** The store counts this conversation's leases and everybody else's. *)
Definition counted (others : Files.Path -> N) (w : World) : Prop :=
  (forall p, default 0 (Files.leases (files w) !! p) = own_count p (own w) + others p)%N /\
  (forall p n, Files.leases (files w) !! p = Some n -> (0 < n)%N).

Lemma own_count_insert p i x t : held_leases t !! i = None ->
  own_count p (set_held (<[ i := x ]> (held_leases t)) t) = ((if lease_at p x then 1 else 0) + own_count p t)%N.
Proof.
  intros Hi. unfold own_count. cbn [held_leases set_held]. rewrite map_filter_insert. cbn.
  destruct (lease_at p x); cbn.
  - rewrite decide_True, map_size_insert_None by (done || (apply map_lookup_filter_None; by left)). lia.
  - rewrite decide_False by done. by rewrite delete_id.
Qed.
Lemma own_count_delete p i x t : held_leases t !! i = Some x ->
  own_count p t = ((if lease_at p x then 1 else 0) + own_count p (set_held (delete i (held_leases t)) t))%N.
Proof.
  intros Hi. rewrite <- (own_count_insert p i x (set_held (delete i (held_leases t)) t)) by apply lookup_delete_eq.
  unfold own_count. cbn [held_leases set_held].
  by rewrite insert_delete_id.
Qed.

Lemma step_counted others w w' : step sha256 cleaning w w' -> counted others w -> counted others w'.
Proof.
  destruct 1 as [t w Ht|b w|f w Hd Hl|h n b w|d w|i w|a store w Hc Hs]; intros [Hn Hp].
  - split; [|done]. intros p. cbn. rewrite Hn. unfold own_count. by rewrite Ht.
  - done.
  - split; cbn; rewrite Hl; done.
  - assert (Hl : Files.leases (Files.write_blob sha256 h n b (files w)).1 = Files.leases (files w)).
    { destruct (Files.write_blob sha256 h n b (files w)) as [f [p|e]] eqn:E; apply Files.write_blob_spec in E; [|by destruct E].
      by destruct E as (_ & _ & _ & ? & _). }
    split; cbn; rewrite Hl; done.
  - destruct (retain_lease_cases d w) as [[-> _]|[[e ->]|(p & Hh & Hpath & ->)]]; [done..|]. split; cbn.
    + intros q. rewrite own_count_insert by done. unfold lease_at. cbn [fst snd]. rewrite Hpath, lookup_insert.
      case_bool_decide as Hq; [subst q|]; rewrite ?decide_True, ?decide_False by done; cbn; rewrite Hn; lia.
    + intros q k. rewrite lookup_insert. case_decide; [intros [= <-]; lia|apply Hp].
  - unfold release_lease. destruct (held_leases (own w) !! i) as [[h n]|] eqn:Hi; [|done].
    pose proof (fun q => own_count_delete q i (h, n) (own w) Hi) as Hdel. unfold lease_at in Hdel. cbn [fst snd] in Hdel.
    unfold Files.release. destruct (Files.path_for h n) as [p|e]; [|split; [|done]; intros q; cbn; by rewrite Hn, Hdel].
    assert (H1 : (0 < own_count p (own w))%N) by (rewrite Hdel, bool_decide_true by done; lia).
    destruct (Files.leases (files w) !! p) as [k|] eqn:Hk; [|exfalso; specialize (Hn p); rewrite Hk in Hn; cbn in Hn; lia].
    pose proof (Hp _ _ Hk) as Hk0. pose proof (Hn p) as Hnp. rewrite Hk in Hnp. cbn in Hnp.
    destruct (N.eqb_spec (k - 1) 0) as [Hz|Hz]; (split; cbn; [intros q|intros q m]).
    + rewrite lookup_delete. specialize (Hn q). rewrite Hdel in Hn. destruct (decide (p = q)) as [<-|Hq];
        rewrite ?bool_decide_true, ?bool_decide_false in Hn by (done || congruence); cbn; [|lia].
      rewrite Hdel, bool_decide_true in Hnp by done. lia.
    + rewrite lookup_delete. case_decide; [done|apply Hp].
    + rewrite lookup_insert. specialize (Hn q). rewrite Hdel in Hn. destruct (decide (p = q)) as [<-|Hq];
        rewrite ?bool_decide_true, ?bool_decide_false in Hn by (done || congruence); cbn; [|lia].
      rewrite Hdel, bool_decide_true in Hnp by done. lia.
    + rewrite lookup_insert. case_decide; [intros [= <-]; lia|apply Hp].
  - unfold clean_erased. destruct (Files.remove_if_unused _ _ _ (files w)) as [f r] eqn:E.
    apply Files.remove_if_unused_spec in E as [Hl _]. split; cbn; rewrite Hl; done.
Qed.

(** *** Removal *)

Lemma step_keeps w w' p : step sha256 cleaning w w' -> is_Some (Files.disk (files w) !! p) -> ~ Files.partial p ->
  is_Some (Files.disk (files w') !! p) \/
  cleaning /\ Files.leases (files w) !! p = None.
Proof.
  intros Hs [b Hb] Hn. destruct Hs as [t w Ht|b' w|f w Hd Hl|h n b' w|d w|i w|a store w Hc Hs]; cbn; try (left; by exists b).
  - left. rewrite Hd. by exists b.
  - left. destruct (Files.write_blob sha256 h n b' (files w)) as [f [q|e]] eqn:E; apply Files.write_blob_spec in E; cbn.
    + destruct E as (_ & _ & Hq & _ & Ho). destruct (decide (p = q)) as [->|Hne]; [by rewrite Hq|].
      rewrite Ho; [by exists b|done|]. intros ->. apply Hn, Files.temp_partial.
    + destruct E as [_ Ho]. rewrite Ho; [by exists b|]. intros q _ ->. apply Hn, Files.temp_partial.
  - left. by destruct (retain_lease_cases d w) as [[-> _]|[[e ->]|(q & _ & _ & ->)]]; exists b.
  - left. unfold release_lease. destruct (held_leases (own w) !! i) as [[h n]|]; [|by exists b]. cbn. unfold Files.release.
    repeat case_match; by exists b.
  - unfold clean_erased. destruct (Files.remove_if_unused _ _ _ (files w)) as [f r] eqn:E.
    apply Files.remove_if_unused_spec in E as [_ [Hd|(q & Hq & Hl & Hr & Hd & ->)]]; cbn; rewrite Hd; [left; by exists b|].
    destruct (decide (q = p)) as [->|Hne]; [by right|left]. rewrite lookup_delete_ne by done. by exists b.
Qed.

End Shared.

Section Cleaning.
Context {aes : Aes} {rows : RowJson}.

(** The rows that can refer to a file are read the same. *)
Definition same_history (s s' : Store.Persistence) : Prop :=
  forall t, t ∈ Files.referring_tables -> p_list_rows t s' = p_list_rows t s.
#[local] Instance same_history_preorder : PreOrder same_history.
Proof. split; [by intros s t|]. intros s1 s2 s3 H H' t Ht. by rewrite H', H. Qed.

Lemma same_history_reference p s s' : same_history s s' -> Files.stored_reference p s' -> Files.stored_reference p s.
Proof. intros H (t & l & kv & Ht & Hl & Hr). exists t, l, kv. by rewrite <- H. Qed.

Lemma gc_done_history k s : same_history s (complete_attachment_gc k s).1.
Proof.
  intros t Ht. assert (Hne : ATTACHMENT_GC <> t) by (intros <-; revert Ht; apply (bool_decide_eq_false_1 (_ ∈ _)); by vm_compute).
  unfold complete_attachment_gc, transact, t_update, write. cbn.
  destruct (head (outcomes s)) as [[]|]; cbn; unfold p_list_rows, list_rows, begin_read; cbn; try done;
    destruct (read_fault s); cbn; try done; unfold table_of; by rewrite lookup_insert_ne.
Qed.

(** A file that a collection removed: nobody held it and no stored row refers to it. *)
Definition unneeded (p : Files.Path) (w : World) : Prop :=
  Files.leases (files w) !! p = None /\ ~ Files.stored_reference p (base w).

Lemma collect_step k a records w : exists w', collect_rows ((k, a) :: records) w = collect_rows records w' /\
  Files.leases (files w') = Files.leases (files w) /\ same_history (base w) (base w') /\
  (Files.disk (files w') = Files.disk (files w) \/
   exists q, Files.disk (files w') = delete q (Files.disk (files w)) /\ unneeded q w).
Proof.
  cbn [collect_rows]. cbv zeta. set (w1 := upd (set_gc_after (Some k)) w). unfold clean_erased.
  destruct (Files.remove_if_unused _ _ _ (files w1)) as [f r] eqn:E.
  apply Files.remove_if_unused_spec in E as [Hl Hd]. set (w2 := set_files f w1).
  assert (H2 : Files.disk f = Files.disk (files w) \/ exists q, Files.disk f = delete q (Files.disk (files w)) /\ unneeded q w).
  { destruct Hd as [Hd|(q & Hq & Hn & Hr & Hd & _)]; [by left|right]. exists q. split; [done|]. split; [done|].
    apply map_err_Ok in Hr. intros Href. by apply (Files.referenced_exact _ _ _ _ _ Hq Hr) in Href. }
  destruct r as [[]|e].
  - exists (on_base (complete_attachment_gc k) w2).1. split; [done|]. unfold on_base.
    pose proof (gc_done_history k (base w2)) as Hg. destruct (complete_attachment_gc k (base w2)) as [b r]. done.
  - by exists w2.
  - by exists w2.
Qed.

Lemma collect_rows_removes records w p : is_Some (Files.disk (files w) !! p) ->
  is_Some (Files.disk (files (collect_rows records w)) !! p) \/ unneeded p w.
Proof.
  revert w. induction records as [|[k a] records IH]; intros w Hb; [by left|].
  destruct (collect_step k a records w) as (w' & -> & Hl & Hh & Hd).
  assert (Hcase : is_Some (Files.disk (files w') !! p) \/ unneeded p w).
  { destruct Hd as [->|(q & -> & Hq)]; [by left|]. destruct (decide (q = p)) as [->|Hne]; [by right|left].
    by rewrite lookup_delete_ne. }
  destruct Hcase as [Hc|]; [|by right]. destruct (IH w' Hc) as [|[Hn Hr]]; [by left|right]. split; [by rewrite <- Hl|].
  intros H. apply Hr. revert H. apply same_history_reference. intros t Ht. symmetry. by apply Hh.
Qed.

(** C21. Cleaning up after erased messages loses nothing that is needed: a file
    that a collection of the queue removes was leased by nobody, in this
    conversation or another, and no stored message, preview or unsent message
    of the history referred to it. *)
Theorem collection_safe w p : is_Some (Files.disk (files w) !! p) -> Files.disk (files (collect_erased_cache w)) !! p = None ->
  Files.leases (files w) !! p = None /\ ~ Files.stored_reference p (base w).
Proof.
  intros Hb Hn. unfold collect_erased_cache in Hn. destruct (attachment_gc _ _) as [l|e]; [|rewrite Hn in Hb; by destruct Hb].
  destruct (collect_rows_removes l (if bool_decide (l = []) then upd (set_gc_after None) w else w) p) as [[b Hs]|Hu].
  - by case_bool_decide.
  - by rewrite Hn in Hs.
  - by case_bool_decide.
Qed.

End Cleaning.

(** ** Downloads *)

Section Downloads.
Context {aes : Aes} {rows : RowJson} {scheme : Devices.Ed25519} {json : DeletionJson} {json' : ErasureJson}.
Context {record_codec : RowCodec UserTransfers.TransferRecord} {current_codec : RowCodec UserTransfers.Current}
        {chunk_codec : RowCodec ChunkFrame}.
Variable chunk_decrypt : bytes -> bytes -> bytes -> result string bytes.
Variable sha256 : bytes -> bytes.
Variable path_text : Files.Path -> string.

Lemma ingest_complete f r r' i h b :
  Attachments.ingest_chunk chunk_decrypt sha256 b64_decode f r = (r', Ok (Attachments.CompleteO i h b)) ->
  exists t, Attachments.incoming r !! Attachments.cf_attachment_id f = Some t /\
    N.of_nat (length b) = Attachments.total_size (Attachments.manifest t) /\
    Attachments.sha256_hex sha256 b = Attachments.content_hash (Attachments.manifest t) /\
    h = Attachments.content_hash (Attachments.manifest t).
Proof.
  unfold Attachments.ingest_chunk. destruct (Attachments.incoming r !! _) as [t|]; [|done].
  destruct (decide _); [done|]. destruct (_ <=? _)%N; [done|]. destruct (Attachments.held _ _); [done|].
  destruct (b64_decode _) as [ct|]; [|done]. destruct (Attachments.decrypt_chunk _ _ _ _ _) as [pt|]; [|done].
  destruct (negb _); [done|]. destruct (negb _); [done|]. unfold Attachments.complete.
  set (A := concat _). destruct (N.eqb_spec (N.of_nat (length A)) (Attachments.total_size (Attachments.manifest
    (Attachments.set_chunks (<[Attachments.chunk_index f:=pt]> (Attachments.chunks t)) t)))) as [Hl|]; cbn [negb]; [|done].
  destruct (String.eqb_spec (Attachments.sha256_hex sha256 A) (Attachments.content_hash (Attachments.manifest
    (Attachments.set_chunks (<[Attachments.chunk_index f:=pt]> (Attachments.chunks t)) t)))) as [Hh|]; cbn [negb]; [|done].
  intros [= _ _ <- <-]. by exists t.
Qed.

(** What a successful save leaves alone: everything but the execution's batches. *)
Definition same_but_execution (t t' : Transfer) : Prop :=
  t' = set_execution (t_execution t') t /\
  match t_execution t, t_execution t' with
  | Some c, Some c' => admissions c' = admissions c /\ serving c' = serving c /\ e_error c' = e_error c
  | None, None => True
  | _, _ => False
  end.
#[local] Instance same_but_execution_preorder : PreOrder same_but_execution.
Proof.
  split.
  - intros t. unfold same_but_execution. split; [by destruct t|]. by destruct (t_execution t).
  - intros t1 t2 t3 [H1 H2] [H3 H4]. split; [rewrite H3, H1; done|].
    destruct (t_execution t1), (t_execution t2), (t_execution t3); try done. intuition congruence.
Qed.

Lemma on_base_own {A} (m : method Store.Persistence PersistenceError A) w : own (on_base m w).1 = own w /\ files (on_base m w).1 = files w.
Proof. unfold on_base. by destruct (m (base w)). Qed.

Lemma flush_batches_Ok env batches w w' : flush_batches env batches w = (w', Ok tt) -> own w' = own w /\ files w' = files w.
Proof.
  revert w. induction batches as [|[i frames] batches IH]; intros w; cbn [flush_batches]; [by intros [= <-]|].
  destruct (admission_of i (own w)) as [a|]; [|by apply IH].
  pose proof (on_base_own (UserTransfers.save_user_transfer_chunks (a_id a) frames (now_ms env)) w) as [Ho Hf].
  destruct (on_base _ w) as [w1 [u|e]]; [|done]. intros [-> ->]%IH. done.
Qed.
Lemma flush_checkpoints_Ok env w w' : flush_checkpoints env w = (w', Ok tt) ->
  same_but_execution (own w) (own w') /\ files w' = files w /\ forall c, t_execution (own w') = Some c -> checkpoints c = ∅.
Proof.
  unfold flush_checkpoints. destruct (t_execution (own w)) as [c|] eqn:Hc.
  - intros [Ho Hf]%flush_batches_Ok. rewrite Ho, Hf. cbn. rewrite Hc. cbn. split; [|split; [done|by intros ? [= <-]]].
    unfold same_but_execution. cbn. rewrite Hc. done.
  - intros [= <-]. split; [done|]. split; [done|]. by rewrite Hc.
Qed.
Lemma checkpoint_Ok env f w w' : checkpoint_frame env f w = (w', Ok tt) -> same_but_execution (own w) (own w') /\ files w' = files w.
Proof.
  unfold checkpoint_frame. destruct (t_execution (own w)) as [c|] eqn:Hc; [|by intros [= <-]].
  destruct (admission_of _ _) as [a|]; [|by intros [= <-]]. set (w1 := upd_execution _ w).
  assert (H1 : same_but_execution (own w) (own w1)) by (unfold same_but_execution; cbn; by rewrite Hc).
  destruct (_ <=? _); [|by intros [= <-]]. intros (H2 & Hf & _)%flush_checkpoints_Ok. split; [by etrans|done].
Qed.

Lemma retry_slots env i w : slots (own (retry_preview env i w)) = slots (own w).
Proof. unfold retry_preview. destruct (_ && _); [|done]. by destruct (Attachments.manifest_of _ _). Qed.
Lemma queue_own env i w : files (queue_completion env i w) = files w /\ slots (own (queue_completion env i w)) = slots (own w) /\
  checkpoints <$> t_execution (own (queue_completion env i w)) = checkpoints <$> t_execution (own w).
Proof.
  unfold queue_completion. destruct (is_preview _ _); [done|]. destruct (t_execution (own w)) as [c|] eqn:Hc; [|by rewrite Hc].
  destruct (tokens _ !! _); cbn; by rewrite Hc.
Qed.

Definition slot_path (i : string) (w : World) : option string := slots (own w) !! i ≫= Slots.local_path.
Lemma slot_path_fail i w : slot_path i (upd_slots (Slots.fail i) w) = slot_path i w.
Proof. unfold slot_path. cbn. unfold Slots.fail. rewrite lookup_alter_eq. by destruct (slots (own w) !! i). Qed.


End Downloads.

(** ** Requests *)

Section Requests.
Context {aes : Aes} {rows : RowJson} {scheme : Devices.Ed25519} {json : DeletionJson} {json' : ErasureJson}.
Context {record_codec : RowCodec UserTransfers.TransferRecord} {current_codec : RowCodec UserTransfers.Current}
        {chunk_codec : RowCodec ChunkFrame}.

Lemma next_request_id i n budget r r' q :
  Attachments.next_chunk_request_with_budget_at i n budget r = (r', Some q) -> Attachments.cr_attachment_id q = i.
Proof.
  unfold Attachments.next_chunk_request_with_budget_at. destruct (Attachments.incoming r !! i) as [t|]; [|done].
  destruct (_ || _); [done|]. destruct (Attachments.request_indices _ _ _) as [t' l]. case_bool_decide; [done|].
  by intros [= _ <-].
Qed.

Lemma request_loop_own env l w w' qs : request_loop env l w = (w', qs) ->
  own w' = set_table (slots (own w)) (runtime (own w')) (own w) /\ files w' = files w /\
  map rq_attachment qs `sublist_of` l.
Proof.
  revert w w' qs. induction l as [|i l IH]; intros w w' qs; cbn [request_loop].
  { intros [= <- <-]. split; [by destruct (own w)|]. split; [done|constructor]. }
  destruct (Attachments.next_chunk_request_with_budget_at _ _ _ _) as [r o] eqn:Eo.
  destruct (request_loop env l _) as [w1 l1] eqn:E1. apply IH in E1 as (Ho & Hf & Hs). intros [= <- <-].
  split; [exact Ho|]. split; [done|]. destruct o as [q|]; cbn; [|by constructor].
  unfold rq_attachment at 1. cbn. rewrite (next_request_id _ _ _ _ _ _ Eo). by constructor.
Qed.

Lemma decorate_each_ids env c toks l : map rq_attachment (decorate_each env c toks l).2 = map rq_attachment l.
Proof.
  revert toks. induction l as [|q l IH]; intros toks; [done|]. cbn [decorate_each].
  pose proof (IH (<[ rq_attachment q := default (request_token env c (rq_attachment q)) (toks !! rq_attachment q) ]> toks)) as H.
  destruct (decorate_each env c _ l) as [toks' l']. cbn in *. by rewrite H.
Qed.

(** What may be downloaded depends on the previews, the admissions and the
    execution's error. *)
Definition granting (t : Transfer) : gmap string Manifest * option (gmap string Admission * option string) :=
  (previews t, (fun c => (admissions c, e_error c)) <$> t_execution t).
Lemma may_download_granting env i t t' : granting t' = granting t -> may_download env i t' = may_download env i t.
Proof.
  unfold granting, may_download, execution_allowed, is_preview. intros [= Hp He]. rewrite Hp.
  destruct (t_execution t) as [c|], (t_execution t') as [c'|]; try done. injection He as -> ->. done.
Qed.

Lemma decorate_own env l w w' l' : decorate_requests env l w = (w', l') ->
  granting (own w') = granting (own w) /\ slots (own w') = slots (own w) /\
  exists asked notices, l' = asked ++ notices /\ map rq_attachment asked = map rq_attachment l /\
    forall q, q ∈ notices -> exists c, t_execution (own w) = Some c /\
      (q ∈ replies (serving c) \/ exists i x, receipts (serving c) !! i = Some x /\ x.1.1 = q /\ (x.2 < RECEIPT_ATTEMPTS)%N).
Proof.
  unfold decorate_requests. destruct (t_execution (own w)) as [c|] eqn:Hc.
  - pose proof (decorate_each_ids env c (tokens (serving c)) l) as Hids.
    destruct (decorate_each env c _ l) as [toks l1]. intros [= <- <-]. unfold granting. cbn. rewrite Hc. split; [done|].
    split; [done|]. eexists l1, _. split; [done|]. split; [done|]. intros q. rewrite elem_of_app. intros Hq. exists c.
    split; [done|]. destruct Hq as [Hq|Hq]; [by left|right]. apply list_elem_of_omap in Hq as ([i x] & Hin & Hd).
    cbn in Hd. unfold receipt_due in Hd. destruct (N.ltb_spec x.2 RECEIPT_ATTEMPTS); [|done]. cbn in Hd.
    destruct (_ <=? _)%N; [|done]. injection Hd as <-. exists i, x. split; [by apply elem_of_map_to_list|done].
  - intros [= <- <-]. split; [done|]. split; [done|]. exists l, []. rewrite app_nil_r. split; [done|]. split; [done|].
    by intros q ?%not_elem_of_nil.
Qed.

Lemma start_download_own env i w w' r : start_download env i w = (w', r) ->
  granting (own w') = granting (own w) /\ serving <$> t_execution (own w') = serving <$> t_execution (own w) /\
  (slots (own w') = slots (own w) /\ is_ok r = false \/
   r = Ok tt /\ exists slot, slots (own w) !! i = Some slot /\ slots (own w') = <[ i := Slots.set_flags true false false slot ]> (slots (own w))) /\
  pending_previews (own w') = pending_previews (own w).
Proof.
  unfold start_download. destruct (require_download_admission env i w) as [u|e];
    [|intros [= <- <-]; (split; [done|]); (split; [done|]); split; [by left|done]].
  unfold on_table. destruct (Slots.start_download i _) as [[ss rt] o] eqn:E. apply Slots.request_whole in E.
  intros [= <- <-]. split; [done|]. split; [done|]. split; [|done]. cbn.
  destruct E as [[Ho [= -> ->]]|(-> & slot & t & Hs & _ & Hss & _)]; [left|right].
  - split; [done|]. by destruct o.
  - cbn in Hss. rewrite Hss. split; [done|by exists slot].
Qed.

Lemma schedule_loop_own env waiting available w : let w' := schedule_loop env waiting available w in
  granting (own w') = granting (own w) /\ serving <$> t_execution (own w') = serving <$> t_execution (own w).
Proof.
  revert available w. induction waiting as [|n IH]; intros available w; [done|]. cbn [schedule_loop].
  destruct (pending_previews (own w)) as [|i rest]; [done|]. cbv zeta.
  set (w0 := upd (set_pending rest) w). destruct (negb _); [exact (IH available w0)|].
  destruct (_ || _); [exact (IH available (upd (set_pending (rest ++ [i])) w0))|].
  destruct (start_download env i _) as [w1 [[]|e]] eqn:E; apply start_download_own in E as (Hg & Hs & _);
    match goal with |- granting (own (schedule_loop env n ?a ?x)) = _ /\ _ => destruct (IH a x) as [Hg' Hs'] end;
    rewrite Hg', Hs'; (split; [exact Hg|exact Hs]).
Qed.
Lemma schedule_own env w : granting (own (schedule_previews env w)) = granting (own w) /\
  serving <$> t_execution (own (schedule_previews env w)) = serving <$> t_execution (own w).
Proof. unfold schedule_previews. destruct (negb _); [done|]. apply schedule_loop_own. Qed.

(** Nothing is asked for that may not be downloaded: every request of a turn
    is for a different attachment whose bytes the user still wants and whose
    download the platform or a grant of the operating system allows now; what
    goes out besides are answers and receipts that were waiting, a receipt
    at most six times. *)
Theorem requests_granted env w w' l (Hn : next_requests env w = (w', l)) :
  exists asked notices, l = asked ++ notices /\ NoDup (map rq_attachment asked) /\
    (forall q, q ∈ asked -> may_download env (rq_attachment q) (own w') = true /\
       exists s, slots (own w') !! rq_attachment q = Some s /\ Slots.awaiting s = true) /\
    (forall q, q ∈ notices -> exists c, t_execution (own w) = Some c /\
       (q ∈ replies (serving c) \/ exists i x, receipts (serving c) !! i = Some x /\ x.1.1 = q /\ (x.2 < RECEIPT_ATTEMPTS)%N)).
Proof.
  revert Hn. unfold next_requests. destruct (flush_checkpoints env w) as [w1 [[]|e]] eqn:E1.
  2:{ intros [= <- <-]. exists [], []. cbn. split; [done|]. split; [constructor|].
      split; by intros q ?%not_elem_of_nil. }
  apply flush_checkpoints_Ok in E1 as ([_ He1] & _). destruct (schedule_own env w1) as [Hg2 Hs2].
  set (w2 := schedule_previews env w1) in *. cbv zeta.
  set (awaiting := filter _ _). set (sorted := sort_by_key _ _ awaiting).
  destruct (request_loop env sorted w2) as [w3 l3] eqn:E3. apply request_loop_own in E3 as (Ho3 & _ & Hsub).
  intros (Hg4 & Hs4 & asked & notices & -> & Hids & Hnot)%decorate_own. exists asked, notices. split; [done|].
  destruct (Slots.awaiting_exact (slots (own w2))) as (Hnd & Hin & _).
  assert (Hp : sorted ≡ₚ awaiting) by apply sort_by_key_perm.
  assert (Hg : granting (own w') = granting (own w2)) by (rewrite Hg4, Ho3; done).
  assert (Hs : slots (own w') = slots (own w2)) by (rewrite Hs4, Ho3; done).
  split; [|split].
  - rewrite Hids. eapply sublist_NoDup; [|exact Hsub]. rewrite Hp. by apply NoDup_filter.
  - intros q Hq. assert (Hq' : rq_attachment q ∈ awaiting).
    { rewrite <- Hp. eapply elem_of_sublist; [|exact Hsub]. rewrite <- Hids. apply list_elem_of_In, in_map.
      by apply list_elem_of_In. }
    apply list_elem_of_filter in Hq' as [Hm Ha]. split; [by rewrite (may_download_granting _ _ _ _ Hg)|].
    rewrite Hs. by apply Hin.
  - intros q (c & Hc & Hr)%Hnot. rewrite Ho3 in Hc. cbn in Hc.
    rewrite Hc in Hs2. destruct (t_execution (own w1)) as [c1|] eqn:Hc1; [|done]. cbn in Hs2. injection Hs2 as Hs2.
    destruct (t_execution (own w)) as [c0|]; [|done]. destruct He1 as (_ & He1 & _). exists c0. split; [done|].
    by rewrite <- He1, <- Hs2.
Qed.

(** ** Previews *)

Definition active_slot (t : Transfer) (s : Slots.AttachmentSlot) : bool :=
  is_preview (Messages.attachment_id (Slots.descriptor s)) t && bool_decide (Slots.slot_state s = Slots.Downloading).
Lemma active_previews_slots t : active_previews t = size (filter (fun kv => active_slot t kv.2 = true) (slots t)).
Proof.
  unfold active_previews, Slots.views. rewrite sort_by_key_perm, map_filter_alt, map_size_list_to_map.
  2:{ eapply sublist_NoDup; [|apply fmap_sublist, sublist_filter]. apply NoDup_fst_map_to_list. }
  induction (map_to_list (slots t)) as [|[i s] l IH]; [done|]. cbn [map].
  rewrite !filter_cons. assert (He : active_preview t (Slots.view s (runtime t)) = active_slot t s) by done.
  cbn [snd]. rewrite He. destruct (active_slot t s); [rewrite !decide_True by done; exact (f_equal S IH)|].
  by rewrite !decide_False.
Qed.

Lemma filter_insert_size {A} (P : string * A -> Prop) `{!forall x, Decision (P x)} i x (m : gmap string A) :
  size (filter P (<[i:=x]> m)) <= S (size (filter P m)).
Proof.
  rewrite map_filter_insert. case_decide.
  - rewrite map_size_insert. case_match; cbn; lia.
  - rewrite map_filter_delete, map_size_delete. case_match; cbn; lia.
Qed.

Lemma schedule_loop_active env waiting available w :
  active_previews (own (schedule_loop env waiting available w)) <= active_previews (own w) + available.
Proof.
  revert available w. induction waiting as [|n IH]; intros available w; cbn [schedule_loop]; [lia|].
  destruct (pending_previews (own w)) as [|i rest]; [lia|]. cbv zeta.
  set (w0 := upd (set_pending rest) w). assert (H0 : active_previews (own w0) = active_previews (own w)) by done.
  destruct (negb _); [exact (IH available w0)|].
  destruct (Nat.eqb_spec available 0) as [|Hav]; cbn [orb]; [exact (IH available (upd (set_pending (rest ++ [i])) w0))|].
  destruct (match preview_retry_after (own w0) !! i with Some time => _ | None => _ end);
    [exact (IH available (upd (set_pending (rest ++ [i])) w0))|].
  destruct (start_download env i w0) as [w1 r] eqn:E. apply start_download_own in E as (Hg & _ & Hs & _).
  assert (Hp : previews (own w1) = previews (own w0)) by (by injection Hg).
  assert (Hact : forall s, active_slot (own w1) s = active_slot (own w0) s) by (intros s; unfold active_slot, is_preview; by rewrite Hp).
  assert (H1 : active_previews (own w1) <= (if is_ok r then 1 else 0) + active_previews (own w0)).
  { rewrite !active_previews_slots.
    assert (Hf : forall m : gmap string Slots.AttachmentSlot,
      filter (fun kv => active_slot (own w1) kv.2 = true) m = filter (fun kv => active_slot (own w0) kv.2 = true) m)
      by (intros m; apply map_filter_ext; intros; cbn; by rewrite Hact).
    rewrite Hf.
    destruct Hs as [[-> Hr]|(-> & slot & _ & ->)]; [by rewrite Hr|]. apply filter_insert_size. }
  destruct r as [[]|e]; cbn [is_ok] in H1; [|rewrite IH; lia]. etrans; [apply IH|].
  change (active_previews (own w1) + (available - 1) <= active_previews (own w) + available). lia.
Qed.

(** However many previews wait, a turn starts at most as many as keep four of
    them downloading, besides the ones that already were. *)
Theorem previews_bounded env w :
  active_previews (own (schedule_previews env w)) <= Nat.max MAX_ACTIVE_PREVIEWS (active_previews (own w)).
Proof.
  unfold schedule_previews. destruct (negb _); [lia|]. etrans; [apply schedule_loop_active|]. unfold MAX_ACTIVE_PREVIEWS. lia.
Qed.

End Requests.

(** ** Forgetting an attachment *)

Section Forgetting.
Context {aes : Aes} {rows : RowJson} {scheme : Devices.Ed25519} {json : DeletionJson} {json' : ErasureJson}.
Context {record_codec : RowCodec UserTransfers.TransferRecord} {current_codec : RowCodec UserTransfers.Current}
        {chunk_codec : RowCodec ChunkFrame}.
Variable sha256 : bytes -> bytes.
Variable path_text : Files.Path -> string.

(** Everything a conversation keeps about one attachment. *)
Record Known := {
  k_slot : option Slots.AttachmentSlot; k_restored : option Manifest; k_outgoing : option Attachments.OutgoingTransfer;
  k_incoming : option Attachments.IncomingTransfer; k_lease : option (string * string); k_admission : option Admission;
  k_preview : option Manifest;
}.
Definition known (t : Transfer) (j : string) : Known :=
  {| k_slot := slots t !! j; k_restored := restored_outgoing t !! j; k_outgoing := Attachments.outgoing (runtime t) !! j;
     k_incoming := Attachments.incoming (runtime t) !! j; k_lease := held_leases t !! j; k_admission := admission_of j t;
     k_preview := previews t !! j |}.
Definition unknown : Known :=
  {| k_slot := None; k_restored := None; k_outgoing := None; k_incoming := None; k_lease := None; k_admission := None; k_preview := None |}.

(** An attachment goes with its preview, and the preview's preview. *)
Definition preview_link (ps : gmap string Manifest) (i j : string) : Prop :=
  exists m, ps !! i = Some m /\ Attachments.attachment_id m = j.
Definition doomed (ps : gmap string Manifest) : string -> string -> Prop := rtc (preview_link ps).

Lemma doomed_unfold ps i j : doomed ps i j <-> j = i \/ exists m, ps !! i = Some m /\ doomed (delete i ps) (Attachments.attachment_id m) j.
Proof.
  split.
  - unfold doomed. intros Hr. pattern j. refine (rtc_ind_r _ i _ _ j Hr); [by left|]. intros j' k Hij (m & Hm & <-) IH.
    destruct (decide (j' = i)) as [->|Hne].
    { right. exists m. split; [done|]. apply rtc_refl. }
    destruct IH as [->|(m' & Hm' & IH)]; [done|]. right. exists m'. split; [done|]. eapply rtc_r; [exact IH|].
    exists m. split; [by rewrite lookup_delete_ne|done].
  - intros [->|(m & Hm & Hr)]; [apply rtc_refl|]. eapply rtc_l; [by exists m|]. revert Hr. apply rtc_congruence with (f := id).
    intros a b (m' & Hm' & Hb). exists m'. split; [|done]. by apply lookup_delete_Some in Hm' as [_ ?].
Qed.

Definition forget_own_execution (i : string) (k : Known) : Known :=
  {| k_slot := k_slot k; k_restored := k_restored k; k_outgoing := k_outgoing k; k_incoming := k_incoming k;
     k_lease := k_lease k; k_admission := None; k_preview := k_preview k |}.

Lemma forget_execution_known i w : let w' := forget_execution i w in
  known (own w') i = forget_own_execution i (known (own w) i) /\ (forall j, j <> i -> known (own w') j = known (own w) j) /\
  previews (own w') = previews (own w).
Proof.
  unfold forget_execution. destruct (t_execution (own w)) as [c|] eqn:Hc; cbn [mbind option_bind].
  2:{ split; [|done]. unfold known, forget_own_execution, admission_of. cbn. by rewrite Hc. }
  destruct (admissions c !! i) as [a|] eqn:Ha.
  2:{ split; [|done]. unfold known, forget_own_execution, admission_of. cbn. rewrite Hc. cbn. by rewrite Ha. }
  set (w1 := upd_execution _ w).
  assert (H1 : known (own w1) i = forget_own_execution i (known (own w) i) /\ (forall j, j <> i -> known (own w1) j = known (own w) j) /\
    previews (own w1) = previews (own w)).
  { unfold known, forget_own_execution, admission_of. cbn. rewrite Hc. cbn. rewrite lookup_delete_eq. split; [done|].
    split; [|done]. intros j Hj. by rewrite lookup_delete_ne. }
  pose proof (on_base_own (UserTransfers.remove_user_transfer (a_id a)) w1) as [Ho _].
  destruct (on_base _ w1) as [w2 [u|e]]; cbn [fst] in Ho; [by rewrite Ho|].
  assert (H2 : forall j, known (own (upd_execution (set_error (Some (transfer_text e))) w2)) j = known (own w1) j).
  { intros j. rewrite <- Ho. unfold known, admission_of. cbn. by destruct (t_execution (own w2)). }
  destruct H1 as (Hi & Hj & Hp). split; [by rewrite H2|]. split; [intros j Hne; rewrite H2; by apply Hj|]. cbn. by rewrite Ho.
Qed.

(** The end of [forget]: what is kept under the id itself. *)
Definition forget_own (i : string) (w : World) : World :=
  let w := upd_runtime (Attachments.forget i) w in
  let w := upd (fun t => set_restored (delete i (restored_outgoing t)) t) w in
  release_lease i (upd_slots (Slots.forget_slot i) w).
Lemma forget_own_known i w : let w' := forget_own i w in
  known (own w') i = {| k_slot := None; k_restored := None; k_outgoing := None; k_incoming := None; k_lease := None;
                        k_admission := admission_of i (own w); k_preview := previews (own w) !! i |} /\
  (forall j, j <> i -> known (own w') j = known (own w) j).
Proof.
  cbv zeta. unfold forget_own, release_lease. cbn [held_leases own upd upd_slots upd_runtime set_table set_restored].
  destruct (held_leases (own w) !! i) as [[h n]|] eqn:Hl; unfold known; cbn; unfold Slots.forget_slot;
    (split; [rewrite ?lookup_delete_eq, ?Hl; done|]); intros j Hj; by rewrite !lookup_delete_ne by done.
Qed.

Definition forgotten (ps : gmap string Manifest) (i j : string) (before after : Known) : Prop :=
  doomed ps i j /\ after = unknown \/ ~ doomed ps i j /\ after = before.

Lemma forget_own_last i w : k_admission (known (own w) i) = None -> k_preview (known (own w) i) = None ->
  known (own (forget_own i w)) i = unknown.
Proof. intros Ha Hv. destruct (forget_own_known i w) as [-> _]. unfold unknown. f_equal; [exact Ha|exact Hv]. Qed.

Lemma forget_within_known fuel i w j : size (previews (own w)) <= fuel ->
  forgotten (previews (own w)) i j (known (own w) j) (known (own (forget_within fuel i w)) j).
Proof.
  revert i w j. induction fuel as [|fuel IH]; intros i w j Hsize; unfold forgotten; rewrite doomed_unfold;
    destruct (forget_execution_known i w) as (Hki & Hkj & Hp); cbn [forget_within]; cbv zeta; set (w1 := forget_execution i w) in *;
    rewrite Hp; destruct (previews (own w) !! i) as [m|] eqn:Hm.
  1: exfalso; assert (He : previews (own w) = ∅) by (apply map_size_empty_inv; lia); by rewrite He in Hm.
  1, 3: change (release_lease i _) with (forget_own i w1); destruct (decide (j = i)) as [->|Hj];
    [left; split; [by left|]; apply forget_own_last; rewrite Hki; [done|exact Hm]
    |right; split; [by intros [?|(m & ? & _)]|]; destruct (forget_own_known i w1) as [_ ->]; [by apply Hkj|done]].
  set (w2 := upd (drop_preview i (Attachments.attachment_id m)) w1).
  assert (Hp2 : previews (own w2) = delete i (previews (own w))) by (cbn; by rewrite Hp).
  assert (Hs2 : size (previews (own w2)) <= fuel) by (rewrite Hp2, map_size_delete, Hm; cbn; lia).
  pose proof (fun k => IH (Attachments.attachment_id m) w2 k Hs2) as IH2. rewrite Hp2 in IH2.
  set (w3 := forget_within fuel (Attachments.attachment_id m) w2) in *. change (release_lease i _) with (forget_own i w3).
  destruct (decide (j = i)) as [->|Hj].
  - left. split; [by left|].
    assert (Hi2 : k_admission (known (own w2) i) = None /\ k_preview (known (own w2) i) = None).
    { split; [|by cbn; rewrite lookup_delete_eq]. change (k_admission (known (own w2) i)) with (k_admission (known (own w1) i)).
      by rewrite Hki. }
    apply forget_own_last; by destruct (IH2 i) as [[_ ->]|[_ ->]]; [|apply Hi2].
  - assert (Hk2 : known (own w2) j = known (own w) j).
    { rewrite <- Hkj by done. unfold known. cbn. by rewrite lookup_delete_ne. }
    destruct (forget_own_known i w3) as [_ ->]; [|done]. rewrite <- Hk2. destruct (IH2 j) as [[Hd ->]|[Hd ->]]; [left|right].
    + split; [|done]. right. by exists m.
    + split; [|done]. by intros [->|(m' & [= <-] & Hd')].
Qed.

(** Forgetting an attachment forgets all of it and nothing else: its slot, its
    transfer in memory, its lease, its admission, its preview and whatever is
    kept of the preview; everything about any other attachment stays. *)
Theorem forget_exact i w j :
  (doomed (previews (own w)) i j -> known (own (forget i w)) j = unknown) /\
  (~ doomed (previews (own w)) i j -> known (own (forget i w)) j = known (own w) j).
Proof.
  destruct (forget_within_known (size (previews (own w))) i w j (le_n _)) as [[Hd Hk]|[Hd Hk]]; by split.
Qed.

(** *** A send that is refused *)

(** The world after a file was sealed under an id nobody used. *)
Definition sealed (i : string) (w w1 : World) : Prop :=
  exists t x p, own w1 = set_held (<[ i := x ]> (held_leases (own w)))
                          (set_table (slots (own w)) (Attachments.put_outgoing i t (runtime (own w))) (own w)) /\
    Files.path_for x.1 x.2 = Ok p /\
    Files.leases (files w1) = <[ p := (default 0 (Files.leases (files w) !! p) + 1)%N ]> (Files.leases (files w)) /\
    base w1 = base w.
Definition positive (w : World) : Prop := forall p n, Files.leases (files w) !! p = Some n -> (0 < n)%N.
(** Everything but the contents of the cached files. *)
Definition same_but_disk (w w' : World) : Prop := own w' = own w /\ Files.leases (files w') = Files.leases (files w) /\ base w' = base w.

Lemma write_blob_leases h n b f : Files.leases (Files.write_blob sha256 h n b f).1 = Files.leases f.
Proof.
  destruct (Files.write_blob sha256 h n b f) as [f' [p|e]] eqn:E; apply Files.write_blob_spec in E; [|by destruct E].
  by destruct E as (_ & _ & _ & ? & _).
Qed.

Lemma prepare_outgoing_Ok secret o w w1 out : prepare_outgoing sha256 path_text secret o w = (w1, Ok out) ->
  held_leases (own w) !! Attachments.oa_attachment_id o = None ->
  sealed (Attachments.oa_attachment_id o) w w1 /\
  Attachments.attachment_id (o_manifest out) = Attachments.oa_attachment_id o /\ o_preview out = None.
Proof.
  unfold prepare_outgoing, m_bind, on_runtime. destruct (Attachments.prepare_outgoing _ _ _ _ o _) as [r [m|e]] eqn:Em; [|done].
  cbn [map_err]. intros H Hheld.
  assert (Hm : exists t, r = Attachments.put_outgoing (Attachments.oa_attachment_id o) t (runtime (own w)) /\
                         Attachments.attachment_id m = Attachments.oa_attachment_id o).
  { unfold Attachments.prepare_outgoing in Em. destruct (_ =? 0); [done|]. destruct (_ <? _)%N; [done|].
    destruct (bool_decide _); [done|]. injection Em as <- <-. eauto. }
  destruct Hm as (t & -> & Hid). set (wr := upd_runtime _ w) in H. unfold with_lease in H.
  destruct (retain_lease_cases (Erasure.descriptor_of m) wr) as [[_ [? Hh]]|[[e He]|(p & _ & Hp & Hr)]].
  - cbn in Hh. by rewrite Hid, Hheld in Hh.
  - by rewrite He in H.
  - rewrite Hr in H. unfold on_files in H.
    match type of H with context [Files.write_blob ?a ?b ?c ?d ?f] =>
      pose proof (write_blob_leases b c d f) as Hl; destruct (Files.write_blob a b c d f) as [f2 [q|e]] end; [|done].
    cbn [map_err] in H. injection H as <- <-. split; [|done]. cbn [fst] in Hl.
    exists t, (Attachments.content_hash m, Attachments.file_name m), p. cbn. rewrite Hid. split; [done|]. split; [done|]. by rewrite Hl.
Qed.

Lemma forget_sealed i w w1 : sealed i w w1 -> known (own w) i = unknown -> positive w -> same_but_disk w (forget i w1).
Proof.
  intros (t & x & p & Ho & Hp & Hl & Hb) Hk Hpos. unfold known, unknown in Hk. injection Hk as Hs Hre Hou Hin Hle Had Hpr.
  unfold forget. set (fuel := size _).
  assert (He : forget_execution i w1 = w1).
  { unfold forget_execution. rewrite Ho. unfold admission_of in Had. cbn. destruct (t_execution (own w)); [|done]. cbn in *. by rewrite Had. }
  assert (Hf : forget_within fuel i w1 = forget_own i w1).
  { destruct fuel; cbn [forget_within]; cbv zeta; rewrite He, Ho; cbn; by rewrite Hpr. }
  rewrite Hf. unfold forget_own, release_lease. cbn [held_leases own upd upd_slots upd_runtime set_table set_restored].
  rewrite Ho. cbn [held_leases set_held]. rewrite lookup_insert_eq. destruct x as [h n]. cbn in Hp.
  unfold same_but_disk, Files.release. cbn [own files base set_files upd upd_slots upd_runtime set_table set_held]. rewrite Hp, Hl, lookup_insert_eq.
  split; [|split; [|by repeat case_match]].
  - cbn. rewrite Ho. destruct (own w) as [ex rt ss rs hl gc ps wp rp]. cbn in *. unfold set_held, set_restored, set_table, Attachments.forget, Attachments.put_outgoing, Slots.forget_slot.
    cbn. rewrite !delete_insert_id, !delete_id by done. by destruct rt.
  - destruct (N.eqb_spec (default 0 (Files.leases (files w) !! p) + 1 - 1)%N 0%N) as [Hz|Hz]; cbn.
    + destruct (Files.leases (files w) !! p) as [k|] eqn:Hkp; [specialize (Hpos _ _ Hkp); cbn in Hz; lia|].
      by rewrite delete_insert_id.
    + destruct (Files.leases (files w) !! p) as [k|] eqn:Hkp; [|cbn in Hz; lia]. cbn. rewrite insert_insert_eq.
      replace (k + 1 - 1)%N with k by lia. by apply insert_id.
Qed.

Lemma sealed_same i w w1 w2 : sealed i w w1 -> same_but_disk w1 w2 -> sealed i w w2.
Proof. intros (t & x & p & Ho & Hp & Hl & Hb) (Ho2 & Hl2 & Hb2). exists t, x, p. rewrite Ho2, Hl2, Hb2. done. Qed.

Lemma sealed_known i j w w1 : sealed i w w1 -> j <> i -> known (own w1) j = known (own w) j.
Proof.
  intros (t & x & p & Ho & _) Hj. rewrite Ho. unfold known. cbn. by rewrite !lookup_insert_ne by done.
Qed.
Lemma sealed_positive i w w1 : sealed i w w1 -> positive w -> positive w1.
Proof.
  intros (t & x & p & _ & _ & Hl & _) Hpos q n. rewrite Hl, lookup_insert. case_decide; [intros [= <-]; lia|apply Hpos].
Qed.

Lemma preview_id_ne i : preview_id i <> i.
Proof. unfold preview_id. intros H. apply (f_equal String.length) in H. rewrite append_length in H. cbn in H. lia. Qed.

(** C22. A send that is refused leaves no trace: when a file and its preview were
    sealed, saved and leased under new ids and the manifest could then not be
    published, the conversation, the leases of the store and the database are
    what they were; only the cached files may have grown. *)
Theorem refused_send_undone {A E} secret secret' o preview w w1 out (e : E)
  (Hprep : prepare_offer sha256 path_text secret secret' o preview w = (w1, Ok out))
  (Hnew : known (own w) (Attachments.oa_attachment_id o) = unknown)
  (Hnew' : known (own w) (preview_id (Attachments.oa_attachment_id o)) = unknown)
  (Hpos : forall p n, Files.leases (files w) !! p = Some n -> (0 < n)%N) :
  exists w2, record_published (A := A) out (Err e) w1 = (w2, Err e) /\ own w2 = own w /\
    Files.leases (files w2) = Files.leases (files w) /\ base w2 = base w.
Proof.
  set (i := Attachments.oa_attachment_id o) in *. apply m_bind_Ok in Hprep as (w0 & u & Hl & Hprep).
  injection Hl as <- _. apply m_bind_Ok in Hprep as (wa & oa & Ha & Hprep). apply prepare_outgoing_Ok in Ha as (Hsa & Hia & Hva).
  2:{ by injection Hnew. }
  fold i in Hsa, Hia. apply m_bind_Ok in Hprep as (wb & ob & Hb & Hcheck).
  assert (Hob : wb = w1 /\ ob = out) by (unfold check_offer in Hcheck; destruct (validate_preview _); [by injection Hcheck|done]).
  destruct Hob as [-> ->]. unfold record_published. eexists. split; [done|]. unfold attach_preview in Hb.
  destruct preview as [b|].
  - destruct (prepare_outgoing _ _ secret' _ wa) as [wc [pv|e']] eqn:Epv; [|done]. injection Hb as <- <-.
    assert (Hidp : Attachments.oa_attachment_id (preview_attachment (o_manifest oa) b) = preview_id i) by (cbn; by rewrite Hia).
    assert (Hkp : known (own wa) (preview_id i) = unknown) by (rewrite (sealed_known i) with (w := w); [done..|apply preview_id_ne]).
    apply prepare_outgoing_Ok in Epv as (Hsp & Hip & _); rewrite Hidp in *; [|by injection Hkp].
    assert (Hoi : Attachments.attachment_id (o_manifest (with_preview pv oa)) = i) by by destruct oa.
    assert (Hop : o_preview (with_preview pv oa) = Some pv) by by destruct oa.
    rewrite Hop, Hoi, Hip. pose proof (forget_sealed _ _ _ Hsp Hkp (sealed_positive _ _ _ Hsa Hpos)) as Hback.
    exact (forget_sealed i w _ (sealed_same _ _ _ _ Hsa Hback) Hnew Hpos).
  - injection Hb as <- <-. rewrite Hva, Hia. exact (forget_sealed i w _ Hsa Hnew Hpos).
Qed.

End Forgetting.

(** ** A note and its preview, sent and received *)

#[local] Existing Instances Rows.plain_aes Rows.row_json Rows.row_json' Rows.rj_value Devices.toy_scheme
  UserTransfers.toy_records UserTransfers.toy_currents UserTransfers.toy_chunks.

Definition note_descriptor : Descriptor :=
  {| Messages.attachment_id := "f"; Messages.d_content_hash := Files.note_hash; Messages.file_name := "note.ogg";
     Messages.mime := "image/png"; Messages.total_size := 12; Messages.thumbnail_b64 := None; Messages.voice := None |}.
(** Every queued file is the note. *)
#[export] Instance note_rows : RowJson := {|
  rj_value := Values.shallow_json 4;
  origin_from_value _ := Err "malformed"; descriptor_from_value _ := Err "malformed";
  descriptor_from_slice _ := Ok note_descriptor; descriptor_to_vec _ := Ok [];
  manifest_from_value _ := Err "malformed"; marker_to_value _ := Ok (Values.VBool true); marker_from_value _ := Err "malformed";
  record_from_slice _ := Err "malformed"; ack_row_to_vec _ := Ok []; ack_from_slice _ := Err "malformed";
|}.

Definition plain_path (p : Files.Path) : string := p.1 +:+ "/" +:+ p.2.
Definition plain_chunk (k n c : bytes) : result string bytes := Ok c.
Definition toy_secret : bytes * bytes := (Attachments.toy_key, Attachments.toy_prefix).
Definition note_out : Attachments.OutgoingAttachment :=
  {| Attachments.oa_attachment_id := "f"; Attachments.oa_file_name := "note.ogg"; Attachments.oa_mime := "image/png";
     Attachments.oa_from_fingerprint := "fp"; Attachments.oa_bytes := Files.note;
     Attachments.oa_thumbnail_b64 := Some (Fragments.toy_encode jpeg_magic); Attachments.oa_voice := None |}.
Definition device (b : Store.Persistence) : World := {| own := new_transfer; files := Files.empty_store []; base := b |}.
Definition fresh : World := device (Files.history_with ∅).
Definition free : Env :=
  {| managed_execution := false; automatic_downloads_allowed := true; transfer_granted := fun _ => true;
     now_ms := 5; now := 7; drawn_token := fun i => i |}.

Definition prepared_note := prepare_offer Files.wide_sha plain_path toy_secret toy_secret note_out (Some (jpeg_magic ++ [x01])) fresh.
Definition no_manifest : Manifest := Attachments.toy_manifest.
Definition note_outgoing : Outgoing := default (Prepared no_manifest note_descriptor "" None) (res_ok prepared_note.2).

Lemma refused_send_undone_witness :
  res_ok prepared_note.2 = Some note_outgoing /\
  own (record_published (A := unit) note_outgoing (Err "offline") prepared_note.1).1 = new_transfer.
Proof.
  assert (Hp : prepared_note = (prepared_note.1, Ok note_outgoing)) by (apply surjective_pairing_eq; vm_compute; reflexivity).
  split; [vm_compute; reflexivity|]. unfold prepared_note in Hp at 1.
  destruct (refused_send_undone Files.wide_sha plain_path (A := unit) toy_secret toy_secret note_out (Some (jpeg_magic ++ [x01])) fresh
    prepared_note.1 note_outgoing "offline" Hp eq_refl eq_refl) as (w2 & Hw & Ho & _).
  - intros p n Hl. vm_compute in Hl. discriminate Hl.
  - rewrite Hw. exact Ho.
Defined.

(** The receiver asks for the note and takes its only chunk. *)
Definition offered_note : World := (accept_offer Files.wide_sha plain_path (offer_of note_outgoing) fresh).1.
Definition asked_note : World := (start_download free "f" offered_note).1.
Definition note_frame : ChunkFrame :=
  {| Attachments.cf_attachment_id := "f"; Attachments.chunk_index := 0; Attachments.ciphertext_b64 := Fragments.toy_encode Files.note |}.
Definition received := ingest plain_chunk Files.wide_sha plain_path free note_frame asked_note.


Definition asks := next_requests free asked_note.
Lemma requests_granted_witness :
  map rq_attachment asks.2 = ["f/preview"; "f"] /\
  forall q, q ∈ asks.2 -> may_download free (rq_attachment q) (own asks.1) = true.
Proof.
  split; [vm_compute; reflexivity|].
  destruct (requests_granted free asked_note asks.1 asks.2) as (asked & notices & Hl & _ & Hall & Hnot).
  - apply surjective_pairing.
  - intros q Hq. rewrite Hl in Hq. apply elem_of_app in Hq as [Hq|Hq]; [exact (proj1 (Hall q Hq))|].
    exfalso. destruct (Hnot q Hq) as (c & Hc & _). vm_compute in Hc. discriminate Hc.
Defined.

(** The note is queued for removal, and nobody needs it any more. *)
Definition queued : World :=
  {| own := new_transfer; files := Files.noted [];
     base := {| db := {[ ATTACHMENT_GC := {[ "k" := sealed_blob [] ]} ]}; dek := []; rng := 0; outcomes := []; read_fault := None |} |}.
Lemma collection_safe_witness :
  Files.disk (files (collect_erased_cache queued)) !! Files.note_path = None /\ ~ Files.stored_reference Files.note_path (base queued).
Proof.
  assert (Hn : Files.disk (files (collect_erased_cache queued)) !! Files.note_path = None) by (vm_compute; reflexivity).
  split; [exact Hn|]. refine (proj2 (collection_safe queued Files.note_path _ Hn)).
  exists Files.note. vm_compute. reflexivity.
Defined.

End Transfer.
