(* ===== verification/Signing.v ===== *)
(** * Signing: what this installation signs
      ([message_deletion/ownership.rs], [origin.rs], [cipher.rs],
      [conversation/previews.rs], the [deletion.rs] of each kind of
      conversation)

    The proof that a key belongs to the user's account, the origin of a
    message or an attachment, and the frames deletions travel in, as they are
    made; and the authority a conversation judges deletions by.  The stored
    identity is any [CasCell]; MLS and the cipher are records of functions. *)
From S2P Require Import Prelude Store Devices Identity Messages Attachments Fragments Deletion Erasure Exchange OrgRoster.
From S2P Require Import Commits Files History Transfer.

Module Signing.
Import Store Devices Identity Messages Deletion Erasure.

#[local] Open Scope mosh_scope.
#[local] Set Default Proof Using "Type".

(** Whose identity is opened: whether the caller hands over its store, when it
    has one, and the peer id it asks for. *)
Record Caller := { attached : bool; local_peer : option string }.
Definition nobody : Caller := {| attached := false; local_peer := None |}.

(** [MlsSessionCrypto], as far as it is asked here. *)
Record MlsCrypto := {
  is_ready : bool;
  mls_epoch : option N;
  signer_public : bytes;
  sign_sender_proof : bytes -> result string bytes;
  member_signers : list string;
  member_identity_for_signer : bytes -> option string;
  metadata_key : string -> bytes -> result string bytes;
}.

Definition identity_error (e : DeviceLinkError) : DeletionError :=
  match error_kind e with
  | Storage | InvalidRoster => Deletion.Persistence (message e)
  | _ => Internal (message e)
  end.

Definition no_accounts : OwnAccounts := {| own_accounts := ∅; revoked_keys := ∅ |}.

Section Signing.
Context {scheme : Ed25519} {json : DeletionJson} {json' : ErasureJson} {St : Type} {cell : CasCell St}.
Variable sha256 : bytes -> bytes.
Variable hex_decode : string -> result string bytes.
(** [serde_json::to_string] of a proof, and the seed drawn when no identity is
    stored. *)
Variable proof_to_string : AccountProof -> result string string.
Variable generated : bytes.

Abbreviation open := (Identity.open sha256 hex_decode content_to_vec roster_to_vec delegation_to_vec identity_to_vec identity_from_slice).
Abbreviation devices_of := (devices_of sha256 hex_decode content_to_vec roster_to_vec).
Abbreviation removal_targets := (removal_targets sha256 hex_decode content_to_vec roster_to_vec).
Abbreviation is_revoked_device := (Identity.revoked sha256 hex_decode content_to_vec roster_to_vec).
Abbreviation own_certificate := (Identity.own_certificate sha256 hex_decode content_to_vec roster_to_vec).
Abbreviation sha_hex := (sha_hex sha256).
Abbreviation db := (method (option St) DeletionError).
Abbreviation signing := (method (option St) string).

(** ** Proofs of the account ([ownership.rs]) *)

Definition local_identity (who : Caller) : db (option DeviceIdentity) := fun s =>
  match (if attached who then s else None), local_peer who with
  | Some st, Some peer =>
      match open st generated peer with
      | (st, Err e) => (Some st, Err (identity_error e))
      | (st, Ok i) =>
          (Some st, rv ← map_err identity_error (is_revoked_device i);
              if (rv : bool) then Err Revoked else Ok (Some i))
      end
  | _, _ => (s, Ok None)
  end.

Definition with_proof_signature (sig : string) (p : AccountProof) : AccountProof :=
  {| certificate := certificate p; proof_subject := proof_subject p; proof_signature := sig |}.

Definition create (who : Caller) (subject : string) : db (option string) :=
  i <~ local_identity who;;
  m_lift (match i with
          | None => Ok None
          | Some i =>
              c ← map_err identity_error (own_certificate i);
              match c with
              | None => Ok None
              | Some c =>
                  let p := {| certificate := c; proof_subject := subject; proof_signature := "" |} in
                  input ← map_err Internal (proof_input p);
                  let p := with_proof_signature (hex_string (sign (Identity.key i) input)) p in
                  Some <$> map_err Internal (proof_to_string p)
              end
          end).

(** Pairs inserted in their order: a later one wins. *)
Definition accounts_of (l : list (string * string)) : gmap string string :=
  foldl (fun m kv => <[ kv.1 := kv.2 ]> m) ∅ l.
Definition device_keys (d : DeviceDescriptor) : list string := [moss_peer_id d; signing_public_key d].

Definition moss_accounts (who : Caller) : db OwnAccounts :=
  i <~ local_identity who;;
  m_lift (match i with
          | None => Ok no_accounts
          | Some i =>
              let r := roster (record i) in
              ds ← map_err identity_error (devices_of r);
              removed ← map_err identity_error (removal_targets r);
              Ok {| own_accounts := accounts_of (map (fun k => (k, user_id r)) (concat (map device_keys (ds ++ removed))));
                    revoked_keys := list_to_set (concat (map device_keys removed)) |}
          end).

(** The signing keys of the group's members join the accounts of their owners. *)
Definition map_signer (mls : MlsCrypto) (o : OwnAccounts) (signer : string) : OwnAccounts :=
  match (k ← res_ok (hex_decode signer); member_identity_for_signer mls k) with
  | None => o
  | Some identity =>
      match own_accounts o !! identity with
      | None => o
      | Some user =>
          {| own_accounts := <[ signer := user ]> (own_accounts o);
             revoked_keys := if in_set identity (revoked_keys o) then {[ signer ]} ∪ revoked_keys o else revoked_keys o |}
      end
  end.
Definition for_mls (mls : MlsCrypto) (o : OwnAccounts) : OwnAccounts := foldl (map_signer mls) o (member_signers mls).

(** ** Origins ([origin.rs]) *)

Definition unsigned (conv i : string) (content key : bytes) : MessageOrigin :=
  {| conversation := conv; id := i; content_hash := sha_hex content; author := hex_string key; signature := ""; ownership := None |}.
Definition with_ownership (p : option string) (o : MessageOrigin) : MessageOrigin :=
  {| conversation := conversation o; id := id o; content_hash := content_hash o; author := author o;
     signature := signature o; ownership := p |}.
Definition with_origin_signature (sig : string) (o : MessageOrigin) : MessageOrigin :=
  {| conversation := conversation o; id := id o; content_hash := content_hash o; author := author o;
     signature := sig; ownership := ownership o |}.

(** [sign] and [sign_mls] differ in the key and in who signs. *)
Definition sign_with (who : Caller) (public : bytes) (signer : bytes -> result string bytes) (conv i : string) (content : bytes)
  : signing MessageOrigin := fun s =>
  let o := unsigned conv i content public in
  match create who (author o) s with
  | (s, Err e) => (s, Err (error_text e))
  | (s, Ok p) =>
      (s, let o := with_ownership p o in
          input ← signing_input o;
          sig ← signer input;
          Ok (with_origin_signature (hex_string sig) o))
  end.
(** The origin signed with an identity's own key: its peer is that key. *)
Definition sign_origin (has_store : bool) (seed : bytes) : string -> string -> bytes -> signing MessageOrigin :=
  sign_with {| attached := has_store; local_peer := Some (hex_string (verifying_key seed)) |} (verifying_key seed)
    (fun b => Ok (sign seed b)).
Definition sign_mls (who : Caller) (mls : MlsCrypto) : string -> string -> bytes -> signing MessageOrigin :=
  sign_with who (signer_public mls) (sign_sender_proof mls).

(** ** Offers ([previews.rs]) *)

Definition with_origin (o : option MessageOrigin) (m : Transfer.Manifest) : Transfer.Manifest :=
  {| Attachments.m_origin := o; Attachments.attachment_id := Attachments.attachment_id m; Attachments.content_hash := Attachments.content_hash m;
     Attachments.file_name := Attachments.file_name m; Attachments.mime := Attachments.mime m;
     Attachments.total_size := Attachments.total_size m; Attachments.chunk_size := Attachments.chunk_size m;
     Attachments.chunk_count := Attachments.chunk_count m; Attachments.key_b64 := Attachments.key_b64 m;
     Attachments.nonce_prefix_b64 := Attachments.nonce_prefix_b64 m; Attachments.m_thumbnail_b64 := Attachments.m_thumbnail_b64 m;
     Attachments.m_voice := Attachments.m_voice m; Attachments.from_fingerprint := Attachments.from_fingerprint m |}.

(** The preview's origin names its signer only: the account is its parent's. *)
Fixpoint sign_outgoing (sign : bool -> string -> string -> bytes -> signing MessageOrigin) (owner : bool) (ctx : string)
    (o : Transfer.Outgoing) (s : option St) : option St * Transfer.Outgoing * result string MessageOrigin :=
  let '(Transfer.Prepared m d path preview) := o in
  match manifest_bytes m with
  | Err e => (s, o, Err e)
  | Ok b =>
      match sign owner ctx (Attachments.attachment_id m) b s with
      | (s, Err e) => (s, o, Err e)
      | (s, Ok origin) =>
          let m := with_origin (Some origin) m in
          match preview with
          | None => (s, Transfer.Prepared m d path None, Ok origin)
          | Some p =>
              let '(s, p, r) := sign_outgoing sign false (Transfer.preview_context ctx (Attachments.attachment_id m)) p s in
              (s, Transfer.Prepared m d path (Some p), _ ← r; Ok origin)
          end
      end
  end.
Definition sign_offer (has_store : bool) (seed : bytes) : string -> Transfer.Outgoing -> option St -> option St * Transfer.Outgoing * result string MessageOrigin :=
  sign_outgoing (fun owner => sign_origin (owner && has_store) seed) true.
Definition sign_offer_mls (who : Caller) (mls : MlsCrypto)
  : string -> Transfer.Outgoing -> option St -> option St * Transfer.Outgoing * result string MessageOrigin :=
  sign_outgoing (fun owner => sign_mls (if owner then who else nobody) mls) true.

(** ** Frames of deletions ([cipher.rs]) *)

(** AES-256-GCM: key, nonce, associated data, text. *)
Variable encrypt decrypt : bytes -> bytes -> bytes -> bytes -> result string bytes.
(** [serde_json] of a channel's frame: an occurrence id beside the message. *)
Variable occurrence_to_vec : string * DeletionMessage -> result string bytes.
Variable occurrence_from_slice : bytes -> result string (string * DeletionMessage).

Definition DELETION_LABEL : string := "mosh-message-deletions-v1".
Definition cipher (mls : MlsCrypto) (ctx : string) : result string bytes :=
  key ← metadata_key mls DELETION_LABEL (String.list_byte_of_string ctx);
  _ ← guard_or (length key =? 32)%nat "Invalid Length";
  Ok key.

Definition with_frame_signature (sig : string) (f : DeletionFrame) : DeletionFrame :=
  {| f_context := f_context f; f_epoch := f_epoch f; f_author := f_author f; payload_b64 := payload_b64 f; f_signature := sig |}.
Definition sign_frame (signer : bytes -> result string bytes) (f : DeletionFrame) : result string DeletionFrame :=
  input ← frame_input f; sig ← signer input; Ok (with_frame_signature (hex_string sig) f).

Definition seal_mls (nonce : bytes) (ctx : string) (mls : MlsCrypto) (m : DeletionMessage) : result string DeletionFrame :=
  b ← message_to_vec m;
  key ← cipher mls ctx;
  encrypted ← map_err (fun _ => "deletion encryption failed") (encrypt key nonce (String.list_byte_of_string ctx) b);
  epoch ← ok_or (mls_epoch mls) "MLS not ready";
  sign_frame (sign_sender_proof mls)
    {| f_context := ctx; f_epoch := epoch; f_author := hex_string (signer_public mls);
       payload_b64 := b64_encode (nonce ++ encrypted); f_signature := "" |}.

Definition open_mls (ctx : string) (mls : MlsCrypto) (f : DeletionFrame) : result string DeletionMessage :=
  _ ← frame_verify sha256 hex_decode f ctx;
  _ ← guard_or (bool_decide (mls_epoch mls = Some (f_epoch f))) "deletion epoch differs";
  b ← b64_decode (payload_b64 f);
  _ ← guard_or (negb (length b <? 28)%nat) "truncated deletion frame";
  key ← cipher mls ctx;
  text ← map_err (fun _ => "invalid deletion ciphertext") (decrypt key (take 12 b) (String.list_byte_of_string ctx) (drop 12 b));
  message_from_slice text.

Definition seal_channel (occurrence ctx : string) (seed : bytes) (m : DeletionMessage) : result string DeletionFrame :=
  b ← occurrence_to_vec (occurrence, m);
  sign_frame (fun b => Ok (sign seed b))
    {| f_context := ctx; f_epoch := 0; f_author := hex_string (verifying_key seed); payload_b64 := b64_encode b; f_signature := "" |}.

Definition open_channel (ctx : string) (f : DeletionFrame) : result string DeletionMessage :=
  _ ← frame_verify sha256 hex_decode f ctx;
  b ← b64_decode (payload_b64 f);
  snd <$> occurrence_from_slice b.

(** ** Who may delete in a conversation (the [deletion.rs] of each kind) *)

Definition local_actor (who : Caller) (key name : string) (epoch : N) : db DeletionActor :=
  p <~ create who key;;
  m_ret {| a_key := key; a_name := name; a_epoch := epoch; a_ownership := p |}.

(** A channel has no members: whoever writes to it counts. *)
Definition channel_authority (who : Caller) (seed : bytes) (name : string) (accepted : gset string) : db DeletionAuthority :=
  own <~ moss_accounts who;;
  local <~ local_actor who (hex_string (verifying_key seed)) name 0;;
  m_ret {| local := local; members := ∅; admins := ∅; accepted_before := accepted; accounts := ∅; own := own;
           public_channel := true |}.

(** In a DM the devices of both sides speak for their accounts. *)
Definition dm_authority (who : Caller) (mls : MlsCrypto) (device : string) (clients : option (list (string * string)))
    (accepted : gset string) : db DeletionAuthority :=
  local <~ local_actor who (hex_string (signer_public mls)) device (default 0%N (mls_epoch mls));;
  m_ret {| local := local; members := list_to_set (member_signers mls); admins := ∅; accepted_before := accepted;
           accounts := match clients with Some l => accounts_of l | None => ∅ end; own := no_accounts; public_channel := false |}.

Definition to_ascii_uppercase (s : string) : string :=
  String.string_of_list_ascii (map (fun a => let n := byte_at a in
    if ((97 <=? n) && (n <=? 122))%N then Ascii.ascii_of_N (n - 32) else a) (String.list_ascii_of_string s)).

(** An organization's administrators are named in its roster; another group has
    one, named by the start of its signing key (keys are hexadecimal). *)
Definition is_admin (mls : MlsCrypto) (roster : option OrgRoster.Roster) (admin_fingerprint signer : string)
  : result Commits.PrivateGroupError bool :=
  match roster with
  | Some r =>
      key ← map_err Commits.Codec (hex_decode signer);
      let identity := member_identity_for_signer mls key in
      Ok (existsb (fun m => bool_decide (Some (OrgRoster.moss_peer_id m) = identity) && String.eqb (OrgRoster.role m) "admin")
            (OrgRoster.members r))
  | None => Ok (starts_with admin_fingerprint (to_ascii_uppercase signer))
  end.
Definition add_admin (mls : MlsCrypto) (roster : option OrgRoster.Roster) (admin_fingerprint : string) (acc : gset string) (signer : string)
  : result Commits.PrivateGroupError (gset string) :=
  admin ← is_admin mls roster admin_fingerprint signer;
  Ok (if (admin : bool) then {[ signer ]} ∪ acc else acc).

(** [roster] is what [org_roster_checked] answered, for an organization's group. *)
Definition group_authority (who : Caller) (mls : MlsCrypto) (name admin_fingerprint : string)
    (roster : option (result Commits.PrivateGroupError OrgRoster.Roster)) (accepted : gset string)
  : method (option St) Commits.PrivateGroupError DeletionAuthority := fun s =>
  let deletion {A} (r : result DeletionError A) := map_err (fun e => Commits.Deletion (error_text e)) r in
  match local_actor who (hex_string (signer_public mls)) name (default 0%N (mls_epoch mls)) s with
  | (s, Err e) => (s, deletion (Err e))
  | (s, Ok local) =>
      match moss_accounts who s with
      | (s, Err e) => (s, deletion (Err e))
      | (s, Ok own) =>
          let own := if bool_decide (is_Some roster) then for_mls mls own else own in
          let members := list_to_set (member_signers mls) in
          (s, roster ← match roster with None => Ok None | Some r => Some <$> r end;
              admins ← try_fold (add_admin mls roster admin_fingerprint) ∅ (merge_sort String.le (elements (members : gset string)));
              Ok {| local := local; members := members; admins := admins; accepted_before := accepted; accounts := ∅; own := own;
                    public_channel := false |})
      end
  end.

End Signing.

(** ** What is signed is accepted *)

Section Accepted.
Context {scheme : Ed25519} {laws : Ed25519Laws} {json : DeletionJson} {json' : ErasureJson} {St : Type} {cell : CasCell St}.
Variable sha256 : bytes -> bytes.
Variable hex_decode : string -> result string bytes.
Variable proof_to_string : AccountProof -> result string string.
Variable generated : bytes.
Hypothesis hex_decode_string : forall b, hex_decode (hex_string b) = Ok b.
Hypothesis proof_roundtrip : forall p s, proof_to_string p = Ok s -> proof_from_str s = Ok p.
Hypothesis sha_length : forall b, length (sha256 b) = 32.

Abbreviation open := (Identity.open sha256 hex_decode content_to_vec roster_to_vec delegation_to_vec identity_to_vec identity_from_slice).
Abbreviation validate_identity := (validate_identity sha256 hex_decode content_to_vec roster_to_vec delegation_to_vec).
Abbreviation create := (create sha256 hex_decode proof_to_string generated).
Abbreviation verify_signature := (verify_signature sha256 hex_decode).
Abbreviation ownership_verify := (ownership_verify sha256 hex_decode).
Abbreviation origin_verify := (origin_verify sha256 hex_decode).

Lemma open_valid s peer s' i : open s generated peer = (s', Ok i) -> validate_identity i peer = Ok tt.
Proof.
  assert (Hload : forall b,
    (r ← map_err (fun _ => storage_error) (identity_from_slice b);
     _ ← validate_identity {| persisted := b; signing_key := seed r; record := r |} peer;
     Ok {| persisted := b; signing_key := seed r; record := r |}) = Ok i -> validate_identity i peer = Ok tt).
  { intros b Hl. apply bind_Ok in Hl as (r & _ & Hl). by apply bind_Ok in Hl as ([] & Hv & [= <-]). }
  unfold Identity.open. cbn zeta. destruct (cell_get s) as [[b|]|]; [| |done].
  - intros [= _ Hl]. by apply (Hload b).
  - destruct (_ ≫= _) as [b|]; [|done]. destruct (cell_init s b) as [s1 [w|]]; [|done].
    intros [= _ Hl]. by apply (Hload w).
Qed.

Lemma local_identity_Ok who s s' i : local_identity sha256 hex_decode generated who s = (s', Ok (Some i)) ->
  exists peer st st', local_peer who = Some peer /\ s = Some st /\ s' = Some st' /\ open st generated peer = (st', Ok i) /\
    Identity.revoked sha256 hex_decode content_to_vec roster_to_vec i = Ok false.
Proof.
  unfold local_identity. destruct (attached who); [|done]. destruct s as [st|]; [|done]. destruct (local_peer who) as [peer|]; [|done].
  destruct (open st generated peer) as [st' [j|e]] eqn:Eo; [|done]. intros [= <- Hr].
  apply bind_Ok in Hr as ([] & Hr%map_err_Ok & [= <-]). by exists peer, st, st'.
Qed.

Lemma public_key_made seed : public_key hex_decode (hex_string (verifying_key seed)) = Ok (verifying_key seed).
Proof using laws hex_decode_string.
  unfold public_key. rewrite hex_decode_string. cbn. rewrite key_length, key_decodes, key_strong, String.eqb_refl. done.
Qed.

(** The certificate an opened identity speaks with is sound and its own. *)
Lemma own_certificate_Ok i peer c : validate_identity i peer = Ok tt ->
  Identity.own_certificate sha256 hex_decode content_to_vec roster_to_vec i = Ok (Some c) ->
  verify_certificate hex_decode delegation_to_vec c = Ok tt /\ root c = user_id (roster (record i)) /\
  subject c = hex_string (verifying_key (Identity.key i)).
Proof using laws hex_decode_string.
  intros Hv Hc. unfold Identity.validate_identity in Hv. cbv zeta in Hv. apply bind_Ok in Hv as ([] & Hcert & Hv).
  apply bind_Ok in Hv as ([] & Hg%guard_or_Ok & _). apply andb_true_iff in Hg as [_ Hkey%String.eqb_eq].
  unfold Identity.own_certificate in Hc. apply bind_Ok in Hc as ([] & _ & Hc); [done|].
  destruct (String.eqb_spec (signing_public_key (own_device (record i))) (user_id (roster (record i)))) as [He|_].
  - injection Hc as <-. rewrite Hkey. split; [|by cbn; rewrite Hkey].
    unfold verify_certificate. cbn. by rewrite public_key_made.
  - injection Hc as Hc. rewrite Hc in Hcert. cbn in Hcert. apply bind_Ok in Hcert as ([] & Hver & Hg%guard_or_Ok).
    apply andb_true_iff in Hg as [Hr%String.eqb_eq Hs%String.eqb_eq]. by rewrite Hs, Hkey.
Qed.

(** The proof of account this installation makes is good: whoever checks it
    for the key it was made for accepts it, and reads from it the user of the
    roster the installation keeps. *)
Theorem own_proof_accepted who subj s s' p (Hc : create who subj s = (s', Ok (Some p))) (Hlen : (str_len p <= 16000)%N) :
  exists peer st st' i, local_peer who = Some peer /\ s = Some st /\ s' = Some st' /\ open st generated peer = (st', Ok i) /\
    ownership_verify p subj = Ok (user_id (roster (record i))).
Proof using laws hex_decode_string proof_roundtrip.
  apply m_bind_Ok in Hc as (s1 & [i|] & Hi & Hc); [|done]. injection Hc as -> Hc.
  apply local_identity_Ok in Hi as (peer & st & st' & Hp & -> & -> & Ho & _). exists peer, st, st', i. repeat (split; [done|]).
  apply bind_Ok in Hc as ([c|] & Hcert%map_err_Ok & Hc); [|done].
  destruct (own_certificate_Ok i peer c (open_valid _ _ _ _ Ho) Hcert) as (Hver & Hroot & Hsub).
  apply bind_Ok in Hc as (input & Hin%map_err_Ok & Hc).
  destruct (proof_to_string _) as [str|] eqn:Es; [|done]. injection Hc as ->. apply proof_roundtrip in Es.
  unfold ownership_verify, Deletion.ownership_verify, verified_proof.
  rewrite (proj2 (N.leb_le _ _) Hlen). cbn [guard_or mbind result_bind]. rewrite Es. cbn [mbind result_bind].
  unfold verify_proof. cbn. rewrite String.eqb_refl. cbn. rewrite Hver. cbn.
  unfold proof_input in *. cbn in *. rewrite Hin. cbn. rewrite Hsub, sign_verify by done. cbn. by rewrite Hroot.
Qed.

(** *** Origins *)

(** The sizes a reader allows; a proof of account is checked when there is one. *)
Record fitting (conv i : string) (p : option string) : Prop := {
  fit_conv : conv <> "" /\ (str_len conv <= 512)%N;
  fit_id : i <> "" /\ (str_len i <= 256)%N;
  fit_proof : forall q, p = Some q -> (str_len q <= 16000)%N;
}.

Lemma create_accepted who subj s s' p q : create who subj s = (s', Ok p) -> p = Some q -> (str_len q <= 16000)%N ->
  exists user, ownership_verify q subj = Ok user.
Proof using laws hex_decode_string proof_roundtrip.
  intros Hc -> Hl. destruct (own_proof_accepted who subj s s' q Hc Hl) as (_ & _ & _ & i & _ & _ & _ & _ & Hv). by eexists.
Qed.

(** Whatever key signs, if readers accept what it signs they accept the origin. *)
Lemma signed_accepted who public signer conv i content s s' o
  (Hsigner : forall b sig, signer b = Ok sig -> verify_signature (hex_string public) (hex_string sig) b = Ok tt) :
  sign_with sha256 hex_decode proof_to_string generated who public signer conv i content s = (s', Ok o) ->
  fitting conv i (ownership o) -> origin_verify o conv i content = Ok tt /\ author o = hex_string public /\ conversation o = conv /\ id o = i.
Proof using laws hex_decode_string proof_roundtrip sha_length.
  unfold sign_with. destruct (create who _ s) as [s1 [p|e]] eqn:Ec; [|done]. intros [= -> Hs] Hf.
  apply bind_Ok in Hs as (input & Hi & Hs). apply bind_Ok in Hs as (sig & Hsig & [= <-]). cbn in Hf, Hi.
  split; [|done]. unfold Deletion.origin_verify. cbn. rewrite !String.eqb_refl. cbn.
  unfold origin_verify_signature. cbn. destruct Hf as [[Hc0 Hc] [Hi0 Hi'] Hp].
  assert (Hown : exists u, match p with Some q => r ← ownership_verify q (hex_string public); Ok tt | None => Ok tt end = @Ok string unit u).
  { destruct p as [q|]; [|by exists tt]. destruct (create_accepted _ _ _ _ _ q Ec eq_refl (Hp q eq_refl)) as [u Hu].
    cbn in Hu. rewrite Hu. by exists tt. }
  destruct Hown as [u ->]. cbn.
  assert (Hh : str_len (Deletion.sha_hex sha256 content) = 64%N)
    by (unfold str_len, Deletion.sha_hex; rewrite hex_string_length, sha_length; done).
  rewrite Hh, (proj2 (String.eqb_neq _ _) Hc0), (proj2 (String.eqb_neq _ _) Hi0), (proj2 (N.ltb_ge _ _) Hc), (proj2 (N.ltb_ge _ _) Hi').
  cbn. unfold signing_input in *. cbn in *. rewrite Hi. cbn. by apply Hsigner.
Qed.

Lemma seed_signs seed b sig : Ok (E := string) (sign seed b) = Ok sig ->
  verify_signature (hex_string (verifying_key seed)) (hex_string sig) b = Ok tt.
Proof using laws hex_decode_string. intros [= <-]. by apply sign_verify. Qed.

(** *** Offers *)

Abbreviation validate_preview := (Transfer.validate_preview (json' := json')).
Abbreviation verify_offer := (Transfer.verify_offer sha256 hex_decode).

Lemma invalid_preview_origin d m p o o' :
  Transfer.invalid_preview d (with_origin o m) (with_origin o' p) = Transfer.invalid_preview d m p.
Proof. done. Qed.
Lemma manifest_bytes_origin o m : manifest_bytes (with_origin o m) = manifest_bytes m.
Proof. done. Qed.

(** What [prepare_offer] seals passed the receivers' check of previews. *)
Lemma prepared_valid (path_text : Files.Path -> string) secret secret' o preview w w1 out :
  Transfer.prepare_offer sha256 path_text secret secret' o preview w = (w1, Ok out) ->
  validate_preview (Transfer.offer_of out) = Ok tt /\ (forall p, Transfer.o_preview out = Some p -> Transfer.o_preview p = None).
Proof.
  assert (Hplain : forall sc o w w1 out, Transfer.prepare_outgoing sha256 path_text sc o w = (w1, Ok out) -> Transfer.o_preview out = None).
  { intros sc o0 w0 w2 out0. unfold Transfer.prepare_outgoing. intros (w3 & m & _ & H)%m_bind_Ok.
    destruct (Transfer.with_lease _ _ w3) as [w4 [p|e]]; [|done]. by injection H as <- <-. }
  unfold Transfer.prepare_offer. intros (w2 & [] & _ & H)%m_bind_Ok. apply m_bind_Ok in H as (w3 & o1 & H1%Hplain & H).
  apply m_bind_Ok in H as (w4 & o2 & H2 & H). unfold Transfer.check_offer in H.
  destruct (Transfer.validate_preview _) as [[]|e] eqn:Ev; [|done]. injection H as _ <-. split; [done|].
  unfold Transfer.attach_preview in H2. destruct preview as [b|]; [|injection H2 as _ <-; by rewrite H1].
  destruct (Transfer.prepare_outgoing _ _ secret' _ w3) as [w5 [p|e]] eqn:Ep; [|done]. apply Hplain in Ep. injection H2 as _ <-.
  destruct o1. cbn. by intros ? [= <-].
Qed.

Lemma valid_preview_id m p : validate_preview {| History.manifest := m; History.offered_preview := Some p |} = Ok tt ->
  Attachments.attachment_id p = Transfer.preview_id (Attachments.attachment_id m).
Proof.
  unfold Transfer.validate_preview. cbn. intros (bad & Hb & Hg%guard_or_Ok)%bind_Ok. unfold Transfer.invalid_preview in Hb.
  apply bind_Ok in Hb as (jpeg & _ & [= <-]). apply negb_true_iff in Hg.
  do 9 apply orb_false_iff in Hg as [Hg _]. apply orb_false_iff in Hg as [_ Hg]. by apply negb_false_iff, String.eqb_eq in Hg.
Qed.

Lemma preview_unowned seed conv i content s s' o :
  sign_origin sha256 hex_decode proof_to_string generated false seed conv i content s = (s', Ok o) -> ownership o = None.
Proof.
  unfold sign_origin, sign_with, Signing.create, m_bind, local_identity, m_lift. cbn. intros [= _ H].
  apply bind_Ok in H as (b & _ & [= <-]). done.
Qed.

#[local] Arguments sign_origin : simpl never.

(** C26. An attachment sent from here is accepted there: when a file and its
    preview were sealed and the offer was signed with the device's key, whoever
    receives the offer in that conversation verifies it, and finds that key to
    be its author, alone or together with the key of the frame it came in; the
    only conditions are the sizes a reader allows. *)
Theorem signed_offer_accepted (path_text : Files.Path -> string) secret secret' o preview w w1 out has_store seed ctx s s' out' origin
  (Hp : Transfer.prepare_offer sha256 path_text secret secret' o preview w = (w1, Ok out))
  (Hs : sign_offer sha256 hex_decode proof_to_string generated has_store seed ctx out s = (s', out', Ok origin))
  (Hfit : fitting ctx (Attachments.attachment_id (Transfer.o_manifest out)) (ownership origin))
  (Hfit' : forall p, Transfer.o_preview out = Some p ->
     fitting (Transfer.preview_context ctx (Attachments.attachment_id (Transfer.o_manifest out)))
       (Transfer.preview_id (Attachments.attachment_id (Transfer.o_manifest out))) None) :
  author origin = hex_string (verifying_key seed) /\
  verify_offer ctx None (Transfer.offer_of out') = Ok tt /\ verify_offer ctx (Some (verifying_key seed)) (Transfer.offer_of out') = Ok tt.
Proof using laws hex_decode_string proof_roundtrip sha_length.
  apply prepared_valid in Hp as [Hvalid Hnone]. destruct out as [m d path preview']. cbn in *.
  unfold sign_offer in Hs. cbn in Hs. destruct (manifest_bytes m) as [b|e] eqn:Eb; [|done].
  destruct (sign_origin _ _ _ _ has_store seed ctx _ b s) as [s1 [og|e]] eqn:Eo; [|done].
  assert (Hog : og = origin).
  { destruct preview' as [p|]; [|by injection Hs]. destruct (sign_outgoing _ _ _ p s1) as [[s2 p'] r].
    injection Hs as _ _ Hr. by apply bind_Ok in Hr as (? & _ & [= ->]). }
  subst og. destruct (signed_accepted _ _ _ _ _ _ _ _ _ (seed_signs seed) Eo Hfit) as (Hver & Hauth & Hconv & Hid).
  split; [done|].
  assert (Hmain : forall signer, signer = None \/ signer = Some (verifying_key seed) ->
    match signer with
    | Some k => Transfer.verify_manifest_from_signer sha256 hex_decode origin ctx (with_origin (Some origin) m) k
    | None => Transfer.verify_manifest sha256 hex_decode origin ctx (with_origin (Some origin) m)
    end = Ok tt).
  { intros signer [->| ->]; unfold Transfer.verify_manifest, Transfer.verify_manifest_from_signer;
      rewrite manifest_bytes_origin, Eb; cbn [mbind result_bind]; [exact Hver|].
    unfold verify_from_signer. change (Attachments.attachment_id (with_origin _ m)) with (Attachments.attachment_id m).
    rewrite Hver. cbn. by rewrite Hauth, String.eqb_refl. }
  enough (Hboth : forall signer, signer = None \/ signer = Some (verifying_key seed) -> verify_offer ctx signer (Transfer.offer_of out') = Ok tt)
    by (split; apply Hboth; auto).
  intros signer Hsigner. specialize (Hmain signer Hsigner). unfold Transfer.verify_offer.
  destruct preview' as [[pm pd pp pv]|]; cbn in *.
  - pose proof (Hnone _ eq_refl) as Hpv. cbn in Hpv. subst pv. cbn in Hs. destruct (manifest_bytes pm) as [pb|e] eqn:Epb; [|by injection Hs].
    destruct (sign_origin _ _ _ _ false seed _ _ pb s1) as [s2 [po|e]] eqn:Epo; [|by injection Hs].
    injection Hs as _ <-. cbn. pose proof (preview_unowned _ _ _ _ _ _ _ Epo) as Hno.
    rewrite (valid_preview_id _ _ Hvalid) in Epo.
    destruct (signed_accepted _ _ _ _ _ _ _ _ _ (seed_signs seed) Epo) as (Hpver & Hpauth & _ & _); [rewrite Hno; by eapply Hfit'|].
    unfold Transfer.validate_preview in *. cbn in *. rewrite invalid_preview_origin, Hvalid. cbn.
    replace (match signer with Some _ => _ | None => _ end) with (Ok (E := string) tt) by (by destruct signer).
    cbn. unfold Transfer.verify_manifest. rewrite manifest_bytes_origin, Epb. cbn. rewrite Hid, (valid_preview_id _ _ Hvalid), Hpver. cbn.
    by rewrite Hpauth, Hauth, String.eqb_refl.
  - injection Hs as _ <-. cbn. by destruct signer; rewrite Hmain.
Qed.

(** *** Accounts and administrators *)

Lemma accounts_of_lookup l k u : (forall v, (k, v) ∈ l -> v = u) -> accounts_of l !! k = Some u <-> (k, u) ∈ l.
Proof.
  unfold accounts_of. induction l as [|[k' v] l IH] using rev_ind; intros Hu.
  { cbn. rewrite lookup_empty, elem_of_nil. done. }
  rewrite foldl_app. cbn. rewrite lookup_insert_Some, IH, elem_of_app, list_elem_of_singleton.
  2:{ intros w Hw. apply Hu, elem_of_app. by left. }
  split; [intros [[-> ->]|[_ ?]]; auto|]. intros [Hin|[= -> ->]]; [|by left].
  destruct (decide (k' = k)) as [->|]; [left|by right]. split; [done|]. apply Hu, elem_of_app. right. by left.
Qed.

Definition key_of (k : string) (ds : list DeviceDescriptor) : Prop := exists d, d ∈ ds /\ k ∈ device_keys d.
Lemma key_of_iff k ds : key_of k ds <-> k ∈ concat (map device_keys ds).
Proof.
  rewrite list_elem_of_In, in_concat. unfold key_of. split.
  - intros (d & Hd & Hk). exists (device_keys d). rewrite <-!list_elem_of_In. split; [|done]. by apply list_elem_of_fmap_2.
  - intros (l & Hl & Hk). apply in_map_iff in Hl as (d & <- & Hd). exists d. by rewrite !list_elem_of_In.
Qed.

(** What this installation knows of its own account by itself is exactly its
    roster: the keys of the devices that are or were in it belong to its user,
    those of the removed ones are revoked, and no other key is either. *)
Theorem moss_accounts_exact who s s' o :
  moss_accounts sha256 hex_decode generated who s = (s', Ok o) ->
  o = no_accounts /\ local_identity sha256 hex_decode generated who s = (s', Ok None) \/
  exists i ds removed, local_identity sha256 hex_decode generated who s = (s', Ok (Some i)) /\
    devices_of sha256 hex_decode content_to_vec roster_to_vec (roster (record i)) = Ok ds /\
    removal_targets sha256 hex_decode content_to_vec roster_to_vec (roster (record i)) = Ok removed /\
    (forall k u, own_accounts o !! k = Some u <-> u = user_id (roster (record i)) /\ key_of k (ds ++ removed)) /\
    forall k, k ∈ revoked_keys o <-> key_of k removed.
Proof.
  intros (s1 & [i|] & Hi & H)%m_bind_Ok; injection H as <- H; [right|left; by subst].
  apply bind_Ok in H as (ds & Hd%map_err_Ok & H). apply bind_Ok in H as (removed & Hr%map_err_Ok & [= <-]).
  exists i, ds, removed. repeat (split; [done|]). cbn. split.
  - intros k u. rewrite key_of_iff. set (l := concat _). split.
    + intros Hk. assert (Hin : (k, u) ∈ map (fun k => (k, user_id (roster (record i)))) l).
      { apply accounts_of_lookup; [|done]. intros v Hv. enough (forall v, accounts_of (map (fun k => (k, user_id (roster (record i)))) l) !! k = Some v -> v = user_id (roster (record i))) as He.
        - apply list_elem_of_fmap in Hv as (k0 & [= -> ->] & _). symmetry. by apply He.
        - clear. intros v. unfold accounts_of. induction l as [|x l IH] using rev_ind; [done|]. rewrite map_app, foldl_app. cbn.
          rewrite lookup_insert_Some. intros [[_ ->]|[_ Hv]]; [done|by apply IH]. }
      apply list_elem_of_fmap in Hin as (k0 & [= -> ->] & Hk0). done.
    + intros [-> Hk]. apply accounts_of_lookup.
      * intros v (k0 & [= -> ->] & _)%list_elem_of_fmap. done.
      * apply list_elem_of_fmap. by exists k.
  - intros k. by rewrite key_of_iff, elem_of_list_to_set.
Qed.

Lemma add_admins mls roster fp l acc acc' : try_fold (add_admin hex_decode mls roster fp) acc l = Ok acc' ->
  forall k, k ∈ acc' <-> k ∈ acc \/ k ∈ l /\ is_admin hex_decode mls roster fp k = Ok true.
Proof.
  revert acc. induction l as [|x l IH]; intros acc; cbn; [intros [= <-] k; rewrite elem_of_nil; tauto|].
  intros (acc1 & Ha & Hl)%bind_Ok k. rewrite (IH _ Hl k), elem_of_cons. unfold add_admin in Ha.
  apply bind_Ok in Ha as ([] & Hx & [= <-]).
  - rewrite elem_of_union, elem_of_singleton. split; [intros [[->|?]|[? ?]]|intros [?|[[->|?] ?]]]; auto.
  - split; [intros [?|[? ?]]|intros [?|[[->|?] ?]]]; auto. congruence.
Qed.

(** In a group the administrators are exactly the members who are: by the
    organization's roster if the group belongs to one, by the fingerprint of
    the group's administrator otherwise; the members are the MLS group's. *)
Theorem admins_exact who mls name fp roster acc s s' a :
  group_authority sha256 hex_decode proof_to_string generated who mls name fp roster acc s = (s', Ok a) ->
  (forall k, k ∈ members a <-> k ∈ member_signers mls) /\ public_channel a = false /\
  exists r, match roster with None => r = None | Some answer => exists checked, answer = Ok checked /\ r = Some checked end /\
    forall k, k ∈ admins a <-> k ∈ members a /\ is_admin hex_decode mls r fp k = Ok true.
Proof.
  unfold group_authority. destruct (local_actor _ _ _ _ _ _ _ _ s) as [s1 [lo|e]]; [|done].
  destruct (moss_accounts _ _ _ _ s1) as [s2 [ow|e]]; [|done]. intros [= _ H].
  apply bind_Ok in H as (r & Hr & H). apply bind_Ok in H as (ad & Had & [= <-]). cbn.
  split; [intros k; apply elem_of_list_to_set|]. split; [done|]. exists r. split.
  - destruct roster as [[checked|e]|]; [|done|by injection Hr]. injection Hr as <-. by exists checked.
  - intros k. rewrite (add_admins _ _ _ _ _ _ Had k), merge_sort_Permutation, elem_of_elements, elem_of_empty. tauto.
Qed.

(** *** Frames *)

Variable encrypt decrypt : bytes -> bytes -> bytes -> bytes -> result string bytes.
Hypothesis aes_roundtrip : forall k n ad b c, encrypt k n ad b = Ok c -> decrypt k n ad c = Ok b /\ length c = length b + 16.
Hypothesis b64_roundtrip : forall b, b64_decode (b64_encode b) = Ok b.
Hypothesis message_roundtrip : forall m b, message_to_vec m = Ok b -> message_from_slice b = Ok m.

Lemma signed_frame_verified public signer f g
  (Hsigner : forall b sig, signer b = Ok sig -> verify_signature (hex_string public) (hex_string sig) b = Ok tt) :
  sign_frame signer f = Ok g -> f_author f = hex_string public -> (str_len (payload_b64 f) <= 60000)%N ->
  frame_verify sha256 hex_decode g (f_context f) = Ok tt /\ g = with_frame_signature (f_signature g) f.
Proof.
  intros (input & Hi & H)%bind_Ok Ha Hl. apply bind_Ok in H as (sig & Hsig & [= <-]). split; [|done].
  unfold frame_verify. cbn. rewrite String.eqb_refl, (proj2 (N.leb_le _ _) Hl). cbn.
  unfold frame_input in *. cbn in *. rewrite Hi. cbn. rewrite Ha. by apply Hsigner.
Qed.

(** What one member seals another opens: a deletion message sealed for a
    conversation is read back unchanged by every member of the group at the
    same epoch, who holds the same exported key, and it names its signer. *)
Theorem deletion_frame_opened nonce ctx mls mls' m f
  (Hsigner : forall b sig, sign_sender_proof mls b = Ok sig ->
     verify_signature (hex_string (signer_public mls)) (hex_string sig) b = Ok tt)
  (Hn : length nonce = 12) (Hs : seal_mls encrypt nonce ctx mls m = Ok f) (Hl : (str_len (payload_b64 f) <= 60000)%N)
  (He : mls_epoch mls' = mls_epoch mls) (Hk : metadata_key mls' = metadata_key mls) :
  open_mls sha256 hex_decode decrypt ctx mls' f = Ok m /\ f_author f = hex_string (signer_public mls).
Proof using aes_roundtrip b64_roundtrip message_roundtrip.
  unfold seal_mls in Hs. apply bind_Ok in Hs as (b & Hb & Hs). apply bind_Ok in Hs as (key & Hkey & Hs).
  apply bind_Ok in Hs as (c & Hc%map_err_Ok & Hs). apply bind_Ok in Hs as (ep & Hep%ok_or_Ok & Hs).
  apply aes_roundtrip in Hc as [Hdec Hlen].
  pose proof Hs as Hf. apply bind_Ok in Hf as (input & _ & Hf). apply bind_Ok in Hf as (sig & _ & [= Hfe]).
  assert (Hp : payload_b64 f = b64_encode (nonce ++ c)) by (by rewrite <-Hfe).
  destruct (signed_frame_verified _ _ _ _ Hsigner Hs eq_refl) as [Hver _]; [by rewrite <-Hp|]. cbn in Hver.
  split; [|by rewrite <-Hfe]. unfold open_mls. rewrite Hver. cbn. rewrite bool_decide_true by (rewrite He, <-Hfe; done). cbn.
  assert (Hlong : (length (nonce ++ c) <=? 27)%nat = false) by (apply Nat.leb_gt; rewrite length_app; lia).
  rewrite Hp, b64_roundtrip. cbn [mbind result_bind]. rewrite Hlong. cbn.
  unfold cipher in *. rewrite Hk, Hkey. cbn. rewrite take_app_length', drop_app_length' by done. rewrite Hdec. cbn. by apply message_roundtrip.
Qed.

End Accepted.

(** ** Examples: one installation whose key is the seed [1] *)

#[local] Existing Instances Deletion.toy_json Store.plain_cell.
#[local] Instance AccountProof_eq_dec : EqDecision AccountProof.
Proof. solve_decision. Defined.

Definition my_key : string := toy_key [x01].
Definition me : LocalIdentity :=
  default (record blank) (res_ok (new_identity Files.wide_sha hex_bytes toy_content toy_roster_bytes [x01] my_key)).
#[local] Instance my_json' : ErasureJson := {|
  json_to_vec _ := Ok []; manifest_to_vec _ := Ok [];
  message_to_vec m := match m with RequestM None None => Ok [x07] | _ => Err "unknown" end;
  message_from_slice b := if bool_decide (b = [x07]) then Ok (RequestM None None) else Err "malformed";
  content_to_vec := toy_content; roster_to_vec := toy_roster_bytes;
  identity_to_vec r := if decide (r = me) then Ok [x01] else Err "unknown";
  identity_from_slice b := if bool_decide (b = [x01]) then Ok me else Err "malformed";
  b64_encode := Fragments.toy_encode; b64_decode := Fragments.toy_decode;
|}.
Definition proof_text (p : AccountProof) : result string string :=
  if decide (p = toy_proof [x01]) then Ok "alice" else Err "unknown".
Definition my_peer : Caller := {| attached := true; local_peer := Some my_key |}.
Definition my_store : option Store.Persistence := Some (new_store []).

Lemma proof_text_roundtrip p s : proof_text p = Ok s -> proof_from_str s = Ok p.
Proof. unfold proof_text. destruct (decide _) as [->|]; [intros [= <-]; reflexivity|done]. Qed.
Lemma wide_sha_length b : length (Files.wide_sha b) = 32.
Proof. unfold Files.wide_sha. rewrite length_take, length_app, length_replicate. lia. Qed.

Abbreviation my_proof := (create Files.wide_sha hex_bytes proof_text [x01] my_peer my_key my_store).
Lemma own_proof_accepted_witness :
  my_proof.2 = Ok (Some "alice") /\ exists i, ownership_verify Files.wide_sha hex_bytes "alice" my_key = Ok (user_id (roster (record i))).
Proof.
  assert (Hp : my_proof = (my_proof.1, Ok (Some "alice"))) by (apply surjective_pairing_eq; vm_compute; reflexivity).
  split; [vm_compute; reflexivity|].
  destruct (own_proof_accepted Files.wide_sha hex_bytes proof_text [x01] hex_bytes_string proof_text_roundtrip my_peer my_key my_store _ "alice" Hp)
    as (_ & _ & _ & i & _ & _ & _ & _ & Hv); [vm_compute; discriminate|].
  exists i. exact Hv.
Defined.

Abbreviation my_accounts := (moss_accounts Files.wide_sha hex_bytes [x01] my_peer my_store).
Definition known_accounts : OwnAccounts := default no_accounts (res_ok my_accounts.2).
Lemma moss_accounts_exact_witness :
  own_accounts known_accounts !! my_key = Some my_key /\
  (known_accounts = no_accounts \/ exists removed, forall k, k ∈ revoked_keys known_accounts <-> key_of k removed).
Proof.
  assert (Hp : my_accounts = (my_accounts.1, Ok known_accounts)) by (apply surjective_pairing_eq; vm_compute; reflexivity).
  split; [vm_compute; reflexivity|].
  destruct (moss_accounts_exact Files.wide_sha hex_bytes [x01] my_peer my_store _ known_accounts Hp)
    as [[Hn _]|(i & ds & removed & _ & _ & _ & _ & Hr)]; [left; exact Hn|right; exists removed; exact Hr].
Defined.

(** The note of Transfer with its preview, sealed and signed. *)
Abbreviation sealed_note := (Transfer.prepare_offer Files.wide_sha Transfer.plain_path Transfer.toy_secret Transfer.toy_secret
  Transfer.note_out (Some (Transfer.jpeg_magic ++ [x01])) Transfer.fresh).
Definition my_note : Transfer.Outgoing :=
  default (Transfer.Prepared Transfer.no_manifest Transfer.note_descriptor "" None) (res_ok sealed_note.2).
Abbreviation signed_note := (sign_offer Files.wide_sha hex_bytes proof_text [x01] true [x01] "dm:x" my_note my_store).
Definition no_origin : MessageOrigin := alice_unsigned "".
Definition note_origin : MessageOrigin := default no_origin (res_ok signed_note.2).

Lemma signed_offer_accepted_witness :
  ownership note_origin = Some "alice" /\
  Transfer.verify_offer Files.wide_sha hex_bytes "dm:x" None (Transfer.offer_of signed_note.1.2) = Ok tt.
Proof.
  assert (Hp : sealed_note = (sealed_note.1, Ok my_note)) by (apply surjective_pairing_eq; vm_compute; reflexivity).
  assert (Hs : signed_note = (signed_note.1.1, signed_note.1.2, Ok note_origin)) by (apply surjective_pairing_eq2; vm_compute; reflexivity).
  split; [vm_compute; reflexivity|].
  refine (proj1 (proj2 (signed_offer_accepted Files.wide_sha hex_bytes proof_text [x01] hex_bytes_string proof_text_roundtrip wide_sha_length
    Transfer.plain_path Transfer.toy_secret Transfer.toy_secret Transfer.note_out (Some (Transfer.jpeg_magic ++ [x01])) Transfer.fresh
    sealed_note.1 my_note true [x01] "dm:x" my_store signed_note.1.1 signed_note.1.2 note_origin Hp Hs _ _))).
  - split; [split; vm_compute; discriminate|split; vm_compute; discriminate|].
    intros q Hq. vm_compute in Hq. injection Hq as <-. vm_compute. discriminate.
  - intros p _. split; [split; vm_compute; discriminate|split; vm_compute; discriminate|done].
Defined.

Definition my_group : MlsCrypto :=
  {| is_ready := true; mls_epoch := Some 3%N; signer_public := pad32 [x01]; sign_sender_proof := fun b => Ok (sign [x01] b);
     member_signers := [my_key; toy_key [x02]]; member_identity_for_signer := fun _ => None; metadata_key := fun _ _ => Ok (replicate 32 x05) |}.
Abbreviation judged := (group_authority Files.wide_sha hex_bytes proof_text [x01] my_peer my_group "Ann" "0100" None ∅ my_store).
Definition judges : DeletionAuthority := default bob_authority (res_ok judged.2).
Lemma admins_exact_witness : my_key ∈ admins judges /\ toy_key [x02] ∉ admins judges.
Proof.
  assert (Hp : judged = (judged.1, Ok judges)) by (apply surjective_pairing_eq; vm_compute; reflexivity).
  destruct (admins_exact Files.wide_sha hex_bytes proof_text [x01] my_peer my_group "Ann" "0100" None ∅ my_store _ judges Hp)
    as (Hm & _ & r & -> & Hadm).
  split; rewrite Hadm, Hm.
  - split; [left|vm_compute; reflexivity].
  - intros [_ Hno]. vm_compute in Hno. discriminate Hno.
Defined.

Definition toy_encrypt (k n ad b : bytes) : result string bytes := Ok (b ++ replicate 16 x00).
Definition toy_decrypt (k n ad c : bytes) : result string bytes := Ok (take (length c - 16) c).
Abbreviation my_frame := (seal_mls toy_encrypt (replicate 12 x02) "group:club" my_group (RequestM None None)).
Lemma deletion_frame_opened_witness : exists f, my_frame = Ok f /\
  open_mls Files.wide_sha hex_bytes toy_decrypt "group:club" my_group f = Ok (RequestM None None).
Proof.
  destruct my_frame as [f|e] eqn:Hf; [|vm_compute in Hf; discriminate Hf]. exists f. split; [reflexivity|].
  refine (proj1 (deletion_frame_opened Files.wide_sha hex_bytes toy_encrypt toy_decrypt _ _ _ (replicate 12 x02) "group:club" my_group my_group
    (RequestM None None) f _ eq_refl Hf _ eq_refl eq_refl)).
  - intros k n ad b c [= <-]. unfold toy_decrypt. rewrite length_app. cbn [length]. rewrite Nat.add_sub, take_app_length. done.
  - exact Fragments.toy_base64.
  - intros m b. cbn. destruct m as [|[] []| |]; try done. by intros [= <-].
  - intros b sig Hb. exact (seed_signs Files.wide_sha hex_bytes hex_bytes_string [x01] b sig Hb).
  - vm_compute in Hf. injection Hf as <-. vm_compute. discriminate.
Defined.
End Signing.
