(* ===== verification/Sessions.v ===== *)
(** * Sessions: deletion in a conversation of each kind
      (the [deletion.rs] of [private_group_runtime], [private_dm_runtime] and
      [channel_runtime])

    The three kinds of conversation run the deletion protocol alike: they build
    the authority they judge by, open and seal frames their own way, and hand
    what the exchange answers to their transport.  What differs is the record
    [Kind], with one instance each; what the transport answers is a script. *)
From S2P Require Import Prelude Store Devices Identity Messages Attachments Fragments Deletion Erasure Exchange OrgRoster.
From S2P Require Import Commits Signing.

Module Sessions.
Import Devices Identity Messages Deletion Erasure Exchange Signing.

#[local] Open Scope mosh_scope.
#[local] Set Default Proof Using "Type".

Inductive SessionError :=
| DeletionE (e : DeletionError) | CodecE (e : string) | PersistenceE (e : string) | TransportE (e : string)
| GroupE (e : Commits.PrivateGroupError).

Definition SYNC_DELAY : N := 2000.

Section Sessions.
Context {scheme : Ed25519} {json : DeletionJson} {json' : ErasureJson}.
Context {M : Type} {msg : ConversationMessage M} {deletable : DeletableMessage M}.
Context {T : Type} {transfer : TransferOps T} {St : Type} {store : DeletionStore St M}.
Variable sha256 : bytes -> bytes.
Variable hex_decode : string -> result string bytes.
Variable proof_to_string : AccountProof -> result string string.
Variable generated : bytes.
Variable encrypt decrypt : bytes -> bytes -> bytes -> bytes -> result string bytes.
Variable occurrence_to_vec : string * DeletionMessage -> result string bytes.
Variable occurrence_from_slice : bytes -> result string (string * DeletionMessage).

Abbreviation DeletionContext := (@DeletionContext M T St).
Abbreviation create_for := (local_actor sha256 hex_decode proof_to_string generated).

(** ** What differs between the kinds *)

(** [k_seal n] seals the [n]th frame, with its own nonce or occurrence id;
    [k_ready] says whether the group may be written to, and [k_reconciles]
    whether rights are checked again before asking for records. *)
Record Kind := {
  k_authority : gset string -> method (option St) SessionError DeletionAuthority;
  k_seal : nat -> DeletionMessage -> result string DeletionFrame;
  k_open : DeletionFrame -> result string DeletionMessage;
  k_sign : bytes -> result string string;
  k_ready : bool;
  k_reconciles : bool;
  k_peer : option string;
}.

Definition failing {S E F A} (f : E -> F) (m : method S E A) : method S F A := fun s => let '(s, r) := m s in (s, map_err f r).
Definition mls_sign (mls : MlsCrypto) (b : bytes) : result string string := s ← sign_sender_proof mls b; Ok (hex_string s).

Definition group_kind (ctx : string) (who : Caller) (mls : MlsCrypto) (name admin_fingerprint : string)
    (roster : option (result Commits.PrivateGroupError OrgRoster.Roster)) (joined : bool) (nonces : nat -> bytes) : Kind :=
  {| k_authority acc := failing GroupE (group_authority sha256 hex_decode proof_to_string generated who mls name admin_fingerprint roster acc);
     k_seal n := seal_mls encrypt (nonces n) ctx mls; k_open := open_mls sha256 hex_decode decrypt ctx mls;
     k_sign := mls_sign mls; k_ready := joined && is_ready mls; k_reconciles := true; k_peer := local_peer who |}.

Definition dm_kind (ctx : string) (who : Caller) (mls : MlsCrypto) (device : string) (clients : option (list (string * string)))
    (nonces : nat -> bytes) : Kind :=
  {| k_authority acc := failing DeletionE (dm_authority sha256 hex_decode proof_to_string generated who mls device clients acc);
     k_seal n := seal_mls encrypt (nonces n) ctx mls; k_open := open_mls sha256 hex_decode decrypt ctx mls;
     k_sign := mls_sign mls; k_ready := is_ready mls; k_reconciles := false; k_peer := local_peer who |}.

Definition channel_kind (ctx : string) (who : Caller) (seed : bytes) (name : string) (occurrences : nat -> string) : Kind :=
  {| k_authority acc := failing DeletionE (channel_authority sha256 hex_decode proof_to_string generated who seed name acc);
     k_seal n := seal_channel occurrence_to_vec (occurrences n) ctx seed;
     k_open := open_channel sha256 hex_decode occurrence_from_slice ctx;
     k_sign b := Ok (hex_string (sign seed b)); k_ready := true; k_reconciles := false; k_peer := local_peer who |}.

(** The kinds there are, of the conversation [ctx]. *)
Inductive kind_of (ctx : string) : Kind -> Prop :=
| GroupOf who mls name fp roster joined nonces : kind_of ctx (group_kind ctx who mls name fp roster joined nonces)
| DmOf who mls device clients nonces : kind_of ctx (dm_kind ctx who mls device clients nonces)
| ChannelOf who seed name occurrences : kind_of ctx (channel_kind ctx who seed name occurrences).

(** ** The session *)

(** [d_answers]: what the transport says to the next frames, an error or not;
    after the script it takes every frame. *)
Record Session := { d_ctx : DeletionContext; d_sent : list DeletionFrame; d_sealed : nat; d_answers : list (option string) }.
Abbreviation flow := (method Session SessionError).

Definition set_ctx (c : DeletionContext) (s : Session) : Session :=
  {| d_ctx := c; d_sent := d_sent s; d_sealed := d_sealed s; d_answers := d_answers s |}.
Definition on_ctx {E A} (f : E -> SessionError) (m : method DeletionContext E A) : flow A := fun s =>
  let '(c, r) := m (d_ctx s) in (set_ctx c s, map_err f r).
Definition set_sync (now : N) (s : Session) : Session :=
  let b := c_book (d_ctx s) in
  set_ctx (set_book {| b_context := b_context b; b_store := b_store b; b_records := b_records b; b_accepted := b_accepted b;
                       b_last_sync := now; b_fragments := b_fragments b |} (d_ctx s)) s.

Definition deletion_authority (k : Kind) : flow DeletionAuthority := fun s =>
  let b := c_book (d_ctx s) in
  let '(st, r) := k_authority k (b_accepted b) (b_store b) in
  (set_ctx (set_book (with_store st b) (d_ctx s)) s, r).

Definition transmit (f : DeletionFrame) : flow unit := fun s =>
  match head (d_answers s) with
  | Some (Some e) => ({| d_ctx := d_ctx s; d_sent := d_sent s; d_sealed := d_sealed s; d_answers := tail (d_answers s) |}, Err (TransportE e))
  | _ => ({| d_ctx := d_ctx s; d_sent := d_sent s ++ [f]; d_sealed := d_sealed s; d_answers := tail (d_answers s) |}, Ok tt)
  end.
Definition seal (k : Kind) (m : DeletionMessage) : flow DeletionFrame := fun s =>
  ({| d_ctx := d_ctx s; d_sent := d_sent s; d_sealed := S (d_sealed s); d_answers := d_answers s |},
   map_err CodecE (k_seal k (d_sealed s) m)).

Fixpoint publish_parts (k : Kind) (parts : list DeletionMessage) : flow unit :=
  match parts with
  | [] => m_ret tt
  | m :: parts => f <~ seal k m;; transmit f;;; publish_parts k parts
  end.
Definition publish_deletion (k : Kind) (m : DeletionMessage) : flow unit :=
  parts <~ m_lift (map_err CodecE (split sha256 m));; publish_parts k parts.
Fixpoint publish_all (k : Kind) (l : list DeletionMessage) : flow unit :=
  match l with [] => m_ret tt | m :: l => publish_deletion k m;;; publish_all k l end.

(** ** The handlers *)

(** In a group the frame's author is the sender MLS authenticated. *)
Definition receive_deletion_frame (k : Kind) (sender : option bytes) (f : DeletionFrame) : flow unit :=
  m_lift (guard_or (match sender with Some b => String.eqb (f_author f) (hex_string b) | None => true end) (CodecE "deletion carrier mismatch"));;;
  a <~ deletion_authority k;;
  if String.eqb (f_author f) (a_key (local a)) then m_ret tt
  else
    m <~ m_lift (map_err CodecE (k_open k f));;
    replies <~ on_ctx CodecE (receive sha256 hex_decode m (f_author f) a (k_sign k));;
    publish_all k replies.

Definition sync_deletions (k : Kind) (now : N) : flow unit := fun s =>
  if negb (has_shared_records (b_records (c_book (d_ctx s)))) then (s, Ok tt)
  else if negb (k_ready k) || (now - b_last_sync (c_book (d_ctx s)) <? SYNC_DELAY)%N then (s, Ok tt)
  else
    (a <~ deletion_authority k;;
     (if k_reconciles k then on_ctx PersistenceE (reconcile sha256 hex_decode a false) else m_ret tt);;;
     m_modify (set_sync now);;;
     fun s =>
       match digest_of sha256 hex_decode a (b_records (c_book (d_ctx s))) with
       | Err e => (s, Err (CodecE e))
       | Ok d => publish_deletion k (RequestM None (Some d)) s
       end) s.

(** [random]: the draws of the requests' operation ids. *)
Definition delete_messages (k : Kind) (random : nat -> string) (ids : list string) (scope : DeleteScope) : flow DeleteMessagesResult :=
  match scope with
  | ForMe => on_ctx DeletionE (delete_for_me sha256 hex_decode ids (k_peer k) generated)
  | ForEveryone =>
      a <~ deletion_authority k;;
      res <~ on_ctx DeletionE (admit_shared sha256 hex_decode ids (local a)
                                (fun m => o ← cm_origin m; permitted sha256 hex_decode a o) random (k_sign k));;
      m_modify (set_sync 0);;;
      fun s =>
        let '(rs, next) := page sha256 hex_decode a (b_records (c_book (d_ctx s))) None in
        ((publish_deletion k (StateM rs next) s).1, Ok res)
  end.

Definition apply_deletions : flow unit := on_ctx PersistenceE (Erasure.apply_deletions sha256 hex_decode).
Definition cancel_pending_deletions (mls : MlsCrypto) : flow unit :=
  on_ctx PersistenceE (cancel_pending sha256 hex_decode (hex_string (signer_public mls))).


(** ** The transport leaves the state alone *)

Lemma publish_parts_ctx k parts s s' r : publish_parts k parts s = (s', r) -> d_ctx s' = d_ctx s.
Proof.
  revert s. induction parts as [|m parts IH]; intros s; cbn; [by intros [= <- _]|].
  unfold m_bind, seal, transmit. destruct (map_err CodecE _) as [f|e]; [|by intros [= <- _]].
  cbn. destruct (head (d_answers s)) as [[e|]|]; [by intros [= <- _]|..]; intros H%IH; done.
Qed.
Lemma publish_ctx k m s s' r : publish_deletion k m s = (s', r) -> d_ctx s' = d_ctx s.
Proof. unfold publish_deletion, m_bind, m_lift. destruct (map_err _ _) as [parts|e]; [apply publish_parts_ctx|by intros [= <- _]]. Qed.
Lemma publish_all_ctx k l s s' r : publish_all k l s = (s', r) -> d_ctx s' = d_ctx s.
Proof.
  revert s. induction l as [|m l IH]; intros s; cbn; [by intros [= <- _]|]. unfold m_bind.
  destruct (publish_deletion k m s) as [s1 [[]|e]] eqn:E; apply publish_ctx in E; [|by intros [= <- _]]. intros H%IH. congruence.
Qed.

(** What a session sent: its parts, each sealed, in their order. *)
Definition sealed_as (k : Kind) (m : DeletionMessage) (f : DeletionFrame) : Prop := exists n, k_seal k n m = Ok f.
Lemma publish_parts_sent k parts s s' : publish_parts k parts s = (s', Ok tt) ->
  exists fs, d_sent s' = d_sent s ++ fs /\ Forall2 (sealed_as k) parts fs.
Proof.
  revert s. induction parts as [|m parts IH]; intros s; cbn.
  { intros [= <-]. exists []. by rewrite app_nil_r. }
  unfold m_bind, seal, transmit. destruct (k_seal k (d_sealed s) m) as [f|e] eqn:Ef; cbn; [|done].
  destruct (head (d_answers s)) as [[e|]|]; [done|..]; intros (fs & Hs & Hf)%IH; exists (f :: fs);
    (split; [rewrite Hs; cbn; by rewrite <-app_assoc|]); (constructor; [by exists (d_sealed s)|done]).
Qed.

(** ** Who can make a conversation erase *)

(** The kinds of conversation open only frames that verify for them. *)
Lemma open_mls_verified ctx mls f m : open_mls sha256 hex_decode decrypt ctx mls f = Ok m -> frame_verify sha256 hex_decode f ctx = Ok tt.
Proof. unfold open_mls. by intros ([] & H & _)%bind_Ok. Qed.
Lemma open_channel_verified ctx f m :
  open_channel sha256 hex_decode occurrence_from_slice ctx f = Ok m -> frame_verify sha256 hex_decode f ctx = Ok tt.
Proof. unfold open_channel. by intros ([] & H & _)%bind_Ok. Qed.
Lemma kind_verified ctx k f m : kind_of ctx k -> k_open k f = Ok m -> frame_verify sha256 hex_decode f ctx = Ok tt.
Proof. intros []; [apply open_mls_verified..|apply open_channel_verified]. Qed.


(** ** A deletion message reaches the members *)

Hypothesis b64_roundtrip : forall b, b64_decode (b64_encode b) = Ok b.
Hypothesis sha_length : forall b, length (sha256 b) = 32.

Definition with_buffer (fb : Fragments.FragmentBuffer) (c : DeletionContext) : DeletionContext := set_book (with_fragments fb (c_book c)) c.
Definition buffer (c : DeletionContext) : Fragments.FragmentBuffer := b_fragments (c_book c).
Definition receive_frames (k : Kind) (sender : option bytes) (fs : list DeletionFrame) (s : Session) : Session :=
  foldl (fun s f => (receive_deletion_frame k sender f s).1) s fs.

(** A receiver that judges by [a] whatever arrives meanwhile, and reads [p] in
    every frame sealed from it. *)
Record listening (k : Kind) (sender : option bytes) (author : string) (a : DeletionAuthority) (s : Session) : Prop := {
  l_authority : k_authority k (b_accepted (c_book (d_ctx s))) (b_store (c_book (d_ctx s))) = (b_store (c_book (d_ctx s)), Ok a);
  l_other : author <> a_key (local a);
  l_member : member a author = true;
  l_sender : match sender with Some b => author = hex_string b | None => True end;
}.

Lemma receive_one k sender author a f p s : listening k sender author a s -> f_author f = author -> k_open k f = Ok p ->
  d_ctx (receive_deletion_frame k sender f s).1 = (receive sha256 hex_decode p author a (k_sign k) (d_ctx s)).1.
Proof.
  intros [Ha Ho _ Hs] Hf Hp. unfold receive_deletion_frame, m_bind, m_lift. rewrite Hf.
  replace (match sender with Some _ => _ | None => _ end) with true by (destruct sender; [subst author; by rewrite String.eqb_refl|done]).
  unfold deletion_authority. cbn. rewrite Ha. cbn. rewrite (proj2 (String.eqb_neq _ _) Ho), Hp. cbn. unfold on_ctx.
  replace (d_ctx (set_ctx _ s)) with (d_ctx s) by (destruct s as [[[] ? ? ?] ? ? ?]; done).
  destruct (receive _ _ p author a _ (d_ctx s)) as [c [replies|e]]; cbn; [|done].
  match goal with |- context [publish_all ?k ?l ?x] => destruct (publish_all k l x) as [s2 r2] eqn:E end.
  apply publish_all_ctx in E. cbn in E |- *. by rewrite E.
Qed.

Lemma listening_buffer k sender author a s s' fb : listening k sender author a s -> d_ctx s' = with_buffer fb (d_ctx s) -> listening k sender author a s'.
Proof. intros [Ha Ho Hm Hs] He. split; [rewrite He; exact Ha|done..]. Qed.

(** A fragment that does not complete its page only fills the buffer. *)
Lemma receive_fragment k sender author a f p s fb r : listening k sender author a s -> f_author f = author ->
  k_open k f = Ok (FragmentM p) -> Fragments.add sha256 b64_decode author p (buffer (d_ctx s)) = (fb, r) ->
  d_ctx (receive_deletion_frame k sender f s).1 =
    match r with
    | Ok (Some b) =>
        match message_from_slice b with
        | Ok (FragmentM _) | Err _ => with_buffer fb (d_ctx s)
        | Ok m => (handle sha256 hex_decode a author (k_sign k) m (with_buffer fb (d_ctx s))).1
        end
    | _ => with_buffer fb (d_ctx s)
    end.
Proof.
  intros Hl Hf Hp Ha. rewrite (receive_one _ _ _ _ _ _ _ Hl Hf Hp). unfold receive. rewrite (l_member _ _ _ _ _ Hl). cbn [negb].
  unfold m_bind, assemble. unfold buffer in Ha. rewrite Ha. fold (with_buffer fb (d_ctx s)).
  destruct r as [[b|]|e]; cbn; [|done..]. destruct (message_from_slice b) as [[]|e]; done.
Qed.

Lemma receive_fragments k sender author a l s fb : listening k sender author a s ->
  (forall f p, (f, p) ∈ l -> f_author f = author /\ k_open k f = Ok (FragmentM p)) ->
  Fragments.deliver sha256 b64_decode (map (pair author) l.*2) (buffer (d_ctx s)) = (fb, replicate (length l) (Ok None)) ->
  d_ctx (receive_frames k sender l.*1 s) = with_buffer fb (d_ctx s).
Proof.
  revert s. induction l as [|[f p] l IH]; intros s Hl Hin; cbn [fmap list_fmap map fst snd length replicate Fragments.deliver].
  { intros [= <-]. cbn. destruct (d_ctx s) as [[] ? ? ?]. done. }
  destruct (Fragments.add _ _ author p _) as [fb1 r] eqn:E1. destruct (Fragments.deliver _ _ _ fb1) as [fb2 rs] eqn:E2.
  intros [= <- -> Hrs]. destruct (Hin f p) as [Hf Hp]; [by left|].
  pose proof (receive_fragment _ _ _ _ _ _ _ _ _ Hl Hf Hp E1) as Hc. cbv beta match in Hc.
  change (receive_frames k sender _ s) with (receive_frames k sender l.*1 (receive_deletion_frame k sender f s).1).
  rewrite IH; [rewrite Hc; done|by eapply listening_buffer|intros f' p' H'; apply Hin; by right|].
  rewrite Hc. unfold buffer. cbn. rewrite E2, Hrs. done.
Qed.

(** *** From the frames back to their parts *)

Lemma opened_parts k k' author parts fs : Forall2 (sealed_as k) parts fs ->
  (forall p f, p ∈ parts -> sealed_as k p f -> f_author f = author /\ k_open k' f = Ok p) ->
  Forall2 (fun p f => f_author f = author /\ k_open k' f = Ok p) parts fs.
Proof. intros Hf. induction Hf as [|p f parts fs Hpf Hf IH]; intros H; constructor; [apply H; [left|done]|]. apply IH. intros. apply H; [by right|done]. Qed.

Lemma opened_pairs k' author frs fs gs :
  Forall2 (fun p f => f_author f = author /\ k_open k' f = Ok p) (map FragmentM frs) fs -> (forall g, g ∈ gs -> g ∈ fs) ->
  exists l, l.*1 = gs /\ forall g p, (g, p) ∈ l -> p ∈ frs /\ f_author g = author /\ k_open k' g = Ok (FragmentM p).
Proof.
  intros Hf. induction gs as [|g gs IH]; intros Hin; [exists []; split; [done|]; by intros g p ?%elem_of_nil|].
  destruct IH as (l & <- & Hl); [intros; apply Hin; by right|].
  destruct (list_elem_of_lookup_1 fs g) as [i Hi]; [apply Hin; left|].
  destruct (Forall2_lookup_r _ _ _ _ _ Hf Hi) as (p & Hp & Ha & Ho).
  rewrite list_lookup_fmap in Hp. destruct (frs !! i) as [fr|] eqn:Efr; [|done]. injection Hp as <-.
  exists ((g, fr) :: l). split; [done|]. intros g' p' [[= -> ->]|H]%elem_of_cons; [|by apply Hl].
  split; [by eapply list_elem_of_lookup_2|done].
Qed.

Lemma opened_injective k' author frs fs g h p : NoDup frs ->
  Forall2 (fun p f => f_author f = author /\ k_open k' f = Ok p) (map FragmentM frs) fs ->
  g ∈ fs -> h ∈ fs -> k_open k' g = Ok (FragmentM p) -> k_open k' h = Ok (FragmentM p) -> g = h.
Proof.
  intros Hnd Hf [i Hi]%list_elem_of_lookup_1 [j Hj]%list_elem_of_lookup_1 Hg Hh.
  destruct (Forall2_lookup_r _ _ _ _ _ Hf Hi) as (pi & Hpi & _ & Hoi).
  destruct (Forall2_lookup_r _ _ _ _ _ Hf Hj) as (pj & Hpj & _ & Hoj).
  rewrite list_lookup_fmap in Hpi, Hpj. rewrite Hg in Hoi. rewrite Hh in Hoj.
  destruct (frs !! i) as [a|] eqn:Ei; [|done]. destruct (frs !! j) as [b|] eqn:Ej; [|done].
  injection Hpi as <-. injection Hpj as <-. injection Hoi as <-. injection Hoj as <-.
  pose proof (NoDup_lookup _ _ _ _ Hnd Ei Ej) as <-. congruence.
Qed.

Lemma part_framed k' author frs fs p :
  Forall2 (fun p f => f_author f = author /\ k_open k' f = Ok p) (map FragmentM frs) fs -> p ∈ frs ->
  exists f, f ∈ fs /\ k_open k' f = Ok (FragmentM p).
Proof.
  intros Hf [i Hi]%list_elem_of_lookup_1.
  destruct (Forall2_lookup_l _ _ _ i (FragmentM p) Hf) as (f & Hfi & _ & Ho); [by rewrite list_lookup_fmap, Hi|].
  exists f. split; [by eapply list_elem_of_lookup_2|done].
Qed.

(** *** Delivery *)

Lemma delivered_whole k sender author a m s fs gs f :
  Forall2 (fun p g => f_author g = author /\ k_open k g = Ok p) [m] fs ->
  match m with FragmentM _ => False | _ => True end -> listening k sender author a s ->
  (forall g, g ∈ gs -> g ∈ fs) -> f ∈ fs -> f ∉ gs ->
  exists fb, d_ctx (receive_deletion_frame k sender f (receive_frames k sender gs s)).1 =
    (handle sha256 hex_decode a author (k_sign k) m (with_buffer fb (d_ctx s))).1.
Proof.
  intros Hop Hplain Hl Hgs Hf Hfgs. inversion Hop as [|? g ? l [Hg Ho] Hnil]; subst. inversion Hnil; subst.
  apply list_elem_of_singleton in Hf as ->.
  assert (gs = []) as ->.
  { destruct gs as [|h gs]; [done|]. exfalso. apply Hfgs. rewrite <-(proj1 (list_elem_of_singleton h g)); [left|apply Hgs; left]. }
  exists (buffer (d_ctx s)). cbn [receive_frames foldl]. rewrite (receive_one _ _ _ _ _ m _ Hl eq_refl Ho).
  replace (with_buffer (buffer (d_ctx s)) (d_ctx s)) with (d_ctx s) by (destruct (d_ctx s) as [[] ? ? ?]; done).
  unfold receive. rewrite (l_member _ _ _ _ _ Hl). cbn [negb]. unfold m_bind. by destruct m.
Qed.

Lemma delivered_pieces k sender author a m b s frs fs gs f :
  Fragments.split_bytes sha256 b64_encode b = Ok frs ->
  Forall2 (fun p g => f_author g = author /\ k_open k g = Ok p) (map FragmentM frs) fs ->
  message_from_slice b = Ok m -> match m with FragmentM _ => False | _ => True end -> listening k sender author a s ->
  Fragments.pages (buffer (d_ctx s)) !! Fragments.page_key author (hex_string (sha256 b)) = None ->
  (forall g, g ∈ gs -> g ∈ fs) -> f ∈ fs -> f ∉ gs -> (forall g, g ∈ fs -> g = f \/ g ∈ gs) ->
  exists fb, d_ctx (receive_deletion_frame k sender f (receive_frames k sender gs s)).1 =
    (handle sha256 hex_decode a author (k_sign k) m (with_buffer fb (d_ctx s))).1.
Proof using Type b64_roundtrip sha_length.
  intros Es Hop Hm Hplain Hl Hfree Hgs Hf Hfgs Hall.
  destruct (opened_pairs _ _ _ _ gs Hop Hgs) as (l & <- & Hlp).
  destruct (opened_pairs _ _ _ _ [f] Hop) as ([|[f' p] [|]] & Hl1 & Hp); [by intros g ->%list_elem_of_singleton|done| |done].
  injection Hl1 as ->. destruct (Hp f p) as (Hpin & Hfa & Hfo); [left|].
  pose proof (Fragments.split_distinct _ _ _ _ Es) as Hnd.
  destruct (Fragments.arrival sha256 b64_encode b64_decode b64_roundtrip sha_length author b (Fragments.split_size _ _ _ _ Es)
              frs l.*2 p (buffer (d_ctx s)) Es) as (fb & Hd & _).
  - intros g ([h g'] & -> & Hg)%list_elem_of_fmap. by apply Hlp in Hg as [? _].
  - done.
  - intros ([h g'] & -> & Hg)%list_elem_of_fmap. apply Hfgs. cbn in *. pose proof (Hlp _ _ Hg) as (_ & _ & Hh).
    rewrite (opened_injective _ _ _ _ f h _ Hnd Hop Hf (Hgs h (list_elem_of_fmap_2 fst _ _ Hg)) Hfo Hh).
    by apply (list_elem_of_fmap_2 fst) in Hg.
  - intros g Hg. destruct (part_framed _ _ _ _ _ Hop Hg) as (h & Hh & Hho).
    destruct (Hall h Hh) as [->|([h' g'] & -> & Hin)%list_elem_of_fmap]; [left; congruence|right].
    pose proof (Hlp _ _ Hin) as (_ & _ & Hh'). cbn in Hho. rewrite Hh' in Hho. injection Hho as <-. by apply (list_elem_of_fmap_2 snd) in Hin.
  - done.
  - rewrite map_app, Fragments.deliver_app, length_fmap in Hd.
    destruct (Fragments.deliver _ _ (map (pair author) l.*2) _) as [fb1 rs] eqn:E1. cbn in Hd.
    destruct (Fragments.add _ _ author p fb1) as [fb2 r] eqn:E2. cbn in Hd. injection Hd as <- Hrs.
    apply app_inj_tail in Hrs as [-> ->].
    assert (Hc : d_ctx (receive_frames k sender l.*1 s) = with_buffer fb1 (d_ctx s)).
    { apply (receive_fragments _ _ author a); [done| |done]. intros g q Hg. by destruct (Hlp g q Hg) as (_ & ? & ?). }
    assert (Hl' : listening k sender author a (receive_frames k sender l.*1 s)) by (by eapply listening_buffer).
    exists fb2. rewrite (receive_fragment _ _ _ _ _ _ _ fb2 (Ok (Some b)) Hl' Hfa Hfo); [|by rewrite Hc].
    rewrite Hm, Hc. by destruct m.
Qed.

(** C27. A deletion message published by one member reaches another, whatever
    the network does to its frames: the page is cut into fragments, each sealed
    into a frame; once the last missing frame arrives, after the others in any
    order and any number of times, the receiver stands where the message itself,
    handled as one, would leave it, up to the fragments still buffered. *)
Theorem deletion_delivered k k' sender author a m s0 s1 s fs gs f
  (Hpub : publish_deletion k m s0 = (s1, Ok tt)) (Hfs : d_sent s1 = d_sent s0 ++ fs)
  (Hmsg : forall b, message_to_vec m = Ok b -> message_from_slice b = Ok m)
  (Hopen : forall parts p g, split sha256 m = Ok parts -> p ∈ parts -> sealed_as k p g -> f_author g = author /\ k_open k' g = Ok p)
  (Hplain : match m with FragmentM _ => False | _ => True end)
  (Hl : listening k' sender author a s)
  (Hfree : forall b, message_to_vec m = Ok b -> Fragments.pages (buffer (d_ctx s)) !! Fragments.page_key author (hex_string (sha256 b)) = None)
  (Hgs : forall g, g ∈ gs -> g ∈ fs) (Hf : f ∈ fs) (Hfgs : f ∉ gs) (Hall : forall g, g ∈ fs -> g = f \/ g ∈ gs) :
  exists fb, d_ctx (receive_frames k' sender (gs ++ [f]) s) =
    (handle sha256 hex_decode a author (k_sign k') m (with_buffer fb (d_ctx s))).1.
Proof using Type b64_roundtrip sha_length.
  unfold publish_deletion, m_bind, m_lift in Hpub. destruct (split sha256 m) as [parts|e] eqn:Ep; [|done]. cbn in Hpub.
  apply publish_parts_sent in Hpub as (fs' & Hs & H2). rewrite Hfs in Hs. apply app_inv_head in Hs as <-.
  pose proof (opened_parts _ _ _ _ _ H2 (fun p g => Hopen _ p g eq_refl)) as Hop.
  unfold receive_frames. rewrite foldl_app. fold (receive_frames k' sender gs s). cbn [foldl].
  unfold split in Ep. destruct (message_to_vec m) as [b|e]; [|done]. cbn in Ep. destruct (_ <=? _)%N.
  - injection Ep as <-. exact (delivered_whole _ _ _ _ _ _ _ _ _ Hop Hplain Hl Hgs Hf Hfgs).
  - apply bind_Ok in Ep as (frs & Es & [= <-]).
    exact (delivered_pieces _ _ _ _ _ _ _ _ _ _ _ Es Hop (Hmsg _ eq_refl) Hplain Hl (Hfree _ eq_refl) Hgs Hf Hfgs Hall).
Qed.

End Sessions.

(** ** Examples: alice's deletion reaches bob in two fragments *)

#[local] Existing Instances Deletion.toy_json Erasure.no_transfers Erasure.toy_store AccountProof_eq_dec.
Abbreviation second := Fragments.second_fragment.
Abbreviation first := Fragments.first_fragment.

(** Bob's account is his key's; the page is long; a fragment is told by its offset. *)
Definition bob_key : string := toy_key [x02].
Definition bob_identity : LocalIdentity :=
  default (record blank) (res_ok (new_identity toy_sha hex_bytes toy_content toy_roster_bytes [x02] bob_key)).
Definition bob_proof (p : AccountProof) : result string string := if decide (p = toy_proof [x02]) then Ok "bob" else Err "unknown".
#[local] Instance long_json : ErasureJson := {|
  json_to_vec _ := Ok []; manifest_to_vec _ := Ok []; message_to_vec _ := Ok Fragments.long_page;
  message_from_slice b := if bool_decide (b = Fragments.long_page) then Ok alice_page else Err "malformed";
  content_to_vec := toy_content; roster_to_vec := toy_roster_bytes; identity_to_vec _ := Ok [];
  identity_from_slice b := if bool_decide (b = []) then Ok bob_identity else Err "malformed";
  b64_encode := Fragments.toy_encode; b64_decode := Fragments.toy_decode;
|}.
Definition carry (m : string * DeletionMessage) : result string bytes :=
  match m.2 with
  | FragmentM f => Ok [if (Fragments.offset f =? 0)%N then x00 else x01]
  | StateM _ _ => Ok [x02]
  | _ => Err "unknown"
  end.
Definition carried (b : bytes) : result string (string * DeletionMessage) :=
  match b with
  | [x00] => Ok ("", FragmentM first)
  | [x01] => Ok ("", FragmentM second)
  | [x02] => Ok ("", alice_page)
  | _ => Err "malformed"
  end.
Definition in_channel (seed : bytes) : Kind (St := Tables) :=
  channel_kind toy_sha hex_bytes bob_proof [x02] carry carried "group:club" {| attached := true; local_peer := Some bob_key |} seed "" (fun _ => "").
Definition at_rest (answers : list (option string)) : Session (M := GroupMessage) (T := unit) (St := Tables) :=
  {| d_ctx := bob_context; d_sent := []; d_sealed := 0; d_answers := answers |}.

Definition alice_frame (m : DeletionMessage) : DeletionFrame :=
  default {| f_context := ""; f_epoch := 0; f_author := ""; payload_b64 := ""; f_signature := "" |}
    (res_ok (k_seal (in_channel [x01]) 0 m)).
Definition bob_authority_here : DeletionAuthority :=
  default bob_authority (res_ok (k_authority (in_channel [x02]) ∅ (b_store bob_book)).2).

Abbreviation bob_heard := (receive_deletion_frame toy_sha hex_bytes (in_channel [x02]) None (alice_frame alice_page) (at_rest [])).

Abbreviation alice_published := (publish_deletion toy_sha (in_channel [x01]) alice_page (at_rest [None])).
Abbreviation bob_received := (receive_frames toy_sha hex_bytes (in_channel [x02]) None
  ([alice_frame (FragmentM second); alice_frame (FragmentM second)] ++ [alice_frame (FragmentM first)]) (at_rest [])).
Lemma deletion_delivered_witness :
  is_Some (b_records (c_book (d_ctx bob_received)) !! storage_key (alice_record "a")) /\
  exists fb, d_ctx bob_received =
    (handle toy_sha hex_bytes bob_authority_here (toy_key [x01]) (k_sign (in_channel [x02])) alice_page (with_buffer fb bob_context)).1.
Proof.
  split; [vm_compute; by eexists|].
  assert (Hp : alice_published = (alice_published.1, Ok tt)) by (apply surjective_pairing_eq; vm_compute; reflexivity).
  assert (Hd : alice_frame (FragmentM second) <> alice_frame (FragmentM first)).
  { intros H. apply (f_equal payload_b64) in H. vm_compute in H. discriminate H. }
  apply (deletion_delivered (json' := long_json) toy_sha hex_bytes Fragments.toy_base64 Fragments.toy_sha_length (in_channel [x01]) (in_channel [x02]) None
    (toy_key [x01]) bob_authority_here alice_page (at_rest [None]) alice_published.1 (at_rest [])
    [alice_frame (FragmentM first); alice_frame (FragmentM second)] _ _ Hp).
  - vm_compute. reflexivity.
  - intros b [= <-]. reflexivity.
  - intros parts p g Hs Hin [n Hg]. vm_compute in Hs. injection Hs as <-.
    apply elem_of_cons in Hin as [->|[->|[]%elem_of_nil]%elem_of_cons]; vm_compute in Hg; injection Hg as <-; split; vm_compute; reflexivity.
  - exact I.
  - split; [vm_compute; reflexivity|vm_compute; discriminate|vm_compute; reflexivity|exact I].
  - intros b _. reflexivity.
  - intros g [->|[->|[]%elem_of_nil]%elem_of_cons]%elem_of_cons; right; left.
  - left.
  - intros [H|[H|[]%elem_of_nil]%elem_of_cons]%elem_of_cons; by apply Hd.
  - intros g [->|[->|[]%elem_of_nil]%elem_of_cons]%elem_of_cons; [by left|right; left].
Defined.
End Sessions.
