(* ===== verification/Topology.v ===== *)
(** * Topology: the linked devices of a DM
      ([private_dm_runtime/devices]: [types.rs], [proof.rs], [admission.rs],
      [admission_proof.rs], [identity_session.rs], [revocation/mod.rs],
      [recovery/epochs.rs])

    Two users talk in a DM, each through any of their linked devices; every
    device is a client of the MLS group of its own.  Who is in the group is the
    topology: the clients, each with the claim its device signed, and the
    roster of each user.  The file models the claims, the topology, the
    membership record around it and the admission of a further device.  MLS is
    the class [DmMls]; what the store and the transport answer are scripts. *)
From S2P Require Import Prelude Messages Attachments Devices Identity Frames Calls Recovery.

Module Topology.
Import Messages Devices.

#[local] Open Scope mosh_scope.
#[local] Set Default Proof Using "Type".

Abbreviation PrivateDmRuntimeError := Calls.PrivateDmRuntimeError.
Definition INVALID : string := "invalid DM device authorization".
Definition invalid : PrivateDmRuntimeError := Calls.Codec INVALID.
Definition DM_USERS : nat := 2.
Definition INITIAL_CLIENTS : nat := DM_USERS.
Definition MAX_DISPLAY_NAME_BYTES : N := 256.
Definition MAX_REQUEST_ID_BYTES : N := 128.

Definition inv {E A} (r : result E A) : result PrivateDmRuntimeError A := map_err (fun _ => invalid) r.

(** ** The data *)

Record IdentityClaim := {
  i_session : string;
  i_roster : DeviceRoster;
  i_device : string;
  mls_signer : string;
  display_name : string;
  i_signature : string;
}.
Definition claim_user (c : IdentityClaim) : string := user_id (i_roster c).

Record DmTopology := { own_user_id : string; clients : list IdentityClaim; rosters : list DeviceRoster }.

Record JoinRequest := { request_id : string; claim : IdentityClaim; key_package : bytes }.
Record PendingJoin := { request : JoinRequest; authorizer_peer : string; j_group_id : bytes }.

Record EpochAuthorization := { ea_roster : DeviceRoster; ea_signature : string; ea_admitted : option N }.
Record Admission := {
  ad_request : JoinRequest;
  ad_commit : bytes;
  ad_welcome : bytes;
  ad_tree : bytes;
  ad_topology : DmTopology;
  ad_group_id : bytes;
  ad_epoch : N;
  recovery_authorization : option EpochAuthorization;
}.
Record AdmissionJournal := { admission : Admission; waiting : list string }.

(** The signed record of a commit that admitted a device, and of one that
    removed one. *)
Record EpochRecord := {
  author_device_id : string;
  e_roster : DeviceRoster;
  e_request : JoinRequest;
  e_commit : bytes;
  e_group_id : bytes;
  e_epoch : N;
  e_signature : string;
  admitted_at_ms : option N;
}.
Record RemovalRecord := {
  rm_session : string;
  rm_author : string;
  target : string;
  rm_roster : DeviceRoster;
  rm_commit : bytes;
  rm_group_id : bytes;
  rm_epoch : N;
  rm_signature : string;
}.
Record RemovalJournal := { evidence : RemovalRecord; rm_waiting : list string }.

(** History asked of a device and lent to one ([history/types.rs],
    [history/records.rs], [recovery/types.rs]): the removal of that device
    touches them. *)
Record TextRecord := {
  tr_metadata : option MessageMetadata;
  tr_message_id : string;
  tr_sent_at_ms : N;
  tr_from_device : string;
  tr_body : string;
}.
Record PartialText := { pt_record : TextRecord; body_length : N }.
Record HistoryImport := { progress : Recovery.HistoryCursor; source_device_id : string; partial : option PartialText }.
Record HistoryKey := { hk_message_id : string; hk_sent_at_ms : N }.
Record HistoryExport := { he_request_id : string; recipient_device_id : string; he_keys : list HistoryKey; he_digest : string }.
Record RecoverySource := { rs_device_id : string; rs_epoch : N; rs_import : HistoryImport }.
Record Recovery := {
  round : N;
  re_request_id : string;
  started_ms : N;
  last_rx_ms : N;
  required_epoch : N;
  source : option RecoverySource;
  observed : gmap string string;
}.
Record RecoveryExport := { rx_round : N; export : HistoryExport }.

Record DeviceMembership := {
  topology : DmTopology;
  joining : option PendingJoin;
  delivery : option AdmissionJournal;
  receipt_targets : gmap string (list string);
  delivered_ids : list string;
  history_import : option HistoryImport;
  history_exports : list HistoryExport;
  recovery : option Recovery;
  recovery_exports : list RecoveryExport;
  epoch_records : list EpochRecord;
  removals : list RemovalJournal;
  revoked : bool;
  pending_rosters : list DeviceRoster;
}.

Section Topology.
Context {scheme : Ed25519}.
Variable sha256 : bytes -> bytes.
Variable hex_decode : string -> result string bytes.
(** [serde_json::to_vec] of a roster entry, a roster, the body of a claim and of
    an epoch's evidence. *)
Variable content_to_vec : N * option string * string * DeviceDescriptor -> result string bytes.
Variable roster_to_vec : DeviceRoster -> result string bytes.
Variable claim_to_vec : string * DeviceRoster * string * string * string -> result string bytes.
Variable evidence_to_vec : string * DeviceRoster * JoinRequest * bytes * bytes * N -> result string bytes.

Abbreviation devices_of := (Devices.devices_of sha256 hex_decode content_to_vec roster_to_vec).
Abbreviation extends := (Devices.extends sha256 hex_decode content_to_vec roster_to_vec).
Abbreviation authorizes_admitted := (Devices.authorizes_admitted sha256 hex_decode content_to_vec roster_to_vec).
Abbreviation revoked_since := (Devices.revoked_since sha256 hex_decode content_to_vec roster_to_vec).
Abbreviation has_removal_since := (Devices.has_removal_since sha256 hex_decode content_to_vec roster_to_vec).
Abbreviation digest := (Devices.digest sha256 roster_to_vec).
Abbreviation public_key := (Devices.public_key hex_decode).
Abbreviation check := (result PrivateDmRuntimeError).

(** ** Claims ([proof.rs]) *)

Definition verify (key sig : string) (input : bytes) : check unit :=
  s ← inv (hex_decode sig);
  _ ← guard_or (length s =? 64)%nat invalid;
  k ← inv (public_key key);
  inv (verify_key k s input).

Definition claim_bytes (c : IdentityClaim) : check bytes :=
  b ← inv (claim_to_vec (i_session c, i_roster c, i_device c, mls_signer c, display_name c));
  Ok (context "mosh-dm-client-v1" ++ b).

Definition lists (r : DeviceRoster) (d : DeviceDescriptor) : check bool :=
  ds ← inv (devices_of r); Ok (bool_decide (d ∈ ds)).

Definition unsigned (i : Identity.DeviceIdentity) (r : DeviceRoster) (session : string) (signer : bytes) (name : string)
  : check IdentityClaim :=
  let own := Identity.roster (Identity.record i) in
  let d := Identity.own_device (Identity.record i) in
  after ← inv (extends r own);
  related ← (if (after : bool) then Ok true else inv (extends own r));
  _ ← guard_or related invalid;
  mine ← lists own d; _ ← guard_or mine invalid;
  here ← lists r d; _ ← guard_or here invalid;
  Ok {| i_session := session; i_roster := r; i_device := device_id d; mls_signer := hex_string signer;
        display_name := name; i_signature := "" |}.

Definition with_signature (sig : string) (c : IdentityClaim) : IdentityClaim :=
  {| i_session := i_session c; i_roster := i_roster c; i_device := i_device c; mls_signer := mls_signer c;
     display_name := display_name c; i_signature := sig |}.
Definition sign_claim (i : Identity.DeviceIdentity) (b : bytes) : string := hex_string (sign (Identity.key i) b).

Definition create_with_roster (i : Identity.DeviceIdentity) (r : DeviceRoster) (session : string) (signer : bytes) (name : string)
  : check IdentityClaim :=
  c ← unsigned i r session signer name;
  b ← claim_bytes c;
  Ok (with_signature (sign_claim i b) c).
Definition create (i : Identity.DeviceIdentity) : string -> bytes -> string -> check IdentityClaim :=
  create_with_roster i (Identity.roster (Identity.record i)).

(** [LocalClaimSigner]: the digest of the last claim signed here, and its
    signature. *)
Abbreviation LocalClaimSigner := (option (bytes * string)).
Definition local_claim (i : Identity.DeviceIdentity) (r : DeviceRoster) (session : string) (signer : bytes) (name : string)
  : method LocalClaimSigner PrivateDmRuntimeError IdentityClaim := fun s =>
  match (c ← unsigned i r session signer name; b ← claim_bytes c; Ok (c, b)) with
  | Err e => (s, Err e)
  | Ok (c, b) =>
      let fresh := sign_claim i b in
      match s with
      | Some (previous, sig) =>
          if bool_decide (previous = sha256 b) then (s, Ok (with_signature sig c))
          else (Some (sha256 b, fresh), Ok (with_signature fresh c))
      | None => (Some (sha256 b, fresh), Ok (with_signature fresh c))
      end
  end.

Definition claim_device (c : IdentityClaim) : check DeviceDescriptor :=
  ds ← inv (devices_of (i_roster c));
  ok_or (find (fun d => String.eqb (device_id d) (i_device c)) ds) invalid.

Definition claim_verify (c : IdentityClaim) (session : string) : check unit :=
  if negb (String.eqb (i_session c) session) || String.eqb (display_name c) ""
     || (MAX_DISPLAY_NAME_BYTES <? str_len (display_name c))%N
  then Err invalid
  else
    _ ← inv (public_key (mls_signer c));
    d ← claim_device c;
    b ← claim_bytes c;
    verify (signing_public_key d) (i_signature c) b.

(** ** The topology ([types.rs]) *)

Definition client (t : DmTopology) (signer : string) : option IdentityClaim :=
  find (fun c => String.eqb (mls_signer c) signer) (clients t).
Definition client_of_device (t : DmTopology) (id : string) : option IdentityClaim :=
  find (fun c => String.eqb (i_device c) id) (clients t).
Definition own (t : DmTopology) (signer : string) : bool :=
  match client t signer with Some c => String.eqb (claim_user c) (own_user_id t) | None => false end.
Definition roster (t : DmTopology) (user : string) : option DeviceRoster :=
  find (fun r => String.eqb (user_id r) user) (rosters t).

Definition set_rosters (l : list DeviceRoster) (t : DmTopology) : DmTopology :=
  {| own_user_id := own_user_id t; clients := clients t; rosters := l |}.
Definition set_clients (l : list IdentityClaim) (t : DmTopology) : DmTopology :=
  {| own_user_id := own_user_id t; clients := l; rosters := rosters t |}.

Definition may_follow (t : DmTopology) (r : DeviceRoster) : check unit :=
  match roster t (user_id r) with
  | Some base => ext ← inv (extends r base); guard_or ext invalid
  | None => guard_or (length (rosters t) <? DM_USERS)%nat invalid
  end.
Definition update_roster (r : DeviceRoster) : method DmTopology PrivateDmRuntimeError unit := fun t =>
  match may_follow t r with
  | Err e => (t, Err e)
  | Ok _ => (set_rosters (filter (fun base => user_id base <> user_id r) (rosters t) ++ [r]) t, Ok tt)
  end.

(** The roster of a claim is the one known, an older one under which the device
    is still authorized, or a newer one, which is taken. *)
Definition admit_roster (c : IdentityClaim) : method DmTopology PrivateDmRuntimeError unit := fun t =>
  match roster t (claim_user c) with
  | Some base =>
      match inv (extends base (i_roster c)) with
      | Err e => (t, Err e)
      | Ok true =>
          (t, d ← claim_device c; ok ← inv (authorizes_admitted base (i_roster c) d); guard_or ok invalid)
      | Ok false => update_roster (i_roster c) t
      end
  | None => update_roster (i_roster c) t
  end.
Definition place_client (c : IdentityClaim) : method DmTopology PrivateDmRuntimeError unit := fun t =>
  match client t (mls_signer c) with
  | Some e =>
      if negb (String.eqb (i_device e) (i_device c)) || negb (String.eqb (claim_user e) (claim_user c))
      then (t, Err invalid)
      else (set_clients (filter (fun e => mls_signer e <> mls_signer c) (clients t) ++ [c]) t, Ok tt)
  | None =>
      if existsb (fun e => String.eqb (i_device e) (i_device c)) (clients t) then (t, Err invalid)
      else (set_clients (clients t ++ [c]) t, Ok tt)
  end.
Definition add_client (c : IdentityClaim) : method DmTopology PrivateDmRuntimeError unit :=
  m_lift (claim_verify c (i_session c));;;
  admit_roster c;;;
  place_client c.

Definition check_client (t : DmTopology) (session : string) (checked : DmTopology) (c : IdentityClaim) : check DmTopology :=
  _ ← claim_verify c session;
  current ← ok_or (roster t (claim_user c)) invalid;
  d ← claim_device c;
  ok ← inv (authorizes_admitted current (i_roster c) d);
  _ ← guard_or ok invalid;
  let '(checked, r) := add_client c checked in _ ← r; Ok checked.
Definition validate (t : DmTopology) (session : string) (signers : list string) : check unit :=
  if negb (length (rosters t) =? DM_USERS)%nat || bool_decide (roster t (own_user_id t) = None) then Err invalid
  else
    checked ← try_fold (check_client t session) {| own_user_id := own_user_id t; clients := []; rosters := [] |} (clients t);
    guard_or (bool_decide (merge_sort String.le (map mls_signer (clients t)) = merge_sort String.le signers)
              && (length (clients checked) =? length (clients t))%nat) invalid.


(** ** Evidence of admissions ([recovery/epochs.rs]) *)

Definition epoch_context (admitted : option N) : bytes :=
  match admitted with
  | Some time => String.list_byte_of_string "mosh-dm-epoch-evidence-v2" ++ Attachments.to_be_bytes time
  | None => String.list_byte_of_string "mosh-dm-epoch-evidence-v1"
  end.
Definition epoch_bytes (r : EpochRecord) : check bytes :=
  b ← inv (evidence_to_vec (author_device_id r, e_roster r, e_request r, e_commit r, e_group_id r, e_epoch r));
  Ok (epoch_context (admitted_at_ms r) ++ b).
Definition epoch_record (author : string) (r : DeviceRoster) (a : Admission) (sig : string) (admitted : option N) : EpochRecord :=
  {| author_device_id := author; e_roster := r; e_request := ad_request a; e_commit := ad_commit a; e_group_id := ad_group_id a;
     e_epoch := ad_epoch a; e_signature := sig; admitted_at_ms := admitted |}.

Definition epoch_create (i : Identity.DeviceIdentity) (a : Admission) (now : N) : check EpochRecord :=
  let record sig := epoch_record (device_id (Identity.own_device (Identity.record i))) (Identity.roster (Identity.record i)) a sig (Some now) in
  b ← epoch_bytes (record "");
  Ok (record (hex_string (sign (Identity.key i) b))).
Definition epoch_author (r : EpochRecord) : check DeviceDescriptor :=
  ds ← inv (devices_of (e_roster r));
  d ← ok_or (find (fun d => String.eqb (device_id d) (author_device_id r)) ds) invalid;
  b ← epoch_bytes r;
  _ ← verify (signing_public_key d) (e_signature r) b;
  Ok d.
Definition from_admission (sender : DeviceDescriptor) (r : DeviceRoster) (a : Admission) : check (option EpochRecord) :=
  match recovery_authorization a with
  | None => Ok None
  | Some au =>
      ext ← inv (extends r (ea_roster au));
      _ ← guard_or ext invalid;
      let record := epoch_record (device_id sender) (ea_roster au) a (ea_signature au) (ea_admitted au) in
      d ← epoch_author record;
      _ ← guard_or (bool_decide (d = sender)) invalid;
      Ok (Some record)
  end.
Definition authorization (r : EpochRecord) : EpochAuthorization :=
  {| ea_roster := e_roster r; ea_signature := e_signature r; ea_admitted := admitted_at_ms r |}.

(** ** Journals of an admission ([types.rs]) *)

(** Whether a client of another user than [user] is no longer waited for. *)
Fixpoint counterpart_took (user : string) (waiting : list string) (cs : list IdentityClaim) : check bool :=
  match cs with
  | [] => Ok false
  | c :: cs =>
      if String.eqb (claim_user c) user then counterpart_took user waiting cs
      else
        d ← claim_device c;
        if bool_decide (moss_peer_id d ∈ waiting) then counterpart_took user waiting cs else Ok true
  end.
Definition accepted (j : AdmissionJournal) : check bool :=
  let c := claim (ad_request (admission j)) in
  joining ← claim_device c;
  if bool_decide (moss_peer_id joining ∈ waiting j) then Ok false
  else counterpart_took (claim_user c) (waiting j) (clients (ad_topology (admission j))).
Definition journal (a : Admission) (local : string) : check AdmissionJournal :=
  ds ← try_fold (fun ds c => d ← claim_device c; Ok (ds ++ [d])) [] (clients (ad_topology a));
  Ok {| admission := a; waiting := map moss_peer_id (filter (fun d => device_id d <> local) ds) |}.

(** ** The membership ([types.rs], [revocation/mod.rs]) *)

Definition with_topology (t : DmTopology) (m : DeviceMembership) : DeviceMembership :=
  {| topology := t; joining := joining m; delivery := delivery m; receipt_targets := receipt_targets m;
     delivered_ids := delivered_ids m; history_import := history_import m; history_exports := history_exports m;
     recovery := recovery m; recovery_exports := recovery_exports m; epoch_records := epoch_records m;
     removals := removals m; revoked := revoked m; pending_rosters := pending_rosters m |}.
Definition with_joining (j : option PendingJoin) (m : DeviceMembership) : DeviceMembership :=
  {| topology := topology m; joining := j; delivery := delivery m; receipt_targets := receipt_targets m;
     delivered_ids := delivered_ids m; history_import := history_import m; history_exports := history_exports m;
     recovery := recovery m; recovery_exports := recovery_exports m; epoch_records := epoch_records m;
     removals := removals m; revoked := revoked m; pending_rosters := pending_rosters m |}.
Definition with_delivery (d : option AdmissionJournal) (m : DeviceMembership) : DeviceMembership :=
  {| topology := topology m; joining := joining m; delivery := d; receipt_targets := receipt_targets m;
     delivered_ids := delivered_ids m; history_import := history_import m; history_exports := history_exports m;
     recovery := recovery m; recovery_exports := recovery_exports m; epoch_records := epoch_records m;
     removals := removals m; revoked := revoked m; pending_rosters := pending_rosters m |}.
Definition with_epochs (l : list EpochRecord) (m : DeviceMembership) : DeviceMembership :=
  {| topology := topology m; joining := joining m; delivery := delivery m; receipt_targets := receipt_targets m;
     delivered_ids := delivered_ids m; history_import := history_import m; history_exports := history_exports m;
     recovery := recovery m; recovery_exports := recovery_exports m; epoch_records := l; removals := removals m;
     revoked := revoked m; pending_rosters := pending_rosters m |}.
Definition with_pending (l : list DeviceRoster) (m : DeviceMembership) : DeviceMembership :=
  {| topology := topology m; joining := joining m; delivery := delivery m; receipt_targets := receipt_targets m;
     delivered_ids := delivered_ids m; history_import := history_import m; history_exports := history_exports m;
     recovery := recovery m; recovery_exports := recovery_exports m; epoch_records := epoch_records m;
     removals := removals m; revoked := revoked m; pending_rosters := l |}.
Definition with_removals (l : list RemovalJournal) (m : DeviceMembership) : DeviceMembership :=
  {| topology := topology m; joining := joining m; delivery := delivery m; receipt_targets := receipt_targets m;
     delivered_ids := delivered_ids m; history_import := history_import m; history_exports := history_exports m;
     recovery := recovery m; recovery_exports := recovery_exports m; epoch_records := epoch_records m;
     removals := l; revoked := revoked m; pending_rosters := pending_rosters m |}.
Definition with_recovery (r : option Recovery) (m : DeviceMembership) : DeviceMembership :=
  {| topology := topology m; joining := joining m; delivery := delivery m; receipt_targets := receipt_targets m;
     delivered_ids := delivered_ids m; history_import := history_import m; history_exports := history_exports m;
     recovery := r; recovery_exports := recovery_exports m; epoch_records := epoch_records m;
     removals := removals m; revoked := revoked m; pending_rosters := pending_rosters m |}.
Definition with_revoked (b : bool) (m : DeviceMembership) : DeviceMembership :=
  {| topology := topology m; joining := joining m; delivery := delivery m; receipt_targets := receipt_targets m;
     delivered_ids := delivered_ids m; history_import := history_import m; history_exports := history_exports m;
     recovery := recovery m; recovery_exports := recovery_exports m; epoch_records := epoch_records m;
     removals := removals m; revoked := b; pending_rosters := pending_rosters m |}.
Definition with_targets (x : gmap string (list string)) (m : DeviceMembership) : DeviceMembership :=
  {| topology := topology m; joining := joining m; delivery := delivery m; receipt_targets := x;
     delivered_ids := delivered_ids m; history_import := history_import m; history_exports := history_exports m;
     recovery := recovery m; recovery_exports := recovery_exports m; epoch_records := epoch_records m;
     removals := removals m; revoked := revoked m; pending_rosters := pending_rosters m |}.
Definition with_history (x : option HistoryImport) (l : list HistoryExport) (k : list RecoveryExport) (m : DeviceMembership) : DeviceMembership :=
  {| topology := topology m; joining := joining m; delivery := delivery m; receipt_targets := receipt_targets m;
     delivered_ids := delivered_ids m; history_import := x; history_exports := l; recovery := recovery m;
     recovery_exports := k; epoch_records := epoch_records m; removals := removals m; revoked := revoked m;
     pending_rosters := pending_rosters m |}.

Definition or_false {E} (r : result E bool) : bool := default false (res_ok r).

Definition current_roster (m : DeviceMembership) (user : string) : option DeviceRoster :=
  let current := roster (topology m) user in
  match find (fun r => String.eqb (user_id r) user) (pending_rosters m) with
  | Some pending =>
      if match current with None => true | Some r => or_false (extends pending r) end then Some pending else current
  | None => current
  end.
Definition authorized (m : DeviceMembership) (d : DeviceDescriptor) (user : string) : bool :=
  negb (revoked m) &&
  match current_roster m user with
  | None => false
  | Some r =>
      match client_of_device (topology m) (device_id d) with
      | Some c => or_false (authorizes_admitted r (i_roster c) d)
      | None => or_false (lists r d)
      end
  end.
Definition pending_removal (m : DeviceMembership) : bool :=
  existsb (fun c => match claim_device c with Ok d => negb (authorized m d (claim_user c)) | Err _ => false end) (clients (topology m)).
Definition removal_pending (m : DeviceMembership) (id : string) (r : DeviceRoster) : bool :=
  existsb (fun c => String.eqb (i_device c) id && or_false (revoked_since r (i_roster c) id)) (clients (topology m))
  || existsb (fun j => String.eqb (target (evidence j)) id && negb (bool_decide (rm_waiting j = []))) (removals m).

(** [Ok true]: the roster known is as new. *)
Definition pins (m : DeviceMembership) (r : DeviceRoster) : check bool :=
  match current_roster m (user_id r) with
  | None => Ok false
  | Some current =>
      known ← inv (extends current r);
      if (known : bool) then Ok true
      else newer ← inv (extends r current); _ ← guard_or newer invalid; Ok false
  end.
Definition pin_roster (r : DeviceRoster) : method DeviceMembership PrivateDmRuntimeError unit := fun m =>
  match pins m r with
  | Err e => (m, Err e)
  | Ok true => (m, Ok tt)
  | Ok false => (with_pending (filter (fun p => user_id p <> user_id r) (pending_rosters m) ++ [r]) m, Ok tt)
  end.
Definition removes_client (m : DeviceMembership) (r : DeviceRoster) : bool :=
  match roster (topology m) (user_id r) with Some base => or_false (has_removal_since r base) | None => false end
  || existsb (fun c => String.eqb (claim_user c) (user_id r) && or_false (revoked_since r (i_roster c) (i_device c)))
       (clients (topology m)).
Definition observe_roster_removal (r : DeviceRoster) : method DeviceMembership PrivateDmRuntimeError bool := fun m =>
  if removes_client m r then (pin_roster r;;; m_ret true) m else (m, Ok false).

(** A roster the verifier knows agrees with a claim: the claim's is an older one
    under which its device is still authorized, or a newer one. *)
Definition agrees (c : IdentityClaim) (current : DeviceRoster) : check unit :=
  older ← inv (extends current (i_roster c));
  if (older : bool)
  then d ← claim_device c; ok ← inv (authorizes_admitted current (i_roster c) d); guard_or ok invalid
  else newer ← inv (extends (i_roster c) current); guard_or newer invalid.
Definition authorize_current_admission (m : DeviceMembership) (i : Identity.DeviceIdentity) (sender : DeviceDescriptor)
    (sender_roster : DeviceRoster) (c : IdentityClaim) : check unit :=
  _ ← guard_or (negb (revoked m)) invalid;
  gone ← inv (Identity.revoked sha256 hex_decode content_to_vec roster_to_vec i);
  _ ← guard_or (negb gone && authorized m sender (user_id sender_roster)) invalid;
  let own := Identity.roster (Identity.record i) in
  try_fold (fun _ r => agrees c r) tt
    ([sender_roster] ++ option_list (current_roster m (claim_user c))
     ++ (if String.eqb (user_id own) (claim_user c) then [own] else [])).

Definition retain_epoch (r : EpochRecord) (m : DeviceMembership) : check DeviceMembership :=
  if existsb (fun j => (rm_epoch (evidence j) =? e_epoch r)%N) (removals m) then Err invalid
  else match find (fun e => (e_epoch e =? e_epoch r)%N) (epoch_records m) with
       | Some e =>
           _ ← guard_or (bool_decide (e_commit e = e_commit r) && bool_decide (e_group_id e = e_group_id r)
                         && String.eqb (author_device_id e) (author_device_id r)) invalid;
           Ok m
       | None => Ok (with_epochs (epoch_records m ++ [r]) m)
       end.

Definition call_own (m : DeviceMembership) (signer : string) : bool := own (topology m) signer.
Definition call_peer (m : DeviceMembership) (signer : string) : option string :=
  c ← client (topology m) signer;
  d ← res_ok (claim_device c);
  if authorized m d (claim_user c) then Some (moss_peer_id d) else None.
Definition has_counterpart (m : DeviceMembership) (signers : list string) : bool :=
  existsb (fun signer => negb (own (topology m) signer)) signers.
Definition is_joining (m : DeviceMembership) : bool := bool_decide (is_Some (joining m)).
Definition peer_delivered (m : DeviceMembership) (id : string) : bool := bool_decide (id ∈ delivered_ids m).
Definition live (m : DeviceMembership) : bool :=
  ((INITIAL_CLIENTS <? length (clients (topology m)))%nat || negb (bool_decide (removals m = [])) || bool_decide (is_Some (recovery m)))
  && negb (is_joining m).
Definition deletion_accounts (m : DeviceMembership) : list (string * string) :=
  map (fun c => (mls_signer c, claim_user c)) (clients (topology m)).

(** ** The session's clients ([admission.rs], [admission_proof.rs]) *)

(** [MlsSessionCrypto] as far as admissions ask it.  An operation that fails
    leaves no state: it runs on a copy. *)
Class DmMls (C : Type) := {
  mls_copy : C -> check C;
  mls_epoch : C -> option N;
  mls_group : C -> option bytes;
  mls_members : C -> list string;
  mls_public : C -> bytes;
  package_identity : C -> bytes -> check string;
  package_signer : C -> bytes -> check string;
  add_member : C -> bytes -> check (C * (bytes * bytes * bytes));
  join_welcome : C -> bytes -> bytes -> check C;
  process_commit : C -> bytes -> check C;
  remove_member_by_signer : C -> string -> check (C * bytes);
  process_commit_from : C -> bytes -> string -> check C;
}.
Context {C : Type} {mls : DmMls C}.

Inductive DmSessionState := SPending | Handshaking | SConnected.

(** [external] is the script of what the store and the transport answer, in
    order; past its end they take everything.  [acks] are the acknowledgements
    sent: the peer, the request and the epoch. *)
Record DmSession := {
  s_id : string;
  device_name : string;
  crypto : C;
  membership : option DeviceMembership;
  s_state : DmSessionState;
  peer_joined : bool;
  last_hello_send_ms : N;
  outbound_attempts : gmap string OutboundAttemptRecord;
  seen : Frames.SeenFrames;
  record_dirty : bool;
  claim_signer : LocalClaimSigner;
  device_signer : option bytes;
  acks : list (string * (string * N));
  external : list (option PrivateDmRuntimeError);
}.
Abbreviation op := (method DmSession PrivateDmRuntimeError).

Definition with_membership (m : DeviceMembership) (dirty : bool) (s : DmSession) : DmSession :=
  {| s_id := s_id s; device_name := device_name s; crypto := crypto s; membership := Some m; s_state := s_state s;
     peer_joined := peer_joined s; last_hello_send_ms := last_hello_send_ms s; outbound_attempts := outbound_attempts s; seen := seen s;
     record_dirty := dirty; claim_signer := claim_signer s; device_signer := device_signer s; acks := acks s; external := external s |}.
Definition with_signers (cs : LocalClaimSigner) (ds : option bytes) (s : DmSession) : DmSession :=
  {| s_id := s_id s; device_name := device_name s; crypto := crypto s; membership := membership s; s_state := s_state s;
     peer_joined := peer_joined s; last_hello_send_ms := last_hello_send_ms s; outbound_attempts := outbound_attempts s; seen := seen s;
     record_dirty := record_dirty s; claim_signer := cs; device_signer := ds; acks := acks s; external := external s |}.
Definition with_world (l : list (string * (string * N))) (ext : list (option PrivateDmRuntimeError)) (s : DmSession) : DmSession :=
  {| s_id := s_id s; device_name := device_name s; crypto := crypto s; membership := membership s; s_state := s_state s;
     peer_joined := peer_joined s; last_hello_send_ms := last_hello_send_ms s; outbound_attempts := outbound_attempts s; seen := seen s;
     record_dirty := record_dirty s; claim_signer := claim_signer s; device_signer := device_signer s; acks := l; external := ext |}.

Definition asked : op unit := fun s =>
  (with_world (acks s) (tail (external s)) s, match head (external s) with Some (Some e) => Err e | _ => Ok tt end).
(** The handlers find the session a message names; this is the one there is. *)
Definition session_ref (id : string) : op unit := fun s => (s, guard_or (String.eqb id (s_id s)) Calls.MissingSession).
Definition the_membership : op DeviceMembership := fun s => (s, ok_or (membership s) invalid).

Definition at_rest (a : OutboundAttemptRecord) : OutboundAttemptRecord :=
  {| ever_published := ever_published a; conversation_id := conversation_id a; a_message_id := a_message_id a;
     a_sent_at_ms := a_sent_at_ms a; ciphertext_bytes := ciphertext_bytes a; message_json := message_json a;
     publish_payload_b64 := publish_payload_b64 a; a_delivery_status := a_delivery_status a;
     a_delivery_error := a_delivery_error a; a_retry_count := a_retry_count a; auto_resends := auto_resends a; last_send_ms := 0 |}.

(** The transition is stored before the session takes it; a new epoch restarts
    the handshake and makes every send due. *)
Definition installed (c : C) (m : DeviceMembership) (s : DmSession) : DmSession :=
  let changed := negb (bool_decide (mls_epoch (crypto s) = mls_epoch c)) in
  {| s_id := s_id s; device_name := device_name s; crypto := c; membership := Some m;
     s_state := if changed then Handshaking else s_state s;
     peer_joined := changed || peer_joined s;
     last_hello_send_ms := if changed then 0%N else last_hello_send_ms s;
     outbound_attempts := if changed then at_rest <$> outbound_attempts s else outbound_attempts s;
     seen := if changed then Frames.no_frames else seen s;
     record_dirty := false; claim_signer := claim_signer s; device_signer := device_signer s; acks := acks s; external := external s |}.
Definition install_device_transition (c : C) (m : DeviceMembership) : op unit :=
  asked;;; m_modify (installed c m).

Definition send_admission_ack (peer : string) (a : Admission) : op unit :=
  asked;;; m_modify (fun s => with_world (acks s ++ [(peer, (request_id (ad_request a), ad_epoch a))]) (external s) s).

Definition verify_request (c : C) (r : JoinRequest) : check unit :=
  _ ← claim_verify (claim r) (i_session (claim r));
  if String.eqb (request_id r) "" || (MAX_REQUEST_ID_BYTES <? str_len (request_id r))%N then Err invalid
  else
    identity ← package_identity c (key_package r);
    _ ← guard_or (String.eqb identity (i_device (claim r))) invalid;
    signer ← package_signer c (key_package r);
    guard_or (String.eqb signer (mls_signer (claim r))) invalid.

Definition verify_authorizer (m : DeviceMembership) (sender : DeviceDescriptor) (r : DeviceRoster) (a : Admission) : check unit :=
  let c := claim (ad_request a) in
  author ← ok_or (client_of_device (topology m) (device_id sender)) invalid;
  base ← ok_or (roster (topology m) (user_id r)) invalid;
  _ ← guard_or (String.eqb (claim_user author) (claim_user c) && String.eqb (user_id r) (claim_user author)) invalid;
  newer ← inv (extends r base); _ ← guard_or newer invalid;
  follows ← inv (extends (i_roster c) base); _ ← guard_or follows invalid;
  listed ← lists (i_roster c) sender; guard_or listed invalid.

Definition enlarged (t : DmTopology) (c : IdentityClaim) : check DmTopology := let '(t, r) := add_client c t in _ ← r; Ok t.

Definition stage_admission (s : DmSession) (a : Admission) : check (C * DeviceMembership) :=
  next ← ok_or (membership s) invalid;
  c ← mls_copy (crypto s);
  c ← match joining next with
      | Some j =>
          _ ← guard_or (String.eqb (request_id (request j)) (request_id (ad_request a))
                        && bool_decide (key_package (request j) = key_package (ad_request a))
                        && bool_decide (j_group_id j = ad_group_id a)) invalid;
          join_welcome c (ad_welcome a) (ad_tree a)
      | None =>
          _ ← guard_or (bool_decide ((e ← mls_epoch c; checked_add64 e 1) = Some (ad_epoch a))
                        && bool_decide (mls_group c = Some (ad_group_id a))) invalid;
          process_commit c (ad_commit a)
      end;
  t ← enlarged (topology next) (claim (ad_request a));
  _ ← validate t (s_id s) (mls_members c);
  _ ← guard_or (bool_decide (mls_epoch c = Some (ad_epoch a)) && bool_decide (mls_group c = Some (ad_group_id a))) invalid;
  Ok (c, with_joining None (with_topology t next)).

(** A device of this installation's user asks to join: this device commits it. *)
Definition authorize_device_join (i : Identity.DeviceIdentity) (sender : DeviceDescriptor) (r : JoinRequest) (now : N) : op unit :=
  session_ref (i_session (claim r));;;
  m <~ the_membership;;
  s <~ m_get;;
  m_lift (verify_request (crypto s) r);;;
  own <~ m_lift (inv (digest (Identity.roster (Identity.record i))));;
  theirs <~ m_lift (inv (digest (i_roster (claim r))));;
  m_lift (guard_or (String.eqb (device_id sender) (i_device (claim r)) && String.eqb theirs own
                    && String.eqb (user_id (Identity.roster (Identity.record i))) (own_user_id (topology m))) invalid);;;
  if bool_decide (is_Some (client (topology m) (mls_signer (claim r)))) || bool_decide (is_Some (delivery m)) then m_ret tt
  else
    m_lift (validate (topology m) (i_session (claim r)) (mls_members (crypto s)));;;
    c <~ m_lift (mls_copy (crypto s));;
    added <~ m_lift (add_member c (key_package r));;
    let '(c, (commit, welcome, tree)) := added in
    t <~ m_lift (enlarged (topology m) (claim r));;
    m_lift (validate t (i_session (claim r)) (mls_members c));;;
    group <~ m_lift (ok_or (mls_group c) invalid);;
    epoch <~ m_lift (ok_or (mls_epoch c) invalid);;
    let a evidence := {| ad_request := r; ad_commit := commit; ad_welcome := welcome; ad_tree := tree; ad_topology := t;
                         ad_group_id := group; ad_epoch := epoch; recovery_authorization := evidence |} in
    evidence <~ m_lift (epoch_create i (a None) now);;
    next <~ m_lift (retain_epoch evidence (with_topology t m));;
    j <~ m_lift (journal (a (Some (authorization evidence))) (device_id (Identity.own_device (Identity.record i))));;
    install_device_transition c (with_delivery (Some j) next).

(** Another device admitted one: this device follows its commit, or joins by
    the welcome. *)
Definition apply_device_admission (i : Identity.DeviceIdentity) (sender : DeviceDescriptor) (sender_roster : DeviceRoster)
    (a : Admission) : op unit :=
  session_ref (i_session (claim (ad_request a)));;;
  m <~ the_membership;;
  s <~ m_get;;
  m_lift (verify_authorizer m sender sender_roster a);;;
  m_lift (authorize_current_admission m i sender sender_roster (claim (ad_request a)));;;
  m_lift (verify_request (crypto s) (ad_request a));;;
  evidence <~ m_lift (from_admission sender sender_roster a);;
  if negb (is_joining m) && bool_decide (mls_epoch (crypto s) = Some (ad_epoch a))
     && bool_decide (is_Some (client (topology m) (mls_signer (claim (ad_request a)))))
  then send_admission_ack (moss_peer_id sender) a
  else
    staged <~ m_lift (stage_admission s a);;
    next <~ m_lift (match evidence with Some e => retain_epoch e staged.2 | None => Ok staged.2 end);;
    install_device_transition staged.1 next;;;
    send_admission_ack (moss_peer_id sender) a.

Definition acknowledge_device_admission (sender : DeviceDescriptor) (r : DeviceRoster) (session req : string) (epoch : N) : op unit :=
  session_ref session;;;
  m <~ the_membership;;
  s <~ m_get;;
  base <~ m_lift (ok_or (roster (topology m) (user_id r)) invalid);;
  newer <~ m_lift (inv (extends r base));;
  m_lift (guard_or (newer && bool_decide (is_Some (client_of_device (topology m) (device_id sender)))) invalid);;;
  match delivery m with
  | None => m_ret tt
  | Some j =>
      m_lift (guard_or (String.eqb (request_id (ad_request (admission j))) req && (ad_epoch (admission j) =? epoch)%N) invalid);;;
      let j := {| admission := admission j; waiting := filter (fun p => p <> moss_peer_id sender) (waiting j) |} in
      took <~ m_lift (accepted j);;
      c <~ m_lift (mls_copy (crypto s));;
      install_device_transition c (with_delivery (if (took : bool) then None else Some j) m)
  end.

(** ** The session's own claim, and the counterpart's ([identity_session.rs]) *)

Definition current_device_claim (i : Identity.DeviceIdentity) : op IdentityClaim := fun s =>
  let own := Identity.roster (Identity.record i) in
  let current := m ← membership s; roster (topology m) (user_id own) in
  let pending := match membership s with
    | None => false
    | Some m =>
        pending_removal m
        || match current with Some r => or_false (has_removal_since own r) | None => false end
        || existsb (fun c => String.eqb (claim_user c) (user_id own) && or_false (revoked_since own (i_roster c) (i_device c)))
             (clients (topology m))
    end in
  match (match current with
         | None => Ok own
         | Some r => if pending then Ok r else newer ← inv (extends r own); Ok (if (newer : bool) then r else own)
         end) with
  | Err e => (s, Err e)
  | Ok r =>
      let '(cs, c) := local_claim i r (s_id s) (mls_public (crypto s)) (device_name s) (claim_signer s) in
      (with_signers cs (device_signer s) s, c)
  end.

Definition no_membership (user : string) : DeviceMembership :=
  {| topology := {| own_user_id := user; clients := []; rosters := [] |}; joining := None; delivery := None; receipt_targets := ∅;
     delivered_ids := []; history_import := None; history_exports := []; recovery := None; recovery_exports := []; epoch_records := [];
     removals := []; revoked := false; pending_rosters := [] |}.

Definition on_topology (m : DeviceMembership) (dirty : bool) (f : method DmTopology PrivateDmRuntimeError unit) : op unit := fun s =>
  let '(t, r) := f (topology m) in
  (with_membership (with_topology t m) (if is_ok r then dirty || record_dirty s else record_dirty s) s, r).

Definition refresh_device_identity (i : Identity.DeviceIdentity) : op unit := fun s =>
  let own := Identity.roster (Identity.record i) in
  if match membership s with Some m => revoked m | None => false end then (s, Ok tt)
  else
    (c <~ current_device_claim i;;
     m_modify (fun s => match membership s with Some _ => s | None => with_membership (no_membership (user_id own)) (record_dirty s) s end);;;
     m <~ the_membership;;
     m_lift (guard_or (String.eqb (own_user_id (topology m)) (user_id own)) invalid);;;
     before <~ m_lift (match client (topology m) (mls_signer c) with Some old => Some <$> inv (digest (i_roster old)) | None => Ok None end);;
     now <~ m_lift (inv (digest (i_roster c)));;
     (if bool_decide (before = Some now) then m_ret tt else on_topology m true (add_client c));;;
     m_modify (fun s => with_signers (claim_signer s) (Some (Identity.key i)) s)) s.

(** [decrypted]: the claim and the MLS signer of its frame.  The answer is the
    name the session notes for its counterpart. *)
Definition accept_identity_claim (decrypted : check (IdentityClaim * bytes)) : op (option string) :=
  body <~ m_lift decrypted;;
  let '(c, signer) := body in
  s <~ m_get;;
  m_lift (claim_verify c (s_id s));;;
  m_lift (guard_or (String.eqb (mls_signer c) (hex_string signer)) invalid);;;
  m <~ the_membership;;
  m_lift (match client (topology m) (mls_signer c) with
          | Some e => guard_or (String.eqb (claim_user e) (claim_user c)) invalid
          | None => guard_or ((length (mls_members (crypto s)) =? INITIAL_CLIENTS)%nat
                              && negb (String.eqb (claim_user c) (own_user_id (topology m)))) invalid
          end);;;
  (fun s =>
    let '(m, r) := observe_roster_removal (i_roster c) m in
    match r with
    | Err e => (with_membership m (record_dirty s) s, Err e)
    | Ok true => (with_membership m true s, Ok None)
    | Ok false =>
        (m_lift (if bool_decide (is_Some (current_roster m (claim_user c)))
                 then d ← claim_device c; guard_or (authorized m d (claim_user c)) invalid else Ok tt);;;
         on_topology m true (add_client c);;;
         m_ret (if String.eqb (claim_user c) (own_user_id (topology m)) then None else Some (display_name c))) s
    end).

(** ** What a verified claim says *)

Lemma inv_Ok {E A} (r : result E A) x : inv r = Ok x -> r = Ok x.
Proof. unfold inv. destruct r; cbn; congruence. Qed.

Lemma extends_iff r base b : extends r base = Ok b <-> (exists ds, devices_of r = Ok ds) /\ b = bool_decide (base `prefix_of` r).
Proof.
  unfold Devices.extends. destruct (devices_of r) as [ds|e]; cbn; [|naive_solver].
  split; [intros [= <-]; split; [by eexists|done]|by intros [_ ->]].
Qed.
Lemma extended_prefix r base : extends r base = Ok true -> base `prefix_of` r.
Proof. intros [_ H]%extends_iff. symmetry in H. by apply bool_decide_eq_true in H. Qed.

Lemma devices_of_nonempty r ds : devices_of r = Ok ds -> r <> [].
Proof. intros [H _]%devices_run. exact H. Qed.
Lemma prefix_user base r : base <> [] -> base `prefix_of` r -> user_id r = user_id base.
Proof. intros Hne [suf ->]. by destruct base. Qed.

Lemma claim_verify_Ok c session : claim_verify c session = Ok tt ->
  i_session c = session /\ display_name c <> "" /\ (str_len (display_name c) <= 256)%N /\
  exists ds d b, devices_of (i_roster c) = Ok ds /\ d ∈ ds /\ device_id d = i_device c /\ claim_device c = Ok d /\ claim_bytes c = Ok b /\
    verify (signing_public_key d) (i_signature c) b = Ok tt.
Proof.
  unfold claim_verify. destruct (_ || _) eqn:Hg; [done|]. intros (k & _ & H)%bind_Ok.
  apply bind_Ok in H as (d & Hd & H). apply bind_Ok in H as (b & Hb & H).
  apply orb_false_iff in Hg as [Hg Hl]. apply orb_false_iff in Hg as [Hs%negb_false_iff%String.eqb_eq Hn%String.eqb_neq].
  apply N.ltb_ge in Hl. repeat (split; [done|]).
  pose proof Hd as Hcd. unfold claim_device in Hd. apply bind_Ok in Hd as (ds & Hds%inv_Ok & Hd). apply ok_or_Ok, find_some in Hd as [Hin Hid%String.eqb_eq].
  exists ds, d, b. split_and!; try done. by apply list_elem_of_In.
Qed.
Lemma verified_roster c session : claim_verify c session = Ok tt -> exists ds, devices_of (i_roster c) = Ok ds.
Proof. intros (_ & _ & _ & ds & _ & _ & H & _)%claim_verify_Ok. by exists ds. Qed.

(** ** The topology stays in order *)

Record topology_ok (t : DmTopology) : Prop := {
  ok_few : length (rosters t) <= DM_USERS;
  ok_users : NoDup (map user_id (rosters t));
  ok_rosters : forall r, r ∈ rosters t -> exists ds, devices_of r = Ok ds;
  ok_signers : NoDup (map mls_signer (clients t));
  ok_devices : NoDup (map i_device (clients t));
  ok_claims : forall c, c ∈ clients t -> claim_verify c (i_session c) = Ok tt /\
    exists r, roster t (claim_user c) = Some r /\ i_roster c `prefix_of` r;
}.

(** Nothing is forgotten: a user keeps a roster that only grew, a client stays. *)
Record grown (t t' : DmTopology) : Prop := {
  gr_own : own_user_id t' = own_user_id t;
  gr_rosters : forall u r, roster t u = Some r -> exists r', roster t' u = Some r' /\ r `prefix_of` r';
  gr_clients : forall c, c ∈ clients t -> exists c', c' ∈ clients t' /\ mls_signer c' = mls_signer c /\
    i_device c' = i_device c /\ claim_user c' = claim_user c;
}.
#[local] Instance grown_pre : PreOrder grown.
Proof.
  split.
  - intros t. split; [done|intros u r H; by exists r|intros c H; by exists c].
  - intros t1 t2 t3 [O1 R1 C1] [O2 R2 C2]. split; [congruence|..].
    + intros u r (r' & H & Hp)%R1. apply R2 in H as (r'' & H & Hp'). exists r''. split; [done|by etransitivity].
    + intros c (c' & H & E1 & E2 & E3)%C1. apply C2 in H as (c'' & H & F1 & F2 & F3). exists c''. naive_solver congruence.
Qed.

Lemma roster_in t u r : roster t u = Some r -> r ∈ rosters t /\ user_id r = u.
Proof. intros [Hin He%String.eqb_eq]%find_some. split; [by apply list_elem_of_In|done]. Qed.
Lemma find_filter_other {A} (key : A -> string) l x u : u <> key x ->
  find (fun y => String.eqb (key y) u) (filter (fun y => key y <> key x) l ++ [x]) = find (fun y => String.eqb (key y) u) l.
Proof.
  intros Hu. induction l as [|y l IH]; [cbn; by rewrite (proj2 (String.eqb_neq (key x) u)) by congruence|].
  rewrite filter_cons. destruct (decide _) as [Hd|Hd%dec_stable]; cbn [app find]; [by rewrite IH|].
  by rewrite (proj2 (String.eqb_neq (key y) u)) by congruence.
Qed.
Lemma find_filter_same {A} (key : A -> string) l x :
  find (fun y => String.eqb (key y) (key x)) (filter (fun y => key y <> key x) l ++ [x]) = Some x.
Proof.
  induction l as [|y l IH]; [cbn; by rewrite String.eqb_refl|]. rewrite filter_cons.
  destruct (decide _) as [Hd|Hd]; cbn [app find]; [|exact IH]. by rewrite (proj2 (String.eqb_neq _ _) Hd).
Qed.
Lemma NoDup_filter_key {A} (key key' : A -> string) l x : NoDup (map key l) ->
  (forall y, y ∈ l -> key' y <> key' x -> key y <> key x) ->
  NoDup (map key (filter (fun y => key' y <> key' x) l ++ [x])).
Proof.
  intros Hnd Hx. rewrite map_app. apply NoDup_app. split; [|split; [|apply NoDup_singleton]].
  - clear Hx. induction l as [|y l IH]; [constructor|]. apply NoDup_cons in Hnd as [Hy Hnd]. rewrite filter_cons.
    destruct (decide _); [|by apply IH]. cbn [map]. constructor; [|by apply IH].
    intros (z & He & [_ Hz]%list_elem_of_filter)%list_elem_of_fmap. apply Hy. rewrite He. by apply list_elem_of_fmap_2.
  - intros k (y & -> & [Hne Hy]%list_elem_of_filter)%list_elem_of_fmap Hk%list_elem_of_singleton. by eapply Hx.
Qed.

Lemma may_follow_Ok t r : may_follow t r = Ok tt ->
  match roster t (user_id r) with Some base => base `prefix_of` r | None => length (rosters t) < DM_USERS end.
Proof.
  unfold may_follow. destruct (roster t (user_id r)) as [base|].
  - intros (ext & He%inv_Ok & ->%guard_or_Ok)%bind_Ok. by apply extended_prefix.
  - intros Hl%guard_or_Ok%Nat.ltb_lt. exact Hl.
Qed.

Lemma update_roster_spec r t t' res : update_roster r t = (t', res) -> topology_ok t -> (exists ds, devices_of r = Ok ds) ->
  topology_ok t' /\ grown t t' /\ (res = Ok tt -> roster t' (user_id r) = Some r /\ clients t' = clients t).
Proof.
  unfold update_roster. destruct (may_follow t r) as [[]|e] eqn:Hm; intros [= <- <-] Hok Hds; [|split; [done|split; [reflexivity|done]]].
  apply may_follow_Ok in Hm. set (l := filter _ _ ++ [r]).
  assert (Hsame : roster (set_rosters l t) (user_id r) = Some r) by apply find_filter_same.
  assert (Hother : forall u, u <> user_id r -> roster (set_rosters l t) u = roster t u) by (intros u Hu; by apply find_filter_other).
  assert (Hgrown : grown t (set_rosters l t)).
  { split; [done| |by intros c Hc; exists c]. intros u r0 Hr0. destruct (decide (u = user_id r)) as [->|Hu].
    - exists r. rewrite Hr0 in Hm. by split.
    - exists r0. rewrite Hother by done. by split. }
  split; [|split; [done|by intros _; split]]. destruct Hok as [Hfew Hus Hro Hsi Hde Hcl]. split; cbn; [..|done|done|].
  - unfold l. rewrite length_app. cbn [length]. destruct (roster t (user_id r)) as [base|] eqn:Eb.
    + apply roster_in in Eb as [Hin Hu]. enough (length (filter (fun b => user_id b <> user_id r) (rosters t)) < length (rosters t)) by lia.
      apply length_filter_lt with base; [done|]. intros Hn. by apply Hn.
    + pose proof (length_filter (fun b => user_id b <> user_id r) (rosters t)). lia.
  - by apply NoDup_filter_key.
  - intros r0 Hr0. apply elem_of_app in Hr0 as [Hr0|Hr0]; [|by apply list_elem_of_singleton in Hr0 as ->].
    apply list_elem_of_filter in Hr0 as [_ Hr0]. by apply Hro.
  - intros c Hc. destruct (Hcl c Hc) as (Hv & r0 & Hr0 & Hp). split; [done|].
    apply (gr_rosters _ _ Hgrown) in Hr0 as (r1 & Hr1 & Hp1). exists r1. split; [done|by etransitivity].
Qed.

Lemma admit_roster_spec c t t' res : admit_roster c t = (t', res) -> topology_ok t -> claim_verify c (i_session c) = Ok tt ->
  topology_ok t' /\ grown t t' /\ (res = Ok tt -> clients t' = clients t /\
    exists r, roster t' (claim_user c) = Some r /\ i_roster c `prefix_of` r).
Proof.
  intros Ha Hok Hc. pose proof (verified_roster _ _ Hc) as Hds. unfold admit_roster in Ha.
  assert (Hup : update_roster (i_roster c) t = (t', res) -> topology_ok t' /\ grown t t' /\ (res = Ok tt -> clients t' = clients t /\
            exists r, roster t' (claim_user c) = Some r /\ i_roster c `prefix_of` r)).
  { intros Hu. destruct (update_roster_spec _ _ _ _ Hu Hok Hds) as (H1 & H2 & H3). split; [done|]. split; [done|].
    intros [Hr Hcl]%H3. split; [done|]. by exists (i_roster c). }
  destruct (roster t (claim_user c)) as [base|] eqn:Eb; [|by apply Hup].
  destruct (inv (extends base (i_roster c))) as [[|]|e] eqn:Ee; [|by apply Hup|];
    injection Ha as <- <-; (split; [done|]; split; [reflexivity|]); [|done].
  intros _. split; [done|]. exists base. split; [done|]. by apply extended_prefix, inv_Ok.
Qed.

Lemma client_in t signer c : client t signer = Some c -> c ∈ clients t /\ mls_signer c = signer.
Proof. intros [Hin He%String.eqb_eq]%find_some. split; [by apply list_elem_of_In|done]. Qed.
Lemma NoDup_key_eq {A} (key : A -> string) l x y : NoDup (map key l) -> x ∈ l -> y ∈ l -> key x = key y -> x = y.
Proof.
  intros Hnd [i Hi]%list_elem_of_lookup_1 [j Hj]%list_elem_of_lookup_1 He.
  assert (i = j) as <-; [|congruence]. eapply NoDup_lookup; [exact Hnd|..].
  - rewrite list_lookup_fmap, Hi. reflexivity.
  - rewrite list_lookup_fmap, Hj. cbn. by rewrite He.
Qed.

Lemma place_client_spec c t t' res : place_client c t = (t', res) -> topology_ok t -> claim_verify c (i_session c) = Ok tt ->
  (exists r, roster t (claim_user c) = Some r /\ i_roster c `prefix_of` r) ->
  topology_ok t' /\ grown t t' /\ rosters t' = rosters t /\ (res = Ok tt -> c ∈ clients t').
Proof.
  unfold place_client. intros Hp Hok Hc Hr. pose proof Hok as [Hfew Hus Hro Hsi Hde Hcl].
  destruct (client t (mls_signer c)) as [e|] eqn:Ee.
  - apply client_in in Ee as [Hin Hs].
    destruct (_ || _) eqn:Hg; injection Hp as <- <-; [by split; [done|split; [reflexivity|]]|].
    apply orb_false_iff in Hg as [Hd%negb_false_iff%String.eqb_eq Hu%negb_false_iff%String.eqb_eq].
    split; [|split; [|split; [done|intros _; apply elem_of_app; right; left]]].
    + split; cbn; [done..| | |].
      * by apply NoDup_filter_key.
      * apply NoDup_filter_key; [done|]. intros y Hy Hne He. apply Hne. rewrite <-Hs. f_equal.
        apply (NoDup_key_eq i_device (clients t)); [done..|congruence].
      * intros c0 Hc0. apply elem_of_app in Hc0 as [Hc0|Hc0]; [|by apply list_elem_of_singleton in Hc0 as ->].
        apply list_elem_of_filter in Hc0 as [_ Hc0]. by apply Hcl.
    + split; [done|by intros u r Hur; exists r|]. intros c0 Hc0. destruct (decide (mls_signer c0 = mls_signer c)) as [Heq|Hne].
      * exists c. assert (c0 = e) as -> by (apply (NoDup_key_eq mls_signer (clients t)); congruence || done).
        split; [apply elem_of_app; right; left|done].
      * exists c0. split; [|done]. apply elem_of_app. left. by apply list_elem_of_filter.
  - destruct (existsb _ _) eqn:Hx; injection Hp as <- <-; [by split; [done|split; [reflexivity|]]|].
    assert (Hnew : forall y, y ∈ clients t -> i_device y <> i_device c).
    { intros y Hy He. assert (existsb (fun e => String.eqb (i_device e) (i_device c)) (clients t) = true); [|congruence].
      apply existsb_exists. exists y. split; [by apply list_elem_of_In|by apply String.eqb_eq]. }
    assert (Hsig : forall y, y ∈ clients t -> mls_signer y <> mls_signer c).
    { intros y Hy He. unfold client in Ee. apply list_elem_of_In in Hy. pose proof (find_none _ _ Ee y Hy) as Hn. cbn in Hn.
      by rewrite He, String.eqb_refl in Hn. }
    split; [|split; [|split; [done|intros _; apply elem_of_app; right; left]]].
    + split; cbn; [done..| | |].
      * rewrite map_app. apply NoDup_app. split; [done|split; [|apply NoDup_singleton]].
        intros k (y & -> & Hy)%list_elem_of_fmap Hk%list_elem_of_singleton. by eapply Hsig.
      * rewrite map_app. apply NoDup_app. split; [done|split; [|apply NoDup_singleton]].
        intros k (y & -> & Hy)%list_elem_of_fmap Hk%list_elem_of_singleton. by eapply Hnew.
      * intros c0 Hc0. apply elem_of_app in Hc0 as [Hc0|Hc0]; [by apply Hcl|by apply list_elem_of_singleton in Hc0 as ->].
    + split; [done|by intros u r Hur; exists r|]. intros c0 Hc0. exists c0. split; [apply elem_of_app; by left|done].
Qed.

Lemma add_client_spec c t t' res : add_client c t = (t', res) -> topology_ok t ->
  topology_ok t' /\ grown t t' /\ (res = Ok tt -> c ∈ clients t' /\ claim_verify c (i_session c) = Ok tt).
Proof.
  unfold add_client, m_bind, m_lift. intros Ha Hok. destruct (claim_verify c (i_session c)) as [[]|e] eqn:Hc;
    [|injection Ha as <- <-; by split; [done|split; [reflexivity|]]].
  destruct (admit_roster c t) as [t1 [[]|e]] eqn:E1; destruct (admit_roster_spec _ _ _ _ E1 Hok Hc) as (Hok1 & Hg1 & H1).
  - destruct (H1 eq_refl) as [_ Hr]. destruct (place_client_spec _ _ _ _ Ha Hok1 Hc Hr) as (Hok2 & Hg2 & _ & H2).
    split; [done|]. split; [by etransitivity|]. intros He. split; [by apply H2|done].
  - injection Ha as <- <-. by split.
Qed.

(** ** What a validated topology says *)

Lemma empty_ok user : topology_ok {| own_user_id := user; clients := []; rosters := [] |}.
Proof. split; cbn; [unfold DM_USERS; lia|apply NoDup_nil_2|by intros ? ?%elem_of_nil|apply NoDup_nil_2..|by intros ? ?%elem_of_nil]. Qed.

(** One step of a topology's life: a client joins, or a verified roster comes. *)
Inductive topology_step (t t' : DmTopology) : Prop :=
| Joined c res (E : add_client c t = (t', res))
| Followed r ds res (V : devices_of r = Ok ds) (E : update_roster r t = (t', res)).

Lemma topology_steps t t' : rtc topology_step t t' -> topology_ok t -> topology_ok t' /\ grown t t'.
Proof.
  intros H. induction H as [|a b t' Hs _ IH]; intros Hok; [by split|].
  assert (topology_ok b /\ grown a b) as [Hb Hg].
  { destruct Hs as [c res E|r ds res V E].
    - by destruct (add_client_spec _ _ _ _ E Hok) as (? & ? & _).
    - by destruct (update_roster_spec _ _ _ _ E Hok (ex_intro _ ds V)) as (? & ? & _). }
  destruct (IH Hb) as [Hok' Hg']. split; [done|by etransitivity].
Qed.

(** C31. The topology of a DM stays in order whatever claims and rosters arrive,
    accepted or refused: at most two users, no two clients with one MLS key or
    one device, every client with a verified claim under a roster its user's
    current one extends; and nothing is rolled back: a user's roster only
    grows and a client stays its user's. *)
Theorem topology_in_order t t' user : rtc topology_step {| own_user_id := user; clients := []; rosters := [] |} t ->
  rtc topology_step t t' -> topology_ok t' /\ grown t t'.
Proof.
  intros H1 H2. apply (topology_steps _ _ H2), (topology_steps _ _ H1), empty_ok.
Qed.

Lemma add_client_count c t t' : add_client c t = (t', Ok tt) -> topology_ok t ->
  clients t' = clients t ++ [c] \/ length (clients t') = length (clients t).
Proof.
  unfold add_client, m_bind, m_lift. intros Ha Hok. destruct (claim_verify c (i_session c)) as [[]|e] eqn:Hc; [|done].
  destruct (admit_roster c t) as [t1 [[]|e]] eqn:E1; [|done]. destruct (admit_roster_spec _ _ _ _ E1 Hok Hc) as (Hok1 & _ & H1).
  destruct (H1 eq_refl) as [Hcl _]. rewrite <-Hcl. unfold place_client in Ha. destruct (client t1 (mls_signer c)) as [e|] eqn:Ee.
  - destruct (_ || _); [done|]. injection Ha as <-. right. cbn [clients set_clients]. rewrite length_app. cbn [length].
    apply client_in in Ee as [Hin Hs]. rewrite <-Hs. destruct Hok1 as [_ _ _ Hsi _ _]. revert Hin Hsi. clear.
    induction (clients t1) as [|y l IH]; [by intros ?%elem_of_nil|]. intros Hin [Hy Hnd]%NoDup_cons. rewrite filter_cons.
    apply elem_of_cons in Hin as [->|Hin].
    + rewrite decide_False by (intros Hn; by apply Hn). cbn. rewrite Nat.add_1_r. f_equal.
      clear IH Hnd. induction l as [|z l IH]; [done|]. rewrite filter_cons, decide_True; [cbn; f_equal; apply IH|].
      * intros H. apply Hy. by right.
      * intros He. apply Hy. cbn. rewrite He. left.
    + rewrite decide_True; [cbn; by rewrite IH|]. intros He. apply Hy. rewrite He. by apply list_elem_of_fmap_2.
  - destruct (existsb _ _); [done|]. injection Ha as <-. by left.
Qed.

Lemma authorized_claim r base d : authorizes_admitted r base d = Ok true ->
  base `prefix_of` r /\ existsb (removes (device_id d)) (drop (length base) r) = false /\ exists ds, devices_of r = Ok ds /\ d ∈ ds.
Proof.
  unfold Devices.authorizes_admitted, Devices.revoked_since. intros (gone & Hg & H)%bind_Ok.
  apply bind_Ok in Hg as (ext & He & Hg). apply bind_Ok in Hg as ([] & ->%guard_or_Ok & [= <-]).
  apply extended_prefix in He. split; [done|]. destruct (existsb _ _); [done|]. split; [done|].
  apply bind_Ok in H as (ds & Hds & [= H%bool_decide_eq_true]). by exists ds.
Qed.

Lemma check_clients t session l checked checked' : try_fold (check_client t session) checked l = Ok checked' -> topology_ok checked ->
  topology_ok checked' /\ length (clients checked') <= length (clients checked) + length l /\
  (length (clients checked') = length (clients checked) + length l -> clients checked' = clients checked ++ l) /\
  forall c, c ∈ l -> claim_verify c session = Ok tt /\
    exists r d, roster t (claim_user c) = Some r /\ claim_device c = Ok d /\ authorizes_admitted r (i_roster c) d = Ok true.
Proof.
  revert checked. induction l as [|c l IH]; intros checked; cbn [try_fold].
  { intros [= <-] Hok. split; [done|]. cbn. split; [lia|]. split; [by rewrite app_nil_r|by intros c ?%elem_of_nil]. }
  intros (checked1 & Hc & Hl)%bind_Ok Hok. unfold check_client in Hc.
  apply bind_Ok in Hc as ([] & Hv & Hc). apply bind_Ok in Hc as (r & Hr%ok_or_Ok & Hc).
  apply bind_Ok in Hc as (d & Hd & Hc). apply bind_Ok in Hc as (ok & Ha%inv_Ok & Hc).
  apply bind_Ok in Hc as ([] & ->%guard_or_Ok & Hc).
  destruct (add_client c checked) as [t1 [[]|e]] eqn:Ea; [|done]. injection Hc as <-.
  destruct (add_client_spec _ _ _ _ Ea Hok) as (Hok1 & _ & _).
  destruct (IH _ Hl Hok1) as (Hok2 & Hlen & Heq & Hall). split; [done|].
  assert (Hone : clients t1 = clients checked ++ [c] \/ length (clients t1) = length (clients checked)) by by apply add_client_count.
  cbn [length]. destruct Hone as [Hone|Hone]; rewrite Hone in *.
  - rewrite length_app in *. cbn [length] in *. split; [lia|]. split; [|].
    + intros Hn. rewrite Heq by lia. by rewrite <-app_assoc.
    + intros c0 [->|Hc0]%elem_of_cons; [|by apply Hall]. split; [done|]. by exists r, d.
  - split; [lia|]. split; [lia|]. intros c0 [->|Hc0]%elem_of_cons; [|by apply Hall]. split; [done|]. by exists r, d.
Qed.

(** C8. A validated topology is exactly who may read the DM: two rosters, one of
    them this installation's user's; the MLS group's members are the clients,
    one each; and every client is a device that signed its key for this very
    session and that its user's roster has listed without interruption ever
    since it was admitted. *)
Theorem validated_topology t session signers : validate t session signers = Ok tt ->
  length (rosters t) = 2 /\ is_Some (roster t (own_user_id t)) /\
  map mls_signer (clients t) ≡ₚ signers /\ NoDup signers /\ NoDup (map i_device (clients t)) /\
  forall c, c ∈ clients t -> exists r d b, roster t (claim_user c) = Some r /\ device_id d = i_device c /\
    i_session c = session /\ claim_bytes c = Ok b /\ verify (signing_public_key d) (i_signature c) b = Ok tt /\
    forall n, length (i_roster c) <= n <= length r -> exists ds, devices_of (take n r) = Ok ds /\ d ∈ ds.
Proof.
  unfold validate. destruct (_ || _) eqn:Hg; [done|].
  apply orb_false_iff in Hg as [H2%negb_false_iff%Nat.eqb_eq Hown%bool_decide_eq_false].
  intros (checked & Hf & H)%bind_Ok. apply guard_or_Ok, andb_true_iff in H as [Hs%bool_decide_eq_true Hn%Nat.eqb_eq].
  destruct (check_clients _ _ _ _ _ Hf (empty_ok _)) as ([_ _ _ Hsi Hde _] & _ & Heq & Hall).
  rewrite Heq in Hsi, Hde by exact Hn. cbn in Hsi, Hde.
  assert (Hperm : map mls_signer (clients t) ≡ₚ signers).
  { rewrite <-(merge_sort_Permutation String.le (map mls_signer (clients t))), Hs. apply merge_sort_Permutation. }
  split; [exact H2|]. split; [by apply not_eq_None_Some|]. split; [done|]. split; [by rewrite <-Hperm|]. split; [done|].
  intros c Hc. destruct (Hall c Hc) as (Hv & r & d & Hr & Hd & Ha).
  destruct (claim_verify_Ok _ _ Hv) as (Hses & _ & _ & ds & d' & b & Hds & Hin & Hid & Hcd & Hb & Hsig).
  rewrite Hd in Hcd. injection Hcd as <-. exists r, d, b. repeat (split; [done|]).
  intros n Hlen. by eapply (admission_unbroken sha256 hex_decode content_to_vec roster_to_vec).
Qed.

(** ** Admissions *)

(** Copying the MLS session keeps the group and its epoch. *)
Class DmMlsLaws : Prop := {
  copy_epoch : forall c c', mls_copy c = Ok c' -> mls_epoch c' = mls_epoch c;
  copy_group : forall c c', mls_copy c = Ok c' -> mls_group c' = mls_group c;
}.
Context {laws : DmMlsLaws}.

Lemma enlarged_Ok t c t' : enlarged t c = Ok t' -> add_client c t = (t', Ok tt).
Proof. unfold enlarged. destruct (add_client c t) as [t1 [[]|e]]; cbn; [by intros [= <-]|done]. Qed.

Lemma stage_admission_Ok s a c m' : stage_admission s a = Ok (c, m') ->
  exists m, membership s = Some m /\ joining m' = None /\ add_client (claim (ad_request a)) (topology m) = (topology m', Ok tt) /\
    epoch_records m' = epoch_records m /\
    validate (topology m') (s_id s) (mls_members c) = Ok tt /\ mls_epoch c = Some (ad_epoch a) /\ mls_group c = Some (ad_group_id a) /\
    (joining m = None -> exists e, mls_epoch (crypto s) = Some e /\ ad_epoch a = (e + 1)%N /\ mls_group (crypto s) = Some (ad_group_id a)).
Proof using Type laws.
  unfold stage_admission. intros (m & Hm%ok_or_Ok & H)%bind_Ok. apply bind_Ok in H as (c0 & Hc0 & H).
  apply bind_Ok in H as (c1 & Hc1 & H). apply bind_Ok in H as (t & Ht%enlarged_Ok & H). apply bind_Ok in H as ([] & Hv & H).
  apply bind_Ok in H as ([] & Hg & [= <- <-]). apply guard_or_Ok, andb_true_iff in Hg as [He%bool_decide_eq_true Hgr%bool_decide_eq_true].
  exists m. cbn. repeat (split; [done|]). intros Hj. rewrite Hj in Hc1. apply bind_Ok in Hc1 as ([] & Hg & _).
  apply guard_or_Ok, andb_true_iff in Hg as [Hn%bool_decide_eq_true Hs%bool_decide_eq_true].
  rewrite (copy_epoch _ _ Hc0) in Hn. rewrite (copy_group _ _ Hc0) in Hs.
  destruct (mls_epoch (crypto s)) as [e|]; [|done]. cbn in Hn. exists e. split; [done|]. split; [|done].
  unfold checked_add64 in Hn. destruct (_ <=? _)%N; [by injection Hn|done].
Qed.

Lemma retain_epoch_topology r m m' : retain_epoch r m = Ok m' -> topology m' = topology m /\ joining m' = joining m.
Proof.
  unfold retain_epoch. destruct (existsb _ _); [done|]. destruct (find _ _) as [e|]; [|by intros [= <-]].
  by intros ([] & _ & [= <-])%bind_Ok.
Qed.

Lemma install_spec c m s s' r : install_device_transition c m s = (s', r) ->
  match r with
  | Ok _ => membership s' = Some m /\ crypto s' = c
  | Err _ => membership s' = membership s /\ crypto s' = crypto s
  end.
Proof.
  unfold install_device_transition, m_bind, asked. destruct (head (external s)) as [[e|]|]; by intros [= <- <-].
Qed.
Lemma ack_keeps peer a s s' r : send_admission_ack peer a s = (s', r) -> membership s' = membership s /\ crypto s' = crypto s.
Proof. unfold send_admission_ack, m_bind, asked. destruct (head (external s)) as [[e|]|]; by intros [= <- <-]. Qed.

(** C10. Nobody enters a DM by an admission but a device of a user who is in it,
    vouched for by a device of that user that is a client and still authorized:
    when another device's admission changes anything here, its claim joined the
    topology by its own check, the clients are again exactly the members of the
    MLS group, and the group moved to the announced epoch, the very next one
    unless this device is the one that joins; otherwise nothing changed. *)
Theorem admission_applied i sender sr a s s' res m
  (Hm : membership s = Some m) (H : apply_device_admission i sender sr a s = (s', res)) :
  membership s' = Some m /\ crypto s' = crypto s \/
  exists m' author, membership s' = Some m' /\ joining m' = None /\
    author ∈ clients (topology m) /\ i_device author = device_id sender /\ claim_user author = claim_user (claim (ad_request a)) /\
    authorized m sender (claim_user author) = true /\ lists (i_roster (claim (ad_request a))) sender = Ok true /\
    add_client (claim (ad_request a)) (topology m) = (topology m', Ok tt) /\
    validate (topology m') (s_id s) (mls_members (crypto s')) = Ok tt /\
    mls_epoch (crypto s') = Some (ad_epoch a) /\ mls_group (crypto s') = Some (ad_group_id a) /\
    (joining m = None -> exists e, mls_epoch (crypto s) = Some e /\ ad_epoch a = (e + 1)%N /\ mls_group (crypto s) = Some (ad_group_id a)).
Proof using Type laws.
  unfold apply_device_admission, session_ref, the_membership, m_get, m_lift in H. unfold m_bind at 1 in H.
  destruct (guard_or _ _) as [[]|e]; [|injection H as <- _; by left]. unfold m_bind at 1 in H. rewrite Hm in H. cbn [ok_or] in H.
  unfold m_bind at 1 2 in H. destruct (verify_authorizer m sender sr a) as [[]|e] eqn:Hau; [|injection H as <- _; by left].
  unfold m_bind at 1 in H. destruct (authorize_current_admission _ _ _ _ _) as [[]|e] eqn:Hcu; [|injection H as <- _; by left].
  unfold m_bind at 1 in H. destruct (verify_request _ _) as [[]|e]; [|injection H as <- _; by left].
  unfold m_bind at 1 in H. destruct (from_admission _ _ _) as [ev|e]; [|injection H as <- _; by left].
  destruct (_ && _); [apply ack_keeps in H as [-> ->]; by left|].
  unfold m_bind at 1 in H. destruct (stage_admission s a) as [[c next]|e] eqn:Hst; [|injection H as <- _; by left].
  unfold m_bind at 1 in H. cbn [fst snd] in H. destruct (match ev with Some e => _ | None => _ end) as [m'|e] eqn:Hre; [|injection H as <- _; by left].
  unfold m_bind in H. destruct (install_device_transition c m' s) as [s1 [[]|e]] eqn:Hin; apply install_spec in Hin as [Hsm Hsc];
    [|injection H as <- _; left; by rewrite Hsm].
  right. apply ack_keeps in H as [-> ->]. rewrite Hsm, Hsc.
  apply stage_admission_Ok in Hst as (m0 & Hm0 & Hj & Hadd & _ & Hval & Hep & Hgr & Hnext). rewrite Hm in Hm0. injection Hm0 as <-.
  assert (Ht : topology m' = topology next /\ joining m' = joining next)
    by (destruct ev; [by eapply retain_epoch_topology|by injection Hre as <-]).
  destruct Ht as [Ht Hjo]. unfold verify_authorizer in Hau. apply bind_Ok in Hau as (author & Hauthor%ok_or_Ok & Hau).
  apply bind_Ok in Hau as (base & _ & Hau). apply bind_Ok in Hau as ([] & Hus & Hau).
  apply guard_or_Ok, andb_true_iff in Hus as [Hu1%String.eqb_eq Hu2%String.eqb_eq].
  apply bind_Ok in Hau as (n1 & _ & Hau). apply bind_Ok in Hau as ([] & _ & Hau). apply bind_Ok in Hau as (n2 & _ & Hau).
  apply bind_Ok in Hau as ([] & _ & Hau). apply bind_Ok in Hau as (listed & Hl & ->%guard_or_Ok).
  unfold authorize_current_admission in Hcu. apply bind_Ok in Hcu as ([] & _ & Hcu). apply bind_Ok in Hcu as (gone & _ & Hcu).
  apply bind_Ok in Hcu as ([] & [_ Hok]%guard_or_Ok%andb_true_iff & _). rewrite Hu2 in Hok.
  unfold client_of_device in Hauthor. apply find_some in Hauthor as [Hin Hid%String.eqb_eq].
  exists m', author. rewrite Ht, Hjo. split_and!; try done. by apply list_elem_of_In.
Qed.

Lemma counterpart_took_Ok user w cs : counterpart_took user w cs = Ok true ->
  exists c d, c ∈ cs /\ claim_user c <> user /\ claim_device c = Ok d /\ moss_peer_id d ∉ w.
Proof.
  induction cs as [|c cs IH]; cbn; [done|]. destruct (String.eqb_spec (claim_user c) user) as [_|Hu].
  { intros (c' & d & Hin & H)%IH. exists c', d. split; [by right|done]. }
  intros (d & Hd & H)%bind_Ok. case_bool_decide as Hw.
  - apply IH in H as (c' & d' & Hin & H). exists c', d'. split; [by right|done].
  - exists c, d. split; [left|done].
Qed.

(** An admission counts as delivered only when it was: an acknowledgement
    takes its sender off the list and closes the journal only if the device
    that joins and a device of the other user are then both off it. *)
Theorem delivery_closed sender r session req epoch s s' m m' j
  (H : acknowledge_device_admission sender r session req epoch s = (s', Ok tt))
  (Hm : membership s = Some m) (Hm' : membership s' = Some m') (Hj : delivery m = Some j) (Hc : delivery m' = None) :
  request_id (ad_request (admission j)) = req /\ ad_epoch (admission j) = epoch /\
  (exists d, claim_device (claim (ad_request (admission j))) = Ok d /\
     (moss_peer_id d ∈ waiting j -> moss_peer_id d = moss_peer_id sender)) /\
  exists c d, c ∈ clients (ad_topology (admission j)) /\ claim_user c <> claim_user (claim (ad_request (admission j))) /\
    claim_device c = Ok d /\ (moss_peer_id d ∈ waiting j -> moss_peer_id d = moss_peer_id sender).
Proof.
  unfold acknowledge_device_admission in H. apply m_bind_Ok in H as (s0 & [] & Hs & H). injection Hs as <- _.
  apply m_bind_Ok in H as (s0 & m0 & Hs & H). injection Hs as <- Hs. rewrite Hm in Hs. injection Hs as <-.
  apply m_bind_Ok in H as (s0 & s1 & Hs & H). injection Hs as <- <-.
  apply m_bind_Ok in H as (s0 & base & Hs & H). injection Hs as <- _.
  apply m_bind_Ok in H as (s0 & newer & Hs & H). injection Hs as <- _.
  apply m_bind_Ok in H as (s0 & [] & Hs & H). injection Hs as <- _. rewrite Hj in H.
  apply m_bind_Ok in H as (s0 & [] & Hs & H). injection Hs as <- Hg.
  apply guard_or_Ok, andb_true_iff in Hg as [Hq%String.eqb_eq He%N.eqb_eq]. split; [done|]. split; [done|].
  apply m_bind_Ok in H as (s0 & took & Hs & H). injection Hs as <- Ht.
  apply m_bind_Ok in H as (s0 & c & Hs & H). injection Hs as <- _.
  unfold install_device_transition, m_bind, asked in H. destruct (head (external s)) as [[e|]|]; [done|..];
    injection H as <-; cbn in Hm'; injection Hm' as <-; cbn in Hc; (destruct took; [clear Hc|done]);
    unfold accepted in Ht; cbn in Ht; apply bind_Ok in Ht as (d & Hd & Ht);
    (case_bool_decide as Hw; [done|]); apply counterpart_took_Ok in Ht as (c' & d' & Hin & Hu & Hd' & Hw').
  all: assert (Hoff : forall p, p ∉ filter (fun p => p <> moss_peer_id sender) (waiting j) -> p ∈ waiting j -> p = moss_peer_id sender)
    by (intros p Hp Hin'; destruct (decide (p = moss_peer_id sender)); [done|]; exfalso; apply Hp; by apply list_elem_of_filter).
  all: split; [exists d; split; [done|by apply Hoff]|exists c', d'; split_and!; try done; by apply Hoff].
Qed.

(** ** Removed devices *)

Lemma client_device t c : NoDup (map i_device (clients t)) -> c ∈ clients t -> client_of_device t (i_device c) = Some c.
Proof.
  intros Hnd Hc. unfold client_of_device. destruct (find _ _) as [e|] eqn:Ef.
  - apply find_some in Ef as [He%list_elem_of_In Hd%String.eqb_eq]. f_equal. by apply (NoDup_key_eq i_device (clients t)).
  - exfalso. apply list_elem_of_In in Hc. pose proof (find_none _ _ Ef c Hc) as Hn. cbn in Hn. by rewrite String.eqb_refl in Hn.
Qed.
Lemma claim_device_id c d : claim_device c = Ok d -> device_id d = i_device c.
Proof. unfold claim_device. intros (ds & _ & [_ H%String.eqb_eq]%ok_or_Ok%find_some)%bind_Ok. done. Qed.

(** C32. A removed device is silenced at once: as soon as the roster known of its
    user removes it after its admission, its calls have no peer, it vouches for
    nobody, and the conversation waits for its removal from the group. *)
Theorem removed_silenced m c d r (Hok : topology_ok (topology m)) (Hc : client (topology m) (mls_signer c) = Some c)
  (Hd : claim_device c = Ok d) (Hr : current_roster m (claim_user c) = Some r)
  (Hgone : existsb (removes (i_device c)) (drop (length (i_roster c)) r) = true) :
  authorized m d (claim_user c) = false /\ call_peer m (mls_signer c) = None /\ pending_removal m = true /\
  forall i sr j, user_id sr = claim_user c -> authorize_current_admission m i d sr j <> Ok tt.
Proof.
  apply client_in in Hc as [Hin _]. pose proof (claim_device_id _ _ Hd) as Hid.
  assert (Hau : authorized m d (claim_user c) = false).
  { unfold authorized. destruct (negb _); [|done]. cbn. rewrite Hr, Hid, (client_device _ _ (ok_devices _ Hok) Hin).
    destruct (authorizes_admitted r (i_roster c) d) as [[|]|e] eqn:Ea; [|done..].
    apply authorized_claim in Ea as (_ & Hno & _). rewrite Hid in Hno. congruence. }
  split; [done|]. split; [|split].
  - unfold call_peer. destruct (client _ _) as [c'|] eqn:Ec; [|done]. apply client_in in Ec as [Hin' Hs].
    assert (c' = c) as -> by (by apply (NoDup_key_eq mls_signer (clients (topology m))); [apply Hok|..]). cbn. rewrite Hd. cbn. by rewrite Hau.
  - apply existsb_exists. exists c. split; [by apply list_elem_of_In|]. by rewrite Hd, Hau.
  - intros i sr j Hu. unfold authorize_current_admission.
    destruct (guard_or (negb (revoked m)) invalid); [|done]. cbn. destruct (inv _); [|done]. cbn. by rewrite Hu, Hau, andb_false_r.
Qed.

(** Pinning a roster never loses a newer one. *)
Lemma pin_roster_grows r m m' res : pin_roster r m = (m', res) ->
  forall u r0, current_roster m u = Some r0 -> exists r1, current_roster m' u = Some r1 /\ r0 `prefix_of` r1.
Proof.
  unfold pin_roster. intros Hp u r0 Hu. destruct (pins m r) as [[|]|e] eqn:Ep; injection Hp as <- _; [by exists r0| |by exists r0].
  destruct (decide (u = user_id r)) as [->|Hne].
  - unfold pins in Ep. rewrite Hu in Ep. apply bind_Ok in Ep as (k & Hk & Ep). destruct k; [done|].
    apply bind_Ok in Ep as (n & Hn%inv_Ok & Ep). apply bind_Ok in Ep as ([] & ->%guard_or_Ok & _).
    exists r. split; [|by apply extended_prefix]. unfold current_roster. cbn [topology pending_rosters with_pending].
    rewrite find_filter_same. unfold current_roster in Hu. destruct (roster (topology m) (user_id r)) as [t0|] eqn:Et; [|done].
    assert (Ht : t0 `prefix_of` r0).
    { destruct (find _ _) as [p|]; [|by injection Hu as <-]. destruct (extends p t0) as [[|]|e] eqn:Ee; cbn in Hu; injection Hu as <-; [|done..].
      by apply extended_prefix. }
    pose proof Hn as [(ds & Hds) _]%extends_iff. apply extended_prefix in Hn. unfold Devices.extends. rewrite Hds. cbn.
    rewrite bool_decide_true; [done|]. by etransitivity.
  - exists r0. split; [|done]. unfold current_roster in *. cbn [topology pending_rosters with_pending]. by rewrite find_filter_other.
Qed.
End Topology.

(** ** Examples: a user with a phone, a laptop and a tablet, and a friend *)

Definition toy_claim (c : string * DeviceRoster * string * string * string) : result string bytes :=
  Ok (String.list_byte_of_string c.1.2).
Definition toy_evidence (e : string * DeviceRoster * JoinRequest * bytes * bytes * N) : result string bytes := Ok [].

Definition toy_identity (s peer : bytes) (r : DeviceRoster) : Identity.DeviceIdentity :=
  {| Identity.persisted := []; Identity.signing_key := s;
     Identity.record := Identity.with_roster r
       (default (Identity.record Identity.blank)
          (res_ok (Identity.new_identity toy_sha hex_bytes toy_content toy_roster_bytes s (hex_string (pad32 peer))))) |}.
Definition friend_roster : DeviceRoster :=
  or_empty (genesis toy_sha hex_bytes toy_content toy_roster_bytes (toy_device [x05] [x15]) [x05]).
Definition friend : Identity.DeviceIdentity := toy_identity [x05] [x15] friend_roster.

Definition no_claim : IdentityClaim :=
  {| i_session := ""; i_roster := []; i_device := ""; mls_signer := ""; display_name := ""; i_signature := "" |}.
(** A device signs for the session "dm" with its own key as its MLS key. *)
Definition claim_of (s peer : bytes) (r : DeviceRoster) : IdentityClaim :=
  default no_claim (res_ok (create toy_sha hex_bytes toy_content toy_roster_bytes toy_claim (toy_identity s peer r) "dm" (pad32 s) "me")).

Abbreviation join c := (add_client toy_sha hex_bytes toy_content toy_roster_bytes toy_claim c).
Definition start : DmTopology := {| own_user_id := user_id friend_roster; clients := []; rosters := [] |}.
Definition met : DmTopology := (join (claim_of [x01] [x11] one_device) (join (claim_of [x05] [x15] friend_roster) start).1).1.

Lemma topology_in_order_witness :
  length (clients met) = 2 /\ topology_ok toy_sha hex_bytes toy_content toy_roster_bytes toy_claim met.
Proof.
  split; [vm_compute; reflexivity|].
  apply (topology_in_order toy_sha hex_bytes toy_content toy_roster_bytes toy_claim start met (user_id friend_roster)).
  - apply rtc_refl.
  - apply (rtc_l _ _ (join (claim_of [x05] [x15] friend_roster) start).1).
    + eapply Joined. apply surjective_pairing.
    + apply rtc_once. eapply Joined. apply surjective_pairing.
Defined.

Definition met_signers : list string := [hex_string (pad32 [x01]); hex_string (pad32 [x05])].
Lemma validated_topology_witness : map mls_signer (clients met) ≡ₚ met_signers /\ NoDup met_signers.
Proof.
  assert (Hv : validate toy_sha hex_bytes toy_content toy_roster_bytes toy_claim met "dm" met_signers = Ok tt) by (vm_compute; reflexivity).
  destruct (validated_topology toy_sha hex_bytes toy_content toy_roster_bytes toy_claim met "dm" met_signers Hv) as (_ & _ & Hp & Hn & _).
  exact (conj Hp Hn).
Defined.

(** A group whose state is its epoch and its members; a commit and a key package
    are the seed of the device that joins. *)
#[local] Instance toy_mls : DmMls (N * list string) := {|
  mls_copy c := Ok c; mls_epoch c := Some c.1; mls_group c := Some [x07]; mls_members := snd; mls_public _ := [];
  package_identity _ p := Ok (device_id_of toy_sha (pad32 p)); package_signer _ p := Ok (hex_string (pad32 p));
  add_member c p := Ok ((c.1 + 1, c.2 ++ [hex_string (pad32 p)])%N, (p, [], []));
  join_welcome c w t := Err Calls.NotReady;
  process_commit c p := Ok (c.1 + 1, c.2 ++ [hex_string (pad32 p)])%N;
  remove_member_by_signer c signer := Ok ((c.1 + 1, filter (fun k => k <> signer) c.2)%N, String.list_byte_of_string signer);
  process_commit_from c b _ := Ok (c.1 + 1, filter (fun k => String.list_byte_of_string k <> b) c.2)%N;
|}.
#[local] Instance toy_mls_laws : DmMlsLaws.
Proof. by split; intros c c' [= <-]. Qed.

Definition in_dm (t : DmTopology) (c : N * list string) (d : option AdmissionJournal) (pinned : list DeviceRoster)
  : @DmSession (N * list string) :=
  {| s_id := "dm"; device_name := "friend"; crypto := c;
     membership := Some (with_pending pinned (with_delivery d (with_topology t (no_membership (user_id friend_roster)))));
     s_state := SConnected; peer_joined := true; last_hello_send_ms := 5; outbound_attempts := ∅; seen := Frames.no_frames;
     record_dirty := false; claim_signer := None; device_signer := None; acks := []; external := [] |}.
Definition the_member (s : @DmSession (N * list string)) : DeviceMembership :=
  default (no_membership "") (membership s).

(** The phone admits the laptop; the friend follows. *)
Definition laptop_joins : Admission :=
  {| ad_request := {| request_id := "r"; claim := claim_of [x02] [x12] two_devices; key_package := [x02] |};
     ad_commit := [x02]; ad_welcome := []; ad_tree := []; ad_topology := met; ad_group_id := [x07]; ad_epoch := 2; recovery_authorization := None |}.
Definition before_laptop := in_dm met (1%N, met_signers) None [].
Abbreviation followed := (apply_device_admission toy_sha hex_bytes toy_content toy_roster_bytes toy_claim toy_evidence friend phone two_devices
  laptop_joins before_laptop).

Lemma admission_applied_witness : length (clients (topology (the_member followed.1))) = 3 /\
  validate toy_sha hex_bytes toy_content toy_roster_bytes toy_claim (topology (the_member followed.1)) "dm" (mls_members (crypto followed.1)) = Ok tt.
Proof.
  split; [vm_compute; reflexivity|].
  destruct (admission_applied toy_sha hex_bytes toy_content toy_roster_bytes toy_claim toy_evidence friend phone two_devices laptop_joins
    before_laptop followed.1 followed.2 _ eq_refl (surjective_pairing _)) as [[_ H]|(m' & author & Hm & _ & _ & _ & _ & _ & _ & _ & Hv & _)].
  - vm_compute in H. discriminate H.
  - unfold the_member. rewrite Hm. exact Hv.
Defined.

(** The laptop is in and saved; the friend's acknowledgement closes the journal. *)
Definition waits_for_friend : AdmissionJournal := {| admission := laptop_joins; waiting := [hex_string (pad32 [x15])] |}.
Definition acknowledging := in_dm met (2%N, met_signers) (Some waits_for_friend) [].
Abbreviation closed := (acknowledge_device_admission toy_sha hex_bytes toy_content toy_roster_bytes (toy_device [x05] [x15]) friend_roster
  "dm" "r" 2 acknowledging).
Lemma delivery_closed_witness : exists d,
  claim_device toy_sha hex_bytes toy_content toy_roster_bytes (claim_of [x02] [x12] two_devices) = Ok d /\ moss_peer_id d ∉ waiting waits_for_friend.
Proof.
  assert (Hc : closed = (closed.1, Ok tt)) by (apply surjective_pairing_eq; vm_compute; reflexivity).
  destruct (delivery_closed toy_sha hex_bytes toy_content toy_roster_bytes (toy_device [x05] [x15]) friend_roster "dm" "r" 2
    acknowledging closed.1 _ (the_member closed.1) waits_for_friend Hc eq_refl) as (_ & _ & (d & Hd & Hw) & _).
  - vm_compute. reflexivity.
  - reflexivity.
  - vm_compute. reflexivity.
  - exists d. split; [exact Hd|]. intros Hin. specialize (Hw Hin). vm_compute in Hd. injection Hd as <-.
    vm_compute in Hw. discriminate Hw.
Defined.

(** The tablet removed the laptop: the friend pins the roster. *)
Definition trio : DmTopology :=
  (join (claim_of [x03] [x13] three_devices) (join (claim_of [x02] [x12] two_devices) met).1).1.
Definition pinned_trio := the_member (in_dm trio (4%N, []) None [laptop_removed]).
Lemma removed_silenced_witness :
  call_peer toy_sha hex_bytes toy_content toy_roster_bytes pinned_trio (hex_string (pad32 [x02])) = None.
Proof.
  refine (proj1 (proj2 (removed_silenced toy_sha hex_bytes toy_content toy_roster_bytes toy_claim pinned_trio (claim_of [x02] [x12] two_devices) laptop
    laptop_removed _ _ _ _ _))).
  - change (topology pinned_trio) with trio.
    refine (proj1 (topology_steps toy_sha hex_bytes toy_content toy_roster_bytes toy_claim start trio _ (empty_ok _ _ _ _ _ (user_id friend_roster)))).
    apply (rtc_l _ _ (join (claim_of [x05] [x15] friend_roster) start).1); [eapply Joined; apply surjective_pairing|].
    apply (rtc_l _ _ met); [eapply Joined; apply surjective_pairing|].
    apply (rtc_l _ _ (join (claim_of [x02] [x12] two_devices) met).1); [eapply Joined; apply surjective_pairing|].
    apply rtc_once. eapply Joined. apply surjective_pairing.
  - vm_compute. reflexivity.
  - vm_compute. reflexivity.
  - vm_compute. reflexivity.
  - vm_compute. reflexivity.
Defined.

(** A pinned removal is lost when another device of the same user brings a roster
    that forked before it: the phone, offline, added a watch; its claim is taken,
    the pinned roster no longer extends the user's, and the removed laptop is
    authorized again. *)
Definition watch_added : DeviceRoster := or_empty (toy_extend three_devices (toy_device [x04] [x14]) [x01]).
Definition phone_speaks := accept_identity_claim toy_sha hex_bytes toy_content toy_roster_bytes toy_claim
  (Ok (claim_of [x01] [x11] watch_added, pad32 [x01])) (in_dm trio (4%N, []) None [laptop_removed]).
Example fork_forgets_removal :
  authorized toy_sha hex_bytes toy_content toy_roster_bytes pinned_trio laptop (user_id three_devices) = false /\
  phone_speaks.2 = Ok (Some "me") /\
  pending_rosters (the_member phone_speaks.1) = [laptop_removed] /\
  authorized toy_sha hex_bytes toy_content toy_roster_bytes (the_member phone_speaks.1) laptop (user_id three_devices) = true.
Proof. vm_compute. done. Qed.
End Topology.
