(* ===== verification/Removal.v ===== *)
(** * Removal: taking a device out of a DM
      ([private_dm_runtime/devices/revocation]: [evidence.rs], [transition.rs],
      [delivery.rs], [bootstrap.rs]; [recovery/relay.rs])

    The roster removes a device; then the device that signed the removal commits
    it in every DM, and the others follow its commit by the evidence it sends.
    The state is the session of Topology beside the stored identity, which
    adopts the roster a removal of one's own device set brings. *)
From S2P Require Import Prelude Store Messages Devices Identity Calls Recovery Topology.

Module Removal.
Import Store Devices Topology.

#[local] Open Scope mosh_scope.
#[local] Set Default Proof Using "Type".

Section Removal.
Context {scheme : Ed25519} {C : Type} {mls : DmMls C} {St : Type} {cell : CasCell St}.
Variable sha256 : bytes -> bytes.
Variable hex_decode : string -> result string bytes.
Variable content_to_vec : N * option string * string * DeviceDescriptor -> result string bytes.
Variable roster_to_vec : DeviceRoster -> result string bytes.
Variable claim_to_vec : string * DeviceRoster * string * string * string -> result string bytes.
(** [serde_json::to_vec] of the body of a removal and of the whole record. *)
Variable body_to_vec : string * string * string * DeviceRoster * bytes * bytes * N -> result string bytes.
Variable removal_to_vec : RemovalRecord -> result string bytes.
(** The stored identity of this installation. *)
Variable delegation_to_vec : string * list Identity.Delegation * string -> result string bytes.
Variable identity_to_vec : Identity.LocalIdentity -> result string bytes.
Variable identity_from_slice : bytes -> result string Identity.LocalIdentity.
Variable generated : bytes.

Abbreviation devices_of := (Devices.devices_of sha256 hex_decode content_to_vec roster_to_vec).
Abbreviation extends := (Devices.extends sha256 hex_decode content_to_vec roster_to_vec).
Abbreviation verifies_removal := (Devices.verifies_removal sha256 hex_decode content_to_vec roster_to_vec).
Abbreviation verifies_removal_extension := (Devices.verifies_removal_extension sha256 hex_decode content_to_vec roster_to_vec).
Abbreviation revoked_since := (Devices.revoked_since sha256 hex_decode content_to_vec roster_to_vec).
Abbreviation first_removal_since := (Devices.first_removal_since sha256 hex_decode content_to_vec roster_to_vec).
Abbreviation removal_author := (Devices.removal_author sha256 hex_decode content_to_vec roster_to_vec).
Abbreviation digest := (Devices.digest sha256 roster_to_vec).
Abbreviation verify := (Topology.verify hex_decode).
Abbreviation lists := (Topology.lists sha256 hex_decode content_to_vec roster_to_vec).
Abbreviation claim_device := (Topology.claim_device sha256 hex_decode content_to_vec roster_to_vec).
Abbreviation update_roster := (Topology.update_roster sha256 hex_decode content_to_vec roster_to_vec).
Abbreviation validate := (Topology.validate sha256 hex_decode content_to_vec roster_to_vec claim_to_vec).
Abbreviation current_roster := (Topology.current_roster sha256 hex_decode content_to_vec roster_to_vec).
Abbreviation authorized := (Topology.authorized sha256 hex_decode content_to_vec roster_to_vec).
Abbreviation pin_roster := (Topology.pin_roster sha256 hex_decode content_to_vec roster_to_vec).
Abbreviation identity_revoked := (Identity.revoked sha256 hex_decode content_to_vec roster_to_vec).
Abbreviation check := (result PrivateDmRuntimeError).
Abbreviation DmSession := (@Topology.DmSession C).
Abbreviation own_roster i := (Identity.roster (Identity.record i)).
Abbreviation own_device i := (Identity.own_device (Identity.record i)).

(** ** Evidence ([evidence.rs]) *)

Definition removal_bytes (e : RemovalRecord) : check bytes :=
  b ← inv (body_to_vec (rm_session e, rm_author e, target e, rm_roster e, rm_commit e, rm_group_id e, rm_epoch e));
  Ok (context "mosh-dm-removal-evidence-v1" ++ b).
Definition removal_create (i : Identity.DeviceIdentity) (session target : string) (r : DeviceRoster) (c : C) (commit : bytes)
  : check RemovalRecord :=
  group ← ok_or (mls_group c) invalid;
  epoch ← ok_or (mls_epoch c) invalid;
  let record sig := {| rm_session := session; rm_author := device_id (own_device i); target := target; rm_roster := r;
                       rm_commit := commit; rm_group_id := group; rm_epoch := epoch; rm_signature := sig |} in
  b ← removal_bytes (record "");
  Ok (record (hex_string (sign (Identity.key i) b))).
Definition removal_digest (e : RemovalRecord) : check string :=
  b ← inv (removal_to_vec e); Ok (hex_string (sha256 b)).

Definition verify_context (s : DmSession) (e : RemovalRecord) (author : DeviceDescriptor) (base : DeviceRoster) : check unit :=
  _ ← guard_or (String.eqb (rm_session e) (s_id s)) invalid;
  group ← ok_or (mls_group (crypto s)) invalid;
  _ ← guard_or (bool_decide (rm_group_id e = group)) invalid;
  _ ← inv (verifies_removal_extension (rm_roster e) base (target e) (rm_author e));
  b ← removal_bytes e;
  verify (signing_public_key author) (rm_signature e) b.
Definition verify_author (s : DmSession) (e : RemovalRecord) : check IdentityClaim :=
  m ← ok_or (membership s) invalid;
  author ← ok_or (client_of_device (topology m) (rm_author e)) invalid;
  base ← ok_or (roster (topology m) (claim_user author)) invalid;
  d ← claim_device author;
  listed ← lists base d;
  _ ← guard_or listed invalid;
  _ ← verify_context s e d base;
  Ok author.
(** The MLS key the commit has to come from. *)
Definition verify_removal (s : DmSession) (e : RemovalRecord) : check string :=
  author ← verify_author s e;
  m ← ok_or (membership s) invalid;
  gone ← ok_or (client_of_device (topology m) (target e)) invalid;
  base ← ok_or (roster (topology m) (claim_user author)) invalid;
  _ ← guard_or (String.eqb (claim_user gone) (claim_user author)) invalid;
  _ ← inv (verifies_removal (rm_roster e) base (target e) (rm_author e));
  Ok (mls_signer author).
Definition verify_hint (s : DmSession) (e : RemovalRecord) : check unit :=
  m ← ok_or (membership s) invalid;
  base ← ok_or (roster (topology m) (user_id (rm_roster e))) invalid;
  ds ← inv (devices_of (rm_roster e));
  author ← ok_or (find (fun d => String.eqb (device_id d) (rm_author e)) ds) invalid;
  verify_context s e author base.

Definition waited_for (t : DmTopology) (e : RemovalRecord) (local : string) : check (list string) :=
  try_fold (fun l c => d ← claim_device c; Ok (l ++ [moss_peer_id d])) []
    (filter (fun c => i_device c <> local /\ i_device c <> rm_author e) (clients t)).
Definition retain_removal (e : RemovalRecord) (local : string) (m : DeviceMembership) : check DeviceMembership :=
  if existsb (fun r => (e_epoch r =? rm_epoch e)%N) (epoch_records m) then Err invalid
  else match find (fun j => (rm_epoch (evidence j) =? rm_epoch e)%N) (removals m) with
       | Some j =>
           known ← removal_digest (evidence j);
           new ← removal_digest e;
           _ ← guard_or (String.eqb known new) invalid;
           Ok m
       | None =>
           w ← waited_for (topology m) e local;
           Ok (with_removals (removals m ++ [{| evidence := e; rm_waiting := w |}]) m)
       end.

(** ** The next membership ([transition.rs]) *)

Definition without_peer (p : string) (j : RemovalJournal) : RemovalJournal :=
  {| evidence := evidence j; rm_waiting := filter (fun w => w <> p) (rm_waiting j) |}.
Definition forget_delivery (target peer : string) (d : option AdmissionJournal) : option AdmissionJournal :=
  match d with
  | Some j =>
      if String.eqb (i_device (claim (ad_request (admission j)))) target then None
      else Some {| admission := admission j; waiting := filter (fun w => w <> peer) (waiting j) |}
  | None => None
  end.
Definition forget_source (target : string) (r : Topology.Recovery) : Topology.Recovery :=
  match source r with
  | Some s =>
      if String.eqb (rs_device_id s) target
      then {| round := round r; re_request_id := re_request_id r; started_ms := 0; last_rx_ms := last_rx_ms r;
              required_epoch := required_epoch r; source := None; observed := observed r |}
      else r
  | None => r
  end.
Definition keeps_import (target : string) (i : HistoryImport) : bool :=
  negb (String.eqb (source_device_id i) target && negb (Recovery.complete (progress i))).
Definition forget_removed_peer (id : string) (m : DeviceMembership) : check DeviceMembership :=
  c ← ok_or (client_of_device (topology m) id) invalid;
  d ← claim_device c;
  let peer := moss_peer_id d in
  Ok (with_recovery (forget_source id <$> recovery m)
      (with_history (i ← history_import m; if keeps_import id i then Some i else None)
         (filter (fun e => recipient_device_id e <> id) (history_exports m))
         (filter (fun e => recipient_device_id (export e) <> id) (recovery_exports m))
      (with_removals (map (without_peer peer) (removals m))
      (with_delivery (forget_delivery id peer (delivery m)) m)))).

Definition raise_epoch (epoch : N) (r : Topology.Recovery) : Topology.Recovery :=
  {| round := round r; re_request_id := re_request_id r; started_ms := started_ms r; last_rx_ms := last_rx_ms r;
     required_epoch := N.max (required_epoch r) epoch; source := source r; observed := observed r |}.

Definition shrunk (id : string) (r : DeviceRoster) (t : DmTopology) : check DmTopology :=
  let '(t, res) := update_roster r (set_clients (filter (fun c => i_device c <> id) (clients t)) t) in _ ← res; Ok t.
Definition next_membership (s : DmSession) (e : RemovalRecord) (c : C) (local : string) : check DeviceMembership :=
  m ← ok_or (membership s) invalid;
  m ← forget_removed_peer (target e) m;
  t ← shrunk (target e) (rm_roster e) (topology m);
  _ ← validate t (s_id s) (mls_members c);
  _ ← guard_or (bool_decide (mls_epoch c = Some (rm_epoch e)) && bool_decide (mls_group c = Some (rm_group_id e))) invalid;
  let kept := filter (fun k => k ∈ mls_members c) in
  m ← retain_removal e local (with_targets (kept <$> receipt_targets m) (with_topology t m));
  Ok (with_recovery (raise_epoch (rm_epoch e) <$> recovery m) m).
Definition stage_removal (s : DmSession) (e : RemovalRecord) (local : string) : check (C * DeviceMembership) :=
  author ← verify_removal s e;
  _ ← guard_or (bool_decide ((n ← mls_epoch (crypto s); checked_add64 n 1) = Some (rm_epoch e))) invalid;
  c ← mls_copy (crypto s);
  c ← process_commit_from c (rm_commit e) author;
  m ← next_membership s e c local;
  Ok (c, m).

(** ** Who may relay it ([delivery.rs], [relay.rs], [bootstrap.rs]) *)

Definition authorize_removal_relay (s : DmSession) (sender : DeviceDescriptor) (r : DeviceRoster) : check unit :=
  m ← ok_or (membership s) invalid;
  c ← ok_or (client_of_device (topology m) (device_id sender)) invalid;
  current ← ok_or (roster (topology m) (user_id r)) invalid;
  _ ← guard_or (authorized m sender (user_id r)) invalid;
  d ← claim_device c;
  _ ← guard_or (bool_decide (d = sender)) invalid;
  older ← inv (extends current r);
  if (older : bool) then Ok tt else newer ← inv (extends r current); guard_or newer invalid.

Definition authorize_roster_relay (s : DmSession) (sender : DeviceDescriptor) (r : DeviceRoster) : check unit :=
  m ← ok_or (membership s) invalid;
  _ ← validate (topology m) (s_id s) (mls_members (crypto s));
  current ← ok_or (current_roster m (user_id r)) invalid;
  newer ← inv (extends r current);
  effective ← (if (newer : bool) then Ok r
               else older ← inv (extends current r); _ ← guard_or older invalid; Ok current);
  _ ← guard_or (negb (revoked m) && negb (is_joining m) && peer_joined s) invalid;
  listed ← lists effective sender;
  guard_or listed invalid.

Definition require_epoch (epoch current now : N) (m : DeviceMembership) : DeviceMembership :=
  let r := default {| round := 0; re_request_id := ""; started_ms := 0; last_rx_ms := now; required_epoch := current; source := None;
                      observed := ∅ |} (recovery m) in
  let s := (fun s => {| rs_device_id := rs_device_id s; rs_epoch := N.max (rs_epoch s) epoch; rs_import := rs_import s |}) <$> source r in
  with_recovery (Some {| round := round r; re_request_id := re_request_id r; started_ms := started_ms r; last_rx_ms := last_rx_ms r;
                         required_epoch := N.max (required_epoch r) epoch; source := s; observed := observed r |}) m.

(** ** The handlers ([transition.rs], [mod.rs], [delivery.rs], [bootstrap.rs]) *)

(** The session beside the store of the identity, when the runtime has one;
    [local] is the transport's name for this installation. *)
Abbreviation op := (method (DmSession * option St) PrivateDmRuntimeError).
Definition in_session {A} (m : method DmSession PrivateDmRuntimeError A) : op A := fun w =>
  let '(s, r) := m w.1 in ((s, w.2), r).
Definition read {A} (f : DmSession -> check A) : op A := fun w => (w, f w.1).
Definition put_membership (m : DeviceMembership) : method DmSession PrivateDmRuntimeError unit :=
  m_modify (fun s => with_membership m (record_dirty s) s).
(** [save_recovery_membership]: the record is stored before the session takes it. *)
Definition save_membership (m : DeviceMembership) : method DmSession PrivateDmRuntimeError unit := asked;;; put_membership m.

Definition adopt_own_removal (local : option string) (e : RemovalRecord) : op unit := fun w =>
  match w.2, local with
  | Some st, Some peer =>
      match Identity.open sha256 hex_decode content_to_vec roster_to_vec delegation_to_vec identity_to_vec identity_from_slice st generated peer with
      | (st, Err _) => ((w.1, Some st), Err invalid)
      | (st, Ok i) =>
          if negb (String.eqb (user_id (rm_roster e)) (user_id (own_roster i))) then ((w.1, Some st), Ok tt)
          else match inv (extends (own_roster i) (rm_roster e)) with
               | Err x => ((w.1, Some st), Err x)
               | Ok true => ((w.1, Some st), Ok tt)
               | Ok false =>
                   let '(st, _, r) := Identity.adopt_roster sha256 hex_decode content_to_vec roster_to_vec identity_to_vec (rm_roster e) st i in
                   ((w.1, Some st), inv r)
               end
      end
  | _, _ => (w, Err invalid)
  end.

(** The acknowledgement names the evidence by its digest. *)
Definition send_removal_ack (sender : DeviceDescriptor) (e : RemovalRecord) : op unit :=
  dg <~ m_lift (removal_digest e);;
  in_session (asked;;; m_modify (fun s => with_world (acks s ++ [(moss_peer_id sender, (dg, rm_epoch e))]) (external s) s)).

Definition bootstrap_future_removal (sender : DeviceDescriptor) (r : DeviceRoster) (e : RemovalRecord) (now : N) : op bool :=
  (fun w => (w, guard_or (bool_decide (is_Some w.2)) invalid));;;
  in_session (session_ref (rm_session e));;;
  epoch <~ read (fun s => ok_or (mls_epoch (crypto s)) invalid);;
  next <~ m_lift (ok_or (checked_add64 epoch 1) invalid);;
  if (rm_epoch e <=? next)%N then m_ret false
  else
    read (fun s => authorize_roster_relay s sender r);;;
    read (fun s => verify_hint s e);;;
    m <~ in_session the_membership;;
    (let '(m, res) := pin_roster (rm_roster e) m in
     m_lift res;;; in_session (save_membership (require_epoch (rm_epoch e) epoch now m)));;;
    m_ret true.

(** Evidence of a removal, from a client of this conversation. *)
Definition receive_removal (i : Identity.DeviceIdentity) (local : option string) (sender : DeviceDescriptor) (r : DeviceRoster)
    (e : RemovalRecord) (now : N) : op unit :=
  ahead <~ bootstrap_future_removal sender r e now;;
  if (ahead : bool) then m_lift (Err invalid)
  else
    in_session (session_ref (rm_session e));;;
    read (fun s => authorize_removal_relay s sender r);;;
    m <~ in_session the_membership;;
    match find (fun j => (rm_epoch (evidence j) =? rm_epoch e)%N) (removals m) with
    | Some j =>
        known <~ m_lift (removal_digest (evidence j));;
        new <~ m_lift (removal_digest e);;
        m_lift (guard_or (String.eqb known new) invalid);;;
        adopt_own_removal local e;;;
        send_removal_ack sender e
    | None =>
        staged <~ read (fun s => stage_removal s e (device_id (own_device i)));;
        in_session (install_device_transition staged.1 staged.2);;;
        adopt_own_removal local e;;;
        send_removal_ack sender e
    end.

Definition acknowledge_removal (sender : DeviceDescriptor) (r : DeviceRoster) (session : string) (epoch : N) (dg : string) : op unit :=
  in_session (session_ref session);;;
  read (fun s => authorize_removal_relay s sender r);;;
  m <~ in_session the_membership;;
  j <~ m_lift (ok_or (find (fun j => (rm_epoch (evidence j) =? epoch)%N) (removals m)) invalid);;
  known <~ m_lift (removal_digest (evidence j));;
  m_lift (guard_or (String.eqb known dg) invalid);;;
  in_session (save_membership (with_removals
    (Messages.update_first (fun j => (rm_epoch (evidence j) =? epoch)%N) (without_peer (moss_peer_id sender)) (removals m)) m)).

Definition removal_packets (m : DeviceMembership) : list (string * RemovalRecord) :=
  if revoked m then [] else concat (map (fun j => map (fun p => (p, evidence j)) (rm_waiting j)) (removals m)).

(** ** This device's own part ([transition.rs]) *)

(** Of this user's clients that the own roster removed, the one it removed
    first; none when another device signed that removal. *)
Definition earlier (best : option (IdentityClaim * DeviceRoster)) (r : DeviceRoster) : bool :=
  match best with None => true | Some (_, previous) => or_false (extends previous r) end.
Definition next_local_removal (m : DeviceMembership) (i : Identity.DeviceIdentity) : check (option (IdentityClaim * DeviceRoster)) :=
  next ← try_fold (fun best c =>
      if negb (String.eqb (claim_user c) (user_id (own_roster i))) then Ok best
      else found ← inv (first_removal_since (own_roster i) (i_roster c) (i_device c));
           Ok (match found with
               | None => best
               | Some r => if earlier best r then Some (c, r) else best
               end)) None (clients (topology m));
  match next with
  | None => Ok None
  | Some (c, r) =>
      author ← inv (removal_author r (i_device c));
      Ok (if bool_decide (author = Some (device_id (own_device i))) then next else None)
  end.

Definition originate_removal (i : Identity.DeviceIdentity) : op unit :=
  gone <~ m_lift (inv (identity_revoked i));;
  if (gone : bool) then m_ret tt
  else fun w =>
    match membership w.1 with
    | None => (w, Ok tt)
    | Some m =>
        if is_joining m || negb (peer_joined w.1) then (w, Ok tt)
        else (next <~ m_lift (next_local_removal m i);;
              match next with
              | None => m_ret tt
              | Some (c, r) =>
                  copy <~ m_lift (mls_copy (crypto w.1));;
                  removed <~ m_lift (remove_member_by_signer copy (mls_signer c));;
                  e <~ m_lift (removal_create i (s_id w.1) (i_device c) r removed.1 removed.2);;
                  m <~ m_lift (next_membership w.1 e removed.1 (device_id (own_device i)));;
                  in_session (install_device_transition removed.1 m)
              end) w
    end.

Definition note_roster_revocation (i : Identity.DeviceIdentity) : op unit := fun w =>
  match membership w.1 with
  | None => (w, Ok tt)
  | Some m =>
      let own := own_roster i in
      let obsolete := match client (topology m) (hex_string (mls_public (crypto w.1))) with
                      | Some c => or_false (revoked_since own (i_roster c) (i_device c)) | None => false end in
      let known := current_roster m (user_id own) in
      let pinned := with_pending (filter (fun r => user_id r <> user_id own) (pending_rosters m) ++ [own]) m in
      match inv (identity_revoked i) with
      | Err x => (w, Err x)
      | Ok gone =>
          if gone || obsolete then ((with_membership (with_revoked true m) true w.1, w.2), Ok tt)
          else match known with
               | None => ((with_membership pinned true w.1, w.2), Ok tt)
               | Some base =>
                   if bool_decide (res_ok (digest base) = res_ok (digest own)) then (w, Ok tt)
                   else match inv (extends own base) with
                        | Err x => (w, Err x)
                        | Ok true => ((with_membership pinned true w.1, w.2), Ok tt)
                        | Ok false => (w, Ok tt)
                        end
               end
      end
  end.

(** [reconcile_revocations], for one of the sessions. *)
Definition reconcile_revocations (i : Identity.DeviceIdentity) : op unit := note_roster_revocation i;;; originate_removal i.


(** ** What a removal takes *)

Lemma verifies_removal_Ok r base id sg : verifies_removal r base id sg = Ok tt ->
  base `prefix_of` r /\ exists x ds, last r = Some x /\ version x = REMOVAL_VERSION /\ device_id (device x) = id /\ signer x = sg /\
    devices_of base = Ok ds /\ device x ∈ ds.
Proof.
  unfold Devices.verifies_removal, Devices.verifies_removal_extension. intros ([] & Hx & H)%bind_Ok.
  apply bind_Ok in Hx as (x & Hlast%ok_or_Ok & Hx). apply bind_Ok in Hx as (ext & He & Hx).
  destruct (_ || _) eqn:Hg; [done|]. apply orb_false_iff in Hg as [Hg Hs%negb_false_iff%String.eqb_eq].
  apply orb_false_iff in Hg as [Hg Hid%negb_false_iff%String.eqb_eq]. apply orb_false_iff in Hg as [->%negb_false_iff Hv%negb_false_iff%N.eqb_eq].
  split; [by eapply Topology.extended_prefix|]. rewrite Hlast in H. cbn in H. apply bind_Ok in H as (ds & Hds & H).
  case_bool_decide as Hin; [|done]. by exists x, ds.
Qed.

Lemma forget_removed_topology id m m' : forget_removed_peer id m = Ok m' -> topology m' = topology m /\ joining m' = joining m.
Proof. unfold forget_removed_peer. intros (c & _ & H)%bind_Ok. by apply bind_Ok in H as (d & _ & [= <-]). Qed.
Lemma retain_removal_topology e local m m' : retain_removal e local m = Ok m' -> topology m' = topology m.
Proof.
  unfold retain_removal. destruct (existsb _ _); [done|]. destruct (find _ _) as [j|].
  - intros (k & _ & H)%bind_Ok. apply bind_Ok in H as (n & _ & H). by apply bind_Ok in H as ([] & _ & [= <-]).
  - by intros (l & _ & [= <-])%bind_Ok.
Qed.
Lemma shrunk_Ok id r t t' : shrunk id r t = Ok t' ->
  clients t' = filter (fun c => i_device c <> id) (clients t) /\ own_user_id t' = own_user_id t /\ roster t' (user_id r) = Some r.
Proof.
  unfold shrunk, Topology.update_roster. destruct (may_follow _ _ _ _ _ _) as [[]|e]; [|done]. intros [= <-].
  split; [done|]. split; [done|]. apply find_filter_same.
Qed.

(** A device leaves a membership only so. *)
Record removed (s : DmSession) (m : DeviceMembership) (e : RemovalRecord) (c : C) (m' : DeviceMembership) : Prop := {
  rv_clients : clients (topology m') = filter (fun x => i_device x <> target e) (clients (topology m));
  rv_gone : client_of_device (topology m') (target e) = None;
  rv_roster : roster (topology m') (user_id (rm_roster e)) = Some (rm_roster e);
  rv_members : validate (topology m') (s_id s) (mls_members c) = Ok tt;
  rv_epoch : mls_epoch c = Some (rm_epoch e);
  rv_group : mls_group c = Some (rm_group_id e);
}.
Lemma next_membership_Ok s e c local m m' : membership s = Some m -> next_membership s e c local = Ok m' -> removed s m e c m'.
Proof.
  intros Hm. unfold next_membership. rewrite Hm. cbn. intros (m1 & Hf & H)%bind_Ok. apply forget_removed_topology in Hf as [Ht _].
  apply bind_Ok in H as (t & Hsh & H). rewrite Ht in Hsh. apply shrunk_Ok in Hsh as (Hcl & _ & Hro).
  apply bind_Ok in H as ([] & Hv & H). apply bind_Ok in H as ([] & Hg & H).
  apply guard_or_Ok, andb_true_iff in Hg as [He%bool_decide_eq_true Hgr%bool_decide_eq_true].
  apply bind_Ok in H as (m2 & Hre & [= <-]). apply retain_removal_topology in Hre. cbn in Hre.
  assert (Htop : topology (with_recovery (raise_epoch (rm_epoch e) <$> recovery m2) m2) = t) by exact Hre.
  split; rewrite ?Htop; try done. unfold client_of_device. rewrite Hcl. destruct (find _ _) as [x|] eqn:Ef; [|done].
  apply find_some in Ef as [Hin%list_elem_of_In Hd%String.eqb_eq]. by apply list_elem_of_filter in Hin as [Hne _].
Qed.

Lemma verify_removal_Ok s e m signer : membership s = Some m -> verify_removal s e = Ok signer ->
  exists author gone d base b, client_of_device (topology m) (rm_author e) = Some author /\ mls_signer author = signer /\
    client_of_device (topology m) (target e) = Some gone /\ claim_user gone = claim_user author /\
    claim_device author = Ok d /\ removal_bytes e = Ok b /\ verify (signing_public_key d) (rm_signature e) b = Ok tt /\
    rm_session e = s_id s /\ mls_group (crypto s) = Some (rm_group_id e) /\
    roster (topology m) (claim_user author) = Some base /\ lists base d = Ok true /\
    verifies_removal (rm_roster e) base (target e) (rm_author e) = Ok tt.
Proof.
  intros Hm. unfold verify_removal, verify_author. rewrite Hm. cbn [ok_or mbind result_bind].
  intros (author & Ha & H)%bind_Ok. apply bind_Ok in Ha as (author' & Hau%ok_or_Ok & Ha). apply bind_Ok in Ha as (base & Hb%ok_or_Ok & Ha).
  apply bind_Ok in Ha as (d & Hd & Ha). apply bind_Ok in Ha as (li & Hli & Ha). apply bind_Ok in Ha as ([] & ->%guard_or_Ok & Ha).
  apply bind_Ok in Ha as ([] & Hc & [= <-]). unfold verify_context in Hc.
  apply bind_Ok in Hc as ([] & Hses%guard_or_Ok%String.eqb_eq & Hc). apply bind_Ok in Hc as (g & Hg%ok_or_Ok & Hc).
  apply bind_Ok in Hc as ([] & Hgr%guard_or_Ok%bool_decide_eq_true & Hc). apply bind_Ok in Hc as ([] & _ & Hc).
  apply bind_Ok in Hc as (b & Hby & Hsig). apply bind_Ok in H as (gone & Hgone%ok_or_Ok & H).
  apply bind_Ok in H as (base' & Hb'%ok_or_Ok & H). rewrite Hb in Hb'. injection Hb' as <-.
  apply bind_Ok in H as ([] & Hu%guard_or_Ok%String.eqb_eq & H). apply bind_Ok in H as ([] & Hv%Topology.inv_Ok & [= <-]).
  exists author', gone, d, base, b. split_and!; try done. by rewrite Hgr.
Qed.

(** The network and the identity leave the session's membership alone. *)
Definition same_dm (w w' : DmSession * option St) : Prop := membership w'.1 = membership w.1 /\ crypto w'.1 = crypto w.1.
Lemma adopt_same local e w w' r : adopt_own_removal local e w = (w', r) -> same_dm w w'.
Proof.
  unfold adopt_own_removal. destruct w as [s [st|]], local as [peer|]; cbn; try by intros [= <- _].
  destruct (Identity.open _ _ _ _ _ _ _ _ _ _) as [st1 [i|x]]; [|by intros [= <- _]].
  destruct (negb _); [by intros [= <- _]|]. destruct (inv _) as [[|]|x]; try by intros [= <- _].
  destruct (Identity.adopt_roster _ _ _ _ _ _ _ _) as [[st2 i2] r2]. by intros [= <- _].
Qed.
Lemma removal_ack_same sender e w w' r : send_removal_ack sender e w = (w', r) -> same_dm w w'.
Proof.
  unfold send_removal_ack, m_bind, m_lift, in_session, asked. destruct (removal_digest e); [|by intros [= <- _]].
  destruct (head (external w.1)) as [[x|]|]; by intros [= <- _].
Qed.
Lemma settle_same local sender e w w' r : (adopt_own_removal local e;;; send_removal_ack sender e) w = (w', r) -> same_dm w w'.
Proof.
  unfold m_bind. destruct (adopt_own_removal local e w) as [w1 [[]|x]] eqn:Ea; apply adopt_same in Ea as [Hm Hc]; [|by intros [= <- _]].
  intros [Hm' Hc']%removal_ack_same. split; congruence.
Qed.

Lemma bootstrap_spec sender r e now w w' res m : membership w.1 = Some m ->
  bootstrap_future_removal sender r e now w = (w', res) ->
  match res with
  | Ok false => w' = w
  | Ok true => exists m', membership w'.1 = Some m' /\ crypto w'.1 = crypto w.1 /\ topology m' = topology m /\ verify_hint w.1 e = Ok tt
  | Err _ => same_dm w w'
  end.
Proof.
  destruct w as [s st]. cbn [fst]. intros Hm. unfold bootstrap_future_removal, m_bind, m_lift, m_ret, read, in_session, session_ref, the_membership.
  cbn [fst snd]. destruct (guard_or _ _) as [[]|x]; [|by intros [= <- <-]]. destruct (guard_or (String.eqb _ _) _) as [[]|x]; [|by intros [= <- <-]].
  cbn [fst snd]. destruct (ok_or (mls_epoch _) _) as [n|x]; [|by intros [= <- <-]]. destruct (ok_or (checked_add64 _ _) _) as [k|x]; [|by intros [= <- <-]].
  destruct (_ <=? _)%N; [by intros [= <- <-]|]. cbn [fst snd]. destruct (authorize_roster_relay s sender r) as [[]|x]; [|by intros [= <- <-]].
  cbn [fst snd]. destruct (verify_hint s e) as [[]|x] eqn:Eh; [|by intros [= <- <-]]. cbn [fst snd]. rewrite Hm. cbn [ok_or].
  destruct (pin_roster (rm_roster e) m) as [m1 [[]|x]] eqn:Ep; [|by intros [= <- <-]].
  unfold save_membership, m_bind, asked, put_membership, m_modify. cbn [fst snd].
  destruct (head (external s)) as [[x|]|]; intros [= <- <-]; [done|..];
    (eexists; split; [reflexivity|]; split; [done|]; split; [|done]);
    unfold Topology.pin_roster in Ep; destruct (pins _ _ _ _ _ _) as [[|]|]; by injection Ep as <-.
Qed.

(** Evidence entitles to a removal: its author and its target are clients of one
    user, the author is on the user's roster as it is known here and signed the
    evidence for this session and group, and the roster it brings extends the
    known one and ends with the removal of the target, still active there, by
    the author. *)
Definition entitled (s : DmSession) (m : DeviceMembership) (e : RemovalRecord) : Prop :=
  exists author gone d base b x ds,
    client_of_device (topology m) (rm_author e) = Some author /\ claim_device author = Ok d /\
    client_of_device (topology m) (target e) = Some gone /\ claim_user gone = claim_user author /\
    roster (topology m) (claim_user author) = Some base /\ lists base d = Ok true /\
    rm_session e = s_id s /\ mls_group (crypto s) = Some (rm_group_id e) /\
    removal_bytes e = Ok b /\ verify (signing_public_key d) (rm_signature e) b = Ok tt /\
    base `prefix_of` rm_roster e /\ last (rm_roster e) = Some x /\ version x = REMOVAL_VERSION /\
    device_id (device x) = target e /\ signer x = rm_author e /\ devices_of base = Ok ds /\ device x ∈ ds.

Context {laws : DmMlsLaws}.

End Removal.

(** ** Examples: the tablet removes the laptop *)

#[local] Existing Instances Store.plain_cell toy_mls toy_mls_laws.

Definition toy_body (b : string * string * string * DeviceRoster * bytes * bytes * N) : result string bytes := Ok (String.list_byte_of_string b.1.1.1.1.2).
Definition toy_removal (e : RemovalRecord) : result string bytes := Ok (String.list_byte_of_string (rm_signature e)).
Definition tablet_evidence : RemovalRecord :=
  let e sig := {| rm_session := "dm"; rm_author := device_id tablet; target := device_id laptop; rm_roster := laptop_removed;
                  rm_commit := String.list_byte_of_string (hex_string (pad32 [x02])); rm_group_id := [x07]; rm_epoch := 5; rm_signature := sig |} in
  e (default "" (res_ok (b ← removal_bytes toy_body (e ""); Ok (hex_string (sign [x03] b))))).
Definition trio_signers : list string := met_signers ++ [hex_string (pad32 [x02]); hex_string (pad32 [x03])].
Definition four (pinned : list DeviceRoster) : @DmSession (N * list string) * option Store.Persistence :=
  (in_dm trio (4%N, trio_signers) None pinned, Some (new_store [])).
Abbreviation told := (receive_removal toy_sha hex_bytes toy_content toy_roster_bytes toy_claim toy_body toy_removal Identity.toy_delegation
  (fun _ => Ok [x01]) (fun _ => Ok (Identity.record friend)) [x05]
  friend (Some (hex_string (pad32 [x15]))) tablet laptop_removed tablet_evidence 0).


(** After the phone's forked roster was taken the same evidence is refused: the
    laptop stays a client, and its removal can never be followed. *)
Definition forked : @DmSession (N * list string) * option Store.Persistence :=
  ((accept_identity_claim toy_sha hex_bytes toy_content toy_roster_bytes toy_claim (Ok (claim_of [x01] [x11] watch_added, pad32 [x01]))
     (four [laptop_removed]).1).1, Some (new_store [])).
Example fork_blocks_removal : (told forked).2 = Err invalid /\ (told forked).1 = forked.
Proof. vm_compute. done. Qed.
End Removal.
