(* ===== verification/TextHistory.v ===== *)
(** * TextHistory: text history between the devices of a DM
      ([private_dm_runtime/devices/history]: [types.rs], [records.rs],
      [fragments.rs], and the record part of [source.rs] and [import.rs];
      [message_deletion/target.rs])

    A linked device that joins a DM late asks another device of its user for
    the text messages.  The source freezes the keys of its messages and answers
    page by page; a text too long for a packet travels in fragments.  The
    reader follows with a cursor and the text it has so far.  The file models
    records, pages, fragments and both ends up to the packet, and proves that
    what arrives is what was frozen. *)
From S2P Require Import Prelude Messages Attachments Devices Identity Calls Deletion Erasure History Recovery Topology.

Module TextHistory.
Import Messages Calls Devices Deletion Erasure Topology.

#[local] Open Scope mosh_scope.
#[local] Set Default Proof Using "Type".

Definition BATCH_RECORDS : nat := 16.
Definition FRAGMENT_BYTES : N := 65536.
Definition MAX_MESSAGE_ID_BYTES : N := 256.

#[export] Instance DeletionMarker_eq_dec : EqDecision DeletionMarker.
Proof. solve_decision. Defined.
#[export] Instance MessageOrigin_eq_dec : EqDecision MessageOrigin.
Proof. solve_decision. Defined.
#[export] Instance MessageMetadata_eq_dec : EqDecision MessageMetadata.
Proof. solve_decision. Defined.

#[export] Instance chat_deletable : DeletableMessage ChatMessage := {|
  cm_attachment := c_attachment;
  cm_call_id m := ce_call_id <$> call_event m;
  cm_is_service m := bool_decide (is_Some (call_event m));
|}.

(** ** The data ([types.rs]) *)

Record TextFragment := { f_record : TextRecord; f_body_offset : N; f_body_length : N }.
Record HistoryRequest := { hr_session : string; hr_request_id : string; hr_offset : N; hr_body_offset : N }.
Record HistoryBatch := {
  b_session : string;
  b_epoch : option N;
  b_request_id : string;
  b_offset : N;
  b_total : N;
  b_manifest : string;
  b_records : list TextRecord;
  b_fragment : option TextFragment;
}.

Definition with_body (s : string) (r : TextRecord) : TextRecord :=
  {| tr_metadata := tr_metadata r; tr_message_id := tr_message_id r; tr_sent_at_ms := tr_sent_at_ms r;
     tr_from_device := tr_from_device r; tr_body := s |}.
Definition with_page (l : list TextRecord) (f : option TextFragment) (b : HistoryBatch) : HistoryBatch :=
  {| b_session := b_session b; b_epoch := b_epoch b; b_request_id := b_request_id b; b_offset := b_offset b; b_total := b_total b;
     b_manifest := b_manifest b; b_records := l; b_fragment := f |}.
Definition with_epoch (e : option N) (b : HistoryBatch) : HistoryBatch :=
  {| b_session := b_session b; b_epoch := e; b_request_id := b_request_id b; b_offset := b_offset b; b_total := b_total b;
     b_manifest := b_manifest b; b_records := b_records b; b_fragment := b_fragment b |}.
Definition set_partial (p : option PartialText) (i : HistoryImport) : HistoryImport :=
  {| progress := progress i; source_device_id := source_device_id i; partial := p |}.
Definition set_progress (c : Recovery.HistoryCursor) (i : HistoryImport) : HistoryImport :=
  {| progress := c; source_device_id := source_device_id i; partial := partial i |}.

(** ** Slices of a [str] *)

Definition is_continuation (c : Ascii.ascii) : bool := (128 <=? byte_at c)%N && (byte_at c <? 192)%N.
Definition is_char_boundary (s : string) (i : nat) : bool :=
  (i =? 0)%nat || (i =? String.length s)%nat || match String.get i s with Some c => negb (is_continuation c) | None => false end.
(** The loop counts down to a boundary; 0 is one. *)
Fixpoint last_boundary (s : string) (i : nat) : nat :=
  if is_char_boundary s i then i else match i with O => O | S i => last_boundary s i end.
Definition boundary_before (s : string) (limit : N) : nat := last_boundary s (N.to_nat (N.min (str_len s) limit)).
Definition slice (s : string) (i j : nat) : string := String.substring i (j - i) s.

(** ** Records ([records.rs]) *)

Definition is_erased (r : TextRecord) : bool := match tr_metadata r ≫= deletion with Some _ => true | None => false end.
Definition record_origin (r : TextRecord) : option MessageOrigin := tr_metadata r ≫= origin.

Definition same_content (r o : TextRecord) : bool :=
  String.eqb (tr_message_id r) (tr_message_id o) && (tr_sent_at_ms r =? tr_sent_at_ms o)%N
  && String.eqb (tr_from_device r) (tr_from_device o) && String.eqb (tr_body r) (tr_body o)
  && (bool_decide (record_origin r = None) || bool_decide (record_origin o = None) || bool_decide (record_origin r = record_origin o)).
Definition from_message (m : ChatMessage) : option TextRecord :=
  match c_attachment m, call_event m with
  | None, None =>
      i ← c_message_id m; t ← c_sent_at_ms m;
      Some {| tr_metadata := c_metadata m; tr_message_id := i; tr_sent_at_ms := t; tr_from_device := from_device m; tr_body := c_body m |}
  | _, _ => None
  end.
Definition into_message (r : TextRecord) : ChatMessage :=
  {| c_metadata := tr_metadata r; from_device := tr_from_device r; c_body := tr_body r; c_message_id := Some (tr_message_id r);
     c_sent_at_ms := Some (tr_sent_at_ms r); c_attachment := None; call_event := None; c_delivery := no_delivery; read := None |}.

Abbreviation check := (result PrivateDmRuntimeError).

Definition validate (r : TextRecord) : check unit :=
  guard_or (negb (String.eqb (tr_message_id r) "" || (MAX_MESSAGE_ID_BYTES <? str_len (tr_message_id r))%N
                  || String.eqb (tr_from_device r) "")) invalid.

(** ** Fragments ([fragments.rs]) *)

Definition append (f : TextFragment) (p : PartialText) : check PartialText :=
  let r := pt_record p in
  let n := f_record f in
  _ ← guard_or (String.eqb (tr_message_id r) (tr_message_id n) && bool_decide (tr_metadata r = tr_metadata n)
                && (tr_sent_at_ms r =? tr_sent_at_ms n)%N && String.eqb (tr_from_device r) (tr_from_device n)
                && (body_length p =? f_body_length f)%N && (str_len (tr_body r) =? f_body_offset f)%N) invalid;
  next ← ok_or (checked_add64 (f_body_offset f) (str_len (tr_body n))) invalid;
  _ ← guard_or (next <=? f_body_length f)%N invalid;
  Ok {| pt_record := with_body (tr_body r +:+ tr_body n) r; body_length := body_length p |}.

Definition assemble (b : HistoryBatch) : method HistoryImport PrivateDmRuntimeError (list TextRecord) := fun i =>
  match b_fragment b with
  | None =>
      match partial i with
      | None => (i, Ok (b_records b))
      | Some p =>
          let erased := match head (b_records b) with
                        | Some r => is_erased r && String.eqb (tr_message_id (pt_record p)) (tr_message_id r) | None => false end in
          if erased then (set_partial None i, Ok (b_records b)) else (i, Err invalid)
      end
  | Some f =>
      match (_ ← validate (f_record f);
             guard_or (bool_decide (b_records b = []) && (b_offset b <? b_total b)%N && negb (String.eqb (tr_body (f_record f)) "")) invalid) with
      | Err e => (i, Err e)
      | Ok _ =>
          let p := default {| pt_record := with_body "" (f_record f); body_length := f_body_length f |} (partial i) in
          match append f p with
          | Err e => (set_partial None i, Err e)
          | Ok p =>
              if (str_len (tr_body (pt_record p)) =? body_length p)%N then (set_partial None i, Ok [pt_record p])
              else (set_partial (Some p) i, Ok [])
          end
      end
  end.

Definition fragment_first (offset : N) (b : HistoryBatch) : check HistoryBatch :=
  r ← ok_or (head (b_records b)) invalid;
  let body := tr_body r in
  let at_ := N.to_nat offset in
  if (str_len body <=? offset)%N || negb (is_char_boundary body at_) then Err invalid
  else
    let e := boundary_before body (saturating_add64 offset FRAGMENT_BYTES) in
    Ok (with_page [] (Some {| f_record := with_body (slice body at_ e) r; f_body_offset := offset; f_body_length := str_len body |}) b).

Definition shrink (b : HistoryBatch) : check HistoryBatch :=
  if (1 <? length (b_records b))%nat then Ok (with_page (removelast (b_records b)) (b_fragment b) b)
  else match b_fragment b with
       | None => fragment_first 0 b
       | Some f =>
           let body := tr_body (f_record f) in
           let e := boundary_before body (str_len body / 2) in
           if (e =? 0)%nat then Err invalid
           else Ok (with_page (b_records b) (Some {| f_record := with_body (slice body 0 e) (f_record f);
                                                     f_body_offset := f_body_offset f; f_body_length := f_body_length f |}) b)
       end.

(** The loop [while !fits { shrink }]: every round makes the page smaller. *)
Definition weight (b : HistoryBatch) : nat :=
  length (b_records b) + list_sum (map (fun r => String.length (tr_body r)) (b_records b))
  + match b_fragment b with None => 1 | Some f => String.length (tr_body (f_record f)) end.
Fixpoint shrink_loop (fits : HistoryBatch -> bool) (fuel : nat) (b : HistoryBatch) : check HistoryBatch :=
  if fits b then Ok b
  else match fuel with
       | O => Err invalid
       | S fuel => b ← shrink b; shrink_loop fits fuel b
       end.
Definition shrink_to_fit (fits : HistoryBatch -> bool) (b : HistoryBatch) : check HistoryBatch := shrink_loop fits (weight b) b.

(** ** The reader ([types.rs], [mod.rs]) *)

Definition new_import (request : string) (source : DeviceDescriptor) : HistoryImport :=
  {| progress := {| Recovery.request_id := "history-" +:+ request; Recovery.cursor := 0; Recovery.manifest := None;
                    Recovery.total := None; Recovery.complete := false |};
     source_device_id := device_id source; partial := None |}.

Definition accept (b : HistoryBatch) : method HistoryImport PrivateDmRuntimeError (list TextRecord) :=
  i <~ m_get;;
  m_lift (inv (Recovery.check (progress i) (b_request_id b) (b_offset b) (b_manifest b) (b_total b) (N.of_nat (length (b_records b)))));;;
  records <~ assemble b;;
  (fun i =>
    let '(c, r) := Recovery.advance (b_manifest b) (b_total b) (N.of_nat (length records))
                     (bool_decide (is_Some (partial i))) (progress i) in
    (set_progress c i, inv r));;;
  m_ret records.

(** What the reader asks next. *)
Definition request_of (session : string) (i : HistoryImport) : HistoryRequest :=
  {| hr_session := session; hr_request_id := Recovery.request_id (progress i); hr_offset := Recovery.cursor (progress i);
     hr_body_offset := match partial i with Some p => str_len (tr_body (pt_record p)) | None => 0 end |}.

(** ** The source ([source.rs]) *)

Section History.
Context {scheme : Ed25519} {json : DeletionJson} {json' : ErasureJson} {codec : History.HistoryJson ChatMessage}.
Variable sha256 : bytes -> bytes.
Variable hex_decode : string -> result string bytes.
(** [serde_json::to_vec] of a list of keys, and [get_dm_history_message]. *)
Variable keys_to_vec : list HistoryKey -> result string bytes.

Definition record_key (k : HistoryKey) : N * string := (hk_sent_at_ms k, hk_message_id k).
Definition key_order : N * string -> N * string -> Prop := lex_le N.le String.le.
#[local] Instance key_order_dec : RelDecision key_order.
Proof. unfold key_order. apply _. Defined.

Definition keys (log : list ChatMessage) : check (list HistoryKey) :=
  ks ← try_fold (fun ks m =>
      match from_message m with
      | None => Ok ks
      | Some r => _ ← validate r; Ok (ks ++ [{| hk_message_id := tr_message_id r; hk_sent_at_ms := tr_sent_at_ms r |}])
      end) [] log;
  Ok (sort_by_key key_order record_key ks).

Definition freeze (log : list ChatMessage) (sender : DeviceDescriptor) (q : HistoryRequest) : check HistoryExport :=
  ks ← keys log;
  b ← inv (keys_to_vec ks);
  Ok {| he_request_id := hr_request_id q; recipient_device_id := device_id sender; he_keys := ks; he_digest := hex_string (sha256 b) |}.

(** [stored]: the row of a session's message. *)
Definition stored_record (stored : string -> N -> string -> check (option bytes)) (session : string) (k : HistoryKey) : check TextRecord :=
  row ← stored session (hk_sent_at_ms k) (hk_message_id k);
  b ← ok_or row invalid;
  s ← inv (History.stored_from_slice b);
  _ ← guard_or (String.eqb (History.h_conversation_id s) session && String.eqb (History.h_message_id s) (hk_message_id k)
                && (History.h_sent_at_ms s =? hk_sent_at_ms k)%N) invalid;
  let m := cm_set_sent_at_ms (History.h_sent_at_ms s) (cm_set_message_id (History.h_message_id s) (History.h_message s)) in
  r ← ok_or (from_message m) invalid;
  _ ← validate r;
  Ok r.
Definition batch (stored : string -> N -> string -> check (option bytes)) (q : HistoryRequest) (x : HistoryExport) : check HistoryBatch :=
  if (N.of_nat (length (he_keys x)) <? hr_offset q)%N then Err invalid
  else
    records ← try_fold (fun l k => r ← stored_record stored (hr_session q) k; Ok (l ++ [r])) []
                (take BATCH_RECORDS (drop (N.to_nat (hr_offset q)) (he_keys x)));
    let b := {| b_session := hr_session q; b_epoch := None; b_request_id := he_request_id x; b_offset := hr_offset q;
                b_total := N.of_nat (length (he_keys x)); b_manifest := he_digest x; b_records := records; b_fragment := None |} in
    if (0 <? hr_body_offset q)%N && match head records with None => true | Some r => negb (is_erased r) end
    then fragment_first (hr_body_offset q) b else Ok b.

(** [receive_history_request], between the export and the packet. *)
Definition answer (stored : string -> N -> string -> check (option bytes)) (fits : HistoryBatch -> bool) (epoch : option N)
    (q : HistoryRequest) (x : HistoryExport) : check HistoryBatch :=
  b ← batch stored q x; shrink_to_fit fits (with_epoch epoch b).

(** ** What the reader files ([import.rs], [records.rs], [target.rs]) *)

Definition dm_context (session : string) : string := "dm:" +:+ session.

Definition validate_content (ctx : string) (r : TextRecord) : check unit :=
  match record_origin r with
  | None => Ok tt
  | Some o =>
      if is_erased r
      then _ ← guard_or (String.eqb (conversation o) ctx && String.eqb (id o) (tr_message_id r) && String.eqb (tr_body r) "") invalid;
           inv (origin_verify_signature sha256 hex_decode o)
      else inv (origin_verify sha256 hex_decode o ctx (tr_message_id r) (String.list_byte_of_string (tr_body r)))
  end.

Definition with_key (key : string) (md : MessageMetadata) : MessageMetadata :=
  {| origin := origin md; deletion := deletion md; deletion_key := Some key; personal_correlation := personal_correlation md;
     can_delete_for_everyone := can_delete_for_everyone md; local_only := false; is_own := is_own md |}.
Definition with_origin (o : MessageOrigin) (md : MessageMetadata) : MessageMetadata :=
  {| origin := Some o; deletion := deletion md; deletion_key := deletion_key md; personal_correlation := personal_correlation md;
     can_delete_for_everyone := can_delete_for_everyone md; local_only := local_only md; is_own := is_own md |}.
Definition with_own (b : option bool) (md : MessageMetadata) : MessageMetadata :=
  {| origin := origin md; deletion := deletion md; deletion_key := deletion_key md; personal_correlation := personal_correlation md;
     can_delete_for_everyone := can_delete_for_everyone md; local_only := local_only md; is_own := b |}.

Definition correlate_history_text {M} `{ConversationMessage M} `{DeletableMessage M} (ctx : string) (m : M) : result string M :=
  match cm_metadata m ≫= origin with
  | Some o =>
      key ← origin_key sha256 o;
      Ok (cm_set_metadata (with_key key <$> cm_metadata m) m)
  | None =>
      if bool_decide (is_Some (cm_metadata m ≫= deletion)) then Ok m
      else key ← legacy_text_key sha256 ctx m;
           Ok (cm_set_metadata (Some (with_key key (default no_metadata (cm_metadata m)))) m)
  end.

(** Ownership is what the topology says of the original signer, never what the
    source says. *)
Definition received_history_ownership (t : option DmTopology) (m : ChatMessage) : ChatMessage :=
  match c_metadata m with
  | None => m
  | Some md =>
      let mine := o ← origin md; t ← t; _ ← client t (author o); Some (own t (author o)) in
      cm_set_metadata (Some (with_own mine md)) m
  end.

Definition known_message (log : list ChatMessage) (i : string) : option ChatMessage := find (has_id i) log.
Definition agrees_with (r : TextRecord) (m : ChatMessage) : bool :=
  is_tombstone m || match from_message m with Some old => same_content old r | None => false end.
(** The message as it is known here, or as it came, with the origin it lacked. *)
Definition completed (known : option ChatMessage) (r : TextRecord) : ChatMessage :=
  let m := default (into_message r) known in
  match c_metadata m ≫= origin, record_origin r with
  | None, Some o => cm_set_metadata (Some (with_origin o (default no_metadata (c_metadata m)))) m
  | _, _ => m
  end.
Definition history_row (session : string) (t : option DmTopology) (log : list ChatMessage) (r : TextRecord)
  : check (History.StoredMessage ChatMessage) :=
  let known := known_message log (tr_message_id r) in
  _ ← guard_or (match known with Some m => agrees_with r m | None => true end) invalid;
  m ← inv (correlate_history_text (dm_context session) (received_history_ownership t (completed known r)));
  Ok {| History.h_conversation_id := session; History.h_sent_at_ms := tr_sent_at_ms r; History.h_message_id := tr_message_id r;
        History.h_message := m; History.attachment_manifest := None; History.preview_manifest := None; History.history_evidence := None |}.
Definition history_rows (session : string) (t : option DmTopology) (log : list ChatMessage) (records : list TextRecord)
  : check (list (History.StoredMessage ChatMessage)) :=
  '(_, rows) ← try_fold (fun '(ids, rows) r =>
      _ ← validate r;
      _ ← validate_content (dm_context session) r;
      _ ← guard_or (negb (bool_decide (tr_message_id r ∈ ids))) invalid;
      row ← history_row session t log r;
      Ok ({[ tr_message_id r ]} ∪ ids, rows ++ [row])) (∅ : gset string, []) records;
  Ok rows.

(** The rows the store took go into the log. *)
Definition file_row (now : N) (random_hex : string) (row : History.StoredMessage ChatMessage) (l : @MessageLog ChatMessage) : @MessageLog ChatMessage :=
  match list_find (fun m => has_id (History.h_message_id row) m = true) (messages l) with
  | Some (index, _) => default l (replace index (History.h_message row) l)
  | None => push_stamped now random_hex (History.h_message row) l
  end.
End History.

(** ** Slices *)

Lemma substring_length s i n : i + n <= String.length s -> String.length (String.substring i n s) = n.
Proof.
  revert i n. induction s as [|c s IH]; intros [|i] [|n] H; cbn in *; try lia; [by rewrite IH by lia|by apply IH; lia..].
Qed.
Lemma substring_full s : String.substring 0 (String.length s) s = s.
Proof. induction s as [|c s IH]; [done|]. cbn. by rewrite IH. Qed.
Lemma substring_join s i n : i + n <= String.length s -> String.substring 0 i s +:+ String.substring i n s = String.substring 0 (i + n) s.
Proof.
  revert i. induction s as [|c s IH]; intros [|i] H; cbn in *; [by destruct n|lia|done|].
  rewrite append_cons, IH by lia. done.
Qed.
Lemma substring_prefix s i n k : i + n <= String.length s -> k <= n -> String.substring 0 k (String.substring i n s) = String.substring i k s.
Proof.
  revert i n k. induction s as [|c s IH]; intros [|i] [|n] [|k] H Hk; cbn in *; try lia; try done; [by rewrite (IH 0) by lia|by apply IH; lia..].
Qed.

Lemma slice_length s i j : i <= j <= String.length s -> String.length (slice s i j) = j - i.
Proof. intros H. apply substring_length. lia. Qed.
Lemma slice_full s : slice s 0 (String.length s) = s.
Proof. unfold slice. rewrite Nat.sub_0_r. apply substring_full. Qed.
Lemma slice_join s i j : i <= j <= String.length s -> slice s 0 i +:+ slice s i j = slice s 0 j.
Proof. intros H. unfold slice. rewrite !Nat.sub_0_r, substring_join by lia. f_equal. lia. Qed.
Lemma slice_prefix s i j e : i <= j <= String.length s -> e <= j - i -> slice (slice s i j) 0 e = slice s i (i + e).
Proof. intros H He. unfold slice. rewrite Nat.sub_0_r, substring_prefix by lia. f_equal. lia. Qed.
Lemma slice_get s i j p : i <= j <= String.length s -> p < j - i -> String.get p (slice s i j) = String.get (i + p) s.
Proof. intros H Hp. unfold slice. rewrite String.substring_correct1 by lia. f_equal. lia. Qed.

Lemma boundary_0 s : is_char_boundary s 0 = true.
Proof. done. Qed.
Lemma boundary_end s : is_char_boundary s (String.length s) = true.
Proof. unfold is_char_boundary. by rewrite Nat.eqb_refl, orb_true_r. Qed.
Lemma slice_boundary s i j p : i <= j <= String.length s -> is_char_boundary s i = true -> is_char_boundary s j = true -> p <= j - i ->
  is_char_boundary (slice s i j) p = is_char_boundary s (i + p).
Proof.
  intros H Hi Hj Hp. destruct (Nat.eq_dec p 0) as [->|Hp0]; [by rewrite Nat.add_0_r, Hi|].
  destruct (Nat.eq_dec p (j - i)) as [->|Hpe].
  { rewrite <-(slice_length s i j) at 1 by done. rewrite boundary_end. replace (i + (j - i)) with j by lia. done. }
  unfold is_char_boundary. rewrite slice_length, slice_get by lia.
  rewrite !(proj2 (Nat.eqb_neq _ _)) by lia. done.
Qed.

Lemma last_boundary_spec s i : is_char_boundary s (last_boundary s i) = true /\ last_boundary s i <= i /\
  forall j, j <= i -> is_char_boundary s j = true -> j <= last_boundary s i.
Proof.
  induction i as [|i IH].
  - cbn. split; [done|]. split; [done|]. done.
  - cbn [last_boundary]. destruct (is_char_boundary s (S i)) eqn:E; [by split|]. destruct IH as (H1 & H2 & H3).
    split; [done|]. split; [lia|]. intros j Hj Hb. destruct (Nat.eq_dec j (S i)) as [->|]; [congruence|]. apply H3; [lia|done].
Qed.

(** Rust keeps every [String] valid UTF-8. *)
Definition utf8 (s : string) : Prop := exists cs, Forall is_char cs /\ s = of_chars cs.

Lemma char_app_split c rest : is_char c -> exists a p, char_app c rest = String a p +:+ rest /\ String.length p <= 3 /\
  is_continuation a = false /\ forall q b, String.get q p = Some b -> is_continuation b = true.
Proof.
  unfold is_char, char_app. intros Hc.
  assert (Hk : forall n, (128 <= n < 192)%N -> is_continuation (Ascii.ascii_of_N n) = true).
  { intros n Hn. unfold is_continuation. rewrite byte_at_of_N by lia. apply andb_true_iff. split; [apply N.leb_le|apply N.ltb_lt]; lia. }
  assert (Hn : forall n, (n < 256)%N -> (n < 128 \/ 192 <= n)%N -> is_continuation (Ascii.ascii_of_N n) = false).
  { intros n Hb Hn. unfold is_continuation. rewrite byte_at_of_N by done. apply andb_false_iff. destruct Hn; [left; apply N.leb_gt|right; apply N.ltb_ge]; lia. }
  assert (Hm : forall n, (128 <= 128 + n mod 64 < 192)%N) by (intros n; divlia).
  destruct (N.ltb_spec c 128); [|destruct (N.ltb_spec c 2048); [|destruct (N.ltb_spec c 65536)]].
  - exists (Ascii.ascii_of_N c), "". split; [done|]. split; [cbn; lia|]. split; [apply Hn; lia|]. intros [|q] b; done.
  - eexists _, (String _ ""). split; [done|]. split; [cbn; lia|]. split; [apply Hn; divlia|].
    intros [|q] b; cbn; [|by destruct q]. intros [= <-]. by apply Hk.
  - eexists _, (String _ (String _ "")). split; [done|]. split; [cbn; lia|]. split; [apply Hn; divlia|].
    intros [|[|q]] b; cbn; [..|by destruct q]; intros [= <-]; by apply Hk.
  - eexists _, (String _ (String _ (String _ ""))). split; [done|]. split; [cbn; lia|]. split; [apply Hn; divlia|].
    intros [|[|[|q]]] b; cbn; [..|by destruct q]; intros [= <-]; by apply Hk.
Qed.

Lemma get_app_r p s q : String.get (String.length p + q) (p +:+ s) = String.get q s.
Proof. rewrite Nat.add_comm. symmetry. apply String.append_correct2. Qed.
Lemma get_lt s q : q < String.length s -> exists a, String.get q s = Some a.
Proof. revert q. induction s as [|c s IH]; intros [|q] H; cbn in *; try lia; [by exists c|]. apply IH. lia. Qed.

Lemma boundary_app p s q : q <= String.length s -> is_char_boundary s q = true -> 0 < q -> is_char_boundary (p +:+ s) (String.length p + q) = true.
Proof.
  intros Hq Hb H0. unfold is_char_boundary in *. rewrite append_length, get_app_r.
  rewrite (proj2 (Nat.eqb_neq q 0)) in Hb by lia. cbn in Hb.
  destruct (Nat.eqb_spec q (String.length s)) as [->|Hne]; [by rewrite Nat.eqb_refl, orb_true_r|]. cbn in Hb. by rewrite Hb, orb_true_r.
Qed.

(** A boundary is followed by another one at most four bytes on. *)
Lemma utf8_next s i : utf8 s -> i < String.length s -> is_char_boundary s i = true ->
  exists j, i < j <= i + 4 /\ j <= String.length s /\ is_char_boundary s j = true.
Proof.
  intros (cs & Hcs & ->). revert i. induction Hcs as [|c cs Hc Hcs IH]; intros i Hi Hb; [cbn in Hi; lia|].
  change (of_chars (c :: cs)) with (char_app c (of_chars cs)) in *.
  destruct (char_app_split c (of_chars cs) Hc) as (a & p & Heq & Hp & Ha & Hcont). rewrite Heq in *.
  set (w := String a p) in *. assert (Hw : String.length w = S (String.length p)) by done.
  rewrite append_length in Hi.
  assert (Hfirst : is_char_boundary (w +:+ of_chars cs) (String.length w) = true).
  { unfold is_char_boundary. rewrite append_length. destruct cs as [|c' cs'].
    - cbn [of_chars foldr String.length]. by rewrite Nat.add_0_r, Nat.eqb_refl, orb_true_r.
    - pose proof (get_app_r w (of_chars (c' :: cs')) 0) as Hg. rewrite Nat.add_0_r in Hg. rewrite Hg.
      apply Forall_cons_1 in Hcs as [Hc' _]. change (of_chars (c' :: cs')) with (char_app c' (of_chars cs')).
      destruct (char_app_split c' (of_chars cs') Hc') as (a' & p' & -> & _ & Ha' & _). rewrite append_cons; cbn [String.get].
      by rewrite Ha', orb_true_r. }
  destruct (decide (i < String.length w)) as [Hlt|Hge].
  - destruct i as [|i].
    + exists (String.length w). rewrite append_length. split; [lia|]. split; [lia|done].
    + exfalso. unfold is_char_boundary in Hb. rewrite append_length in Hb.
      rewrite (proj2 (Nat.eqb_neq (S i) 0)), (proj2 (Nat.eqb_neq (S i) _)) in Hb by lia. cbn [orb] in Hb.
      rewrite <-String.append_correct1 in Hb by done. cbn [String.get w] in Hb.
      destruct (get_lt p i) as [b Hg]; [lia|]. rewrite Hg, (Hcont _ _ Hg) in Hb. done.
  - assert (exists q, i = String.length w + q) as [q ->] by (exists (i - String.length w); lia).
    destruct (decide (q = 0)) as [->|Hq].
    + destruct (IH 0) as (j & Hj & Hjl & Hjb); [lia|done|]. exists (String.length w + j). rewrite append_length.
      split; [lia|]. split; [lia|]. apply boundary_app; [done..|lia].
    + destruct (IH q) as (j & Hj & Hjl & Hjb); [lia| |].
      { unfold is_char_boundary in Hb |- *. rewrite append_length, get_app_r in Hb.
        rewrite (proj2 (Nat.eqb_neq (String.length w + q) 0)), (proj2 (Nat.eqb_neq (String.length w + q) _)) in Hb by lia.
        cbn [orb] in Hb. by rewrite Hb, orb_true_r. }
      exists (String.length w + j). rewrite append_length. split; [lia|]. split; [lia|]. apply boundary_app; [done..|lia].
Qed.

(** ** A page shrinks until it fits *)

Lemma substring_le s i n : String.length (String.substring i n s) <= n.
Proof. revert i n. induction s as [|c s IH]; intros [|i] [|n]; cbn; try lia; [specialize (IH 0 n)|specialize (IH i 0)|specialize (IH i (S n))]; lia. Qed.
Lemma substring_short s i n : String.length (String.substring i n s) <= String.length s.
Proof. revert i n. induction s as [|c s IH]; intros [|i] [|n]; cbn; try lia; [specialize (IH 0 n)|specialize (IH i 0)|specialize (IH i (S n))]; lia. Qed.

Lemma boundary_before_spec s limit : let e := boundary_before s limit in
  is_char_boundary s e = true /\ e <= String.length s /\ (N.of_nat e <= limit)%N /\
  forall j, j <= String.length s -> (N.of_nat j <= limit)%N -> is_char_boundary s j = true -> j <= e.
Proof.
  unfold boundary_before, str_len. destruct (last_boundary_spec s (N.to_nat (N.min (N.of_nat (String.length s)) limit))) as (H1 & H2 & H3).
  cbn zeta. split; [done|]. split; [lia|]. split; [lia|]. intros j Hj Hl Hb. apply H3; [lia|done].
Qed.

Lemma fragment_first_Ok offset b b' : fragment_first offset b = Ok b' -> exists r e,
  head (b_records b) = Some r /\
  b' = with_page [] (Some {| f_record := with_body (slice (tr_body r) (N.to_nat offset) e) r; f_body_offset := offset;
                             f_body_length := str_len (tr_body r) |}) b.
Proof.
  unfold fragment_first. intros (r & Hr%ok_or_Ok & H)%bind_Ok. destruct (_ || _); [done|]. injection H as <-. by eexists r, _.
Qed.

Lemma shrink_weight b b' : shrink b = Ok b' -> weight b' < weight b.
Proof.
  unfold shrink, weight. destruct (Nat.ltb_spec 1 (length (b_records b))) as [Hl|Hl].
  - intros [= <-]. cbn [b_records b_fragment with_page].
    destruct (exists_last (l := b_records b)) as (l & r & Hlr); [intros Hn; rewrite Hn in Hl; cbn in Hl; lia|].
    rewrite Hlr, removelast_last, map_app, list_sum_app, length_app. cbn. lia.
  - destruct (b_fragment b) as [f|] eqn:Ef.
    + destruct (boundary_before_spec (tr_body (f_record f)) (str_len (tr_body (f_record f)) / 2)) as (_ & _ & He & _).
      destruct (Nat.eqb_spec (boundary_before (tr_body (f_record f)) (str_len (tr_body (f_record f)) / 2)) 0) as [|Hne]; [done|].
      intros [= <-]. cbn [b_records b_fragment with_page f_record tr_body with_body].
      unfold slice. rewrite Nat.sub_0_r. pose proof (substring_le (tr_body (f_record f)) 0 (boundary_before (tr_body (f_record f)) (str_len (tr_body (f_record f)) / 2))).
      unfold str_len in *. pose proof (N.Div0.mul_div_le (N.of_nat (String.length (tr_body (f_record f)))) 2). lia.
    + intros (r & e & Hr & ->)%fragment_first_Ok. cbn [b_records b_fragment with_page f_record tr_body with_body].
      unfold slice. change (N.to_nat 0) with 0. pose proof (substring_short (tr_body r) 0 (e - 0)).
      destruct (b_records b) as [|r' l]; [done|]. injection Hr as ->. cbn [length map list_sum foldr]. lia.
Qed.

Lemma shrink_fails b : fails_with invalid (shrink b).
Proof.
  unfold shrink, fragment_first. intros e. destruct (_ <? _)%nat; [done|]. destruct (b_fragment b).
  - destruct (_ =? _)%nat; congruence.
  - destruct (head _); cbn; [|congruence]. destruct (_ || _); congruence.
Qed.

(** The fuel is enough: the loop ends by itself. *)
Lemma shrink_loop_fuel fits n m b : weight b <= n -> weight b <= m -> shrink_loop fits n b = shrink_loop fits m b.
Proof.
  revert m b. assert (H0 : forall m b, weight b = 0 -> shrink_loop fits m b = if fits b then Ok b else Err invalid).
  { intros [|m] b Hb; cbn [shrink_loop]; [done|]. destruct (fits b); [done|]. destruct (shrink b) as [b'|e] eqn:Es; cbn.
    - apply shrink_weight in Es. lia.
    - by rewrite (shrink_fails _ _ Es). }
  induction n as [|n IH]; intros m b Hn Hm; [rewrite !H0 by lia; done|].
  destruct m as [|m]; [rewrite !H0 by lia; done|]. cbn [shrink_loop]. destruct (fits b); [done|].
  destruct (shrink b) as [b'|e] eqn:Es; cbn; [|done]. apply shrink_weight in Es. apply IH; lia.
Qed.
Lemma shrink_to_fit_while fits b :
  shrink_to_fit fits b = if fits b then Ok b else (b' ← shrink b; shrink_to_fit fits b').
Proof.
  unfold shrink_to_fit. rewrite (shrink_loop_fuel _ _ (S (weight b))) by lia. cbn [shrink_loop]. destruct (fits b); [done|].
  destruct (shrink b) as [b'|e] eqn:Es; cbn; [|done]. apply shrink_weight in Es. apply shrink_loop_fuel; lia.
Qed.

(** ** What arrives is what was frozen *)

Section Transfer.
Context {codec : History.HistoryJson ChatMessage}.
Variable stored : string -> N -> string -> check (option bytes).
Variable session : string.
Variable x : HistoryExport.
Variable fits : HistoryBatch -> bool.
Variable epoch : option N.
(** The texts behind the frozen keys. *)
Variable rs : list TextRecord.

Record page (k : nat) (b : HistoryBatch) : Prop := {
  pg_request : b_request_id b = he_request_id x;
  pg_offset : b_offset b = N.of_nat k;
  pg_total : b_total b = N.of_nat (length rs);
  pg_manifest : b_manifest b = he_digest x;
}.
(** A page that starts [j] bytes into record [k]: whole records, or a piece. *)
Inductive cut (k j : nat) (b : HistoryBatch) : Prop :=
| Whole l rest (P : page k b) (J : j = 0) (F : b_fragment b = None) (R : b_records b = l) (D : drop k rs = l ++ rest)
    (B : length l <= BATCH_RECORDS) (E : l = [] -> rest = [])
| Piece r e (P : page k b) (R : b_records b = []) (L : rs !! k = Some r) (J : is_char_boundary (tr_body r) j = true)
    (B : j < e <= String.length (tr_body r)) (E : is_char_boundary (tr_body r) e = true)
    (F : b_fragment b = Some {| f_record := with_body (slice (tr_body r) j e) r; f_body_offset := N.of_nat j;
                                f_body_length := str_len (tr_body r) |}).
(** The least a page has to carry: a record without text, or seven bytes. *)
Definition small (b : HistoryBatch) : Prop :=
  length (b_records b) <= 1 /\ (forall r, r ∈ b_records b -> tr_body r = "") /\
  (forall f, b_fragment b = Some f -> String.length (tr_body (f_record f)) <= 7).

Record sendable (r : TextRecord) : Prop := {
  sd_valid : validate r = Ok tt;
  sd_text : utf8 (tr_body r);
  sd_length : is_u64 (str_len (tr_body r));
  sd_erased : is_erased r = true -> tr_body r = "";
}.
Hypothesis rows : Forall2 (fun k r => stored_record stored session k = Ok r) (he_keys x) rs.
Hypothesis texts : Forall sendable rs.
Hypothesis digest : Recovery.canonical_hex (he_digest x) 64 = true.
Hypothesis count : is_u64 (N.of_nat (length rs)).
Hypothesis carried : forall k j b, cut k j b -> small b -> fits b = true.

Lemma sendable_at k r : rs !! k = Some r -> sendable r.
Proof using texts. intros Hr. rewrite Forall_lookup in texts. by eapply texts. Qed.

Lemma fragment_piece k j r b : rs !! k = Some r -> head (b_records b) = Some r -> page k b -> j < String.length (tr_body r) ->
  is_char_boundary (tr_body r) j = true -> exists b', fragment_first (N.of_nat j) b = Ok b' /\ cut k j b'.
Proof using All.
  intros Hr Hh Hp Hj Hb. destruct (sendable_at _ _ Hr) as [_ Ht Hl _]. unfold fragment_first. rewrite Hh. cbn [ok_or mbind result_bind].
  rewrite Nat2N.id, Hb. unfold str_len, is_u64 in *. rewrite (proj2 (N.leb_gt _ _)) by lia. cbn [orb negb].
  eexists. split; [done|]. set (e := boundary_before _ _).
  destruct (boundary_before_spec (tr_body r) (saturating_add64 (N.of_nat j) FRAGMENT_BYTES)) as (He1 & He2 & _ & He3). fold e in He1, He2, He3.
  destruct (utf8_next _ _ Ht Hj Hb) as (j' & Hj' & Hjl & Hjb).
  assert (j' <= e) by (apply He3; [done|unfold saturating_add64, FRAGMENT_BYTES; lia|done]).
  eapply (Piece _ _ _ r e); [by destruct Hp; split|done|done|done|lia|done|done].
Qed.

Lemma shrink_cut k j b : cut k j b -> fits b = false -> exists b', shrink b = Ok b' /\ cut k j b'.
Proof using All.
  intros Hc Hf. assert (Hs : small b -> False) by (intros Hs; rewrite (carried _ _ _ Hc Hs) in Hf; done).
  destruct Hc as [l rest P -> F R D B E|r e P R L J B E F]; unfold shrink; rewrite R, F.
  - destruct l as [|r [|r2 l]].
    + exfalso. apply Hs. unfold small. rewrite R, F. split; [cbn; lia|]. split; [by intros r ?%elem_of_nil|done].
    + cbn [length Nat.ltb Nat.leb]. assert (Hr : rs !! k = Some r) by (rewrite <-(Nat.add_0_r k), <-lookup_drop, D; done).
      apply (fragment_piece k 0 r); [done|by rewrite R|done| |done].
      destruct (tr_body r) eqn:Eb; [|cbn; lia]. exfalso. apply Hs. unfold small. rewrite R, F. split; [done|].
      split; [by intros r' ->%list_elem_of_singleton|done].
    + cbn [length Nat.ltb Nat.leb]. eexists. split; [done|].
      destruct (exists_last (l := r :: r2 :: l)) as (l' & z & Hl); [done|]. rewrite Hl in *. rewrite removelast_last.
      eapply (Whole _ _ _ l' (z :: rest)); [by destruct P; split|done|done|done|by rewrite D, <-app_assoc|rewrite length_app in B; cbn in B; lia|].
      intros ->. cbn in Hl. done.
  - cbn [length Nat.ltb Nat.leb f_record with_body tr_body f_body_offset f_body_length].
    destruct (sendable_at _ _ L) as [_ Ht _ _]. set (s := slice (tr_body r) j e) in *.
    assert (Hlen : String.length s = e - j) by (apply slice_length; lia).
    assert (7 < e - j).
    { destruct (decide (e - j <= 7)); [|lia]. exfalso. apply Hs. unfold small. rewrite R, F. split; [cbn; lia|]. split; [by intros ? ?%elem_of_nil|].
      intros f [= <-]. cbn [f_record with_body tr_body]. lia. }
    destruct (boundary_before_spec s (str_len s / 2)) as (He1 & He2 & _ & He3). set (e2 := boundary_before s (str_len s / 2)) in *.
    destruct (utf8_next _ j Ht) as (j' & Hj' & Hjl & Hjb); [lia|done|].
    assert (j' - j <= e2).
    { apply He3; [lia|unfold str_len; rewrite Hlen; divlia|]. unfold s. rewrite slice_boundary by (done || lia).
      by replace (j + (j' - j)) with j' by lia. }
    rewrite (proj2 (Nat.eqb_neq e2 0)) by lia. eexists. split; [done|].
    unfold s in He1. rewrite slice_boundary in He1 by (done || lia).
    eapply (Piece _ _ _ r (j + e2)); [by destruct P; split|done|done|done|lia|done|].
    cbn [b_fragment with_page]. unfold s. rewrite slice_prefix by lia. done.
Qed.

Lemma shrink_to_fit_cut k j b : cut k j b -> exists b', shrink_to_fit fits b = Ok b' /\ cut k j b'.
Proof using All.
  remember (weight b) as w eqn:Hw. revert b Hw. induction w as [w IH] using lt_wf_ind. intros b -> Hc.
  rewrite shrink_to_fit_while. destruct (fits b) eqn:Ef; [by exists b|].
  destruct (shrink_cut _ _ _ Hc Ef) as (b1 & Hs & Hc1). rewrite Hs. cbn.
  pose proof (shrink_weight _ _ Hs). by apply (IH (weight b1)).
Qed.

(** *** The reader *)

Definition partial_at (k j : nat) (p : option PartialText) : Prop :=
  match j with
  | O => p = None
  | S _ => exists r, rs !! k = Some r /\ j < String.length (tr_body r) /\ is_char_boundary (tr_body r) j = true /\
      p = Some {| pt_record := with_body (slice (tr_body r) 0 j) r; body_length := str_len (tr_body r) |}
  end.
(** The reader has the first [k] records, and [j] bytes of the next one's text. *)
Record reading (k j : nat) (i : HistoryImport) : Prop := {
  rd_request : Recovery.request_id (progress i) = he_request_id x;
  rd_cursor : Recovery.cursor (progress i) = N.of_nat k;
  rd_total : Recovery.differs (Recovery.total (progress i)) (N.of_nat (length rs)) = false;
  rd_manifest : Recovery.differs (Recovery.manifest (progress i)) (he_digest x) = false;
  rd_open : Recovery.complete (progress i) = false;
  rd_more : k < length rs \/ k = 0 /\ rs = [];
  rd_partial : partial_at k j (partial i);
}.

Lemma read_records ks l acc : Forall2 (fun k r => stored_record stored session k = Ok r) ks l ->
  try_fold (fun l k => r ← stored_record stored session k; Ok (l ++ [r])) acc ks = Ok (acc ++ l).
Proof.
  intros H. revert acc. induction H as [|k r ks l Hk _ IH]; intros acc; cbn; [by rewrite app_nil_r|].
  rewrite Hk. cbn. rewrite IH, <-app_assoc. done.
Qed.
Lemma cut_epoch k j b e : cut k j b -> cut k j (with_epoch e b).
Proof.
  intros [l rest P ? ? ? ? ? ?|r e' P ? ? ? ? ? ?]; [eapply Whole|eapply Piece]; try done; by destruct P; split.
Qed.

Lemma batch_cut k j i : reading k j i -> exists b, batch stored (request_of session i) x = Ok b /\ cut k j b.
Proof using All.
  intros [Hq Hk _ _ _ Hmore Hp]. pose proof (Forall2_length _ _ _ rows) as Hlen. unfold batch, request_of. cbn [hr_offset hr_session hr_body_offset].
  rewrite Hk, Nat2N.id, Hlen. rewrite (proj2 (N.ltb_ge _ _)) by (destruct Hmore as [|[-> ->]]; lia).
  set (l := take BATCH_RECORDS (drop k rs)).
  rewrite (read_records _ l) by (apply Forall2_take, Forall2_drop, rows). cbn [mbind result_bind app].
  set (b := {| b_session := _ |}). assert (Hpage : page k b) by by split.
  assert (Hhead : forall r, rs !! k = Some r -> head l = Some r).
  { intros r Hr. unfold l. rewrite (drop_S _ _ _ Hr). done. }
  destruct j as [|j]; cbn [partial_at] in Hp.
  - rewrite Hp. cbn [N.ltb andb]. exists b. split; [done|].
    eapply (Whole _ _ _ l (drop BATCH_RECORDS (drop k rs))); try done.
    + unfold l. by rewrite take_drop.
    + unfold l. rewrite length_take. lia.
    + unfold l, BATCH_RECORDS. destruct (drop k rs); done.
  - destruct Hp as (r & Hr & Hj & Hb & ->). cbn [pt_record with_body tr_body].
    assert (Hs : str_len (slice (tr_body r) 0 (S j)) = N.of_nat (S j)) by (unfold str_len; rewrite slice_length by lia; f_equal; lia).
    rewrite Hs, (Hhead _ Hr). destruct (sendable_at _ _ Hr) as [_ _ _ He].
    destruct (is_erased r); [rewrite He in Hj by done; cbn in Hj; lia|]. rewrite (proj2 (N.ltb_lt _ _)) by lia. cbn [andb negb].
    by apply (fragment_piece k (S j) r); [|apply Hhead| | |].
Qed.

Lemma answer_cut k j i : reading k j i -> exists b, answer stored fits epoch (request_of session i) x = Ok b /\ cut k j b.
Proof using All.
  intros (b & Hb & Hc)%batch_cut. unfold answer. rewrite Hb. cbn [mbind result_bind]. apply shrink_to_fit_cut. by apply cut_epoch.
Qed.

Lemma check_page k j i b n : reading k j i -> page k b -> n <= BATCH_RECORDS ->
  Recovery.check (progress i) (b_request_id b) (b_offset b) (b_manifest b) (b_total b) (N.of_nat n) = Ok tt.
Proof using All.
  intros [Hq Hk Ht Hm Ho _ _] [-> -> -> ->] Hn. unfold Recovery.check. rewrite Ho, Hq, String.eqb_refl, Hk, N.eqb_refl, digest, Ht, Hm.
  unfold Recovery.PAGE_RECORDS, BATCH_RECORDS in *. rewrite (proj2 (N.ltb_ge _ _)) by lia. done.
Qed.

(** The cursor after [out]. *)
Definition moved (k j : nat) (i' : HistoryImport) (out : list TextRecord) : Prop :=
  (exists rest, drop k rs = out ++ rest) /\
  (Recovery.complete (progress i') = true /\ k + length out = length rs \/
   exists j', reading (k + length out) j' i' /\ (out = [] -> j < j')).
Lemma advance_page k j i b out j' p : reading k j i -> page k b -> (exists rest, drop k rs = out ++ rest) ->
  (k + length out < length rs -> partial_at (k + length out) j' p) -> (out = [] -> k < length rs -> p <> None /\ j < j') ->
  exists i', (let '(c, r) := Recovery.advance (b_manifest b) (b_total b) (N.of_nat (length out)) (bool_decide (is_Some p)) (progress i) in
     (set_progress c (set_partial p i), inv r)) = (i', Ok tt) /\ moved k j i' out.
Proof using All.
  intros [Hq Hk Ht Hm Ho Hmore _] [_ _ Hpt Hpm] [rest Hd] Hp Hempty. rewrite Hpt, Hpm. unfold Recovery.advance. rewrite Hk.
  assert (Hle : k + length out <= length rs).
  { pose proof (f_equal length Hd) as Hl. rewrite length_drop, length_app in Hl. destruct Hmore as [|[-> ->]]; [lia|]. cbn in Hl. lia. }
  unfold checked_add64, is_u64 in *. rewrite (proj2 (N.leb_le _ _)) by lia. rewrite (proj2 (N.ltb_ge _ _)) by lia. cbn [orb].
  destruct (_ && _) eqn:Hstuck.
  { exfalso. apply andb_true_iff in Hstuck as [Hs Hlt%N.ltb_lt]. apply andb_true_iff in Hs as [H0%N.eqb_eq Hnp].
    destruct out; [|done]. destruct (Hempty eq_refl) as [Hne _]; [cbn in Hlt; lia|]. rewrite bool_decide_eq_true_2 in Hnp; [done|by destruct p]. }
  eexists. split; [done|]. split; [by exists rest|]. cbn [progress set_progress Recovery.complete].
  replace (N.of_nat k + N.of_nat (length out))%N with (N.of_nat (k + length out)) by lia.
  destruct (N.eqb_spec (N.of_nat (k + length out)) (N.of_nat (length rs))) as [He|Hne]; [left; split; [done|lia]|].
  right. exists j'. split; [|intros Ho'; apply Hempty; [done|subst; cbn in *; lia]].
  split; cbn; try done.
  - by rewrite bool_decide_eq_true_2.
  - by rewrite bool_decide_eq_true_2.
  - left. lia.
  - apply Hp. lia.
Qed.

Lemma assemble_piece k j i b r e : partial_at k j (partial i) -> rs !! k = Some r -> k < length rs -> page k b -> b_records b = [] ->
  j < e <= String.length (tr_body r) ->
  b_fragment b = Some {| f_record := with_body (slice (tr_body r) j e) r; f_body_offset := N.of_nat j; f_body_length := str_len (tr_body r) |} ->
  assemble b i = if (e =? String.length (tr_body r))%nat then (set_partial None i, Ok [r])
                 else (set_partial (Some {| pt_record := with_body (slice (tr_body r) 0 e) r; body_length := str_len (tr_body r) |}) i, Ok []).
Proof using All.
  intros Hp Hr Hk [_ Hpo Hpt _] Hre He Hf. destruct (sendable_at _ _ Hr) as [Hv _ Hl _].
  assert (Hlen : forall a c, a <= c <= String.length (tr_body r) -> str_len (slice (tr_body r) a c) = N.of_nat (c - a))
    by (intros a c Hac; unfold str_len; by rewrite slice_length by done).
  unfold assemble. rewrite Hf, Hre, Hpo, Hpt. cbn [f_record f_body_offset f_body_length].
  change (validate (with_body (slice (tr_body r) j e) r)) with (validate r). rewrite Hv. cbn [mbind result_bind].
  rewrite (proj2 (N.ltb_lt _ _)) by lia. cbn [with_body tr_body].
  destruct (String.eqb_spec (slice (tr_body r) j e) "") as [Hs|_].
  { exfalso. pose proof (Hlen j e ltac:(lia)) as Hn. rewrite Hs in Hn. change (str_len "") with 0%N in Hn. lia. }
  rewrite bool_decide_eq_true_2 by done. cbn [andb negb guard_or].
  set (p := default _ _).
  assert (Hpe : p = {| pt_record := with_body (slice (tr_body r) 0 j) r; body_length := str_len (tr_body r) |}).
  { destruct j as [|j]; cbn [partial_at] in Hp; unfold p.
    - rewrite Hp. unfold with_body, slice. cbn. by destruct (tr_body r).
    - destruct Hp as (r' & Hr' & _ & _ & ->). rewrite Hr in Hr'. by injection Hr' as <-. }
  rewrite Hpe. unfold append. cbn [pt_record f_record with_body tr_message_id tr_metadata tr_sent_at_ms tr_from_device tr_body body_length
    f_body_length f_body_offset].
  rewrite !String.eqb_refl, !N.eqb_refl, bool_decide_eq_true_2, !Hlen, Nat.sub_0_r, N.eqb_refl by (done || lia). cbn [andb guard_or mbind result_bind].
  unfold checked_add64, is_u64 in *. assert (Hbl : str_len (tr_body r) = N.of_nat (String.length (tr_body r))) by done.
  rewrite (proj2 (N.leb_le (N.of_nat j + N.of_nat (e - j)) u64_max)) by lia. cbn [ok_or mbind result_bind].
  rewrite (proj2 (N.leb_le (N.of_nat j + N.of_nat (e - j)) _)) by lia. cbn [guard_or mbind result_bind pt_record with_body tr_body body_length].
  rewrite slice_join, Hlen, Nat.sub_0_r, Hbl by lia.
  destruct (Nat.eqb_spec e (String.length (tr_body r))) as [->|Hne].
  - rewrite N.eqb_refl, slice_full. by destruct r.
  - rewrite (proj2 (N.eqb_neq _ _)) by lia. done.
Qed.

Lemma accept_cut k j i b : reading k j i -> cut k j b -> exists i' out, accept b i = (i', Ok out) /\ moved k j i' out.
Proof using All.
  intros Hi Hc. pose proof (rd_more _ _ _ Hi) as Hmore. pose proof (rd_partial _ _ _ Hi) as Hp.
  unfold accept, m_bind, m_get, m_lift, m_ret. destruct Hc as [l rest P -> F R D B E|r e P R L J B E F].
  - rewrite R, (check_page _ _ _ _ _ Hi P B). cbn [inv map_err]. unfold assemble. cbn [partial_at] in Hp. rewrite F, Hp, R.
    destruct (advance_page k 0 i b l 0 None Hi P) as (i' & Ha & Hmv); [by exists rest|done| |].
    { intros -> Hlt. specialize (E eq_refl) as ->. cbn in D. apply (f_equal length) in D. rewrite length_drop in D. cbn in D. lia. }
    exists i', l. replace (set_partial None i) with i in Ha by (destruct i; cbn in *; by rewrite Hp).
    rewrite Hp. rewrite Ha. done.
  - pose proof (lookup_lt_Some _ _ _ L) as Hk.
    rewrite R. cbn [length]. rewrite (check_page _ _ _ _ 0 Hi P) by (unfold BATCH_RECORDS; lia). cbn [inv map_err].
    rewrite (assemble_piece k j i b r e) by done. destruct (Nat.eqb_spec e (String.length (tr_body r))) as [He|Hne].
    + destruct (advance_page k j i b [r] 0 None Hi P) as (i' & Ha & Hmv); [by eexists; apply drop_S|done..|].
      exists i', [r]. change (progress (set_partial None i)) with (progress i). change (partial (set_partial None i)) with (@None PartialText).
      rewrite Ha. done.
    + destruct (advance_page k j i b [] e (Some {| pt_record := with_body (slice (tr_body r) 0 e) r; body_length := str_len (tr_body r) |}) Hi P)
        as (i' & Ha & Hmv); [by exists (drop k rs)| |intros _ _; split; [done|lia]|].
      { intros _. rewrite Nat.add_0_r. destruct e as [|e]; [lia|]. exists r. split; [done|]. split; [lia|]. done. }
      exists i', []. set (p := Some {| pt_record := _; body_length := _ |}) in *. change (progress (set_partial p i)) with (progress i). change (partial (set_partial p i)) with p.
      rewrite Ha. done.
Qed.

(** *** The whole exchange *)

(** At most [n] requests; every answer reaches the reader. *)
Fixpoint pull (n : nat) (i : HistoryImport) : check (HistoryImport * list TextRecord) :=
  match n with
  | O => Ok (i, [])
  | S n =>
      if Recovery.complete (progress i) then Ok (i, [])
      else
        b ← answer stored fits epoch (request_of session i) x;
        let '(i, r) := accept b i in
        out ← r;
        '(i, rest) ← pull n i;
        Ok (i, out ++ rest)
  end.

(** The bytes and records that are left. *)
Definition size_of (l : list TextRecord) : nat := list_sum (map (fun r => S (String.length (tr_body r))) l).
Definition left_at (k j : nat) : nat := size_of (drop k rs) - j.

Lemma partial_short k j p : partial_at k j p -> k < length rs -> j < size_of (drop k rs).
Proof.
  intros Hp Hk. destruct (lookup_lt_is_Some_2 _ _ Hk) as [r Hr]. rewrite (drop_S _ _ _ Hr). unfold size_of. cbn [map list_sum foldr].
  destruct j as [|j]; [lia|]. destruct Hp as (r' & Hr' & Hj & _). rewrite Hr in Hr'. injection Hr' as <-. lia.
Qed.
Lemma moved_left k j i i' out j' : reading k j i -> (exists rest, drop k rs = out ++ rest) -> reading (k + length out) j' i' -> (out = [] -> j < j') ->
  left_at (k + length out) j' < left_at k j.
Proof using All.
  intros Hi [rest Hd] Hi' Hj. unfold left_at.
  assert (Hr : drop (k + length out) rs = rest) by (rewrite <-drop_drop, Hd, drop_app_length; done).
  destruct out as [|r out].
  - cbn [length] in *. rewrite Nat.add_0_r in *. specialize (Hj eq_refl).
    destruct (rd_more _ _ _ Hi') as [Hlt|[-> Hn]].
    + pose proof (partial_short _ _ _ (rd_partial _ _ _ Hi') Hlt). lia.
    + exfalso. pose proof (rd_partial _ _ _ Hi') as Hp. destruct j' as [|j']; [lia|]. destruct Hp as (r & Hr' & _). by rewrite Hn in Hr'.
  - assert (Hk : rs !! k = Some r) by (rewrite <-(Nat.add_0_r k), <-lookup_drop, Hd; done).
    assert (Hb : j <= String.length (tr_body r)).
    { pose proof (rd_partial _ _ _ Hi) as Hp. destruct j as [|j]; [lia|]. destruct Hp as (r' & Hr' & Hj' & _). rewrite Hk in Hr'. injection Hr' as <-. lia. }
    rewrite Hr, Hd. unfold size_of. rewrite map_app, list_sum_app. cbn [map list_sum foldr]. lia.
Qed.

Lemma pull_reading n k j i : reading k j i -> exists i' out rest, pull n i = Ok (i', out) /\ drop k rs = out ++ rest /\
  (left_at k j < n -> Recovery.complete (progress i') = true /\ rest = []).
Proof using All.
  revert k j i. induction n as [|n IH]; intros k j i Hi; cbn [pull].
  { exists i, [], (drop k rs). split; [done|]. split; [done|lia]. }
  rewrite (rd_open _ _ _ Hi). destruct (answer_cut _ _ _ Hi) as (b & Hb & Hc). rewrite Hb. cbn [mbind result_bind].
  destruct (accept_cut _ _ _ _ Hi Hc) as (i1 & out & Ha & [[rest Hd] Hmv]). rewrite Ha. cbn [mbind result_bind].
  destruct Hmv as [[Hdone Hlen]|(j' & Hi1 & Hj)].
  - assert (Hrest : rest = []).
    { apply (f_equal length) in Hd. rewrite length_drop, length_app in Hd. destruct rest; [done|]. cbn in Hd. lia. }
    assert (Hp : pull n i1 = Ok (i1, [])) by (destruct n; cbn [pull]; [done|by rewrite Hdone]).
    rewrite Hp. cbn. exists i1, (out ++ []), rest. by rewrite app_nil_r.
  - destruct (IH _ _ _ Hi1) as (i2 & out' & rest' & Hp & Hd' & Hdone). rewrite Hp. cbn [mbind result_bind].
    exists i2, (out ++ out'), rest'. split; [done|].
    assert (Hr : drop (k + length out) rs = rest) by (rewrite <-drop_drop, Hd, drop_app_length; done).
    rewrite Hr in Hd'. subst rest. split; [by rewrite Hd, <-app_assoc|].
    intros Hn. apply Hdone. pose proof (moved_left _ _ _ _ _ _ Hi (ex_intro _ _ Hd) Hi1 Hj). lia.
Qed.

(** C12. Frozen history arrives, and exactly: whatever page size the packets
    impose, as long as a record without text or seven bytes of one fit, the
    reader of an export is never refused, gets the frozen texts in order
    without a gap or a repetition, cut only between characters and put together
    again, and after at most as many requests as there are records and bytes,
    and one, has all of them. *)
Theorem history_transferred request source n (Hreq : he_request_id x = "history-" +:+ request) :
  exists i out rest, pull n (new_import request source) = Ok (i, out) /\ rs = out ++ rest /\
    (size_of rs < n -> Recovery.complete (progress i) = true /\ out = rs).
Proof using All.
  destruct (pull_reading n 0 0 (new_import request source)) as (i & out & rest & Hp & Hd & Hdone).
  { split; cbn; try done. destruct rs; [by right|left; cbn; lia]. }
  rewrite drop_0 in Hd. exists i, out, rest. split; [done|]. split; [done|]. intros Hn.
  destruct Hdone as [Hc ->]; [unfold left_at; rewrite drop_0; lia|]. split; [done|]. by rewrite app_nil_r in Hd.
Qed.
End Transfer.

(** ** What is imported *)

Section Import.
Context {scheme : Ed25519} {json : DeletionJson} {json' : ErasureJson}.
Variable sha256 : bytes -> bytes.
Variable hex_decode : string -> result string bytes.
Abbreviation history_rows := (history_rows sha256 hex_decode).
Abbreviation history_row := (history_row sha256).

Definition verdict (t : option DmTopology) (o : option MessageOrigin) : option bool :=
  o ← o; t ← t; _ ← client t (author o); Some (own t (author o)).

(** A row for a record: the message known under its id, or the one it carries,
    with nothing changed but the metadata. *)
Record imported (session : string) (t : option DmTopology) (log : list ChatMessage) (r : TextRecord)
    (w : History.StoredMessage ChatMessage) : Prop := {
  im_valid : validate r = Ok tt;
  im_proven : validate_content sha256 hex_decode (dm_context session) r = Ok tt;
  im_place : History.h_conversation_id w = session /\ History.h_sent_at_ms w = tr_sent_at_ms r /\ History.h_message_id w = tr_message_id r;
  im_agrees : forall m, known_message log (tr_message_id r) = Some m -> agrees_with r m = true;
  im_message : let base := default (into_message r) (known_message log (tr_message_id r)) in
    let m := History.h_message w in
    m = cm_set_metadata (c_metadata m) base /\
    (c_metadata m ≫= deletion) = (c_metadata base ≫= deletion) /\
    (c_metadata m ≫= origin) = match c_metadata base ≫= origin with Some o => Some o | None => record_origin r end /\
    (forall md, c_metadata m = Some md -> is_own md = verdict t (origin md));
}.

Lemma correlate_Ok ctx (m m' : ChatMessage) : correlate_history_text sha256 ctx m = Ok m' ->
  m' = m \/ exists key, m' = cm_set_metadata (Some (with_key key (default no_metadata (c_metadata m)))) m.
Proof.
  unfold correlate_history_text. cbn [cm_metadata chat_message]. destruct (c_metadata m) as [md|] eqn:Em; cbn [mbind option_bind].
  - destruct (origin md) as [o|].
    + intros (key & _ & [= <-])%bind_Ok. right. by exists key.
    + destruct (bool_decide _); [intros [= <-]; by left|]. intros (key & _ & [= <-])%bind_Ok. right. by exists key.
  - rewrite bool_decide_eq_false_2 by (by intros [? [=]]). intros (key & _ & [= <-])%bind_Ok. right. by exists key.
Qed.

Lemma history_row_Ok session t log r w : history_row session t log r = Ok w ->
  validate r = Ok tt -> validate_content sha256 hex_decode (dm_context session) r = Ok tt -> imported session t log r w.
Proof.
  unfold TextHistory.history_row. intros ([] & Hg%guard_or_Ok & H)%bind_Ok Hv Hc.
  apply bind_Ok in H as (m & Hm%inv_Ok%correlate_Ok & [= <-]). split; [done|done|done| |].
  { intros m0 Hk. by rewrite Hk in Hg. }
  cbn [History.h_message]. set (base := default (into_message r) (known_message log (tr_message_id r))) in *.
  assert (Hcomp : exists md, completed (known_message log (tr_message_id r)) r = cm_set_metadata md base /\
    (md ≫= deletion) = (c_metadata base ≫= deletion) /\
    (md ≫= origin) = match c_metadata base ≫= origin with Some o => Some o | None => record_origin r end).
  { unfold completed. fold base. destruct (c_metadata base) as [md|] eqn:Eb; cbn [mbind option_bind default from_option].
    - destruct (origin md) as [o|] eqn:Eo; [exists (Some md); by destruct base; cbn in *; subst|].
      destruct (record_origin r) as [o|]; [by eexists|]. exists (Some md). by destruct base; cbn in *; subst.
    - destruct (record_origin r) as [o|]; [by eexists|]. exists None. by destruct base; cbn in *; subst. }
  destruct Hcomp as (md & Heq & Hd & Ho). rewrite Heq in Hm.
  destruct md as [md|]; cbn in Hd, Ho, Hm.
  - destruct Hm as [->|[key ->]]; cbn; (split; [done|]); (split; [done|]); (split; [done|]); intros md' [= <-]; done.
  - destruct Hm as [->|[key ->]]; cbn; (split; [done|]); (split; [done|]); (split; [done|]); [done|]. intros md' [= <-]. done.
Qed.

Lemma rows_imported session t log records ws : history_rows session t log records = Ok ws ->
  Forall2 (imported session t log) records ws /\ NoDup (map tr_message_id records).
Proof.
  unfold TextHistory.history_rows. intros ([ids out] & H & [= <-])%bind_Ok.
  cut (forall ids0 out0 done0, Forall2 (imported session t log) done0 out0 -> NoDup (map tr_message_id done0) ->
    (forall i, i ∈ ids0 <-> i ∈ map tr_message_id done0) ->
    try_fold (fun '(ids, rows) r =>
      _ ← validate r; _ ← validate_content sha256 hex_decode (dm_context session) r;
      _ ← guard_or (negb (bool_decide (tr_message_id r ∈ ids))) invalid;
      row ← history_row session t log r; Ok ({[ tr_message_id r ]} ∪ ids, rows ++ [row])) (ids0, out0) records = Ok (ids, out) ->
    Forall2 (imported session t log) (done0 ++ records) out /\ NoDup (map tr_message_id (done0 ++ records))).
  { intros Hgen. apply (Hgen ∅ [] []); [constructor|constructor|set_solver|exact H]. }
  clear H. induction records as [|r records IH]; intros ids0 out0 done0 Hf Hn Hi; cbn [try_fold].
  - intros [= <- <-]. by rewrite app_nil_r.
  - intros ([ids1 out1] & Hs & H)%bind_Ok. apply bind_Ok in Hs as ([] & Hv & Hs). apply bind_Ok in Hs as ([] & Hc & Hs).
    apply bind_Ok in Hs as ([] & Hnew%guard_or_Ok%negb_true_iff%bool_decide_eq_false & Hs).
    apply bind_Ok in Hs as (row & Hrow & [= <- <-]).
    replace (done0 ++ r :: records) with ((done0 ++ [r]) ++ records) by by rewrite <-app_assoc.
    eapply IH; [..|exact H].
    + apply Forall2_app; [done|]. constructor; [by eapply history_row_Ok|constructor].
    + rewrite map_app. apply NoDup_app. split; [done|]. split; [|apply NoDup_singleton].
      intros i Hin ->%list_elem_of_singleton. by apply Hnew, Hi.
    + intros i. rewrite map_app, elem_of_app, elem_of_union, elem_of_singleton, Hi. cbn [map]. rewrite list_elem_of_singleton. tauto.
Qed.

(** Importing history adds and never rewrites: a batch that is accepted gives
    one row per record, no two for one message, each under the id and time of a
    valid record whose origin, if it has one, proves this very text for this
    conversation; a message that is known stays as it is, erased ones included,
    up to its metadata, where it keeps its origin and deletion; and whose
    message it is follows from the signer's place in the topology, whatever the
    source said. *)
Theorem import_keeps_messages session t log records ws : history_rows session t log records = Ok ws ->
  Forall2 (imported session t log) records ws /\ NoDup (map tr_message_id records).
Proof. apply rows_imported. Qed.
End Import.

(** ** Examples: two notes, seven bytes of text to a packet *)

Definition note_text (i : string) : string := if String.eqb i "a" then "hi" else "déjà vu, twice".
Definition note_row (i : string) : History.StoredMessage ChatMessage :=
  {| History.h_conversation_id := "dm"; History.h_sent_at_ms := 7; History.h_message_id := i;
     History.h_message := {| c_metadata := None; from_device := "phone"; c_body := note_text i; c_message_id := None; c_sent_at_ms := None;
                             c_attachment := None; call_event := None; c_delivery := no_delivery; read := None |};
     History.attachment_manifest := None; History.preview_manifest := None; History.history_evidence := None |}.
#[local] Instance note_codec : History.HistoryJson ChatMessage := {|
  History.stored_to_vec s := Ok (String.list_byte_of_string (History.h_message_id s));
  History.stored_from_slice b := Ok (note_row (String.string_of_list_byte b));
  History.attempt_to_vec _ := Err "";
  History.attempt_from_slice _ := Err "";
  History.message_from_str _ := Err "";
|}.
Definition note_stored (session : string) (t : N) (i : string) : check (option bytes) := Ok (Some (String.list_byte_of_string i)).
Definition note (i : string) : TextRecord :=
  {| tr_metadata := None; tr_message_id := i; tr_sent_at_ms := 7; tr_from_device := "phone"; tr_body := note_text i |}.
Definition two_notes : HistoryExport :=
  {| he_request_id := "history-r"; recipient_device_id := "laptop";
     he_keys := [{| hk_message_id := "a"; hk_sent_at_ms := 7 |}; {| hk_message_id := "b"; hk_sent_at_ms := 7 |}];
     he_digest := hex_string (pad32 [x07]) |}.
Definition seven_bytes (b : HistoryBatch) : bool :=
  (length (b_records b) <=? 1)%nat
  && (list_sum (map (fun r => String.length (tr_body r)) (b_records b))
      + match b_fragment b with Some f => String.length (tr_body (f_record f)) | None => 0 end <=? 7)%nat.

Lemma seven_bytes_small k j b : cut two_notes [note "a"; note "b"] k j b -> small b -> seven_bytes b = true.
Proof.
  intros Hc (Hl & Hr & Hf). unfold seven_bytes. apply andb_true_iff. split; [by apply Nat.leb_le|].
  assert (Hz : list_sum (map (fun r => String.length (tr_body r)) (b_records b)) = 0).
  { destruct (b_records b) as [|r [|r2 l]]; [done| |cbn in Hl; lia]. cbn. rewrite (Hr r) by left. done. }
  rewrite Hz. apply Nat.leb_le. destruct (b_fragment b) as [f|]; [|lia]. specialize (Hf f eq_refl). lia.
Qed.

(** The second note travels in three pieces, of four, six and six bytes. *)
Lemma history_transferred_witness :
  exists i, pull note_stored "dm" two_notes seven_bytes None 100 (new_import "r" phone) = Ok (i, [note "a"; note "b"]).
Proof.
  destruct (history_transferred note_stored "dm" two_notes seven_bytes None [note "a"; note "b"]) with (request := "r") (source := phone) (n := 100)
    as (i & out & rest & Hp & _ & Hdone).
  - repeat constructor.
  - assert (Ht : forall i, utf8 (note_text i)).
    { intros i. exists (chars (note_text i)). unfold note_text.
      destruct (String.eqb i "a"); (split; [|vm_compute; reflexivity]); repeat (constructor; [vm_compute; reflexivity|]); constructor. }
    repeat (constructor; [split; [reflexivity|apply Ht|vm_compute; discriminate|intros H; discriminate H]|]). constructor.
  - vm_compute. reflexivity.
  - vm_compute. discriminate.
  - exact seven_bytes_small.
  - reflexivity.
  - destruct Hdone as [_ ->]; [apply Nat.ltb_lt; vm_compute; reflexivity|]. exists i. exact Hp.
Defined.

#[local] Existing Instances Deletion.toy_json Erasure.toy_json'.
(** The first note is known already; the second is new. *)
Definition known_note : ChatMessage := cm_set_sent_at_ms 7 (cm_set_message_id "a" (History.h_message (note_row "a"))).
Lemma import_keeps_messages_witness :
  exists a b, history_rows Devices.toy_sha hex_bytes "dm" None [known_note] [note "a"; note "b"] = Ok [a; b] /\
    History.h_message a = cm_set_metadata (c_metadata (History.h_message a)) known_note.
Proof.
  destruct (history_rows Devices.toy_sha hex_bytes "dm" None [known_note] [note "a"; note "b"]) as [[|a [|b [|c l]]]|e] eqn:E;
    try (vm_compute in E; discriminate E).
  exists a, b. split; [reflexivity|].
  destruct (import_keeps_messages Devices.toy_sha hex_bytes "dm" None [known_note] [note "a"; note "b"] [a; b] E) as [Hf _].
  inversion_clear Hf as [|? ? ? ? Ha _]. exact (proj1 (im_message _ _ _ _ _ _ _ Ha)).
Defined.
End TextHistory.
