(* ===== verification/Packets.v ===== *)
(** * Packets: what the devices of a DM send each other
      ([private_dm_runtime/devices]: [types.rs], [proof.rs],
      [history_metadata.rs], [recovery/types.rs]; [stream_transport.rs])

    A packet carries one message, the sender's roster, and a signature by the
    sending device over roster, sender, recipient and message.  The metadata of
    history records was added after the first release: it is taken out of the
    message before the packet is signed, signed with the packet's signature in
    front of it, and put back by a receiver that knows it. *)
From S2P Require Import Prelude Messages Devices Identity Calls Topology TextHistory.

Module Packets.
Import Messages Devices Topology TextHistory.

#[local] Open Scope mosh_scope.
#[local] Set Default Proof Using "Type".

Definition DEVICE_CHANNEL : string := "mosh-dm-devices-v1".
Definition MAX_PACKET_BYTES : N := 131072.
Definition STREAM_BYTES : N := 65536.

(** ** The messages ([types.rs], [recovery/types.rs]) *)

Record DmOffer := {
  o_session : string;
  o_mesh : string;
  o_fingerprint : string;
  o_invite : option string;
  o_group : bytes;
  own_name : string;
  peer_name : string;
  o_topology : DmTopology;
}.
Record RecoveryProbe := { pr_session : string; pr_request : string; pr_round : N }.
Record RecoveryOffer := { of_probe : RecoveryProbe; of_epoch : N; of_manifest : string }.
Record RecoveryPull := { pl_round : N; pl_epoch : N; pl_request : HistoryRequest }.
Record RecoveryBatch := { rb_round : N; rb_batch : HistoryBatch }.
Record RecoveryEpoch := { rc_round : N; rc_request : string; rc_evidence : EpochRecord }.
Record RecoveryRemoval := { rr_round : N; rr_request : string; rr_evidence : RemovalRecord }.

Inductive DeviceMessage :=
| MRemoval (e : RemovalRecord)
| MRemovalAck (session : string) (epoch : N) (evidence : string)
| MOffer (o : DmOffer)
| MJoin (r : JoinRequest)
| MAdmission (a : Admission)
| MHistoryRequest (r : HistoryRequest)
| MHistoryBatch (b : HistoryBatch)
| MRecoveryProbe (p : RecoveryProbe)
| MRecoveryOffer (o : RecoveryOffer)
| MRecoveryPull (p : RecoveryPull)
| MRecoveryBatch (b : RecoveryBatch)
| MRecoveryEpoch (e : RecoveryEpoch)
| MRecoveryRemoval (r : RecoveryRemoval)
| MAck (session request : string) (epoch : N).

Record HistoryMetadata := {
  hm_records : list (option MessageMetadata);
  hm_fragment : option MessageMetadata;
  hm_signature : string;
}.
Record DevicePacket := {
  p_roster : DeviceRoster;
  p_sender : string;
  p_recipient : string;
  p_message : DeviceMessage;
  p_signature : string;
  p_metadata : option HistoryMetadata;
}.

(** [serde_json] of packets, of what is signed, and of stream frames; base64. *)
Class PacketJson := {
  body_to_vec : DeviceRoster * string * string * DeviceMessage -> result string bytes;
  metadata_to_vec : string * list (option MessageMetadata) * option MessageMetadata -> result string bytes;
  packet_to_vec : DevicePacket -> result string bytes;
  packet_from_slice : bytes -> result string DevicePacket;
  stream_to_vec : string * string -> result string bytes;
  stream_encode : bytes -> string;
}.

(** ** Metadata beside the message ([history_metadata.rs]) *)

Definition batch_in (m : DeviceMessage) : option HistoryBatch :=
  match m with MHistoryBatch b => Some b | MRecoveryBatch r => Some (rb_batch r) | _ => None end.
Definition put_batch (b : HistoryBatch) (m : DeviceMessage) : DeviceMessage :=
  match m with
  | MHistoryBatch _ => MHistoryBatch b
  | MRecoveryBatch r => MRecoveryBatch {| rb_round := rb_round r; rb_batch := b |}
  | _ => m
  end.
Definition with_meta (md : option MessageMetadata) (r : TextRecord) : TextRecord :=
  {| tr_metadata := md; tr_message_id := tr_message_id r; tr_sent_at_ms := tr_sent_at_ms r; tr_from_device := tr_from_device r;
     tr_body := tr_body r |}.
Definition fragment_meta (md : option MessageMetadata) (f : TextFragment) : TextFragment :=
  {| f_record := with_meta md (f_record f); f_body_offset := f_body_offset f; f_body_length := f_body_length f |}.

(** The message without its metadata, and what was taken, when there was any. *)
Definition detach (m : DeviceMessage) : DeviceMessage * option HistoryMetadata :=
  match batch_in m with
  | None => (m, None)
  | Some b =>
      let records := map tr_metadata (b_records b) in
      let fragment := f ← b_fragment b; tr_metadata (f_record f) in
      (put_batch (with_page (map (with_meta None) (b_records b)) (fragment_meta None <$> b_fragment b) b) m,
       if forallb (fun md => bool_decide (md = None)) records && bool_decide (fragment = None) then None
       else Some {| hm_records := records; hm_fragment := fragment; hm_signature := "" |})
  end.
(** What [restore] does once the signature holds. *)
Definition attach (h : HistoryMetadata) (m : DeviceMessage) : result PrivateDmRuntimeError DeviceMessage :=
  b ← ok_or (batch_in m) invalid;
  _ ← guard_or ((length (hm_records h) =? length (b_records b))%nat
                && negb (bool_decide (is_Some (hm_fragment h)) && bool_decide (b_fragment b = None))) invalid;
  Ok (put_batch (with_page (zip_with (fun r md => with_meta md r) (b_records b) (hm_records h))
                           (fragment_meta (hm_fragment h) <$> b_fragment b) b) m).

Section Packets.
Context {scheme : Ed25519} {json : PacketJson}.
Variable sha256 : bytes -> bytes.
Variable hex_decode : string -> result string bytes.
Variable content_to_vec : N * option string * string * DeviceDescriptor -> result string bytes.
Variable roster_to_vec : DeviceRoster -> result string bytes.

Abbreviation devices_of := (Devices.devices_of sha256 hex_decode content_to_vec roster_to_vec).
Abbreviation verify := (Topology.verify hex_decode).
Abbreviation own_roster i := (Identity.roster (Identity.record i)).
Abbreviation own_device i := (Identity.own_device (Identity.record i)).

Definition metadata_input (h : HistoryMetadata) (primary : string) : check bytes :=
  b ← inv (metadata_to_vec (primary, hm_records h, hm_fragment h));
  Ok (context "mosh-dm-history-metadata-v1" ++ b).
Definition metadata_sign (i : Identity.DeviceIdentity) (primary : string) (h : HistoryMetadata) : check HistoryMetadata :=
  b ← metadata_input h primary;
  Ok {| hm_records := hm_records h; hm_fragment := hm_fragment h; hm_signature := hex_string (sign (Identity.key i) b) |}.
Definition restore (h : HistoryMetadata) (m : DeviceMessage) (key primary : string) : check DeviceMessage :=
  b ← metadata_input h primary;
  _ ← verify key (hm_signature h) b;
  attach h m.

(** ** Packets ([proof.rs]) *)

Definition packet_bytes (p : DevicePacket) : check bytes :=
  b ← inv (body_to_vec (p_roster p, p_sender p, p_recipient p, p_message p));
  Ok (context "mosh-dm-admission-v1" ++ b).
Definition packet_device (p : DevicePacket) : check DeviceDescriptor :=
  ds ← inv (devices_of (p_roster p));
  ok_or (find (fun d => String.eqb (device_id d) (p_sender p)) ds) invalid.

Definition seal (i : Identity.DeviceIdentity) (recipient : string) (m : DeviceMessage) : check bytes :=
  let '(m, md) := detach m in
  let packet sig md := {| p_roster := own_roster i; p_sender := device_id (own_device i); p_recipient := recipient; p_message := m;
                          p_signature := sig; p_metadata := md |} in
  b ← packet_bytes (packet "" None);
  let sig := hex_string (sign (Identity.key i) b) in
  md ← match md with
       | None => Ok None
       | Some h => h ← metadata_sign i sig h; Ok (Some h)
       end;
  out ← inv (packet_to_vec (packet sig md));
  _ ← guard_or (N.of_nat (length out) <=? MAX_PACKET_BYTES)%N invalid;
  Ok out.

Definition with_message (m : DeviceMessage) (p : DevicePacket) : DevicePacket :=
  {| p_roster := p_roster p; p_sender := p_sender p; p_recipient := p_recipient p; p_message := m; p_signature := p_signature p;
     p_metadata := None |}.
(** [open] takes the metadata out of the packet when it puts it back. *)
Definition open (b : bytes) (recipient : string) : check DevicePacket :=
  _ ← guard_or (N.of_nat (length b) <=? MAX_PACKET_BYTES)%N invalid;
  p ← inv (packet_from_slice b);
  _ ← guard_or (String.eqb (p_recipient p) recipient) invalid;
  d ← packet_device p;
  input ← packet_bytes p;
  _ ← verify (signing_public_key d) (p_signature p) input;
  match p_metadata p with
  | None => Ok p
  | Some h => m ← restore h (p_message p) (signing_public_key d) (p_signature p); Ok (with_message m p)
  end.

Definition frame_for_channel (channel : string) (payload : bytes) : option bytes :=
  res_ok (stream_to_vec (channel, stream_encode payload)).
Definition fits_stream (i : Identity.DeviceIdentity) (peer : string) (m : DeviceMessage) : bool :=
  match (b ← res_ok (seal i peer m); frame_for_channel DEVICE_CHANNEL b) with
  | Some frame => (N.of_nat (length frame) <=? STREAM_BYTES)%N
  | None => false
  end.

(** ** Metadata is put back where it was *)

Lemma with_meta_own r : with_meta (tr_metadata r) (with_meta None r) = r.
Proof. by destruct r. Qed.
Lemma with_meta_none r : tr_metadata r = None -> with_meta None r = r.
Proof. destruct r; cbn. by intros ->. Qed.

Lemma put_batch_in m b b' : batch_in m = Some b -> batch_in (put_batch b' m) = Some b'.
Proof. by destruct m. Qed.
Lemma put_batch_put m b b' : put_batch b' (put_batch b m) = put_batch b' m.
Proof. by destruct m. Qed.
Lemma put_batch_same m b : batch_in m = Some b -> put_batch b m = m.
Proof. destruct m; cbn; try done; intros [= <-]; [done|]. by destruct b0. Qed.

Lemma detach_None m m' : detach m = (m', None) -> m' = m.
Proof.
  unfold detach. destruct (batch_in m) as [b|] eqn:Eb; [|by intros [= <-]].
  destruct (_ && _) eqn:Hn; [|done]. intros [= <-]. apply andb_true_iff in Hn as [Hr Hf%bool_decide_eq_true].
  transitivity (put_batch b m); [f_equal|by apply put_batch_same]. destruct b as [s e rq o t mf rs f]; cbn in *. unfold with_page. f_equal.
  - clear Eb. rewrite forallb_forall in Hr. induction rs as [|r rs IH]; [done|]. cbn [map]. f_equal.
    + apply with_meta_none. specialize (Hr (tr_metadata r) (or_introl eq_refl)). by apply bool_decide_eq_true in Hr.
    + apply IH. intros md Hin. apply Hr. by right.
  - destruct f as [f|]; [|done]. cbn in *. f_equal. destruct f as [r fo fl]. unfold fragment_meta. cbn in *. by rewrite with_meta_none.
Qed.
Lemma detach_attach m m' h sig : detach m = (m', Some h) ->
  attach {| hm_records := hm_records h; hm_fragment := hm_fragment h; hm_signature := sig |} m' = Ok m.
Proof.
  unfold detach. destruct (batch_in m) as [b|] eqn:Eb; [|done]. destruct (_ && _); [done|]. intros [= <- <-]. cbn [hm_records hm_fragment].
  unfold attach. rewrite (put_batch_in _ _ _ Eb). cbn [ok_or mbind result_bind hm_records hm_fragment b_records with_page b_fragment].
  rewrite !length_map, Nat.eqb_refl. cbn [andb].
  assert (Hg : negb (bool_decide (is_Some (f ← b_fragment b; tr_metadata (f_record f))) && bool_decide (fragment_meta None <$> b_fragment b = None)) = true).
  { destruct (b_fragment b) as [f|]; cbn; [|done]. by rewrite andb_false_r. }
  rewrite Hg. cbn [guard_or mbind result_bind]. f_equal. rewrite put_batch_put.
  transitivity (put_batch b m); [f_equal|by apply put_batch_same]. destruct b as [s e rq o t mf rs f]; unfold with_page; cbn. f_equal.
  - clear Eb. induction rs as [|r rs IH]; [done|]. cbn [map zip_with]. by rewrite with_meta_own, IH.
  - destruct f as [[r fo fl]|]; [|done]. cbn. unfold fragment_meta. cbn. by rewrite with_meta_own.
Qed.

(** ** What is sealed opens, and what opens was sealed *)

Section Sealed.
Context {laws : Ed25519Laws}.
Variable delegation_to_vec : string * list Identity.Delegation * string -> result string bytes.
Hypothesis hex_decode_string : forall b, hex_decode (hex_string b) = Ok b.
Hypothesis packet_roundtrip : forall p b, packet_to_vec p = Ok b -> packet_from_slice b = Ok p.

Lemma verify_signed s input : verify (hex_string (verifying_key s)) (hex_string (sign s input)) input = Ok tt.
Proof using hex_decode_string laws.
  unfold Topology.verify. rewrite hex_decode_string. cbn. rewrite sign_length. cbn. unfold public_key. rewrite !hex_decode_string. cbn.
  rewrite key_length, key_decodes, key_strong, String.eqb_refl. cbn. unfold verify_key. by rewrite key_strong, sign_verifies.
Qed.

(** C36. Device packets arrive whole: a packet that a device of a valid identity
    seals opens at its recipient as the same message, metadata included, of the
    same device and roster. *)
Theorem packet_arrives i peer recipient m b
  (Hi : Identity.validate_identity sha256 hex_decode content_to_vec roster_to_vec delegation_to_vec i peer = Ok tt)
  (Hr : Identity.revoked sha256 hex_decode content_to_vec roster_to_vec i = Ok false) (Hb : seal i recipient m = Ok b) :
  exists p, open b recipient = Ok p /\ p_message p = m /\ p_roster p = own_roster i /\ packet_device p = Ok (own_device i).
Proof using All.
  assert (Hkey : signing_public_key (own_device i) = hex_string (verifying_key (Identity.key i))).
  { unfold Identity.validate_identity in Hi. apply bind_Ok in Hi as ([] & _ & Hi). apply bind_Ok in Hi as ([] & Hg & _).
    by apply guard_or_Ok, andb_true_iff in Hg as [_ Hg%String.eqb_eq]. }
  assert (Hfind : exists ds, devices_of (own_roster i) = Ok ds /\
    find (fun d => String.eqb (device_id d) (device_id (own_device i))) ds = Some (own_device i)).
  { unfold Identity.revoked in Hr. apply bind_Ok in Hr as (ds & Hds & [= Hin]). apply negb_false_iff, bool_decide_eq_true in Hin.
    exists ds. split; [done|]. apply find_id; [|done]. apply (roster_replay _ _ _ _ _ _ Hds). }
  destruct Hfind as (ds & Hds & Hf). unfold seal in Hb. destruct (detach m) as [m' md] eqn:Ed.
  apply bind_Ok in Hb as (input & Hin & Hb). cbv zeta in Hb. set (sig := hex_string (sign (Identity.key i) input)) in *.
  apply bind_Ok in Hb as (md' & Hmd & Hb). apply bind_Ok in Hb as (out & Hout%inv_Ok & Hb). apply bind_Ok in Hb as ([] & Hlen & [= <-]).
  unfold open. rewrite Hlen. cbn [mbind result_bind]. rewrite (packet_roundtrip _ _ Hout). cbn [inv map_err mbind result_bind p_recipient].
  rewrite String.eqb_refl. cbn [guard_or mbind result_bind]. unfold packet_device at 1. cbn [p_roster p_sender]. rewrite Hds. cbn [inv map_err mbind result_bind].
  rewrite Hf. cbn [ok_or mbind result_bind]. 
  unfold packet_bytes in Hin |- *. cbn [p_roster p_sender p_recipient p_message] in Hin |- *. rewrite Hin. cbn [mbind result_bind p_signature p_metadata].
  rewrite Hkey.
  assert (Hsig : verify (hex_string (verifying_key (Identity.key i))) sig input = Ok tt) by apply verify_signed. rewrite Hsig. cbn [mbind result_bind].
  assert (Hdev : forall q, p_roster q = own_roster i -> p_sender q = device_id (own_device i) -> packet_device q = Ok (own_device i)).
  { intros q H1 H2. unfold packet_device. rewrite H1, H2, Hds. cbn [inv map_err mbind result_bind]. by rewrite Hf. }
  destruct md as [h|].
  - apply bind_Ok in Hmd as (h' & Hh & [= <-]). unfold metadata_sign in Hh. apply bind_Ok in Hh as (extra & Hx & [= <-]).
    unfold restore. unfold metadata_input in Hx |- *. cbn [hm_records hm_fragment hm_signature]. rewrite Hx. cbn [mbind result_bind].
    rewrite verify_signed. cbn [mbind result_bind p_message]. rewrite (detach_attach _ _ _ _ Ed). cbn [mbind result_bind].
    eexists. split; [done|]. split; [done|]. split; [done|]. by apply Hdev.
  - injection Hmd as <-. apply detach_None in Ed as ->. eexists. split; [done|]. split; [done|]. split; [done|]. by apply Hdev.
Qed.
End Sealed.

(** C37. An opened packet was signed: its message, or the message less the
    metadata that was put back, stands under a signature for this recipient by
    a device of the roster it brings, and that metadata under a second
    signature of the device that names the first; nothing else about the
    message changed. *)
Theorem packet_authentic b recipient p (H : open b recipient = Ok p) :
  (N.of_nat (length b) <= MAX_PACKET_BYTES)%N /\ p_recipient p = recipient /\
  exists d input, packet_device p = Ok d /\ device_id d = p_sender p /\
  exists m, packet_bytes (with_message m p) = Ok input /\ verify (signing_public_key d) (p_signature p) input = Ok tt /\
    (p_message p = m \/ exists h extra, metadata_input h (p_signature p) = Ok extra /\
       verify (signing_public_key d) (hm_signature h) extra = Ok tt /\ attach h m = Ok (p_message p)).
Proof.
  unfold open in H. apply bind_Ok in H as ([] & Hl%guard_or_Ok%N.leb_le & H). apply bind_Ok in H as (q & Hq & H).
  apply bind_Ok in H as ([] & Hr%guard_or_Ok%String.eqb_eq & H). apply bind_Ok in H as (d & Hd & H). apply bind_Ok in H as (input & Hin & H).
  apply bind_Ok in H as ([] & Hv & H).
  assert (Hid : device_id d = p_sender q).
  { unfold packet_device in Hd. apply bind_Ok in Hd as (ds & _ & [_ Hid%String.eqb_eq]%ok_or_Ok%find_some). done. }
  destruct (p_metadata q) as [h|] eqn:Eh.
  - apply bind_Ok in H as (m & Hm & [= <-]). unfold restore in Hm. apply bind_Ok in Hm as (extra & Hx & Hm). apply bind_Ok in Hm as ([] & Hv2 & Hm).
    split; [done|]. split; [done|]. exists d, input. split; [done|]. split; [done|]. exists (p_message q). split; [done|]. split; [done|].
    right. by exists h, extra.
  - injection H as <-. split; [done|]. split; [done|]. exists d, input. split; [done|]. split; [done|]. exists (p_message q). split; [done|].
    split; [done|]. by left.
Qed.
End Packets.

(** ** Examples: a page of one signed note goes to the laptop *)

#[local] Instance TextRecord_eq_dec : EqDecision TextRecord.
Proof. solve_decision. Defined.
#[local] Instance TextFragment_eq_dec : EqDecision TextFragment.
Proof. solve_decision. Defined.
#[local] Instance HistoryBatch_eq_dec : EqDecision HistoryBatch.
Proof. solve_decision. Defined.

Definition note_meta : MessageMetadata :=
  {| origin := None; deletion := None; deletion_key := Some "key"; personal_correlation := None; can_delete_for_everyone := false;
     local_only := false; is_own := Some true |}.
Definition note_page (md : option MessageMetadata) : HistoryBatch :=
  {| b_session := "dm"; b_epoch := Some 4%N; b_request_id := "history-r"; b_offset := 0; b_total := 1; b_manifest := hex_string (pad32 [x07]);
     b_records := [with_meta md (note "a")]; b_fragment := None |}.
Definition note_metadata (sig : string) : HistoryMetadata := {| hm_records := [Some note_meta]; hm_fragment := None; hm_signature := sig |}.
Definition note_packet (c : string * string * string * option string) : DevicePacket :=
  {| p_roster := friend_roster; p_sender := c.1.1.1; p_recipient := c.1.1.2; p_message := MHistoryBatch (note_page None);
     p_signature := c.1.2; p_metadata := note_metadata <$> c.2 |}.
#[local] Instance MessageMetadata_eq : EqDecision (list (option MessageMetadata) * option MessageMetadata).
Proof. apply _. Defined.
(** The wire of this example knows that page only. *)
#[local] Instance note_json : PacketJson := {|
  body_to_vec b := Ok (String.list_byte_of_string b.1.1.2);
  metadata_to_vec b := Ok (String.list_byte_of_string b.1.1);
  packet_to_vec p :=
    match p_message p with
    | MHistoryBatch b =>
        let md := match p_metadata p with
          | None => Some None
          | Some h => if bool_decide ((hm_records h, hm_fragment h) = ([Some note_meta], None)) then Some (Some (hm_signature h)) else None
          end in
        match md with
        | Some md =>
            if bool_decide (p_roster p = friend_roster) && bool_decide (b = note_page None)
            then codec_to_vec (p_sender p, p_recipient p, p_signature p, md) else Err "unknown"
        | None => Err "unknown"
        end
    | _ => Err "unknown"
    end;
  packet_from_slice b := c ← codec_from_slice b; Ok (note_packet c);
  stream_to_vec f := Ok (String.list_byte_of_string f.2);
  stream_encode b := hex_string b;
|}.
Lemma note_roundtrip p b : packet_to_vec p = Ok b -> packet_from_slice b = Ok p.
Proof.
  destruct p as [r s q m sg md]; cbn. destruct m as [| | | | | |m| | | | | | |]; try done.
  assert (Hmd : forall md', match md with None => Some None
      | Some h => if bool_decide ((hm_records h, hm_fragment h) = ([Some note_meta], None)) then Some (Some (hm_signature h)) else None end = Some md' ->
    md = note_metadata <$> md').
  { intros md'. destruct md as [[hr hf hs]|]; cbn; [|by intros [= <-]]. case_bool_decide as E; [|done]. intros [= <-]. by injection E as -> ->. }
  destruct (match md with None => _ | Some h => _ end) as [md'|]; [|done]. specialize (Hmd _ eq_refl).
  destruct (bool_decide (r = friend_roster)) eqn:Er; [|done]. destruct (bool_decide (m = note_page None)) eqn:Em; [|done].
  apply bool_decide_eq_true in Er as ->, Em as ->. cbn [andb]. intros Hc%codec_roundtrip. rewrite Hc. cbn. by rewrite Hmd.
Qed.

Abbreviation sealed_note := (seal friend (hex_string (pad32 [x12])) (MHistoryBatch (note_page (Some note_meta)))).
Lemma packet_arrives_witness : exists b p, sealed_note = Ok b /\
  open toy_sha hex_bytes toy_content toy_roster_bytes b (hex_string (pad32 [x12])) = Ok p /\
  p_message p = MHistoryBatch (note_page (Some note_meta)).
Proof.
  destruct sealed_note as [b|e] eqn:E; [|vm_compute in E; discriminate E].
  destruct (packet_arrives toy_sha hex_bytes toy_content toy_roster_bytes Identity.toy_delegation hex_bytes_string note_roundtrip
    friend (hex_string (pad32 [x15])) (hex_string (pad32 [x12])) (MHistoryBatch (note_page (Some note_meta))) b) as (p & Ho & Hm & _).
  - vm_compute. reflexivity.
  - vm_compute. reflexivity.
  - exact E.
  - exists b, p. exact (conj eq_refl (conj Ho Hm)).
Defined.

Lemma packet_authentic_witness : exists b p, sealed_note = Ok b /\
  open toy_sha hex_bytes toy_content toy_roster_bytes b (hex_string (pad32 [x12])) = Ok p /\ p_recipient p = hex_string (pad32 [x12]).
Proof.
  destruct sealed_note as [b|e] eqn:E; [|vm_compute in E; discriminate E].
  destruct (open toy_sha hex_bytes toy_content toy_roster_bytes b (hex_string (pad32 [x12]))) as [p|e] eqn:Eo;
    [|vm_compute in E; injection E as <-; vm_compute in Eo; discriminate Eo].
  exists b, p. split; [reflexivity|]. split; [exact Eo|].
  exact (proj1 (proj2 (packet_authentic toy_sha hex_bytes toy_content toy_roster_bytes b (hex_string (pad32 [x12])) p Eo))).
Defined.
End Packets.
