(* ===== verification/DeviceHistory.v ===== *)
(** * DeviceHistory: history and recovery between the devices of a DM
      ([private_dm_runtime/devices]: [history/mod.rs], [history/source.rs],
      [history/import.rs], [recovery/mod.rs], [recovery/source.rs],
      [recovery/import.rs], [recovery/relay.rs], [recovery/epochs.rs],
      [revocation/recovery.rs], [revocation/mod.rs], [runtime.rs])

    The handlers around TextHistory: who may ask for history and who may send
    it, rounds of recovery from any device of the conversation, the evidence of
    epochs this device missed, and the barrier between the two: no text is
    imported while an epoch is missing.  The state is the session of Topology
    and the identity's store beside the message log and the packets sent. *)
From S2P Require Import Prelude Store Messages Devices Identity Calls Deletion Erasure History Recovery Topology Removal.
From S2P Require Import TextHistory Packets.

Module DeviceHistory.
Import Store Messages Devices Topology Removal TextHistory Packets.

#[local] Open Scope mosh_scope.
#[local] Set Default Proof Using "Type".
#[local] Existing Instance Calls.chat_message.

Definition PROBE_MS : N := 5000.
Definition SOURCE_TIMEOUT_MS : N := 10000.
Definition RETRY_MS : N := 2000.
Definition CLOCK_SKEW_MS : N := 3600000.
Definition MAX_REQUEST_BYTES : N := 128.

Inductive DmHistorySyncState := WaitingForSource | Importing | Complete.
Inductive DmDeviceRevocationState := DPending | DApplied | DRevoked.

Section History.
Context {scheme : Ed25519} {json : Deletion.DeletionJson} {json' : Erasure.ErasureJson} {packets : PacketJson}.
Context {codec : History.HistoryJson Calls.ChatMessage} {C : Type} {St : Type} {cell : CasCell St}.
(** MLS as it judges key packages now ([None]) or at the time a commit was made
    ([Lifetime::with_validation_time], in seconds). *)
Context {mls_at : option N -> DmMls C}.
#[local] Instance mls : DmMls C := mls_at None.
Variable sha256 : bytes -> bytes.
Variable hex_decode : string -> result string bytes.
Variable content_to_vec : N * option string * string * DeviceDescriptor -> result string bytes.
Variable roster_to_vec : DeviceRoster -> result string bytes.
Variable claim_to_vec : string * DeviceRoster * string * string * string -> result string bytes.
Variable evidence_to_vec : string * DeviceRoster * JoinRequest * bytes * bytes * N -> result string bytes.
Variable body_to_vec : string * string * string * DeviceRoster * bytes * bytes * N -> result string bytes.
Variable removal_to_vec : RemovalRecord -> result string bytes.
Variable keys_to_vec : list HistoryKey -> result string bytes.
Variable delegation_to_vec : string * list Identity.Delegation * string -> result string bytes.
Variable identity_to_vec : Identity.LocalIdentity -> result string bytes.
Variable identity_from_slice : bytes -> result string Identity.LocalIdentity.
Variable generated : bytes.
(** What the message table answers, and a random suffix for messages that have
    no id. *)
Variable stored : string -> N -> string -> check (option bytes).
Variable random_hex : string.

Abbreviation devices_of := (Devices.devices_of sha256 hex_decode content_to_vec roster_to_vec).
Abbreviation extends := (Devices.extends sha256 hex_decode content_to_vec roster_to_vec).
Abbreviation has_removal_since := (Devices.has_removal_since sha256 hex_decode content_to_vec roster_to_vec).
Abbreviation digest := (Devices.digest sha256 roster_to_vec).
Abbreviation lists := (Topology.lists sha256 hex_decode content_to_vec roster_to_vec).
Abbreviation claim_device := (Topology.claim_device sha256 hex_decode content_to_vec roster_to_vec).
Abbreviation validate_topology := (Topology.validate sha256 hex_decode content_to_vec roster_to_vec claim_to_vec).
Abbreviation current_roster := (Topology.current_roster sha256 hex_decode content_to_vec roster_to_vec).
Abbreviation authorized := (Topology.authorized sha256 hex_decode content_to_vec roster_to_vec).
Abbreviation pending_removal := (Topology.pending_removal sha256 hex_decode content_to_vec roster_to_vec).
Abbreviation epoch_author := (Topology.epoch_author sha256 hex_decode content_to_vec roster_to_vec evidence_to_vec).
Abbreviation verify_authorizer := (Topology.verify_authorizer sha256 hex_decode content_to_vec roster_to_vec).
Abbreviation authorize_roster_relay := (Removal.authorize_roster_relay sha256 hex_decode content_to_vec roster_to_vec claim_to_vec).
Abbreviation authorize_removal_relay := (Removal.authorize_removal_relay sha256 hex_decode content_to_vec roster_to_vec).
Abbreviation stage_removal := (Removal.stage_removal sha256 hex_decode content_to_vec roster_to_vec claim_to_vec body_to_vec removal_to_vec).
Abbreviation history_rows := (TextHistory.history_rows sha256 hex_decode).
Abbreviation freeze := (TextHistory.freeze sha256 keys_to_vec).
Abbreviation seal := Packets.seal.
Abbreviation own_roster i := (Identity.roster (Identity.record i)).
Abbreviation own_device i := (Identity.own_device (Identity.record i)).
Abbreviation DmSession := (@Topology.DmSession C).

Record World := {
  w_dm : DmSession;
  w_store : option St;
  w_log : @MessageLog Calls.ChatMessage;
  history_last_rx_ms : N;
  recovery_boot_ms : N;
  recovery_pull_ms : N;
  w_out : list (string * DeviceMessage);
}.
Abbreviation op := (method World PrivateDmRuntimeError).

Definition set_dm (s : DmSession) (w : World) : World :=
  {| w_dm := s; w_store := w_store w; w_log := w_log w; history_last_rx_ms := history_last_rx_ms w; recovery_boot_ms := recovery_boot_ms w;
     recovery_pull_ms := recovery_pull_ms w; w_out := w_out w |}.
Definition set_pair (p : DmSession * option St) (w : World) : World :=
  {| w_dm := p.1; w_store := p.2; w_log := w_log w; history_last_rx_ms := history_last_rx_ms w; recovery_boot_ms := recovery_boot_ms w;
     recovery_pull_ms := recovery_pull_ms w; w_out := w_out w |}.
Definition set_log (l : @MessageLog Calls.ChatMessage) (w : World) : World :=
  {| w_dm := w_dm w; w_store := w_store w; w_log := l; history_last_rx_ms := history_last_rx_ms w; recovery_boot_ms := recovery_boot_ms w;
     recovery_pull_ms := recovery_pull_ms w; w_out := w_out w |}.
Definition set_rx (n : N) (w : World) : World :=
  {| w_dm := w_dm w; w_store := w_store w; w_log := w_log w; history_last_rx_ms := n; recovery_boot_ms := recovery_boot_ms w;
     recovery_pull_ms := recovery_pull_ms w; w_out := w_out w |}.
Definition set_boot (n : N) (w : World) : World :=
  {| w_dm := w_dm w; w_store := w_store w; w_log := w_log w; history_last_rx_ms := history_last_rx_ms w; recovery_boot_ms := n;
     recovery_pull_ms := recovery_pull_ms w; w_out := w_out w |}.
Definition set_pull (n : N) (w : World) : World :=
  {| w_dm := w_dm w; w_store := w_store w; w_log := w_log w; history_last_rx_ms := history_last_rx_ms w; recovery_boot_ms := recovery_boot_ms w;
     recovery_pull_ms := n; w_out := w_out w |}.
Definition set_out (l : list (string * DeviceMessage)) (w : World) : World :=
  {| w_dm := w_dm w; w_store := w_store w; w_log := w_log w; history_last_rx_ms := history_last_rx_ms w; recovery_boot_ms := recovery_boot_ms w;
     recovery_pull_ms := recovery_pull_ms w; w_out := l |}.

Definition in_dm {A} (m : method DmSession PrivateDmRuntimeError A) : op A := fun w =>
  let '(s, r) := m (w_dm w) in (set_dm s w, r).
Definition in_pair {A} (m : method (DmSession * option St) PrivateDmRuntimeError A) : op A := fun w =>
  let '(p, r) := m (w_dm w, w_store w) in (set_pair p w, r).
Definition look {A} (f : World -> check A) : op A := fun w => (w, f w).
Definition persistence : op unit := look (fun w => guard_or (bool_decide (is_Some (w_store w))) invalid).

(** [send_packet]: the peer is connected and reached, the packet sealed, framed
    and sent. *)
Definition send_packet (i : Identity.DeviceIdentity) (peer : string) (m : DeviceMessage) : op unit :=
  in_dm asked;;;
  b <~ m_lift (seal i peer m);;
  m_lift (ok_or (frame_for_channel DEVICE_CHANNEL b) invalid);;;
  in_dm asked;;;
  m_modify (fun w => set_out (w_out w ++ [(peer, m)]) w).

(** ** Who may take part *)

Definition epoch_of (s : DmSession) : option N := mls_epoch (crypto s).
Definition awaiting_device_epoch (s : DmSession) : bool :=
  match membership s with
  | None => false
  | Some m =>
      pending_removal m
      || match recovery m with
         | None => false
         | Some r => match epoch_of s with None => true | Some e => (e <? required_epoch r)%N end
         end
  end.
Definition device_revocation_state (s : DmSession) : option DmDeviceRevocationState :=
  match membership s with
  | None => None
  | Some m =>
      if revoked m then Some DRevoked
      else if pending_removal m || existsb (fun j => negb (bool_decide (rm_waiting j = []))) (removals m) then Some DPending
      else if bool_decide (removals m = []) then None else Some DApplied
  end.
Definition ensure_device_authorized (s : DmSession) : check unit :=
  guard_or (negb (match membership s with Some m => revoked m | None => false end)) Calls.Revoked.

(** A sibling: a client of this user, with this device's very roster. *)
Definition authorize_history_device (i : Identity.DeviceIdentity) (sender : DeviceDescriptor) (r : DeviceRoster) (s : DmSession) : check unit :=
  m ← ok_or (membership s) invalid;
  _ ← validate_topology (topology m) (s_id s) (mls_members (crypto s));
  _ ← guard_or (negb (is_joining m) && authorized m sender (user_id r) && peer_joined s) invalid;
  theirs ← inv (digest r);
  mine ← inv (digest (own_roster i));
  guard_or (String.eqb theirs mine && String.eqb (user_id r) (own_user_id (topology m))
            && negb (String.eqb (device_id sender) (device_id (own_device i)))
            && existsb (fun c => String.eqb (i_device c) (device_id sender) && own (topology m) (mls_signer c)
                                 && bool_decide (res_ok (claim_device c) = Some sender)) (clients (topology m))) invalid.

(** Another client of the conversation, whichever user's. *)
Definition authorize_recovery_device (sender : DeviceDescriptor) (r : DeviceRoster) (s : DmSession) : check unit :=
  m ← ok_or (membership s) invalid;
  _ ← validate_topology (topology m) (s_id s) (mls_members (crypto s));
  c ← ok_or (client_of_device (topology m) (device_id sender)) invalid;
  current ← ok_or (roster (topology m) (user_id r)) invalid;
  _ ← guard_or (negb (is_joining m) && authorized m sender (user_id r) && peer_joined s
                && negb (String.eqb (mls_signer c) (hex_string (mls_public (crypto s))))) invalid;
  d ← claim_device c;
  _ ← guard_or (bool_decide (d = sender)) invalid;
  listed ← lists current sender;
  _ ← guard_or listed invalid;
  newer ← inv (extends r current);
  if (newer : bool) then Ok tt else older ← inv (extends current r); guard_or older invalid.
Definition authorize_epoch_relay (sender : DeviceDescriptor) (r : DeviceRoster) (s : DmSession) : check unit :=
  if is_ok (authorize_recovery_device sender r s) then Ok tt
  else if negb (awaiting_device_epoch s) then Err invalid
  else authorize_roster_relay s sender r.

(** [dedup_by] on the id: of equal neighbours the first stays. *)
Fixpoint dedup_from (last : option string) (l : list DeviceDescriptor) : list DeviceDescriptor :=
  match l with
  | [] => []
  | d :: l => if bool_decide (last = Some (device_id d)) then dedup_from last l else d :: dedup_from (Some (device_id d)) l
  end.
(** Whom this device may ask: every authorized client, or every device of the
    known rosters while it cannot tell who the clients are. *)
Definition recovery_candidates (s : DmSession) : check (list DeviceDescriptor) :=
  m ← ok_or (membership s) invalid;
  local ← ok_or (client (topology m) (hex_string (mls_public (crypto s)))) invalid;
  found ← (if awaiting_device_epoch s
           then try_fold (fun l r =>
                  current ← ok_or (current_roster m (user_id r)) invalid;
                  ds ← inv (devices_of current); Ok (l ++ ds)) [] (rosters (topology m))
           else try_fold (fun l c => d ← claim_device c; Ok (if authorized m d (claim_user c) then l ++ [d] else l)) [] (clients (topology m)));
  Ok (dedup_from None (sort_by_key String.le device_id (filter (fun d => device_id d <> i_device local) found))).

(** ** What is shown ([history/mod.rs], [recovery/mod.rs]) *)

Definition recent (rx now : N) : bool := (0 <? rx)%N && (saturating_sub now rx <? SOURCE_TIMEOUT_MS)%N.
Definition recovery_sync_state (now : N) (w : World) : option DmHistorySyncState :=
  m ← membership (w_dm w);
  r ← recovery m;
  if match epoch_of (w_dm w) with Some e => (e <? required_epoch r)%N | None => false end then Some WaitingForSource
  else if bool_decide (is_Some (source r))
  then Some (if recent (history_last_rx_ms w) now then Importing else WaitingForSource)
  else if (SOURCE_TIMEOUT_MS <=? saturating_sub now (last_rx_ms r))%N then Some WaitingForSource
  else if bool_decide (observed r = ∅) then None else Some Complete.
Definition history_sync_state (now : N) (w : World) : option DmHistorySyncState :=
  match recovery_sync_state now w with
  | Some x => Some x
  | None =>
      m ← membership (w_dm w);
      i ← history_import m;
      Some (if Recovery.complete (progress i) then Complete
            else if recent (history_last_rx_ms w) now then Importing else WaitingForSource)
  end.

(** ** Filing rows ([import.rs]) *)

Definition rows_for (records : list TextRecord) (w : World) : check (list (History.StoredMessage Calls.ChatMessage)) :=
  history_rows (s_id (w_dm w)) (topology <$> membership (w_dm w)) (messages (w_log w)) records.
(** Rows and membership are stored together before the session takes them. *)
Definition commit_history_rows (now : N) (m : DeviceMembership) (rows : list (History.StoredMessage Calls.ChatMessage)) : op unit :=
  in_dm asked;;;
  in_dm (put_membership m);;;
  m_modify (fun w => set_log (foldl (fun l row => file_row now random_hex row l) (w_log w) rows) w).
Definition commit_current_history (now : N) (m : DeviceMembership) : op unit :=
  rows <~ look (fun w => rows_for (omap from_message (messages (w_log w))) w);;
  commit_history_rows now m rows.

Definition ahead_of (s : DmSession) (epoch : option N) : option N :=
  e ← epoch; c ← epoch_of s; if (c <? e)%N then Some e else None.
(** The barrier: the sender's epoch must be known here, no epoch may be missing,
    and a sender too old to say its epoch must not know of a removal. *)
Definition require_history_epoch (now : N) (r : DeviceRoster) (epoch : option N) : op unit := fun w =>
  let s := w_dm w in
  match ahead_of s epoch with
  | None =>
      let removed := match m ← membership s; roster (topology m) (user_id r) with Some base => or_false (has_removal_since r base) | None => false end in
      (w, guard_or (negb (awaiting_device_epoch s || bool_decide (epoch = None) && removed)) invalid)
  | Some e =>
      (m <~ in_dm the_membership;;
       current <~ m_lift (ok_or (epoch_of s) invalid);;
       in_dm (save_membership (require_epoch e current now m));;;
       m_lift (Err invalid)) w
  end.

(** ** The first import of a linked device ([history/mod.rs], [source.rs], [import.rs]) *)

Definition history_request (s : DmSession) : option (string * DeviceMessage) :=
  m ← membership s;
  i ← history_import m;
  if Recovery.complete (progress i) then None
  else
    c ← client_of_device (topology m) (source_device_id i);
    d ← res_ok (claim_device c);
    Some (moss_peer_id d, MHistoryRequest (request_of (s_id s) i)).

Definition uncorrelated (m : Calls.ChatMessage) : bool :=
  match Calls.c_metadata m with
  | None => true
  | Some md => bool_decide (deletion md = None) && bool_decide (deletion_key md = None)
  end.
Definition correlate_exported_history (now : N) : op unit :=
  records <~ look (fun w => Ok (omap from_message (filter (fun m => uncorrelated m = true) (messages (w_log w)))));;
  if bool_decide (records = []) then m_ret tt
  else
    rows <~ look (rows_for records);;
    m <~ in_dm the_membership;;
    commit_history_rows now m rows.

Definition bad_start (q : HistoryRequest) : bool :=
  negb (hr_offset q =? 0)%N || negb (hr_body_offset q =? 0)%N || String.eqb (hr_request_id q) "" || (MAX_REQUEST_BYTES <? str_len (hr_request_id q))%N.
Definition history_export (now : N) (sender : DeviceDescriptor) (q : HistoryRequest) : op HistoryExport :=
  correlate_exported_history now;;;
  m <~ in_dm the_membership;;
  match find (fun e => String.eqb (recipient_device_id e) (device_id sender)) (history_exports m) with
  | Some e => m_lift (_ ← guard_or (String.eqb (he_request_id e) (hr_request_id q)) invalid; Ok e)
  | None =>
      m_lift (guard_or (negb (bad_start q)) invalid);;;
      e <~ look (fun w => freeze (messages (w_log w)) sender q);;
      in_dm (save_membership (with_history (history_import m) (history_exports m ++ [e]) (recovery_exports m) m));;;
      m_ret e
  end.
Definition receive_history_request (now : N) (i : Identity.DeviceIdentity) (sender : DeviceDescriptor) (r : DeviceRoster) (q : HistoryRequest) : op unit :=
  persistence;;;
  in_dm (session_ref (hr_session q));;;
  look (fun w => authorize_history_device i sender r (w_dm w));;;
  look (fun w => guard_or (negb (awaiting_device_epoch (w_dm w))) invalid);;;
  e <~ history_export now sender q;;
  epoch <~ look (fun w => Ok (epoch_of (w_dm w)));;
  b <~ m_lift (answer stored (fun b => fits_stream i (moss_peer_id sender) (MHistoryBatch b)) epoch q e);;
  send_packet i (moss_peer_id sender) (MHistoryBatch b).

Definition import_history_batch (now : N) (sender : DeviceDescriptor) (r : DeviceRoster) (b : HistoryBatch) : op unit :=
  m <~ in_dm the_membership;;
  i <~ m_lift (ok_or (history_import m) invalid);;
  m_lift (guard_or (String.eqb (source_device_id i) (device_id sender)) invalid);;;
  let '(i, records) := accept b i in
  records <~ m_lift records;;
  rows <~ look (rows_for records);;
  require_history_epoch now r (b_epoch b);;;
  commit_history_rows now (with_history (Some i) (history_exports m) (recovery_exports m) m) rows;;;
  m_modify (set_rx now).
Definition receive_history_batch (now : N) (i : Identity.DeviceIdentity) (sender : DeviceDescriptor) (r : DeviceRoster) (b : HistoryBatch) : op unit :=
  persistence;;;
  in_dm (session_ref (b_session b));;;
  look (fun w => authorize_history_device i sender r (w_dm w));;;
  import_history_batch now sender r b.

(** ** Rounds of recovery ([recovery/mod.rs], [source.rs], [import.rs]) *)

Definition recovery_manifest (w : World) : check string :=
  ks ← keys (messages (w_log w));
  b ← inv (keys_to_vec ks);
  Ok (hex_string (sha256 b)).
Definition new_recovery (now epoch : N) : Topology.Recovery :=
  {| round := 0; re_request_id := ""; started_ms := 0; last_rx_ms := now; required_epoch := epoch; source := None; observed := ∅ |}.
Definition begun (token : string) (now next : N) (r : Topology.Recovery) : Topology.Recovery :=
  {| round := next; re_request_id := token; started_ms := now; last_rx_ms := last_rx_ms r; required_epoch := required_epoch r; source := None;
     observed := observed r |}.

Definition recovery_probe_packets (p : RecoveryProbe) (s : DmSession) : check (list (string * DeviceMessage)) :=
  ds ← recovery_candidates s;
  Ok (map (fun d => (moss_peer_id d, MRecoveryProbe p)) ds).
Definition recovery_pull (r : Topology.Recovery) (s : DmSession) : check (string * DeviceMessage) :=
  src ← ok_or (source r) invalid;
  ds ← recovery_candidates s;
  d ← ok_or (find (fun d => String.eqb (device_id d) (rs_device_id src)) ds) invalid;
  epoch ← ok_or (epoch_of s) invalid;
  Ok (moss_peer_id d, MRecoveryPull {| pl_round := round r; pl_epoch := epoch; pl_request := request_of (s_id s) (rs_import src) |}).

Definition idle (m : DeviceMembership) (s : DmSession) : bool :=
  negb (live m) || revoked m || is_joining m || negb (peer_joined s)
  || (negb (awaiting_device_epoch s) && match history_import m with Some i => negb (Recovery.complete (progress i)) | None => false end).
(** [token]: what the random generator answers. *)
Definition recovery_packets (now : N) (token : check string) : op (list (string * DeviceMessage)) :=
  m <~ in_dm the_membership;;
  (fun w =>
    let s := w_dm w in
    if idle m s then (w, Ok [])
    else
      (m_lift (validate_topology (topology m) (s_id s) (mls_members (crypto s)));;;
       m_modify (fun w => if (recovery_boot_ms w =? 0)%N then set_boot now w else w);;;
       (fun w =>
         let r := default (new_recovery now (default 0%N (epoch_of s))) (recovery m) in
         if bool_decide (is_Some (source r)) && (saturating_sub now (N.max (last_rx_ms r) (recovery_boot_ms w)) <? SOURCE_TIMEOUT_MS)%N
         then if (saturating_sub now (recovery_pull_ms w) <? RETRY_MS)%N then (w, Ok [])
              else (w, p ← recovery_pull r s; Ok [p])
         else if bool_decide (source r = None) && (saturating_sub now (started_ms r) <? PROBE_MS)%N then (w, Ok [])
         else
           (next <~ m_lift (ok_or (checked_add64 (round r) 1) invalid);;
            token <~ m_lift token;;
            packets <~ m_lift (recovery_probe_packets {| pr_session := s_id s; pr_request := token; pr_round := next |} s);;
            in_dm (save_membership (with_recovery (Some (begun token now next r)) m));;;
            m_ret packets) w)) w).

Definition receive_recovery_probe (i : Identity.DeviceIdentity) (sender : DeviceDescriptor) (r : DeviceRoster) (p : RecoveryProbe) : op unit :=
  in_dm (session_ref (pr_session p));;;
  look (fun w => authorize_recovery_device sender r (w_dm w));;;
  m_lift (guard_or (negb (String.eqb (pr_request p) "" || (MAX_REQUEST_BYTES <? str_len (pr_request p))%N || (pr_round p =? 0)%N)) invalid);;;
  epoch <~ look (fun w => ok_or (epoch_of (w_dm w)) invalid);;
  manifest <~ look recovery_manifest;;
  send_packet i (moss_peer_id sender) (MRecoveryOffer {| of_probe := p; of_epoch := epoch; of_manifest := manifest |}).

(** The evidence of the epoch after the reader's. *)
Definition recovery_epoch_packet (p : RecoveryPull) (s : DmSession) : check DeviceMessage :=
  m ← ok_or (membership s) invalid;
  epoch ← ok_or (checked_add64 (pl_epoch p) 1) invalid;
  match find (fun e => (e_epoch e =? epoch)%N) (epoch_records m) with
  | Some e => Ok (MRecoveryEpoch {| rc_round := pl_round p; rc_request := hr_request_id (pl_request p); rc_evidence := e |})
  | None =>
      j ← ok_or (find (fun j => (rm_epoch (evidence j) =? epoch)%N) (removals m)) invalid;
      Ok (MRecoveryRemoval {| rr_round := pl_round p; rr_request := hr_request_id (pl_request p); rr_evidence := evidence j |})
  end.
Definition recovery_export (sender : DeviceDescriptor) (p : RecoveryPull) : op HistoryExport :=
  m <~ in_dm the_membership;;
  let q := pl_request p in
  let known := find (fun x => String.eqb (recipient_device_id (export x)) (device_id sender)) (recovery_exports m) in
  m_lift (guard_or (match known with Some x => (rx_round x <=? pl_round p)%N | None => true end) invalid);;;
  match (x ← known; if (rx_round x =? pl_round p)%N then Some x else None) with
  | Some x => m_lift (_ ← guard_or (String.eqb (he_request_id (export x)) (hr_request_id q)) invalid; Ok (export x))
  | None =>
      m_lift (guard_or (negb ((pl_round p =? 0)%N || bad_start q)) invalid);;;
      e <~ look (fun w => freeze (messages (w_log w)) sender q);;
      in_dm (save_membership (with_history (history_import m) (history_exports m)
        (filter (fun x => recipient_device_id (export x) <> device_id sender) (recovery_exports m) ++ [{| rx_round := pl_round p; export := e |}]) m));;;
      m_ret e
  end.
Definition receive_recovery_pull (i : Identity.DeviceIdentity) (sender : DeviceDescriptor) (r : DeviceRoster) (p : RecoveryPull) : op unit :=
  persistence;;;
  in_dm (session_ref (hr_session (pl_request p)));;;
  look (fun w => authorize_recovery_device sender r (w_dm w));;;
  epoch <~ look (fun w => ok_or (epoch_of (w_dm w)) invalid);;
  if (pl_epoch p <? epoch)%N
  then m <~ look (fun w => recovery_epoch_packet p (w_dm w));; send_packet i (moss_peer_id sender) m
  else
    look (fun w => guard_or (negb (awaiting_device_epoch (w_dm w))) invalid);;;
    e <~ recovery_export sender p;;
    let reply b := MRecoveryBatch {| rb_round := pl_round p; rb_batch := b |} in
    b <~ m_lift (answer stored (fun b => fits_stream i (moss_peer_id sender) (reply b)) (Some epoch) (pl_request p) e);;
    send_packet i (moss_peer_id sender) (reply b).

(** Best effort: what does not go out is asked again. *)
Definition pull_recovery (now : N) (i : Identity.DeviceIdentity) : op unit := fun w =>
  match (m ← membership (w_dm w); r ← recovery m; if bool_decide (is_Some (source r)) then Some r else None) with
  | None => (w, Ok tt)
  | Some r =>
      let '(w, sent) := (p <~ m_lift (recovery_pull r (w_dm w));; send_packet i p.1 p.2) w in
      (if is_ok sent then set_pull now w else w, Ok tt)
  end.

Definition heard (now : N) (r : Topology.Recovery) : Topology.Recovery :=
  {| round := round r; re_request_id := re_request_id r; started_ms := started_ms r; last_rx_ms := now; required_epoch := required_epoch r;
     source := source r; observed := observed r |}.
Definition follow (src : option RecoverySource) (r : Topology.Recovery) : Topology.Recovery :=
  {| round := round r; re_request_id := re_request_id r; started_ms := started_ms r; last_rx_ms := last_rx_ms r;
     required_epoch := required_epoch r; source := src; observed := observed r |}.
Definition observe (device manifest : string) (r : Topology.Recovery) : Topology.Recovery :=
  {| round := round r; re_request_id := re_request_id r; started_ms := started_ms r; last_rx_ms := last_rx_ms r;
     required_epoch := required_epoch r; source := source r; observed := <[ device := manifest ]> (observed r) |}.

Definition receive_recovery_offer (now : N) (i : Identity.DeviceIdentity) (sender : DeviceDescriptor) (ro : DeviceRoster) (o : RecoveryOffer) : op unit :=
  persistence;;;
  in_dm (session_ref (pr_session (of_probe o)));;;
  look (fun w => authorize_epoch_relay sender ro (w_dm w));;;
  m <~ in_dm the_membership;;
  r <~ m_lift (ok_or (recovery m) invalid);;
  m_lift (guard_or ((round r =? pr_round (of_probe o))%N && String.eqb (re_request_id r) (pr_request (of_probe o))
                    && (str_len (of_manifest o) =? 64)%N && is_ok (hex_decode (of_manifest o))) invalid);;;
  let r := raise_epoch (of_epoch o) r in
  if bool_decide (is_Some (source r)) then in_dm (save_membership (with_recovery (Some r) m))
  else
    epoch <~ look (fun w => ok_or (epoch_of (w_dm w)) invalid);;
    mine <~ look recovery_manifest;;
    let matches_local := String.eqb (of_manifest o) mine in
    let seen := bool_decide (observed r !! device_id sender = Some (of_manifest o)) in
    let r := if (epoch <? of_epoch o)%N || (negb matches_local && negb seen)
             then follow (Some {| rs_device_id := device_id sender; rs_epoch := of_epoch o; rs_import := new_import (re_request_id r) sender |}) r
             else observe (device_id sender) (of_manifest o) r in
    let next := with_recovery (Some (heard now r)) m in
    (if matches_local && negb seen then commit_current_history now next else commit_history_rows now next []);;;
    m_modify (set_rx 0);;;
    pull_recovery now i.

Definition with_import (i : HistoryImport) (s : RecoverySource) : RecoverySource :=
  {| rs_device_id := rs_device_id s; rs_epoch := rs_epoch s; rs_import := i |}.
Definition receive_recovery_batch (now : N) (i : Identity.DeviceIdentity) (sender : DeviceDescriptor) (ro : DeviceRoster) (b : RecoveryBatch) : op unit :=
  persistence;;;
  in_dm (session_ref (b_session (rb_batch b)));;;
  look (fun w => authorize_recovery_device sender ro (w_dm w));;;
  m <~ in_dm the_membership;;
  r <~ m_lift (ok_or (recovery m) invalid);;
  src <~ m_lift (ok_or (source r) invalid);;
  m_lift (guard_or ((round r =? rb_round b)%N && String.eqb (rs_device_id src) (device_id sender)) invalid);;;
  let '(import, records) := accept (rb_batch b) (rs_import src) in
  records <~ m_lift records;;
  rows <~ look (rows_for records);;
  require_history_epoch now ro (b_epoch (rb_batch b));;;
  look (fun w => guard_or (match epoch_of (w_dm w) with Some e => (rs_epoch src <=? e)%N | None => false end) invalid);;;
  let r := follow (Some (with_import import src)) r in
  let r := if Recovery.complete (progress import) then follow None (observe (device_id sender) (b_manifest (rb_batch b)) r) else r in
  commit_history_rows now (with_recovery (Some (heard now r)) m) rows;;;
  m_modify (set_rx now);;;
  pull_recovery now i.

(** ** Missed epochs ([recovery/epochs.rs], [revocation/recovery.rs]) *)

(** The time, in seconds, at which the commit is to be judged. *)
Definition validation_time (now : N) (e : EpochRecord) : check (option N) :=
  match admitted_at_ms e with
  | None => Ok None
  | Some t =>
      _ ← guard_or (negb ((t =? 0)%N || (saturating_add64 now CLOCK_SKEW_MS <? t)%N)) invalid;
      Ok (Some (t / 1000)%N)
  end.
Definition epoch_admission (e : EpochRecord) (m : DeviceMembership) : Admission :=
  {| ad_request := e_request e; ad_commit := e_commit e; ad_welcome := []; ad_tree := []; ad_topology := topology m; ad_group_id := e_group_id e;
     ad_epoch := e_epoch e; recovery_authorization := Some (authorization e) |}.
Definition raise_source (epoch : N) (s : RecoverySource) : RecoverySource :=
  {| rs_device_id := rs_device_id s; rs_epoch := N.max (rs_epoch s) epoch; rs_import := rs_import s |}.
(** The request, and the commit it led to, judged at the time of the commit. *)
Definition replay_admission (at_ : option N) (s : DmSession) (a : Admission) : check (C * DeviceMembership) :=
  _ ← verify_request (mls := mls_at at_) sha256 hex_decode content_to_vec roster_to_vec claim_to_vec (crypto s) (ad_request a);
  stage_admission (mls := mls_at at_) sha256 hex_decode content_to_vec roster_to_vec claim_to_vec s a.

Definition asked_of (sender : DeviceDescriptor) (round_ : N) (request : string) (r : Topology.Recovery) : check RecoverySource :=
  src ← ok_or (source r) invalid;
  _ ← guard_or (String.eqb (rs_device_id src) (device_id sender) && (round r =? round_)%N
                && String.eqb (Recovery.request_id (progress (rs_import src))) request) invalid;
  Ok src.
Definition receive_recovery_epoch (now : N) (i : Identity.DeviceIdentity) (sender : DeviceDescriptor) (ro : DeviceRoster) (x : RecoveryEpoch) : op unit :=
  let e := rc_evidence x in
  in_dm (session_ref (i_session (claim (e_request e))));;;
  look (fun w => authorize_epoch_relay sender ro (w_dm w));;;
  m <~ in_dm the_membership;;
  r <~ m_lift (ok_or (recovery m) invalid);;
  m_lift (asked_of sender (rc_round x) (rc_request x) r);;;
  look (fun w => guard_or (bool_decide ((n ← epoch_of (w_dm w); checked_add64 n 1) = Some (e_epoch e))
                           && bool_decide (mls_group (crypto (w_dm w)) = Some (e_group_id e))) invalid);;;
  author <~ m_lift (epoch_author e);;
  let a := epoch_admission e m in
  m_lift (verify_authorizer m author (e_roster e) a);;;
  at_ <~ m_lift (validation_time now e);;
  staged <~ look (fun w => replay_admission at_ (w_dm w) a);;
  next <~ m_lift (retain_epoch e staged.2);;
  r <~ m_lift (ok_or (recovery next) invalid);;
  src <~ m_lift (ok_or (source r) invalid);;
  in_dm (install_device_transition staged.1 (with_recovery (Some (follow (Some (raise_source (e_epoch e) src)) (heard now (raise_epoch (e_epoch e) r)))) next));;;
  m_modify (set_rx now);;;
  (fun w => ((in_dm (send_admission_ack (moss_peer_id author) a) w).1, Ok tt)).

Abbreviation adopt_own_removal := (Removal.adopt_own_removal sha256 hex_decode content_to_vec roster_to_vec delegation_to_vec identity_to_vec identity_from_slice generated).
Abbreviation send_removal_ack := (Removal.send_removal_ack sha256 removal_to_vec).
Definition receive_recovery_removal (now : N) (i : Identity.DeviceIdentity) (local : option string) (sender : DeviceDescriptor) (ro : DeviceRoster)
    (x : RecoveryRemoval) : op unit :=
  let e := rr_evidence x in
  in_dm (session_ref (rm_session e));;;
  look (fun w => authorize_removal_relay (w_dm w) sender ro);;;
  r <~ look (fun w => ok_or (m ← membership (w_dm w); recovery m) invalid);;
  m_lift (asked_of sender (rr_round x) (rr_request x) r);;;
  staged <~ look (fun w => stage_removal (w_dm w) e (device_id (own_device i)));;
  r <~ m_lift (ok_or (recovery staged.2) invalid);;
  src <~ m_lift (ok_or (source r) invalid);;
  in_dm (install_device_transition staged.1 (with_recovery (Some (follow (Some (raise_source (rm_epoch e) src)) (heard now r))) staged.2));;;
  in_pair (adopt_own_removal local e);;;
  m_modify (set_rx now);;;
  in_pair (send_removal_ack sender e).

(** ** One packet ([runtime.rs]) *)

Abbreviation authorize_device_join := (Topology.authorize_device_join sha256 hex_decode content_to_vec roster_to_vec claim_to_vec evidence_to_vec).
Abbreviation apply_device_admission := (Topology.apply_device_admission sha256 hex_decode content_to_vec roster_to_vec claim_to_vec evidence_to_vec).
Abbreviation acknowledge_device_admission := (Topology.acknowledge_device_admission sha256 hex_decode content_to_vec roster_to_vec).
Abbreviation receive_removal := (Removal.receive_removal sha256 hex_decode content_to_vec roster_to_vec claim_to_vec body_to_vec removal_to_vec
  delegation_to_vec identity_to_vec identity_from_slice generated).
Abbreviation acknowledge_removal := (Removal.acknowledge_removal sha256 hex_decode content_to_vec roster_to_vec removal_to_vec).
Abbreviation open_packet := (Packets.open sha256 hex_decode content_to_vec roster_to_vec).
Abbreviation packet_device := (Packets.packet_device sha256 hex_decode content_to_vec roster_to_vec).

(** What a message does to the session it is about; an offer opens a session and
    is about none. *)
Definition receive_message (now : N) (i : Identity.DeviceIdentity) (local : option string) (sender : DeviceDescriptor) (ro : DeviceRoster)
    (m : DeviceMessage) : option (op unit) :=
  match m with
  | MRemoval e => Some (in_pair (receive_removal i local sender ro e now))
  | MRemovalAck session epoch evidence => Some (in_pair (acknowledge_removal sender ro session epoch evidence))
  | MOffer _ => None
  | MJoin r => Some (in_dm (authorize_device_join i sender r now))
  | MAdmission a => Some (in_dm (apply_device_admission i sender ro a))
  | MHistoryRequest q => Some (receive_history_request now i sender ro q)
  | MHistoryBatch b => Some (receive_history_batch now i sender ro b)
  | MRecoveryProbe p => Some (receive_recovery_probe i sender ro p)
  | MRecoveryOffer o => Some (receive_recovery_offer now i sender ro o)
  | MRecoveryPull p => Some (receive_recovery_pull i sender ro p)
  | MRecoveryBatch b => Some (receive_recovery_batch now i sender ro b)
  | MRecoveryEpoch e => Some (receive_recovery_epoch now i sender ro e)
  | MRecoveryRemoval e => Some (receive_recovery_removal now i local sender ro e)
  | MAck session request epoch => Some (in_dm (acknowledge_device_admission sender ro session request epoch))
  end.

(** [receive_device_packet]: [local] is this node's id, [linked] whether the
    runtime has a device link.  No answer for an offer. *)
Abbreviation identity_open := (Identity.open sha256 hex_decode content_to_vec roster_to_vec delegation_to_vec identity_to_vec identity_from_slice).
Definition receive_device_packet (now : N) (linked : bool) (local : option string) (b : bytes) (w : World) : option (World * check unit) :=
  match w_store w, local with
  | Some st, Some peer =>
      if negb linked then Some (w, Err invalid)
      else
        let '(st, opened) := identity_open st generated peer in
        let w := set_pair (w_dm w, Some st) w in
        match (i ← inv opened; p ← open_packet b peer; sender ← packet_device p; Ok (i, p, sender)) with
        | Err e => Some (w, Err e)
        | Ok (i, p, sender) => h ← receive_message now i local sender (p_roster p) (p_message p); Some (h w)
        end
  | _, _ => Some (w, Err invalid)
  end.

(** ** What filing rows does to the log *)

(** Nothing is rewritten: a message stays where it is, up to its metadata, and
    keeps its deletion and its origin. *)
Definition log_grows (l l' : @MessageLog Calls.ChatMessage) : Prop :=
  forall (n : nat) (m : Calls.ChatMessage), messages l !! n = Some m -> exists md : option MessageMetadata, messages l' !! n = Some (cm_set_metadata md m) /\
    (md ≫= deletion) = (Calls.c_metadata m ≫= deletion) /\
    (forall o, (Calls.c_metadata m ≫= origin) = Some o -> (md ≫= origin) = Some o).
#[local] Instance log_grows_pre : PreOrder log_grows.
Proof.
  split.
  - intros l n m Hm. exists (Calls.c_metadata m). split; [by rewrite Hm; destruct m|done].
  - intros l1 l2 l3 H12 H23 n m Hm. destruct (H12 _ _ Hm) as (md & Hm2 & Hd & Ho). destruct (H23 _ _ Hm2) as (md' & Hm3 & Hd' & Ho').
    exists md'. split; [exact Hm3|]. split; [by rewrite Hd'|]. intros o Hmo. apply Ho'. by apply Ho.
Qed.

(** The same message but for its metadata. *)
Definition same_text (m m' : Calls.ChatMessage) : Prop := cm_set_metadata None m = cm_set_metadata None m'.

Lemma has_id_set md i m : has_id i (cm_set_metadata md m) = @has_id Calls.ChatMessage _ i m.
Proof. done. Qed.
Lemma known_replaced (l : list Calls.ChatMessage) n m md i : l !! n = Some m -> Calls.c_message_id m <> Some i ->
  find (has_id i) (<[n := cm_set_metadata md m]> l) = find (has_id i) l.
Proof.
  revert n. induction l as [|x l IH]; intros [|n] Hn Hi; cbn in Hn |- *; [done..| |].
  - injection Hn as ->. unfold has_id at 1 3. cbn. by rewrite bool_decide_eq_false_2.
  - rewrite IH by done. done.
Qed.
Lemma find_app {A} (p : A -> bool) l k : find p (l ++ k) = match find p l with Some x => Some x | None => find p k end.
Proof. induction l as [|x l IH]; [done|]. cbn. by destruct (p x). Qed.
Lemma known_index (l : list Calls.ChatMessage) i m : find (has_id i) l = Some m ->
  exists n, list_find (fun m => has_id i m = true) l = Some (n, m) /\ l !! n = Some m /\ Calls.c_message_id m = Some i.
Proof.
  intros Hf. induction l as [|x l IH]; [done|]. cbn in Hf |- *. destruct (has_id i x) eqn:Ex.
  - injection Hf as ->. exists 0. destruct (decide _); [|done]. split; [done|]. split; [done|]. by apply bool_decide_eq_true in Ex.
  - destruct (IH Hf) as (n & Hl & Hn & Hi). exists (S n). destruct (decide _); [done|]. by rewrite Hl.
Qed.
Lemma unknown_index (l : list Calls.ChatMessage) i : find (has_id i) l = None -> list_find (fun m => has_id i m = true) l = None.
Proof.
  induction l as [|x l IH]; [done|]. cbn. destruct (has_id i x) eqn:Ex; [done|]. intros Hf. destruct (decide _); [done|]. by rewrite IH.
Qed.

Abbreviation imported := (TextHistory.imported sha256 hex_decode).
Abbreviation file now row := (file_row now random_hex row).

(** A new row. *)
Lemma push_filed now md r l : tr_message_id r <> "" ->
  let m := cm_set_metadata md (into_message r) in
  messages (push_stamped now random_hex m l) = messages l \/ messages (push_stamped now random_hex m l) = messages l ++ [m].
Proof.
  intros Hi. cbn. unfold push_stamped, stamp. cbn. apply String.eqb_neq in Hi. rewrite Hi. cbn. unfold push. cbn.
  destruct (bool_decide _); [by left|by right].
Qed.
Lemma grows_by_push (l l' : @MessageLog Calls.ChatMessage) ms : messages l' = messages l ++ ms -> log_grows l l'.
Proof.
  intros He n m Hnm. exists (Calls.c_metadata m). rewrite He, (lookup_app_l_Some _ _ _ _ Hnm). split; [by destruct m|done].
Qed.
Lemma grows_by_nothing (l l' : @MessageLog Calls.ChatMessage) : messages l' = messages l -> log_grows l l'.
Proof. intros He. apply (grows_by_push _ _ []). by rewrite He, app_nil_r. Qed.

(** One row. *)
Lemma file_row_spec now session t log r row (l : @MessageLog Calls.ChatMessage) : imported session t log r row ->
  known_message (messages l) (tr_message_id r) = known_message log (tr_message_id r) ->
  let l' := file now row l in
  log_grows l l' /\ (forall i, i <> tr_message_id r -> known_message (messages l') i = known_message (messages l) i) /\
  (if bool_decide (is_Some (known_message log (tr_message_id r))) then length (messages l') = length (messages l)
   else messages l' = messages l \/ exists m, messages l' = messages l ++ [m] /\ same_text m (into_message r)).
Proof.
  intros [Hv _ [_ [_ Hid]] _ Hm] Hk. unfold file_row. rewrite Hid. unfold known_message in *.
  destruct (find (has_id (tr_message_id r)) log) as [base|] eqn:Ef; cbn [default from_option Datatypes.id] in Hm; destruct Hm as (Heq & Hd & Ho & _).
  - destruct (known_index _ _ _ Hk) as (n & Hl & Hn & Hi). rewrite Hl. unfold replace.
    pose proof (lookup_lt_Some _ _ _ Hn) as Hlt. rewrite (proj2 (Nat.ltb_lt _ _)) by done. cbn [default from_option messages].
    rewrite Heq. cbn [Datatypes.id messages]. rewrite (bool_decide_eq_true_2 (is_Some _)) by done.
    split; [|split; [|by rewrite length_insert]].
    + intros k m Hkm. cbn [messages]. destruct (decide (k = n)) as [->|Hne].
      * rewrite Hn in Hkm. injection Hkm as <-. rewrite list_lookup_insert_eq by done. eexists. split; [done|]. split; [exact Hd|].
        intros o Hmo. by rewrite Ho, Hmo.
      * rewrite list_lookup_insert_ne by done. exists (Calls.c_metadata m). split; [by rewrite Hkm; destruct m|done].
    + intros i Hne. apply known_replaced; [done|]. rewrite Hi. congruence.
  - rewrite (unknown_index _ _ Hk), Heq. apply guard_or_Ok, negb_true_iff, orb_false_iff in Hv as [Hv _]. apply orb_false_iff in Hv as [Hv%String.eqb_neq _].
    set (m := cm_set_metadata _ (into_message r)). destruct (push_filed now (Calls.c_metadata (History.h_message row)) r l Hv) as [He|He]; fold m in He; rewrite He.
    + split; [by apply grows_by_nothing|]. split; [done|by left].
    + split; [by eapply grows_by_push|]. split; [|right; by exists m].
      intros i Hne. rewrite find_app. destruct (find (has_id i) (messages l)); [done|]. cbn. unfold has_id. cbn.
      rewrite bool_decide_eq_false_2; [done|congruence].
Qed.

Lemma file_rows_spec now session t log records rows (l : @MessageLog Calls.ChatMessage) : Forall2 (imported session t log) records rows ->
  NoDup (map tr_message_id records) -> (forall r, r ∈ records -> known_message (messages l) (tr_message_id r) = known_message log (tr_message_id r)) ->
  let l' := foldl (fun l row => file now row l) l rows in
  log_grows l l' /\
  (forall n m, messages l' !! n = Some m -> length (messages l) <= n -> exists r, r ∈ records /\ same_text m (into_message r)) /\
  (Forall (fun r => is_Some (known_message log (tr_message_id r))) records -> length (messages l') = length (messages l)).
Proof.
  intros Hf. revert l. induction Hf as [|r row records rows Hr Hf IH]; intros l Hnd Hk; cbn [foldl].
  { split; [done|]. split; [|done]. intros n m Hn%lookup_lt_Some. lia. }
  apply NoDup_cons in Hnd as [Hnot Hnd].
  destruct (file_row_spec now _ _ _ _ _ l Hr (Hk _ (list_elem_of_here _ _))) as (Hg & Hother & Hlen).
  destruct (IH (file now row l) Hnd) as (Hg' & Hnew & Hlen').
  { intros r' Hin. rewrite Hother; [by apply Hk; right|]. intros He. apply Hnot. rewrite <-He. by apply list_elem_of_fmap_2. }
  split; [by etransitivity|]. split.
  - intros n m Hn Hle. destruct (decide (length (messages (file now row l)) <= n)) as [|Hlt].
    + destruct (Hnew n m Hn) as (r' & Hin & Hs); [done|]. exists r'. split; [by right|done].
    + destruct (bool_decide _); [lia|]. destruct Hlen as [He|(m0 & He & Hs)]; rewrite He in *; [lia|]. rewrite length_app in Hlt. cbn in Hlt.
      assert (n = length (messages l)) as -> by lia.
      destruct (Hg' (length (messages l)) m0) as (md & Hm & _); [rewrite He; by apply list_lookup_middle|].
      rewrite Hn in Hm. injection Hm as ->. exists r. split; [left|]. exact Hs.
  - intros Hall. apply Forall_cons in Hall as [Hr' Hall]. rewrite (Hlen' Hall). by rewrite bool_decide_eq_true_2 in Hlen.
Qed.

Lemma filed_grows now session t (l : @MessageLog Calls.ChatMessage) records rows :
  history_rows session t (messages l) records = Ok rows ->
  let l' := foldl (fun l row => file now row l) l rows in
  log_grows l l' /\
  (forall n m, messages l' !! n = Some m -> length (messages l) <= n -> exists r, r ∈ records /\ same_text m (into_message r)) /\
  (Forall (fun r => is_Some (known_message (messages l) (tr_message_id r))) records -> length (messages l') = length (messages l)).
Proof. intros [Hf Hnd]%rows_imported. by apply (file_rows_spec now session t (messages l) records). Qed.

(** ** What a handler leaves of the log *)

(** The log as it was, up to metadata. *)
Definition settled (w w' : World) : Prop :=
  log_grows (w_log w) (w_log w') /\ length (messages (w_log w')) = length (messages (w_log w)).
#[local] Instance settled_pre : PreOrder settled.
Proof.
  split; [by intros w|]. intros w1 w2 w3 [H1 L1] [H2 L2]. split; [by etransitivity|by rewrite L2].
Qed.
Definition settles {A} (m : op A) : Prop := forall w, settled w (m w).1.
Definition still {A} (m : op A) : Prop := forall w, (m w).1 = w.

Lemma same_log w w' : w_log w' = w_log w -> settled w w'.
Proof. intros H. unfold settled. by rewrite H. Qed.
Lemma still_settles {A} (m : op A) : still m -> settles m.
Proof. intros H w. by rewrite H. Qed.
Lemma settles_bind {A B} (m : op A) (f : A -> op B) : settles m -> (forall a, settles (f a)) -> settles (m_bind m f).
Proof.
  intros Hm Hf w. specialize (Hm w). unfold m_bind. destruct (m w) as [w1 [a|e]]; [|exact Hm]. etransitivity; [exact Hm|apply Hf].
Qed.
Lemma settles_in_dm {A} (m : method DmSession PrivateDmRuntimeError A) : settles (in_dm m).
Proof. intros w. apply same_log. unfold in_dm. by destruct (m (w_dm w)). Qed.
Lemma settles_in_pair {A} (m : method (DmSession * option St) PrivateDmRuntimeError A) : settles (in_pair m).
Proof. intros w. apply same_log. unfold in_pair. by destruct (m (w_dm w, w_store w)). Qed.
Lemma settles_modify f : (forall w, w_log (f w) = w_log w) -> settles (m_modify f : op unit).
Proof. intros H w. apply same_log, H. Qed.
Lemma settles_ignored {A} (m : op A) : settles m -> settles (fun w => ((m w).1, Ok tt) : World * check unit).
Proof. intros H w. apply H. Qed.
Lemma still_lift {A} (r : check A) : still (m_lift r).
Proof. done. Qed.
Lemma still_ret {A} (a : A) : still (m_ret a : op A).
Proof. done. Qed.
Lemma still_look {A} (f : World -> check A) : still (look f).
Proof. done. Qed.
Lemma set_dm_same w : set_dm (w_dm w) w = w.
Proof. by destruct w. Qed.
Lemma still_session id : still (in_dm (session_ref id)).
Proof. intros w. cbn. apply set_dm_same. Qed.
Lemma still_membership : still (in_dm the_membership).
Proof. intros w. cbn. apply set_dm_same. Qed.
Create HintDb history.
Hint Resolve still_lift still_ret still_look still_session still_membership : history.
Hint Resolve still_settles settles_in_dm settles_in_pair settles_ignored : history.

(** Handlers are sequences of such steps. *)
Ltac settle := repeat first
  [ solve [auto with history]
  | apply settles_bind; [|intros ?]
  | apply settles_modify; intros ?; solve [done|by destruct (_ =? _)%N]
  | match goal with |- settles (if ?c then _ else _) => destruct c | |- settles (match ?c with _ => _ end) => destruct c end ].

(** What holds after a sequence whose first step leaves the world alone. *)
Lemma via {A B} (P : World -> Prop) (m : op A) (f : A -> op B) w : still m -> P w -> (forall a, (m w).2 = Ok a -> P (f a w).1) ->
  P (m_bind m f w).1.
Proof.
  intros Hm Hw Hf. specialize (Hm w). unfold m_bind. destruct (m w) as [w1 [a|e]]; cbn in Hm; subst w1; [|done]. by apply Hf.
Qed.
Lemma settles_via {A B} (m : op A) (f : A -> op B) : still m -> (forall w a, (m w).2 = Ok a -> settled w (f a w).1) -> settles (m_bind m f).
Proof. intros Hm Hf w. apply via; [done|done|]. apply Hf. Qed.

Lemma send_packet_settles i peer m : settles (send_packet i peer m).
Proof. unfold send_packet. settle. Qed.
Hint Resolve send_packet_settles : history.
Lemma pull_recovery_settles now i : settles (pull_recovery now i).
Proof.
  intros w. unfold pull_recovery. destruct (m ← _; _) as [r|]; [|done].
  assert (Hs : settles (p <~ m_lift (recovery_pull r (w_dm w));; send_packet i p.1 p.2)) by settle.
  specialize (Hs w). destruct (m_bind _ _ w) as [w1 s]. by destruct (is_ok s).
Qed.
Hint Resolve pull_recovery_settles : history.

(** ** Handlers that bring no message *)

Lemma save_settles m : settles (in_dm (save_membership m)).
Proof. apply settles_in_dm. Qed.
Lemma commit_filed now m rows w : settled w (commit_history_rows now m rows w).1 \/
  w_log (commit_history_rows now m rows w).1 = foldl (fun l row => file now row l) (w_log w) rows.
Proof.
  unfold commit_history_rows, m_bind. pose proof (settles_in_dm asked w) as Ha. destruct (in_dm asked w) as [w1 [a|e]] eqn:E1; [|by left].
  right. unfold in_dm in E1. destruct (asked (w_dm w)); injection E1 as <- _. done.
Qed.
Lemma rows_imported_for records w rows : rows_for records w = Ok rows ->
  Forall2 (imported (s_id (w_dm w)) (topology <$> membership (w_dm w)) (messages (w_log w))) records rows.
Proof. unfold rows_for. by intros [Hf _]%rows_imported. Qed.

Definition known_here (w : World) (r : TextRecord) : Prop := is_Some (known_message (messages (w_log w)) (tr_message_id r)).
Lemma own_known l w : l ⊆ messages (w_log w) -> Forall (known_here w) (omap from_message l).
Proof.
  intros Hl. apply Forall_forall. intros r (m & Hin%Hl & Hr)%list_elem_of_omap.
  unfold known_here, known_message. destruct (find _ _) eqn:Ef; [done|]. exfalso.
  apply list_elem_of_In in Hin. pose proof (find_none _ _ Ef m Hin) as Hid. unfold from_message in Hr.
  destruct (Calls.c_attachment m), (Calls.call_event m); try done. destruct (Calls.c_message_id m) as [i|] eqn:Ei; [|done]. cbn in Hr.
  destruct (Calls.c_sent_at_ms m); [|done]. injection Hr as <-. cbn in Hid. unfold has_id in Hid. cbn in Hid. rewrite Ei in Hid.
  by rewrite bool_decide_eq_true_2 in Hid.
Qed.
Lemma commit_own now m records w rows : rows_for records w = Ok rows -> Forall (known_here w) records ->
  settled w (commit_history_rows now m rows w).1.
Proof.
  intros Hr Hk. destruct (commit_filed now m rows w) as [|Hl]; [done|]. unfold settled. rewrite Hl.
  destruct (filed_grows now _ _ _ _ _ Hr) as (Hg & _ & Hlen). split; [done|]. by apply Hlen.
Qed.
Lemma commit_current_settles now m : settles (commit_current_history now m).
Proof.
  apply settles_via; [apply still_look|]. intros w rows Hr. eapply commit_own; [exact Hr|]. by apply own_known.
Qed.
Lemma correlate_settles now : settles (correlate_exported_history now).
Proof.
  apply settles_via; [apply still_look|]. intros w records [= <-]. destruct (bool_decide _); [done|].
  apply via; [apply still_look|done|]. intros rows Hr. apply via; [apply still_membership|done|]. intros m _. eapply commit_own; [exact Hr|]. apply own_known.
  by intros x [_ Hx]%list_elem_of_filter.
Qed.
Lemma commit_nothing now m : settles (commit_history_rows now m []).
Proof. unfold commit_history_rows. settle. Qed.
Hint Resolve commit_current_settles correlate_settles commit_nothing : history.

Lemma export_settles now sender q : settles (history_export now sender q).
Proof. unfold history_export. settle. Qed.
Lemma recovery_export_settles sender p : settles (recovery_export sender p).
Proof. unfold recovery_export. settle. Qed.
Hint Resolve export_settles recovery_export_settles : history.
Lemma request_settles now i sender r q : settles (receive_history_request now i sender r q).
Proof. unfold receive_history_request. settle. Qed.
Lemma probe_settles i sender r p : settles (receive_recovery_probe i sender r p).
Proof. unfold receive_recovery_probe. settle. Qed.
Lemma pull_settles i sender r p : settles (receive_recovery_pull i sender r p).
Proof. unfold receive_recovery_pull. settle. Qed.
Lemma offer_settles now i sender r o : settles (receive_recovery_offer now i sender r o).
Proof. unfold receive_recovery_offer. settle. Qed.
Lemma epoch_settles now i sender r e : settles (receive_recovery_epoch now i sender r e).
Proof. unfold receive_recovery_epoch. settle. Qed.
Lemma recovered_removal_settles now i local sender r e : settles (receive_recovery_removal now i local sender r e).
Proof. unfold receive_recovery_removal. settle. Qed.
Hint Resolve request_settles probe_settles pull_settles offer_settles epoch_settles recovered_removal_settles : history.

(** ** The barrier *)

(** The import a batch continues, and the device it is asked of. *)
Definition awaited (m : DeviceMessage) (s : DmSession) : option (string * HistoryImport) :=
  match m with
  | MHistoryBatch _ => m ← membership s; i ← history_import m; Some (source_device_id i, i)
  | MRecoveryBatch _ => m ← membership s; r ← recovery m; src ← source r; Some (rs_device_id src, rs_import src)
  | _ => None
  end.
Definition authorizes (i : Identity.DeviceIdentity) (sender : DeviceDescriptor) (ro : DeviceRoster) (m : DeviceMessage) (s : DmSession) : check unit :=
  match m with MHistoryBatch _ => authorize_history_device i sender ro s | _ => authorize_recovery_device sender ro s end.

(** Why the message [x] may be in the log. *)
Record let_in (i : Identity.DeviceIdentity) (sender : DeviceDescriptor) (ro : DeviceRoster) (m : DeviceMessage) (w : World) (x : Calls.ChatMessage) : Prop := {
  li_sender : authorizes i sender ro m (w_dm w) = Ok tt;
  li_epochs : awaiting_device_epoch (w_dm w) = false;
  li_batch : exists b import import' records r,
    batch_in m = Some b /\ b_session b = s_id (w_dm w) /\ ahead_of (w_dm w) (b_epoch b) = None /\
    awaited m (w_dm w) = Some (device_id sender, import) /\ accept b import = (import', Ok records) /\ r ∈ records /\
    validate_content sha256 hex_decode (dm_context (s_id (w_dm w))) r = Ok tt /\ same_text x (into_message r);
}.
Record guarded (i : Identity.DeviceIdentity) (sender : DeviceDescriptor) (ro : DeviceRoster) (m : DeviceMessage) (w w' : World) : Prop := {
  gd_grows : log_grows (w_log w) (w_log w');
  gd_new : forall n x, messages (w_log w') !! n = Some x -> length (messages (w_log w)) <= n -> let_in i sender ro m w x;
}.
Lemma settled_guarded i sender ro m w w' : settled w w' -> guarded i sender ro m w w'.
Proof. intros [Hg Hl]. split; [done|]. intros n x Hn%lookup_lt_Some. lia. Qed.
Lemma guarded_after i sender ro m w w1 w2 : guarded i sender ro m w w1 -> settled w1 w2 -> guarded i sender ro m w w2.
Proof.
  intros [Hg Hn] [Hg' Hl]. split; [by etransitivity|]. intros n x Hx Hle.
  pose proof (lookup_lt_Some _ _ _ Hx) as Hlt. rewrite Hl in Hlt. destruct (lookup_lt_is_Some_2 _ _ Hlt) as [y Hy].
  destruct (Hg' _ _ Hy) as (md & Hz & _). rewrite Hx in Hz. injection Hz as ->.
  destruct (Hn _ _ Hy Hle) as [Hs He (b & im & im' & rs & r & H1 & H2 & H3 & H4 & H5 & H6 & H7 & H8)].
  split; [done|done|]. by exists b, im, im', rs, r.
Qed.
Lemma guarded_then {A} i sender ro m w (f : op A) (g : op unit) : guarded i sender ro m w (f w).1 -> settles g ->
  guarded i sender ro m w (m_bind f (fun _ => g) w).1.
Proof. intros Hf Hg. unfold m_bind. destruct (f w) as [w1 [a|e]]; [|done]. eapply guarded_after; [exact Hf|apply Hg]. Qed.

Lemma require_settles now r e : settles (require_history_epoch now r e).
Proof.
  intros w. unfold require_history_epoch. destruct (ahead_of _ _); [|done].
  assert (Hs : settles (m <~ in_dm the_membership;; current <~ m_lift (ok_or (epoch_of (w_dm w)) invalid);;
    in_dm (save_membership (require_epoch n current now m));;; m_lift (Err invalid : check unit))) by settle.
  apply Hs.
Qed.
Lemma require_Ok now r e w : (require_history_epoch now r e w).2 = Ok tt ->
  (require_history_epoch now r e w).1 = w /\ ahead_of (w_dm w) e = None /\ awaiting_device_epoch (w_dm w) = false.
Proof.
  unfold require_history_epoch. destruct (ahead_of (w_dm w) e) as [n|].
  - unfold m_bind. destruct (in_dm the_membership w) as [w1 [m|x]]; [|done]. cbn. destruct (ok_or _ _) as [c|x]; [|done].
    by destruct (in_dm _ w1) as [w2 [[]|x]].
  - cbn. intros Hg%guard_or_Ok%negb_true_iff. apply orb_false_iff in Hg as [Hg _]. done.
Qed.

(** What files these rows, if anything. *)
Definition files (now : N) (rows : list (History.StoredMessage Calls.ChatMessage)) (g : op unit) (w : World) : Prop :=
  settled w (g w).1 \/ exists w1, w_log w1 = foldl (fun l row => file now row l) (w_log w) rows /\ settled w1 (g w).1.
Lemma files_commit now next rows k w : settles k -> files now rows (commit_history_rows now next rows;;; k) w.
Proof.
  intros Hk. unfold files, m_bind. pose proof (commit_filed now next rows w) as H. destruct (commit_history_rows now next rows w) as [w1 [[]|e]]; cbn in *.
  - destruct H as [H|H]; [left; by etransitivity|right; by exists w1].
  - destruct H as [H|H]; [by left|right; by exists w1].
Qed.
Lemma files_look {A} now rows (f : World -> check A) g w : (forall a, files now rows (g a) w) -> files now rows (m_bind (look f) g) w.
Proof. intros H. unfold files, m_bind, look. destruct (f w); [apply H|by left]. Qed.

(** The page, once its import is known and its sender authorized. *)
Lemma page_guarded now i sender ro m w b import import' records rows (g : op unit) :
  authorizes i sender ro m (w_dm w) = Ok tt -> batch_in m = Some b -> b_session b = s_id (w_dm w) ->
  awaited m (w_dm w) = Some (device_id sender, import) -> accept b import = (import', Ok records) -> rows_for records w = Ok rows ->
  files now rows g w -> guarded i sender ro m w (m_bind (require_history_epoch now ro (b_epoch b)) (fun _ => g) w).1.
Proof.
  intros Ha Hb Hs Hw Hacc Hr Hk. unfold m_bind at 1. pose proof (require_settles now ro (b_epoch b) w) as Hq.
  pose proof (require_Ok now ro (b_epoch b) w) as Hok. destruct (require_history_epoch now ro (b_epoch b) w) as [w1 [[]|e]]; [|by apply settled_guarded].
  destruct (Hok eq_refl) as (He & Hah & Haw). cbn in He. subst w1.
  destruct Hk as [Hk|(w1 & Hc & Hk)]; [by apply settled_guarded|]. eapply guarded_after; [|exact Hk].
  destruct (filed_grows now _ _ _ _ _ Hr) as (Hg & Hnew & _). split; rewrite Hc; [done|]. intros n x Hx Hle.
  destruct (Hnew n x Hx Hle) as (r & Hin & Hst). split; [done|done|]. exists b, import, import', records, r.
  repeat (split; [done|]). split; [|done].
  apply list_elem_of_lookup in Hin as [k' Hk']. destruct (Forall2_lookup_l _ _ _ _ _ (rows_imported_for _ _ _ Hr) Hk') as (row & _ & Hrow).
  by apply Hrow.
Qed.

Lemma settles_guarded i sender ro m w (h : op unit) : settles h -> guarded i sender ro m w (h w).1.
Proof. intros H. apply settled_guarded, H. Qed.
Lemma guarded_self i sender ro m w : guarded i sender ro m w w.
Proof. by apply settled_guarded. Qed.
Lemma session_named id w : (in_dm (session_ref id) w).2 = Ok tt -> id = s_id (w_dm w).
Proof. cbn. by intros ?%guard_or_Ok%String.eqb_eq. Qed.
Lemma membership_named m w : (in_dm the_membership w).2 = Ok m -> membership (w_dm w) = Some m.
Proof. cbn. by intros ?%ok_or_Ok. Qed.

Lemma history_batch_guarded now i sender ro b w : guarded i sender ro (MHistoryBatch b) w (receive_history_batch now i sender ro b w).1.
Proof.
  pose proof (guarded_self i sender ro (MHistoryBatch b) w) as Hself. unfold receive_history_batch, persistence.
  do 3 (apply via; [auto with history|exact Hself|intros [] ?]). rename H0 into Hs, H1 into Ha. apply session_named in Hs. cbn in Ha.
  unfold import_history_batch. apply via; [auto with history|exact Hself|]. intros m Hm%membership_named.
  apply via; [auto with history|exact Hself|]. intros im Him%ok_or_Ok. apply via; [auto with history|exact Hself|]. intros [] Hsrc%guard_or_Ok%String.eqb_eq.
  destruct (accept b im) as [im' records'] eqn:Eacc. apply via; [auto with history|exact Hself|]. intros records Hrec. cbn in Hrec. subst records'.
  apply via; [auto with history|exact Hself|]. intros rows Hrows. cbn in Hrows.
  eapply page_guarded; [done|done|done| |done|done|].
  - cbn. rewrite Hm. cbn. rewrite Him. cbn. by rewrite Hsrc.
  - apply files_commit. settle.
Qed.
Lemma recovery_batch_guarded now i sender ro b w : guarded i sender ro (MRecoveryBatch b) w (receive_recovery_batch now i sender ro b w).1.
Proof.
  pose proof (guarded_self i sender ro (MRecoveryBatch b) w) as Hself. unfold receive_recovery_batch, persistence.
  do 3 (apply via; [auto with history|exact Hself|intros [] ?]). rename H0 into Hs, H1 into Ha. apply session_named in Hs. cbn in Ha.
  apply via; [auto with history|exact Hself|]. intros m Hm%membership_named.
  apply via; [auto with history|exact Hself|]. intros r Hr%ok_or_Ok. apply via; [auto with history|exact Hself|]. intros src Hsrc%ok_or_Ok.
  apply via; [auto with history|exact Hself|]. intros [] [_ Hdev%String.eqb_eq]%guard_or_Ok%andb_true_iff.
  destruct (accept (rb_batch b) (rs_import src)) as [im' records'] eqn:Eacc. apply via; [auto with history|exact Hself|].
  intros records Hrec. cbn in Hrec. subst records'. apply via; [auto with history|exact Hself|]. intros rows Hrows. cbn in Hrows.
  eapply page_guarded; [done|done|done| |done|done|].
  - cbn. rewrite Hm. cbn. rewrite Hr. cbn. rewrite Hsrc. cbn. by rewrite Hdev.
  - apply files_look. intros _. cbv zeta. apply files_commit. settle.
Qed.

Lemma message_guarded now i local sender ro m h w : receive_message now i local sender ro m = Some h -> guarded i sender ro m w (h w).1.
Proof.
  intros Hm. destruct m; try discriminate Hm; injection Hm as <-;
    first [apply history_batch_guarded|apply recovery_batch_guarded|apply settles_guarded; auto with history].
Qed.
Lemma let_in_pair i sender ro m w p x : p.1 = w_dm w -> let_in i sender ro m (set_pair p w) x -> let_in i sender ro m w x.
Proof.
  intros Hp [H1 H2 (b & im & im' & rs & r & Hb & Hs & Ha & Hw & Hc & Hin & Hv & Ht)]. cbn in *. rewrite Hp in *.
  split; [done|done|]. by exists b, im, im', rs, r.
Qed.

End History.

(** ** Examples: the friend recovers a note from the phone *)

#[local] Existing Instances Store.plain_cell toy_mls note_codec Deletion.toy_json Erasure.toy_json'.

Abbreviation friend_peer := (hex_string (pad32 [x15])).
Definition phone_import : HistoryImport := new_import "r" phone.
Definition recovering : Topology.Recovery :=
  {| round := 1; re_request_id := "r"; started_ms := 1; last_rx_ms := 1; required_epoch := 1;
     source := Some {| rs_device_id := device_id phone; rs_epoch := 1; rs_import := phone_import |}; observed := ∅ |}.
Definition friend_dm : @DmSession (N * list string) :=
  let s := Topology.in_dm met (1%N, met_signers) None [] in
  (put_membership (with_recovery (Some recovering) (the_member s)) s).1.
Definition empty_world : @World (N * list string) Store.Persistence :=
  {| w_dm := friend_dm; w_store := Some (Store.new_store []); w_log := default_log; history_last_rx_ms := 0; recovery_boot_ms := 0;
     recovery_pull_ms := 0; w_out := [] |}.
Definition phone_page : RecoveryBatch :=
  {| rb_round := 1; rb_batch :=
    {| b_session := "dm"; b_epoch := Some 1%N; b_request_id := "history-r"; b_offset := 0; b_total := 1;
       b_manifest := hex_string (pad32 [x07]); b_records := [note "a"]; b_fragment := None |} |}.
Definition page_packet (sig : string) : DevicePacket :=
  {| p_roster := one_device; p_sender := device_id phone; p_recipient := friend_peer; p_message := MRecoveryBatch phone_page; p_signature := sig; p_metadata := None |}.
(** The wire of this example knows that packet only. *)
#[local] Instance page_json : PacketJson := {|
  body_to_vec b := Ok (String.list_byte_of_string b.1.1.2);
  metadata_to_vec _ := Err "unknown";
  packet_to_vec _ := Err "unknown";
  packet_from_slice b := Ok (page_packet (String.string_of_list_byte b));
  stream_to_vec _ := Err "unknown";
  stream_encode b := hex_string b;
|}.
Definition page_bytes : bytes :=
  match Packets.packet_bytes (page_packet "") with
  | Ok b => String.list_byte_of_string (hex_string (sign [x01] b)) | Err _ => [] end.
Abbreviation received := (receive_device_packet (mls_at := fun _ => toy_mls) toy_sha hex_bytes toy_content toy_roster_bytes toy_claim toy_evidence Removal.toy_body Removal.toy_removal
  (fun _ => Ok []) Identity.toy_delegation (fun _ => Ok [x01]) (fun _ => Ok (Identity.record friend)) [x05] note_stored "" 7 true (Some friend_peer) page_bytes empty_world).

End DeviceHistory.
