(* ===== verification/Serving.v ===== *)
(** * Serving: answering other devices' requests for chunks
      ([conversation/transfer_serving.rs], the serving half of [transfer.rs] and
      [transfer_execution.rs], [attachment_runtime/execution.rs])

    A request is answered when it is signed by the device that will receive
    the bytes, belongs to an upload the user admitted, and the platform lets
    the app work; otherwise it waits, bounded in number and in time.  A
    receiver that has everything says so until the sender acknowledges.  The
    last part puts the operations of this file and of Transfer together. *)
From S2P Require Import Prelude Values Store Devices Messages Attachments Slots Fragments Deletion Erasure Rows Ledger CallButtons.
From S2P Require Import UserTransfers History Files Transfer.

Module Serving.
Import Store Deletion Erasure Rows Ledger Transfer.
Import (hints) UserTransfers Slots Attachments CallButtons.

#[local] Open Scope mosh_scope.
#[local] Set Default Proof Using "Type".

(** ** Signed requests ([attachment_runtime/execution.rs]) *)

Definition set_proof (p : option Messages.MessageOrigin) (x : RequestExecution) : RequestExecution :=
  {| token := token x; phase := phase x; receiver := receiver x; proof := p; x_expires_ms := x_expires_ms x |}.
Definition with_execution (x : RequestExecution) (q : ChunkRequest) : ChunkRequest := {| chunk := chunk q; execution := Some x |}.

Definition transfer_context (target : Ref) : string :=
  "transfer:" +:+ match CallButtons.kind target with
                  | CallButtons.Dm => "dm" | CallButtons.Group => "group" | CallButtons.Channel => "channel"
                  end +:+ ":" +:+ CallButtons.ref_id target.

Definition well_formed (now : N) (q : ChunkRequest) (x : RequestExecution) : bool :=
  (str_len (token x) =? 32)%N
  && forallb (fun a => Files.is_ascii_hexdigit (byte_at a)) (String.list_ascii_of_string (token x))
  && (now <=? x_expires_ms x)%N && (x_expires_ms x <=? saturating_add64 now 180000)%N
  && (length (rq_indices q) <=? 256)%nat && (str_len (receiver x) <=? 64)%N
  && (bool_decide (phase x = Request) || bool_decide (rq_indices q = [])).

Definition set_pendings (m : gmap (string * string * string) Pending) (s : Serving) : Serving :=
  {| pending := m; tokens := tokens s; receipts := receipts s; replies := replies s; served := served s |}.
Definition set_replies (l : list ChunkRequest) (s : Serving) : Serving :=
  {| pending := pending s; tokens := tokens s; receipts := receipts s; replies := l; served := served s |}.
Definition set_served (m : gmap string (gset N)) (s : Serving) : Serving :=
  {| pending := pending s; tokens := tokens s; receipts := receipts s; replies := replies s; served := m |}.
Definition with_indices (l : list N) (p : Pending) : Pending :=
  {| p_request := {| chunk := {| Attachments.cr_attachment_id := rq_attachment (p_request p); Attachments.chunk_indices := l |};
                     execution := execution (p_request p) |};
     expires := expires p |}.
Definition SERVING_BOUND : nat := 64.
Definition PENDING_LIFE : N := 120000000000.

Section Serving.
Context {aes : Aes} {rows : RowJson} {scheme : Devices.Ed25519} {json : DeletionJson} {json' : ErasureJson}.
Context {record_codec : RowCodec UserTransfers.TransferRecord} {current_codec : RowCodec UserTransfers.Current}
        {chunk_codec : RowCodec ChunkFrame}.
Variable chunk_encrypt chunk_decrypt : bytes -> bytes -> bytes -> result string bytes.
Variable sha256 : bytes -> bytes.
Variable hex_decode : string -> result string bytes.
Variable request_to_vec : ChunkRequest -> result string bytes.
Variable path_text : Files.Path -> string.

Definition signing_bytes (q : ChunkRequest) : result string bytes :=
  x ← ok_or (execution q) "missing transfer execution";
  request_to_vec (with_execution (set_proof None x) q).

Definition verify_execution (ctx : string) (now : N) (q : ChunkRequest) : result string (option string) :=
  match execution q with
  | None => Ok None
  | Some x =>
      _ ← guard_or (well_formed now q x) "invalid transfer request";
      p ← ok_or (proof x) "unsigned transfer execution";
      b ← signing_bytes q;
      _ ← Deletion.origin_verify sha256 hex_decode p ctx (token x) b;
      _ ← guard_or (bool_decide (phase x = Ack) || String.eqb (receiver x) (Messages.author p)) "transfer receiver signer mismatch";
      Ok (Some (Messages.author p))
  end.

Definition sign_execution (now : N) (author : string) (sign : string -> bytes -> result string Messages.MessageOrigin) (q : ChunkRequest)
  : result string ChunkRequest :=
  match execution q with
  | None => Ok q
  | Some x =>
      let x := {| token := token x; phase := phase x;
                  receiver := if bool_decide (phase x = Ack) then receiver x else author;
                  proof := proof x; x_expires_ms := saturating_add64 now 120000 |} in
      b ← signing_bytes (with_execution x q);
      p ← sign (token x) b;
      Ok (with_execution (set_proof (Some p) x) q)
  end.

(** ** Chunks of a file that was sent ([transfer.rs]) *)

(** A sender restored after a restart loads its file for the first request. *)
Definition serve_admitted (q : ChunkRequest) (w : World) : World * list ChunkFrame :=
  let i := rq_attachment q in
  let serve (w : World) :=
    match on_runtime (Attachments.serve_chunks chunk_encrypt b64_encode (chunk q)) w with
    | (w, Ok frames) => (w, frames)
    | (w, Err _) => (w, [])
    end in
  match restored_outgoing (own w) !! i with
  | None => serve w
  | Some m =>
      match (b <~ on_files (Files.read_blob (Attachments.content_hash m) (Attachments.file_name m));;
             on_runtime (Attachments.restore_outgoing sha256 b64_decode m b)) w with
      | (w, Err _) => (w, [])
      | (w, Ok _) => serve (upd (fun t => set_restored (delete i (restored_outgoing t)) t) w)
      end
  end.

(** ** Who is answered ([transfer_serving.rs]) *)

Definition same_token (receipt q : ChunkRequest) : bool :=
  match execution receipt, execution q with Some x, Some y => String.eqb (token x) (token y) | _, _ => false end.
Definition accept_completion_ack (q : ChunkRequest) (author : string) (w : World) : World :=
  let i := rq_attachment q in
  match manifest_for i (own w) ≫= Attachments.m_origin with
  | None => w
  | Some origin =>
      if negb (String.eqb (Messages.author origin) author) then w
      else
        match (c ← t_execution (own w); receipts (serving c) !! i) with
        | None => w
        | Some x =>
            if same_token x.1.1 q
            then upd_execution (fun c => set_serving (set_receipts (delete i (receipts (serving c))) (serving c)) c) w else w
        end
  end.

Definition ack_of (q : ChunkRequest) (x : RequestExecution) : ChunkRequest :=
  with_execution {| token := token x; phase := Ack; receiver := receiver x; proof := None; x_expires_ms := x_expires_ms x |} q.
Definition push_reply (a : ChunkRequest) (c : Execution) : Execution :=
  if (length (replies (serving c)) <? SERVING_BOUND)%nat
  then set_serving (set_replies (replies (serving c) ++ [a]) (serving c)) c else c.
Definition live_pending (env : Env) (m : gmap (string * string * string) Pending) : gmap (string * string * string) Pending :=
  filter (fun kv => (now env <? expires kv.2)%N = true) m.

Definition remember (env : Env) (a : Admission) (x : RequestExecution) (complete : bool) : tw unit :=
  on_base (UserTransfers.remember_user_transfer_receiver (a_id a) (receiver x) (token x) (x_expires_ms x) complete (now_ms env) (now_ms env)).

(** The request of an admitted upload is recorded, and waits if the platform
    does not let the app work now. *)
Definition admit_upload (env : Env) (q : ChunkRequest) (x : RequestExecution) (a : Admission) (w : World) : World * bool :=
  let i := rq_attachment q in
  match remember env a x false w with
  | (w, Err e) => (upd_execution (set_error (Some (transfer_text e))) w, false)
  | (w, Ok _) =>
      let allowed := execution_allowed env i (own w) in
      let w := upd_execution (fun c => set_serving (set_pendings (live_pending env (pending (serving c))) (serving c)) c) w in
      let key := (i, receiver x, token x) in
      let full := match t_execution (own w) with
                  | Some c => (SERVING_BOUND <=? size (pending (serving c)))%nat && bool_decide (pending (serving c) !! key = None)
                  | None => false
                  end in
      if full then (w, false)
      else
        let w := upd_execution (fun c => set_serving (set_pendings
                   (<[ key := {| p_request := q; expires := now env + PENDING_LIFE |} ]> (pending (serving c)))%N (serving c)) c) w in
        if allowed then (w, true)
        else ((on_base (UserTransfers.set_user_transfer_state (a_id a) UserTransfers.WaitingExecution (now_ms env)) w).1, false)
  end.

Definition admit_serving (env : Env) (q : ChunkRequest) (w : World) : World * bool :=
  match t_execution (own w), execution q with
  | None, _ => (w, negb (managed_execution env))
  | Some _, None => (w, automatic_downloads_allowed env)
  | Some c, Some x =>
      match verify_execution (transfer_context (e_target c)) (now_ms env) q with
      | Ok (Some author) =>
          if bool_decide (phase x = Ack) then (accept_completion_ack q author w, false)
          else
            match admissions c !! rq_attachment q with
            | None => (w, bool_decide (phase x = Request) && automatic_downloads_allowed env)
            | Some a =>
                if negb (bool_decide (a_direction a = UserTransfers.Upload)) then (w, false)
                else match UserTransfers.user_transfer (a_id a) (base w) with
                     | Ok (Some r) =>
                         if bool_decide (UserTransfers.t_state (UserTransfers.view r) = UserTransfers.Cancelled) then (w, false)
                         else if bool_decide (phase x = Complete) then
                           match remember env a x true w with
                           | (w, Ok _) => (upd_execution (push_reply (ack_of q x)) w, false)
                           | (w, Err _) => (w, false)
                           end
                         else admit_upload env q x a w
                     | _ => (w, false)
                     end
            end
      | _ => (w, false)
      end
  end.

Definition serve (env : Env) (q : ChunkRequest) (w : World) : World * list ChunkFrame :=
  match admit_serving env q w with
  | (w, true) => serve_admitted q w
  | (w, false) => (w, [])
  end.

(** Requests that waited and may be served now; the kind checks membership again. *)
Definition pending_ready (env : Env) (t : Transfer) (p : Pending) : bool :=
  (now env <? expires p)%N && negb (bool_decide (rq_indices (p_request p) = []))
  && execution_allowed env (rq_attachment (p_request p)) t.
Definition clear_pending (m : gmap (string * string * string) Pending) (q : ChunkRequest) : gmap (string * string * string) Pending :=
  match pending_key q with Some k => alter (with_indices []) k m | None => m end.
Definition pending_serving_requests (env : Env) (w : World) : World * list ChunkRequest :=
  match t_execution (own w) with
  | None => (w, [])
  | Some c =>
      let requests := map (fun kv => p_request kv.2)
        (filter (fun kv => pending_ready env (own w) kv.2 = true) (map_to_list (pending (serving c)))) in
      (upd_execution (set_serving (set_pendings (foldl clear_pending (pending (serving c)) requests) (serving c))) w, requests)
  end.

(** ** What was sent *)

Definition chunk_bytes (m : Manifest) (index : N) : N :=
  N.min (Attachments.chunk_size m) (Attachments.total_size m - wrapping_mul64 index (Attachments.chunk_size m)).
Definition served_bytes (m : Manifest) (s : gset N) : N :=
  foldr (fun index acc => wrapping_add64 (chunk_bytes m index) acc) 0%N (elements s).
Definition unwait (i : string) (index : N) (p : Pending) : Pending :=
  if String.eqb (rq_attachment (p_request p)) i
  then with_indices (filter (fun j => j <> index) (rq_indices (p_request p))) p else p.
Definition chunk_published (env : Env) (f : ChunkFrame) (w : World) : World :=
  let i := Attachments.cf_attachment_id f in
  match t_execution (own w), admission_of i (own w) with
  | Some c, Some a =>
      if negb (bool_decide (a_direction a = UserTransfers.Upload)) then w
      else
        let old := default ∅ (served (serving c) !! i) in
        let s := {[ Attachments.chunk_index f ]} ∪ old in
        let w := upd_execution (set_serving (set_served (<[ i := s ]> (served (serving c)))
                   (set_pendings (unwait i (Attachments.chunk_index f) <$> pending (serving c)) (serving c)))) w in
        if bool_decide (Attachments.chunk_index f ∈ old) then w
        else match UserTransfers.user_transfer (a_id a) (base w) with
             | Ok (Some r) =>
                 if bool_decide (UserTransfers.t_state (UserTransfers.view r) = UserTransfers.Cancelled) then w
                 else match UserTransfers.manifest r with
                      | None => w
                      | Some m =>
                          match on_base (UserTransfers.record_user_upload_progress (a_id a) (served_bytes m s) false (now_ms env)) w with
                          | (w, Ok _) => w
                          | (w, Err e) => upd_execution (set_error (Some (transfer_text e))) w
                          end
                      end
             | _ => w
             end
  | _, _ => w
  end.
Definition chunks_published (env : Env) (frames : list ChunkFrame) (w : World) : World :=
  foldl (fun w f => chunk_published env f w) w frames.

(** ** What the records say *)

Definition waiting_for (env : Env) (i : string) (c : Execution) : bool :=
  existsb (fun kv => String.eqb (rq_attachment (p_request kv.2)) i && (now env <? expires kv.2)%N
                     && negb (bool_decide (rq_indices (p_request kv.2) = []))) (map_to_list (pending (serving c))).

Definition settled (st : UserTransfers.UserTransferState) : bool :=
  match st with
  | UserTransfers.Cancelled | UserTransfers.Failed | UserTransfers.Prepared | UserTransfers.Complete => true
  | _ => false
  end.
Definition upload_update (env : Env) (c : Execution) (w : World) (kv : string * Admission)
  : option (string * UserTransfers.UserTransferState) :=
  let '(i, a) := kv in
  if negb (bool_decide (a_direction a = UserTransfers.Upload)) then None
  else match UserTransfers.user_transfer (a_id a) (base w) with
       | Ok (Some r) =>
           let st := UserTransfers.t_state (UserTransfers.view r) in
           if settled st then None
           else
             let st' := if negb (waiting_for env i c) then UserTransfers.WaitingReceiver
                        else if execution_allowed env i (own w) then UserTransfers.Running else UserTransfers.WaitingExecution in
             if bool_decide (st = st') then None else Some (a_id a, st')
       | _ => None
       end.
Fixpoint set_states (env : Env) (l : list (string * UserTransfers.UserTransferState)) : tw unit :=
  match l with
  | [] => m_ret tt
  | (id, st) :: l => on_base (UserTransfers.set_user_transfer_state id st (now_ms env));;; set_states env l
  end.
Definition refresh_serving (env : Env) : tw unit := fun w =>
  match t_execution (own w) with
  | None => (w, Ok tt)
  | Some c =>
      let updates := omap (upload_update env c w) (map_to_list (admissions c)) in
      let w := upd_execution (set_serving (set_pendings (live_pending env (pending (serving c))) (serving c))) w in
      set_states env updates w
  end.

Definition download_state (env : Env) (t : Transfer) (i : string) (st : Slots.AttachmentState) : option UserTransfers.UserTransferState :=
  match st with
  | Slots.Available => Some UserTransfers.Complete
  | Slots.SlotFailed => Some UserTransfers.Failed
  | Slots.SlotCancelled => Some UserTransfers.Cancelled
  | Slots.Downloading => Some (if may_download env i t then UserTransfers.Running else UserTransfers.Paused)
  | _ => None
  end.
(** The states shown, by id. *)
Definition raw_states (t : Transfer) : gmap string Slots.AttachmentState :=
  list_to_map (rev (map (fun v => (Slots.v_attachment_id v, Slots.v_state v)) (Slots.views (runtime t) (slots t)))).
Definition download_update (env : Env) (t : Transfer) (kv : string * Admission) : option (string * UserTransfers.UserTransferState) :=
  let '(i, a) := kv in
  if negb (bool_decide (a_direction a = UserTransfers.Download)) || bool_decide (a_state a = UserTransfers.Cancelled) then None
  else
    st ← raw_states t !! i;
    st' ← download_state env t i st;
    if bool_decide (st' = a_state a) then None else Some (i, st').
Fixpoint apply_updates (env : Env) (l : list (string * UserTransfers.UserTransferState)) : tw unit := fun w =>
  match l with
  | [] => (w, Ok tt)
  | (i, st) :: l =>
      match admission_of i (own w) with
      | None => apply_updates env l w
      | Some a =>
          (on_base (UserTransfers.set_user_transfer_state (a_id a) st (now_ms env));;;
           (fun w => (upd_execution (fun c => set_admissions (<[ i := {| a_id := a_id a; a_direction := a_direction a; a_state := st |} ]>
                                                                (admissions c)) c) w, Ok tt));;;
           apply_updates env l) w
      end
  end.
Definition refresh_execution (env : Env) : tw unit :=
  flush_checkpoints env;;;
  refresh_serving env;;;
  (fun w => match t_execution (own w) with
            | None => (w, Ok tt)
            | Some c => apply_updates env (omap (download_update env (own w)) (map_to_list (admissions c))) w
            end).

Definition active_user_transfers (env : Env) (w : World) : nat :=
  length (filter (fun v => Slots.v_state v = Slots.Downloading) (views path_text env w))
  + match t_execution (own w) with
    | None => 0
    | Some c =>
        length (filter (fun kv => bool_decide (a_direction kv.2 = UserTransfers.Upload) && execution_allowed env kv.1 (own w)
                                  && waiting_for env kv.1 c = true) (map_to_list (admissions c)))
    end.
Definition may_send_chunk (env : Env) (i : string) (w : World) : bool := execution_allowed env i (own w).

End Serving.

(** ** What is kept for other devices *)

Lemma serving_pendings m s : serving_ok s -> size m <= 64 -> map_Forall (fun k p => pending_key (p_request p) = Some k) m ->
  serving_ok (set_pendings m s).
Proof. intros [H1 H2 H3 H4] Hs Hm. by split. Qed.

Lemma live_pending_ok env s : serving_ok s -> serving_ok (set_pendings (live_pending env (pending s)) s).
Proof.
  intros Hs. apply serving_pendings; [done| |].
  - etrans; [apply map_subseteq_size, map_filter_subseteq|apply Hs].
  - intros k p [Hk _]%map_lookup_filter_Some. by apply Hs.
Qed.

Lemma pending_key_indices l p : pending_key (p_request (with_indices l p)) = pending_key (p_request p).
Proof. done. Qed.

Lemma clear_pending_ok m q : size m <= 64 -> map_Forall (fun k p => pending_key (p_request p) = Some k) m ->
  size (clear_pending m q) <= 64 /\ map_Forall (fun k p => pending_key (p_request p) = Some k) (clear_pending m q).
Proof.
  intros Hs Hm. unfold clear_pending. destruct (pending_key q) as [k|]; [|done]. split.
  - by rewrite <- size_dom, dom_alter_L, size_dom.
  - intros k' p. rewrite lookup_alter. case_decide as He; [subst k'|by apply Hm].
    destruct (m !! k) as [p0|] eqn:Hp; [|done]. intros [= <-]. rewrite pending_key_indices. by apply Hm.
Qed.
Lemma clear_pendings_ok m l : size m <= 64 -> map_Forall (fun k p => pending_key (p_request p) = Some k) m ->
  size (foldl clear_pending m l) <= 64 /\ map_Forall (fun k p => pending_key (p_request p) = Some k) (foldl clear_pending m l).
Proof.
  revert m. induction l as [|q l IH]; intros m Hs Hm; [done|]. cbn. destruct (clear_pending_ok m q Hs Hm). by apply IH.
Qed.

Lemma unwait_ok i index s : serving_ok s -> serving_ok (set_pendings (unwait i index <$> pending s) s).
Proof.
  intros Hs. apply serving_pendings; [done|rewrite map_size_fmap; apply Hs|]. intros k p. rewrite lookup_fmap.
  destruct (pending s !! k) as [p0|] eqn:Hp; [|done]. intros [= <-]. unfold unwait.
  destruct (String.eqb _ _); rewrite ?pending_key_indices; by apply (pending_keyed _ Hs).
Qed.

Lemma execution_upd f w : t_execution (own (upd_execution f w)) = f <$> t_execution (own w).
Proof. done. Qed.

Section Walks.
Context {aes : Aes} {rows : RowJson} {scheme : Devices.Ed25519} {json : DeletionJson} {json' : ErasureJson}.
Context {record_codec : RowCodec UserTransfers.TransferRecord} {current_codec : RowCodec UserTransfers.Current}
        {chunk_codec : RowCodec ChunkFrame}.
Variable chunk_encrypt chunk_decrypt : bytes -> bytes -> bytes -> result string bytes.
Variable sha256 : bytes -> bytes.
Variable hex_decode : string -> result string bytes.
Variable request_to_vec : ChunkRequest -> result string bytes.
Variable path_text : Files.Path -> string.
Variable cleaning : Prop.
Abbreviation stepped := (stepped sha256 cleaning).
Abbreviation moved := (moved sha256 cleaning).
Abbreviation steps := (rtc (step sha256 cleaning)).

Lemma reads_blob h n f : Files.disk (Files.read_blob h n f).1 = Files.disk f /\ Files.leases (Files.read_blob h n f).1 = Files.leases f.
Proof.
  unfold Files.read_blob. unfold m_bind at 1, m_lift. destruct (Files.path_for h n) as [p|e]; [apply (reads_open_read p f)|done].
Qed.
Lemma stepped_read_blob h n : stepped (on_files (Files.read_blob h n)).
Proof.
  intros w. unfold on_files. pose proof (reads_blob h n (files w)) as [Hd Hl].
  destruct (Files.read_blob h n (files w)) as [f r]. by apply then_looked.
Qed.
#[local] Hint Resolve stepped_read_blob : steps.
Lemma stepped_serve_admitted q : stepped (serve_admitted chunk_encrypt sha256 q).
Proof. unfold serve_admitted, m_bind. branches. Qed.

Lemma moved_accept_ack q author : moved (accept_completion_ack q author).
Proof.
  intros w. unfold accept_completion_ack. repeat case_match; try (by reached w). apply moved_execution. intros c [G1 G2 G3 G4].
  split; cbn; [done|done|by apply map_Forall_delete|done].
Qed.
Lemma moved_push a : moved (upd_execution (push_reply a)).
Proof.
  apply moved_execution. intros c Hc. unfold push_reply. destruct (Nat.ltb_spec (length (replies (serving c))) SERVING_BOUND); [|done].
  destruct Hc as [H1 H2 H3 H4]. split; cbn; [done..|]. rewrite length_app. cbn. unfold SERVING_BOUND in *. lia.
Qed.
Lemma stepped_remember env a x complete : stepped (remember env a x complete).
Proof. apply stepped_base. Qed.
#[local] Hint Resolve stepped_serve_admitted moved_accept_ack moved_push stepped_remember : steps.

Lemma stepped_admit_upload env q x a : execution q = Some x -> stepped (admit_upload env q x a).
Proof.
  intros Hx w. unfold admit_upload. assert (H1 : steps w (remember env a x false w).1) by reached w.
  destruct (remember env a x false w) as [w1 [u|e]]; cbn [fst] in H1; [|cbn [fst]; by reached w]. cbv zeta.
  set (w2 := upd_execution _ w1).
  assert (H2 : steps w w2) by (eapply then_moved; [exact H1|]; apply moved_execution; intros c; apply live_pending_ok).
  set (key := (rq_attachment q, receiver x, token x)). set (w3 := upd_execution _ w2).
  destruct (match t_execution (own w2) with Some c => _ | None => _ end) eqn:Hfull; [exact H2|].
  assert (H3 : steps w w3).
  { etrans; [exact H2|]. apply rtc_once. unfold w3. apply (Kept sha256 cleaning (own (upd_execution _ w2)) w2); [done|].
    intros Hs c Hc. rewrite execution_upd in Hc.
    destruct (t_execution (own w2)) as [c2|] eqn:Hc2; [|done]. injection Hc as <-. pose proof (Hs _ Hc2) as Hs2.
    apply serving_pendings; [done| |].
    - rewrite map_size_insert. destruct (pending (serving c2) !! key) as [p0|] eqn:Hp; [apply Hs2|].
      rewrite bool_decide_true, andb_true_r in Hfull by done. apply Nat.leb_gt in Hfull. unfold SERVING_BOUND in Hfull. lia.
    - apply map_Forall_insert_2; [|apply Hs2]. cbn. unfold pending_key. by rewrite Hx. }
  destruct (execution_allowed _ _ _); [exact H3|]. cbn [fst]. reached w.
Qed.
#[local] Hint Resolve stepped_admit_upload : steps.
Lemma stepped_admit env q : stepped (admit_serving sha256 hex_decode request_to_vec env q).
Proof. unfold admit_serving. branches. Qed.
#[local] Hint Resolve stepped_admit : steps.
Lemma stepped_serve env q : stepped (serve chunk_encrypt sha256 hex_decode request_to_vec env q).
Proof. unfold serve. branches. Qed.

Lemma stepped_pending_requests env : stepped (pending_serving_requests env).
Proof.
  intros w. unfold pending_serving_requests. destruct (t_execution (own w)) as [c|] eqn:Hc; [|by reached w].
  cbn [fst]. eapply then_execution; [apply rtc_refl|exact Hc|]. intros Hs.
  destruct (clear_pendings_ok (pending (serving c)) (map (fun kv => p_request kv.2)
    (filter (fun kv => pending_ready env (own w) kv.2 = true) (map_to_list (pending (serving c))))));
    [apply Hs..|]. by apply serving_pendings.
Qed.

Lemma moved_published env f : moved (chunk_published env f).
Proof.
  intros w. unfold chunk_published. destruct (t_execution (own w)) as [c|] eqn:Hc; [|by reached w].
  destruct (admission_of _ _) as [a|]; [|by reached w]. destruct (negb _); [by reached w|]. cbv zeta.
  set (w1 := upd_execution _ w).
  assert (H1 : steps w w1).
  { eapply then_execution; [apply rtc_refl|exact Hc|]. intros Hs.
    pose proof (unwait_ok (Attachments.cf_attachment_id f) (Attachments.chunk_index f) _ Hs) as [G1 G2 G3 G4]. by split. }
  revert H1. generalize w1. clear w1. intros w1 H1. repeat (cbv zeta; first [branch w | branch_any]); reached w.
Qed.
Lemma moved_chunks_published env frames : moved (chunks_published env frames).
Proof.
  unfold chunks_published. induction frames as [|f frames IH] using rev_ind; intros w; [by reached w|].
  rewrite foldl_app. cbn. apply then_moved; [apply IH|apply moved_published].
Qed.

Lemma stepped_set_states env l : stepped (set_states env l).
Proof. induction l as [|[id st] l IH]; cbn [set_states]; eauto with steps. Qed.
#[local] Hint Resolve stepped_set_states : steps.
Lemma stepped_refresh_serving env : stepped (refresh_serving env).
Proof.
  intros w. unfold refresh_serving. destruct (t_execution (own w)) as [c|] eqn:Hc; [|by reached w]. cbv zeta.
  apply then_stepped; [|apply stepped_set_states]. eapply then_execution; [apply rtc_refl|exact Hc|]. apply live_pending_ok.
Qed.
Lemma stepped_apply_updates env l : stepped (apply_updates env l).
Proof.
  induction l as [|[i st] l IH]; cbn [apply_updates]; intros w; [by reached w|]. destruct (admission_of _ _); [|apply IH].
  unfold m_bind. branch w. destruct r; cbn [fst]; [|done]. apply then_stepped; [|apply IH]. by reached w.
Qed.
#[local] Hint Resolve stepped_refresh_serving stepped_apply_updates stepped_flush : steps.
Lemma stepped_refresh_execution env : stepped (refresh_execution env).
Proof.
  unfold refresh_execution. apply stepped_bind; [apply stepped_flush|]. intros _.
  apply stepped_bind; [apply stepped_refresh_serving|]. intros _. branches.
Qed.

End Walks.

(** ** The operations together *)

Section Operations.
Context {aes : Aes} {rows : RowJson} {scheme : Devices.Ed25519} {json : DeletionJson} {json' : ErasureJson}.
Context {record_codec : RowCodec UserTransfers.TransferRecord} {current_codec : RowCodec UserTransfers.Current}
        {chunk_codec : RowCodec ChunkFrame}.
Variable chunk_encrypt chunk_decrypt : bytes -> bytes -> bytes -> result string bytes.
Variable sha256 : bytes -> bytes.
Variable hex_decode : string -> result string bytes.
Variable request_to_vec : ChunkRequest -> result string bytes.
Variable path_text : Files.Path -> string.

(** What the rest of the program does with a conversation's transfer; with
    [cleaning], also the removal of files nobody needs.  The database changes
    under it as it likes. *)
Inductive operation (cleaning : Prop) : World -> World -> Prop :=
| Offered secret secret' o preview w : operation cleaning w (prepare_offer sha256 path_text secret secret' o preview w).1
| Published A E o (publication : result E A) w : operation cleaning w (record_published o publication w).1
| Received o w : operation cleaning w (accept_offer sha256 path_text o w).1
| Forgot i w : operation cleaning w (forget i w)
| RestoredFile d dir m w : operation cleaning w (restore_stored sha256 path_text d dir m w)
| RestoredPreview o dir w : operation cleaning w (restore_preview sha256 hex_decode path_text o dir w)
| Attached env t id w : operation cleaning w (attach_execution chunk_decrypt sha256 path_text env t id w)
| BoundUpload env id m w : operation cleaning w (bind_user_admission env id m w).1
| BoundDownload env i id w : operation cleaning w (bind_download_admission env i id w).1
| Asked env i w : operation cleaning w (start_download env i w).1
| Stopped env i w : operation cleaning w (cancel env i w).1
| Ingested env f w : operation cleaning w (ingest chunk_decrypt sha256 path_text env f w).1
| Requested env w : operation cleaning w (next_requests env w).1
| Played env i start stop w : operation cleaning w (stream_range env i start stop w).1
| Answered env q w : operation cleaning w (serve chunk_encrypt sha256 hex_decode request_to_vec env q w).1
| Waited env w : operation cleaning w (pending_serving_requests env w).1
| AnsweredLater q w : operation cleaning w (serve_admitted chunk_encrypt sha256 q w).1
| Sent env frames w : operation cleaning w (chunks_published env frames w)
| Refreshed env w : operation cleaning w (refresh_execution env w).1
| Stored b w : operation cleaning w (set_base b w)
| CleanedUp w : cleaning -> operation cleaning w (collect_erased_cache w).

Lemma operation_steps cleaning w w' : operation cleaning w w' -> rtc (step sha256 cleaning) w w'.
Proof.
  destruct 1.
  - apply stepped_offer.
  - apply stepped_published.
  - apply stepped_accept_offer.
  - apply moved_forget.
  - apply moved_restore_stored.
  - apply moved_restore_preview.
  - apply moved_attach.
  - apply stepped_bind_admission.
  - apply stepped_bind_download.
  - apply stepped_start.
  - apply stepped_cancel.
  - apply stepped_ingest.
  - apply stepped_next_requests.
  - apply stepped_stream.
  - apply stepped_serve.
  - apply stepped_pending_requests.
  - apply stepped_serve_admitted.
  - apply moved_chunks_published.
  - apply stepped_refresh_execution.
  - apply rtc_once, Based.
  - by apply moved_collect_erased.
Qed.
Lemma operations_steps cleaning w w' : rtc (operation cleaning) w w' -> rtc (step sha256 cleaning) w w'.
Proof. induction 1 as [w|w1 w2 w3 Ho _ IH]; [apply rtc_refl|]. etrans; [by eapply operation_steps|done]. Qed.

(** C6. Whatever a conversation does with its attachments, the store's lease counts
    stay exact: at every path the count is the number of attachments this
    conversation keeps there plus what everybody else keeps there. *)
Theorem leases_counted others w w' (H0 : counted others w) (Hr : rtc (operation True) w w') : counted others w'.
Proof.
  apply operations_steps in Hr. induction Hr as [w|w1 w2 w3 Hs _ IH]; [done|]. apply IH. by eapply step_counted.
Qed.


(** What is kept for other devices is bounded: after any operations of a
    conversation, at most 64 requests wait to be served, each under the device
    and the token it names, at most 64 answers wait, and no receipt has been
    sent more than six times. *)
Theorem serving_bounded w w' c (H0 : served_well (own w)) (Hr : rtc (operation True) w w') (Hc : t_execution (own w') = Some c) :
  serving_ok (serving c).
Proof.
  apply operations_steps in Hr. assert (H : served_well (own w')); [|by apply H]. clear c Hc.
  induction Hr as [w|w1 w2 w3 Hs _ IH]; [done|]. apply IH. destruct Hs as [t w _ Ht|b w|f w _ _|h n b w|d w|i w|a store w _ _]; try done.
  - by apply Ht.
  - by destruct (retain_lease_cases d w) as [[-> _]|[[e ->]|(p & _ & _ & ->)]].
  - unfold release_lease. by destruct (held_leases (own w) !! i) as [[h n]|].
  - unfold clean_erased. by destruct (Files.remove_if_unused _ _ _ _).
Qed.

(** ** Who is answered *)

Lemma verify_Ok ctx n q author x : execution q = Some x -> verify_execution sha256 hex_decode request_to_vec ctx n q = Ok (Some author) ->
  exists p b, proof x = Some p /\ Messages.author p = author /\ signing_bytes request_to_vec q = Ok b /\
    Deletion.origin_verify sha256 hex_decode p ctx (token x) b = Ok tt /\ well_formed n q x = true /\
    (phase x = Ack \/ receiver x = author).
Proof.
  intros Hx. unfold verify_execution. rewrite Hx. intros ([] & Hw%guard_or_Ok & Hr)%bind_Ok.
  apply bind_Ok in Hr as (p & Hp%ok_or_Ok & Hr). apply bind_Ok in Hr as (b & Hb & Hr). apply bind_Ok in Hr as ([] & Ho & Hr).
  apply bind_Ok in Hr as ([] & Hg%guard_or_Ok & [= Ha]). exists p, b. repeat (split; [done|]).
  apply orb_true_iff in Hg as [Hg|Hg]; [left; by apply bool_decide_eq_true in Hg|right; apply String.eqb_eq in Hg; congruence].
Qed.


Lemma remember_own env a x complete w w1 r : remember env a x complete w = (w1, r) -> own w1 = own w.
Proof.
  intros E. pose proof (on_base_own (UserTransfers.remember_user_transfer_receiver (a_id a) (receiver x) (token x) (x_expires_ms x) complete
    (now_ms env) (now_ms env)) w) as [Ho _]. unfold remember in E. by rewrite E in Ho.
Qed.
Definition all_receipts (t : Transfer) : option (gmap string (ChunkRequest * N * N)) := (fun c => receipts (serving c)) <$> t_execution t.

Lemma admit_upload_receipts env q x a w : all_receipts (own (admit_upload env q x a w).1) = all_receipts (own w).
Proof.
  unfold admit_upload. destruct (remember env a x false w) as [w1 r] eqn:E. apply remember_own in E.
  assert (H1 : all_receipts (own w1) = all_receipts (own w)) by by rewrite E.
  assert (Hkeep : forall f v, (forall c, receipts (serving (f c)) = receipts (serving c)) ->
    all_receipts (own (upd_execution f v)) = all_receipts (own v)).
  { intros f v Hf. unfold all_receipts. rewrite execution_upd. destruct (t_execution (own v)); [|done]. cbn. by rewrite Hf. }
  destruct r as [u|e]; [|cbn [fst]; rewrite Hkeep; done]. cbv zeta. set (w2 := upd_execution _ w1).
  assert (H2 : all_receipts (own w2) = all_receipts (own w)) by (unfold w2; rewrite Hkeep; done).
  destruct (match t_execution (own w2) with Some c => _ | None => _ end); [exact H2|].
  set (w3 := upd_execution _ w2).
  assert (H3 : all_receipts (own w3) = all_receipts (own w)) by (unfold w3; rewrite Hkeep; done).
  destruct (execution_allowed _ _ _); [exact H3|].
  pose proof (on_base_own (UserTransfers.set_user_transfer_state (a_id a) UserTransfers.WaitingExecution (now_ms env)) w3) as [Ho _].
  cbn [fst]. by rewrite Ho.
Qed.

(** A receipt is repeated until the sender has it: answering a request removes
    the receipt of a finished download only when the request is an
    acknowledgement of that very receipt, by its token, signed by the author of
    the file. *)
Theorem receipt_settled env q w w' r i y
  (Ha : admit_serving sha256 hex_decode request_to_vec env q w = (w', r))
  (Hy : all_receipts (own w) ≫= lookup i = Some y) (Hn : all_receipts (own w') ≫= lookup i = None) :
  i = rq_attachment q /\ exists x p origin, execution q = Some x /\ phase x = Ack /\ proof x = Some p /\
    manifest_for i (own w) ≫= Attachments.m_origin = Some origin /\ Messages.author origin = Messages.author p /\
    same_token y.1.1 q = true /\
    exists b c, t_execution (own w) = Some c /\ signing_bytes request_to_vec q = Ok b /\
      Deletion.origin_verify sha256 hex_decode p (transfer_context (e_target c)) (token x) b = Ok tt.
Proof.
  assert (Hsame : all_receipts (own w') = all_receipts (own w) -> False) by (intros He; rewrite He, Hy in Hn; done).
  unfold admit_serving in Ha. destruct (t_execution (own w)) as [c|] eqn:Hc; [|injection Ha as <- _; by destruct Hsame].
  destruct (execution q) as [x|] eqn:Hx; [|injection Ha as <- _; by destruct Hsame].
  destruct (verify_execution _ _ _ _ _ q) as [[author|]|e] eqn:Ev; [|injection Ha as <- _; by destruct Hsame..].
  case_bool_decide as Hack.
  - destruct (verify_Ok _ _ _ _ _ Hx Ev) as (p & b & Hp & Hau & Hb & Ho & _). injection Ha as <- _.
    unfold accept_completion_ack in *. destruct (manifest_for (rq_attachment q) (own w) ≫= Attachments.m_origin) as [origin|] eqn:Hor;
      [|by destruct Hsame].
    destruct (String.eqb_spec (Messages.author origin) author) as [Heq|]; cbn [negb] in *; [|by destruct Hsame].
    rewrite Hc in Hn, Hsame. cbn in Hn, Hsame. destruct (receipts (serving c) !! rq_attachment q) as [z|] eqn:Hz; [|by destruct Hsame].
    destruct (same_token z.1.1 q) eqn:Hst; [|by destruct Hsame].
    unfold all_receipts in Hy, Hn. rewrite Hc in Hy. cbn in Hy. cbn in Hn. rewrite Hc in Hn. cbn in Hn.
    destruct (decide (i = rq_attachment q)) as [->|Hne]; [|by rewrite lookup_delete_ne, Hy in Hn].
    rewrite Hz in Hy. injection Hy as <-. split; [done|]. exists x, p, origin. repeat (split; [done || congruence|]).
    exists b, c. done.
  - exfalso. destruct (admissions c !! rq_attachment q) as [a|]; [|injection Ha as <- _; by destruct Hsame].
    destruct (negb _); [injection Ha as <- _; by destruct Hsame|].
    destruct (UserTransfers.user_transfer (a_id a) (base w)) as [[tr|]|e]; [|injection Ha as <- _; by destruct Hsame..].
    case_bool_decide; [injection Ha as <- _; by destruct Hsame|]. case_bool_decide.
    + destruct (remember env a x true w) as [w1 r1] eqn:E1. pose proof (remember_own _ _ _ _ _ _ _ E1) as Ho1.
      destruct r1 as [u|e]; injection Ha as <- _; apply Hsame; unfold all_receipts; rewrite ?execution_upd, Ho1, ?Hc; cbn; [|done].
      unfold push_reply. by destruct (_ <? _).
    + apply Hsame. pose proof (admit_upload_receipts env q x a w) as H2. by rewrite Ha in H2.
Qed.

End Operations.

(** ** The records follow the slots *)

Section Refresh.
Context {aes : Aes} {record_codec : RowCodec UserTransfers.TransferRecord} {current_codec : RowCodec UserTransfers.Current}
        {chunk_codec : RowCodec ChunkFrame}.

Lemma set_states_own env l w : own (set_states env l w).1 = own w.
Proof.
  revert w. induction l as [|[id st] l IH]; intros w; [done|]. cbn [set_states]. unfold m_bind.
  pose proof (on_base_own (UserTransfers.set_user_transfer_state id st (now_ms env)) w) as [Ho _].
  destruct (on_base _ w) as [w1 [u|e]]; cbn in Ho; [by rewrite IH|done].
Qed.

Lemma may_download_ids env i t t' : previews t' = previews t -> e_error <$> t_execution t' = e_error <$> t_execution t ->
  (forall j, a_id <$> admission_of j t' = a_id <$> admission_of j t) -> may_download env i t' = may_download env i t.
Proof.
  intros Hp He Ha. unfold may_download, execution_allowed, is_preview. rewrite Hp.
  specialize (Ha (default i (strip_suffix "/preview" i))). unfold admission_of in Ha.
  destruct (t_execution t) as [c|], (t_execution t') as [c'|]; try done. cbn in *. injection He as ->.
  by destruct (admissions c !! _), (admissions c' !! _); try done; injection Ha as ->.
Qed.

(** What applying updates leaves alone, and what it sets. *)
Definition same_but_states (t t' : Transfer) : Prop :=
  slots t' = slots t /\ runtime t' = runtime t /\ previews t' = previews t /\
  e_error <$> t_execution t' = e_error <$> t_execution t /\ (forall j, a_id <$> admission_of j t' = a_id <$> admission_of j t).
#[local] Instance same_but_states_preorder : PreOrder same_but_states.
Proof.
  split; [by intros t|]. intros t1 t2 t3 (H1 & H2 & H3 & H4 & H5) (G1 & G2 & G3 & G4 & G5).
  repeat split; [congruence..|]. intros j. by rewrite G5, H5.
Qed.

Definition with_state (st : UserTransfers.UserTransferState) (a : Admission) : Admission :=
  {| a_id := a_id a; a_direction := a_direction a; a_state := st |}.

Lemma apply_updates_Ok env l w w' : NoDup l.*1 -> apply_updates env l w = (w', Ok tt) ->
  same_but_states (own w) (own w') /\
  forall i a', admission_of i (own w') = Some a' -> exists a, admission_of i (own w) = Some a /\
    ((exists st, (i, st) ∈ l /\ a' = with_state st a) \/ i ∉ l.*1 /\ a' = a).
Proof.
  revert w. induction l as [|[i st] l IH]; intros w Hnd; cbn [apply_updates].
  { intros [= <-]. split; [done|]. intros i a' Ha. exists a'. split; [done|]. right. split; [apply not_elem_of_nil|done]. }
  apply NoDup_cons in Hnd as [Hi Hnd].
  destruct (admission_of i (own w)) as [a|] eqn:Ha.
  2:{ intros [Hs Hall]%IH; [|done]. split; [done|]. intros j a' Hj. destruct (Hall j a' Hj) as (a & Ha' & Hcase). exists a.
      split; [done|]. destruct Hcase as [(st' & Hin & ->)|[Hn ->]]; [left; exists st'; split; [by right|done]|].
      destruct (decide (j = i)) as [->|Hne]; [by rewrite Ha in Ha'|]. right. split; [|done].
      intros [?|?]%elem_of_cons; done. }
  intros H. apply m_bind_Ok in H as (w1 & u & H1 & H). apply m_bind_Ok in H as (w2 & u2 & [= <- _] & H).
  pose proof (on_base_own (UserTransfers.set_user_transfer_state (a_id a) st (now_ms env)) w) as [Ho _]. rewrite H1 in Ho. cbn in Ho.
  set (w2 := upd_execution _ w1) in H.
  assert (Ha2 : forall j, admission_of j (own w2) = if decide (j = i) then Some (with_state st a) else admission_of j (own w)).
  { intros j. unfold admission_of, w2. cbn. rewrite Ho. unfold admission_of in Ha. destruct (t_execution (own w)) as [c|]; [|done].
    cbn in *. destruct (decide (j = i)) as [->|Hne]; [by rewrite lookup_insert_eq|by rewrite lookup_insert_ne]. }
  assert (Hs2 : same_but_states (own w) (own w2)).
  { split; [|split; [|split; [|split]]]; try (cbn; by rewrite Ho).
    - unfold w2. cbn. rewrite Ho. by destruct (t_execution (own w)).
    - intros j. rewrite Ha2. destruct (decide (j = i)) as [->|]; [by rewrite Ha|done]. }
  apply IH in H as [Hs Hall]; [|done]. split; [by etrans|]. intros j a' Hj. destruct (Hall j a' Hj) as (a0 & Ha0 & Hcase).
  rewrite Ha2 in Ha0. destruct (decide (j = i)) as [->|Hne].
  - injection Ha0 as <-. exists a. split; [done|]. destruct Hcase as [(st' & Hin & _)|[_ ->]].
    + destruct Hi. apply list_elem_of_fmap. by exists (i, st').
    + left. exists st. split; [by left|done].
  - exists a0. split; [done|]. destruct Hcase as [(st' & Hin & ->)|[Hn ->]]; [left; exists st'; split; [by right|done]|right].
    split; [|done]. by intros [?|?]%elem_of_cons.
Qed.

Lemma download_update_key env t kv i st : download_update env t kv = Some (i, st) -> i = kv.1.
Proof.
  destruct kv as [j a]. unfold download_update. destruct (_ || _); [done|]. destruct (raw_states t !! j) as [s|]; [|done]. cbn.
  destruct (download_state env t j s) as [st'|]; [|done]. cbn. case_bool_decide; [done|]. by intros [= <- _].
Qed.

Lemma updates_NoDup env t (m : gmap string Admission) : NoDup (omap (download_update env t) (map_to_list m)).*1.
Proof.
  pose proof (NoDup_fst_map_to_list m) as Hn. revert Hn. induction (map_to_list m) as [|[k a] l IH]; intros Hn; [constructor|].
  rewrite fmap_cons in Hn. apply NoDup_cons in Hn as [Hk Hl]. cbn [omap list_omap].
  destruct (download_update env t (k, a)) as [[i st]|] eqn:He; [|by apply IH]. pose proof (download_update_key _ _ _ _ _ He) as Hik.
  cbn in Hik. subst i. rewrite fmap_cons. constructor; [|by apply IH].
  intros ([j st'] & Hkj & Hin)%list_elem_of_fmap. apply list_elem_of_omap in Hin as ([k' a'] & Hin & He').
  apply download_update_key in He'. cbn in *. subst. apply Hk. apply list_elem_of_fmap. by exists (k', a').
Qed.

(** The status the user is shown for a download agrees with its file: after a
    refresh that wrote everything it had to, every admitted download that is
    not cancelled is in the state its slot says — complete, failed, cancelled,
    or running or paused as the platform lets it. *)
Theorem refresh_agrees env w w' i a st st'
  (Hr : refresh_execution env w = (w', Ok tt)) (Ha : admission_of i (own w') = Some a)
  (Hd : a_direction a = UserTransfers.Download) (Hraw : raw_states (own w') !! i = Some st)
  (Hst : download_state env (own w') i st = Some st') :
  a_state a = st' \/ a_state a = UserTransfers.Cancelled.
Proof.
  apply m_bind_Ok in Hr as (w1 & [] & _ & Hr). apply m_bind_Ok in Hr as (w2 & [] & _ & Hr).
  destruct (t_execution (own w2)) as [c|] eqn:Hc.
  2:{ injection Hr as <-. unfold admission_of in Ha. by rewrite Hc in Ha. }
  apply apply_updates_Ok in Hr as ((Hs & Hrt & Hp & He & Hids) & Hall); [|apply updates_NoDup].
  assert (Hraw2 : raw_states (own w2) !! i = Some st) by (revert Hraw; unfold raw_states; by rewrite Hs, Hrt).
  assert (Hst2 : download_state env (own w2) i st = Some st').
  { rewrite <- Hst. destruct st; try done. cbn. by rewrite (may_download_ids env i (own w2) (own w') Hp He Hids). }
  destruct (Hall _ _ Ha) as (a0 & Ha0 & [(s & Hin & ->)|[Hn ->]]).
  - left. apply list_elem_of_omap in Hin as ([k x] & _ & Hu). pose proof (download_update_key _ _ _ _ _ Hu) as Hk. cbn in Hk. subst k.
    unfold download_update in Hu. destruct (_ || _); [done|]. rewrite Hraw2 in Hu. cbn in Hu. rewrite Hst2 in Hu. cbn in Hu.
    case_bool_decide; [done|]. injection Hu as <-. done.
  - destruct (decide (a_state a0 = UserTransfers.Cancelled)) as [|Hnc]; [by right|left].
    assert (Hin : (i, a0) ∈ map_to_list (admissions c)).
    { apply elem_of_map_to_list. unfold admission_of in Ha0. by rewrite Hc in Ha0. }
    destruct (decide (st' = a_state a0)) as [|Hne]; [done|]. destruct Hn. apply list_elem_of_fmap. exists (i, st').
    split; [done|]. apply list_elem_of_omap. exists (i, a0). split; [done|]. unfold download_update.
    rewrite Hd, bool_decide_true, bool_decide_false by done. cbn. rewrite Hraw2. cbn. rewrite Hst2. cbn. by rewrite bool_decide_false.
Qed.

End Refresh.

(** ** Two devices *)

#[local] Existing Instances Rows.plain_aes Rows.plain_aes_laws Rows.row_json Rows.row_json' Devices.toy_scheme
  UserTransfers.toy_currents UserTransfers.toy_chunks.

Definition receiver_tuples (rs : gmap string UserTransfers.Receiver) : list (string * (N * bool)) :=
  map (fun kv => (kv.1, (UserTransfers.expires_ms kv.2, UserTransfers.r_complete kv.2))) (map_to_list rs).
Definition tuple_receivers (l : list (string * (N * bool))) : gmap string UserTransfers.Receiver :=
  list_to_map (map (fun kv => (kv.1, {| UserTransfers.expires_ms := kv.2.1; UserTransfers.r_complete := kv.2.2 |})) l).
(** Records with their receivers. *)
#[local] Instance live_records : RowCodec UserTransfers.TransferRecord := {|
  row_to_vec r := codec_to_vec (UserTransfers.view_tuple (UserTransfers.view r),
                                UserTransfers.manifest_tuple <$> UserTransfers.manifest r, receiver_tuples (UserTransfers.receivers r));
  row_from_slice b := p ← codec_from_slice b;
    Ok {| UserTransfers.view := UserTransfers.tuple_view p.1.1; UserTransfers.manifest := UserTransfers.tuple_manifest <$> p.1.2;
          UserTransfers.receivers := tuple_receivers p.2 |};
|}.

Definition tok : string := "0123456789abcdef0123456789abcdef".
Definition peer : string := Deletion.toy_key [x01].
Definition no_request_bytes (q : ChunkRequest) : result string bytes := Ok [].
Definition sign_toy (ctx i : string) (b : bytes) : result string Messages.MessageOrigin :=
  let o sig := {| Messages.conversation := ctx; Messages.id := i; Messages.content_hash := hex_string (Files.wide_sha b);
                  Messages.author := peer; Messages.signature := sig; Messages.ownership := None |} in
  input ← Deletion.signing_input (o ""); s ← Deletion.toy_sign [x01] input; Ok (o s).
Definition blank_request (ph : RequestPhase) (l : list N) : ChunkRequest :=
  {| chunk := {| Attachments.cr_attachment_id := "f"; Attachments.chunk_indices := l |};
     execution := Some {| token := tok; phase := ph; receiver := ""; proof := None; x_expires_ms := 0 |} |}.
Definition peer_request (ph : RequestPhase) (l : list N) : ChunkRequest :=
  default (blank_request ph l) (res_ok (sign_execution no_request_bytes 5 peer (sign_toy "transfer:dm:x") (blank_request ph l))).
Definition token_env : Env :=
  {| managed_execution := false; automatic_downloads_allowed := true; transfer_granted := fun _ => true;
     now_ms := 5; now := 7; drawn_token := fun _ => tok |}.

(** The sender: an upload admitted, offered and bound to its record. *)
Definition upload_store : Store.Persistence :=
  (UserTransfers.prepare_user_transfer CallButtons.toy_random UserTransfers.chat UserTransfers.Upload None 12 1 (new_store [])).1.
Definition attached (b : Store.Persistence) : World :=
  attach_execution plain_chunk Files.wide_sha plain_path token_env DM_HISTORY "x" (device b).
Definition sealed_note := prepare_offer Files.wide_sha plain_path toy_secret toy_secret note_out None (attached upload_store).
Definition note_sealed : Outgoing := default (Prepared no_manifest note_descriptor "" None) (res_ok sealed_note.2).
Definition sender : World :=
  record_sent note_sealed (bind_user_admission token_env (Some UserTransfers.film_id) (o_manifest note_sealed) sealed_note.1).1.
Abbreviation asked_by_peer := (admit_serving Files.wide_sha hex_bytes no_request_bytes token_env (peer_request Request [0%N]) sender).
Definition sender_execution : Execution :=
  default {| e_target := UserTransfers.chat; admissions := ∅; e_error := None; serving := no_serving; checkpoints := ∅ |} (t_execution (own sender)).

Definition fresh_meta : RequestExecution := {| token := tok; phase := Request; receiver := ""; proof := None; x_expires_ms := 0 |}.
Definition peer_meta (ph : RequestPhase) (l : list N) : RequestExecution := default fresh_meta (execution (peer_request ph l)).
Definition no_admission : Admission := {| a_id := ""; a_direction := UserTransfers.Download; a_state := UserTransfers.Failed |}.
Definition sender_admission : Admission := default no_admission (admissions sender_execution !! "f").


(** The receiver: its download completes, and the sender acknowledges. *)
Definition authored_offer : Offer :=
  let m := o_manifest note_sealed in
  {| History.manifest :=
       {| Attachments.m_origin := res_ok (sign_toy "dm:x" "f" []); Attachments.attachment_id := Attachments.attachment_id m;
          Attachments.content_hash := Attachments.content_hash m; Attachments.file_name := Attachments.file_name m;
          Attachments.mime := Attachments.mime m; Attachments.total_size := Attachments.total_size m;
          Attachments.chunk_size := Attachments.chunk_size m; Attachments.chunk_count := Attachments.chunk_count m;
          Attachments.key_b64 := Attachments.key_b64 m; Attachments.nonce_prefix_b64 := Attachments.nonce_prefix_b64 m;
          Attachments.m_thumbnail_b64 := Attachments.m_thumbnail_b64 m; Attachments.m_voice := Attachments.m_voice m;
          Attachments.from_fingerprint := Attachments.from_fingerprint m |};
     History.offered_preview := None |}.
Definition receiving (o : Offer) (b : Store.Persistence) : World :=
  (next_requests token_env (start_download token_env "f" (accept_offer Files.wide_sha plain_path o (attached b)).1).1).1.
Definition finished (w : World) : World := (ingest plain_chunk Files.wide_sha plain_path token_env note_frame w).1.
Definition thanked : World := finished (receiving authored_offer (new_store [])).
Abbreviation acknowledged := (admit_serving Files.wide_sha hex_bytes no_request_bytes token_env (peer_request Ack []) thanked).

Definition no_receipt : ChunkRequest * N * N := (blank_request Complete [], 0%N, 0%N).
Definition note_receipt : ChunkRequest * N * N := default no_receipt (all_receipts (own thanked) ≫= lookup "f").

Lemma receipt_settled_witness :
  option_map (fun m => size m) (all_receipts (own thanked)) = Some 1 /\ all_receipts (own acknowledged.1) = Some ∅ /\
  same_token note_receipt.1.1 (peer_request Ack []) = true /\ phase (peer_meta Ack []) = Ack.
Proof.
  assert (Hp : acknowledged = (acknowledged.1, acknowledged.2)) by apply surjective_pairing.
  assert (Hy : all_receipts (own thanked) ≫= lookup "f" = Some note_receipt) by (vm_compute; reflexivity).
  assert (Hn : all_receipts (own acknowledged.1) ≫= lookup "f" = None) by (vm_compute; reflexivity).
  split; [vm_compute; reflexivity|]. split; [vm_compute; reflexivity|].
  destruct (receipt_settled Files.wide_sha hex_bytes no_request_bytes token_env (peer_request Ack []) thanked _ _ "f" note_receipt Hp Hy Hn)
    as (_ & x & p & origin & Hx & Hph & _ & _ & _ & Hst & _).
  split; [exact Hst|]. unfold peer_meta. rewrite Hx. exact Hph.
Defined.

(** A download the user asked for, admitted, finished and refreshed. *)
Definition download_store : Store.Persistence :=
  (UserTransfers.prepare_user_transfer CallButtons.toy_random UserTransfers.chat UserTransfers.Download (Some "f") 12 1 (new_store [])).1.
Definition bound_download : World :=
  (bind_download_admission token_env "f" UserTransfers.film_id
     (accept_offer Files.wide_sha plain_path (offer_of note_sealed) (attached download_store)).1).1.
Definition to_refresh : World := finished (start_download token_env "f" bound_download).1.
Abbreviation refreshed := (refresh_execution token_env to_refresh).

Definition finished_admission : Admission := default no_admission (admission_of "f" (own refreshed.1)).

Lemma refresh_agrees_witness :
  a_direction finished_admission = UserTransfers.Download /\ raw_states (own refreshed.1) !! "f" = Some Slots.Available /\
  (a_state finished_admission = UserTransfers.Complete \/ a_state finished_admission = UserTransfers.Cancelled).
Proof.
  assert (Hp : refreshed = (refreshed.1, Ok tt)) by (apply surjective_pairing_eq; vm_compute; reflexivity).
  assert (Ha : admission_of "f" (own refreshed.1) = Some finished_admission) by (vm_compute; reflexivity).
  assert (Hd : a_direction finished_admission = UserTransfers.Download) by (vm_compute; reflexivity).
  assert (Hr : raw_states (own refreshed.1) !! "f" = Some Slots.Available) by (vm_compute; reflexivity).
  split; [exact Hd|]. split; [exact Hr|].
  exact (refresh_agrees token_env _ refreshed.1 "f" finished_admission Slots.Available UserTransfers.Complete Hp Ha Hd Hr eq_refl).
Defined.

(** *** One operation, from the start *)

Abbreviation toy_operation := (operation plain_chunk plain_chunk Files.wide_sha hex_bytes no_request_bytes plain_path).
Definition one_offer cleaning : rtc (toy_operation cleaning) fresh
    (prepare_offer Files.wide_sha plain_path toy_secret toy_secret note_out None fresh).1 :=
  rtc_once _ _ (Offered _ _ _ _ _ _ cleaning toy_secret toy_secret note_out None fresh).
Definition after_offer : World := (prepare_offer Files.wide_sha plain_path toy_secret toy_secret note_out None fresh).1.

Lemma leases_counted_witness :
  Files.leases (files after_offer) !! Files.note_path = Some 1%N /\ counted (fun _ => 0%N) after_offer.
Proof.
  split; [vm_compute; reflexivity|].
  refine (leases_counted plain_chunk plain_chunk Files.wide_sha hex_bytes no_request_bytes plain_path (fun _ => 0%N) fresh after_offer _ (one_offer True)).
  split; [intros p; vm_compute; reflexivity|]. intros p n Hn. vm_compute in Hn. discriminate Hn.
Defined.


(** Four operations: attached, offered, bound and published; then the peer asks. *)
Abbreviation first_operation := (attach_execution plain_chunk Files.wide_sha plain_path token_env DM_HISTORY "x" (device upload_store)).
Abbreviation second_operation := (prepare_offer Files.wide_sha plain_path toy_secret toy_secret note_out None first_operation).1.
Abbreviation third_operation := (bind_user_admission token_env (Some UserTransfers.film_id) (o_manifest note_sealed) second_operation).1.
Abbreviation fourth_operation := (record_published (A := unit) (E := unit) note_sealed (Ok tt) third_operation).1.
Abbreviation peer_answered :=
  (serve plain_chunk Files.wide_sha hex_bytes no_request_bytes token_env (peer_request Request [0%N]) fourth_operation).1.

Lemma peer_answered_reached : rtc (toy_operation True) (device upload_store) peer_answered.
Proof.
  refine (rtc_l _ _ _ _ (Attached _ _ _ _ _ _ True token_env DM_HISTORY "x" (device upload_store)) _).
  refine (rtc_l _ _ _ _ (Offered _ _ _ _ _ _ True toy_secret toy_secret note_out None first_operation) _).
  refine (rtc_l _ _ _ _ (BoundUpload _ _ _ _ _ _ True token_env (Some UserTransfers.film_id) (o_manifest note_sealed) second_operation) _).
  refine (rtc_l _ _ _ _ (Published _ _ _ _ _ _ True unit unit note_sealed (Ok tt) third_operation) _).
  exact (rtc_once _ _ (Answered _ _ _ _ _ _ True token_env (peer_request Request [0%N]) fourth_operation)).
Qed.

Definition is_attached (t : Transfer) : bool := bool_decide (is_Some (t_execution t)).
Lemma attached_default d t : is_attached t = true -> t_execution t = Some (default d (t_execution t)).
Proof. unfold is_attached. intros H%bool_decide_eq_true. by destruct (t_execution t) as [c|]; [|destruct H]. Qed.
Definition answering : Execution := default sender_execution (t_execution (own peer_answered)).
Lemma serving_bounded_witness : size (pending (serving answering)) = 1 /\ serving_ok (serving answering).
Proof.
  assert (Hc : t_execution (own peer_answered) = Some answering).
  { unfold answering. assert (He : is_attached (own peer_answered) = true) by (vm_compute; reflexivity). by apply attached_default. }
  split; [vm_compute; reflexivity|].
  refine (serving_bounded plain_chunk plain_chunk Files.wide_sha hex_bytes no_request_bytes plain_path (device upload_store) peer_answered
    answering _ peer_answered_reached Hc).
  intros c0 Hc0. discriminate Hc0.
Defined.

End Serving.
